(* ===== verification/_CoqProject ===== *)
-Q . S2P
Prelude.v
Prog.v
JsString.v
Decimal.v
CanonicalJson.v
StateMachines.v
Comparator.v
Store.v
Provider.v
OrderService.v
RiskGrants.v
Authority.v
Boundary.v
JsMap.v
AdapterRegistry.v
DispatchLease.v
Adapter.v
DecimalSpecs.v
MarketSafety.v
Orchestrator.v
Dispatch.v
TradeCas.v
JsDate.v
SignalGate.v
Sizing.v
SizingBounds.v
FxRates.v
Locks.v
Assured.v
TradeIntents.v
Sums.v
Capital.v
Allocation.v
CapitalBounds.v
TradeReservation.v
AccountSnapshots.v
DailyRisk.v
RiskProfiles.v
RiskSession.v
RiskRules.v
RiskEngine.v
RiskApproval.v
RiskLimits.v
Sessions.v
Execution.v
Confirmations.v
ExecutionSpecs.v
ExecutionRuns.v
ConfirmationSpecs.v
FeeRates.v
ClosedTrades.v
FeeBooks.v
TradeLedger.v
FeeAssessments.v
FeePayments.v
BillingCycles.v
FeeGuarantees.v
FeeSpecs.v
FeeRaces.v
CycleFailures.v
