(* ===== verification/Prelude.v ===== *)
(** * iRexPro: the execution core and the fees of the trading backend

    iRexPro lets users trade foreign-exchange accounts through broker adapters, from signals an
    AI engine produces.  This development models the part of its NestJS backend
    ([src/apps/api/src], the paths below are relative to it; [modules/] is dropped) that holds
    trading authority: everything between the arrival of a signal and the provider call that
    places an order, with the store it runs on; and the part that charges for what was earned.  Every definition is translated from the
    TypeScript named in the header of its file, every theorem is about those definitions.

    ** How the program works, and how the parts interact

    A delivery of a signal is registered once under its identity and the digest of its payload
    ([SignalGate]).  The decision becomes a durable intent ([TradeIntents]), is sized from the
    account, the market and the user's limits ([Sizing]), and reserves capital under the
    account's budget ([Allocation] over the aggregate of [Capital]).  The risk engine evaluates
    it ([RiskEngine]) against the profile and the kill switch ([RiskProfiles]), the active
    session with its peak equity ([RiskSession]), the account's versioned snapshots
    ([AccountSnapshots]), the day's loss ([DailyRisk]), the emergency controls ([Authority]) and
    the arithmetic rules ([RiskRules]); an approval is a durable grant ([RiskGrants]) that binds
    every fact it was given under by generation, revision or digest ([CanonicalJson]).  The
    session a user starts and stops ([Sessions]) decides whether a proposal is executed at once or
    waits for the user to confirm it ([Confirmations]).  An execution ([Execution]) re-reads what
    it may act on and inserts the trade under its idempotency key ([TradeReservation]).  The orchestrator
    ([Orchestrator]) submits the order once ([OrderService]), takes the account lease
    ([DispatchLease]), reads a fresh quote ([MarketSafety]), passes the final boundary
    ([Boundary]), which re-reads every authority and consumes the grant in one transaction, and
    only then calls the adapter ([Adapter], [AdapterRegistry]); it retries only what is proven
    not sent and records the outcome ([Provider], [StateMachines], [TradeCas]), which the
    execution settles on the trade.  Closes, their sweeps and the emergency flatten
    ([Execution]) go the same way without a grant.  What the
    provider holds is later compared with what was recorded ([Comparator]).

    The same backend charges performance fees.  A billing cycle ([BillingCycles]) reads the
    closed trades of a broker account into the fee ledger ([ClosedTrades], [TradeLedger]),
    assesses the result above the account's high-water mark ([FeeAssessments], [FeeRates]) and
    invoices the fee; the user opens a checkout session at a payment provider, and only the
    provider's verified webhook marks the invoice and the assessment paid and raises the mark
    ([FeePayments]).  It shares no table with the execution core and has a store of its own
    ([FeeBooks]).

    ** The files

    Foundations
    - [Prelude]: notations, the shared tactics and hint databases, list, option and integer lemmas.
    - [Prog]: service methods as trees of atomic store operations; [run] (alone), [exec] (any
      interleaving, where an operation may be lost or its acknowledgement may be).
    - [Locks]: critical sections under PostgreSQL advisory locks, their step relation and a
      rely-guarantee rule.  [Assured]: rely-guarantee for calls that interleave freely.
    - [JsString], [JsMap], [JsDate]: what the code uses of JavaScript's strings, regular
      expressions, maps and dates.
    - [Decimal], [DecimalSpecs]: common/utils/exact-decimal.ts, and its meaning as rationals.
    - [Sums]: [SELECT SUM] over a table, and how it moves with one row.

    State
    - [Store]: the tables ([DB]), the errors, the statements; entities of execution/entities,
      execution/orders/order.entity.ts, execution-authority/entities, execution-control/entities,
      risk/entities, broker/entities.
    - [StateMachines]: execution/orders/{order,trade}-state-machine.ts,
      execution/entities/trading-session-state-machine.ts, broker/authorization.

    Authority
    - [CanonicalJson]: execution/interfaces/execution-authority.ts.
    - [Authority]: execution-authority/{trading-authority,shared-control-revision}.service.ts,
      execution-control/execution-control.service.ts.
    - [RiskGrants]: risk/risk-grant.service.ts, execution-authority/grant-invalidation.service.ts,
      execution/orchestration/risk-grant-consumer.ts.
    - [Boundary]: execution/orchestration/final-dispatch-boundary.ts.

    Risk
    - [AccountSnapshots]: broker/services/broker-account-snapshot.service.ts and the methods of
      broker/broker.service.ts that observe an account.
    - [DailyRisk]: execution/services/daily-risk-period.service.ts.
    - [RiskProfiles], [RiskSession], [RiskRules], [RiskEngine]: risk/risk.service.ts,
      risk/risk-order-geometry.service.ts, execution/execution-session.resolution.ts.
    - [RiskApproval], [RiskLimits]: the theorems on the engine.

    Capital and signals
    - [SignalGate]: execution/orchestration/signal-identity.gate.ts.
    - [TradeIntents]: execution/services/trade-intent.service.ts.
    - [Sizing], [SizingBounds]: execution/services/position-sizing.service.ts and its helpers.
      [FxRates]: the specification of the rates it and the risk engine convert with.
    - [Capital], [Allocation], [CapitalBounds]: execution/services/allocation.service.ts,
      execution/jobs/execution-expiry.job.ts.
    - [TradeReservation]: [atomicallyReserveTradeSlot] of execution/execution.service.ts.

    Sessions, executions, closes
    - [Sessions]: the sessions of execution/execution.service.ts (start, mode, resume, stop).
    - [Execution]: [executeTrade], [closeTrade], the sweeps and the emergency flatten of
      execution/execution.service.ts.  [ExecutionSpecs]: what every call of it guarantees, at any
      interleaving.  [ExecutionRuns]: what it leaves when it runs alone.
    - [Confirmations], [ConfirmationSpecs]: execution/execution-confirmation.service.ts.

    Dispatch
    - [OrderService]: execution/orders/order.service.ts.  [TradeCas]:
      execution/orders/trade-lifecycle-cas.service.ts.
    - [DispatchLease], [MarketSafety], [Orchestrator], [Dispatch]: execution/orchestration
      (account-dispatch-lease, market-safety-gate, execution-orchestrator).
    - [Provider], [Adapter], [AdapterRegistry]: execution/orchestration/provider-*.ts,
      broker/interfaces, broker/registry, broker/verification, broker/adapters (the registry and
      the cTrader identity).
    - [Comparator]: execution/reconciliation/reconciliation-comparator.ts.

    Fees
    - [FeeRates]: performance-fees/services/performance-fee-calculation.ts, binary64 included.
    - [ClosedTrades], [TradeLedger]: broker-reconciliation/services.
    - [FeeBooks]: the tables, from the entities of performance-fees, payments,
      performance-billing and broker-reconciliation and the indexes of database/migrations.
    - [FeeAssessments]: performance-fees/services/performance-fee.service.ts.
    - [FeePayments]: payments/services/payment-routing.service.ts,
      performance-fee-payment.service.ts and webhook-processor.service.ts.
    - [BillingCycles]: performance-billing/services/performance-fee-billing-cycle.service.ts.
    - [FeeGuarantees]: every call of these, and what holds at any interleaving.  [FeeSpecs]: what
      adds up when calls are served one by one.  [FeeRaces], [CycleFailures]: samples, and what
      goes wrong.

    ** How the code is modelled

    A method is a [prog]: each awaited statement is one atomic operation on [DB], everything
    between two statements is pure.  A [transaction] whose statements cannot be observed apart
    by what the theorems say is one operation, which is stated where it is done; where the
    store is locked in a transaction, [Locks] keeps the statements apart.  Exceptions are the
    type [exn], a lost connection is the exception [DbUnavailable], thrown before or after the
    statement took effect.  A sequential theorem says [run m d = (d', Ok r)]; a concurrent one
    quantifies over the schedule of [exec] or the steps of [Locks], hence over every
    interleaving and every loss.  Decimals are exact ([ED]), money columns are integers at
    their scale, and what PostgreSQL rounds or refuses is written out.  SHA-256, uuids, the
    market, the adapters and the reading of dates are arguments.

    ** What the theorems show

    Dispatch: whatever executions, confirmations, closes, flattens and dispatches run together,
    at most one provider call per order key and per grant is not proven unsent
    ([execute_once]); every outcome is recorded ([dispatch_records]) and settled on the trade
    ([execute_settles], [close_settles], [flatten_reports]); the boundary's checks in full
    ([authorize_exact], [commit_exact]); exclusive and live leases.
    Confirmations: what is sent is what the user confirmed ([confirm_sends]), what is listed
    ([pending_listed]).
    Authority: the kill switch fences every grant before it ([kill_switch_fenced]), sessions
    are singular and a stop is final for every commit that begins after it
    ([sessions_follow], [stop_is_final]).
    Risk: every approval is backed by a stored grant of exactly what was approved
    ([approval_backed]), was given under the session's authority ([approved_under_authority]),
    within the account's limits ([approved_within_limits]) and the order's
    ([approved_exposure_bounded]); periods, snapshots and the peak are singular, versioned and
    monotone; amounts are converted at exactly the rates the market proves
    ([resolveCachedBid_exact]).
    Capital: allocations of any interleaving stay within the budget
    ([allocations_within_budget]), sizes within the risk, the margin and the broker's grid
    ([sizing_bounded], [step_down_exact]).
    Fees: a broker trade enters the ledger once, with its net result ([trades_ledgered_once]), in
    the minor units it was reported in ([minor_units_exact]); the fee is the exact share of the profit
    ([fee_exact]); only verified payments move a mark ([only_webhooks_pay]); served one by one,
    calls charge a profit once: marks are the sums of what was paid for ([profit_charged_once]).
    Records: orders, intents, trades and signals move forward and once.
    Records compared: a comparison reports exactly the discrepancies of a specification of its
    own ([compareStates_refines]).
    Foundations: exact arithmetic, round trips, and which values share a canonical text
    ([canonicalJson_injective]).
    Some theorems state where the code departs from what it means to do
    ([closes_sent_twice], [partial_close_closed], [confirm_regime_rejected],
    [confirmation_drifts], [sweep_frees_live_margin], [stale_equity_trusted],
    [suspension_bypassed], [half_paid_never_completed], [assessed_twice_together],
    [boundary_profit_charged_twice], [delivered_twice_together], [long_cycle_fails],
    [cycle_never_completes], [cycle_left_midway]).

    ** Bounds and fuel

    [Sizing.step_down] has the fuel [S (high - low)], one more than the interval it halves, and
    [sizing_terminates] shows it never runs out.  The convergence loops (the issuance of a
    grant, the insert of a snapshot) have the attempts the code gives them, three and two.
    [Prog.run] is structural on the program.  [Decimal.strip] and [JsString.to_digits_aux] have
    one unit of fuel per digit they may remove or print, and the round trips show that it is enough.  Regular
    expressions are matched by derivatives, structurally on the text.

    ** Not modelled

    The adapters' network clients, OAuth and credential storage (sockets, cryptography,
    third-party libraries); the AI producers, strategies and market-data ingestion, which are
    floating-point heuristics whose output is the input of [SignalGate] and [Sizing]; HTTP
    controllers, realtime, notifications, metrics, logs, health; the web, administration and
    mobile applications; the reconciliation workflow around [Comparator]; the read and count
    queries of execution/execution.service.ts; the fee simulation of PAPER accounts, the clients
    of the payment providers, the views of invoices, subscriptions.  Within the modelled parts: audit metadata but for the codes theorems use,
    events, messages, the price columns and the grant id of a reserved trade, display scores, foreign keys, the padding of the numeric columns of a confirmation,
    and the in-process write lease of the snapshots,
    without which the model has more schedules than the program.  A transaction modelled as
    one step has fewer: what is proved of it holds of the isolation the code relies on. *)

From Stdlib Require Export ZArith Lia Ascii String Zquot.
From stdpp Require Export base tactics list gmap strings numbers sorting.

Open Scope Z_scope.

Declare Scope prog_scope.
Delimit Scope prog_scope with prog.

(** ** Results: a value or a typed error *)

Inductive result (E A : Type) : Type :=
| Ok (a : A)
| Err (e : E).
Arguments Ok {E A} a.
Arguments Err {E A} e.

Definition rbind {E A B} (r : result E A) (f : A -> result E B) : result E B :=
  match r with Ok a => f a | Err e => Err e end.

Definition rmap {E A B} (f : A -> B) (r : result E A) : result E B :=
  match r with Ok a => Ok (f a) | Err e => Err e end.

Definition is_ok {E A} (r : result E A) : bool :=
  match r with Ok _ => true | Err _ => false end.

Definition ok_opt {E A} (r : result E A) : option A :=
  match r with Ok a => Some a | Err _ => None end.

Declare Scope result_scope.
Delimit Scope result_scope with result.
Notation "'try!' x ':=' r 'in' k" := (rbind r (fun x => k))
  (at level 10, x binder, r at level 100, k at level 200) : result_scope.

Lemma rbind_ok {E A B} (r : result E A) (f : A -> result E B) b :
  rbind r f = Ok b <-> exists a, r = Ok a /\ f a = Ok b.
Proof.
  destruct r; simpl; split; [eauto| | discriminate |];
    intros (? & ? & ?); simplify_eq; done.
Qed.

Lemma rmap_ok {E A B} (f : A -> B) (r : result E A) b :
  rmap f r = Ok b <-> exists a, r = Ok a /\ b = f a.
Proof.
  destruct r; simpl; split; [intros [= <-]; eauto| | discriminate |];
    intros (? & ? & ?); simplify_eq; done.
Qed.

(** ** Tactics *)

(** Split a guard chain [if b1 then Err .. else if ..] one test at a time,
    keeping the test as an equation. *)
Ltac guards :=
  repeat match goal with
         | H : context [if ?b then _ else _] |- _ =>
             let E := fresh "Hguard" in destruct b eqn:E; simplify_eq/=
         | |- context [if ?b then _ else _] =>
             let E := fresh "Hguard" in destruct b eqn:E; simplify_eq/=
         end.

(** Turn the boolean tests of a context into propositions. *)
Ltac bool_to_prop :=
  repeat match goal with
         | H : (_ && _)%bool = true |- _ => apply andb_true_iff in H as [? ?]
         | H : (_ || _)%bool = false |- _ => apply orb_false_iff in H as [? ?]
         | H : negb _ = true |- _ => apply negb_true_iff in H
         | H : negb _ = false |- _ => apply negb_false_iff in H
         | H : bool_decide _ = true |- _ => apply bool_decide_eq_true in H
         | H : bool_decide _ = false |- _ => apply bool_decide_eq_false in H
         | H : (_ =? _) = true |- _ => apply Z.eqb_eq in H
         | H : (_ =? _) = false |- _ => apply Z.eqb_neq in H
         | H : (_ <? _) = true |- _ => apply Z.ltb_lt in H
         | H : (_ <? _) = false |- _ => apply Z.ltb_ge in H
         | H : (_ <=? _) = true |- _ => apply Z.leb_le in H
         | H : (_ <=? _) = false |- _ => apply Z.leb_gt in H
         | H : (_ >? _) = true |- _ => apply Z.gtb_lt in H
         | H : (_ >? _) = false |- _ => rewrite Z.gtb_ltb in H; apply Z.ltb_ge in H
         | H : (_ >=? _) = true |- _ => apply Z.geb_le in H
         | H : (_ >=? _) = false |- _ => rewrite Z.geb_leb in H; apply Z.leb_gt in H
         end.

(** ** Generic lemmas *)

Create HintDb irex discriminated.

Lemma pow10_pos n : 0 <= n -> 0 < 10 ^ n.
Proof. intros; apply Z.pow_pos_nonneg; lia. Qed.
#[export] Hint Resolve pow10_pos : irex.

Lemma pow10_add a b : 0 <= a -> 0 <= b -> 10 ^ (a + b) = 10 ^ a * 10 ^ b.
Proof. intros; apply Z.pow_add_r; lia. Qed.

Lemma pow10_split a b : 0 <= a <= b -> 10 ^ b = 10 ^ a * 10 ^ (b - a).
Proof. intros. rewrite <- pow10_add by lia. f_equal; lia. Qed.
