(* ===== verification/Prog.v ===== *)
(** * Programs over a shared store

    The services of the backend are [async] methods whose every [await] on the
    database is a point where another request, or another replica, may run.  A
    service method is modelled as a [prog]: a tree of atomic store operations.
    [run] executes a method alone; [exec] interleaves any number of them under an
    arbitrary schedule, where each scheduled operation may also be lost before it
    reaches the store ([Down]) or be applied while its acknowledgement is lost
    ([AckLost]).  The file proves the two facts the components use about
    interleavings: a relation every operation respects holds of the whole run
    ([exec_guar]), and a one-shot token is won at most once ([one_shot]). *)

From S2P Require Import Prelude.

Section prog.
Context {S E : Type}.

Inductive prog (A : Type) : Type :=
| Ret (a : A)
| Throw (e : E)
| Op {X : Type} (act : S -> S * result E X) (k : result E X -> prog A).

Arguments Ret {A} a.
Arguments Throw {A} e.
Arguments Op {A X} act k.

Fixpoint bind {A B} (p : prog A) (f : A -> prog B) : prog B :=
  match p with
  | Ret a => f a
  | Throw e => Throw e
  | Op act k => Op act (fun r => bind (k r) f)
  end.

(** [try { p } catch (e) { h e }]. *)
Fixpoint catch {A} (p : prog A) (h : E -> prog A) : prog A :=
  match p with
  | Ret a => Ret a
  | Throw e => h e
  | Op act k => Op act (fun r => catch (k r) h)
  end.

(** [try { p.. } catch ..] whose handler and normal continuation differ. *)
Fixpoint attempt {A} (p : prog A) : prog (result E A) :=
  match p with
  | Ret a => Ret (Ok a)
  | Throw e => Ret (Err e)
  | Op act k => Op act (fun r => attempt (k r))
  end.

Definition of_result {A} (r : result E A) : prog A :=
  match r with Ok a => Ret a | Err e => Throw e end.

(** One awaited statement: its error is thrown at the caller. *)
Definition op {X} (act : S -> S * result E X) : prog X := Op act of_result.

(** A statement that only reads, and one that only writes. *)
Definition read {X} (f : S -> X) : prog X := op (fun s => (s, Ok (f s))).
Definition modify (f : S -> S) : prog unit := op (fun s => (f s, Ok tt)).

Fixpoint run {A} (p : prog A) (s : S) : S * result E A :=
  match p with
  | Ret a => (s, Ok a)
  | Throw e => (s, Err e)
  | Op act k => let '(s', r) := act s in run (k r) s'
  end.

(** A database transaction: its statements take effect together, or not at all
    when it throws. *)
Definition transaction {A} (p : prog A) : prog A :=
  op (fun s => match run p s with
               | (s', Ok a) => (s', Ok a)
               | (_, Err e) => (s, Err e)
               end).

(** ** Running alone *)

Lemma run_bind {A B} (p : prog A) (f : A -> prog B) s :
  run (bind p f) s =
    match run p s with
    | (s', Ok a) => run (f a) s'
    | (s', Err e) => (s', Err e)
    end.
Proof.
  revert s; induction p as [a|e|X act k IH]; intros s; simpl; [done..|].
  destruct (act s) as [s' r]. apply IH.
Qed.

Lemma run_catch {A} (p : prog A) h s :
  run (catch p h) s =
    match run p s with
    | (s', Ok a) => (s', Ok a)
    | (s', Err e) => run (h e) s'
    end.
Proof.
  revert s; induction p as [a|e|X act k IH]; intros s; simpl; [done..|].
  destruct (act s) as [s' r]. apply IH.
Qed.

Lemma run_attempt {A} (p : prog A) s :
  run (attempt p) s = let '(s', r) := run p s in (s', Ok r).
Proof.
  revert s; induction p as [a|e|X act k IH]; intros s; simpl; [done..|].
  destruct (act s) as [s' r]. apply IH.
Qed.

Lemma run_op {X} (act : S -> S * result E X) s : run (op act) s = act s.
Proof. simpl. destruct (act s) as [s' [a|e]]; done. Qed.

Lemma run_read {X} (f : S -> X) s : run (read f) s = (s, Ok (f s)).
Proof. done. Qed.

Lemma run_modify f s : run (modify f) s = (f s, Ok tt).
Proof. done. Qed.

Lemma run_transaction {A} (p : prog A) s :
  run (transaction p) s =
    match run p s with (s', Ok a) => (s', Ok a) | (_, Err e) => (s, Err e) end.
Proof. unfold transaction; rewrite run_op. done. Qed.
End prog.

Arguments prog : clear implicits.
Arguments Ret {S E A} a.
Arguments Throw {S E A} e.
Arguments Op {S E A X} act k.

Notation "'let*' x ':=' p 'in' k" := (bind p%prog (fun x => k%prog))
  (at level 10, x binder, p at level 100, k at level 200) : prog_scope.
Notation "'do!' p 'in' k" := (bind p%prog (fun _ => k%prog))
  (at level 10, p at level 100, k at level 200) : prog_scope.

(** Case analysis of a sequential run, one bind at a time. *)
Ltac run_simpl :=
  repeat first
    [ rewrite run_bind | rewrite run_catch | rewrite run_attempt | rewrite run_read
    | rewrite run_modify | rewrite run_op | rewrite run_transaction
    | progress cbn [run of_result fst snd] ].

(** The tests on the number of affected rows. *)
Ltac counts :=
  repeat first
    [ progress change (0 <? 0) with false | progress change (0 <? 1) with true
    | progress change (0 =? 0) with true | progress change (1 =? 1) with true
    | progress change (0 =? 1) with false | progress change (1 =? 0) with false ];
  cbn [negb].

(** ** Interleavings *)

Inductive delivery := Exec | Down | AckLost.

Section pool.
Context {S E A : Type}.
(** The error a caller sees when the store does not answer. *)
Context (lost : E).

Definition step1 (d : delivery) (p : prog S E A) (s : S) : S * prog S E A :=
  match p with
  | Op act k =>
      match d with
      | Exec => let '(s', r) := act s in (s', k r)
      | Down => (s, k (Err lost))
      | AckLost => let '(s', _) := act s in (s', k (Err lost))
      end
  | p => (s, p)
  end.

Definition step_at (i : nat) (d : delivery) (c : S * list (prog S E A))
  : S * list (prog S E A) :=
  match snd c !! i with
  | Some p => let '(s', p') := step1 d p (fst c) in (s', <[i := p']> (snd c))
  | None => c
  end.

Fixpoint exec (sched : list (nat * delivery)) (c : S * list (prog S E A))
  : S * list (prog S E A) :=
  match sched with
  | [] => c
  | (i, d) :: sched => exec sched (step_at i d c)
  end.

(** *** A relation respected by every operation *)

Section guarantee.
Context (R : S -> S -> Prop).

Fixpoint guar (p : prog S E A) : Prop :=
  match p with
  | Op act k => (forall s, R s (fst (act s))) /\ forall r, guar (k r)
  | _ => True
  end.

Context `{!PreOrder R}.

Lemma step_at_guar i d c :
  Forall guar (snd c) ->
  R (fst c) (fst (step_at i d c)) /\ Forall guar (snd (step_at i d c)).
Proof.
  destruct c as [s ps]; unfold step_at; simpl. intros Hg.
  destruct (ps !! i) as [p|] eqn:Hi; [|simpl; split; [reflexivity|done]].
  pose proof (Forall_lookup_1 _ _ _ _ Hg Hi) as Hp.
  destruct p as [a|e|X act k]; simpl.
  1,2: split; [reflexivity|]; by rewrite list_insert_id.
  destruct Hp as [HR Hk].
  specialize (HR s).
  destruct d; simpl; [destruct (act s) as [s' r] | | destruct (act s) as [s' r]];
    simpl in *; (split; [first [done|reflexivity]|]); by apply Forall_insert.
Qed.

Lemma exec_guar sched c :
  Forall guar (snd c) -> R (fst c) (fst (exec sched c)).
Proof.
  revert c; induction sched as [|[i d] sched IH]; intros c Hg; simpl; [reflexivity|].
  destruct (step_at_guar i d c Hg) as [HR Hg'].
  etransitivity; [exact HR|]. by apply IH.
Qed.
(** Composition: a program keeps a relation when its parts do. *)
Lemma exec_inv sched c (P : S -> Prop) :
  (forall s s', R s s' -> P s -> P s') ->
  Forall guar (snd c) -> P (fst c) -> P (fst (exec sched c)).
Proof. intros HP Hg. apply HP. by apply exec_guar. Qed.
End guarantee.

(** *** A one-shot token

    [spent] says the token is gone; a program [needs] it when none of its paths
    returns a winning value without an operation that takes the token from
    unspent to spent. *)

Section token.
Context (spent : S -> bool) (wins : A -> bool).

Definition fires (s s' : S) : Prop := spent s = false /\ spent s' = true.

Fixpoint needs (p : prog S E A) : Prop :=
  match p with
  | Ret a => wins a = false
  | Throw _ => True
  | Op act k =>
      (forall s, fires s (fst (act s)) \/ needs (k (snd (act s)))) /\
      needs (k (Err lost))
  end.

Definition stays (s s' : S) : Prop := spent s = true -> spent s' = true.

#[global] Instance stays_preorder : PreOrder stays.
Proof. split; unfold stays; [by intros ?|]. intros ???; eauto. Qed.

Definition tok_inv (c : S * list (prog S E A)) (w : option nat) : Prop :=
  (is_Some w -> spent (fst c) = true) /\
  forall j p, snd c !! j = Some p -> w <> Some j -> needs p.

Lemma step1_needs d p s :
  needs p -> needs (snd (step1 d p s)) \/ fires s (fst (step1 d p s)).
Proof.
  destruct p as [a|e|X act k]; simpl; [eauto..|].
  intros [Hop Hlost]. specialize (Hop s).
  destruct d; [destruct (act s); simpl in *; tauto | simpl; tauto |].
  destruct (act s); simpl in *; tauto.
Qed.

Lemma step_at_tok i d c w :
  Forall (guar stays) (snd c) -> tok_inv c w ->
  exists w', tok_inv (step_at i d c) w' /\
             (spent (fst c) = true -> w' = w) .
Proof.
  intros Hg [Hw Hneeds].
  destruct (step_at_guar stays i d c Hg) as [Hst _].
  destruct c as [s ps]; unfold step_at in *; simpl in *.
  destruct (ps !! i) as [p|] eqn:Hi; [|by exists w].
  destruct (decide (w = Some i)) as [->|Hne].
  { exists (Some i); split; [|done].
    destruct (step1 d p s) as [s' p'] eqn:Hs; simpl in *; split; simpl.
    - intros _. apply Hst, Hw; eauto.
    - intros j q Hj Hij. rewrite list_lookup_insert_ne in Hj by congruence. eauto. }
  pose proof (step1_needs d p s (Hneeds _ _ Hi Hne)) as Hcase.
  destruct (step1 d p s) as [s' p'] eqn:Hs; simpl in *.
  assert (forall u, (is_Some u -> spent s' = true) ->
            (needs p' \/ u = Some i) -> (w = None \/ u = w) ->
            tok_inv (s', <[i:=p']> ps) u) as Hmk.
  { intros u Hu Hp Huw; split; [done|]; simpl. intros j q Hj Hju.
    destruct (decide (i = j)) as [->|Hij].
    - apply lookup_lt_Some in Hi.
      rewrite list_lookup_insert_eq in Hj by done. simplify_eq.
      destruct Hp; [done|congruence].
    - rewrite list_lookup_insert_ne in Hj by done.
      apply (Hneeds j q Hj). destruct Huw as [->|<-]; congruence. }
  destruct Hcase as [Hn|[Hf Ht]].
  - exists w; split; [|done]. apply Hmk; eauto.
  - exists (Some i); split; [|congruence]. apply Hmk; eauto.
    left. destruct w; [|done]. rewrite Hw in Hf by eauto. done.
Qed.

Lemma exec_tok sched c w :
  Forall (guar stays) (snd c) -> tok_inv c w ->
  exists w', tok_inv (exec sched c) w' /\ (spent (fst c) = true -> w' = w).
Proof.
  revert c w; induction sched as [|[i d] sched IH]; intros c w Hg Hinv; simpl.
  { by exists w. }
  destruct (step_at_guar stays i d c Hg) as [Hst Hg'].
  destruct (step_at_tok i d c w Hg Hinv) as (w1 & Hinv1 & Heq1).
  destruct (IH _ w1 Hg' Hinv1) as (w2 & Hinv2 & Heq2).
  exists w2; split; [done|]. intros Hs. rewrite Heq2; auto.
Qed.

Definition winner (c : S * list (prog S E A)) (i : nat) : Prop :=
  exists a, snd c !! i = Some (Ret a) /\ wins a = true.

(** At most one thread of any pool wins the token, a win leaves it spent, and
    no thread wins a token that was spent from the start. *)
Lemma one_shot sched c :
  Forall (guar stays) (snd c) -> Forall needs (snd c) ->
  (forall i j, winner (exec sched c) i -> winner (exec sched c) j -> i = j) /\
  (forall i, winner (exec sched c) i ->
     spent (fst c) = false /\ spent (fst (exec sched c)) = true).
Proof.
  intros Hg Hn.
  destruct (exec_tok sched c None Hg) as (w & [Hw Hneeds] & Heq).
  { split; [by intros [? ?]|]. intros j p Hj _.
    by apply (Forall_lookup_1 _ _ _ _ Hn Hj). }
  assert (forall i, winner (exec sched c) i -> w = Some i) as Hwin.
  { intros i (a & Hi & Ha). destruct (decide (w = Some i)) as [|Hne]; [done|].
    specialize (Hneeds _ _ Hi Hne). simpl in Hneeds. congruence. }
  split.
  - intros i j Hi%Hwin Hj%Hwin. congruence.
  - intros i Hi%Hwin. split.
    + destruct (spent (fst c)); [|done]. rewrite Heq in Hi by done. done.
    + apply Hw. rewrite Hi. eauto.
Qed.
End token.

(** *** Tickets

    The counting form: a measure no operation lowers, and programs that [pay], none of
    whose paths returns a winning value without an operation that raises the measure.
    Every winner then accounts for a unit of the measure. *)

Section tickets.
Context (measure : S -> Z) (wins : A -> bool).

Fixpoint pays (p : prog S E A) : Prop :=
  match p with
  | Ret a => wins a = false
  | Throw _ => True
  | Op act k =>
      (forall s, measure s < measure (fst (act s)) \/ pays (k (snd (act s)))) /\
      pays (k (Err lost))
  end.

Definition rises (s s' : S) : Prop := measure s <= measure s'.

#[export] Instance rises_preorder : PreOrder rises.
Proof. split; unfold rises; [intros ?|intros ???]; lia. Qed.

Definition is_winner (p : prog S E A) : bool :=
  match p with Ret a => wins a | _ => false end.

Definition winners (ps : list (prog S E A)) : Z := Z.of_nat (length (List.filter is_winner ps)).

(** [flags] marks the threads that have raised the measure. *)
Definition paid (m0 : Z) (c : S * list (prog S E A)) (flags : list bool) : Prop :=
  length flags = length (snd c) /\
  m0 + Z.of_nat (length (List.filter id flags)) <= measure (fst c) /\
  forall i p, snd c !! i = Some p -> flags !! i = Some false -> pays p.

Lemma filter_flag (flags : list bool) i :
  flags !! i = Some false ->
  length (List.filter id (<[i := true]> flags)) = Datatypes.S (length (List.filter id flags)).
Proof.
  revert i. induction flags as [|b flags IH]; intros [|i]; simpl; [done..| |].
  - intros [= ->]. done.
  - intros Hi. destruct b; simpl; by rewrite IH.
Qed.

Lemma step_at_paid m0 i d c flags :
  Forall (guar rises) (snd c) -> paid m0 c flags -> exists flags', paid m0 (step_at i d c) flags'.
Proof.
  intros Hg (Hlen & Hm & Hp). destruct (step_at_guar rises i d c Hg) as [Hr _].
  destruct c as [s ps]; unfold step_at in *; simpl in *. unfold rises in Hr.
  destruct (ps !! i) as [p|] eqn:Hi; [|by exists flags].
  destruct (flags !! i) as [[]|] eqn:Hf.
  - exists flags. destruct (step1 d p s) as [s' p']; simpl in *. split; [simpl; by rewrite length_insert|].
    split; [simpl; lia|]. intros j q Hj Hfj. simpl in Hj.
    rewrite list_lookup_insert_ne in Hj by congruence. eauto.
  - assert (pays (snd (step1 d p s)) \/ measure s < measure (fst (step1 d p s))) as Hcase.
    { specialize (Hp i p Hi Hf). destruct p as [a|e|X act k]; simpl; [eauto..|].
      destruct Hp as [Hop Hl]. specialize (Hop s).
      destruct d; [destruct (act s); simpl in *; tauto|simpl; tauto|destruct (act s); simpl in *; tauto]. }
    destruct (step1 d p s) as [s' p']; simpl in *.
    assert (i < length ps)%nat as Hlt by by apply lookup_lt_Some in Hi.
    destruct Hcase as [Hpay|Hup].
    + exists flags. split; [simpl; by rewrite length_insert|]. split; [simpl; lia|]. intros j q Hj Hfj. simpl in Hj.
      destruct (decide (i = j)) as [<-|Hne].
      * rewrite list_lookup_insert_eq in Hj by done. by injection Hj as <-.
      * rewrite list_lookup_insert_ne in Hj by done. eauto.
    + exists (<[i := true]> flags). split; [simpl; by rewrite !length_insert|].
      split; [simpl; rewrite filter_flag by done; lia|]. intros j q Hj Hfj. simpl in Hj.
      destruct (decide (i = j)) as [<-|Hne].
      * rewrite list_lookup_insert_eq in Hfj by lia. done.
      * rewrite list_lookup_insert_ne in Hj by done. rewrite list_lookup_insert_ne in Hfj by done. eauto.
  - apply lookup_ge_None in Hf. apply lookup_lt_Some in Hi. lia.
Qed.

Lemma winners_flags ps flags :
  length flags = length ps -> (forall i p, ps !! i = Some p -> flags !! i = Some false -> pays p) ->
  (length (List.filter is_winner ps) <= length (List.filter id flags))%nat.
Proof.
  revert flags. induction ps as [|p ps IH]; intros [|b flags]; simpl; try done. intros [= Hl] Hp.
  assert (length (List.filter is_winner ps) <= length (List.filter id flags))%nat as Hle.
  { apply IH; [done|]. intros i q. apply (Hp (Datatypes.S i) q). }
  destruct b; simpl; [destruct (is_winner p); simpl; lia|].
  specialize (Hp 0%nat p eq_refl eq_refl). destruct p as [a|e|X act k]; simpl in *; [|lia..].
  by rewrite Hp.
Qed.

Lemma exec_paid m0 sched c flags :
  Forall (guar rises) (snd c) -> paid m0 c flags -> exists flags', paid m0 (exec sched c) flags'.
Proof.
  revert c flags. induction sched as [|[i d] sched IH]; intros c flags Hg Hp; simpl; [by exists flags|].
  destruct (step_at_guar rises i d c Hg) as [_ Hg'].
  destruct (step_at_paid m0 i d c flags Hg Hp) as [flags' Hp']. by apply (IH _ flags').
Qed.

(** As many winners as units at most. *)
Lemma tickets sched c :
  Forall (guar rises) (snd c) -> Forall pays (snd c) ->
  measure (fst c) + winners (snd (exec sched c)) <= measure (fst (exec sched c)).
Proof.
  intros Hg Hp. assert (exists flags, paid (measure (fst c)) (exec sched c) flags) as (flags & Hl & Hm & Hf).
  { assert (paid (measure (fst c)) c (replicate (length (snd c)) false)) as H0.
    { split; [by rewrite length_replicate|]. split.
      - assert (forall n, List.filter id (replicate n false) = []) as -> by (induction n; done). simpl. lia.
      - intros i p Hi _. by apply (Forall_lookup_1 _ _ _ _ Hp Hi). }
    by apply (exec_paid _ _ _ _ Hg H0). }
  unfold winners. pose proof (winners_flags _ _ Hl Hf). lia.
Qed.
End tickets.

(** *** Allowances

    Where the token has been taken, a program [spends n] when it raises the measure by [n] at
    most, whatever it is answered; it is [gated n] when it cannot raise the measure at all before it has taken a token from
    unspent to spent, and spends [n] at most after that.  A pool of gated programs raises the
    measure by [n] at most, all together. *)

Section allowance.
Context (spent : S -> bool) (measure : S -> Z).

Fixpoint spends (n : Z) (p : prog S E A) : Prop :=
  match p with
  | Op act k =>
      (forall s, spent s = true -> exists m, measure (fst (act s)) <= measure s + m /\ 0 <= m /\
         spends (n - m) (k (snd (act s))) /\ spends (n - m) (k (Err lost))) /\
      spends n (k (Err lost))
  | _ => 0 <= n
  end.

Fixpoint gated (n : Z) (p : prog S E A) : Prop :=
  match p with
  | Op act k =>
      (forall s, measure (fst (act s)) <= measure s /\
         ((fires spent s (fst (act s)) /\ spends n (k (snd (act s)))) \/ gated n (k (snd (act s))))) /\
      gated n (k (Err lost))
  | _ => True
  end.

Lemma spends_mono n n' p : n <= n' -> spends n p -> spends n' p.
Proof.
  revert n n'. induction p as [a|e|X act k IH]; intros n n' Hle; simpl; [lia..|]. intros [Ha Hl].
  split; [|by eapply IH]. intros s Hs. destruct (Ha s Hs) as (m & ? & ? & H1 & H2). exists m.
  split; [done|]. split; [done|]. split; (eapply IH; [|done]); lia.
Qed.

Lemma spends_nonneg n p : spends n p -> 0 <= n.
Proof. induction p as [a|e|X act k IH]; simpl; [done..|]. intros [_ Hl]. by eapply IH. Qed.

(** Where the token is gone, a gated program raises nothing. *)
Lemma gated_spent n p : gated n p -> spends 0 p.
Proof.
  induction p as [a|e|X act k IH]; simpl; [done..|]. intros [Ha Hl]. split; [|by apply IH].
  intros s Hs. destruct (Ha s) as [Hm Hc]. exists 0. split; [lia|]. split; [done|].
  split; [|by apply IH]. destruct Hc as [[[Hf _] _]|?]; [congruence|by apply IH].
Qed.

Lemma gated_spends n p : 0 <= n -> gated n p -> spends n p.
Proof. intros Hn Hp. by apply (spends_mono 0), (gated_spent n). Qed.

(** The allowance is held by nobody, or what is left of it by one thread. *)
Definition allowed (m0 n : Z) (c : S * list (prog S E A)) (w : option nat) : Prop :=
  match w with
  | None => measure (fst c) <= m0
  | Some i => spent (fst c) = true /\
      exists r p, snd c !! i = Some p /\ spends r p /\ measure (fst c) + r <= m0 + n
  end /\
  forall j p, snd c !! j = Some p -> w <> Some j -> gated n p.

Lemma step1_gated n d p s :
  0 <= n -> gated n p ->
  let '(s', p') := step1 d p s in
  measure s' <= measure s /\ (gated n p' \/ (fires spent s s' /\ spends n p')).
Proof.
  intros Hn. destruct p as [a|e|X act k]; cbn [gated step1]; [by split; [|left]..|].
  intros [Ha Hl]. destruct (Ha s) as [Hm Hc].
  destruct d; [destruct (act s) as [s' r] | | destruct (act s) as [s' r]]; cbn [fst snd] in *.
  - split; [done|]. destruct Hc; [by right|by left].
  - split; [done|by left].
  - split; [done|by left].
Qed.

Lemma step1_spends r d p s :
  spent s = true -> spends r p ->
  let '(s', p') := step1 d p s in exists r', spends r' p' /\ measure s' + r' <= measure s + r.
Proof.
  intros Hs. destruct p as [a|e|X act k]; cbn [spends step1].
  1,2: intros Hr; exists r; split; [done|lia].
  intros [Ha Hl]. destruct (Ha s Hs) as (m & Hm & H0 & H1 & H2).
  destruct d; [destruct (act s) as [s' x] | | destruct (act s) as [s' x]]; cbn [fst snd] in *.
  - exists (r - m). split; [done|lia].
  - exists r. split; [done|lia].
  - exists (r - m). split; [done|lia].
Qed.

Lemma step_at_allowed m0 n i d c w :
  0 <= n -> Forall (guar (stays spent)) (snd c) -> allowed m0 n c w ->
  exists w', allowed m0 n (step_at i d c) w' /\ (spent (fst c) = true -> w' = w).
Proof.
  intros Hn Hg [Hw Hgate]. destruct (step_at_guar (stays spent) i d c Hg) as [Hst _].
  destruct c as [s ps]; unfold step_at in *; cbn [fst snd] in *.
  destruct (ps !! i) as [p|] eqn:Hi; [|by exists w].
  assert (i < length ps)%nat as Hlt by by apply lookup_lt_Some in Hi.
  assert (forall p' j q, <[i := p']> ps !! j = Some q -> j <> i -> w <> Some j -> gated n q) as Hoth
    by (intros p' j q Hj Hne Hwj; rewrite list_lookup_insert_ne in Hj by done; eauto).
  assert (forall p' j, j <> i -> <[i := p']> ps !! j = ps !! j) as Hkeep
    by (intros; by apply list_lookup_insert_ne).
  destruct (decide (w = Some i)) as [->|Hne].
  - destruct Hw as (Hs & r & q & Hq & Hr & Hm). rewrite Hi in Hq. injection Hq as <-.
    pose proof (step1_spends r d p s Hs Hr) as Hstep. destruct (step1 d p s) as [s' p'].
    destruct Hstep as (r' & Hr' & Hm'). exists (Some i). split; [|done]. split; cbn [fst snd].
    + split; [by apply Hst|]. exists r', p'. rewrite list_lookup_insert_eq by done. split; [done|]. split; [done|lia].
    + intros j x Hj Hj'. by apply (Hoth p' j x Hj); [congruence|].
  - pose proof (step1_gated n d p s Hn (Hgate i p Hi Hne)) as Hstep. destruct (step1 d p s) as [s' p'].
    destruct Hstep as [Hm Hcase]. cbn [fst snd] in *.
    destruct Hcase as [Hg'|[[Hf Ht] Hsp]].
    + exists w. split; [|done]. split; cbn [fst snd].
      * destruct w as [j|]; [|lia]. destruct Hw as (Hs & r & q & Hq & Hr & Hm2).
        split; [by apply Hst|]. exists r, q. rewrite Hkeep by congruence. split; [done|]. split; [done|lia].
      * intros j x Hj Hwj. destruct (decide (j = i)) as [->|]; [|by apply (Hoth p' j x Hj)].
        rewrite list_lookup_insert_eq in Hj by done. by injection Hj as <-.
    + exists (Some i). split; [|congruence]. destruct w as [j|].
      { destruct Hw as [Hs _]. congruence. }
      split; cbn [fst snd].
      * split; [done|]. exists n, p'. rewrite list_lookup_insert_eq by done. split; [done|]. split; [done|lia].
      * intros j x Hj Hwj. by apply (Hoth p' j x Hj); [congruence|].
Qed.

Lemma exec_allowed m0 n sched c w :
  0 <= n -> Forall (guar (stays spent)) (snd c) -> allowed m0 n c w ->
  exists w', allowed m0 n (exec sched c) w' /\ (spent (fst c) = true -> w' = w).
Proof.
  intros Hn. revert c w. induction sched as [|[i d] sched IH]; intros c w Hg Ha; simpl; [by exists w|].
  destruct (step_at_guar (stays spent) i d c Hg) as [Hst Hg'].
  destruct (step_at_allowed m0 n i d c w Hn Hg Ha) as (w1 & Ha1 & He1).
  destruct (IH _ w1 Hg' Ha1) as (w2 & Ha2 & He2). exists w2. split; [done|].
  intros Hs. rewrite He2; auto.
Qed.

(** The measure rises by the allowance at most, and not at all when the token was gone from
    the start or is still there at the end. *)
Lemma allowance n sched c :
  0 <= n -> Forall (guar (stays spent)) (snd c) -> Forall (gated n) (snd c) ->
  measure (fst (exec sched c)) <= measure (fst c) + n /\
  (measure (fst c) < measure (fst (exec sched c)) ->
     spent (fst c) = false /\ spent (fst (exec sched c)) = true).
Proof.
  intros Hn Hg Hp. destruct (exec_allowed (measure (fst c)) n sched c None Hn Hg) as (w & [Hw Hr] & Heq).
  { split; [done|]. intros j p Hj _. by apply (Forall_lookup_1 _ _ _ _ Hp Hj). }
  destruct w as [i|]; cbn in Hw.
  - destruct Hw as (Hs & r & p & _ & Hsp%spends_nonneg & Hm). split; [lia|]. intros _. split; [|done].
    destruct (spent (fst c)); [by discriminate Heq|done].
  - split; lia.
Qed.
End allowance.

(** *** What an answer says of the store

    A program [knows] [K] when every answer it gives is backed by the store: [K] is what it has
    established so far, kept by every operation of the pool; an operation may establish more,
    and an answer must follow from it. *)

Section knowledge.
Context (R : S -> S -> Prop) `{!PreOrder R} (says : A -> S -> Prop).

Definition stable (K : S -> Prop) : Prop := forall s s', R s s' -> K s -> K s'.

Fixpoint knows (K : S -> Prop) (p : prog S E A) : Prop :=
  match p with
  | Ret a => forall s, K s -> says a s
  | Throw _ => True
  | Op act k =>
      (forall s, K s -> exists K', stable K' /\ K' (fst (act s)) /\ knows K' (k (snd (act s)))) /\
      knows K (k (Err lost))
  end.

Definition backed (s : S) (p : prog S E A) : Prop := exists K, stable K /\ K s /\ knows K p.

Lemma backed_later s s' p : R s s' -> backed s p -> backed s' p.
Proof. intros HR (K & Hst & HK & Hp). exists K. split; [done|]. split; [by apply (Hst s)|done]. Qed.

Lemma step1_backed d p s :
  guar R p -> backed s p -> backed (fst (step1 d p s)) (snd (step1 d p s)).
Proof.
  intros Hg (K & Hst & HK & Hp). destruct p as [a|e|X act k]; [by exists K..|].
  destruct Hg as [Hact _]. destruct Hp as [Hs Hl]. destruct (Hs s HK) as (K' & Hst' & HK' & Hk). specialize (Hact s).
  destruct d; cbn [step1]; [|by exists K|]; destruct (act s) as [s' r]; cbn in *; [by exists K'|].
  exists K. split; [done|]. split; [by apply (Hst s)|done].
Qed.

Lemma exec_backed sched c :
  Forall (guar R) (snd c) -> Forall (backed (fst c)) (snd c) ->
  Forall (backed (fst (exec sched c))) (snd (exec sched c)).
Proof.
  revert c. induction sched as [|[i d] sched IH]; intros c Hg Hb; [done|]. cbn [exec].
  destruct (step_at_guar R i d c Hg) as [HR Hg']. apply IH; [done|]. destruct c as [s ps]. unfold step_at in *. cbn [fst snd] in *.
  destruct (ps !! i) as [p|] eqn:Hi; [|done].
  pose proof (step1_backed d p s (Forall_lookup_1 _ _ _ _ Hg Hi) (Forall_lookup_1 _ _ _ _ Hb Hi)) as Hp.
  destruct (step1 d p s) as [s' p']. cbn [fst snd] in *. apply Forall_insert; [|done].
  eapply Forall_impl; [exact Hb|]. intros q. by apply backed_later.
Qed.

(** Every answer of the pool holds of the store at the end. *)
Lemma answers_hold sched c i a :
  Forall (guar R) (snd c) -> Forall (knows (fun _ => True)) (snd c) ->
  snd (exec sched c) !! i = Some (Ret a) -> says a (fst (exec sched c)).
Proof.
  intros Hg Hk Hi. assert (Forall (backed (fst c)) (snd c)) as Hb.
  { eapply Forall_impl; [exact Hk|]. intros p Hp. by exists (fun _ => True). }
  destruct (Forall_lookup_1 _ _ _ _ (exec_backed sched c Hg Hb) Hi) as (K & _ & HK & Hp). by apply Hp.
Qed.
End knowledge.
End pool.

Section guar_lemmas.
Context {S E : Type} (R : S -> S -> Prop) `{!Reflexive R}.

Lemma guar_bind {A B} (p : prog S E A) (f : A -> prog S E B) :
  guar R p -> (forall a, guar R (f a)) -> guar R (bind p f).
Proof. intros Hp Hf; induction p as [a|e|X act k IH]; simpl in *; [done..|]. firstorder. Qed.

Lemma guar_catch {A} (p : prog S E A) h :
  guar R p -> (forall e, guar R (h e)) -> guar R (catch p h).
Proof. intros Hp Hh; induction p as [a|e|X act k IH]; simpl in *; [done..|]. firstorder. Qed.

Lemma guar_op {X} (act : S -> S * result E X) :
  (forall s, R s (fst (act s))) -> guar R (op act).
Proof. intros Ha. split; [done|]. by intros [x|e]. Qed.

Lemma guar_attempt {A} (p : prog S E A) : guar R p -> guar R (attempt p).
Proof. intros Hp; induction p as [a|e|X act k IH]; simpl in *; [done..|]. firstorder. Qed.

Lemma guar_of_result {X} (r : result E X) : guar R (of_result r).
Proof. by destruct r. Qed.

Lemma guar_read {X} (f : S -> X) : guar R (read (E := E) f).
Proof. by apply guar_op. Qed.

Lemma guar_modify (f : S -> S) : (forall s, R s (f s)) -> guar R (modify (E := E) f).
Proof. intros Hf. by apply guar_op. Qed.

Lemma guar_run {A} (p : prog S E A) s : Transitive R -> guar R p -> R s (fst (run p s)).
Proof.
  intros Htr; revert s; induction p as [a|e|X act k IH]; intros s; simpl; [done..|].
  intros [Ha Hk]. specialize (Ha s). destruct (act s) as [s' r]; simpl in *.
  etransitivity; [exact Ha|]. by apply IH.
Qed.

Lemma guar_transaction {A} (p : prog S E A) :
  Transitive R -> guar R p -> guar R (transaction p).
Proof.
  intros Htr Hp. apply guar_op. intros s. pose proof (guar_run p s Htr Hp) as Hr.
  destruct (run p s) as [s' [a|e]]; simpl in *; [done|reflexivity].
Qed.

Lemma guar_weaken {A} (R' : S -> S -> Prop) (p : prog S E A) :
  (forall s s', R s s' -> R' s s') -> guar R p -> guar R' p.
Proof. intros HR; induction p as [a|e|X act k IH]; simpl; [done..|]. firstorder. Qed.
End guar_lemmas.

Lemma guar_and {S E A} (R1 R2 : S -> S -> Prop) (p : prog S E A) :
  guar R1 p -> guar R2 p -> guar (fun s s' => R1 s s' /\ R2 s s') p.
Proof. induction p as [a|e|X act k IH]; simpl; [done..|]. firstorder. Qed.

(** ** Composing [pays] *)

Section pays_lemmas.
Context {S E : Type} (lost : E) (measure : S -> Z).

Abbreviation always := (fun _ => true).

Lemma pays_bind_l {A B} (wins : B -> bool) (p : prog S E A) (f : A -> prog S E B) :
  pays lost measure always p -> pays lost measure wins (bind p f).
Proof.
  induction p as [a|e|X act k IH]; simpl; [done..|]. intros [Ha Hl]. split; [|by apply IH].
  intros s. destruct (Ha s); [by left|right]. by apply IH.
Qed.

Lemma pays_bind_r {A B} (wins : B -> bool) (p : prog S E A) (f : A -> prog S E B) :
  (forall a, pays lost measure wins (f a)) -> pays lost measure wins (bind p f).
Proof. intros Hf. induction p as [a|e|X act k IH]; simpl; [done..|]. eauto. Qed.

Lemma pays_catch {A} (wins : A -> bool) (p : prog S E A) h :
  pays lost measure wins p -> (forall e, pays lost measure wins (h e)) -> pays lost measure wins (catch p h).
Proof.
  intros Hp Hh. induction p as [a|e|X act k IH]; simpl in *; [done..|]. destruct Hp as [Ha Hl].
  split; [|by apply IH]. intros s. destruct (Ha s); [by left|right]. by apply IH.
Qed.

Lemma pays_quiet {A B} (wins : B -> bool) (p : prog S E A) (b : B) :
  wins b = false -> pays lost measure wins (bind p (fun _ => Ret b)).
Proof. intros Hb. by apply pays_bind_r. Qed.

Lemma pays_run {A} (p : prog S E A) s s' a :
  guar (rises measure) p -> pays lost measure always p -> run p s = (s', Ok a) -> measure s < measure s'.
Proof.
  revert s. induction p as [b|e|X act k IH]; intros s; simpl; [done..|].
  intros [Hg Hk] [Ha _]. specialize (Hg s). specialize (Ha s). unfold rises in Hg.
  destruct (act s) as [s1 r] eqn:Hact; simpl in *. intros Hr.
  assert (measure s1 <= measure s') as Hup.
  { pose proof (guar_run (rises measure) (k r) s1) as Hrun. rewrite Hr in Hrun. apply Hrun; [|done].
    unfold rises. intros ???; lia. }
  destruct Ha as [Ha|Ha]; [lia|]. pose proof (IH r s1 (Hk r) Ha Hr). lia.
Qed.

Lemma pays_transaction {A} (p : prog S E A) :
  guar (rises measure) p -> pays lost measure always p -> pays lost measure always (transaction p).
Proof.
  intros Hg Hp. split; [|done]. intros s. destruct (run p s) as [s' [a|e]] eqn:Hr; simpl; [left|by right].
  by apply (pays_run p s s' a).
Qed.
End pays_lemmas.

(** ** Composing [needs] *)

Section needs_lemmas.
Context {S E : Type} (lost : E) (spent : S -> bool).

Lemma needs_ext {A} (wins wins' : A -> bool) (p : prog S E A) :
  (forall a, wins a = wins' a) -> needs lost spent wins p -> needs lost spent wins' p.
Proof. intros Hw. induction p as [a|e|X act k IH]; simpl; [by rewrite Hw|done|]. firstorder. Qed.

Lemma needs_never {A} (wins : A -> bool) (p : prog S E A) :
  (forall a, wins a = false) -> needs lost spent wins p.
Proof. intros Hw. induction p as [a|e|X act k IH]; simpl; auto. Qed.

Lemma needs_map {A B} (wins : B -> bool) (h : A -> B) (p : prog S E A) :
  needs lost spent (fun a => wins (h a)) p -> needs lost spent wins (bind p (fun a => Ret (h a))).
Proof. induction p as [a|e|X act k IH]; simpl; [done..|]. firstorder. Qed.

Lemma needs_bind_l {A B} (wins : B -> bool) (p : prog S E A) (f : A -> prog S E B) :
  needs lost spent (fun _ => true) p -> needs lost spent wins (bind p f).
Proof. induction p as [a|e|X act k IH]; simpl; [done..|]. firstorder. Qed.

Lemma needs_bind_r {A B} (wins : B -> bool) (p : prog S E A) (f : A -> prog S E B) :
  (forall a, needs lost spent wins (f a)) -> needs lost spent wins (bind p f).
Proof. intros Hf. induction p as [a|e|X act k IH]; simpl; [done..|]. eauto. Qed.

Lemma needs_catch {A} (wins : A -> bool) (p : prog S E A) h :
  needs lost spent wins p -> (forall e, needs lost spent wins (h e)) -> needs lost spent wins (catch p h).
Proof. intros Hp Hh. induction p as [a|e|X act k IH]; simpl in *; [done..|]. firstorder. Qed.

(** A statement, and a statement whose error is handled. *)
Lemma needs_op {X B} (wins : B -> bool) (act : S -> S * result E X) (f : X -> prog S E B) :
  (forall s s' x, act s = (s', Ok x) -> fires spent s s' \/ needs lost spent wins (f x)) ->
  needs lost spent wins (bind (op act) f).
Proof.
  intros Ha. split; [|done]. intros s. destruct (act s) as [s' [x|e]] eqn:E1; simpl; [eauto|by right].
Qed.

Lemma needs_catch_op {X B} (wins : B -> bool) (act : S -> S * result E X) h (f : X -> prog S E B) :
  (forall s s' x, act s = (s', Ok x) -> fires spent s s' \/ needs lost spent wins (f x)) ->
  (forall e, needs lost spent wins (bind (h e) f)) ->
  needs lost spent wins (bind (catch (op act) h) f).
Proof.
  intros Ha He. split; [|apply He]. intros s. destruct (act s) as [s' [x|e]] eqn:E1; simpl; eauto.
Qed.
End needs_lemmas.

(** ** Composing [gated] and [spends] *)

Section allowance_lemmas.
Context {S E : Type} (lost : E) (spent : S -> bool) (measure : S -> Z).

(** The program never raises the measure. *)
Definition still (s s' : S) : Prop := measure s' <= measure s.

#[export] Instance still_preorder : PreOrder still.
Proof. split; unfold still; [intros ?|intros ???]; lia. Qed.

Lemma gated_still {A} n (p : prog S E A) : guar still p -> gated lost spent measure n p.
Proof.
  induction p as [a|e|X act k IH]; simpl; [done..|]. intros [Ha Hk]. split; [|by apply IH].
  intros s. split; [apply Ha|right; by apply IH].
Qed.

Lemma spends_still {A} n (p : prog S E A) : 0 <= n -> guar still p -> spends lost spent measure n p.
Proof.
  intros Hn Hp. by apply gated_spends, gated_still.
Qed.

Lemma spends_bind {A B} n (p : prog S E A) (f : A -> prog S E B) :
  guar still p -> (forall a, spends lost spent measure n (f a)) -> 0 <= n -> spends lost spent measure n (bind p f).
Proof.
  intros Hp Hf Hn. induction p as [a|e|X act k IH]; simpl in *; [done..|]. destruct Hp as [Ha Hk].
  split; [|by apply IH]. intros s _. specialize (Ha s). unfold still in Ha. exists 0. rewrite Z.sub_0_r.
  split; [lia|]. split; [done|]. split; by apply IH.
Qed.

(** Spending first, then nothing more. *)
Lemma spends_bind_still {A B} n (p : prog S E A) (f : A -> prog S E B) :
  spends lost spent measure n p -> (forall a, guar still (f a)) -> spends lost spent measure n (bind p f).
Proof.
  intros Hp Hf. revert n Hp. induction p as [a|e|X act k IH]; intros n; simpl; [|done|].
  - intros Hn. by apply spends_still.
  - intros [Ha Hl]. split; [|by apply IH]. intros s Hs. destruct (Ha s Hs) as (m & ? & ? & ? & ?).
    exists m. split; [done|]. split; [done|]. split; by apply IH.
Qed.

Lemma spends_bind_add {A B} n m (p : prog S E A) (f : A -> prog S E B) :
  spends lost spent measure n p -> (forall a, spends lost spent measure m (f a)) -> 0 <= m ->
  spends lost spent measure (n + m) (bind p f).
Proof.
  intros Hp Hf Hm. revert n Hp. induction p as [a|e|X act k IH]; intros n; simpl.
  - intros Hn. eapply spends_mono; [|apply Hf]. lia.
  - lia.
  - intros [Ha Hl]. split; [|by apply IH]. intros s Hs. destruct (Ha s Hs) as (x & ? & ? & ? & ?). exists x.
    split; [done|]. split; [done|]. replace (n + m - x) with (n - x + m) by lia. split; by apply IH.
Qed.

Lemma spends_attempt {A} n (p : prog S E A) : spends lost spent measure n p -> spends lost spent measure n (attempt p).
Proof.
  revert n. induction p as [a|e|X act k IH]; intros n; simpl; [done..|]. intros [Ha Hl]. split; [|by apply IH].
  intros s Hs. destruct (Ha s Hs) as (x & ? & ? & ? & ?). exists x. split; [done|]. split; [done|]. split; by apply IH.
Qed.

(** A program that wins only by taking the token, followed by what the winner may spend. *)
Lemma gated_bind_wins {A B} n (wins : A -> bool) (p : prog S E A) (f : A -> prog S E B) :
  0 <= n -> guar still p -> needs lost spent wins p ->
  (forall a, wins a = true -> spends lost spent measure n (f a)) ->
  (forall a, wins a = false -> gated lost spent measure n (f a)) ->
  gated lost spent measure n (bind p f).
Proof.
  intros Hn Hp Hneed Ht Hf. assert (forall a, spends lost spent measure n (f a)) as Hall.
  { intros a. destruct (wins a) eqn:Hw; [by apply Ht|]. by apply (gated_spends lost spent), Hf. }
  induction p as [a|e|X act k IH]; simpl in *; [by apply Hf|done|].
  destruct Hp as [Ha Hk]. destruct Hneed as [Ho Hl]. split; [|by apply IH].
  intros s. split; [apply Ha|]. destruct (Ho s) as [Hfi|Hnx]; [left|right; by apply IH].
  split; [done|]. by apply spends_bind.
Qed.

Lemma gated_bind_r {A B} n (p : prog S E A) (f : A -> prog S E B) :
  guar still p -> (forall a, gated lost spent measure n (f a)) -> gated lost spent measure n (bind p f).
Proof.
  intros Hp Hf. induction p as [a|e|X act k IH]; simpl in *; [done..|]. destruct Hp as [Ha Hk].
  split; [|by apply IH]. intros s. split; [apply Ha|right; by apply IH].
Qed.

(** Programs that are gated on the same token one after the other: what follows a part that
    has taken it raises nothing. *)
Lemma spends_bind_gated {A B} n n' (p : prog S E A) (f : A -> prog S E B) :
  spends lost spent measure n p -> (forall a, gated lost spent measure n' (f a)) -> spends lost spent measure n (bind p f).
Proof.
  intros Hp Hf. revert n Hp. induction p as [a|e|X act k IH]; intros n; simpl; [|done|].
  - intros Hn. by apply (spends_mono lost spent measure 0), (gated_spent lost spent measure n').
  - intros [Ha Hl]. split; [|by apply IH]. intros s Hs. destruct (Ha s Hs) as (m & ? & ? & ? & ?).
    exists m. split; [done|]. split; [done|]. split; by apply IH.
Qed.

Lemma spends_catch {A} n n' (p : prog S E A) h :
  spends lost spent measure n p -> (forall e, gated lost spent measure n' (h e)) -> spends lost spent measure n (catch p h).
Proof.
  intros Hp Hh. revert n Hp. induction p as [a|e|X act k IH]; intros n; simpl; [done| |].
  - intros Hn. by apply (spends_mono lost spent measure 0), (gated_spent lost spent measure n').
  - intros [Ha Hl]. split; [|by apply IH]. intros s Hs. destruct (Ha s Hs) as (m & ? & ? & ? & ?).
    exists m. split; [done|]. split; [done|]. split; by apply IH.
Qed.

Lemma gated_bind {A B} n (p : prog S E A) (f : A -> prog S E B) :
  gated lost spent measure n p -> (forall a, gated lost spent measure n (f a)) -> gated lost spent measure n (bind p f).
Proof.
  intros Hp Hf. induction p as [a|e|X act k IH]; simpl in *; [done..|].
  destruct Hp as [Ha Hl]. split; [|by apply IH]. intros s. destruct (Ha s) as [Hm [[Hfi Hs]|Hg]].
  - split; [done|left]. split; [done|]. by apply (spends_bind_gated n n).
  - split; [done|right]. by apply IH.
Qed.

Lemma gated_catch {A} n (p : prog S E A) h :
  gated lost spent measure n p -> (forall e, gated lost spent measure n (h e)) -> gated lost spent measure n (catch p h).
Proof.
  intros Hp Hh. induction p as [a|e|X act k IH]; simpl in *; [done..|].
  destruct Hp as [Ha Hl]. split; [|by apply IH]. intros s. destruct (Ha s) as [Hm [[Hf Hs]|Hg]].
  - split; [done|left]. split; [done|]. by apply (spends_catch n n).
  - split; [done|right]. by apply IH.
Qed.

Lemma gated_attempt {A} n (p : prog S E A) : gated lost spent measure n p -> gated lost spent measure n (attempt p).
Proof.
  intros Hp. induction p as [a|e|X act k IH]; simpl in *; [done..|].
  destruct Hp as [Ha Hl]. split; [|by apply IH]. intros s. destruct (Ha s) as [Hm [[Hf Hs]|Hg]].
  - split; [done|left]. split; [done|]. by apply spends_attempt.
  - split; [done|right]. by apply IH.
Qed.
End allowance_lemmas.

(** ** Composing [knows] *)

Section knows_lemmas.
Context {S E A : Type} (lost : E) (R : S -> S -> Prop) (says : A -> S -> Prop).

Lemma knows_weaken (K K' : S -> Prop) (p : prog S E A) :
  (forall s, K' s -> K s) -> knows lost R says K p -> knows lost R says K' p.
Proof. intros HK. induction p as [a|e|X act k IH]; simpl; [auto..|]. intros [Ha Hl]. auto. Qed.

(** A part whose effect the answer does not rest on. *)
Lemma knows_bind_any {B} (p : prog S E B) (f : B -> prog S E A) :
  (forall x, knows lost R says (fun _ => True) (f x)) -> knows lost R says (fun _ => True) (bind p f).
Proof.
  intros Hf. induction p as [a|e|X act k IH]; simpl; [auto..|]. split; [|apply IH].
  intros s _. by exists (fun _ => True).
Qed.

(** A statement that establishes what the answer says. *)
Lemma knows_op (K : S -> Prop) {X} (act : S -> S * result E X) (f : X -> prog S E A) :
  (forall s x, K s -> snd (act s) = Ok x ->
     exists K', stable R K' /\ K' (fst (act s)) /\ knows lost R says K' (f x)) ->
  knows lost R says K (bind (op act) f).
Proof.
  intros Ha. split; [|done]. intros s HK. specialize (Ha s). destruct (act s) as [s' [x|e]]; cbn in *; [by apply Ha|].
  by exists (fun _ => True).
Qed.

Lemma knows_attempt_op (K : S -> Prop) {X} (act : S -> S * result E X) (f : result E X -> prog S E A) :
  (forall s x, K s -> snd (act s) = Ok x ->
     exists K', stable R K' /\ K' (fst (act s)) /\ knows lost R says K' (f (Ok x))) ->
  (forall e, knows lost R says (fun _ => True) (f (Err e))) ->
  knows lost R says K (bind (attempt (op act)) f).
Proof.
  intros Ha He. split; [|cbn; eapply knows_weaken; [|apply He]; done]. intros s HK. specialize (Ha s).
  destruct (act s) as [s' [x|e]]; cbn in *; [by apply Ha|]. by exists (fun _ => True).
Qed.
End knows_lemmas.

Lemma knows_map {S E A B} lost R (says : B -> S -> Prop) (h : A -> B) K (p : prog S E A) :
  knows lost R (fun a => says (h a)) K p -> knows lost R says K (bind p (fun a => Ret (h a))).
Proof.
  revert K. induction p as [a|e|X act k IH]; intros K; simpl; [done..|]. intros [Ha Hl]. split; [|by apply IH].
  intros s HK. destruct (Ha s HK) as (K' & ? & ? & ?). exists K'. auto.
Qed.

(** ** Programs on a part of the state

    A component's program run inside a larger system: its statements act on the part [get],
    and its errors are injected into the system's. *)

Section lift.
Context {S T E F : Type} (get : T -> S) (put : S -> T -> T) (inj : E -> F) (proj : F -> E).

Definition inject {X} (r : result E X) : result F X :=
  match r with Ok a => Ok a | Err e => Err (inj e) end.
Definition project {X} (r : result F X) : result E X :=
  match r with Ok a => Ok a | Err e => Err (proj e) end.

Fixpoint lift {A} (p : prog S E A) : prog T F A :=
  match p with
  | Ret a => Ret a
  | Throw e => Throw (inj e)
  | Op act k => Op (fun t => let '(s, r) := act (get t) in (put s t, inject r)) (fun r => lift (k (project r)))
  end.

Context (get_put : forall s t, get (put s t) = s) (put_get : forall t, put (get t) t = t)
        (put_put : forall s s' t, put s (put s' t) = put s t) (proj_inj : forall e, proj (inj e) = e).

Lemma project_inject {X} (r : result E X) : project (inject r) = r.
Proof. destruct r; simpl; [done|]. by rewrite proj_inj. Qed.

Lemma run_lift {A} (p : prog S E A) t :
  run (lift p) t = let '(s, r) := run p (get t) in (put s t, inject r).
Proof.
  revert t. induction p as [a|e|X act k IH]; intros t; simpl; [by rewrite put_get..|].
  destruct (act (get t)) as [s r] eqn:Ha. rewrite project_inject, IH, get_put.
  destruct (run (k r) s) as [s' r']. by rewrite put_put.
Qed.

Lemma guar_lift {A} (R : S -> S -> Prop) (R' : T -> T -> Prop) (p : prog S E A) :
  (forall s t, R (get t) s -> R' t (put s t)) -> guar R p -> guar R' (lift p).
Proof.
  intros HR. induction p as [a|e|X act k IH]; simpl; [done..|]. intros [Ha Hk]. split; [|intros r; by apply IH].
  intros t. specialize (Ha (get t)). destruct (act (get t)) as [s r]. by apply HR.
Qed.

Lemma guar_lift_any {A} (R' : T -> T -> Prop) (p : prog S E A) :
  (forall s t, R' t (put s t)) -> guar R' (lift p).
Proof.
  intros HR. induction p as [a|e|X act k IH]; simpl; [done..|]. split; [|intros r; by apply IH].
  intros t. destruct (act (get t)) as [s r]. apply HR.
Qed.

Lemma needs_lift {A} lost spent (wins : A -> bool) (p : prog S E A) :
  needs lost spent wins p -> needs (inj lost) (fun t => spent (get t)) wins (lift p).
Proof.
  induction p as [a|e|X act k IH]; simpl; [done..|]. intros [Ha Hl]. split.
  - intros t. destruct (Ha (get t)) as [Hf|Hn].
    + left. unfold fires in *. destruct (act (get t)) as [s r]. cbn in *. by rewrite get_put.
    + right. destruct (act (get t)) as [s r]. cbn in *. rewrite project_inject. by apply IH.
  - rewrite proj_inj. by apply IH.
Qed.
End lift.

#[export] Hint Resolve guar_read guar_of_result : irex.

(** Structural walk of a program built from the combinators; the leaves left over are the
    statements that write. *)
Ltac guar_walk :=
  repeat first
    [ match goal with
      | |- Reflexive _ => typeclasses eauto
      | |- Transitive _ => typeclasses eauto
      end
    | progress intros
    | match goal with
      | |- guar _ (bind _ _) => apply guar_bind
      | |- guar _ (catch _ _) => apply guar_catch
      | |- guar _ (attempt _) => apply guar_attempt
      | |- guar _ (transaction _) => apply guar_transaction
      | |- guar _ (read _) => apply guar_read
      | |- guar _ (of_result _) => apply guar_of_result
      | |- guar _ (Ret _) => exact I
      | |- guar _ (Throw _) => exact I
      | |- guar _ (match ?x with _ => _ end) => destruct x eqn:?
      | |- guar _ (if ?b then _ else _) => destruct b eqn:?
      end ].
