(* ===== verification/JsString.v ===== *)
(** * JavaScript strings, regular expressions and decimal numerals

    The parts of the language's string library the modelled code uses.  A string is
    a list of code units below 256 ([chars]); [String.string] is used for
    identifiers and converted at the boundary.  Regular expressions are matched by
    derivatives, and [re_match_iff] relates the matcher to the language of the
    expression. *)

From S2P Require Import Prelude.

Abbreviation chars := (list ascii).

Definition chars_of (s : string) : chars := list_ascii_of_string s.
Definition string_of (l : chars) : string := string_of_list_ascii l.

Lemma chars_of_string_of l : chars_of (string_of l) = l.
Proof. apply list_ascii_of_string_of_list_ascii. Qed.
Lemma string_of_chars_of s : string_of (chars_of s) = s.
Proof. apply string_of_list_ascii_of_string. Qed.

Definition code (c : ascii) : Z := Z.of_N (N_of_ascii c).
Definition ascii_of_code (z : Z) : ascii := ascii_of_N (Z.to_N z).

Lemma code_range c : 0 <= code c < 256.
Proof. unfold code. pose proof (N_ascii_bounded c). lia. Qed.

Lemma code_ascii z : 0 <= z < 256 -> code (ascii_of_code z) = z.
Proof.
  intros. unfold code, ascii_of_code. rewrite N_ascii_embedding by lia. lia.
Qed.

Definition ascii_eqb (a b : ascii) : bool := bool_decide (a = b).

(** ** Character classes *)

(** The class [\d], which is [0-9] only. *)
Definition is_digit (c : ascii) : bool := (48 <=? code c) && (code c <=? 57).
Definition is_upper (c : ascii) : bool := (65 <=? code c) && (code c <=? 90).
Definition is_lower (c : ascii) : bool := (97 <=? code c) && (code c <=? 122).
(** White space and line terminators stripped by [String.prototype.trim]. *)
Definition is_space (c : ascii) : bool :=
  ((9 <=? code c) && (code c <=? 13)) || (code c =? 32) || (code c =? 160).

(** ** String library *)

Fixpoint drop_while (f : ascii -> bool) (l : chars) : chars :=
  match l with
  | c :: l' => if f c then drop_while f l' else l
  | [] => []
  end.

Fixpoint take_while (f : ascii -> bool) (l : chars) : chars :=
  match l with
  | c :: l' => if f c then c :: take_while f l' else []
  | [] => []
  end.

(** [s.trim()]. *)
Definition trim (l : chars) : chars := rev (drop_while is_space (rev (drop_while is_space l))).

(** Index of the first character in a class ([search(/[..]/)], [indexOf(c)]). *)
Fixpoint find_index (f : ascii -> bool) (l : chars) : option nat :=
  match l with
  | [] => None
  | c :: l' => if f c then Some O else S <$> find_index f l'
  end.

Definition starts_with (c : ascii) (l : chars) : bool :=
  match l with c' :: _ => ascii_eqb c c' | [] => false end.

(** [s.split(c)] for a one-character separator. *)
Fixpoint split_on (c : ascii) (l : chars) : list chars :=
  match l with
  | [] => [[]]
  | x :: l' =>
      if ascii_eqb x c then [] :: split_on c l'
      else match split_on c l' with
           | p :: ps => (x :: p) :: ps
           | [] => [[x]]
           end
  end.

(** [s.padStart(n, c)] and [c.repeat(n)]. *)
Definition pad_start (n : nat) (c : ascii) (l : chars) : chars :=
  replicate (n - length l) c ++ l.

(** ** Decimal numerals *)

Definition digit_val (c : ascii) : Z := code c - 48.
Definition digit_char (d : Z) : ascii := ascii_of_code (48 + d).

Fixpoint digits_acc (acc : Z) (l : chars) : Z :=
  match l with
  | [] => acc
  | c :: l' => digits_acc (10 * acc + digit_val c) l'
  end.
(** The value of a run of decimal digits. *)
Definition digits_val (l : chars) : Z := digits_acc 0 l.

Fixpoint to_digits_aux (fuel : nat) (n : Z) (acc : chars) : chars :=
  match fuel with
  | O => acc
  | S fuel =>
      if n <? 10 then digit_char n :: acc
      else to_digits_aux fuel (n / 10) (digit_char (n mod 10) :: acc)
  end.
(** [n.toString()] for a non-negative BigInt; [log2 n + 1] digits always suffice. *)
Definition to_digits (n : Z) : chars := to_digits_aux (S (Z.to_nat (Z.log2 n))) n [].

Definition all_digits (l : chars) : Prop := Forall (fun c => is_digit c = true) l.

Definition hex_val (c : ascii) : option Z :=
  if is_digit c then Some (digit_val c)
  else if (97 <=? code c) && (code c <=? 102) then Some (code c - 87)
  else if (65 <=? code c) && (code c <=? 70) then Some (code c - 55)
  else None.

(** Digits of a radix-prefixed literal; [None] when one is out of the radix. *)
Fixpoint radix_val (r : Z) (acc : Z) (l : chars) : option Z :=
  match l with
  | [] => Some acc
  | c :: l' =>
      match hex_val c with
      | Some d => if d <? r then radix_val r (r * acc + d) l' else None
      | None => None
      end
  end.

Definition radix_of (c : ascii) : option Z :=
  if (code c =? 120) || (code c =? 88) then Some 16
  else if (code c =? 111) || (code c =? 79) then Some 8
  else if (code c =? 98) || (code c =? 66) then Some 2
  else None.

Definition signed_digits (l : chars) : option Z :=
  let '(neg, d) := match l with
                   | c :: l' => if ascii_eqb c "-"%char then (true, l')
                                else if ascii_eqb c "+"%char then (false, l') else (false, l)
                   | [] => (false, [])
                   end in
  match d with
  | [] => None
  | _ => if forallb is_digit d then Some (if neg : bool then - digits_val d else digits_val d)
         else None
  end.

(** [BigInt(s)]: [None] is the SyntaxError. *)
Definition js_BigInt (s : chars) : option Z :=
  let t := trim s in
  match t with
  | [] => Some 0
  | z :: x :: rest =>
      if ascii_eqb z "0"%char then
        match radix_of x with
        | Some r => match rest with [] => None | _ => radix_val r 0 rest end
        | None => signed_digits t
        end
      else signed_digits t
  | _ => signed_digits t
  end.

(** [Number.parseInt(s, 10)] on a string with no leading white space; [None] is
    NaN.  The result is exact here, where the engine rounds above 2^53. *)
Definition js_parseInt10 (l : chars) : option Z :=
  let '(neg, d) := match l with
                   | c :: l' => if ascii_eqb c "-"%char then (true, l')
                                else if ascii_eqb c "+"%char then (false, l') else (false, l)
                   | [] => (false, [])
                   end in
  match take_while is_digit d with
  | [] => None
  | ds => Some (if neg : bool then - digits_val ds else digits_val ds)
  end.

(** ** Regular expressions *)

Inductive re :=
| RNone
| REps
| RSet (f : ascii -> bool)
| RSeq (r1 r2 : re)
| RAlt (r1 r2 : re)
| RStar (r : re).

Definition RPlus (r : re) : re := RSeq r (RStar r).
Definition ROpt (r : re) : re := RAlt r REps.
Fixpoint RMax (r : re) (n : nat) : re :=
  match n with O => REps | S n => ROpt (RSeq r (RMax r n)) end.
(** [r{m,m+n}]. *)
Fixpoint RRep (r : re) (m n : nat) : re :=
  match m with O => RMax r n | S m => RSeq r (RRep r m n) end.
Definition RChar (c : ascii) : re := RSet (ascii_eqb c).
Definition RDigit : re := RSet is_digit.

Fixpoint nullable (r : re) : bool :=
  match r with
  | RNone | RSet _ => false
  | REps | RStar _ => true
  | RSeq r1 r2 => nullable r1 && nullable r2
  | RAlt r1 r2 => nullable r1 || nullable r2
  end.

Fixpoint deriv (c : ascii) (r : re) : re :=
  match r with
  | RNone | REps => RNone
  | RSet f => if f c then REps else RNone
  | RSeq r1 r2 =>
      if nullable r1 then RAlt (RSeq (deriv c r1) r2) (deriv c r2)
      else RSeq (deriv c r1) r2
  | RAlt r1 r2 => RAlt (deriv c r1) (deriv c r2)
  | RStar r => RSeq (deriv c r) (RStar r)
  end.

(** [/^r$/.test(s)]. *)
Fixpoint re_match (r : re) (l : chars) : bool :=
  match l with [] => nullable r | c :: l' => re_match (deriv c r) l' end.

Inductive lang : re -> chars -> Prop :=
| L_eps : lang REps []
| L_set f c : f c = true -> lang (RSet f) [c]
| L_seq r1 r2 l1 l2 : lang r1 l1 -> lang r2 l2 -> lang (RSeq r1 r2) (l1 ++ l2)
| L_altl r1 r2 l : lang r1 l -> lang (RAlt r1 r2) l
| L_altr r1 r2 l : lang r2 l -> lang (RAlt r1 r2) l
| L_star0 r : lang (RStar r) []
| L_star r l1 l2 : lang r l1 -> lang (RStar r) l2 -> lang (RStar r) (l1 ++ l2).
#[export] Hint Constructors lang : irex.

Lemma nullable_iff r : nullable r = true <-> lang r [].
Proof.
  split.
  - induction r; simpl; intros H; try discriminate; eauto with irex.
    + apply andb_true_iff in H as [? ?]. rewrite <- (app_nil_l []). eauto with irex.
    + apply orb_true_iff in H as [?|?]; eauto with irex.
  - intros H; remember [] as l eqn:E; induction H; simplify_eq/=; try done.
    + apply app_eq_nil in E as [-> ->]. by rewrite IHlang1, IHlang2.
    + by rewrite IHlang.
    + rewrite IHlang by done. apply orb_true_r.
Qed.

Lemma lang_seq_inv r1 r2 l :
  lang (RSeq r1 r2) l -> exists l1 l2, l = l1 ++ l2 /\ lang r1 l1 /\ lang r2 l2.
Proof. inversion 1; simplify_eq; eauto. Qed.
Lemma lang_alt_inv r1 r2 l : lang (RAlt r1 r2) l -> lang r1 l \/ lang r2 l.
Proof. inversion 1; simplify_eq; eauto. Qed.
Lemma lang_set_inv f l : lang (RSet f) l -> exists c, l = [c] /\ f c = true.
Proof. inversion 1; simplify_eq; eauto. Qed.
Lemma lang_eps_inv l : lang REps l -> l = [].
Proof. by inversion 1. Qed.

Lemma star_cons_inv r c l :
  lang (RStar r) (c :: l) ->
  exists l1 l2, l = l1 ++ l2 /\ lang r (c :: l1) /\ lang (RStar r) l2.
Proof.
  intros H. remember (RStar r) as s eqn:Es. remember (c :: l) as w eqn:Ew.
  revert c l Ew. induction H; intros c' l' Ew; simplify_eq.
  destruct l1 as [|a l1]; simplify_eq/=; eauto.
Qed.

Lemma deriv_iff c r l : lang (deriv c r) l <-> lang r (c :: l).
Proof.
  revert l; induction r; intros l; simpl.
  - split; inversion 1.
  - split; inversion 1.
  - destruct (f c) eqn:Ef; split; intros H.
    + apply lang_eps_inv in H as ->. eauto with irex.
    + apply lang_set_inv in H as (x & [= -> ->] & ?). constructor.
    + inversion H.
    + apply lang_set_inv in H as (x & [= -> ->] & ?). congruence.
  - assert (lang (RSeq (deriv c r1) r2) l ->
            lang (RSeq r1 r2) (c :: l)) as Hleft.
    { intros (l1 & l2 & -> & H1 & H2)%lang_seq_inv. apply IHr1 in H1.
      rewrite app_comm_cons. eauto with irex. }
    assert (lang (RSeq r1 r2) (c :: l) ->
            lang (RSeq (deriv c r1) r2) l \/ (nullable r1 = true /\ lang (deriv c r2) l)) as Hinv.
    { intros (l1 & l2 & Eq & H1 & H2)%lang_seq_inv. destruct l1 as [|a l1]; simplify_eq/=.
      - right. split; [by apply nullable_iff|by apply IHr2].
      - left. apply IHr1 in H1. eauto with irex. }
    destruct (nullable r1) eqn:En; split; intros H.
    + apply lang_alt_inv in H as [H|H]; [auto|].
      apply IHr2 in H. rewrite <- (app_nil_l (c :: l)). constructor; [|done].
      by apply nullable_iff.
    + apply Hinv in H as [H|[_ H]]; eauto with irex.
    + auto.
    + by apply Hinv in H as [H|[? H]].
  - split; intros [H|H]%lang_alt_inv;
      (apply IHr1 in H || apply IHr2 in H); eauto with irex.
  - split; intros H.
    + apply lang_seq_inv in H as (l1 & l2 & -> & H1 & H2). apply IHr in H1.
      rewrite app_comm_cons. eauto with irex.
    + apply star_cons_inv in H as (l1 & l2 & -> & H1 & H2). apply IHr in H1.
      eauto with irex.
Qed.

(** The matcher decides the language of the expression. *)
Lemma re_match_iff r l : re_match r l = true <-> lang r l.
Proof.
  revert r; induction l as [|c l IH]; intros r; simpl; [apply nullable_iff|].
  by rewrite IH, deriv_iff.
Qed.

(** ** Facts about the numerals *)

Lemma all_digits_app a b : all_digits (a ++ b) <-> all_digits a /\ all_digits b.
Proof. apply Forall_app. Qed.

Lemma star_digits l : lang (RStar RDigit) l <-> all_digits l.
Proof.
  split.
  - intros H; remember (RStar RDigit) as r eqn:E; induction H; simplify_eq; [constructor|].
    apply lang_set_inv in H as (c & -> & Hc). simpl. constructor; [done|].
    by apply IHlang2.
  - induction 1 as [|c l Hc Hl IH]; [constructor|].
    apply (L_star _ [c]); [by constructor|done].
Qed.

Lemma plus_digits l : lang (RPlus RDigit) l <-> all_digits l /\ l <> [].
Proof.
  split.
  - intros (l1 & l2 & -> & (c & -> & Hc)%lang_set_inv & Hl)%lang_seq_inv.
    apply star_digits in Hl. split; [constructor; auto|done].
  - intros [Hl Hne]. destruct l as [|c l]; [done|]. inversion Hl; simplify_eq.
    apply (L_seq _ _ [c]); [by constructor|]. by apply star_digits.
Qed.

Lemma lang_opt_inv r l : lang (ROpt r) l -> lang r l \/ l = [].
Proof. intros [?| ->%lang_eps_inv]%lang_alt_inv; auto. Qed.

Lemma lang_char_inv c l : lang (RChar c) l -> l = [c].
Proof.
  intros (x & -> & Hx)%lang_set_inv. apply bool_decide_eq_true in Hx. by subst.
Qed.
Lemma lang_char c : lang (RChar c) [c].
Proof. constructor. by apply bool_decide_eq_true. Qed.

Lemma digit_range c : is_digit c = true -> 0 <= digit_val c <= 9.
Proof. unfold is_digit, digit_val. intros H. bool_to_prop. lia. Qed.

Lemma digit_char_val d : 0 <= d <= 9 -> digit_val (digit_char d) = d.
Proof. intros. unfold digit_val, digit_char. rewrite code_ascii; lia. Qed.

Lemma digit_char_digit d : 0 <= d <= 9 -> is_digit (digit_char d) = true.
Proof.
  intros. unfold is_digit, digit_char. rewrite code_ascii by lia.
  apply andb_true_iff; split; apply Z.leb_le; lia.
Qed.

Lemma digits_acc_app acc l1 l2 : digits_acc acc (l1 ++ l2) = digits_acc (digits_acc acc l1) l2.
Proof. revert acc; induction l1; intros; simpl; auto. Qed.

Lemma digits_acc_shift acc l :
  digits_acc acc l = acc * 10 ^ Z.of_nat (length l) + digits_val l.
Proof.
  unfold digits_val. revert acc; induction l as [|c l IH]; intros acc; simpl digits_acc.
  { simpl. lia. }
  rewrite (IH (10 * acc + digit_val c)), (IH (10 * 0 + digit_val c)).
  simpl length. rewrite Nat2Z.inj_succ, Z.pow_succ_r by lia. lia.
Qed.

Lemma digits_val_app l1 l2 :
  digits_val (l1 ++ l2) = digits_val l1 * 10 ^ Z.of_nat (length l2) + digits_val l2.
Proof. unfold digits_val. by rewrite digits_acc_app, digits_acc_shift. Qed.

Lemma digits_val_cons c l :
  digits_val (c :: l) = digit_val c * 10 ^ Z.of_nat (length l) + digits_val l.
Proof.
  change (c :: l) with ([c] ++ l). rewrite digits_val_app.
  unfold digits_val at 1; simpl. lia.
Qed.

Lemma digits_val_bounds l :
  all_digits l -> 0 <= digits_val l < 10 ^ Z.of_nat (length l).
Proof.
  induction 1 as [|c l Hc Hl IH]; [unfold digits_val; simpl; lia|].
  rewrite digits_val_cons. simpl length. rewrite Nat2Z.inj_succ, Z.pow_succ_r by lia.
  pose proof (digit_range c Hc). nia.
Qed.

Lemma digits_val_zeros n : digits_val (replicate n "0"%char) = 0.
Proof.
  induction n; [done|]. simpl replicate. rewrite digits_val_cons, IHn.
  replace (digit_val "0") with 0 by done. lia.
Qed.

Lemma all_digits_zeros n : all_digits (replicate n "0"%char).
Proof. by apply Forall_replicate. Qed.

Lemma to_digits_aux_spec fuel n acc :
  0 <= n < 2 ^ Z.of_nat fuel -> (0 < fuel)%nat ->
  digits_val (to_digits_aux fuel n acc) = n * 10 ^ Z.of_nat (length acc) + digits_val acc /\
  (all_digits acc -> all_digits (to_digits_aux fuel n acc)) /\
  to_digits_aux fuel n acc <> [].
Proof.
  revert n acc; induction fuel as [|fuel IH]; intros n acc Hn Hf; [lia|]. cbn [to_digits_aux].
  destruct (Z.ltb_spec n 10).
  - rewrite digits_val_cons, digit_char_val by lia. split; [lia|].
    split; [|done]. intros; constructor; [apply digit_char_digit; lia|done].
  - pose proof (Z.mod_pos_bound n 10 ltac:(lia)).
    rewrite Nat2Z.inj_succ, Z.pow_succ_r in Hn by lia.
    destruct (IH (n / 10) (digit_char (n mod 10) :: acc)) as (Hv & Hd & Hne).
    { split; [apply Z.div_pos; lia|]. apply Z.div_lt_upper_bound; lia. }
    { destruct fuel; [simpl in Hn; lia|lia]. }
    split; [|split; [|done]].
    + rewrite Hv. rewrite digits_val_cons, digit_char_val by lia.
      simpl length. rewrite Nat2Z.inj_succ, Z.pow_succ_r by lia.
      pose proof (Z.div_mod n 10 ltac:(lia)). nia.
    + intros. apply Hd. constructor; [apply digit_char_digit; lia|done].
Qed.

Lemma to_digits_fuel n : 0 <= n -> n < 2 ^ Z.of_nat (S (Z.to_nat (Z.log2 n))).
Proof.
  intros Hn. rewrite Nat2Z.inj_succ, Z2Nat.id by apply Z.log2_nonneg.
  destruct (Z.eq_dec n 0) as [->|]; [by vm_compute|]. apply Z.log2_spec. lia.
Qed.

(** Printing a natural and reading it back. *)
Lemma digits_val_to_digits n : 0 <= n -> digits_val (to_digits n) = n.
Proof.
  intros Hn. unfold to_digits.
  destruct (to_digits_aux_spec (S (Z.to_nat (Z.log2 n))) n []) as (-> & _ & _);
    [split; [done|by apply to_digits_fuel]|lia|].
  unfold digits_val; simpl. lia.
Qed.

Lemma to_digits_all n : 0 <= n -> all_digits (to_digits n) /\ to_digits n <> [].
Proof.
  intros Hn. unfold to_digits.
  destruct (to_digits_aux_spec (S (Z.to_nat (Z.log2 n))) n []) as (_ & Hd & Hne);
    [split; [done|by apply to_digits_fuel]|lia|].
  split; [apply Hd; constructor|done].
Qed.

(** ** Scanning lemmas *)

Definition avoids (f : ascii -> bool) (l : chars) : Prop := Forall (fun c => f c = false) l.

Lemma avoids_app f a b : avoids f (a ++ b) <-> avoids f a /\ avoids f b.
Proof. apply Forall_app. Qed.

Lemma find_index_avoids f l : avoids f l -> find_index f l = None.
Proof. induction 1 as [|c l Hc _ IH]; simpl; [done|]. by rewrite Hc, IH. Qed.

Lemma find_index_hit f l c r :
  avoids f l -> f c = true -> find_index f (l ++ c :: r) = Some (length l).
Proof.
  induction 1 as [|x l Hx _ IH]; simpl; intros Hc; [by rewrite Hc|].
  by rewrite Hx, IH.
Qed.

Lemma digits_avoid f l :
  (forall c, is_digit c = true -> f c = false) -> all_digits l -> avoids f l.
Proof. intros Hf Hl. eapply Forall_impl; [exact Hl|]. auto. Qed.

Lemma digit_not_space c : is_digit c = true -> is_space c = false.
Proof.
  unfold is_digit, is_space. intros H. bool_to_prop.
  repeat match goal with |- context [?x <=? ?y] => destruct (Z.leb_spec x y) end;
  repeat match goal with |- context [?x =? ?y] => destruct (Z.eqb_spec x y) end; simpl; lia.
Qed.

Lemma digit_not_char c x : is_digit c = true -> is_digit x = false -> ascii_eqb x c = false.
Proof. intros Hc Hx. apply bool_decide_eq_false. intros ->. congruence. Qed.

Lemma drop_while_avoids f l : avoids f l -> drop_while f l = l.
Proof. destruct 1 as [|c l Hc _]; simpl; [done|]. by rewrite Hc. Qed.

Lemma trim_avoids l : avoids is_space l -> trim l = l.
Proof.
  intros H. unfold trim. rewrite (drop_while_avoids _ l H).
  rewrite drop_while_avoids; [apply rev_involutive|].
  by apply Forall_rev.
Qed.

Lemma trim_digits l : all_digits l -> trim l = l.
Proof. intros H. apply trim_avoids. eapply digits_avoid; [|exact H]. apply digit_not_space. Qed.

Lemma forallb_digits l : all_digits l -> forallb is_digit l = true.
Proof. induction 1 as [|c l Hc _ IH]; simpl; [done|]. by rewrite Hc. Qed.

Lemma take_while_digits l : all_digits l -> take_while is_digit l = l.
Proof. induction 1 as [|c l Hc _ IH]; simpl; [done|]. by rewrite Hc, IH. Qed.

Lemma signed_digits_digits l : all_digits l -> l <> [] -> signed_digits l = Some (digits_val l).
Proof.
  intros Hl Hne. pose proof (forallb_digits l Hl) as Hf. unfold signed_digits.
  destruct l as [|c l]; [done|]. inversion Hl as [|? ? Hc _]; subst.
  assert (ascii_eqb c "-" = false) as ->.
  { apply bool_decide_eq_false. intros ->. discriminate Hc. }
  assert (ascii_eqb c "+" = false) as ->.
  { apply bool_decide_eq_false. intros ->. discriminate Hc. }
  by rewrite Hf.
Qed.

Lemma radix_of_digit c : is_digit c = true -> radix_of c = None.
Proof.
  unfold is_digit, radix_of. intros H. bool_to_prop.
  repeat match goal with |- context [code c =? ?y] => destruct (Z.eqb_spec (code c) y); [lia|] end.
  done.
Qed.

(** [BigInt] of a run of digits is its value. *)
Lemma js_BigInt_digits l : all_digits l -> l <> [] -> js_BigInt l = Some (digits_val l).
Proof.
  intros Hl Hne. unfold js_BigInt. rewrite trim_digits by done.
  pose proof (signed_digits_digits l Hl Hne) as Hs.
  destruct l as [|c [|x l]]; [done|done|]. inversion Hl as [|? ? Hc Hr]; subst.
  inversion Hr as [|? ? Hx _]; subst. rewrite radix_of_digit by done.
  by destruct (ascii_eqb c "0").
Qed.

(** ** Capital letters *)

Definition to_upper (c : ascii) : ascii := if is_lower c then ascii_of_code (code c - 32) else c.
Definition toUpperCase (s : string) : string := string_of (map to_upper (chars_of s)).

(** [/^[A-Z]{n}$/]. *)
Definition upper_word (n : nat) (s : string) : bool :=
  bool_decide (length (chars_of s) = n) && forallb is_upper (chars_of s).
