(* ===== verification/Decimal.v ===== *)
(** * ExactDecimal ([common/utils/exact-decimal.ts])

    Fixed-scale decimals over BigInt.  The class is the record [ED]; a JavaScript
    [number] argument is a [num], so the integer guards of the code are tests of the
    model; every [throw new ExactDecimalError] is one constructor of [EDError].
    [toQ] gives a decimal its rational value, and the theorems state each operation
    against it. *)

From S2P Require Import Prelude JsString.
From Stdlib Require Import QArith Qround Qabs Qpower.
Open Scope Z_scope.

(** A JavaScript number: an integer, or a non-integer that is finite or not. *)
Inductive num := Int (z : Z) | NonInt (finite : bool).

Inductive EDError :=
| NonFiniteNumber | NonIntegerNumber | UnsafeInteger | UnsupportedType
| MalformedString | BigIntSyntaxError
| ShiftOutOfRange | ScaleOutOfRange | InvalidScale | Pow10OutOfRange
| InvalidRepresentation | RescaleToLowerScale | NonIntegerExponent
| ScaleOutOfRangeAfterDiv | DivisionByZero | InvalidDivisionScale | InvalidToFixedScale.

Inductive RoundingMode := UP | DOWN | CEILING | FLOOR | HALF_UP | HALF_EVEN | HALF_DOWN.

Record ED := mkED { unscaled : Z; scale : Z }.

#[export] Instance ED_eq_dec : EqDecision ED.
Proof. solve_decision. Defined.

Inductive input := InString (s : chars) | InNumber (n : num) | InBigint (z : Z) | InOther.

Abbreviation edres := (result EDError).

Definition MAX_SCALE : Z := 100.
Definition DEFAULT_DIV_SCALE : Z := 10.
Definition MAX_SAFE_INTEGER : Z := 2 ^ 53 - 1.

Definition sign_re : re := ROpt (RSet (fun c => ascii_eqb c "+" || ascii_eqb c "-")).
Definition is_e (c : ascii) : bool := ascii_eqb c "e" || ascii_eqb c "E".

(** [/^[+-]?(\d+(\.\d+)?|\.\d+)([eE][+-]?\d+)?$/] *)
Definition STRICT_DECIMAL_PATTERN : re :=
  RSeq sign_re
    (RSeq (RAlt (RSeq (RPlus RDigit) (ROpt (RSeq (RChar ".") (RPlus RDigit))))
                (RSeq (RChar ".") (RPlus RDigit)))
          (ROpt (RSeq (RSet is_e) (RSeq sign_re (RPlus RDigit))))).

Definition pow10 (exp : Z) : edres Z :=
  if (exp <? 0) || (exp >? MAX_SCALE) then Err Pow10OutOfRange else Ok (10 ^ exp).

Definition isCanonical (value scale : Z) : bool :=
  if (scale <? 0) || (scale >? MAX_SCALE) then false
  else if value =? 0 then scale =? 0
  else (scale =? 0) || negb (Z.rem value 10 =? 0).

(** The [while (scale > 0 && value % 10n === 0n)] loop; it runs at most [scale]
    times, which is the fuel [normalize] gives it. *)
Fixpoint strip (fuel : nat) (value scale : Z) : Z * Z :=
  match fuel with
  | O => (value, scale)
  | S fuel =>
      if (scale >? 0) && (Z.rem value 10 =? 0)
      then strip fuel (Z.quot value 10) (scale - 1)
      else (value, scale)
  end.

Definition normalize (d : ED) : edres ED :=
  let '(value, sc) := strip (Z.to_nat (scale d)) (unscaled d) (scale d) in
  let sc := if value =? 0 then 0 else sc in
  if isCanonical value sc then Ok (mkED value sc) else Err InvalidRepresentation.

Section results.
Local Open Scope result_scope.

Definition parse_string (raw : chars) : edres ED :=
  if negb (re_match STRICT_DECIMAL_PATTERN raw) then Err MalformedString
  else
    let '(mantissa, exponentPart) :=
      match find_index is_e raw with
      | None => (raw, [])
      | Some i => (take i raw, drop (S i) raw)
      end in
    let exponent := match exponentPart with [] => Some 0 | _ => js_parseInt10 exponentPart end in
    let '(digits, decimalPositions) :=
      match find_index (ascii_eqb ".") mantissa with
      | None => (mantissa, 0)
      | Some i => (take i mantissa ++ drop (S i) mantissa,
                   Z.of_nat (length mantissa) - Z.of_nat i - 1)
      end in
    let negative := starts_with "-" digits in
    let digits := match digits with
                  | c :: rest => if ascii_eqb c "+" || ascii_eqb c "-" then rest else digits
                  | [] => []
                  end in
    match exponent with
    | None => Err InvalidRepresentation
    | Some exponent =>
        let shift := exponent - decimalPositions in
        try! us :=
          (if shift >=? 0 then
             if shift >? MAX_SCALE then Err ShiftOutOfRange
             else match js_BigInt digits with
                  | None => Err BigIntSyntaxError
                  | Some b => try! p := pow10 shift in Ok (b * p, 0)
                  end
           else
             let sc := - shift in
             if sc >? MAX_SCALE then Err ScaleOutOfRange
             else match js_BigInt digits with
                  | None => Err BigIntSyntaxError
                  | Some b => Ok (b, sc)
                  end) in
        let '(u, sc) := us in
        normalize (mkED (if negative then - u else u) sc)
    end.

Definition parse (i : input) : edres ED :=
  match i with
  | InBigint z => normalize (mkED z 0)
  | InNumber (NonInt false) => Err NonFiniteNumber
  | InNumber (NonInt true) => Err NonIntegerNumber
  | InNumber (Int z) =>
      if Z.abs z <=? MAX_SAFE_INTEGER then Ok (mkED z 0) else Err UnsafeInteger
  | InOther => Err UnsupportedType
  | InString raw => parse_string raw
  end.

Definition tryParse (i : input) : option ED := ok_opt (parse i).

Definition fromUnscaled (u : Z) (sc : num) : edres ED :=
  match sc with
  | Int sc => if (sc <? 0) || (sc >? MAX_SCALE) then Err InvalidScale else normalize (mkED u sc)
  | NonInt _ => Err InvalidScale
  end.

Definition ZERO : ED := mkED 0 0.
Definition ONE : ED := mkED 1 0.
Definition HUNDRED : ED := mkED 100 0.

Definition rescaleTo (d : ED) (target : Z) : edres ED :=
  if target =? scale d then Ok d
  else if target <? scale d then Err RescaleToLowerScale
  else try! p := pow10 (target - scale d) in Ok (mkED (unscaled d * p) target).

Definition add (a b : ED) : edres ED :=
  let sc := Z.max (scale a) (scale b) in
  try! a' := rescaleTo a sc in
  try! b' := rescaleTo b sc in
  normalize (mkED (unscaled a' + unscaled b') sc).

Definition sub (a b : ED) : edres ED :=
  let sc := Z.max (scale a) (scale b) in
  try! a' := rescaleTo a sc in
  try! b' := rescaleTo b sc in
  normalize (mkED (unscaled a' - unscaled b') sc).

Definition mul (a b : ED) : edres ED :=
  normalize (mkED (unscaled a * unscaled b) (scale a + scale b)).

Definition neg (d : ED) : ED := mkED (- unscaled d) (scale d).
Definition abs (d : ED) : ED := if unscaled d <? 0 then neg d else d.

(** [mulByPowerOfTen] and [divByPowerOfTen] call each other once on a negative
    exponent; the two non-negative bodies are named. *)
Definition mulPow10_nonneg (d : ED) (exp : Z) : edres ED :=
  if scale d >=? exp then normalize (mkED (unscaled d) (scale d - exp))
  else try! p := pow10 (exp - scale d) in Ok (mkED (unscaled d * p) 0).

Definition divPow10_nonneg (d : ED) (exp : Z) : edres ED :=
  let target := scale d + exp in
  if target >? MAX_SCALE then Err ScaleOutOfRangeAfterDiv
  else normalize (mkED (unscaled d) target).

Definition mulByPowerOfTen (d : ED) (exp : num) : edres ED :=
  match exp with
  | NonInt _ => Err NonIntegerExponent
  | Int exp => if exp >=? 0 then mulPow10_nonneg d exp else divPow10_nonneg d (- exp)
  end.

Definition divByPowerOfTen (d : ED) (exp : num) : edres ED :=
  match exp with
  | NonInt _ => Err NonIntegerExponent
  | Int exp => if exp <? 0 then mulPow10_nonneg d (- exp) else divPow10_nonneg d exp
  end.

Definition quantizedDivide (n d : Z) (mode : RoundingMode) : Z :=
  let q := Z.quot n d in
  let r := Z.rem n d in
  if r =? 0 then q
  else
    let negativeResult := negb (Bool.eqb (n <? 0) (d <? 0)) in
    let awayFromZero := if negativeResult then -1 else 1 in
    let absR := if r <? 0 then - r else r in
    let absDen := if d <? 0 then - d else d in
    let twiceR := absR * 2 in
    match mode with
    | UP => q + awayFromZero
    | DOWN => q
    | CEILING => if negativeResult then q else q + 1
    | FLOOR => if negativeResult then q - 1 else q
    | HALF_UP => if twiceR >=? absDen then q + awayFromZero else q
    | HALF_DOWN => if twiceR >? absDen then q + awayFromZero else q
    | HALF_EVEN =>
        if twiceR >? absDen then q + awayFromZero
        else if twiceR <? absDen then q
        else let absQ := if q <? 0 then - q else q in
             if Z.rem absQ 2 =? 0 then q else q + awayFromZero
    end.

(** [options] is [{ scale?, mode? }]; [None] is an absent field. *)
Definition div (a b : ED) (opt_scale : option num) (opt_mode : option RoundingMode) : edres ED :=
  if unscaled b =? 0 then Err DivisionByZero
  else
    let mode := default HALF_UP opt_mode in
    match default (Int (Z.max (Z.max (scale a) (scale b)) DEFAULT_DIV_SCALE)) opt_scale with
    | NonInt _ => Err InvalidDivisionScale
    | Int sc =>
        if (sc <? 0) || (sc >? MAX_SCALE) then Err InvalidDivisionScale
        else
          try! p := pow10 (scale b + sc) in
          try! q := pow10 (scale a) in
          normalize (mkED (quantizedDivide (unscaled a * p) (unscaled b * q) mode) sc)
    end.

Definition divUp (a b : ED) (sc : num) : edres ED := div a b (Some sc) (Some UP).
Definition divDown (a b : ED) (sc : num) : edres ED := div a b (Some sc) (Some DOWN).

Definition cmp (a b : ED) : edres comparison :=
  let sc := Z.max (scale a) (scale b) in
  try! a' := rescaleTo a sc in
  try! b' := rescaleTo b sc in
  Ok (if unscaled a' <? unscaled b' then Lt
      else if unscaled a' >? unscaled b' then Gt else Eq).

Definition cmp_test (f : comparison -> bool) (a b : ED) : edres bool := rmap f (cmp a b).
Definition eq : ED -> ED -> edres bool := cmp_test (fun c => match c with Eq => true | _ => false end).
Definition lt : ED -> ED -> edres bool := cmp_test (fun c => match c with Lt => true | _ => false end).
Definition lte : ED -> ED -> edres bool := cmp_test (fun c => match c with Gt => false | _ => true end).
Definition gt : ED -> ED -> edres bool := cmp_test (fun c => match c with Gt => true | _ => false end).
Definition gte : ED -> ED -> edres bool := cmp_test (fun c => match c with Lt => false | _ => true end).

Definition isZero (d : ED) : bool := unscaled d =? 0.
Definition isNegative (d : ED) : bool := unscaled d <? 0.
Definition isPositive (d : ED) : bool := unscaled d >? 0.

Definition min (a b : ED) : edres ED := try! c := lte a b in Ok (if c then a else b).
Definition max (a b : ED) : edres ED := try! c := gte a b in Ok (if c then a else b).

Definition percentOf (percent base : input) : edres ED :=
  try! b := parse base in
  try! p := parse percent in
  try! m := mul b p in
  divByPowerOfTen m (Int 2).

Definition toString (d : ED) : chars :=
  let negative := unscaled d <? 0 in
  let digits := to_digits (if negative then - unscaled d else unscaled d) in
  if scale d =? 0 then (if negative then "-"%char :: digits else digits)
  else
    let padded := pad_start (Z.to_nat (scale d + 1)) "0" digits in
    let cut := (length padded - Z.to_nat (scale d))%nat in
    (if negative then ["-"%char] else []) ++ take cut padded ++ "."%char :: drop cut padded.

Definition toFixed (d : ED) (sc : num) (mode : RoundingMode) : edres chars :=
  match sc with
  | NonInt _ => Err InvalidToFixedScale
  | Int sc =>
      if (sc <? 0) || (sc >? MAX_SCALE) then Err InvalidToFixedScale
      else if sc =? scale d then Ok (toString d)
      else if sc >? scale d then rmap toString (rescaleTo d sc)
      else
        try! den := pow10 (scale d - sc) in
        Ok (toString (mkED (quantizedDivide (unscaled d) den mode) sc))
  end.
End results.

(** ** Specification *)

(** The rational a decimal denotes. *)
Definition toQ (d : ED) : Q := unscaled d # Z.to_pos (10 ^ scale d).

Definition canonical (d : ED) : Prop := isCanonical (unscaled d) (scale d) = true.

(** What each rounding mode promises of an integer [q] standing for [n / d]: stated
    on the product [q * d] against [n], with no division. *)
Definition nearest (n d p : Z) : Prop := 2 * Z.abs (n - p) <= Z.abs d.

Definition rounds (mode : RoundingMode) (n d q : Z) : Prop :=
  let p := q * d in
  Z.abs (n - p) < Z.abs d /\
  match mode with
  | DOWN => Z.abs p <= Z.abs n
  | UP => Z.abs n <= Z.abs p
  | FLOOR => if 0 <? d then p <= n else n <= p
  | CEILING => if 0 <? d then n <= p else p <= n
  | HALF_UP => nearest n d p /\ (2 * Z.abs (n - p) = Z.abs d -> Z.abs n <= Z.abs p)
  | HALF_DOWN => nearest n d p /\ (2 * Z.abs (n - p) = Z.abs d -> Z.abs p <= Z.abs n)
  | HALF_EVEN => nearest n d p /\ (2 * Z.abs (n - p) = Z.abs d -> Z.even q = true)
  end.

(** The grammar of decimal literals, and what a literal denotes: mantissa
    [m], number of fractional digits [f], exponent [e]. *)
Inductive sign_lit : chars -> Z -> Prop :=
| sign_none : sign_lit [] 1
| sign_plus : sign_lit ["+"%char] 1
| sign_minus : sign_lit ["-"%char] (-1).

Inductive mantissa_lit : chars -> Z -> Z -> Prop :=
| mant_int ip : all_digits ip -> ip <> [] -> mantissa_lit ip (digits_val ip) 0
| mant_frac ip fp : all_digits ip -> all_digits fp -> fp <> [] ->
    mantissa_lit (ip ++ "."%char :: fp) (digits_val (ip ++ fp)) (Z.of_nat (length fp)).

Inductive exponent_lit : chars -> Z -> Prop :=
| exp_none : exponent_lit [] 0
| exp_some c sg s ds : is_e c = true -> sign_lit sg s -> all_digits ds -> ds <> [] ->
    exponent_lit (c :: sg ++ ds) (s * digits_val ds).

Inductive decimal_lit : chars -> Z -> Z -> Z -> Prop :=
| decimal_lit_intro sg s ml m f el e :
    sign_lit sg s -> mantissa_lit ml m f -> exponent_lit el e ->
    decimal_lit (sg ++ ml ++ el) (s * m) f e.

(** ** Values and canonical forms *)

Lemma canonical_iff d :
  canonical d <->
  0 <= scale d <= MAX_SCALE /\
  (scale d = 0 \/ (unscaled d <> 0 /\ Z.rem (unscaled d) 10 <> 0)).
Proof.
  unfold canonical, isCanonical. destruct d as [u s]; simpl.
  destruct (Z.ltb_spec s 0); simpl; [split; [done|lia]|].
  rewrite Z.gtb_ltb. destruct (Z.ltb_spec MAX_SCALE s); simpl; [split; [done|lia]|].
  destruct (Z.eqb_spec u 0) as [->|]; [rewrite Z.eqb_eq; intuition lia|].
  rewrite orb_true_iff, negb_true_iff, Z.eqb_eq, Z.eqb_neq. intuition lia.
Qed.

Lemma toQ_eq a b :
  0 <= scale a -> 0 <= scale b ->
  (toQ a == toQ b)%Q <-> unscaled a * 10 ^ scale b = unscaled b * 10 ^ scale a.
Proof.
  intros. unfold toQ, Qeq; simpl. rewrite !Z2Pos.id by eauto with irex. done.
Qed.

Lemma toQ_rescale u s k :
  0 <= s -> 0 <= k -> (toQ (mkED (u * 10 ^ k) (s + k)) == toQ (mkED u s))%Q.
Proof.
  intros. apply toQ_eq; simpl; [lia..|]. rewrite pow10_add by lia. ring.
Qed.

(** A canonical form is determined by its value. *)
Lemma canonical_unique a b : canonical a -> canonical b -> (toQ a == toQ b)%Q -> a = b.
Proof.
  assert (forall a b, canonical a -> canonical b -> (toQ a == toQ b)%Q ->
            scale a <= scale b -> a = b) as Hle.
  { intros [u s] [v t]. rewrite !canonical_iff; simpl. intros Ha Hb Heq Hst.
    apply toQ_eq in Heq; simpl in *; [|lia..].
    rewrite (pow10_split s t) in Heq by lia.
    assert (u * 10 ^ (t - s) = v) as Hv.
    { apply (Z.mul_cancel_r _ _ (10 ^ s)); [pose proof (pow10_pos s); lia|]. nia. }
    destruct (Z.eq_dec s t) as [->|Hne].
    - rewrite Z.sub_diag in Hv. f_equal. lia.
    - exfalso. destruct Hb as [_ [?|[_ Hb]]]; [lia|]. apply Hb. subst v.
      replace (t - s) with (Z.succ (t - s - 1)) by lia. rewrite Z.pow_succ_r by lia.
      replace (u * (10 * 10 ^ (t - s - 1))) with (u * 10 ^ (t - s - 1) * 10) by ring.
      apply Z.rem_mul; lia. }
  intros Ha Hb Heq. destruct (Z.le_ge_cases (scale a) (scale b)); [by apply Hle|].
  symmetry. apply Hle; [done..|by symmetry|done].
Qed.

Lemma strip_spec fuel v s :
  0 <= s <= Z.of_nat fuel ->
  let '(v', s') := strip fuel v s in
  0 <= s' <= s /\ v = v' * 10 ^ (s - s') /\ (s' = 0 \/ Z.rem v' 10 <> 0).
Proof.
  revert v s; induction fuel as [|fuel IH]; intros v s Hs; simpl.
  { assert (s = 0) as -> by lia. simpl. lia. }
  destruct (Z.gtb_spec s 0); simpl; [|assert (s = 0) as -> by lia; simpl; lia].
  destruct (Z.eqb_spec (Z.rem v 10) 0) as [Hr|Hr].
  - specialize (IH (Z.quot v 10) (s - 1) ltac:(lia)).
    destruct (strip fuel (Z.quot v 10) (s - 1)) as [v' s']. destruct IH as (? & Hv & ?).
    split; [lia|]. split; [|done].
    pose proof (Z.quot_rem v 10 ltac:(lia)) as Hq.
    replace (s - s') with (Z.succ (s - 1 - s')) by lia. rewrite Z.pow_succ_r by lia. nia.
  - rewrite Z.sub_diag. simpl. lia.
Qed.

(** [normalize] keeps the value and returns the canonical form; it only throws on a
    value no canonical decimal has. *)
Lemma normalize_spec d :
  0 <= scale d ->
  match normalize d with
  | Ok n => canonical n /\ (toQ n == toQ d)%Q
  | Err e => e = InvalidRepresentation /\ forall n, canonical n -> ~ (toQ n == toQ d)%Q
  end.
Proof.
  intros Hs. destruct d as [u s]; simpl in *. unfold normalize; simpl.
  pose proof (strip_spec (Z.to_nat s) u s ltac:(lia)) as Hst.
  destruct (strip (Z.to_nat s) u s) as [v s'] eqn:E.
  destruct Hst as (Hs' & -> & Hmin).
  set (s2 := if v =? 0 then 0 else s').
  assert (0 <= s2 <= s') as Hs2 by (unfold s2; destruct (v =? 0); lia).
  assert (toQ (mkED v s2) == toQ (mkED (v * 10 ^ (s - s')) s))%Q as Hq.
  { unfold s2. destruct (Z.eqb_spec v 0) as [->|]; [by rewrite toQ_eq by (simpl; lia)|].
    replace s with (s' + (s - s')) at 2 by lia. symmetry. by apply toQ_rescale; lia. }
  assert (s2 <= MAX_SCALE -> canonical (mkED v s2)) as Hcan.
  { intros. apply canonical_iff; simpl. split; [lia|].
    unfold s2 in *. destruct (Z.eqb_spec v 0); [by left|]. destruct Hmin; auto. }
  destruct (isCanonical v s2) eqn:Hc; [done|]. split; [done|]. intros [u' t] Hn Heq.
  assert (MAX_SCALE < s2) as Hbig.
  { destruct (Z.lt_ge_cases MAX_SCALE s2) as [|Hle]; [done|].
    specialize (Hcan Hle). unfold canonical in Hcan; simpl in Hcan. congruence. }
  apply canonical_iff in Hn as [Ht _]; simpl in Ht.
  rewrite <- Hq in Heq. apply toQ_eq in Heq; simpl in *; [|lia..].
  rewrite (pow10_split t s2) in Heq by lia.
  assert (u' * 10 ^ (s2 - t) = v) as Hv.
  { apply (Z.mul_cancel_r _ _ (10 ^ t)); [pose proof (pow10_pos t); lia|]. nia. }
  unfold s2 in *. destruct (Z.eqb_spec v 0); [unfold MAX_SCALE in *; lia|].
  destruct Hmin as [?|Hr]; [unfold MAX_SCALE in *; lia|]. apply Hr. rewrite <- Hv.
  replace (s' - t) with (Z.succ (s' - t - 1)) by lia. rewrite Z.pow_succ_r by lia.
  replace (u' * (10 * 10 ^ (s' - t - 1))) with (u' * 10 ^ (s' - t - 1) * 10) by ring.
  apply Z.rem_mul; lia.
Qed.

Lemma normalize_ok d n : 0 <= scale d -> normalize d = Ok n -> canonical n /\ (toQ n == toQ d)%Q.
Proof. intros Hs Hn. pose proof (normalize_spec d Hs) as H. by rewrite Hn in H. Qed.

Lemma normalize_total d :
  0 <= scale d <= MAX_SCALE -> exists n, normalize d = Ok n /\ canonical n /\ (toQ n == toQ d)%Q.
Proof.
  intros Hs. pose proof (normalize_spec d ltac:(lia)) as H.
  destruct (normalize d) as [n|e] eqn:E; [eauto|]. exfalso.
  unfold normalize in E.
  pose proof (strip_spec (Z.to_nat (scale d)) (unscaled d) (scale d) ltac:(lia)) as Hst.
  destruct (strip _ _ _) as [v s']. destruct Hst as (Hs' & _ & Hmin).
  set (s2 := if v =? 0 then 0 else s') in E.
  assert (canonical (mkED v s2)) as Hc; [|unfold canonical in Hc; simpl in Hc; by rewrite Hc in E].
  apply canonical_iff; simpl. unfold s2. destruct (Z.eqb_spec v 0); [unfold MAX_SCALE in *; lia|].
  split; [lia|]. destruct Hmin; auto.
Qed.

Lemma canonical_scale d : canonical d -> 0 <= scale d <= MAX_SCALE.
Proof. rewrite canonical_iff. tauto. Qed.
#[export] Hint Resolve canonical_scale : irex.

Lemma rescale_total d t :
  0 <= scale d <= t -> t <= MAX_SCALE ->
  rescaleTo d t = Ok (mkED (unscaled d * 10 ^ (t - scale d)) t).
Proof.
  intros. unfold rescaleTo, pow10. destruct d as [u s]; simpl in *.
  destruct (Z.eqb_spec t s) as [->|]; [rewrite Z.sub_diag, Z.mul_1_r; done|].
  destruct (Z.ltb_spec t s); [lia|].
  destruct (Z.ltb_spec (t - s) 0); [lia|].
  rewrite Z.gtb_ltb. destruct (Z.ltb_spec MAX_SCALE (t - s)); [lia|]. done.
Qed.

(** ** Arithmetic and comparison *)

Lemma toQ_add a b s :
  scale a = s -> scale b = s -> (toQ (mkED (unscaled a + unscaled b) s) == toQ a + toQ b)%Q.
Proof.
  destruct a as [u ?], b as [v ?]; simpl; intros -> ->. unfold toQ, Qeq, Qplus; simpl.
  rewrite Pos2Z.inj_mul. ring.
Qed.

Lemma toQ_neg d : (toQ (neg d) == - toQ d)%Q.
Proof. destruct d as [u s]. unfold toQ, neg, Qeq, Qopp; simpl. ring. Qed.

Lemma toQ_rescaled d t :
  0 <= scale d <= t -> (toQ (mkED (unscaled d * 10 ^ (t - scale d)) t) == toQ d)%Q.
Proof.
  intros. destruct d as [u s]; simpl in *.
  replace t with (s + (t - s)) at 2 by lia. apply toQ_rescale; lia.
Qed.

Lemma toQ_mul u v s t :
  0 <= s -> 0 <= t -> (toQ (mkED (u * v) (s + t)) == toQ (mkED u s) * toQ (mkED v t))%Q.
Proof.
  intros. unfold toQ, Qeq, Qmult; simpl. rewrite pow10_add by lia.
  rewrite Z2Pos.inj_mul by eauto with irex. ring.
Qed.

Section common_scale.
Context (a b : ED) (Ha : canonical a) (Hb : canonical b).
Let t := Z.max (scale a) (scale b).

Lemma common_scale :
  rescaleTo a t = Ok (mkED (unscaled a * 10 ^ (t - scale a)) t) /\
  rescaleTo b t = Ok (mkED (unscaled b * 10 ^ (t - scale b)) t) /\
  0 <= scale a <= t /\ 0 <= scale b <= t /\ t <= MAX_SCALE.
Proof.
  apply canonical_scale in Ha, Hb. unfold t.
  rewrite !rescale_total by lia. intuition lia.
Qed.
End common_scale.

Lemma add_spec a b :
  canonical a -> canonical b ->
  exists d, add a b = Ok d /\ canonical d /\ (toQ d == toQ a + toQ b)%Q.
Proof.
  intros Ha Hb. destruct (common_scale a b Ha Hb) as (Ea & Eb & ? & ? & ?).
  unfold add. rewrite Ea, Eb; simpl.
  set (t := Z.max (scale a) (scale b)) in *.
  destruct (normalize_total (mkED (unscaled a * 10 ^ (t - scale a) + unscaled b * 10 ^ (t - scale b)) t))
    as (d & -> & Hd & Hq); [simpl; lia|].
  exists d; split; [done|]; split; [done|].
  rewrite Hq, <- (toQ_rescaled a t), <- (toQ_rescaled b t) by lia.
  by apply (toQ_add (mkED _ t) (mkED _ t)).
Qed.

Lemma neg_canonical d : canonical d -> canonical (neg d).
Proof.
  rewrite !canonical_iff; unfold neg; destruct d as [u s]; simpl.
  rewrite Z.rem_opp_l by lia. intuition lia.
Qed.

Lemma sub_add_neg a b : canonical a -> canonical b -> sub a b = add a (neg b).
Proof.
  intros Ha Hb. destruct (common_scale a b Ha Hb) as (Ea & Eb & ? & ? & ?).
  destruct (common_scale a (neg b) Ha (neg_canonical b Hb)) as (_ & Enb & _).
  unfold sub, add. unfold neg at 1; simpl scale.
  change (scale (neg b)) with (scale b) in *. rewrite Ea, Eb. simpl in Enb.
  rewrite Enb. simpl. do 2 f_equal. ring.
Qed.

Lemma mul_spec a b :
  canonical a -> canonical b ->
  match mul a b with
  | Ok d => canonical d /\ (toQ d == toQ a * toQ b)%Q
  | Err e => e = InvalidRepresentation /\ forall d, canonical d -> ~ (toQ d == toQ a * toQ b)%Q
  end.
Proof.
  intros Ha%canonical_scale Hb%canonical_scale. unfold mul.
  pose proof (normalize_spec (mkED (unscaled a * unscaled b) (scale a + scale b))
                ltac:(simpl; lia)) as H.
  pose proof (toQ_mul (unscaled a) (unscaled b) (scale a) (scale b) ltac:(lia) ltac:(lia)) as Hq.
  destruct a as [u s], b as [v t]; simpl in *.
  destruct (normalize _) as [d|e]; [|split; [tauto|]]; [by rewrite <- Hq|].
  intros d Hd. rewrite <- Hq. by apply H.
Qed.

Lemma cmp_spec a b :
  canonical a -> canonical b -> cmp a b = Ok (toQ a ?= toQ b)%Q.
Proof.
  intros Ha Hb. destruct (common_scale a b Ha Hb) as (Ea & Eb & Ha1 & Hb1 & ?).
  unfold cmp. rewrite Ea, Eb. simpl. f_equal.
  set (t := Z.max (scale a) (scale b)) in *.
  rewrite <- (toQ_rescaled a t), <- (toQ_rescaled b t) by lia.
  unfold toQ, Qcompare; simpl. rewrite Z.gtb_ltb.
  set (x := unscaled a * _). set (y := unscaled b * _).
  rewrite <- Zmult_compare_compat_r by lia.
  destruct (Z.ltb_spec x y); [symmetry; by apply Z.compare_lt_iff|].
  destruct (Z.ltb_spec y x); symmetry; [by apply Z.compare_gt_iff|].
  apply Z.compare_eq_iff. lia.
Qed.

Lemma cmp_eq_iff a b : canonical a -> canonical b -> cmp a b = Ok Eq <-> a = b.
Proof.
  intros Ha Hb. rewrite cmp_spec by done. split.
  - intros [= H%Qeq_alt]. by apply canonical_unique.
  - intros ->. f_equal. by apply Qeq_alt.
Qed.

(** ** Quantized division *)

(** Truncated division seen on the product: the quotient times the divisor lies
    between zero and the dividend, less than one divisor away. *)
Lemma quot_facts n d :
  d <> 0 ->
  n = Z.quot n d * d + Z.rem n d /\ Z.abs (Z.rem n d) < Z.abs d /\
  (0 <= n -> 0 <= Z.rem n d /\ 0 <= Z.quot n d * d) /\
  (n <= 0 -> Z.rem n d <= 0 /\ Z.quot n d * d <= 0).
Proof.
  intros Hd. pose proof (Z.quot_rem n d Hd) as Hq.
  pose proof (Z.rem_bound_abs n d Hd).
  assert (0 <= n -> 0 <= Z.rem n d) by (intros; apply Z.rem_nonneg; lia).
  assert (n <= 0 -> Z.rem n d <= 0) by (intros; apply Z.rem_nonpos; lia).
  pose proof (fun H => Z.mul_quot_le n d H Hd). pose proof (fun H => Z.mul_quot_ge n d H Hd).
  rewrite (Z.mul_comm d) in *. set (p := Z.quot n d * d) in *. set (r := Z.rem n d) in *.
  lia.
Qed.

Lemma quantizedDivide_rounds n d mode :
  d <> 0 -> rounds mode n d (quantizedDivide n d mode).
Proof.
  intros Hd. destruct (quot_facts n d Hd) as (Hn & Hr & Hpos & Hneg).
  unfold quantizedDivide, rounds, nearest.
  set (q := Z.quot n d) in *. set (r := Z.rem n d) in *. set (p := q * d) in *.
  destruct (Z.eqb_spec r 0) as [Hr0|Hr0].
  { cbv zeta. fold p. assert (p = n) as Hp by lia. rewrite Hp. clear - Hd. rewrite Z.sub_diag.
    split; [lia|]. destruct mode; try destruct (0 <? d); repeat split; intros; lia. }
  set (neg := negb (Bool.eqb (n <? 0) (d <? 0))).
  assert ((neg = true /\ ((n < 0 /\ 0 < d) \/ (0 < n /\ d < 0))) \/
          (neg = false /\ ((0 < n /\ 0 < d) \/ (n < 0 /\ d < 0)))) as Hsign.
  { unfold neg. destruct (Z.ltb_spec n 0), (Z.ltb_spec d 0); simpl; lia. }
  set (absR := if r <? 0 then - r else r). set (absD := if d <? 0 then - d else d).
  assert (absR = Z.abs r) as -> by (unfold absR; destruct (Z.ltb_spec r 0); lia).
  assert (absD = Z.abs d) as -> by (unfold absD; destruct (Z.ltb_spec d 0); lia).
  assert (forall k, (q + k) * d = p + k * d) as Hk by (intros; unfold p; ring).
  assert (q - 1 = q + -1) as Hm1 by lia.
  assert ((if q <? 0 then - q else q) = Z.abs q) as -> by (destruct (Z.ltb_spec q 0); lia).
  assert (Z.even q = false -> Z.even (q + 1) = true /\ Z.even (q + -1) = true) as Hodd.
  { intros Ho. rewrite !Z.even_add, Ho. done. }
  assert ((Z.rem (Z.abs q) 2 =? 0) = Z.even q) as ->.
  { rewrite Z.rem_mod_nonneg by lia. rewrite Zmod_even.
    destruct (Z.abs_eq_or_opp q) as [->| ->]; rewrite ?Z.even_opp; by destruct (Z.even q). }
  destruct Hsign as [[-> Hsg]|[-> Hsg]]; destruct mode; cbv zeta;
    rewrite ?Hm1, ?Z.geb_leb, ?Z.gtb_ltb;
    repeat match goal with
           | |- context [?x <=? ?y] => destruct (Z.leb_spec x y)
           | |- context [0 <? d] => destruct (Z.ltb_spec 0 d)
           | |- context [?x <? ?y] => destruct (Z.ltb_spec x y)
           | |- context [if Z.even q then _ else _] => destruct (Z.even q) eqn:Hev
           end;
    rewrite ?Hk; fold p; repeat split; intros; try lia;
    first [done | apply Hodd; done | exfalso; lia].
Qed.

(** Values at a common scale compare as their unscaled integers. *)
Lemma toQ_abs_le x y s :
  (Qabs (toQ (mkED x s)) <= Qabs (toQ (mkED y s)))%Q <-> Z.abs x <= Z.abs y.
Proof.
  unfold toQ, Qle, Qabs; simpl. set (p := Z.to_pos (10 ^ s)). nia.
Qed.

Lemma toQ_le x y s : (toQ (mkED x s) <= toQ (mkED y s))%Q <-> x <= y.
Proof. unfold toQ, Qle; simpl. set (p := Z.to_pos (10 ^ s)). nia. Qed.

Lemma toQ_sub_abs_lt x y z s :
  (Qabs (toQ (mkED x s) - toQ (mkED y s)) < Qabs (toQ (mkED z s)))%Q <-> Z.abs (x - y) < Z.abs z.
Proof.
  assert (toQ (mkED x s) - toQ (mkED y s) == toQ (mkED (x - y) s))%Q as ->.
  { unfold toQ, Qeq; simpl. rewrite Pos2Z.inj_mul. ring. }
  unfold toQ, Qlt, Qabs; simpl. set (p := Z.to_pos (10 ^ s)). nia.
Qed.

Section division.
Context (a b : ED) (sc : Z) (mode : RoundingMode).
Context (Ha : canonical a) (Hb : canonical b) (Hsc : 0 <= sc <= MAX_SCALE).
Let n := unscaled a * 10 ^ (scale b + sc).
Let m := unscaled b * 10 ^ scale a.
Let S := scale a + scale b + sc.

Lemma div_quotient d :
  div a b (Some (Int sc)) (Some mode) = Ok d ->
  unscaled b <> 0 /\ canonical d /\
  exists q, rounds mode n m q /\ (toQ d == toQ (mkED q sc))%Q.
Proof.
  pose proof (canonical_scale a Ha). pose proof (canonical_scale b Hb).
  unfold div, pow10. simpl.
  destruct (Z.eqb_spec (unscaled b) 0) as [|Hub]; [done|].
  destruct ((sc <? 0) || (sc >? MAX_SCALE)); [done|].
  destruct ((scale b + sc <? 0) || (scale b + sc >? MAX_SCALE)); [done|]; simpl.
  destruct ((scale a <? 0) || (scale a >? MAX_SCALE)); [done|]; simpl.
  intros [Hd Hq]%normalize_ok; [|simpl; lia].
  split; [done|]. split; [done|]. eexists; split; [|exact Hq].
  apply quantizedDivide_rounds. pose proof (pow10_pos (scale a)). lia.
Qed.

Lemma div_total :
  unscaled b <> 0 -> scale b + sc <= MAX_SCALE ->
  exists d, div a b (Some (Int sc)) (Some mode) = Ok d.
Proof.
  pose proof (canonical_scale a Ha). pose proof (canonical_scale b Hb).
  intros Hub Hfit. unfold div, pow10. simpl.
  destruct (Z.eqb_spec (unscaled b) 0) as [|_]; [done|].
  rewrite !Z.gtb_ltb.
  destruct (Z.ltb_spec sc 0), (Z.ltb_spec MAX_SCALE sc); simpl; [lia..|].
  destruct (Z.ltb_spec (scale b + sc) 0), (Z.ltb_spec MAX_SCALE (scale b + sc)); simpl; [lia..|].
  destruct (Z.ltb_spec (scale a) 0), (Z.ltb_spec MAX_SCALE (scale a)); simpl; [lia..|].
  destruct (normalize_total (mkED (quantizedDivide n m mode) sc)) as (d & Hd & _); [simpl; lia|].
  eauto.
Qed.

(** Dividend, product and error at the common scale [S]. *)
Lemma div_common q d :
  (toQ d == toQ (mkED q sc))%Q ->
  (toQ a == toQ (mkED n S))%Q /\ (toQ d * toQ b == toQ (mkED (q * m) S))%Q /\
  (toQ b * (1 # Z.to_pos (10 ^ sc)) == toQ (mkED m S))%Q.
Proof.
  pose proof (canonical_scale a Ha). pose proof (canonical_scale b Hb).
  intros Hd. unfold n, m, S. repeat split.
  - destruct a as [u s]; simpl in *. symmetry.
    replace (s + scale b + sc) with (s + (scale b + sc)) by lia. apply toQ_rescale; lia.
  - rewrite Hd. destruct b as [v t]; simpl in *.
    rewrite <- toQ_mul by lia. symmetry.
    replace (q * (v * 10 ^ scale a)) with (q * v * 10 ^ scale a) by ring.
    replace (scale a + t + sc) with (sc + t + scale a) by lia. apply toQ_rescale; lia.
  - destruct b as [v t]; simpl in *.
    transitivity (toQ (mkED (v * 1) (t + sc)))%Q.
    { symmetry. rewrite (toQ_mul v 1 t sc) by lia. done. }
    symmetry. replace (scale a + t + sc) with (t + sc + scale a) by lia.
    rewrite Z.mul_1_r. apply toQ_rescale; lia.
Qed.
End division.

(** ** Parsing *)

Lemma sign_re_iff l : lang sign_re l <-> exists s, sign_lit l s.
Proof.
  unfold sign_re. split.
  - intros [(c & -> & Hc)%lang_set_inv| ->]%lang_opt_inv; [|exists 1; constructor].
    apply orb_true_iff in Hc as [->%bool_decide_eq_true| ->%bool_decide_eq_true];
      eexists; constructor.
  - intros [s Hs]. destruct Hs; [apply L_altr; constructor|apply L_altl; by constructor..].
Qed.

Lemma strict_pattern_iff raw :
  re_match STRICT_DECIMAL_PATTERN raw = true <-> exists m f e, decimal_lit raw m f e.
Proof.
  rewrite re_match_iff. unfold STRICT_DECIMAL_PATTERN. split.
  - intros (sg & r & -> & [s Hsg]%sign_re_iff & (ml & el & -> & Hm & He)%lang_seq_inv)%lang_seq_inv.
    assert (exists m f, mantissa_lit ml m f) as (m & f & Hml).
    { apply lang_alt_inv in Hm as [(ip & t & -> & [Hip Hne]%plus_digits & Ht)%lang_seq_inv
        |(p & fp & -> & ->%lang_char_inv & [Hfp Hne]%plus_digits)%lang_seq_inv].
      - apply lang_opt_inv in Ht as [(p & fp & -> & ->%lang_char_inv & [Hfp Hne']%plus_digits)%lang_seq_inv| ->].
        + do 2 eexists. by apply mant_frac.
        + rewrite app_nil_r. do 2 eexists. by apply mant_int.
      - do 2 eexists. apply (mant_frac []); [constructor|done..]. }
    assert (exists e, exponent_lit el e) as (e & Hel).
    { apply lang_opt_inv in He as [(c' & t & -> & (c & -> & Hc)%lang_set_inv &
        (sg' & ds & -> & [s' Hs']%sign_re_iff & [Hds Hne]%plus_digits)%lang_seq_inv)%lang_seq_inv| ->].
      - exists (s' * digits_val ds). by apply (exp_some c sg' s' ds).
      - eexists. constructor. }
    do 3 eexists. by econstructor.
  - intros (m & f & e & H). destruct H as [sg s ml m f el e Hs Hm He].
    constructor; [apply sign_re_iff; eauto|]. constructor.
    + destruct Hm as [ip Hip Hne|ip fp Hip Hfp Hne].
      * apply L_altl. rewrite <- (app_nil_r ip). constructor; [by apply plus_digits|].
        apply L_altr. constructor.
      * destruct (decide (ip = [])) as [->|Hip'].
        { apply L_altr. apply (L_seq _ _ ["."%char]); [apply lang_char|by apply plus_digits]. }
        apply L_altl. constructor; [by apply plus_digits|]. apply L_altl.
        apply (L_seq _ _ ["."%char]); [apply lang_char|by apply plus_digits].
    + destruct He as [|c sg' s' ds Hc Hs' Hds Hne]; [apply L_altr; constructor|].
      apply L_altl. apply (L_seq _ _ [c]); [by constructor|].
      constructor; [apply sign_re_iff; eauto|by apply plus_digits].
Qed.

Lemma digit_not_e c : is_digit c = true -> is_e c = false.
Proof.
  intros Hc. unfold is_e, ascii_eqb. rewrite !bool_decide_eq_false_2; [done|..];
    intros ->; discriminate Hc.
Qed.
Lemma digit_not_dot c : is_digit c = true -> ascii_eqb "." c = false.
Proof. intros Hc. by apply digit_not_char. Qed.

Lemma sign_avoids s sg : sign_lit sg s -> avoids is_e sg /\ avoids (ascii_eqb ".") sg.
Proof. destruct 1; repeat constructor. Qed.

(** The mantissa scan: where the point is, and the digits around it. *)
Lemma mantissa_scan sg s ml m f :
  sign_lit sg s -> mantissa_lit ml m f ->
  exists ds, all_digits ds /\ ds <> [] /\ m = digits_val ds /\ 0 <= f /\
    match find_index (ascii_eqb ".") (sg ++ ml) with
    | None => (sg ++ ml, 0)
    | Some i => (take i (sg ++ ml) ++ drop (S i) (sg ++ ml),
                 Z.of_nat (length (sg ++ ml)) - Z.of_nat i - 1)
    end = (sg ++ ds, f).
Proof.
  intros Hs Hm. destruct (sign_avoids s sg Hs) as [_ Hsg].
  destruct Hm as [ip Hip Hne|ip fp Hip Hfp Hne].
  - exists ip. rewrite find_index_avoids; [done|]. apply avoids_app; split; [done|].
    eapply digits_avoid; [|done]. apply digit_not_dot.
  - exists (ip ++ fp). split; [by apply all_digits_app|].
    split; [by destruct ip|]. split; [done|]. split; [lia|].
    rewrite app_assoc. rewrite find_index_hit; [| |done].
    2:{ apply avoids_app; split; [done|]. eapply digits_avoid; [|done]. apply digit_not_dot. }
    f_equal.
    + rewrite take_app_length. rewrite <- app_assoc. f_equal.
      replace (S (length (sg ++ ip))) with (length ((sg ++ ip) ++ ["."%char]))%nat
        by (rewrite !length_app; simpl; lia).
      change (("."%char) :: fp) with (["."%char] ++ fp). rewrite (app_assoc (sg ++ ip)).
      by rewrite drop_app_length.
    + rewrite !length_app. simpl. lia.
Qed.

Lemma parseInt_signed sg s ds :
  sign_lit sg s -> all_digits ds -> ds <> [] ->
  js_parseInt10 (sg ++ ds) = Some (s * digits_val ds).
Proof.
  intros Hs Hds Hne. pose proof (take_while_digits ds Hds) as Htw. unfold js_parseInt10.
  destruct Hs; simpl.
  - destruct ds as [|d ds]; [done|]. inversion Hds as [|? ? Hd _]; subst.
    unfold ascii_eqb. rewrite !bool_decide_eq_false_2 by (intros ->; discriminate Hd).
    rewrite Htw. f_equal; lia.
  - rewrite Htw. destruct ds; [done|]. f_equal; lia.
  - rewrite Htw. destruct ds; [done|]. f_equal; lia.
Qed.

Lemma sign_strip sg s ds :
  sign_lit sg s -> all_digits ds -> ds <> [] ->
  starts_with "-" (sg ++ ds) = (s =? -1) /\
  match sg ++ ds with
  | c :: rest => if ascii_eqb c "+" || ascii_eqb c "-" then rest else sg ++ ds
  | [] => []
  end = ds.
Proof.
  intros Hs Hds Hne. destruct ds as [|d ds]; [done|]. inversion Hds as [|? ? Hd _]; subst.
  destruct Hs; cbn [app starts_with]; [|done..].
  unfold ascii_eqb. rewrite !bool_decide_eq_false_2; [done|..];
    try (intros ->; discriminate Hd). intros <-; discriminate Hd.
Qed.

(** What [parse] computes on each literal. *)
Definition literal_value (m f e : Z) : edres ED :=
  let shift := e - f in
  if shift >? MAX_SCALE then Err ShiftOutOfRange
  else if - shift >? MAX_SCALE then Err ScaleOutOfRange
  else normalize (if shift >=? 0 then mkED (m * 10 ^ shift) 0 else mkED m (- shift)).

Lemma parse_string_lit raw m f e : decimal_lit raw m f e -> parse_string raw = literal_value m f e.
Proof.
  intros H. unfold parse_string.
  assert (re_match STRICT_DECIMAL_PATTERN raw = true) as -> by (apply strict_pattern_iff; eauto).
  destruct H as [sg s ml m f el e Hs Hm He]. cbn [negb].
  assert (avoids is_e (sg ++ ml)) as Hav.
  { apply avoids_app; split; [by eapply sign_avoids|].
    destruct Hm; [|apply avoids_app; split; [|constructor; [done|]]];
      (eapply digits_avoid; [apply digit_not_e|done]). }
  assert (match find_index is_e (sg ++ ml ++ el) with
          | None => (sg ++ ml ++ el, [])
          | Some i => (take i (sg ++ ml ++ el), drop (S i) (sg ++ ml ++ el))
          end = (sg ++ ml, drop 1 el)) as ->.
  { rewrite app_assoc. destruct He as [|c sg' s' ds Hc Hs' Hds Hne].
    - rewrite app_nil_r. by rewrite find_index_avoids.
    - rewrite find_index_hit by done. rewrite take_app_length. f_equal.
      rewrite drop_app_ge by lia. f_equal. lia. }
  assert (match drop 1 el with [] => Some 0 | _ :: _ => js_parseInt10 (drop 1 el) end = Some e) as ->.
  { destruct He as [|c sg' s' ds Hc Hs' Hds Hne]; [done|].
    change (drop 1 (c :: sg' ++ ds)) with (sg' ++ ds).
    rewrite (parseInt_signed sg' s' ds) by done. by destruct Hs', ds. }
  destruct (mantissa_scan sg s ml m f Hs Hm) as (ds & Hds & Hne & -> & Hf & ->).
  destruct (sign_strip sg s ds Hs Hds Hne) as [-> ->].
  rewrite js_BigInt_digits by done. unfold literal_value, pow10.
  rewrite Z.geb_leb, !Z.gtb_ltb.
  destruct (Z.leb_spec 0 (e - f)).
  - destruct (Z.ltb_spec MAX_SCALE (e - f)); [done|].
    destruct (Z.ltb_spec (e - f) 0); [lia|]. cbn [orb rbind].
    destruct (Z.ltb_spec MAX_SCALE (- (e - f))); [unfold MAX_SCALE in *; lia|].
    do 2 f_equal. destruct Hs; simpl; lia.
  - destruct (Z.ltb_spec MAX_SCALE (e - f)); [unfold MAX_SCALE in *; lia|].
    destruct (Z.ltb_spec MAX_SCALE (- (e - f))); [done|]. cbn [rbind].
    do 2 f_equal. destruct Hs; simpl; lia.
Qed.

(** *** Rendering *)

Lemma toString_nonneg n sc :
  0 <= n -> 0 <= sc -> mantissa_lit (toString (mkED n sc)) n sc.
Proof.
  intros Hn Hsc. unfold toString; simpl.
  replace (n <? 0) with false by (symmetry; apply Z.ltb_ge; lia).
  destruct (to_digits_all n Hn) as [Hd Hne]. pose proof (digits_val_to_digits n Hn) as Hv.
  destruct (Z.eqb_spec sc 0) as [->|Hsc0]; [rewrite <- Hv at 2; by constructor|].
  set (pad := pad_start (Z.to_nat (sc + 1)) "0" (to_digits n)).
  assert (all_digits pad) as Hpad by (apply all_digits_app; split; [apply all_digits_zeros|done]).
  assert (digits_val pad = n) as Hpv.
  { unfold pad, pad_start. rewrite digits_val_app, digits_val_zeros. lia. }
  assert (Z.to_nat sc < length pad)%nat as Hlen.
  { unfold pad, pad_start. rewrite length_app, length_replicate. lia. }
  set (cut := (length pad - Z.to_nat sc)%nat).
  assert (digits_val (take cut pad ++ drop cut pad) = n) as Hcv by by rewrite take_drop.
  rewrite <- Hcv. rewrite <- (take_drop cut pad) in Hpad. apply all_digits_app in Hpad as [? ?].
  assert (length (drop cut pad) = Z.to_nat sc) as Hdl by (rewrite length_drop; subst cut; lia).
  assert (sc = Z.of_nat (length (drop cut pad))) as Hsc' by lia.
  rewrite Hsc' at 1. apply mant_frac; [done..|]. intros Hnil. rewrite Hnil in Hdl. simpl in Hdl. lia.
Qed.

Lemma toString_sign u sc :
  toString (mkED u sc) =
  (if u <? 0 then ["-"%char] else []) ++ toString (mkED (Z.abs u) sc).
Proof.
  unfold toString; simpl. replace (Z.abs u <? 0) with false by (symmetry; apply Z.ltb_ge; lia).
  destruct (Z.ltb_spec u 0); [rewrite Z.abs_neq by lia|rewrite Z.abs_eq by lia];
    by destruct (sc =? 0).
Qed.

Lemma toString_lit d : 0 <= scale d -> decimal_lit (toString d) (unscaled d) (scale d) 0.
Proof.
  destruct d as [u sc]; simpl; intros Hsc. rewrite toString_sign.
  pose proof (toString_nonneg (Z.abs u) sc ltac:(lia) Hsc) as Hm.
  assert (exists s, sign_lit (if u <? 0 then ["-"%char] else []) s /\ s * Z.abs u = u)
    as (s & Hsg & Hu).
  { destruct (Z.ltb_spec u 0); [exists (-1)|exists 1]; (split; [constructor|lia]). }
  rewrite <- Hu at 3. rewrite <- (app_nil_r (_ ++ _)), <- app_assoc. constructor; [done..|constructor].
Qed.

Lemma normalize_canonical d : canonical d -> normalize d = Ok d.
Proof.
  intros Hc. destruct (normalize_total d) as (n & -> & Hn & Hq); [eauto with irex|].
  f_equal. by apply canonical_unique.
Qed.

Lemma parse_toString d : 0 <= scale d <= MAX_SCALE -> parse_string (toString d) = normalize d.
Proof.
  intros Hs. rewrite (parse_string_lit _ _ _ _ (toString_lit d ltac:(lia))).
  unfold literal_value. destruct d as [u sc]; simpl in *.
  rewrite !Z.gtb_ltb, Z.geb_leb, !Z.sub_0_l.
  destruct (Z.ltb_spec MAX_SCALE (- sc)); [lia|].
  destruct (Z.ltb_spec MAX_SCALE (- - sc)); [lia|].
  destruct (Z.leb_spec 0 (- sc)).
  - assert (sc = 0) as -> by lia. simpl. by rewrite Z.mul_1_r.
  - by rewrite Z.opp_involutive.
Qed.

Lemma literal_value_spec m f e :
  match literal_value m f e with
  | Ok d => canonical d /\ (toQ d == inject_Z m * Qpower (10 # 1) (e - f))%Q
  | Err _ => MAX_SCALE < Z.abs (e - f)
  end.
Proof.
  unfold literal_value. rewrite !Z.gtb_ltb, Z.geb_leb.
  destruct (Z.ltb_spec MAX_SCALE (e - f)); [lia|].
  destruct (Z.ltb_spec MAX_SCALE (- (e - f))); [lia|].
  destruct (Z.leb_spec 0 (e - f)) as [Hle|Hlt].
  - destruct (normalize_total (mkED (m * 10 ^ (e - f)) 0)) as (n & -> & Hn & ->);
      [simpl; unfold MAX_SCALE; lia|]. split; [done|].
    change (10 # 1)%Q with (inject_Z 10). rewrite <- Zpower_Qpower by done.
    unfold toQ, Qeq; simpl. lia.
  - destruct (normalize_total (mkED m (- (e - f)))) as (n & -> & Hn & ->); [simpl; lia|].
    split; [done|]. remember (- (e - f)) as k eqn:Hk.
    replace (e - f) with (- k) by lia.
    rewrite Qpower_opp. change (10 # 1)%Q with (inject_Z 10).
    rewrite <- Zpower_Qpower by lia.
    unfold toQ; simpl. pose proof (pow10_pos k ltac:(lia)) as Hp.
    destruct (10 ^ k) as [|p|p]; [lia| |lia].
    change (Z.to_pos (Zpos p)) with p. change (/ inject_Z (Zpos p))%Q with (1 # p)%Q.
    unfold Qeq; simpl. lia.
Qed.

Lemma rounds_scale mode n d q k :
  0 < k -> rounds mode n d q -> rounds mode (n * k) (d * k) q.
Proof.
  intros Hk. unfold rounds, nearest.
  replace (q * (d * k)) with ((q * d) * k) by ring. set (p := q * d).
  rewrite <- Z.mul_sub_distr_r, !Z.abs_mul, (Z.abs_eq k) by lia.
  assert ((0 <? d * k) = (0 <? d)) as ->
    by (destruct (Z.ltb_spec 0 d), (Z.ltb_spec 0 (d * k)); nia).
  intros [Hr Hm]. split; [nia|].
  destruct mode; try (destruct (0 <? d)); try nia; (split; [nia|]);
    intros ?; apply Hm || (assert (Z.abs p <= Z.abs n \/ Z.abs n <= Z.abs p) by lia; nia);
    nia.
Qed.

Lemma rounds_exact mode q d : d <> 0 -> rounds mode (q * d) d q.
Proof.
  intros. unfold rounds, nearest. rewrite Z.sub_diag.
  split; [lia|]. destruct mode; try (destruct (0 <? d)); lia.
Qed.

(** ** Properties *)

(** on canonical decimals [add] and [sub] always succeed and are exact; [mul] is
    exact, and throws only when no decimal of scale at most 100 is the product. *)
Theorem arithmetic_exact a b :
  canonical a -> canonical b ->
  (exists d, add a b = Ok d /\ canonical d /\ (toQ d == toQ a + toQ b)%Q) /\
  (exists d, sub a b = Ok d /\ canonical d /\ (toQ d == toQ a - toQ b)%Q) /\
  match mul a b with
  | Ok d => canonical d /\ (toQ d == toQ a * toQ b)%Q
  | Err e => e = InvalidRepresentation /\ forall d, canonical d -> ~ (toQ d == toQ a * toQ b)%Q
  end.
Proof.
  intros Ha Hb. split; [by apply add_spec|]. split; [|by apply mul_spec].
  rewrite sub_add_neg by done.
  destruct (add_spec a (neg b) Ha (neg_canonical b Hb)) as (d & -> & Hd & Hq).
  exists d. by rewrite Hq, toQ_neg.
Qed.

Lemma arithmetic_exact_witness :
  canonical (mkED 1 1) /\
  (exists d, add (mkED 1 1) (mkED 2 1) = Ok d /\ canonical d /\
             (toQ d == toQ (mkED 1 1) + toQ (mkED 2 1))%Q).
Proof.
  split; [done|]. apply (arithmetic_exact (mkED 1 1) (mkED 2 1)); done.
Defined.

(** [cmp] is the order of the rational values, never throws on canonical decimals,
    and answers 0 exactly on identical representations; the derived tests agree. *)
Theorem comparison_exact a b :
  canonical a -> canonical b ->
  cmp a b = Ok (toQ a ?= toQ b)%Q /\
  (eq a b = Ok true <-> a = b) /\
  (lt a b = Ok true <-> (toQ a < toQ b)%Q) /\
  (gte a b = Ok true <-> (toQ b <= toQ a)%Q) /\
  (gt a b = Ok true <-> (toQ b < toQ a)%Q) /\
  (lte a b = Ok true <-> (toQ a <= toQ b)%Q).
Proof.
  intros Ha Hb. pose proof (cmp_eq_iff a b Ha Hb) as Heq.
  unfold eq, lt, gte, gt, lte, cmp_test. rewrite !(cmp_spec a b Ha Hb) in *. simpl.
  pose proof (Qlt_alt (toQ a) (toQ b)). pose proof (Qle_alt (toQ a) (toQ b)).
  pose proof (Qgt_alt (toQ a) (toQ b)). pose proof (Qge_alt (toQ a) (toQ b)).
  split; [done|]. rewrite <- Heq.
  destruct (toQ a ?= toQ b)%Q; intuition congruence.
Qed.

Lemma comparison_exact_witness :
  canonical (mkED 3 1) /\ (eq (mkED 3 1) (mkED 3 1) = Ok true <-> mkED 3 1 = mkED 3 1).
Proof. split; [done|]. apply (comparison_exact (mkED 3 1) (mkED 3 1)); done. Defined.

(** What each mode promises of [p = d * b] against the dividend [n]: which side of it
    the product lies on, or how near it lies. *)
Definition mode_bound (mode : RoundingMode) (b : ED) (p n ulp : Q) : Prop :=
  match mode with
  | DOWN => (Qabs p <= Qabs n)%Q
  | UP => (Qabs n <= Qabs p)%Q
  | HALF_UP | HALF_DOWN | HALF_EVEN => ((2 # 1) * Qabs (p - n) <= ulp)%Q
  | FLOOR => if 0 <? unscaled b then (p <= n)%Q else (n <= p)%Q
  | CEILING => if 0 <? unscaled b then (n <= p)%Q else (p <= n)%Q
  end.

(** a division whose quantization scale fits never throws, misses the exact quotient
    by less than one unit of the requested scale (half a unit for the HALF modes), and
    [divUp] / [divDown] never fall on the wrong side of it in magnitude. *)
Theorem division_quantized a b sc mode :
  canonical a -> canonical b -> unscaled b <> 0 -> 0 <= sc -> scale b + sc <= MAX_SCALE ->
  exists d, div a b (Some (Int sc)) (Some mode) = Ok d /\ canonical d /\
    let ulp := (Qabs (toQ b) * (1 # Z.to_pos (10 ^ sc)))%Q in
    (Qabs (toQ d * toQ b - toQ a) < ulp)%Q /\
    mode_bound mode b (toQ d * toQ b) (toQ a) ulp.
Proof.
  intros Ha Hb Hub Hsc Hfit. pose proof (canonical_scale b Hb).
  destruct (div_total a b sc mode Ha Hb ltac:(lia) Hub Hfit) as [d Hd].
  exists d. split; [done|].
  destruct (div_quotient a b sc mode Ha Hb ltac:(lia) d Hd) as (_ & Hc & q & Hr & Hq).
  split; [done|].
  destruct (div_common a b sc Ha Hb ltac:(lia) q d Hq) as (En & Ep & Em).
  set (n := unscaled a * 10 ^ (scale b + sc)) in *. set (m := unscaled b * 10 ^ scale a) in *.
  set (S := scale a + scale b + sc) in *. cbn zeta.
  assert (Qabs (toQ b) * (1 # Z.to_pos (10 ^ sc)) == Qabs (toQ (mkED m S)))%Q as Hulp.
  { rewrite <- Em, Qabs_Qmult. done. }
  assert (toQ (mkED (q * m) S) - toQ (mkED n S) == toQ (mkED (q * m - n) S))%Q as Hdiff
    by (unfold toQ, Qeq; simpl; rewrite Pos2Z.inj_mul; ring).
  destruct Hr as [Hlt Hm]. split.
  - rewrite Hulp, En, Ep. apply toQ_sub_abs_lt. lia.
  - assert ((0 <? m) = (0 <? unscaled b)) as Hsgn.
    { unfold m. pose proof (pow10_pos (scale a) ltac:(pose proof (canonical_scale a Ha); lia)).
      destruct (Z.ltb_spec 0 (unscaled b)), (Z.ltb_spec 0 (unscaled b * 10 ^ scale a)); nia. }
    rewrite Hsgn in Hm. unfold mode_bound, nearest in *.
    destruct mode; try (destruct (0 <? unscaled b)); try (rewrite En, Ep; apply toQ_le; done);
      try (rewrite ?Hulp, En, Ep; apply toQ_abs_le); try done;
      destruct Hm as [Hm _]; rewrite Hulp, En, Ep, Hdiff;
      unfold toQ, Qle, Qabs; simpl; nia.
Qed.

Lemma division_quantized_witness :
  canonical (mkED 1 0) /\ canonical (mkED 3 0) /\
  exists d, div (mkED 1 0) (mkED 3 0) (Some (Int 4)) (Some UP) = Ok d /\ canonical d.
Proof.
  split; [done|]. split; [done|].
  destruct (division_quantized (mkED 1 0) (mkED 3 0) 4 UP) as (d & Hd & Hc & _);
    [done|done|done|lia|done|].
  exists d. done.
Defined.

(** [parse] accepts a string exactly when it is a decimal literal whose net exponent
    is within the scale bound, and returns its exact value in canonical form. *)
Theorem parse_exact raw :
  (is_ok (parse (InString raw)) = true <->
     exists m f e, decimal_lit raw m f e /\ is_ok (literal_value m f e) = true) /\
  forall m f e, decimal_lit raw m f e ->
    match parse (InString raw) with
    | Ok d => canonical d /\ (toQ d == inject_Z m * Qpower (10 # 1) (e - f))%Q
    | Err _ => MAX_SCALE < Z.abs (e - f)
    end.
Proof.
  simpl. split.
  - split.
    + intros Hok. destruct (re_match STRICT_DECIMAL_PATTERN raw) eqn:Hre.
      * apply strict_pattern_iff in Hre as (m & f & e & Hl).
        exists m, f, e. by rewrite <- (parse_string_lit raw).
      * unfold parse_string in Hok. by rewrite Hre in Hok.
    + intros (m & f & e & Hl & Hok). by rewrite (parse_string_lit raw m f e Hl).
  - intros m f e Hl. rewrite (parse_string_lit raw m f e Hl). apply literal_value_spec.
Qed.

Lemma parse_exact_witness :
  parse (InString (chars_of "-1.50e1")) = Ok (mkED (-15) 0) /\
  match parse (InString (chars_of "-1.50e1")) with
  | Ok d => canonical d /\ (toQ d == inject_Z (-150) * Qpower (10 # 1) (1 - 2))%Q
  | Err _ => MAX_SCALE < Z.abs (1 - 2)
  end.
Proof.
  split; [reflexivity|]. apply (parse_exact (chars_of "-1.50e1")).
  apply (decimal_lit_intro ["-"%char] (-1) (chars_of "1.50") 150 2 (chars_of "e1") 1).
  - constructor.
  - apply (mant_frac ["1"%char] ["5"%char; "0"%char]); [repeat constructor..|done].
  - apply (exp_some "e" [] 1 ["1"%char]); [done|constructor|repeat constructor|done].
Defined.

(** [parse] inverts [toString]: a canonical decimal survives being printed and read
    back, and two of them print alike only when they are the same. *)
Theorem toString_roundtrip d :
  canonical d ->
  parse (InString (toString d)) = Ok d /\
  forall d', canonical d' -> toString d' = toString d -> d' = d.
Proof.
  intros Hc. pose proof (canonical_scale d Hc).
  assert (forall d, canonical d -> parse_string (toString d) = Ok d) as Hrt.
  { intros x Hx. rewrite parse_toString by eauto with irex. by apply normalize_canonical. }
  split; [by apply Hrt|]. intros d' Hc' Heq.
  apply Hrt in Hc, Hc'. rewrite Heq, Hc in Hc'. by simplify_eq.
Qed.

Lemma toString_roundtrip_witness :
  canonical (mkED (-105) 2) /\ parse (InString (toString (mkED (-105) 2))) = Ok (mkED (-105) 2).
Proof. split; [done|]. apply (toString_roundtrip (mkED (-105) 2)). done. Defined.

(** [toFixed] prints exactly the requested number of fractional digits, and the
    number printed is the decimal rounded in the requested mode. *)
Theorem toFixed_rounds d sc mode :
  canonical d -> 0 <= sc <= MAX_SCALE ->
  exists out q, toFixed d (Int sc) mode = Ok out /\ decimal_lit out q sc 0 /\
    rounds mode (unscaled d * 10 ^ sc) (10 ^ scale d) q.
Proof.
  intros Hc Hsc. pose proof (canonical_scale d Hc) as Hs. destruct d as [u s]; simpl in *.
  pose proof (pow10_pos s) as Hp. unfold toFixed; cbn [scale unscaled].
  rewrite !Z.gtb_ltb.
  destruct (Z.ltb_spec sc 0), (Z.ltb_spec MAX_SCALE sc); [lia..|]; cbn [orb].
  destruct (Z.eqb_spec sc s) as [->|Hne].
  { eexists _, u. split; [done|]. split; [by apply (toString_lit (mkED u s))|].
    apply rounds_exact. lia. }
  destruct (Z.ltb_spec s sc).
  - rewrite rescale_total by (simpl; lia). cbn [rmap scale unscaled].
    eexists _, (u * 10 ^ (sc - s)). split; [done|].
    split; [apply (toString_lit (mkED (u * 10 ^ (sc - s)) sc)); simpl; lia|].
    replace (u * 10 ^ sc) with (u * 10 ^ (sc - s) * 10 ^ s); [apply rounds_exact; lia|].
    rewrite (pow10_split s sc) by lia. ring.
  - unfold pow10. rewrite Z.gtb_ltb.
    destruct (Z.ltb_spec (s - sc) 0), (Z.ltb_spec MAX_SCALE (s - sc)); [lia..|]. cbn [orb rbind].
    eexists _, (quantizedDivide u (10 ^ (s - sc)) mode). split; [done|].
    split; [apply (toString_lit (mkED _ sc)); simpl; lia|].
    rewrite (pow10_split sc s), (Z.mul_comm (10 ^ sc)) by lia.
    apply rounds_scale; [apply pow10_pos; lia|]. apply quantizedDivide_rounds.
    pose proof (pow10_pos (s - sc)). lia.
Qed.

Lemma toFixed_rounds_witness :
  toFixed (mkED 12345 3) (Int 2) HALF_EVEN = Ok (chars_of "12.34") /\
  exists out q, toFixed (mkED 12345 3) (Int 2) HALF_EVEN = Ok out /\ decimal_lit out q 2 0 /\
    rounds HALF_EVEN (12345 * 10 ^ 2) (10 ^ 3) q.
Proof.
  split; [reflexivity|]. apply (toFixed_rounds (mkED 12345 3)); [done|unfold MAX_SCALE; lia].
Defined.
