(* ===== verification/CanonicalJson.v ===== *)
(** * Canonical JSON ([execution/interfaces/execution-authority.ts])

    The text every digest of the authority chain is taken over: [canonicalJson] on
    JavaScript values, [digestCanonicalPayload] and the decimal normalisation.  A finite
    number is carried as the text [JSON.stringify] prints for it, an object as its own
    properties in insertion order.  Strings are their code units below 256. *)

From S2P Require Import Prelude JsString.
Open Scope string_scope.
Open Scope list_scope.
Open Scope Z_scope.

Inductive js :=
| JUndefined
| JNull
| JBool (b : bool)
| JNumber (text : option chars)   (** [None]: NaN or an infinity *)
| JBigInt (n : Z)
| JString (s : chars)
| JArray (l : list js)
| JObject (fields : list (chars * js))
| JFunction.

Inductive CanonicalError := NonFiniteNumber | UnsupportedType.
#[global] Instance CanonicalError_eq_dec : EqDecision CanonicalError.
Proof. solve_decision. Defined.

Abbreviation cjres := (result CanonicalError).

(** ** [JSON.stringify] of a string *)

Definition hex_char (d : Z) : ascii := ascii_of_code (if d <? 10 then 48 + d else 87 + d).

Definition quote : ascii := ascii_of_code 34.
Definition backslash : ascii := ascii_of_code 92.

Definition json_escape (c : ascii) : chars :=
  let n := code c in
  if n =? 34 then [backslash; quote]
  else if n =? 92 then [backslash; backslash]
  else if n =? 8 then [backslash; "b"%char]
  else if n =? 12 then [backslash; "f"%char]
  else if n =? 10 then [backslash; "n"%char]
  else if n =? 13 then [backslash; "r"%char]
  else if n =? 9 then [backslash; "t"%char]
  else if n <? 32 then [backslash; "u"%char; "0"%char; "0"%char; hex_char (n / 16); hex_char (n mod 16)]
  else [c].

Definition json_string (s : chars) : chars := quote :: flat_map json_escape s ++ [quote].

(** [a < b] on strings: by code units, a proper prefix first. *)
Fixpoint chars_ltb (a b : chars) : bool :=
  match a, b with
  | _, [] => false
  | [], _ :: _ => true
  | x :: a, y :: b => (code x <? code y) || ((code x =? code y) && chars_ltb a b)
  end.

(** The comparator of [sort]: [a] may stay before [b]. *)
Definition key_le {A} (p q : chars * A) : Prop := chars_ltb (fst q) (fst p) = false.
#[global] Instance key_le_dec {A} : RelDecision (@key_le A).
Proof. intros p q. unfold key_le. apply _. Defined.

(** ** [canonicalJson] *)

Fixpoint join_with (sep : ascii) (l : list chars) : chars :=
  match l with
  | [] => []
  | [x] => x
  | x :: l => x ++ sep :: join_with sep l
  end.

Fixpoint sequence {A} (l : list (cjres A)) : cjres (list A) :=
  match l with
  | [] => Ok []
  | r :: l => rbind r (fun x => rmap (cons x) (sequence l))
  end.

Definition bigint_text (n : Z) : chars := if n <? 0 then "-"%char :: to_digits (- n) else to_digits n.

Definition is_undefined (v : js) : bool := match v with JUndefined => true | _ => false end.

Definition array_text (l : list chars) : chars := "["%char :: join_with "," l ++ ["]"%char].
Definition object_text (l : list chars) : chars := "{"%char :: join_with "," l ++ ["}"%char].
Definition field_text (k t : chars) : chars := json_string k ++ ":"%char :: t.

(** The properties are printed where they stand and sorted by key afterwards, which throws
    at the same property as printing them in key order. *)
Fixpoint canonicalJson (v : js) : cjres chars :=
  match v with
  | JUndefined | JNull => Ok ["n"; "u"; "l"; "l"]%char
  | JBool true => Ok ["t"; "r"; "u"; "e"]%char
  | JBool false => Ok ["f"; "a"; "l"; "s"; "e"]%char
  | JNumber (Some t) => Ok t
  | JNumber None => Err NonFiniteNumber
  | JBigInt n => Ok (quote :: bigint_text n ++ [quote])
  | JString s => Ok (json_string s)
  | JArray l => rmap array_text (sequence (map canonicalJson l))
  | JObject fields =>
      let printed := flat_map (fun '(k, v) => if is_undefined v then [] else [(k, canonicalJson v)]) fields in
      rmap object_text
        (sequence (map (fun '(k, r) => rmap (field_text k) r) (merge_sort key_le printed)))
  | JFunction => Err UnsupportedType
  end.

(** [sha256] is the hexadecimal digest of the UTF-8 bytes. *)
Definition digestCanonicalPayload (sha256 : chars -> string) (payload : js) : cjres string :=
  rmap sha256 (canonicalJson payload).

(** ** [normalizeDecimalStringForDigest] *)

(** [/(\.\d*?)0+$/]: the match starts at the first dot followed by digits only, the last of
    which is a zero, and ends at the end; [$1] drops the trailing zeros. *)
Definition strip_zeros (l : chars) : chars := rev (drop_while (ascii_eqb "0") (rev l)).

Definition ends_with (c : ascii) (l : chars) : bool := starts_with c (rev l).

Fixpoint strip_fraction_zeros (l : chars) : chars :=
  match l with
  | [] => []
  | c :: r =>
      if ascii_eqb "." c && forallb is_digit r && ends_with "0" r then c :: strip_zeros r
      else c :: strip_fraction_zeros r
  end.

Definition normalizeDecimalStringForDigest (value : option chars) : option chars :=
  match value with
  | None => None
  | Some value =>
      let trimmed := trim value in
      match trimmed with
      | [] => None
      | _ =>
          let stripped := strip_fraction_zeros trimmed in
          let normalized := if ends_with "." stripped then rev (drop 1 (rev stripped)) else stripped in
          Some (if bool_decide (normalized = ["-"; "0"]%char) then ["0"%char] else normalized)
      end
  end.

(** ** The canonical value a text stands for *)

(** [null] for [undefined] and for an array's holes, the text of a bigint, the properties
    that are not [undefined] in key order. *)
Fixpoint canon (v : js) : js :=
  match v with
  | JUndefined => JNull
  | JBigInt n => JString (bigint_text n)
  | JArray l => JArray (map canon l)
  | JObject fields =>
      JObject (merge_sort key_le
        (flat_map (fun '(k, v) => if is_undefined v then [] else [(k, canon v)]) fields))
  | v => v
  end.

Fixpoint print (v : js) : chars :=
  match v with
  | JBool true => ["t"; "r"; "u"; "e"]%char
  | JBool false => ["f"; "a"; "l"; "s"; "e"]%char
  | JNumber (Some t) => t
  | JString s => json_string s
  | JArray l => array_text (map print l)
  | JObject fields => object_text (map (fun '(k, v) => field_text k (print v)) fields)
  | _ => ["n"; "u"; "l"; "l"]%char
  end.

(** A JSON number text: of the characters of a number, and not empty. *)
Definition is_number_char (c : ascii) : bool :=
  is_digit c || ascii_eqb "-" c || ascii_eqb "+" c || ascii_eqb "." c || ascii_eqb "e" c.
Definition number_text (t : chars) : Prop := t <> [] /\ Forall (fun c => is_number_char c = true) t.

Section js_ind.
Context (P : js -> Prop).
Context (HU : P JUndefined) (HN : P JNull) (HB : forall b, P (JBool b))
  (Hnum : forall t, P (JNumber t)) (Hbig : forall n, P (JBigInt n)) (Hstr : forall s, P (JString s))
  (Harr : forall l, Forall P l -> P (JArray l))
  (Hobj : forall fields, Forall (fun p => P (snd p)) fields -> P (JObject fields))
  (Hfun : P JFunction).

Fixpoint js_nested_ind (v : js) : P v :=
  match v with
  | JUndefined => HU
  | JNull => HN
  | JBool b => HB b
  | JNumber t => Hnum t
  | JBigInt n => Hbig n
  | JString s => Hstr s
  | JArray l =>
      Harr l ((fix go l := match l return Forall P l with
                           | [] => Forall_nil_2 _
                           | x :: l => Forall_cons_2 _ _ _ (js_nested_ind x) (go l)
                           end) l)
  | JObject fields =>
      Hobj fields ((fix go l := match l return Forall (fun p => P (snd p)) l with
                           | [] => Forall_nil_2 _
                           | x :: l => Forall_cons_2 _ _ _ (js_nested_ind (snd x)) (go l)
                           end) fields)
  | JFunction => Hfun
  end.
End js_ind.

(** The numbers of a value are number texts. *)
Fixpoint numbers_ok (v : js) : Prop :=
  match v with
  | JNumber (Some t) => number_text t
  | JArray l => foldr and True (map numbers_ok l)
  | JObject fields => foldr and True (map (fun '(_, v) => numbers_ok v) fields)
  | _ => True
  end.

(** Canonical values print themselves. *)
Inductive canonical_value : js -> Prop :=
| cv_null : canonical_value JNull
| cv_bool b : canonical_value (JBool b)
| cv_number t : number_text t -> canonical_value (JNumber (Some t))
| cv_string s : canonical_value (JString s)
| cv_array l : Forall canonical_value l -> canonical_value (JArray l)
| cv_object fields : Forall (fun p => canonical_value (snd p)) fields -> canonical_value (JObject fields).

(** ** Lemmas: the printed text is self-delimiting *)

(** What may follow a value. *)
Definition stops (r : chars) : Prop :=
  match r with [] => True | c :: _ => c = ","%char \/ c = "]"%char \/ c = "}"%char end.

Lemma escape_cases c : exists x l, json_escape c = x :: l /\ x <> quote.
Proof.
  unfold json_escape.
  repeat match goal with |- context [if ?b then _ else _] => destruct b eqn:? end;
    do 2 eexists; (split; [reflexivity|]); try discriminate.
  intros ->. done.
Qed.

Definition escape_inj_check : bool :=
  let all := map ascii_of_nat (seq 0 256) in
  forallb (fun a => forallb (fun b =>
    ascii_eqb a b || negb (bool_decide (json_escape a `prefix_of` json_escape b))) all) all.

Lemma escape_prefix a b : json_escape a `prefix_of` json_escape b -> a = b.
Proof.
  assert (escape_inj_check = true) as Hc by by vm_compute.
  assert (forall c : ascii, List.In c (map ascii_of_nat (seq 0 256))) as Hall.
  { intros c. apply in_map_iff. exists (nat_of_ascii c). split; [apply ascii_nat_embedding|].
    apply in_seq. pose proof (nat_ascii_bounded c). lia. }
  unfold escape_inj_check in Hc. rewrite forallb_forall in Hc.
  specialize (Hc a (Hall a)). rewrite forallb_forall in Hc. specialize (Hc b (Hall b)).
  intros Hp. apply orb_true_iff in Hc as [Hc|Hc].
  - unfold ascii_eqb in Hc. by apply bool_decide_eq_true in Hc.
  - by rewrite bool_decide_eq_true_2 in Hc.
Qed.

Lemma app_eq_prefix {A} (a b x y : list A) : a ++ x = b ++ y -> a `prefix_of` b \/ b `prefix_of` a.
Proof.
  revert b. induction a as [|c a IH]; intros b; [left; apply prefix_nil|].
  destruct b as [|e b]; [right; apply prefix_nil|]. simpl. intros [= -> Heq].
  destruct (IH b Heq); [left|right]; by apply prefix_cons.
Qed.

Lemma json_string_inj a b r r' : json_string a ++ r = json_string b ++ r' -> a = b /\ r = r'.
Proof.
  unfold json_string. simpl. intros [= H]. rewrite <- !app_assoc in H. simpl in H. revert b H.
  induction a as [|x a IH]; intros [|y b]; simpl.
  - by intros [= ->].
  - destruct (escape_cases y) as (z & l & -> & Hz). intros [= <- _]. done.
  - destruct (escape_cases x) as (z & l & -> & Hz). intros [= -> _]. done.
  - rewrite <- !app_assoc. intros H.
    assert (x = y) as <-.
    { destruct (app_eq_prefix _ _ _ _ H) as [Hp|Hp]; apply escape_prefix in Hp; congruence. }
    apply app_inv_head in H. apply IH in H as [-> ->]. done.
Qed.

Lemma number_text_stops t t' r r' :
  number_text t -> number_text t' -> stops r -> stops r' -> t ++ r = t' ++ r' -> t = t' /\ r = r'.
Proof.
  intros [_ Ht] [_ Ht']. revert t' Ht'. induction Ht as [|c t Hc Ht IH]; intros t' Ht' Hr Hr'.
  - destruct Ht' as [|c' t' Hc' _]; [done|]. simpl. intros ->. exfalso.
    destruct Hr as [->|[->| ->]]; discriminate Hc'.
  - destruct Ht' as [|c' t' Hc' Ht']; simpl.
    + intros <-. exfalso. destruct Hr' as [->|[->| ->]]; discriminate Hc.
    + intros [= -> Heq]. apply IH in Heq as [-> ->]; done.
Qed.

(** The head of a printed value tells its constructor. *)
Definition head_kind (v : js) : ascii -> Prop :=
  match v with
  | JBool true => eq "t"%char
  | JBool false => eq "f"%char
  | JNumber _ => fun c => is_number_char c = true
  | JString _ => eq quote
  | JArray _ => eq "["%char
  | JObject _ => eq "{"%char
  | _ => eq "n"%char
  end.

Lemma print_head v : canonical_value v -> exists c l, print v = c :: l /\ head_kind v c.
Proof.
  destruct 1 as [|[]|t [Hne Ht]|s|l|fields]; simpl; try (do 2 eexists; split; done).
  destruct t as [|c t]; [done|]. inversion Ht. eauto.
Qed.

Lemma join_inj {A} (p : A -> chars) (close : ascii) l l' r r' :
  close = "]"%char \/ close = "}"%char ->
  Forall (fun x => (forall c t, p x = c :: t -> c <> close) /\
     forall y s s', y ∈ l' -> stops s -> stops s' -> p x ++ s = p y ++ s' -> x = y /\ s = s') l ->
  Forall (fun y => p y <> [] /\ forall c t, p y = c :: t -> c <> close) l' ->
  Forall (fun x => p x <> []) l ->
  join_with "," (map p l) ++ close :: r = join_with "," (map p l') ++ close :: r' -> l = l' /\ r = r'.
Proof.
  intros Hcl. assert (forall t, stops (close :: t)) as Hst by (intros t; simpl; naive_solver).
  revert l'. induction l as [|x l IH]; intros l' Hl Hl' Hne.
  - destruct l' as [|y l']; [by intros [= ->]|]. apply Forall_cons in Hl' as [[Hny Hy] _].
    destruct (p y) as [|c t] eqn:Hpy; [done|]. specialize (Hy c t eq_refl).
    destruct l'; simpl; rewrite Hpy; intros [= <- _]; done.
  - apply Forall_cons in Hl as [[Hxh Hx] Hl]. apply Forall_cons in Hne as [Hnx Hne].
    destruct l' as [|y l'].
    { destruct (p x) as [|c t] eqn:Hpx; [done|]. specialize (Hxh c t eq_refl).
      destruct l; simpl; rewrite Hpx; intros [= -> _]; done. }
    apply Forall_cons in Hl' as [_ Hl'].
    destruct l as [|x2 l], l' as [|y2 l']; simpl; rewrite <- ?app_assoc; simpl; intros H.
    + apply Hx in H as [-> [= ->]]; [done|left|done..].
    + apply Hx in H as [_ H]; [destruct Hcl as [->| ->]; discriminate H|left|done|simpl; by left].
    + apply Hx in H as [_ H]; [destruct Hcl as [->| ->]; discriminate H|left|simpl; by left|done].
    + apply Hx in H as [-> [= H]]; [|left|simpl; by left..].
      apply (IH (y2 :: l')) in H as [[= -> ->] ->]; [done| |done|done].
      eapply Forall_impl; [exact Hl|]. intros z [? Hz]. split; [done|]. intros; eapply Hz; eauto. by right.
Qed.

Lemma print_nonempty v : canonical_value v -> print v <> [].
Proof. intros (c & l & -> & _)%print_head. done. Qed.

Lemma print_open v c t close :
  close = "]"%char \/ close = "}"%char -> canonical_value v -> print v = c :: t -> c <> close.
Proof.
  intros Hcl Hv Hp. destruct (print_head _ Hv) as (c' & l & Hp' & Hk).
  rewrite Hp in Hp'. injection Hp' as -> _. intros ->.
  destruct Hv as [|[]| | | |], Hcl as [->| ->]; simpl in Hk; discriminate Hk.
Qed.

Definition print_field (f : chars * js) : chars := let '(k, v) := f in field_text k (print v).

Lemma print_inj v :
  canonical_value v -> forall v' r r', canonical_value v' -> stops r -> stops r' ->
  print v ++ r = print v' ++ r' -> v = v' /\ r = r'.
Proof.
  induction v as [| |b|t|n|s|l IH|fields IH|] using js_nested_ind; intros Hv v' r r' Hv' Hr Hr' Heq;
    destruct (print_head _ Hv) as (c & u & Hc & Hk); destruct (print_head _ Hv') as (c' & u' & Hc' & Hk');
    assert (c = c') as <- by (rewrite Hc, Hc' in Heq; by injection Heq).
  all: inversion Hv; subst; destruct Hv' as [|b'|t' Ht'|s'|l' Hl'|fields' Hf'];
    try destruct b; try destruct b'; simpl in Hk, Hk';
    try (first [congruence | subst c; discriminate Hk' | subst c; discriminate Hk]).
  all: clear c u u' Hc Hc' Hk Hk'; cbn [print] in Heq.
  all: try (simpl in Heq; by injection Heq as ->).
  - apply number_text_stops in Heq as [-> ->]; done.
  - apply json_string_inj in Heq as [-> ->]. done.
  - unfold array_text in Heq. simpl in Heq. injection Heq as Heq. rewrite <- !app_assoc in Heq.
    assert (forall l, Forall canonical_value l -> Forall (fun y => print y <> [] /\
              forall c t, print y = c :: t -> c <> "]"%char) l) as Hne.
    { intros k Hk. eapply Forall_impl; [exact Hk|]. intros y Hy. split; [by apply print_nonempty|].
      intros c t. apply print_open; auto. }
    apply (join_inj print "]") in Heq as [-> ->]; [done|auto| |by apply Hne|].
    + rewrite Forall_forall in *. intros x Hx. split; [intros c t; apply print_open; auto|].
      intros y s s' Hy. eauto.
    + eapply Forall_impl; [eapply Hne; eassumption|]. by intros y [? _].
  - unfold object_text in Heq. simpl in Heq. injection Heq as Heq. rewrite <- !app_assoc in Heq.
    apply (join_inj print_field "}") in Heq as [-> ->]; [done|auto| | |].
    + rewrite Forall_forall in *. intros [k x] Hx. split; [by intros c t [= <- _]|].
      intros [k' y] s s' Hy Hs Hs'. unfold print_field, field_text. rewrite <- !app_assoc.
      intros [-> [= Hxy]]%json_string_inj.
      destruct (IH _ Hx (H0 _ Hx) y s s' (Hf' _ Hy) Hs Hs' Hxy) as [? ->]. simpl in *. by subst.
    + apply Forall_forall. intros [k y] _. split; [done|]. by intros c t [= <- _].
    + by apply Forall_forall; intros [k x] _.
Qed.

(** Sorting by key commutes with a map that keeps the keys. *)
Section sort_map.
Context {A B : Type} (g : A -> B).
Let f (p : chars * A) : chars * B := (fst p, g (snd p)).

Lemma list_merge_map l1 l2 : list_merge key_le (map f l1) (map f l2) = map f (list_merge key_le l1 l2).
Proof.
  revert l2. induction l1 as [|x l1 IH]; intros l2; [by destruct l2|].
  induction l2 as [|y l2 IH2]; [done|]. cbn [map].
  rewrite !list_merge_cons. rewrite (decide_ext (key_le (f x) (f y)) (key_le x y)) by done.
  destruct (decide (key_le x y)); cbn [map]; f_equal; [apply (IH (y :: l2))|apply IH2].
Qed.

Definition stack_map (st : list (option (list (chars * A)))) := map (option_map (map f)) st.

Lemma merge_list_to_stack_map st l :
  merge_list_to_stack key_le (stack_map st) (map f l) = stack_map (merge_list_to_stack key_le st l).
Proof.
  revert l. induction st as [|[l'|] st IH]; intros l; simpl; [done| |done].
  rewrite list_merge_map. f_equal. apply IH.
Qed.

Lemma merge_stack_map st : merge_stack key_le (stack_map st) = map f (merge_stack key_le st).
Proof.
  induction st as [|[l|] st IH]; simpl; [done| |done]. by rewrite IH, list_merge_map.
Qed.

Lemma merge_sort_map l : merge_sort key_le (map f l) = map f (merge_sort key_le l).
Proof.
  unfold merge_sort. change (@nil (option (list (chars * B)))) with (stack_map []).
  generalize (@nil (option (list (chars * A)))). induction l as [|x l IH]; intros st; simpl.
  - apply merge_stack_map.
  - rewrite <- IH. f_equal. apply (merge_list_to_stack_map st [x]).
Qed.
End sort_map.

(** ** [canonicalJson] prints the canonical value *)

(** What [canonicalJson] accepts: no non-finite number and no function, except under a
    property it never visits. *)
Fixpoint printable (v : js) : bool :=
  match v with
  | JNumber None | JFunction => false
  | JArray l => forallb printable l
  | JObject fields => forallb (fun '(_, v) => is_undefined v || printable v) fields
  | _ => true
  end.

Lemma sequence_ok {A} (l : list (cjres A)) xs : sequence l = Ok xs <-> l = map Ok xs.
Proof.
  revert xs. induction l as [|r l IH]; intros xs; simpl.
  - split; [by intros [= <-]|]. by destruct xs.
  - split.
    + intros (x & -> & (ys & Hl & ->)%rmap_ok)%rbind_ok. apply IH in Hl as ->. done.
    + destruct xs as [|x xs]; [done|]. simpl. intros [= -> ->]. simpl.
      by rewrite (proj2 (IH xs) eq_refl).
Qed.

Definition kept (f : js -> js) (fields : list (chars * js)) : list (chars * js) :=
  flat_map (fun '(k, v) => if is_undefined v then [] else [(k, f v)]) fields.

Lemma canonicalJson_ok v : printable v = true -> canonicalJson v = Ok (print (canon v)).
Proof.
  induction v as [| |[]|[t|]|n|s|l IH|fields IH|] using js_nested_ind; try done.
  - intros _. cbn [canonicalJson canon print]. f_equal. unfold json_string. f_equal. f_equal.
    assert (forall l, all_digits l -> flat_map json_escape l = l) as Hd.
    { induction 1 as [|c l Hc _ IHl]; [done|]. simpl. rewrite IHl. unfold json_escape, is_digit in *.
      bool_to_prop. repeat match goal with |- context [if ?b then _ else _] =>
        destruct b eqn:?; bool_to_prop; try lia end. done. }
    unfold bigint_text. destruct (Z.ltb_spec n 0).
    + simpl. rewrite Hd; [done|]. apply to_digits_all; lia.
    + rewrite Hd; [done|]. apply to_digits_all; lia.
  - simpl. intros Hp. rewrite (proj2 (sequence_ok _ (map print (map canon l)))).
    + done.
    + rewrite !map_map. apply map_ext_in. intros x Hx. rewrite forallb_forall in Hp.
      rewrite Forall_forall in IH. apply IH; [by apply list_elem_of_In|by apply Hp].
  - intros Hp. cbn [canonicalJson canon print].
    assert (flat_map (fun '(k, v) => if is_undefined v then [] else [(k, canonicalJson v)]) fields =
            map (fun p => (fst p, Ok (print (snd p)))) (kept canon fields)) as ->.
    { clear -IH Hp. induction fields as [|[k v] fields IHf]; [done|].
      apply Forall_cons in IH as [Hv IH]. simpl in Hp. apply andb_true_iff in Hp as [Hpv Hp].
      unfold kept. simpl. rewrite IHf by done. destruct (is_undefined v); [done|].
      simpl in *. by rewrite Hv. }
    rewrite (merge_sort_map (fun v => Ok (print v))).
    rewrite (proj2 (sequence_ok _ (map print_field (merge_sort key_le (kept canon fields))))); [done|].
    rewrite !map_map. apply map_ext. by intros [k x].
Qed.

Lemma canonicalJson_printable v t : canonicalJson v = Ok t -> printable v = true.
Proof.
  revert t. induction v as [| |[]|[x|]|n|s|l IH|fields IH|] using js_nested_ind; intros t; try done.
  - change (rmap array_text (sequence (map canonicalJson l)) = Ok t -> forallb printable l = true).
    intros (ts & Hts & _)%rmap_ok. apply sequence_ok in Hts. apply forallb_forall. intros x Hx.
    rewrite Forall_forall in IH. apply (in_map canonicalJson) in Hx as Hcx. rewrite Hts in Hcx.
    apply in_map_iff in Hcx as (y & Hy & _). eapply IH; [by apply list_elem_of_In|done].
  - cbn [canonicalJson]. intros (ts & Hts & _)%rmap_ok. apply sequence_ok in Hts. simpl.
    apply forallb_forall. intros [k x] Hx. apply orb_true_iff.
    destruct (is_undefined x) eqn:Hu; [by left|right].
    set (printed := flat_map _ fields) in Hts.
    assert ((k, canonicalJson x) ∈ printed) as Hin.
    { apply list_elem_of_In, in_flat_map. exists (k, x). rewrite Hu. split; [done|by left]. }
    rewrite <- (merge_sort_Permutation key_le) in Hin.
    apply list_elem_of_In, (in_map (fun '(k, r) => rmap (field_text k) r)) in Hin.
    rewrite Hts in Hin. apply in_map_iff in Hin as (y & Hy & _).
    symmetry in Hy. apply rmap_ok in Hy as (z & Hz & _).
    rewrite Forall_forall in IH. apply (IH (k, x)) in Hz; [done|by apply list_elem_of_In].
Qed.

Lemma canon_canonical v : numbers_ok v -> printable v = true -> canonical_value (canon v).
Proof.
  induction v as [| |b|[t|]|n|s|l IH|fields IH|] using js_nested_ind;
    try (by constructor); try done.
  - simpl. intros Hn Hp. constructor. induction l as [|x l IHl]; [constructor|].
    apply Forall_cons in IH as [Hx IH]. simpl in Hn, Hp. destruct Hn as [Hnx Hn].
    apply andb_true_iff in Hp as [Hpx Hp]. constructor; [auto|by apply IHl].
  - simpl. intros Hn Hp. constructor. rewrite (merge_sort_Permutation key_le).
    induction fields as [|[k x] fields IHl]; [constructor|].
    apply Forall_cons in IH as [Hx IH]. simpl in Hn, Hp. destruct Hn as [Hnx Hn].
    apply andb_true_iff in Hp as [Hpx Hp]. simpl. apply Forall_app. split; [|by apply IHl].
    destruct (is_undefined x); constructor; [|constructor]. by apply Hx.
Qed.

(** ** Key order *)

Lemma code_inj a b : code a = code b -> a = b.
Proof.
  unfold code. intros H%N2Z.inj. rewrite <- (ascii_N_embedding a), <- (ascii_N_embedding b). by rewrite H.
Qed.

Lemma chars_ltb_antisym a b : chars_ltb a b = false -> chars_ltb b a = false -> a = b.
Proof.
  revert b. induction a as [|x a IH]; intros [|y b]; simpl; try done.
  rewrite !orb_false_iff, !andb_false_iff, !Z.ltb_ge. intros [Hxy H1] [Hyx H2].
  assert (x = y) as -> by (apply code_inj; lia). rewrite Z.eqb_refl in *.
  destruct H1, H2; try done. f_equal. by apply IH.
Qed.

Lemma chars_ltb_total a b : chars_ltb a b = false \/ chars_ltb b a = false.
Proof.
  revert b. induction a as [|x a IH]; intros [|y b]; simpl; auto.
  destruct (Z.lt_trichotomy (code x) (code y)) as [Hlt|[Heq|Hlt]].
  - right. apply orb_false_iff. split; [apply Z.ltb_ge; lia|].
    apply andb_false_iff. left. apply Z.eqb_neq. lia.
  - rewrite Heq, Z.ltb_irrefl, Z.eqb_refl. apply IH.
  - left. apply orb_false_iff. split; [apply Z.ltb_ge; lia|].
    apply andb_false_iff. left. apply Z.eqb_neq. lia.
Qed.

Lemma chars_le_trans a b c : chars_ltb b a = false -> chars_ltb c b = false -> chars_ltb c a = false.
Proof.
  revert b c. induction a as [|x a IH]; intros [|y b] [|z c]; simpl; try done.
  rewrite !orb_false_iff, !andb_false_iff, !Z.ltb_ge, !Z.eqb_neq. intros [Hxy H1] [Hyz H2].
  split; [lia|]. destruct H1 as [H1|H1]; [left; lia|]. destruct H2 as [H2|H2]; [left; lia|].
  right. by apply (IH b).
Qed.

Lemma merge_sort_unique {A} (l l' : list (chars * A)) :
  NoDup (fst <$> l) -> l ≡ₚ l' -> merge_sort key_le l = merge_sort key_le l'.
Proof.
  intros Hnd Hp.
  assert (Transitive (@key_le A)) as Htr by (intros p q r; apply chars_le_trans).
  assert (Total (@key_le A)) as Hto by (intros p q; apply chars_ltb_total).
  apply (StronglySorted_unique_strong key_le);
    [|by apply (StronglySorted_merge_sort _)..|by rewrite !(merge_sort_Permutation _)].
  intros p q Hin1 Hin2 H1 H2. rewrite (merge_sort_Permutation _) in Hin1.
  rewrite (merge_sort_Permutation _), <- Hp in Hin2.
  assert (fst p = fst q) as Hk by by apply chars_ltb_antisym.
  destruct p as [k x], q as [k' y]. simpl in Hk. subst k'. f_equal.
  clear -Hnd Hin1 Hin2. induction l as [|[k0 z] l IH]; [by apply not_elem_of_nil in Hin1|].
  apply NoDup_cons in Hnd as [Hnot Hnd].
  apply elem_of_cons in Hin1 as [He1|Hin1]; apply elem_of_cons in Hin2 as [He2|Hin2]; simplify_eq;
    [done| | |by apply IH]; exfalso; apply Hnot.
  - apply (list_elem_of_fmap_2 fst _ _ Hin2).
  - apply (list_elem_of_fmap_2 fst _ _ Hin1).
Qed.

(** ** Reading a canonical text back *)

Lemma bigint_text_inj n m : bigint_text n = bigint_text m -> n = m.
Proof.
  assert (forall z, 0 <= z -> exists c l, to_digits z = c :: l /\ c <> "-"%char) as Hd.
  { intros z Hz. destruct (to_digits_all z Hz) as [Ha Hne].
    destruct (to_digits z) as [|c l]; [done|]. exists c, l. split; [done|]. inversion Ha; subst.
    intros ->. done. }
  assert (forall x y, 0 <= x -> 0 <= y -> to_digits x = to_digits y -> x = y) as Hinj.
  { intros x y Hx Hy He. rewrite <- (digits_val_to_digits x), <- (digits_val_to_digits y), He by done. done. }
  unfold bigint_text. destruct (Z.ltb_spec n 0), (Z.ltb_spec m 0).
  - intros [= H1]. apply Hinj in H1; lia.
  - destruct (Hd m) as (c & l & -> & Hc); [lia|]. by intros [= <- _].
  - destruct (Hd n) as (c & l & -> & Hc); [lia|]. by intros [= -> _].
  - apply Hinj; lia.
Qed.

Definition canon_pair (p : chars * js) : chars * js := (fst p, canon (snd p)).

(** Equal canonical objects agree on every key both define. *)
Lemma canon_field fields fields' k v w :
  canon (JObject fields) = canon (JObject fields') ->
  NoDup (fst <$> fields) -> NoDup (fst <$> fields') ->
  forallb (fun p => negb (is_undefined (snd p))) fields = true ->
  forallb (fun p => negb (is_undefined (snd p))) fields' = true ->
  (k, v) ∈ fields -> (k, w) ∈ fields' -> canon v = canon w.
Proof.
  cbn [canon]. intros [= Heq] Hnd Hnd' Hu Hu' Hv Hw.
  assert (forall l, forallb (fun p => negb (is_undefined (snd p))) l = true ->
    flat_map (fun '(k, v) => if is_undefined v then [] else [(k, canon v)]) l =
    canon_pair <$> l) as Hf.
  { induction l as [|[x y] l IH]; [done|]. simpl. intros [Hy Hl]%andb_true_iff. rewrite IH by done.
    by destruct (is_undefined y). }
  rewrite !Hf in Heq by done.
  apply (list_elem_of_fmap_2 canon_pair) in Hv, Hw. unfold canon_pair in Hv at 1, Hw at 1; simpl in Hv, Hw.
  rewrite <- (merge_sort_Permutation key_le), Heq, (merge_sort_Permutation key_le) in Hv.
  assert (NoDup (fst <$> (canon_pair <$> fields'))) as Hn
    by (by rewrite <- list_fmap_compose).
  clear -Hn Hv Hw. revert Hn Hv Hw. generalize (canon_pair <$> fields'). intros l.
  induction l as [|[x y] l IH]; [by intros _ ?%not_elem_of_nil|].
  intros [Hnot Hn]%NoDup_cons [H1|H1]%elem_of_cons [H2|H2]%elem_of_cons; simplify_eq; [done|..|by apply IH];
    exfalso; apply Hnot; apply (list_elem_of_fmap_2 fst) in H1 || apply (list_elem_of_fmap_2 fst) in H2; done.
Qed.

Lemma bigint_number_text n : number_text (bigint_text n).
Proof.
  assert (forall z, 0 <= z -> to_digits z <> [] /\ Forall (fun c => is_number_char c = true) (to_digits z)) as Hd.
  { intros z Hz. destruct (to_digits_all z Hz) as [Ha Hne]. split; [done|].
    eapply Forall_impl; [exact Ha|]. intros c Hc. cbv beta in Hc. unfold is_number_char. by rewrite Hc. }
  unfold bigint_text. destruct (Z.ltb_spec n 0).
  - split; [done|]. constructor; [done|]. apply Hd. lia.
  - apply Hd. lia.
Qed.

(** The injectivity every digest of the code relies on. *)
Lemma canonicalJson_canon v w t :
  numbers_ok v -> numbers_ok w -> canonicalJson v = Ok t -> canonicalJson w = Ok t -> canon v = canon w.
Proof.
  intros Hv Hw Htv Htw. pose proof (canonicalJson_printable _ _ Htv). pose proof (canonicalJson_printable _ _ Htw).
  rewrite canonicalJson_ok in Htv, Htw by done. injection Htv as Htv. injection Htw as Htw.
  refine (proj1 (print_inj (canon v) _ (canon w) [] [] _ I I _)); try by apply canon_canonical.
  rewrite !app_nil_r. congruence.
Qed.

(** ** Properties *)

(** ** Which values have one text *)

(** A decimal numeral: digits without a superfluous leading zero, signed when negative. *)
Definition numeral (n : Z) (s : chars) : Prop :=
  exists ds, all_digits ds /\ digits_val ds = Z.abs n /\
    (ds = ["0"%char] \/ ds <> [] /\ starts_with "0" ds = false) /\
    s = if n <? 0 then "-"%char :: ds else ds.

(** The string a value is printed as: a string itself, or the numeral of a bigint. *)
Inductive reads : js -> chars -> Prop :=
| reads_string s : reads (JString s) s
| reads_bigint n s : numeral n s -> reads (JBigInt n) s.

Definition absent (v : js) : Prop := v = JUndefined \/ v = JNull.

Definition defined (fields : list (chars * js)) : list (chars * js) :=
  filter (fun f => is_undefined (snd f) = false) fields.

(** Two values that no reader of the text can tell apart. *)
Inductive alike : js -> js -> Prop :=
| alike_absent v w : absent v -> absent w -> alike v w
| alike_bool b : alike (JBool b) (JBool b)
| alike_number t : alike (JNumber t) (JNumber t)
| alike_read v w s : reads v s -> reads w s -> alike v w
| alike_array l m : Forall2 alike l m -> alike (JArray l) (JArray m)
| alike_object fields fields' p :
    p ≡ₚ defined fields' -> Forall2 (fun f g => fst f = fst g /\ alike (snd f) (snd g)) (defined fields) p ->
    alike (JObject fields) (JObject fields')
| alike_function : alike JFunction JFunction.

(** An object has one property under a name. *)
Fixpoint keys_distinct (v : js) : Prop :=
  match v with
  | JArray l => foldr and True (map keys_distinct l)
  | JObject fields => NoDup (fst <$> fields) /\ foldr and True (map (fun '(_, v) => keys_distinct v) fields)
  | _ => True
  end.

Lemma digits_val_lead c l : all_digits (c :: l) -> ascii_eqb "0" c = false -> 10 ^ Z.of_nat (length l) <= digits_val (c :: l).
Proof.
  intros [Hc Hl]%Forall_cons Hz. rewrite digits_val_cons. pose proof (digits_val_bounds l Hl). pose proof (digit_range c Hc).
  assert (digit_val c <> 0) as Hn; [|nia].
  intros Hzc. unfold ascii_eqb in Hz. bool_to_prop. apply Hz, code_inj. unfold digit_val in Hzc. change (code "0") with 48. lia.
Qed.

Lemma digits_val_eq a b : length a = length b -> all_digits a -> all_digits b -> digits_val a = digits_val b -> a = b.
Proof.
  revert b. induction a as [|x a IH]; intros [|y b]; try done. intros [= Hl] [Hx Ha]%Forall_cons [Hy Hb]%Forall_cons.
  rewrite !digits_val_cons, Hl. pose proof (digits_val_bounds a Ha). pose proof (digits_val_bounds b Hb). rewrite Hl in *.
  intros Hv. assert (digit_val x = digit_val y) as Hxy by nia.
  assert (x = y) as -> by (apply code_inj; unfold digit_val in Hxy; lia). f_equal. apply IH; [done..|lia].
Qed.

Lemma lead_length a b : all_digits a -> all_digits b -> digits_val a = digits_val b ->
  starts_with "0" a = false -> (length a <= length b)%nat.
Proof.
  intros Ha Hb Hv Hs. destruct a as [|c a]; [simpl; lia|]. pose proof (digits_val_lead c a Ha Hs).
  pose proof (digits_val_bounds b Hb) as [_ Hlt]. simpl length. apply Nat.le_succ_l, Nat2Z.inj_lt.
  apply (Z.pow_lt_mono_r_iff 10); lia.
Qed.

Lemma lead_nonzero c l : all_digits (c :: l) -> starts_with "0" (c :: l) = false -> 0 < digits_val (c :: l).
Proof. intros Ha Hs. pose proof (digits_val_lead c l Ha Hs). pose proof (Z.pow_pos_nonneg 10 (Z.of_nat (length l))). lia. Qed.

Lemma to_digits_lead n : 0 < n -> starts_with "0" (to_digits n) = false.
Proof.
  intros Hn. unfold to_digits. pose proof (to_digits_fuel n) as Hf. revert Hf. generalize (S (Z.to_nat (Z.log2 n))) as fuel.
  generalize (@nil ascii). intros acc fuel. revert n acc Hn. induction fuel as [|fuel IH]; intros n acc Hn Hf.
  { simpl in Hf. lia. }
  rewrite Nat2Z.inj_succ, Z.pow_succ_r in Hf by lia. cbn [to_digits_aux]. destruct (Z.ltb_spec n 10).
  - simpl. unfold ascii_eqb. apply bool_decide_eq_false. intros H0.
    pose proof (digit_char_val n ltac:(lia)) as Hv. rewrite <- H0 in Hv. change (digit_val "0") with 0 in Hv. lia.
  - apply IH; [apply Z.div_str_pos; lia|]. intros _. apply Z.div_lt_upper_bound; lia.
Qed.

Lemma numeral_bigint n : numeral n (bigint_text n).
Proof.
  exists (to_digits (Z.abs n)). split; [apply to_digits_all; lia|]. split; [apply digits_val_to_digits; lia|]. split.
  - destruct (Z.eq_dec n 0) as [->|]; [by left|]. right. split; [apply to_digits_all; lia|apply to_digits_lead; lia].
  - unfold bigint_text. destruct (Z.ltb_spec n 0); [by rewrite Z.abs_neq by lia|by rewrite Z.abs_eq by lia].
Qed.

Lemma numeral_unique n s s' : numeral n s -> numeral n s' -> s = s'.
Proof.
  intros (a & Ha & Hva & La & ->) (b & Hb & Hvb & Lb & ->). enough (a = b) as -> by done. rewrite <- Hvb in Hva.
  destruct La as [->|[Na La]], Lb as [->|[Nb Lb]]; try done.
  - destruct b; [done|]. pose proof (lead_nonzero _ _ Hb Lb). change (digits_val ["0"%char]) with 0 in Hva. lia.
  - destruct a; [done|]. pose proof (lead_nonzero _ _ Ha La). change (digits_val ["0"%char]) with 0 in Hva. lia.
  - apply digits_val_eq; try done.
    pose proof (lead_length a b Ha Hb Hva La). pose proof (lead_length b a Hb Ha (eq_sym Hva) Lb). lia.
Qed.

Lemma reads_canon v s : reads v s -> canon v = JString s.
Proof. destruct 1 as [s|n s Hs]; [done|]. simpl. f_equal. apply (numeral_unique n); [apply numeral_bigint|done]. Qed.

Lemma absent_canon v : absent v -> canon v = JNull.
Proof. by intros [-> | ->]. Qed.

Lemma kept_defined fields :
  flat_map (fun '(k, v) => if is_undefined v then [] else [(k, canon v)]) fields = canon_pair <$> defined fields.
Proof.
  unfold defined. induction fields as [|[k v] l IH]; [done|]. rewrite filter_cons. simpl. rewrite IH.
  by destruct (is_undefined v).
Qed.

Lemma foldr_and {A} (P : A -> Prop) l : foldr and True (map P l) <-> Forall P l.
Proof. induction l as [|x l IH]; simpl; [by split|]. rewrite Forall_cons. tauto. Qed.

Lemma keys_of_fields fields : keys_distinct (JObject fields) ->
  NoDup (fst <$> fields) /\ Forall (fun f => keys_distinct (snd f)) fields.
Proof.
  intros [Hn Hf]. split; [done|]. apply (foldr_and (fun '(_, v) => keys_distinct v)) in Hf.
  eapply Forall_impl; [exact Hf|]. by intros [k v].
Qed.

Lemma defined_nodup fields : NoDup (fst <$> fields) -> NoDup (fst <$> defined fields).
Proof. intros Hn. eapply sublist_NoDup; [exact Hn|]. apply fmap_sublist, sublist_filter. Qed.

Lemma Forall_defined (P : chars * js -> Prop) fields : Forall P fields -> Forall P (defined fields).
Proof. rewrite !Forall_forall. intros Hf f [_ Hin]%list_elem_of_filter. by apply Hf. Qed.

Lemma alike_canon v : forall w, alike v w -> keys_distinct v -> canon v = canon w.
Proof.
  induction v as [| |b|t|n|s|l IH|fields IH|] using js_nested_ind; intros w Hw Hk;
    (inversion Hw as [? ? Hv1 Hw1|?|?|? ? s0 Hr1 Hr2|? m Hm|? fields' p Hp Hf|]; subst;
     try (by rewrite (absent_canon _ Hv1), (absent_canon _ Hw1));
     try (by rewrite (reads_canon _ _ Hr1), (reads_canon _ _ Hr2))); try done.
  - simpl. f_equal. apply foldr_and in Hk. clear Hw. induction Hm as [|x y l m Hxy _ IHm]; [done|].
    apply Forall_cons in IH as [Hx IH]. apply Forall_cons in Hk as [Hkx Hk]. simpl. by rewrite (Hx y Hxy Hkx), IHm.
  - apply keys_of_fields in Hk as [Hn Hk]. cbn [canon]. rewrite !kept_defined. f_equal.
    assert (canon_pair <$> defined fields = canon_pair <$> p) as He.
    { assert (Forall (fun f => forall w, alike (snd f) w -> canon (snd f) = canon w) (defined fields)) as Hc.
      { apply Forall_defined, Forall_forall. intros f Hin w' Hw'. rewrite Forall_forall in IH, Hk. auto. }
      clear -Hf Hc. induction Hf as [|[k v] [k' w] a b [Hkk Hvw] _ IH]; [done|]. simpl in Hkk, Hvw. subst k'.
      apply Forall_cons in Hc as [Hx Hc]. rewrite !fmap_cons, (IH Hc). f_equal. unfold canon_pair. simpl. f_equal. by apply Hx. }
    rewrite He. apply merge_sort_unique; [|by rewrite Hp]. rewrite <- He, <- list_fmap_compose. by apply defined_nodup.
Qed.

Lemma canon_reads v s : canon v = JString s -> reads v s.
Proof. destruct v; try done; simpl; intros [= <-]; constructor. apply numeral_bigint. Qed.

Lemma canon_absent v : canon v = JNull -> absent v.
Proof. destruct v; try done; intros _; [by left|by right]. Qed.

Lemma alike_of_canon v : forall w, canon v = canon w -> alike v w.
Proof.
  induction v as [| |b|t|n|s|l IH|fields IH|] using js_nested_ind; intros w Hc; symmetry in Hc.
  - apply alike_absent; [by left|by apply canon_absent].
  - apply alike_absent; [by right|by apply canon_absent].
  - destruct w; try discriminate Hc. injection Hc as ->. apply alike_bool.
  - destruct w; try discriminate Hc. injection Hc as ->. apply alike_number.
  - apply (alike_read _ _ (bigint_text n)); [constructor; apply numeral_bigint|by apply canon_reads].
  - apply (alike_read _ _ s); [constructor|by apply canon_reads].
  - destruct w as [| | | | | |m| |]; try discriminate Hc. injection Hc as Hc. apply alike_array. revert m Hc.
    induction IH as [|x l Hx _ IHl]; intros [|y m]; try done. intros [= Hxy Hm]. constructor; auto.
  - destruct w as [| | | | | | |fields'|]; try discriminate Hc. cbn [canon] in Hc. rewrite !kept_defined in Hc.
    injection Hc as Hc.
    assert (canon_pair <$> defined fields ≡ₚ canon_pair <$> defined fields') as Hp
      by (by rewrite <- (merge_sort_Permutation key_le (canon_pair <$> defined fields)), <- Hc, merge_sort_Permutation).
    apply Permutation_map_inv in Hp as (p & Hp & Hpp). apply (alike_object _ _ p); [by rewrite Hpp|].
    assert (Forall (fun f => forall w, canon (snd f) = canon w -> alike (snd f) w) (defined fields)) as Hd
      by (by apply Forall_defined). clear -Hp Hd. revert p Hp. induction Hd as [|[k v] a Hx _ IHa]; intros [|[k' w] p]; try done.
    intros [= -> Hv Hp]. constructor; [split; [done|by apply Hx]|by apply IHa].
  - destruct w; try discriminate Hc. apply alike_function.
Qed.

(** C38: [canonicalJson] is injective up to what it means to ignore.  Two values have the same
    canonical text exactly when they are alike: the same booleans and number texts, the same
    arrays item by item, and the same objects property by property in any order, leaving out
    the properties that are [undefined]; elsewhere [undefined] is not told from [null], nor a
    bigint from the string of its decimal numeral.  It throws exactly on a visited non-finite
    number or function. *)
Theorem canonicalJson_injective v v' :
  numbers_ok v -> numbers_ok v' -> keys_distinct v -> keys_distinct v' ->
  is_ok (canonicalJson v) = printable v /\
  (printable v = true -> printable v' = true ->
     (canonicalJson v = canonicalJson v' <-> alike v v')).
Proof.
  intros Hn Hn' Hk Hk'. split.
  - destruct (printable v) eqn:Hp; [by rewrite canonicalJson_ok|].
    destruct (canonicalJson v) eqn:Hc; [|done]. apply canonicalJson_printable in Hc. congruence.
  - intros Hp Hp'. split.
    + intros Heq. apply alike_of_canon. pose proof (canonicalJson_ok v Hp) as Ht.
      apply (canonicalJson_canon v v' _ Hn Hn' Ht). congruence.
    + intros Ha. rewrite !canonicalJson_ok by done. by rewrite (alike_canon v v' Ha Hk).
Qed.

(** A bigint and its numeral have one text, in any order of the properties; a number and the
    string of its digits do not. *)
Lemma canonicalJson_injective_witness :
  let v := JObject [(["b"%char], JBigInt 7); (["a"%char], JUndefined); (["c"%char], JNull)] in
  let v' := JObject [(["c"%char], JNull); (["b"%char], JString ["7"%char])] in
  let w := JObject [(["b"%char], JNumber (Some ["7"%char])); (["c"%char], JNull)] in
  alike v v' /\ ~ alike v w.
Proof.
  cbv zeta. set (v := JObject [(_, JBigInt 7); _; _]). set (v' := JObject [_; (_, JString _)]). set (w := JObject [(_, JNumber _); _]).
  assert (forall x fields, x = JObject fields -> bool_decide (NoDup (fst <$> fields)) = true ->
    foldr and True (map (fun '(_, v) => keys_distinct v) fields) -> keys_distinct x) as Hk.
  { intros x fields -> Hn Hf. split; [by apply bool_decide_eq_true_1 in Hn|exact Hf]. }
  assert (forall x, numbers_ok x -> keys_distinct x -> printable x = true -> (canonicalJson v = canonicalJson x <-> alike v x)) as H.
  { intros x Hn Hx Hp. assert (keys_distinct v) as Hkv
      by (eapply Hk; [reflexivity|vm_compute; reflexivity|vm_compute; tauto]).
    assert (numbers_ok v) as Hnv by (vm_compute; tauto).
    exact (proj2 (canonicalJson_injective v x Hnv Hn Hkv Hx) eq_refl Hp). }
  split; [apply (H v')|rewrite <- (H w)];
    try (eapply Hk; [reflexivity|vm_compute; reflexivity|vm_compute; tauto]); try reflexivity; try (vm_compute; tauto).
  - vm_compute. discriminate.
  - vm_compute. split; [split; [discriminate|repeat constructor]|repeat constructor].
Defined.

(** the digest of an object does not depend on the order its properties were written in,
    nor on properties that are [undefined]. *)
Theorem canonicalJson_key_order fields fields' :
  NoDup (fst <$> fields) ->
  filter (fun '(_, v) => is_undefined v = false) fields ≡ₚ
    filter (fun '(_, v) => is_undefined v = false) fields' ->
  printable (JObject fields) = true -> printable (JObject fields') = true ->
  canonicalJson (JObject fields) = canonicalJson (JObject fields').
Proof.
  intros Hnd Hp Hpr Hpr'. rewrite !canonicalJson_ok by done. do 2 f_equal. cbn [canon]. f_equal.
  assert (forall l : list (chars * js),
    flat_map (fun '(k, v) => if is_undefined v then [] else [(k, canon v)]) l =
    (fun p => (fst p, canon (snd p))) <$> filter (fun '(_, v) => is_undefined v = false) l) as Hf.
  { induction l as [|[k v] l IH]; [done|]. rewrite filter_cons. simpl. rewrite IH.
    by destruct (is_undefined v). }
  rewrite !Hf. apply merge_sort_unique; [|by rewrite Hp].
  rewrite <- list_fmap_compose. unfold compose. simpl.
  clear -Hnd. induction fields as [|[k v] l IH]; [constructor|]. rewrite filter_cons.
  apply NoDup_cons in Hnd as [Hn Hnd]. case_decide; [|by apply IH]. simpl.
  apply NoDup_cons. split; [|by apply IH]. intros (p & Hk & Hin)%list_elem_of_fmap.
  apply Hn. apply list_elem_of_filter in Hin as [_ Hin]. apply list_elem_of_fmap. by exists p.
Qed.

Lemma canonicalJson_key_order_witness :
  canonicalJson (JObject [(["b"%char], JNull); (["u"%char], JUndefined); (["a"%char], JBool true)]) =
  canonicalJson (JObject [(["a"%char], JBool true); (["b"%char], JNull)]).
Proof.
  apply canonicalJson_key_order; [| |done|done].
  - apply (bool_decide_unpack _). vm_compute. done.
  - vm_compute. apply perm_swap.
Defined.
