(* ===== verification/StateMachines.v ===== *)
(** * Lifecycle state machines

    The transition tables of orders ([execution/orders/order-state-machine.ts]), trades
    ([trade-state-machine.ts]), trading sessions
    ([entities/trading-session-state-machine.ts]) and broker authorizations
    ([broker/authorization/*.ts]).  A status column may hold null or a string outside
    the enum, so the guards take a [stored] status.  [reach] is the reflexive-transitive
    closure of a table, and [closed_reach] the induction the theorems use. *)

From S2P Require Import Prelude.
From stdpp Require Import relations.

(** A status as read back from a column. *)
Inductive stored (T : Type) : Type := Absent | Unknown (s : string) | Known (t : T).
Arguments Absent {T}.
Arguments Unknown {T} s.
Arguments Known {T} t.

#[export] Instance stored_eq_dec `{EqDecision T} : EqDecision (stored T).
Proof. solve_decision. Defined.

(** ** Tables *)

Section table.
Context {T : Type} `{!EqDecision T} (table : T -> list T).

Definition mem (x : T) (l : list T) : bool := bool_decide (x ∈ l).

Definition canTransition (from : stored T) (to : T) : bool :=
  match from with
  | Known s => mem to (table s)
  | _ => false
  end.

Definition assertTransition (from : stored T) (to : T) : result (stored T * T) unit :=
  if negb (canTransition from to) then Err (from, to) else Ok tt.

Definition step (a b : T) : Prop := canTransition (Known a) b = true.
Definition reach : T -> T -> Prop := rtc step.

Lemma closed_reach (P : T -> Prop) a b :
  (forall x y, P x -> step x y -> P y) -> reach a b -> P a -> P b.
Proof. induction 2; eauto. Qed.

(** Reachability that avoids a set of intermediate states. *)
Definition reach_avoiding (bad : T -> bool) : T -> T -> Prop :=
  rtc (fun a b => step a b /\ bad b = false).
End table.

Ltac table_cases :=
  repeat match goal with
         | H : step _ _ _ |- _ => unfold step in H
         | |- step _ _ _ => unfold step
         end;
  match goal with
  | H : canTransition _ (Known ?a) ?b = true |- _ =>
      destruct a, b; first [discriminate H | done | auto]
  end.

(** ** Orders *)

Module Order.
Inductive OrderStatus :=
| CREATED | SUBMITTED | DISPATCH_COMMITTED | ACKNOWLEDGED | PARTIALLY_FILLED
| FILLED | REJECTED | CANCELLED | EXPIRED | RECONCILIATION_PENDING.

#[global] Instance OrderStatus_eq_dec : EqDecision OrderStatus.
Proof. solve_decision. Defined.

Definition ALLOWED_TRANSITIONS (s : OrderStatus) : list OrderStatus :=
  match s with
  | CREATED => [SUBMITTED; REJECTED; CANCELLED; DISPATCH_COMMITTED]
  | SUBMITTED =>
      [ACKNOWLEDGED; PARTIALLY_FILLED; FILLED; REJECTED; CANCELLED; EXPIRED;
       RECONCILIATION_PENDING; DISPATCH_COMMITTED]
  | DISPATCH_COMMITTED =>
      [ACKNOWLEDGED; PARTIALLY_FILLED; FILLED; REJECTED; CANCELLED; EXPIRED;
       RECONCILIATION_PENDING]
  | ACKNOWLEDGED =>
      [PARTIALLY_FILLED; FILLED; REJECTED; CANCELLED; EXPIRED; RECONCILIATION_PENDING]
  | PARTIALLY_FILLED => [FILLED; CANCELLED; REJECTED; EXPIRED; RECONCILIATION_PENDING]
  | RECONCILIATION_PENDING =>
      [ACKNOWLEDGED; PARTIALLY_FILLED; FILLED; REJECTED; CANCELLED; EXPIRED]
  | FILLED | REJECTED | CANCELLED | EXPIRED => []
  end.

Definition TERMINAL_STATUSES := [FILLED; REJECTED; CANCELLED; EXPIRED].
Definition WORKING_STATUSES :=
  [CREATED; SUBMITTED; DISPATCH_COMMITTED; ACKNOWLEDGED; PARTIALLY_FILLED].

Definition can : stored OrderStatus -> OrderStatus -> bool := canTransition ALLOWED_TRANSITIONS.
Definition assert : stored OrderStatus -> OrderStatus -> result (stored OrderStatus * OrderStatus) unit :=
  assertTransition ALLOWED_TRANSITIONS.

Definition isTerminal (s : stored OrderStatus) : bool :=
  match s with Known s => mem s TERMINAL_STATUSES | _ => false end.
Definition isWorking (s : stored OrderStatus) : bool :=
  match s with Known s => mem s WORKING_STATUSES | _ => false end.
Definition isFillable (s : stored OrderStatus) : bool :=
  match s with
  | Known SUBMITTED | Known DISPATCH_COMMITTED | Known ACKNOWLEDGED
  | Known PARTIALLY_FILLED | Known RECONCILIATION_PENDING => true
  | _ => false
  end.

(** Sent to the provider at some time: no way back to the states before the send. *)
Definition pre_dispatch (s : OrderStatus) : bool := mem s [CREATED; SUBMITTED].

Lemma pre_dispatch_closed a b :
  step ALLOWED_TRANSITIONS a b -> pre_dispatch a = false -> pre_dispatch b = false.
Proof. intros. table_cases. Qed.

Lemma terminal_no_step a b : isTerminal (Known a) = true -> ~ step ALLOWED_TRANSITIONS a b.
Proof. intros Ht Hs. unfold step in Hs. destruct a, b; first [discriminate Hs|discriminate Ht]. Qed.
End Order.

(** ** Trades *)

Module Trade.
Inductive TradeStatus := PENDING | OPEN | CLOSED | REJECTED | CANCELLED | RECONCILIATION_PENDING.

#[global] Instance TradeStatus_eq_dec : EqDecision TradeStatus.
Proof. solve_decision. Defined.

Definition ALLOWED_TRANSITIONS (s : TradeStatus) : list TradeStatus :=
  match s with
  | PENDING => [OPEN; REJECTED; CANCELLED; RECONCILIATION_PENDING]
  | OPEN => [CLOSED; RECONCILIATION_PENDING]
  | RECONCILIATION_PENDING => [OPEN; CLOSED]
  | CLOSED | REJECTED | CANCELLED => []
  end.

Definition TERMINAL_STATUSES := [CLOSED; REJECTED; CANCELLED].

Definition can : stored TradeStatus -> TradeStatus -> bool := canTransition ALLOWED_TRANSITIONS.
Definition assert : stored TradeStatus -> TradeStatus -> result (stored TradeStatus * TradeStatus) unit :=
  assertTransition ALLOWED_TRANSITIONS.

Definition isTerminal (s : stored TradeStatus) : bool :=
  match s with Known s => mem s TERMINAL_STATUSES | _ => false end.
Definition isPositionOpen (s : stored TradeStatus) : bool := bool_decide (s = Known OPEN).
End Trade.

(** ** Trading sessions *)

Module Session.
Inductive TradingSessionStatus := ACTIVE | PAUSED | SUSPENDED_RISK_LIMIT | SUSPENDED_BROKER | ENDED.

#[global] Instance TradingSessionStatus_eq_dec : EqDecision TradingSessionStatus.
Proof. solve_decision. Defined.

Definition ALLOWED_SESSION_TRANSITIONS (s : TradingSessionStatus) : list TradingSessionStatus :=
  match s with
  | ACTIVE => [PAUSED; SUSPENDED_RISK_LIMIT; SUSPENDED_BROKER; ENDED]
  | PAUSED | SUSPENDED_RISK_LIMIT | SUSPENDED_BROKER => [ACTIVE; ENDED]
  | ENDED => []
  end.

(** [ALLOWED[from]?.includes(to) ?? false]: an unknown [from] has no row. *)
Definition can : stored TradingSessionStatus -> TradingSessionStatus -> bool :=
  canTransition ALLOWED_SESSION_TRANSITIONS.
Definition assert :
  stored TradingSessionStatus -> TradingSessionStatus ->
  result (stored TradingSessionStatus * TradingSessionStatus) unit :=
  assertTransition ALLOWED_SESSION_TRANSITIONS.
End Session.

(** ** Broker authorization *)

Module Authorization.
Inductive BrokerAuthorizationStatus :=
| NOT_CONNECTED | CONNECTING | CONNECTED | VERIFYING | AUTHORIZATION_REQUIRED | AUTHORIZED
| READY | ACTIVE | SUSPENDED | REVOKED | ERROR | DISCONNECTED.

#[global] Instance BrokerAuthorizationStatus_eq_dec : EqDecision BrokerAuthorizationStatus.
Proof. solve_decision. Defined.

Definition ALLOWED_TRANSITIONS (s : BrokerAuthorizationStatus) : list BrokerAuthorizationStatus :=
  match s with
  | NOT_CONNECTED => [CONNECTING; DISCONNECTED; ERROR]
  | CONNECTING => [CONNECTED; AUTHORIZED; ERROR; NOT_CONNECTED; DISCONNECTED]
  | CONNECTED =>
      [VERIFYING; AUTHORIZATION_REQUIRED; AUTHORIZED; ACTIVE; DISCONNECTED; ERROR; SUSPENDED]
  | VERIFYING => [CONNECTED; ERROR; DISCONNECTED; SUSPENDED; NOT_CONNECTED]
  | AUTHORIZATION_REQUIRED => [AUTHORIZED; DISCONNECTED; ERROR; SUSPENDED; REVOKED]
  | AUTHORIZED => [READY; ACTIVE; REVOKED; DISCONNECTED; ERROR; SUSPENDED]
  | READY => [ACTIVE; AUTHORIZED; REVOKED; DISCONNECTED; ERROR; SUSPENDED; VERIFYING]
  | ACTIVE => [SUSPENDED; REVOKED; AUTHORIZED; DISCONNECTED; ERROR; VERIFYING]
  | SUSPENDED =>
      [VERIFYING; CONNECTED; AUTHORIZED; READY; ACTIVE; REVOKED; DISCONNECTED; ERROR]
  | REVOKED => [AUTHORIZATION_REQUIRED; NOT_CONNECTED; DISCONNECTED; CONNECTING]
  | ERROR => [CONNECTING; VERIFYING; NOT_CONNECTED; DISCONNECTED; SUSPENDED; REVOKED]
  | DISCONNECTED => [CONNECTING; NOT_CONNECTED; REVOKED; ERROR]
  end.

Definition can : stored BrokerAuthorizationStatus -> BrokerAuthorizationStatus -> bool :=
  canTransition ALLOWED_TRANSITIONS.
Definition assert :
  stored BrokerAuthorizationStatus -> BrokerAuthorizationStatus ->
  result (stored BrokerAuthorizationStatus * BrokerAuthorizationStatus) unit :=
  assertTransition ALLOWED_TRANSITIONS.
Definition isExecutable (s : stored BrokerAuthorizationStatus) : bool :=
  bool_decide (s = Known ACTIVE).

Definition describeGroup (s : stored BrokerAuthorizationStatus) : string :=
  match s with
  | Known ACTIVE => "EXECUTING"
  | Known READY | Known AUTHORIZED => "AUTHORIZED"
  | Known AUTHORIZATION_REQUIRED | Known REVOKED => "PENDING_AUTHORIZATION"
  | Known CONNECTED | Known CONNECTING | Known VERIFYING => "CONNECTED"
  | Known SUSPENDED | Known ERROR => "DEGRADED"
  | _ => "NOT_CONNECTED"
  end.

Inductive BrokerCredentialStatus := CREATED | VERIFIED | ROTATED | CRED_REVOKED | EXPIRED | INVALID.

#[global] Instance BrokerCredentialStatus_eq_dec : EqDecision BrokerCredentialStatus.
Proof. solve_decision. Defined.

Definition isUsable (s : stored BrokerCredentialStatus) : bool :=
  match s with Known CREATED | Known VERIFIED | Known ROTATED => true | _ => false end.

(** The states whose row of the table lists [ACTIVE]. *)
Definition gateways : list BrokerAuthorizationStatus := [CONNECTED; AUTHORIZED; READY; SUSPENDED].
End Authorization.

(** ** Properties *)

(** the order lifecycle.  A terminal order never moves; an order once past its
    pre-dispatch states never returns to them; the fillable states are exactly those with
    an edge to FILLED; every non-terminal order can still be cancelled. *)
Theorem order_lifecycle a b :
  (Order.isTerminal (Known a) = true -> reach Order.ALLOWED_TRANSITIONS a b -> b = a) /\
  (Order.pre_dispatch a = false -> reach Order.ALLOWED_TRANSITIONS a b ->
     Order.pre_dispatch b = false) /\
  (Order.isFillable (Known a) = Order.can (Known a) Order.FILLED) /\
  (Order.isTerminal (Known a) = negb (Order.can (Known a) Order.CANCELLED)).
Proof.
  split; [|split; [|split]].
  - intros Ht Hr. apply (closed_reach Order.ALLOWED_TRANSITIONS (fun x => x = a) a b); [|done|done].
    intros x y -> Hs. by destruct (Order.terminal_no_step a y).
  - intros Hp Hr. by apply (closed_reach Order.ALLOWED_TRANSITIONS (fun x => Order.pre_dispatch x = false) a b);
      eauto using Order.pre_dispatch_closed.
  - by destruct a.
  - by destruct a.
Qed.

Lemma order_lifecycle_witness :
  reach Order.ALLOWED_TRANSITIONS Order.CREATED Order.FILLED /\
  Order.isFillable (Known Order.RECONCILIATION_PENDING) =
    Order.can (Known Order.RECONCILIATION_PENDING) Order.FILLED.
Proof.
  split; [|apply (order_lifecycle Order.RECONCILIATION_PENDING Order.FILLED)].
  apply rtc_l with Order.DISPATCH_COMMITTED; [reflexivity|]. apply rtc_once. reflexivity.
Defined.

(** the position and session lifecycles.  Closed, rejected and cancelled trades and
    ended sessions never move; a trade once open can only ever be open, uncertain or
    closed, so a live position is never recorded as rejected or cancelled. *)
Theorem trade_session_lifecycle :
  (forall a b, Trade.isTerminal (Known a) = true -> reach Trade.ALLOWED_TRANSITIONS a b -> b = a) /\
  (forall b, reach Trade.ALLOWED_TRANSITIONS Trade.OPEN b ->
     b <> Trade.PENDING /\ b <> Trade.REJECTED /\ b <> Trade.CANCELLED) /\
  (forall b, reach Session.ALLOWED_SESSION_TRANSITIONS Session.ENDED b -> b = Session.ENDED) /\
  (forall s b, Session.can s b = true -> s <> Known Session.ACTIVE ->
     b = Session.ACTIVE \/ b = Session.ENDED).
Proof.
  split; [|split; [|split]].
  - intros a b Ht Hr. apply (closed_reach Trade.ALLOWED_TRANSITIONS (fun x => x = a) a b); [|done|done].
    intros x y -> Hs. unfold step in Hs. by destruct a, y.
  - intros b Hr.
    apply (closed_reach Trade.ALLOWED_TRANSITIONS (fun x => x <> Trade.PENDING /\ x <> Trade.REJECTED /\ x <> Trade.CANCELLED)
             Trade.OPEN b); [|done|done].
    intros x y [? [? ?]] Hs. unfold step in Hs. by destruct x, y.
  - intros b Hr. apply (closed_reach Session.ALLOWED_SESSION_TRANSITIONS (fun x => x = Session.ENDED) Session.ENDED b); [|done|done].
    intros x y -> Hs. unfold step in Hs. by destruct y.
  - intros [| |[]] []; by auto.
Qed.

(** the automation gate.  Only ACTIVE executes, nothing unknown does, and every path
    into ACTIVE from another state takes its last step from CONNECTED, AUTHORIZED, READY
    or SUSPENDED, so a revoked, failed or disconnected authorization is never re-activated
    in one step.  The table alone does not force re-authorization: a revoked connection
    can be led back to ACTIVE without passing AUTHORIZATION_REQUIRED or AUTHORIZED. *)
Theorem authorization_gate :
  (forall s, Authorization.isExecutable s = true <-> s = Known Authorization.ACTIVE) /\
  (forall s, Authorization.can s Authorization.ACTIVE = true <->
     exists a, s = Known a /\ a ∈ Authorization.gateways) /\
  reach_avoiding Authorization.ALLOWED_TRANSITIONS
    (fun s => mem s [Authorization.AUTHORIZATION_REQUIRED; Authorization.AUTHORIZED;
                     Authorization.CONNECTED; Authorization.VERIFYING])
    Authorization.REVOKED Authorization.ACTIVE.
Proof.
  split; [|split].
  - intros s. apply bool_decide_eq_true.
  - intros s. split.
    + destruct s as [| |a]; [done..|]. intros Ha. exists a. split; [done|].
      apply (bool_decide_eq_true_1 (a ∈ Authorization.gateways)). by destruct a.
    + intros (a & -> & Ha). apply (bool_decide_eq_true_2 (a ∈ Authorization.gateways)) in Ha.
      by destruct a.
  - apply rtc_l with Authorization.DISCONNECTED; [done|].
    apply rtc_l with Authorization.ERROR; [done|].
    apply rtc_l with Authorization.SUSPENDED; [done|]. by apply rtc_once.
Qed.
