(* ===== verification/Comparator.v ===== *)
(** * Reconciliation comparator ([execution/reconciliation/reconciliation-comparator.ts])

    The pure diff of an internal snapshot against a provider snapshot.  Identifiers are
    [string]s, a nullable or optional one an [option]; decimal fields are strings, read by
    [toScaledBigInt], whose [BigInt(..)] throws on a malformed numeral: every function that
    reaches it returns a [result].  A JavaScript [Map] is an association list in insertion
    order; a [Date] is its time value in milliseconds. *)

From S2P Require Import Prelude JsString Decimal.
From Stdlib Require Import QArith Qround.
Open Scope string_scope.
Open Scope list_scope.
Open Scope Z_scope.

Inductive JsError := BigIntSyntaxError.
Abbreviation jsres := (result JsError).

(** ** Data *)

Inductive DiscrepancyType :=
| MISSING_INTERNAL_ORDER | UNKNOWN_PROVIDER_ORDER | MISSING_PROVIDER_ORDER
| UNKNOWN_PROVIDER_POSITION | STALE_ORDER_STATE | POSITION_CLOSED_EXTERNALLY
| DUPLICATE_PROVIDER_ID | UNRESOLVED_EXECUTION_RESULT | ACCOUNT_STATE_MISMATCH.

#[global] Instance DiscrepancyType_eq_dec : EqDecision DiscrepancyType.
Proof. solve_decision. Defined.

Definition type_name (t : DiscrepancyType) : string :=
  match t with
  | MISSING_INTERNAL_ORDER => "MISSING_INTERNAL_ORDER"
  | UNKNOWN_PROVIDER_ORDER => "UNKNOWN_PROVIDER_ORDER"
  | MISSING_PROVIDER_ORDER => "MISSING_PROVIDER_ORDER"
  | UNKNOWN_PROVIDER_POSITION => "UNKNOWN_PROVIDER_POSITION"
  | STALE_ORDER_STATE => "STALE_ORDER_STATE"
  | POSITION_CLOSED_EXTERNALLY => "POSITION_CLOSED_EXTERNALLY"
  | DUPLICATE_PROVIDER_ID => "DUPLICATE_PROVIDER_ID"
  | UNRESOLVED_EXECUTION_RESULT => "UNRESOLVED_EXECUTION_RESULT"
  | ACCOUNT_STATE_MISMATCH => "ACCOUNT_STATE_MISMATCH"
  end.

Definition RECONCILIATION_DISCREPANCY_TYPES : list DiscrepancyType :=
  [MISSING_INTERNAL_ORDER; UNKNOWN_PROVIDER_ORDER; MISSING_PROVIDER_ORDER;
   UNKNOWN_PROVIDER_POSITION; STALE_ORDER_STATE; POSITION_CLOSED_EXTERNALLY;
   DUPLICATE_PROVIDER_ID; UNRESOLVED_EXECUTION_RESULT; ACCOUNT_STATE_MISMATCH].

Inductive Severity := INFO | WARNING | CRITICAL.
Inductive RefType := ORDER | TRADE | ACCOUNT.

(** A value of the [details] object; the account report nests [{ expected, observed }]
    pairs under field names. *)
Inductive leaf :=
| DStr (s : string) | DNull | DBool (b : bool) | DDate (t : Z) | DNum (n : Z)
| DList (l : list string).
Inductive detail := Leaf (v : leaf) | DMismatch (fields : list (string * (leaf * leaf))).
Coercion Leaf : leaf >-> detail.

Record InternalOrder := mkIOrder {
  io_orderId : string; io_clientOrderId : string; io_providerOrderId : option string;
  io_status : string; io_orderKind : string; io_instrument : string;
  io_requestedQuantity : string; io_filledQuantity : string; io_avgFillPrice : option string;
  io_submittedAt : option Z; io_tradeId : option string }.

Record InternalTrade := mkITrade {
  it_tradeId : string; it_externalOrderId : option string; it_externalPositionId : option string;
  it_status : string; it_instrument : string; it_lotSize : string;
  it_fillPrice : option string; it_openedAt : option Z }.

Record InternalAccount := mkIAccount {
  ia_balance : string; ia_equity : string; ia_margin : string; ia_freeMargin : string;
  ia_marginLevel : string; ia_currency : option string; ia_leverage : option Z }.

(** The fields of the provider interfaces the comparator reads. *)
Record BrokerOrder := mkBOrder {
  bo_providerOrderId : string; bo_clientOrderId : option string; bo_status : string;
  bo_instrument : string; bo_direction : string; bo_requestedQuantity : string;
  bo_filledQuantity : string; bo_avgFillPrice : option string; bo_orderKind : option string }.

Record BrokerPosition := mkBPosition {
  bp_externalOrderId : string; bp_instrument : string; bp_direction : string;
  bp_lotSize : string; bp_openPrice : string; bp_openedAt : option Z }.

Record BrokerAccount := mkBAccount {
  ba_currency : option string; ba_leverage : Z; ba_balance : string; ba_equity : string;
  ba_margin : string; ba_freeMargin : string; ba_marginLevel : string }.

Record ProviderState := mkProvider {
  ps_orders : list BrokerOrder; ps_positions : list BrokerPosition; ps_account : BrokerAccount }.

Record InternalState := mkInternal {
  is_orders : list InternalOrder; is_trades : list InternalTrade;
  is_account : option InternalAccount }.

Record Candidate := mkCandidate {
  type : DiscrepancyType; severity : Severity; internalRefType : option RefType;
  internalRefId : option string; providerRef : option string; clientOrderId : option string;
  details : list (string * detail) }.

(** [accountDriftTolerance] is a rational: the code only uses [Math.round] of it times
    10000, which the doubles of the default (0.005) and of any two-digit percentage
    compute exactly. *)
Record Options := mkOptions { accountDriftTolerance : Q; unresolvedGraceMs : Z }.

Definition DEFAULT_COMPARATOR_OPTIONS : Options := mkOptions (5 # 1000) (5 * 60000).

Definition PROVIDER_EXPECTED_ORDER_STATUSES : list string :=
  ["SUBMITTED"; "ACKNOWLEDGED"; "PARTIALLY_FILLED"; "RECONCILIATION_PENDING"].
Definition POSITION_HOLDING_TRADE_STATUSES : list string := ["OPEN"; "RECONCILIATION_PENDING"].

Definition has (l : list string) (s : string) : bool := bool_decide (s ∈ l).

(** A nullable string is truthy when it is a non-empty string. *)
Definition truthy (o : option string) : bool :=
  match o with Some s => negb (bool_decide (s = "")) | None => false end.
(** [ids.filter((id): id is string => !!id)], one element at a time. *)
Definition truthy_id (o : option string) : option string := if truthy o then o else None.
Definition dstr (o : option string) : leaf := from_option DStr DNull o.

(** ** Decimals *)

Section results.
Local Open Scope result_scope.

Definition big (l : chars) : jsres Z :=
  match js_BigInt (match l with [] => ["0"%char] | _ => l end) with
  | Some z => Ok z
  | None => Err BigIntSyntaxError
  end.

Definition toScaledBigInt (value : string) (scale : nat) : jsres Z :=
  let trimmed := trim (chars_of value) in
  let neg := starts_with "-" trimmed in
  let unsigned := if neg then drop 1 trimmed else trimmed in
  let parts := split_on "." unsigned in
  let intPart := default ["0"%char] (parts !! 0%nat) in
  let fracPartRaw := default [] (parts !! 1%nat) in
  let fracPart := take scale (fracPartRaw ++ replicate scale "0"%char) in
  try! i := big intPart in
  try! f := big fracPart in
  let combined := i * 10 ^ Z.of_nat scale + f in
  Ok (if neg then - combined else combined).

Definition compareDecimal (a b : string) (scale : nat) : jsres comparison :=
  try! av := toScaledBigInt a scale in
  try! bv := toScaledBigInt b scale in
  Ok (if av <? bv then Lt else if av >? bv then Gt else Eq).

Definition toleranceBps (tolerance : Q) : Z := Qfloor (tolerance * 10000 + (1 # 2)).

Definition driftExceeds (expected observed : string) (tolerance : Q) : jsres bool :=
  try! ev := toScaledBigInt expected 10 in
  try! ov := toScaledBigInt observed 10 in
  let diff := if ev >? ov then ev - ov else ov - ev in
  if diff =? 0 then Ok false
  else
    let base := if ev <? 0 then - ev else ev in
    let floor := 1 * 10 ^ (10 - 2) in
    if diff <=? floor then Ok false
    else if base =? 0 then Ok true
    else Ok (diff * 10000 >? base * toleranceBps tolerance).
End results.

(** ** Loops over snapshots *)

(** [m.set(k, [...(m.get(k) ?? []), x])]: a key keeps the place of its first insertion. *)
Fixpoint group_push {A} (k : string) (x : A) (m : list (string * list A)) : list (string * list A) :=
  match m with
  | [] => [(k, [x])]
  | (k', xs) :: m =>
      if bool_decide (k = k') then (k', xs ++ [x]) :: m else (k', xs) :: group_push k x m
  end.

Definition grouped {A} (pairs : list (string * A)) : list (string * list A) :=
  fold_left (fun m '(k, x) => group_push k x m) pairs [].

(** [for (const x of l) out.push(...f(x))], where [f] may throw. *)
Fixpoint collect {A B} (f : A -> jsres (list B)) (l : list A) : jsres (list B) :=
  match l with
  | [] => Ok []
  | x :: l => rbind (f x) (fun a => rbind (collect f l) (fun b => Ok (a ++ b)))
  end.

(** ** Orders *)

Definition duplicate_order (g : string * list InternalOrder) : list Candidate :=
  match g with
  | (providerId, o :: _ :: _ as orders) =>
      [mkCandidate DUPLICATE_PROVIDER_ID CRITICAL (Some ORDER) (Some (io_orderId o))
         (Some providerId) (Some (io_clientOrderId o))
         [("internalOrderIds", DList (io_orderId <$> orders) : detail);
          ("providerOrderId", DStr providerId : detail);
          ("note", DStr "Multiple internal orders claim the same provider order id" : detail)]]
  | _ => []
  end.

Definition missing_provider_order (o : InternalOrder) (pid : string) : Candidate :=
  mkCandidate MISSING_PROVIDER_ORDER WARNING (Some ORDER) (Some (io_orderId o))
    (Some pid) (Some (io_clientOrderId o))
    [("internalStatus", DStr (io_status o) : detail);
     ("instrument", DStr (io_instrument o) : detail);
     ("orderKind", DStr (io_orderKind o) : detail);
     ("requestedQuantity", DStr (io_requestedQuantity o) : detail);
     ("filledQuantity", DStr (io_filledQuantity o) : detail);
     ("note", DStr "Provider reports neither a working order nor an open position for this id" : detail)].

Definition missing_internal_order (p : BrokerOrder) : Candidate :=
  mkCandidate MISSING_INTERNAL_ORDER CRITICAL None None
    (Some (bo_providerOrderId p)) (bo_clientOrderId p)
    [("providerStatus", DStr (bo_status p) : detail);
     ("instrument", DStr (bo_instrument p) : detail);
     ("direction", DStr (bo_direction p) : detail);
     ("orderKind", dstr (bo_orderKind p) : detail);
     ("requestedQuantity", DStr (bo_requestedQuantity p) : detail);
     ("filledQuantity", DStr (bo_filledQuantity p) : detail);
     ("note", DStr "Provider holds a working order with no internal record (externally placed?)" : detail)].

Definition providerTerminal : list string := ["FILLED"; "CANCELLED"; "REJECTED"; "EXPIRED"].

Definition stale_terminal (o : InternalOrder) (p : BrokerOrder) : Candidate :=
  mkCandidate STALE_ORDER_STATE WARNING (Some ORDER) (Some (io_orderId o))
    (Some (bo_providerOrderId p)) (Some (io_clientOrderId o))
    [("internalStatus", DStr (io_status o) : detail);
     ("providerStatus", DStr (bo_status p) : detail);
     ("providerFilledQuantity", DStr (bo_filledQuantity p) : detail);
     ("providerAvgFillPrice", dstr (bo_avgFillPrice p) : detail);
     ("note", DStr "Provider reached a terminal order state; internal state lags" : detail)].

Definition unknown_provider_order (o : InternalOrder) (p : BrokerOrder) : Candidate :=
  mkCandidate UNKNOWN_PROVIDER_ORDER WARNING (Some ORDER) (Some (io_orderId o))
    (Some (bo_providerOrderId p)) (Some (io_clientOrderId o))
    [("internalStatus", DStr (io_status o) : detail);
     ("providerStatus", DStr "UNKNOWN" : detail);
     ("note", DStr "Provider reported an unrecognized order state — manual review required" : detail)].

Definition stale_fill (o : InternalOrder) (p : BrokerOrder) : Candidate :=
  mkCandidate STALE_ORDER_STATE WARNING (Some ORDER) (Some (io_orderId o))
    (Some (bo_providerOrderId p)) (Some (io_clientOrderId o))
    [("internalStatus", DStr (io_status o) : detail);
     ("providerStatus", DStr (bo_status p) : detail);
     ("internalFilledQuantity", DStr (io_filledQuantity o) : detail);
     ("providerFilledQuantity", DStr (bo_filledQuantity p) : detail);
     ("note", DStr "Provider fill quantity exceeds internal record (missed fill events)" : detail)].

Section results.
Local Open Scope result_scope.

Definition checkStaleOrderState (o : InternalOrder) (p : BrokerOrder) : jsres (list Candidate) :=
  if has providerTerminal (bo_status p) then Ok [stale_terminal o p]
  else if bool_decide (bo_status p = "UNKNOWN") then Ok [unknown_provider_order o p]
  else
    try! c := compareDecimal (bo_filledQuantity p) (io_filledQuantity o) 10 in
    Ok (match c with Gt => [stale_fill o p] | _ => [] end).

(** One turn of the loop over internal orders. *)
Definition compare_internal_order (providerOrders : list BrokerOrder)
    (providerPositions : list BrokerPosition) (o : InternalOrder) : jsres (list Candidate) :=
  if negb (has PROVIDER_EXPECTED_ORDER_STATUSES (io_status o)) then Ok []
  else
    match io_providerOrderId o with
    | None => Ok []
    | Some pid =>
        let knownAtProvider := has (bo_providerOrderId <$> providerOrders) pid
                               || has (bp_externalOrderId <$> providerPositions) pid in
        if bool_decide (pid = "") then Ok []
        else if negb knownAtProvider then Ok [missing_provider_order o pid]
        else
          match List.find (fun p => bool_decide (bo_providerOrderId p = pid)) providerOrders with
          | Some p => checkStaleOrderState o p
          | None => Ok []
          end
    end.

(** One turn of the loop over provider orders. *)
Definition compare_provider_order (internalOrders : list InternalOrder) (p : BrokerOrder)
  : list Candidate :=
  let internalProviderIds :=
    omap (fun o => truthy_id (io_providerOrderId o)) internalOrders in
  if has internalProviderIds (bo_providerOrderId p) then []
  else if existsb (fun o => truthy (Some (io_clientOrderId o)) &&
                            bool_decide (Some (io_clientOrderId o) = bo_clientOrderId p))
            internalOrders
  then [] else [missing_internal_order p].

Definition provider_groups (internalOrders : list InternalOrder) : list (string * list InternalOrder) :=
  grouped (omap (fun o => (fun pid => (pid, o)) <$> truthy_id (io_providerOrderId o)) internalOrders).

Definition compareOrders (internalOrders : list InternalOrder) (providerOrders : list BrokerOrder)
    (providerPositions : list BrokerPosition) : jsres (list Candidate) :=
  let duplicates := mjoin (duplicate_order <$> provider_groups internalOrders) in
  try! compared := collect (compare_internal_order providerOrders providerPositions) internalOrders in
  Ok (duplicates ++ compared ++
      mjoin (compare_provider_order internalOrders <$> providerOrders)).
End results.

(** ** Positions *)

Definition holds_position (t : InternalTrade) : bool :=
  has POSITION_HOLDING_TRADE_STATUSES (it_status t).

(** The (id, trade) pairs the first loop of [comparePositions] walks, in order. *)
Definition position_ids (internalTrades : list InternalTrade) : list (string * InternalTrade) :=
  mjoin ((fun t => (fun id => (id, t)) <$>
                     omap truthy_id [it_externalOrderId t; it_externalPositionId t])
         <$> List.filter holds_position internalTrades).

Definition duplicate_position (g : string * list InternalTrade) : list Candidate :=
  match g with
  | (id, (t :: _) as trades) =>
      if bool_decide (1 < length (remove_dups (it_tradeId <$> trades)))%nat then
        [mkCandidate DUPLICATE_PROVIDER_ID CRITICAL (Some TRADE) (Some (it_tradeId t))
           (Some id) None
           [("internalTradeIds", DList (it_tradeId <$> trades) : detail);
            ("providerPositionId", DStr id : detail);
            ("note", DStr "Multiple internal trades claim the same provider position id" : detail)]]
      else []
  | _ => []
  end.

Definition closed_externally (t : InternalTrade) (eid : string) : Candidate :=
  mkCandidate POSITION_CLOSED_EXTERNALLY WARNING (Some TRADE) (Some (it_tradeId t))
    (Some eid) None
    [("internalStatus", DStr (it_status t) : detail);
     ("instrument", DStr (it_instrument t) : detail);
     ("internalLotSize", DStr (it_lotSize t) : detail);
     ("note", DStr "Internal position is open but the provider no longer reports it (SL/TP/manual close)" : detail)].

Definition compare_trade (providerPositions : list BrokerPosition) (t : InternalTrade)
  : list Candidate :=
  let ids := bp_externalOrderId <$> providerPositions in
  if negb (holds_position t) then []
  else
    match it_externalOrderId t with
    | None => []
    | Some eid =>
        if bool_decide (eid = "") then []
        else
          let providerHas :=
            has ids eid || match it_externalPositionId t with Some p => has ids p | None => false end in
          if providerHas then [] else [closed_externally t eid]
    end.

Definition unknown_position (p : BrokerPosition) : Candidate :=
  mkCandidate UNKNOWN_PROVIDER_POSITION CRITICAL None None (Some (bp_externalOrderId p)) None
    [("instrument", DStr (bp_instrument p) : detail);
     ("direction", DStr (bp_direction p) : detail);
     ("lotSize", DStr (bp_lotSize p) : detail);
     ("openPrice", DStr (bp_openPrice p) : detail);
     ("openedAt", from_option DDate DNull (bp_openedAt p) : detail);
     ("note", DStr "Provider reports an open position with no internal record (externally opened?)" : detail)].

Definition comparePositions (internalTrades : list InternalTrade)
    (providerPositions : list BrokerPosition) : list Candidate :=
  let owned := position_ids internalTrades in
  mjoin (duplicate_position <$> grouped owned) ++
  mjoin (compare_trade providerPositions <$> internalTrades) ++
  mjoin ((fun p => if has owned.*1 (bp_externalOrderId p) then [] else [unknown_position p])
         <$> providerPositions).

(** ** Account *)

Section results.
Local Open Scope result_scope.

Definition account_drift (i : InternalAccount) (p : BrokerAccount) (tolerance : Q)
  : jsres (list (string * (leaf * leaf))) :=
  collect (fun '(field, expected, observed) =>
             try! d := driftExceeds expected observed tolerance in
             Ok (if d : bool then [(field, (DStr expected, DStr observed))] else []))
    [("balance", ia_balance i, ba_balance p); ("equity", ia_equity i, ba_equity p);
     ("margin", ia_margin i, ba_margin p); ("freeMargin", ia_freeMargin i, ba_freeMargin p);
     ("marginLevel", ia_marginLevel i, ba_marginLevel p)].

Definition account_structural (i : InternalAccount) (p : BrokerAccount)
  : list (string * (leaf * leaf)) :=
  (match ia_currency i with
   | Some c => if bool_decide (Some c = ba_currency p) then []
               else [("currency", (DStr c, dstr (ba_currency p)))]
   | None => []
   end) ++
  (match ia_leverage i with
   | Some l => if l =? ba_leverage p then [] else [("leverage", (DNum l, DNum (ba_leverage p)))]
   | None => []
   end).

Definition compareAccount (internal : option InternalAccount) (p : BrokerAccount) (o : Options)
  : jsres (list Candidate) :=
  match internal with
  | None => Ok []
  | Some i =>
      try! drift := account_drift i p (accountDriftTolerance o) in
      let structural := account_structural i p in
      if bool_decide (drift = []) && bool_decide (structural = []) then Ok []
      else Ok [mkCandidate ACCOUNT_STATE_MISMATCH
                 (if bool_decide (structural = []) then WARNING else CRITICAL)
                 (Some ACCOUNT) None None None
                 [("monetaryDrift", DMismatch drift); ("structuralMismatch", DMismatch structural);
                  ("note", DStr "Internal account snapshot diverges from provider account info beyond tolerance" : detail)]]
  end.

(** ** Uncertain executions *)

Definition unresolved_order (o : InternalOrder) : Candidate :=
  mkCandidate UNRESOLVED_EXECUTION_RESULT WARNING (Some ORDER) (Some (io_orderId o))
    (io_providerOrderId o) (Some (io_clientOrderId o))
    [("internalStatus", DStr (io_status o) : detail);
     ("submittedAt", from_option DDate DNull (io_submittedAt o) : detail);
     ("hasProviderId", DBool (bool_decide (is_Some (io_providerOrderId o))) : detail);
     ("note", DStr "Order in RECONCILIATION_PENDING beyond grace period without resolution" : detail)].

Definition unresolved_trade (t : InternalTrade) : Candidate :=
  mkCandidate UNRESOLVED_EXECUTION_RESULT WARNING (Some TRADE) (Some (it_tradeId t))
    (it_externalOrderId t) None
    [("internalStatus", DStr (it_status t) : detail);
     ("openedAt", from_option DDate DNull (it_openedAt t) : detail);
     ("hasProviderId", DBool (bool_decide (is_Some (it_externalOrderId t))) : detail);
     ("note", DStr "Trade in RECONCILIATION_PENDING beyond grace period without resolution" : detail)].

Definition detectUnresolvedExecutions (orders : list InternalOrder) (trades : list InternalTrade)
    (now : Z) (o : Options) : list Candidate :=
  let cutoff := now - unresolvedGraceMs o in
  let stuck (status : string) (since : option Z) :=
    bool_decide (status = "RECONCILIATION_PENDING") && negb (default 0 since >? cutoff) in
  mjoin ((fun x => if stuck (io_status x) (io_submittedAt x) then [unresolved_order x] else []) <$> orders) ++
  mjoin ((fun t => if stuck (it_status t) (it_openedAt t) then [unresolved_trade t] else []) <$> trades).

(** ** Entry point *)

Definition identity_key (c : Candidate) : string :=
  type_name (type c) +:+ "|" +:+ default "" (internalRefId c) +:+ "|" +:+ default "" (providerRef c).

Fixpoint dedup (seen : gset string) (cs : list Candidate) : list Candidate :=
  match cs with
  | [] => []
  | c :: cs =>
      if bool_decide (identity_key c ∈ seen) then dedup seen cs
      else c :: dedup ({[identity_key c]} ∪ seen) cs
  end.

Definition detections (i : InternalState) (p : ProviderState) (now : Z) (o : Options)
  : jsres (list Candidate) :=
  try! orders := compareOrders (is_orders i) (ps_orders p) (ps_positions p) in
  try! account := compareAccount (is_account i) (ps_account p) o in
  Ok (orders ++ comparePositions (is_trades i) (ps_positions p) ++ account ++
      detectUnresolvedExecutions (is_orders i) (is_trades i) now o).

Definition compareStates (i : InternalState) (p : ProviderState) (now : Z) (o : Options)
  : jsres (list Candidate) :=
  try! candidates := detections i p now o in
  Ok (dedup ∅ candidates).
End results.

(** ** Lemmas: decimals *)

(** A decimal without exponent or plus sign, as the database and the adapters print
    them: sign [s], mantissa [m], [f] fractional digits. *)
Inductive plain_decimal (raw : string) (s m f : Z) : Prop :=
| plain_decimal_intro sg ml :
    chars_of raw = sg ++ ml -> sign_lit sg s -> sg <> ["+"%char] -> mantissa_lit ml m f ->
    plain_decimal raw s m f.

Lemma split_on_avoids c l : avoids (ascii_eqb c) l -> split_on c l = [l].
Proof.
  induction 1 as [|x l Hx _ IH]; simpl; [done|]. rewrite IH.
  unfold ascii_eqb in *. rewrite bool_decide_eq_false in Hx.
  by rewrite bool_decide_eq_false_2 by congruence.
Qed.

Lemma split_on_hit c l r :
  avoids (ascii_eqb c) l -> split_on c (l ++ c :: r) = l :: split_on c r.
Proof.
  induction 1 as [|x l Hx _ IH]; simpl.
  - unfold ascii_eqb. by rewrite bool_decide_eq_true_2.
  - rewrite IH. unfold ascii_eqb in *. rewrite bool_decide_eq_false in Hx.
    by rewrite bool_decide_eq_false_2 by congruence.
Qed.

Lemma dot_avoids l : all_digits l -> avoids (ascii_eqb ".") l.
Proof. apply digits_avoid. intros c Hc. by apply digit_not_dot. Qed.

Lemma big_digits l : all_digits l -> big l = Ok (digits_val l).
Proof.
  intros Hl. unfold big. destruct l as [|c l]; [done|].
  by rewrite js_BigInt_digits by done.
Qed.

Lemma mantissa_parts ml m f (k : nat) :
  mantissa_lit ml m f -> f <= Z.of_nat k ->
  exists ip fp, split_on "." ml !! 0%nat = Some ip /\
    default [] (split_on "." ml !! 1%nat) = fp /\
    all_digits ip /\ all_digits fp /\ Z.of_nat (length fp) = f /\ m = digits_val (ip ++ fp).
Proof.
  intros [ip Hip Hne|ip fp Hip Hfp Hne] Hk.
  - exists ip, []. rewrite split_on_avoids by by apply dot_avoids.
    repeat split; [done|constructor|]. by rewrite app_nil_r.
  - exists ip, fp. rewrite split_on_hit by by apply dot_avoids.
    rewrite split_on_avoids by by apply dot_avoids. done.
Qed.

Lemma toScaledBigInt_plain raw s m f k :
  plain_decimal raw s m f -> f <= Z.of_nat k ->
  toScaledBigInt raw k = Ok (s * (m * 10 ^ (Z.of_nat k - f))).
Proof.
  intros [sg ml Heq Hs Hplus Hm] Hk. unfold toScaledBigInt. rewrite Heq.
  destruct (mantissa_parts ml m f k Hm Hk) as (ip & fp & Hsi & Hsf & Hip & Hfp & Hlen & ->).
  assert (avoids is_space ml) as Hsp.
  { destruct Hm as [? ?|? ? ? ? ?]; [|apply avoids_app; split; [|constructor; [done|]]];
      by (apply digits_avoid; [apply digit_not_space|]). }
  assert (starts_with "-" ml = false) as Hneg.
  { destruct Hm as [l Hl Hne|l l' Hl Hl' Hne]; destruct l as [|x l]; try done; simpl;
      apply digit_not_char; try done; by inversion Hl. }
  rewrite trim_avoids by (apply avoids_app; split; [destruct Hs; repeat constructor|done]).
  assert ((if starts_with "-" (sg ++ ml) then drop 1 (sg ++ ml) else sg ++ ml) = ml) as ->
    by (destruct Hs; simpl; rewrite ?Hneg; try done).
  rewrite Hsi, Hsf. cbn [default from_option].
  rewrite big_digits by done. cbn [rbind].
  rewrite take_app_ge by lia. rewrite take_replicate, Nat.min_l by lia.
  rewrite big_digits by (apply all_digits_app; split; [done|apply all_digits_zeros]).
  cbn [rbind]. rewrite !digits_val_app, digits_val_zeros, length_replicate.
  replace (Z.of_nat (k - length fp)) with (Z.of_nat k - f) by lia.
  rewrite (pow10_split f (Z.of_nat k)), Hlen by lia. unfold id.
  destruct Hs; [|done|]; simpl app; rewrite ?Hneg; simpl starts_with; f_equal;
    [|replace (ascii_eqb "-" "-") with true by done]; ring.
Qed.

(** ** Lemmas: loops *)

Lemma collect_elem {A B} (f : A -> jsres (list B)) l out :
  collect f l = Ok out -> forall c, c ∈ out <-> exists x a, x ∈ l /\ f x = Ok a /\ c ∈ a.
Proof.
  revert out; induction l as [|x l IH]; intros out; simpl.
  { intros [= <-] c. split; [by intros ?%not_elem_of_nil|intros (? & ? & ?%not_elem_of_nil & _); done]. }
  intros (a & Hf & (b & Hb & [= <-])%rbind_ok)%rbind_ok c.
  rewrite elem_of_app, (IH b Hb c). split.
  - intros [Hc|(y & a' & Hy & Hfy & Hc)]; [exists x, a|exists y, a']; rewrite elem_of_cons; auto.
  - intros (y & a' & [->|Hy]%elem_of_cons & Hfy & Hc); [left; congruence|right; eauto].
Qed.

Lemma mjoin_elem {A B} (f : A -> list B) l c : c ∈ mjoin (f <$> l) <-> exists x, x ∈ l /\ c ∈ f x.
Proof.
  rewrite list_elem_of_join. split.
  - intros (a & Hc & (x & -> & Hx)%list_elem_of_fmap). eauto.
  - intros (x & Hx & Hc). exists (f x). split; [done|]. by apply list_elem_of_fmap_2.
Qed.

(** The values pushed under one key. *)
Definition pushed {A} (k : string) (pairs : list (string * A)) : list A :=
  (filter (fun q => q.1 = k) pairs).*2.

Lemma pushed_snoc {A} k k' (x : A) pairs :
  pushed k (pairs ++ [(k', x)]) = pushed k pairs ++ (if decide (k' = k) then [x] else []).
Proof.
  unfold pushed. rewrite filter_app, fmap_app. f_equal.
  rewrite filter_cons. simpl. by destruct (decide (k' = k)).
Qed.

Lemma group_push_elem {A} k (x : A) m k' ys :
  NoDup m.*1 ->
  (k', ys) ∈ group_push k x m <->
    (k' <> k /\ (k', ys) ∈ m) \/
    (k' = k /\ ((exists xs, (k, xs) ∈ m /\ ys = (xs ++ [x])) \/ ((k ∉ m.*1) /\ ys = [x]))).
Proof.
  induction m as [|[k0 xs] m IH]; simpl; intros Hnd.
  { rewrite list_elem_of_singleton. split.
    - intros [= -> ->]. right. split; [done|]. right. split; [apply not_elem_of_nil|done].
    - intros [[_ ?%not_elem_of_nil]|(-> & [(? & ?%not_elem_of_nil & _)|[_ ->]])]; done. }
  apply NoDup_cons in Hnd as [Hk0 Hnd]. specialize (IH Hnd).
  assert (forall zs, (k0, zs) ∉ m) as Hfresh
    by (intros zs Hin; apply Hk0; by apply (list_elem_of_fmap_2 fst) in Hin).
  case_bool_decide as Hk; rewrite elem_of_cons; [subst k0|rewrite IH]; rewrite !elem_of_cons.
  - split.
    + intros [[= -> ->]|Hin]; [right; split; [done|]; left; exists xs; split; [by left|done]|].
      left. split; [|by right]. intros ->. by apply (Hfresh ys).
    + intros [[Hne [[= -> _]|Hin]]|(-> & [(zs & Hzs & ->)|[Hn _]])]; [done|by right| |].
      * apply elem_of_cons in Hzs as [[= ->]|Hin]; [by left|by destruct (Hfresh zs)].
      * destruct Hn. by left.
  - assert (forall zs, (k, zs) ∈ (k0, xs) :: m <-> (k, zs) ∈ m) as Hm
      by (intros; rewrite elem_of_cons; split; [intros [[= ->]|?]; done|by right]).
    setoid_rewrite Hm. split.
    + intros [[= -> ->]|[[? ?]|(-> & [?|[? ->]])]]; [left; auto|left; auto|right; auto|].
      right. split; [done|]. right. split; [|done]. intros [->|?]; done.
    + intros [[? [?|?]]|(-> & [?|[Hn ->]])]; [by left|right; left; auto|right; right; auto|].
      right; right. split; [done|]. right. split; [|done]. intros ?. apply Hn. by right.
Qed.

Lemma group_push_key {A} k (x : A) m k' : k' ∈ (group_push k x m).*1 <-> k' = k \/ k' ∈ m.*1.
Proof.
  induction m as [|[k0 xs] m IH]; simpl.
  { rewrite list_elem_of_singleton, elem_of_nil. tauto. }
  case_bool_decide as Hk; simpl; rewrite !elem_of_cons, ?IH; [subst|]; tauto.
Qed.

Lemma group_push_nodup {A} k (x : A) m : NoDup m.*1 -> NoDup (group_push k x m).*1.
Proof.
  induction m as [|[k0 xs] m IH]; simpl; [intros; apply NoDup_singleton|].
  intros [Hk0 Hnd]%NoDup_cons. case_bool_decide as Hk; simpl; apply NoDup_cons; [done|].
  split; [|auto]. rewrite group_push_key. intros [->|?]; done.
Qed.

Lemma grouped_snoc {A} pairs k (x : A) :
  grouped (pairs ++ [(k, x)]) = group_push k x (grouped pairs).
Proof. unfold grouped. by rewrite fold_left_app. Qed.

Lemma grouped_elem {A} (pairs : list (string * A)) k xs :
  (k, xs) ∈ grouped pairs <-> xs = pushed k pairs /\ xs <> [].
Proof.
  cut (NoDup (grouped pairs).*1 /\
       forall k xs, (k, xs) ∈ grouped pairs <-> xs = pushed k pairs /\ xs <> []);
    [intros [_ H]; apply H|].
  clear. induction pairs as [|[k0 x] pairs [Hnd IH]] using rev_ind.
  { split; [constructor|]. intros k xs. rewrite elem_of_nil.
    split; [done|]. intros [-> ?]. done. }
  rewrite grouped_snoc. split; [by apply group_push_nodup|].
  intros k xs. rewrite group_push_elem, pushed_snoc by done.
  destruct (decide (k0 = k)) as [->|Hne].
  - split.
    + intros [[? _]|[_ [(ys & [-> ?]%IH & ->)|[Hk ->]]]]; [done|split; [done|]|].
      * by intros [? ?]%app_nil.
      * split; [|done]. destruct (pushed k pairs) as [|y ys] eqn:E; [done|].
        destruct Hk. apply (list_elem_of_fmap_2 fst (grouped pairs) (k, y :: ys)).
        apply IH. by rewrite E.
    + intros [-> _]. right. split; [done|].
      destruct (pushed k pairs) as [|y ys] eqn:E; [right|left].
      * split; [|done]. intros ([k' zs] & Hk' & [-> Hz]%IH)%list_elem_of_fmap. simpl in *; subst.
        by rewrite E in Hz.
      * exists (y :: ys). split; [|done]. apply IH. by rewrite E.
  - rewrite app_nil_r, <- IH. split; [|left; auto].
    intros [[_ ?]|[-> _]]; done.
Qed.

(** ** What the loops detect

    One rule per category of the taxonomy, on the two snapshots, without loops, maps and early
    exits; the numbers and the reports are still the code's.  The specification below is
    independent of both. *)

Definition expected_at_provider (o : InternalOrder) (pid : string) : Prop :=
  io_status o ∈ PROVIDER_EXPECTED_ORDER_STATUSES /\ io_providerOrderId o = Some pid /\ pid <> "".

Definition claims_order (i : InternalState) (pid : string) : list InternalOrder :=
  filter (fun o => io_providerOrderId o = Some pid) (is_orders i).

Definition claims_position (t : InternalTrade) (id : string) : Prop :=
  it_status t ∈ POSITION_HOLDING_TRADE_STATUSES /\ id <> "" /\
  (it_externalOrderId t = Some id \/ it_externalPositionId t = Some id).

Definition at_provider (p : ProviderState) (pid : string) : Prop :=
  pid ∈ bo_providerOrderId <$> ps_orders p \/ pid ∈ bp_externalOrderId <$> ps_positions p.

(** The provider's working-order record for an id: the first of that id. *)
Definition working_record (p : ProviderState) (pid : string) (b : BrokerOrder) : Prop :=
  List.find (fun b => bool_decide (bo_providerOrderId b = pid)) (ps_orders p) = Some b.

Definition overdue (now : Z) (o : Options) (status : string) (since : option Z) : Prop :=
  status = "RECONCILIATION_PENDING" /\ default 0 since <= now - unresolvedGraceMs o.

Inductive detected (i : InternalState) (p : ProviderState) (now : Z) (o : Options)
  : Candidate -> Prop :=
| det_duplicate_order pid x y rest c :
    pid <> "" -> claims_order i pid = x :: y :: rest ->
    c ∈ duplicate_order (pid, claims_order i pid) -> detected i p now o c
| det_missing_provider x pid :
    x ∈ is_orders i -> expected_at_provider x pid -> ~ at_provider p pid ->
    detected i p now o (missing_provider_order x pid)
| det_stale_terminal x pid b :
    x ∈ is_orders i -> expected_at_provider x pid -> working_record p pid b ->
    bo_status b ∈ providerTerminal -> detected i p now o (stale_terminal x b)
| det_unknown_order x pid b :
    x ∈ is_orders i -> expected_at_provider x pid -> working_record p pid b ->
    bo_status b = "UNKNOWN" -> detected i p now o (unknown_provider_order x b)
| det_stale_fill x pid b :
    x ∈ is_orders i -> expected_at_provider x pid -> working_record p pid b ->
    bo_status b ∉ providerTerminal -> bo_status b <> "UNKNOWN" ->
    compareDecimal (bo_filledQuantity b) (io_filledQuantity x) 10 = Ok Gt ->
    detected i p now o (stale_fill x b)
| det_missing_internal b :
    b ∈ ps_orders p ->
    (forall x, x ∈ is_orders i -> io_providerOrderId x = Some (bo_providerOrderId b) ->
       bo_providerOrderId b = "") ->
    (forall x, x ∈ is_orders i -> bo_clientOrderId b = Some (io_clientOrderId x) ->
       io_clientOrderId x = "") ->
    detected i p now o (missing_internal_order b)
| det_duplicate_position id c :
    c ∈ duplicate_position (id, pushed id (position_ids (is_trades i))) -> detected i p now o c
| det_closed t eid :
    t ∈ is_trades i -> it_status t ∈ POSITION_HOLDING_TRADE_STATUSES ->
    it_externalOrderId t = Some eid -> eid <> "" ->
    eid ∉ bp_externalOrderId <$> ps_positions p ->
    (forall e, it_externalPositionId t = Some e -> e ∉ bp_externalOrderId <$> ps_positions p) ->
    detected i p now o (closed_externally t eid)
| det_unknown_position b :
    b ∈ ps_positions p ->
    (forall t, t ∈ is_trades i -> ~ claims_position t (bp_externalOrderId b)) ->
    detected i p now o (unknown_position b)
| det_account a c :
    is_account i = Some a -> compareAccount (Some a) (ps_account p) o = Ok [c] ->
    detected i p now o c
| det_unresolved_order x :
    x ∈ is_orders i -> overdue now o (io_status x) (io_submittedAt x) ->
    detected i p now o (unresolved_order x)
| det_unresolved_trade t :
    t ∈ is_trades i -> overdue now o (it_status t) (it_openedAt t) ->
    detected i p now o (unresolved_trade t).

(** *** Each loop implements its rules *)

Lemma has_iff l s : has l s = true <-> s ∈ l.
Proof. apply bool_decide_eq_true. Qed.

Lemma has_false l s : has l s = false <-> s ∉ l.
Proof. apply bool_decide_eq_false. Qed.

Lemma truthy_id_some o s : truthy_id o = Some s <-> o = Some s /\ s <> "".
Proof.
  unfold truthy_id, truthy. destruct o as [x|]; [|split; [done|by intros []]].
  case_bool_decide as Hx; simpl; split; [done|intros [[= ->] ?]; done|intros [= ->]; done|by intros [? _]].
Qed.

Lemma pushed_omap {A} (key : A -> option string) k (l : list A) :
  pushed k (omap (fun x => (fun s => (s, x)) <$> key x) l) = filter (fun x => key x = Some k) l.
Proof.
  unfold pushed. induction l as [|x l IH]; [done|].
  rewrite filter_cons, <- IH. cbn [omap list_omap].
  destruct (key x) as [s|] eqn:E; cbn [fmap option_fmap option_map].
  - rewrite filter_cons. cbn [fst]. destruct (decide (s = k)) as [->|Hne].
    + by rewrite decide_True by done.
    + by rewrite decide_False by congruence.
  - by rewrite decide_False by done.
Qed.

Lemma provider_groups_elem i pid xs :
  (pid, xs) ∈ provider_groups (is_orders i) <->
  pid <> "" /\ xs = claims_order i pid /\ xs <> [].
Proof.
  unfold provider_groups. rewrite grouped_elem, pushed_omap. unfold claims_order.
  destruct (decide (pid = "")) as [->|Hne].
  - split; [|by intros []]. intros [-> Hx]. exfalso.
    destruct (filter _ _) as [|x l] eqn:E; [done|].
    assert (x ∈ x :: l) as Hin by left. rewrite <- E in Hin.
    by apply list_elem_of_filter in Hin as [[_ ?]%truthy_id_some _].
  - assert (filter (fun x => truthy_id (io_providerOrderId x) = Some pid) (is_orders i)
            = filter (fun x => io_providerOrderId x = Some pid) (is_orders i)) as ->; [|tauto].
    apply list_filter_iff. intros x. rewrite truthy_id_some. tauto.
Qed.

Lemma duplicate_orders_spec i c :
  c ∈ mjoin (duplicate_order <$> provider_groups (is_orders i)) <->
  exists pid x y rest, pid <> "" /\ claims_order i pid = x :: y :: rest /\
    c ∈ duplicate_order (pid, claims_order i pid).
Proof.
  rewrite mjoin_elem. split.
  - intros ([pid xs] & (Hp & -> & Hne)%provider_groups_elem & Hc).
    destruct (claims_order i pid) as [|x [|y rest]] eqn:E; [done|by apply not_elem_of_nil in Hc|].
    exists pid, x, y, rest. by rewrite E.
  - intros (pid & x & y & rest & Hp & E & Hc). exists (pid, claims_order i pid).
    split; [|done]. apply provider_groups_elem. by rewrite E.
Qed.

Lemma stale_spec o b a c :
  checkStaleOrderState o b = Ok a ->
  c ∈ a <->
  (bo_status b ∈ providerTerminal /\ c = stale_terminal o b) \/
  (bo_status b = "UNKNOWN" /\ c = unknown_provider_order o b) \/
  (~ bo_status b ∈ providerTerminal /\ bo_status b <> "UNKNOWN" /\
   compareDecimal (bo_filledQuantity b) (io_filledQuantity o) 10 = Ok Gt /\ c = stale_fill o b).
Proof.
  unfold checkStaleOrderState.
  destruct (has providerTerminal (bo_status b)) eqn:Ht.
  { apply has_iff in Ht. intros [= <-]. rewrite list_elem_of_singleton. split; [by left; auto|].
    intros [[_ ->]|[[Hu _]|[? _]]]; [done| |done]. rewrite Hu in Ht.
    by repeat (apply elem_of_cons in Ht as [?|Ht]; [done|]); apply not_elem_of_nil in Ht. }
  apply has_false in Ht. case_bool_decide as Hu.
  { intros [= <-]. rewrite list_elem_of_singleton. naive_solver. }
  destruct (compareDecimal _ _ 10) as [[]|e]; cbn [rbind]; intros [= <-];
    rewrite ?elem_of_nil, ?list_elem_of_singleton; naive_solver.
Qed.

Lemma internal_order_spec p o a c :
  compare_internal_order (ps_orders p) (ps_positions p) o = Ok a ->
  c ∈ a <->
  exists pid, expected_at_provider o pid /\
    ((~ at_provider p pid /\ c = missing_provider_order o pid) \/
     (exists b, working_record p pid b /\
        ((bo_status b ∈ providerTerminal /\ c = stale_terminal o b) \/
         (bo_status b = "UNKNOWN" /\ c = unknown_provider_order o b) \/
         (~ bo_status b ∈ providerTerminal /\ bo_status b <> "UNKNOWN" /\
          compareDecimal (bo_filledQuantity b) (io_filledQuantity o) 10 = Ok Gt /\
          c = stale_fill o b)))).
Proof.
  unfold compare_internal_order, expected_at_provider.
  destruct (has PROVIDER_EXPECTED_ORDER_STATUSES (io_status o)) eqn:Hst; cbn [negb].
  2:{ apply has_false in Hst. intros [= <-]. rewrite elem_of_nil. split; [done|].
      by intros (? & [? _] & _). }
  apply has_iff in Hst.
  destruct (io_providerOrderId o) as [pid|].
  2:{ intros [= <-]. rewrite elem_of_nil. split; [done|]. by intros (? & (_ & ? & _) & _). }
  case_bool_decide as Hpid.
  { intros [= <-]. rewrite elem_of_nil. split; [done|]. intros (? & (_ & ? & ?) & _). congruence. }
  set (known := has (bo_providerOrderId <$> ps_orders p) pid
                || has (bp_externalOrderId <$> ps_positions p) pid).
  assert (known = true <-> at_provider p pid) as Hknown
    by (unfold known, at_provider; by rewrite orb_true_iff, !has_iff).
  assert (forall b, working_record p pid b -> at_provider p pid) as Hwork.
  { intros b [Hin Heq%bool_decide_eq_true]%List.find_some. left. rewrite <- Heq.
    apply list_elem_of_fmap_2. by apply list_elem_of_In. }
  destruct known; cbn [negb].
  2:{ assert (~ at_provider p pid) as Hno by (rewrite <- Hknown; done).
      intros [= <-]. rewrite list_elem_of_singleton. split; [naive_solver|].
      intros (? & (_ & [= <-] & _) & [[_ ->]|(b & Hb & _)]); [done|]. by destruct Hno; eauto. }
  destruct Hknown as [Hyes _]. specialize (Hyes eq_refl).
  unfold working_record in *.
  destruct (List.find _ (ps_orders p)) as [b|] eqn:Hb.
  2:{ intros [= <-]. rewrite elem_of_nil. split; [done|].
      intros (? & (_ & [= <-] & _) & [[? _]|(b & ? & _)]); [done|]. rewrite Hb in *. done. }
  intros Ha. rewrite (stale_spec _ _ _ _ Ha). split.
  - intros HQ. exists pid. split; [done|]. right. eauto.
  - intros (? & (_ & [= <-] & _) & [[? _]|(b' & Hb' & HQ)]); [done|].
    rewrite Hb in Hb'. by simplify_eq.
Qed.

Lemma compareOrders_spec i p now o out c :
  compareOrders (is_orders i) (ps_orders p) (ps_positions p) = Ok out ->
  c ∈ out -> detected i p now o c.
Proof.
  intros (cmp & Hcmp & [= <-])%rbind_ok. rewrite !elem_of_app. intros [Hc|[Hc|Hc]].
  - apply duplicate_orders_spec in Hc as (pid & x & y & rest & ? & ? & ?).
    by eapply det_duplicate_order.
  - apply (collect_elem _ _ _ Hcmp) in Hc as (x & a & Hx & Ha & Hc).
    apply (internal_order_spec p x a c Ha) in Hc as (pid & He & [[Hn ->]|(b & Hb & Hc)]).
    + by apply det_missing_provider.
    + destruct Hc as [[? ->]|[[? ->]|(? & ? & ? & ->)]];
        [by eapply det_stale_terminal|by eapply det_unknown_order|by eapply det_stale_fill].
  - apply mjoin_elem in Hc as (b & Hb & Hc). unfold compare_provider_order in Hc.
    destruct (has _ _) eqn:Hh in Hc; [by apply not_elem_of_nil in Hc|].
    destruct (existsb _ _) eqn:Hex in Hc; [by apply not_elem_of_nil in Hc|].
    apply list_elem_of_singleton in Hc as ->. apply det_missing_internal; [done|..].
    + intros x Hx Hid. destruct (decide (bo_providerOrderId b = "")) as [|Hne]; [done|].
      apply has_false in Hh. destruct Hh. apply list_elem_of_omap. exists x. split; [done|].
      by apply truthy_id_some.
    + intros x Hx Hid. destruct (decide (io_clientOrderId x = "")) as [|Hne]; [done|].
      exfalso. apply Bool.not_true_iff_false in Hex. apply Hex. apply existsb_exists.
      exists x. split; [by apply list_elem_of_In|]. simpl.
      rewrite Hid. apply andb_true_iff. split; [|by apply bool_decide_eq_true_2].
      apply negb_true_iff. by apply bool_decide_eq_false_2.
Qed.

Lemma compareOrders_complete i p out :
  compareOrders (is_orders i) (ps_orders p) (ps_positions p) = Ok out ->
  (forall pid x y rest c, pid <> "" -> claims_order i pid = x :: y :: rest ->
     c ∈ duplicate_order (pid, claims_order i pid) -> c ∈ out) /\
  (forall x pid, x ∈ is_orders i -> expected_at_provider x pid -> ~ at_provider p pid ->
     missing_provider_order x pid ∈ out) /\
  (forall x pid b a, x ∈ is_orders i -> expected_at_provider x pid -> working_record p pid b ->
     checkStaleOrderState x b = Ok a -> forall c, c ∈ a -> c ∈ out) /\
  (forall b, b ∈ ps_orders p ->
    (forall x, x ∈ is_orders i -> io_providerOrderId x = Some (bo_providerOrderId b) ->
       bo_providerOrderId b = "") ->
    (forall x, x ∈ is_orders i -> bo_clientOrderId b = Some (io_clientOrderId x) ->
       io_clientOrderId x = "") ->
    missing_internal_order b ∈ out).
Proof.
  intros (cmp & Hcmp & [= <-])%rbind_ok. split; [|split; [|split]].
  - intros pid x y rest c ? ? ?. apply elem_of_app; left. apply duplicate_orders_spec. eauto 10.
  - intros x pid Hx He Hn. rewrite !elem_of_app; right; left.
    apply (collect_elem _ _ _ Hcmp).
    assert (compare_internal_order (ps_orders p) (ps_positions p) x
            = Ok [missing_provider_order x pid]) as Hr.
    { destruct He as (Hst & Hid & Hne). unfold compare_internal_order.
      rewrite Hid. apply has_iff in Hst as ->. cbn [negb]. rewrite bool_decide_eq_false_2 by done.
      unfold at_provider in Hn.
      destruct (has (bo_providerOrderId <$> _) pid) eqn:E1; [apply has_iff in E1; tauto|].
      destruct (has (bp_externalOrderId <$> _) pid) eqn:E2; [apply has_iff in E2; tauto|]. done. }
    exists x, [missing_provider_order x pid]. rewrite list_elem_of_singleton. done.
  - intros x pid b a Hx (Hst & Hid & Hne) Hb Ha c Hc. rewrite !elem_of_app; right; left.
    apply (collect_elem _ _ _ Hcmp). exists x, a. split; [done|]. split; [|done].
    unfold compare_internal_order. rewrite Hid. apply has_iff in Hst as ->. cbn [negb].
    rewrite bool_decide_eq_false_2 by done. unfold working_record in Hb. rewrite Hb.
    assert (has (bo_providerOrderId <$> ps_orders p) pid = true) as ->; [|done].
    apply List.find_some in Hb as [Hin Heq%bool_decide_eq_true].
    apply has_iff. rewrite <- Heq. apply list_elem_of_fmap_2. by apply list_elem_of_In.
  - intros b Hb Hid Hcl. rewrite !elem_of_app; right; right. apply mjoin_elem. exists b.
    split; [done|]. unfold compare_provider_order.
    destruct (has _ _) eqn:Hh.
    { apply has_iff, list_elem_of_omap in Hh as (x & Hx & [Hx' ?]%truthy_id_some).
      by apply Hid in Hx'. }
    destruct (existsb _ _) eqn:Hex; [|by left].
    apply existsb_exists in Hex as (x & Hx%list_elem_of_In & [Ht Heq]%andb_true_iff).
    apply bool_decide_eq_true in Heq. simpl in Ht. rewrite (Hcl x) in Ht by done. done.
Qed.

Lemma position_ids_elem ts id t :
  (id, t) ∈ position_ids ts <-> t ∈ ts /\ claims_position t id.
Proof.
  unfold position_ids, claims_position. rewrite mjoin_elem. split.
  - intros (x & [Hx Hh%has_iff]%list_elem_of_In%filter_In & Hin).
    apply list_elem_of_fmap in Hin as (s & [= -> ->] & Hs).
    apply list_elem_of_omap in Hs as (e & He & [-> Hne]%truthy_id_some).
    rewrite !elem_of_cons, elem_of_nil in He. split; [by apply list_elem_of_In|].
    split; [done|]. split; [done|]. destruct He as [He|[He|[]]]; auto.
  - intros (Ht & Hst & Hne & He). exists t. split.
    { apply list_elem_of_In, filter_In. split; [by apply list_elem_of_In|by apply has_iff]. }
    apply (list_elem_of_fmap_2 (fun id => (id, t))). apply list_elem_of_omap.
    exists (Some id). split; [|by apply truthy_id_some].
    rewrite !elem_of_cons. destruct He; auto.
Qed.

Lemma compare_trade_elem ps t c :
  c ∈ compare_trade ps t <->
  exists eid, it_status t ∈ POSITION_HOLDING_TRADE_STATUSES /\ it_externalOrderId t = Some eid /\
    eid <> "" /\ (eid ∉ bp_externalOrderId <$> ps) /\
    (forall e, it_externalPositionId t = Some e -> e ∉ bp_externalOrderId <$> ps) /\
    c = closed_externally t eid.
Proof.
  unfold compare_trade, holds_position.
  destruct (has POSITION_HOLDING_TRADE_STATUSES (it_status t)) eqn:Hst; cbn [negb].
  2:{ apply has_false in Hst. rewrite elem_of_nil. naive_solver. }
  apply has_iff in Hst. destruct (it_externalOrderId t) as [eid|]; [|rewrite elem_of_nil; naive_solver].
  case_bool_decide; [rewrite elem_of_nil; naive_solver|].
  destruct (has _ eid) eqn:E1; cbn [orb];
    [apply has_iff in E1; rewrite elem_of_nil; naive_solver|apply has_false in E1].
  destruct (it_externalPositionId t) as [e|]; [|rewrite list_elem_of_singleton; naive_solver].
  destruct (has _ e) eqn:E2;
    [apply has_iff in E2; rewrite elem_of_nil; naive_solver|apply has_false in E2].
  rewrite list_elem_of_singleton; naive_solver.
Qed.

Lemma duplicate_position_nonempty id l c : c ∈ duplicate_position (id, l) -> l <> [].
Proof. destruct l; [|done]. by intros ?%not_elem_of_nil. Qed.

Lemma comparePositions_elem ts ps c :
  c ∈ comparePositions ts ps <->
  (exists id, c ∈ duplicate_position (id, pushed id (position_ids ts))) \/
  (exists t, t ∈ ts /\ c ∈ compare_trade ps t) \/
  (exists b, b ∈ ps /\ (forall t, t ∈ ts -> ~ claims_position t (bp_externalOrderId b)) /\
     c = unknown_position b).
Proof.
  unfold comparePositions. rewrite !elem_of_app, !mjoin_elem.
  assert (forall b, has (position_ids ts).*1 (bp_externalOrderId b) = false <->
            forall t, t ∈ ts -> ~ claims_position t (bp_externalOrderId b)) as Hh.
  { intros b. rewrite has_false. split.
    - intros Hn t Ht Hc. apply Hn.
      apply (list_elem_of_fmap_2 fst _ (bp_externalOrderId b, t)). by apply position_ids_elem.
    - intros Hn ([id t] & Hid & [Ht Hc]%position_ids_elem)%list_elem_of_fmap. simpl in Hid; subst.
      by apply (Hn t). }
  assert ((exists g, g ∈ grouped (position_ids ts) /\ c ∈ duplicate_position g) <->
          exists id, c ∈ duplicate_position (id, pushed id (position_ids ts))) as ->.
  { split.
    - intros ([id l] & [-> Hne]%grouped_elem & Hc). eauto.
    - intros (id & Hc). exists (id, pushed id (position_ids ts)). split; [|done].
      apply grouped_elem. split; [done|]. by eapply duplicate_position_nonempty. }
  do 2 apply or_iff_compat_l. split.
  - intros (b & Hb & Hc). exists b. specialize (Hh b).
    destruct (has _ _); [by apply not_elem_of_nil in Hc|].
    apply list_elem_of_singleton in Hc. split; [done|]. split; [by apply Hh|done].
  - intros (b & Hb & Hn & ->). exists b. split; [done|]. apply Hh in Hn as ->. by left.
Qed.

Lemma unresolved_elem os ts now o c :
  c ∈ detectUnresolvedExecutions os ts now o <->
  (exists x, x ∈ os /\ overdue now o (io_status x) (io_submittedAt x) /\ c = unresolved_order x) \/
  (exists t, t ∈ ts /\ overdue now o (it_status t) (it_openedAt t) /\ c = unresolved_trade t).
Proof.
  unfold detectUnresolvedExecutions. rewrite elem_of_app, !mjoin_elem.
  assert (forall {A} (st : string) since (a : A) c,
    c ∈ (if bool_decide (st = "RECONCILIATION_PENDING") &&
            negb (default 0 since >? now - unresolvedGraceMs o) then [a] else []) <->
    overdue now o st since /\ c = a) as Hif.
  { intros A st since a x. unfold overdue. rewrite Z.gtb_ltb.
    case_bool_decide; cbn [andb]; [|rewrite elem_of_nil; tauto].
    destruct (Z.ltb_spec (now - unresolvedGraceMs o) (default 0 since)); cbn [negb];
      rewrite ?elem_of_nil, ?list_elem_of_singleton; intuition lia. }
  setoid_rewrite Hif. done.
Qed.

Lemma compareAccount_shape a p o out :
  compareAccount a p o = Ok out -> out = [] \/ exists c, out = [c] /\ is_Some a.
Proof.
  destruct a as [a|]; simpl; [|by intros [= <-]; left].
  intros (d & _ & H)%rbind_ok. destruct (_ && _); simplify_eq; eauto.
Qed.

(** Everything detected is a discrepancy of the specification, and conversely. *)
Lemma detections_spec i p now o cs c :
  detections i p now o = Ok cs -> c ∈ cs <-> detected i p now o c.
Proof.
  intros (ords & Hords & (acc & Hacc & [= <-])%rbind_ok)%rbind_ok.
  rewrite !elem_of_app, comparePositions_elem, unresolved_elem. split.
  - intros [Hc|[Hc|[Hc|Hc]]].
    + by eapply compareOrders_spec.
    + destruct Hc as [(id & Hc)|[(t & Ht & Hc)|(b & Hb & Hn & ->)]];
        [by eapply det_duplicate_position| |by apply det_unknown_position].
      apply compare_trade_elem in Hc as (eid & ? & ? & ? & ? & ? & ->). by apply det_closed.
    + destruct (compareAccount_shape _ _ _ _ Hacc) as [->|(c' & -> & [a Ha])];
        [by apply not_elem_of_nil in Hc|].
      apply list_elem_of_singleton in Hc as ->. rewrite Ha in Hacc. by eapply det_account.
    + destruct Hc as [(x & ? & ? & ->)|(t & ? & ? & ->)];
        [by apply det_unresolved_order|by apply det_unresolved_trade].
  - destruct (compareOrders_complete i p ords Hords) as (Hdup & Hmiss & Hstale & Hint).
    assert (forall x b, bo_status b ∈ providerTerminal ->
              checkStaleOrderState x b = Ok [stale_terminal x b]) as Hterm
      by (intros x b ?%has_iff; unfold checkStaleOrderState; by rewrite H).
    intros [pid x y rest c0 Hp Hcl Hc|x pid Hx He Hn|x pid b Hx He Hb Ht|x pid b Hx He Hb Hu
           |x pid b Hx He Hb Ht Hu Hgt|b Hb Hi Hcl|id c0 Hc|t eid Ht Hst He Hne Hn Hn'|b Hb Hn
           |a c0 Ha Hc|x Hx Ho|t Ht Ho].
    + left. eauto.
    + left. eauto.
    + left. eapply Hstale; [done..|by apply Hterm|by left].
    + left. eapply Hstale; [done..| |by left]. unfold checkStaleOrderState.
      rewrite Hu. done.
    + left. eapply Hstale; [done..| |by left]. unfold checkStaleOrderState.
      apply has_false in Ht as ->. rewrite bool_decide_eq_false_2, Hgt by done. done.
    + left. eauto.
    + right; left. left. eauto.
    + right; left. right; left. exists t. split; [done|]. apply compare_trade_elem. eauto 10.
    + right; left. right; right. eauto.
    + right; right; left. rewrite Ha, Hc in Hacc. simplify_eq. by left.
    + right; right; right. eauto.
    + right; right; right. eauto.
Qed.

(** *** Deduplication *)

Lemma dedup_elem seen cs c : c ∈ dedup seen cs -> c ∈ cs /\ (identity_key c ∉ seen).
Proof.
  revert seen; induction cs as [|x cs IH]; intros seen; simpl; [by intros ?%not_elem_of_nil|].
  case_bool_decide as Hx.
  - intros [? ?]%IH. split; [by right|done].
  - intros [->|[? ?]%IH]%elem_of_cons; [split; [by left|done]|]. split; [by right|set_solver].
Qed.

Lemma dedup_kept seen cs c :
  c ∈ cs -> identity_key c ∈ seen \/ exists c', c' ∈ dedup seen cs /\ identity_key c' = identity_key c.
Proof.
  revert seen; induction cs as [|x cs IH]; intros seen; [by intros ?%not_elem_of_nil|].
  intros Hc. simpl. case_bool_decide as Hx.
  - apply elem_of_cons in Hc as [->|Hc]; [by left|]. by apply IH.
  - destruct (decide (identity_key c = identity_key x)) as [Heq|Hne].
    { right. exists x. split; [by left|done]. }
    apply elem_of_cons in Hc as [->|Hc]; [done|].
    destruct (IH ({[identity_key x]} ∪ seen) Hc) as [Hin|(c' & ? & ?)]; [left; set_solver|].
    right. exists c'. split; [by right|done].
Qed.

Lemma dedup_nodup seen cs : NoDup (identity_key <$> dedup seen cs).
Proof.
  revert seen; induction cs as [|x cs IH]; intros seen; simpl; [constructor|].
  case_bool_decide; [done|]. apply NoDup_cons. split; [|done].
  intros (c & Hk & [_ Hc]%dedup_elem)%list_elem_of_fmap. rewrite Hk in Hc. set_solver.
Qed.

Lemma dedup_sublist seen cs : dedup seen cs `sublist_of` cs.
Proof.
  revert seen; induction cs as [|x cs IH]; intros seen; simpl; [constructor|].
  case_bool_decide; [by apply sublist_cons|by apply sublist_skip].
Qed.

Lemma identity_key_type c c' : identity_key c = identity_key c' -> type c = type c'.
Proof.
  unfold identity_key. destruct (type c), (type c'); simpl; first [done|intros Heq; discriminate Heq].
Qed.

(** ** Properties *)

(** [compareDecimal] decides the order of the rational values of any two plain
    decimals with at most ten fractional digits; it throws on none of them. *)
Theorem compareDecimal_exact a b sa ma fa sb mb fb :
  plain_decimal a sa ma fa -> plain_decimal b sb mb fb -> 0 <= fa <= 10 -> 0 <= fb <= 10 ->
  compareDecimal a b 10 = Ok (toQ (mkED (sa * ma) fa) ?= toQ (mkED (sb * mb) fb))%Q.
Proof.
  intros Ha Hb Hfa Hfb. unfold compareDecimal.
  rewrite (toScaledBigInt_plain a sa ma fa 10), (toScaledBigInt_plain b sb mb fb 10) by (done || lia).
  cbn [rbind]. f_equal.
  assert (forall u f, 0 <= f <= 10 ->
    (toQ (mkED u f) == toQ (mkED (u * 10 ^ (10 - f)) 10))%Q) as Hsc.
  { intros u f Hf. symmetry. replace 10 with (f + (10 - f)) at 3 by lia. apply toQ_rescale; lia. }
  rewrite (Hsc _ fa), (Hsc _ fb) by done. change (Z.of_nat 10) with 10.
  rewrite !Z.mul_assoc.
  unfold toQ, Qcompare; cbn [unscaled scale Qnum Qden].
  rewrite <- Zmult_compare_compat_r by done.
  rewrite Z.gtb_ltb. destruct (Z.compare_spec (sa * ma * 10 ^ (10 - fa)) (sb * mb * 10 ^ (10 - fb)));
    repeat match goal with |- context [?x <? ?y] => destruct (Z.ltb_spec x y) end; try done; lia.
Qed.

Definition sample_order : InternalOrder :=
  mkIOrder "o1" "client-1" (Some "P1") "SUBMITTED" "MARKET" "EURUSD" "1.0000" "0.0000" None
    (Some 0) None.
Definition sample_internal : InternalState :=
  mkInternal [sample_order] [] (Some (mkIAccount "100.00" "100.00" "0" "100" "0" None None)).
Definition sample_provider : ProviderState :=
  mkProvider [] [mkBPosition "X9" "EURUSD" "BUY" "1" "1.1" None]
    (mkBAccount None 100 "100.00" "103.5" "0" "100" "0").

Lemma compareDecimal_exact_witness :
  plain_decimal "-1.5" (-1) 15 1 /\ plain_decimal "2" 1 2 0 /\
  compareDecimal "-1.5" "2" 10 = Ok (toQ (mkED (-1 * 15) 1) ?= toQ (mkED (1 * 2) 0))%Q.
Proof.
  assert (plain_decimal "-1.5" (-1) 15 1) as Ha.
  { apply (plain_decimal_intro _ _ _ _ ["-"%char] ["1"; "."; "5"]%char);
      [done|constructor|done|apply (mant_frac ["1"%char] ["5"%char]); by repeat constructor]. }
  assert (plain_decimal "2" 1 2 0) as Hb.
  { apply (plain_decimal_intro _ _ _ _ [] ["2"%char]);
      [done|constructor|done|apply (mant_int ["2"%char]); by repeat constructor]. }
  split; [done|]. split; [done|]. apply compareDecimal_exact; done || lia.
Defined.

(** [driftExceeds] on plain decimals: the observed value is reported exactly when it
    is more than 0.01 away from the expected one and more than the tolerance (in whole
    basis points) of its magnitude; an expected zero reports any move beyond the floor. *)
Theorem driftExceeds_spec e v se me fe sv mv fv tolerance :
  plain_decimal e se me fe -> plain_decimal v sv mv fv -> 0 <= fe <= 10 -> 0 <= fv <= 10 ->
  exists b, driftExceeds e v tolerance = Ok b /\
    let E := se * (me * 10 ^ (10 - fe)) in
    let V := sv * (mv * 10 ^ (10 - fv)) in
    (b = true <-> 10 ^ 8 < Z.abs (E - V) /\
                  Z.abs E * toleranceBps tolerance < 10000 * Z.abs (E - V)).
Proof.
  intros He Hv Hfe Hfv. unfold driftExceeds.
  rewrite (toScaledBigInt_plain e se me fe 10), (toScaledBigInt_plain v sv mv fv 10) by (done || lia).
  cbn [rbind]. change (Z.of_nat 10) with 10. cbn zeta.
  set (E := se * (me * 10 ^ (10 - fe))). set (V := sv * (mv * 10 ^ (10 - fv))).
  set (bps := toleranceBps tolerance). rewrite !Z.gtb_ltb.
  assert ((if V <? E then E - V else V - E) = Z.abs (E - V)) as ->
    by (destruct (Z.ltb_spec V E); lia).
  assert ((if E <? 0 then - E else E) = Z.abs E) as -> by (destruct (Z.ltb_spec E 0); lia).
  change (1 * 10 ^ (10 - 2)) with (10 ^ 8).
  destruct (Z.eqb_spec (Z.abs (E - V)) 0); [eexists; split; [done|]; split; [done|lia]|].
  destruct (Z.leb_spec (Z.abs (E - V)) (10 ^ 8)); [eexists; split; [done|]; split; [done|lia]|].
  destruct (Z.eqb_spec (Z.abs E) 0) as [->|]; [eexists; split; [done|]; split; [lia|done]|].
  eexists; split; [done|]. rewrite Z.ltb_lt. lia.
Qed.

Lemma driftExceeds_spec_witness :
  driftExceeds "100" "100.6" (5 # 1000) = Ok true /\
  exists b, driftExceeds "100" "100.6" (5 # 1000) = Ok b /\
    (b = true <-> 10 ^ 8 < Z.abs (1 * (100 * 10 ^ (10 - 0)) - 1 * (1006 * 10 ^ (10 - 1))) /\
       Z.abs (1 * (100 * 10 ^ (10 - 0))) * toleranceBps (5 # 1000) <
         10000 * Z.abs (1 * (100 * 10 ^ (10 - 0)) - 1 * (1006 * 10 ^ (10 - 1)))).
Proof.
  split; [vm_compute; reflexivity|].
  apply (driftExceeds_spec "100" "100.6" 1 100 0 1 1006 1 (5 # 1000)); [..|lia|lia].
  - apply (plain_decimal_intro _ _ _ _ [] ["1"; "0"; "0"]%char);
      [done|constructor|done|apply (mant_int ["1"; "0"; "0"]%char); by repeat constructor].
  - apply (plain_decimal_intro _ _ _ _ [] ["1"; "0"; "0"; "."; "6"]%char);
      [done|constructor|done|
       apply (mant_frac ["1"; "0"; "0"]%char ["6"%char]); by repeat constructor].
Defined.

Definition readable (raw : string) : Prop := exists s m f, plain_decimal raw s m f /\ 0 <= f <= 10.

(** Every decimal field the comparator reads is a plain decimal. *)
Record readable_states (i : InternalState) (p : ProviderState) : Prop := {
  rs_orders : Forall (fun o => readable (io_filledQuantity o)) (is_orders i);
  rs_working : Forall (fun b => readable (bo_filledQuantity b)) (ps_orders p);
  rs_account : forall a, is_account i = Some a ->
    Forall readable [ia_balance a; ia_equity a; ia_margin a; ia_freeMargin a; ia_marginLevel a];
  rs_provider :
    let a := ps_account p in
    Forall readable [ba_balance a; ba_equity a; ba_margin a; ba_freeMargin a; ba_marginLevel a] }.

(** ** Specification: what counts as a discrepancy

    Rules on the two snapshots alone.  An amount is its value in units of 10^-10. *)

Record Report := mkReport {
  rp_type : DiscrepancyType; rp_severity : Severity; rp_refType : option RefType;
  rp_refId : option string; rp_provider : option string; rp_client : option string }.

Definition report (c : Candidate) : Report :=
  mkReport (type c) (severity c) (internalRefType c) (internalRefId c) (providerRef c) (clientOrderId c).

Definition units (raw : string) (z : Z) : Prop :=
  exists s m f, plain_decimal raw s m f /\ 0 <= f <= 10 /\ z = s * (m * 10 ^ (10 - f)).

(** The tolerance in basis points, rounded half up. *)
Definition basis_points (tolerance : Q) (b : Z) : Prop :=
  (inject_Z b <= tolerance * 10000 + (1 # 2) < inject_Z b + 1)%Q.

(** More than 0.01 and more than the tolerance of the expected magnitude apart. *)
Definition drifts (tolerance : Q) (expected observed : string) : Prop :=
  exists E V b, units expected E /\ units observed V /\ basis_points tolerance b /\
    10 ^ 8 < Z.abs (E - V) /\ Z.abs E * b < 10000 * Z.abs (E - V).

Inductive money (a : InternalAccount) (p : BrokerAccount) : string -> string -> string -> Prop :=
| money_balance : money a p "balance" (ia_balance a) (ba_balance p)
| money_equity : money a p "equity" (ia_equity a) (ba_equity p)
| money_margin : money a p "margin" (ia_margin a) (ba_margin p)
| money_free : money a p "freeMargin" (ia_freeMargin a) (ba_freeMargin p)
| money_level : money a p "marginLevel" (ia_marginLevel a) (ba_marginLevel p).

(** A known currency or leverage the provider does not confirm. *)
Inductive structural (a : InternalAccount) (p : BrokerAccount) : string -> leaf -> leaf -> Prop :=
| structural_currency c : ia_currency a = Some c -> ba_currency p <> Some c ->
    structural a p "currency" (DStr c) (match ba_currency p with Some x => DStr x | None => DNull end)
| structural_leverage l : ia_leverage a = Some l -> ba_leverage p <> l ->
    structural a p "leverage" (DNum l) (DNum (ba_leverage p)).

Definition drifted (t : Q) (a : InternalAccount) (p : BrokerAccount) (field expected observed : string) : Prop :=
  money a p field expected observed /\ drifts t expected observed.

(** The first of a list with a property. *)
Definition first_with {A} (P : A -> Prop) (l : list A) (x : A) : Prop :=
  exists pre post, l = pre ++ x :: post /\ P x /\ Forall (fun y => ~ P y) pre.

Definition terminal_at_provider (status : string) : Prop :=
  status = "FILLED" \/ status = "CANCELLED" \/ status = "REJECTED" \/ status = "EXPIRED".

(** An order that is live internally and has a provider id. *)
Definition live_as (o : InternalOrder) (pid : string) : Prop :=
  (io_status o = "SUBMITTED" \/ io_status o = "ACKNOWLEDGED" \/ io_status o = "PARTIALLY_FILLED" \/
   io_status o = "RECONCILIATION_PENDING") /\ io_providerOrderId o = Some pid /\ pid <> "".

Definition first_record (p : ProviderState) (pid : string) (b : BrokerOrder) : Prop :=
  first_with (fun b => bo_providerOrderId b = pid) (ps_orders p) b.

Definition open_or_pending (t : InternalTrade) : Prop := it_status t = "OPEN" \/ it_status t = "RECONCILIATION_PENDING".

Definition holds_as (t : InternalTrade) (id : string) : Prop :=
  open_or_pending t /\ id <> "" /\ (it_externalOrderId t = Some id \/ it_externalPositionId t = Some id).

Inductive discrepancy (i : InternalState) (p : ProviderState) (now : Z) (o : Options) : Report -> Prop :=
| disc_duplicate_order pid x y :
    pid <> "" -> first_with (fun o => io_providerOrderId o = Some pid) (is_orders i) x ->
    (exists n m, n <> m /\ is_orders i !! n = Some x /\ is_orders i !! m = Some y) -> io_providerOrderId y = Some pid ->
    discrepancy i p now o
      (mkReport DUPLICATE_PROVIDER_ID CRITICAL (Some ORDER) (Some (io_orderId x)) (Some pid) (Some (io_clientOrderId x)))
| disc_missing_provider x pid :
    x ∈ is_orders i -> live_as x pid -> (forall b, b ∈ ps_orders p -> bo_providerOrderId b <> pid) ->
    (forall b, b ∈ ps_positions p -> bp_externalOrderId b <> pid) ->
    discrepancy i p now o
      (mkReport MISSING_PROVIDER_ORDER WARNING (Some ORDER) (Some (io_orderId x)) (Some pid) (Some (io_clientOrderId x)))
| disc_stale_terminal x pid b :
    x ∈ is_orders i -> live_as x pid -> first_record p pid b -> terminal_at_provider (bo_status b) ->
    discrepancy i p now o
      (mkReport STALE_ORDER_STATE WARNING (Some ORDER) (Some (io_orderId x)) (Some pid) (Some (io_clientOrderId x)))
| disc_unknown_order x pid b :
    x ∈ is_orders i -> live_as x pid -> first_record p pid b -> bo_status b = "UNKNOWN" ->
    discrepancy i p now o
      (mkReport UNKNOWN_PROVIDER_ORDER WARNING (Some ORDER) (Some (io_orderId x)) (Some pid) (Some (io_clientOrderId x)))
| disc_stale_fill x pid b reported recorded :
    x ∈ is_orders i -> live_as x pid -> first_record p pid b ->
    ~ terminal_at_provider (bo_status b) -> bo_status b <> "UNKNOWN" ->
    units (bo_filledQuantity b) reported -> units (io_filledQuantity x) recorded -> recorded < reported ->
    discrepancy i p now o
      (mkReport STALE_ORDER_STATE WARNING (Some ORDER) (Some (io_orderId x)) (Some pid) (Some (io_clientOrderId x)))
| disc_missing_internal b :
    b ∈ ps_orders p ->
    (forall x, x ∈ is_orders i -> io_providerOrderId x = Some (bo_providerOrderId b) -> bo_providerOrderId b = "") ->
    (forall x, x ∈ is_orders i -> bo_clientOrderId b = Some (io_clientOrderId x) -> io_clientOrderId x = "") ->
    discrepancy i p now o
      (mkReport MISSING_INTERNAL_ORDER CRITICAL None None (Some (bo_providerOrderId b)) (bo_clientOrderId b))
| disc_duplicate_position id t u :
    first_with (fun t => holds_as t id) (is_trades i) t -> u ∈ is_trades i -> holds_as u id -> it_tradeId u <> it_tradeId t ->
    discrepancy i p now o (mkReport DUPLICATE_PROVIDER_ID CRITICAL (Some TRADE) (Some (it_tradeId t)) (Some id) None)
| disc_closed t eid :
    t ∈ is_trades i -> open_or_pending t -> it_externalOrderId t = Some eid -> eid <> "" ->
    (forall b, b ∈ ps_positions p -> bp_externalOrderId b <> eid /\ it_externalPositionId t <> Some (bp_externalOrderId b)) ->
    discrepancy i p now o (mkReport POSITION_CLOSED_EXTERNALLY WARNING (Some TRADE) (Some (it_tradeId t)) (Some eid) None)
| disc_unknown_position b :
    b ∈ ps_positions p -> (forall t, t ∈ is_trades i -> ~ holds_as t (bp_externalOrderId b)) ->
    discrepancy i p now o (mkReport UNKNOWN_PROVIDER_POSITION CRITICAL None None (Some (bp_externalOrderId b)) None)
| disc_account_structural a :
    is_account i = Some a -> (exists f x y, structural a (ps_account p) f x y) ->
    discrepancy i p now o (mkReport ACCOUNT_STATE_MISMATCH CRITICAL (Some ACCOUNT) None None None)
| disc_account_drift a :
    is_account i = Some a -> (forall f x y, ~ structural a (ps_account p) f x y) ->
    (exists f x y, drifted (accountDriftTolerance o) a (ps_account p) f x y) ->
    discrepancy i p now o (mkReport ACCOUNT_STATE_MISMATCH WARNING (Some ACCOUNT) None None None)
| disc_unresolved_order x :
    x ∈ is_orders i -> io_status x = "RECONCILIATION_PENDING" ->
    default 0 (io_submittedAt x) + unresolvedGraceMs o <= now ->
    discrepancy i p now o
      (mkReport UNRESOLVED_EXECUTION_RESULT WARNING (Some ORDER) (Some (io_orderId x)) (io_providerOrderId x) (Some (io_clientOrderId x)))
| disc_unresolved_trade t :
    t ∈ is_trades i -> it_status t = "RECONCILIATION_PENDING" ->
    default 0 (it_openedAt t) + unresolvedGraceMs o <= now ->
    discrepancy i p now o
      (mkReport UNRESOLVED_EXECUTION_RESULT WARNING (Some TRADE) (Some (it_tradeId t)) (it_externalOrderId t) None).

(** What an account report says of the fields. *)
Definition account_details (i : InternalState) (p : ProviderState) (o : Options) (d : list (string * detail)) : Prop :=
  exists a drift struct note, is_account i = Some a /\
    d = [("monetaryDrift", DMismatch drift); ("structuralMismatch", DMismatch struct); ("note", Leaf (DStr note))] /\
    (forall f x y, (f, (x, y)) ∈ drift <->
       exists e v, drifted (accountDriftTolerance o) a (ps_account p) f e v /\ x = DStr e /\ y = DStr v) /\
    (forall f x y, (f, (x, y)) ∈ struct <-> structural a (ps_account p) f x y).

(** What a report is about; a comparison names one subject once. *)
Definition subject (r : Report) : DiscrepancyType * string * string :=
  (rp_type r, default "" (rp_refId r), default "" (rp_provider r)).

(** Internal ids are UUIDs: none holds the separator of the code's identity key. *)
Definition plain_id (s : string) : Prop := avoids (ascii_eqb "|") (chars_of s).
Definition plain_ids (i : InternalState) : Prop :=
  Forall (fun x => plain_id (io_orderId x)) (is_orders i) /\ Forall (fun t => plain_id (it_tradeId t)) (is_trades i).

(** *** The code's numbers *)

Lemma units_scaled raw z : units raw z -> toScaledBigInt raw 10 = Ok z.
Proof. intros (s & m & f & Hp & Hf & ->). apply (toScaledBigInt_plain raw s m f 10 Hp). lia. Qed.

Lemma readable_units raw : readable raw -> exists z, units raw z.
Proof. intros (s & m & f & Hp & Hf). by exists (s * (m * 10 ^ (10 - f))), s, m, f. Qed.

Lemma compareDecimal_units a b x y : units a x -> units b y -> compareDecimal a b 10 = Ok (x ?= y).
Proof.
  intros Ha%units_scaled Hb%units_scaled. unfold compareDecimal. rewrite Ha, Hb. cbn [rbind]. f_equal. rewrite Z.gtb_ltb.
  destruct (Z.compare_spec x y); repeat match goal with |- context [?x <? ?y] => destruct (Z.ltb_spec x y) end; done || lia.
Qed.

Lemma toleranceBps_points t b : basis_points t b <-> b = toleranceBps t.
Proof.
  unfold basis_points, toleranceBps. pose proof (Qfloor_le (t * 10000 + (1 # 2))) as H1.
  pose proof (Qlt_floor (t * 10000 + (1 # 2))) as H2. rewrite inject_Z_plus in H2. change (inject_Z 1) with 1%Q in H2.
  split; [|by intros ->]. intros [H3 H4]. set (x := (_ + (1 # 2))%Q) in *.
  pose proof (Qle_lt_trans _ _ _ H3 H2) as H5. pose proof (Qle_lt_trans _ _ _ H1 H4) as H6.
  change 1%Q with (inject_Z 1) in H5, H6. rewrite <- inject_Z_plus in H5, H6. rewrite <- Zlt_Qlt in H5, H6. lia.
Qed.

Lemma driftExceeds_drifts e v t : readable e -> readable v ->
  exists b, driftExceeds e v t = Ok b /\ (b = true <-> drifts t e v).
Proof.
  intros (se & me & fe & He & Hfe) (sv & mv & fv & Hv & Hfv).
  destruct (driftExceeds_spec e v se me fe sv mv fv t He Hv Hfe Hfv) as (b & Hb & Hs). exists b. split; [done|].
  rewrite Hs. split.
  - intros [H1 H2]. do 3 eexists. split; [by exists se, me, fe|]. split; [by exists sv, mv, fv|].
    split; [by apply toleranceBps_points|]. done.
  - intros (E & V & x & HE & HV & ->%toleranceBps_points & H1 & H2). apply units_scaled in HE, HV.
    rewrite (toScaledBigInt_plain e se me fe 10 He) in HE by lia. rewrite (toScaledBigInt_plain v sv mv fv 10 Hv) in HV by lia.
    injection HE as <-. injection HV as <-. done.
Qed.

(** *** The rules of the loops are the specification *)

Lemma first_with_find {A} (P : A -> Prop) (f : A -> bool) l x :
  (forall y, f y = true <-> P y) -> List.find f l = Some x <-> first_with P l x.
Proof.
  intros Hf. unfold first_with. induction l as [|y l IH]; simpl.
  { split; [done|]. by intros ([|? ?] & ? & ? & _). }
  destruct (f y) eqn:Hy.
  - apply Hf in Hy. split.
    + intros [= <-]. by exists [], l.
    + intros ([|z pre] & post & [= -> ->] & Hx & Hpre); [done|]. by apply Forall_cons in Hpre as [? _].
  - rewrite IH. assert (~ P y) as Hn by (rewrite <- Hf; by rewrite Hy). split.
    + intros (pre & post & -> & Hx & Hpre). exists (y :: pre), post. split; [done|]. split; [done|]. by constructor.
    + intros ([|z pre] & post & [= -> ->] & Hx & Hpre); [done|]. apply Forall_cons in Hpre as [_ Hpre]. by exists pre, post.
Qed.

Lemma first_with_filter {A} (P : A -> Prop) `{!forall x, Decision (P x)} l x :
  first_with P l x <-> exists rest, filter P l = x :: rest.
Proof.
  rewrite <- (first_with_find P (fun x => bool_decide (P x))) by (intros; apply bool_decide_eq_true).
  induction l as [|y l IH]; [split; [done|by intros []]|]. rewrite filter_cons. simpl.
  destruct (decide (P y)) as [Hy|Hy]; [rewrite bool_decide_eq_true_2 by done|by rewrite bool_decide_eq_false_2 by done].
  split; [intros [= ->]; by eexists|by intros (? & [= -> _])].
Qed.

(** Two matches at different places are two elements of the filtered list. *)
Lemma filter_two {A} (P : A -> Prop) `{!forall x, Decision (P x)} l x rest :
  filter P l = x :: rest -> (exists y l', rest = y :: l') <->
  exists y n m, n <> m /\ l !! n = Some x /\ l !! m = Some y /\ P y.
Proof.
  revert rest. induction l as [|z l IH]; intros rest; [done|]. rewrite filter_cons. destruct (decide (P z)) as [Hz|Hz].
  - intros [= -> Hr]. split.
    + intros (y & l' & ->). assert (y ∈ filter P l) as [Hy [m Hm]%list_elem_of_lookup]%list_elem_of_filter by (rewrite Hr; by left).
      exists y, 0%nat, (S m). repeat split; done.
    + intros (y & n & m & Hne & Hn & Hm & Hy). destruct rest as [|y' l']; [|eauto]. exfalso.
      assert (forall k w, l !! k = Some w -> ~ P w) as Hno.
      { intros k w Hk%list_elem_of_lookup_2 Hw. assert (w ∈ filter P l) as Hin by (by apply list_elem_of_filter).
        rewrite Hr in Hin. by apply not_elem_of_nil in Hin. }
      destruct m as [|m]; [|by apply (Hno m y)]. destruct n as [|n]; [done|]. by apply (Hno n x).
  - intros Hr. rewrite (IH _ Hr). split.
    + intros (y & n & m & ? & ? & ? & ?). exists y, (S n), (S m). repeat split; try done. lia.
    + intros (y & [|n] & [|m] & Hne & Hn & Hm & Hy); try done; simpl in Hn, Hm; simplify_eq.
      * exfalso. assert (x ∈ filter P l) as [? _]%list_elem_of_filter by (rewrite Hr; by left). done.
      * exists y, n, m. repeat split; try done. lia.
Qed.

Lemma expected_live x pid : expected_at_provider x pid <-> live_as x pid.
Proof.
  unfold expected_at_provider, live_as, PROVIDER_EXPECTED_ORDER_STATUSES. rewrite !elem_of_cons, elem_of_nil. tauto.
Qed.

Lemma terminal_elem st : st ∈ providerTerminal <-> terminal_at_provider st.
Proof. unfold providerTerminal, terminal_at_provider. rewrite !elem_of_cons, elem_of_nil. tauto. Qed.

Lemma working_first p pid b : working_record p pid b <-> first_record p pid b.
Proof. apply first_with_find. intros y. apply bool_decide_eq_true. Qed.

Lemma first_record_id p pid b : first_record p pid b -> bo_providerOrderId b = pid /\ b ∈ ps_orders p.
Proof. intros (pre & post & -> & Hb & _). split; [done|]. set_solver. Qed.

Lemma holding_open t : it_status t ∈ POSITION_HOLDING_TRADE_STATUSES <-> open_or_pending t.
Proof. unfold POSITION_HOLDING_TRADE_STATUSES, open_or_pending. rewrite !elem_of_cons, elem_of_nil. tauto. Qed.

Lemma claims_holds t id : claims_position t id <-> holds_as t id.
Proof. unfold claims_position, holds_as. by rewrite holding_open. Qed.

Lemma absent_at_provider p pid : ~ at_provider p pid <->
  (forall b, b ∈ ps_orders p -> bo_providerOrderId b <> pid) /\ (forall b, b ∈ ps_positions p -> bp_externalOrderId b <> pid).
Proof.
  unfold at_provider. rewrite !list_elem_of_fmap. split.
  - intros Hn. split; intros b Hb <-; apply Hn; [left|right]; by exists b.
  - intros [H1 H2] [(b & -> & Hb)|(b & -> & Hb)]; [by eapply H1|by eapply H2].
Qed.

Lemma duplicate_order_report i c :
  (exists pid x y rest, pid <> "" /\ claims_order i pid = x :: y :: rest /\ c ∈ duplicate_order (pid, claims_order i pid)) ->
  exists pid x y, pid <> "" /\ first_with (fun o => io_providerOrderId o = Some pid) (is_orders i) x /\
    (exists n m, n <> m /\ is_orders i !! n = Some x /\ is_orders i !! m = Some y) /\ io_providerOrderId y = Some pid /\
    report c = mkReport DUPLICATE_PROVIDER_ID CRITICAL (Some ORDER) (Some (io_orderId x)) (Some pid) (Some (io_clientOrderId x)).
Proof.
  intros (pid & x & y & rest & Hp & Hcl & Hc). pose proof Hcl as Hcl'. unfold claims_order in Hcl'.
  destruct (proj1 (filter_two _ _ _ _ Hcl')) as (y' & n & m & Hne & Hn & Hm & Hy); [by eexists _, _|].
  exists pid, x, y'. split; [done|]. split; [refine (proj2 (first_with_filter _ _ _) _); by eexists|].
  split; [by exists n, m|]. split; [done|]. rewrite Hcl in Hc. by apply list_elem_of_singleton in Hc as ->.
Qed.

Lemma report_duplicate_order i pid x y :
  pid <> "" -> first_with (fun o => io_providerOrderId o = Some pid) (is_orders i) x ->
  (exists n m, n <> m /\ is_orders i !! n = Some x /\ is_orders i !! m = Some y) -> io_providerOrderId y = Some pid ->
  exists z rest c, claims_order i pid = x :: z :: rest /\ c ∈ duplicate_order (pid, claims_order i pid) /\
    report c = mkReport DUPLICATE_PROVIDER_ID CRITICAL (Some ORDER) (Some (io_orderId x)) (Some pid) (Some (io_clientOrderId x)).
Proof.
  intros Hp Hx (n & m & Hne & Hn & Hm) Hy. destruct (proj1 (first_with_filter _ _ _) Hx) as [rest Hf].
  destruct (proj2 (filter_two _ _ _ _ Hf)) as (z & l & ->); [by exists y, n, m|].
  exists z, l. eexists. unfold claims_order. rewrite Hf. split; [done|]. split; [by left|done].
Qed.

#[global] Instance holds_as_dec t id : Decision (holds_as t id).
Proof. unfold holds_as, open_or_pending. apply _. Defined.

(** The trades that hold an id, by the trade. *)
Lemma pushed_first id ts t : (exists l, pushed id (position_ids ts) = t :: l) <-> first_with (fun t => holds_as t id) ts t.
Proof.
  refine (iff_trans _ (iff_sym (first_with_filter (fun t => holds_as t id) ts t))).
  unfold position_ids. induction ts as [|x ts IH]; [split; intros [? ?]; done|].
  rewrite filter_cons. unfold holds_position. cbn [List.filter].
  destruct (has POSITION_HOLDING_TRADE_STATUSES (it_status x)) eqn:Hh.
  - apply has_iff, holding_open in Hh. cbn [fmap list_fmap mjoin list_join]. unfold pushed at 1. rewrite filter_app, fmap_app.
    set (mine := (filter _ ((fun id => (id, x)) <$> omap truthy_id [it_externalOrderId x; it_externalPositionId x])).*2).
    assert (Forall (fun y => y = x) mine /\ (mine <> [] <-> holds_as x id)) as [Hall Hmine].
    { unfold mine, holds_as. clear -Hh.
      assert (forall a : option string, truthy_id a = Some id <-> a = Some id /\ id <> "") as Ht by (intros; apply truthy_id_some).
      cbn [omap list_omap]. pose proof (Ht (it_externalOrderId x)) as H1. pose proof (Ht (it_externalPositionId x)) as H2.
      destruct (truthy_id (it_externalOrderId x)) as [a|], (truthy_id (it_externalPositionId x)) as [b|];
        cbn [fmap list_fmap]; rewrite ?filter_cons; cbn [fst];
        repeat match goal with |- context [decide (?a = ?b)] => destruct (decide (a = b)); subst end;
        cbn [filter list_filter fmap list_fmap snd]; (split; [by repeat constructor|]); naive_solver. }
    clearbody mine. destruct (decide (holds_as x id)) as [Hx|Hx].
    + apply Hmine in Hx. destruct mine as [|z mine]; [done|]. apply Forall_cons in Hall as [-> _]. simpl.
      split; intros (? & [= <- _]); by eexists.
    + destruct mine as [|z mine]; [|by destruct Hx; apply Hmine]. simpl. exact IH.
  - apply has_false in Hh. rewrite decide_False; [exact IH|]. intros (H & _). by apply Hh, holding_open.
Qed.

Lemma pushed_elem id ts t : t ∈ pushed id (position_ids ts) <-> t ∈ ts /\ holds_as t id.
Proof.
  unfold pushed. rewrite <- claims_holds, <- position_ids_elem, list_elem_of_fmap. split.
  - intros ([k u] & -> & [Hk Hin]%list_elem_of_filter). simpl in *. by subst.
  - intros Hin. exists (id, t). split; [done|]. by apply list_elem_of_filter.
Qed.

Lemma several_ids (l : list InternalTrade) t :
  (1 < length (remove_dups (it_tradeId <$> t :: l)))%nat <-> exists u, u ∈ t :: l /\ it_tradeId u <> it_tradeId t.
Proof.
  set (ids := it_tradeId <$> t :: l). assert (it_tradeId t ∈ remove_dups ids) as Ht by (apply elem_of_remove_dups; by left).
  pose proof (NoDup_remove_dups ids) as Hnd. split.
  - intros Hl. destruct (remove_dups ids) as [|a [|b r]] eqn:E; [simpl in Hl; lia..|].
    assert (exists z, z ∈ remove_dups ids /\ z <> it_tradeId t) as (z & Hz & Hne).
    { rewrite E. destruct (decide (a = it_tradeId t)) as [->|]; [|exists a; split; [by left|done]].
      exists b. split; [right; by left|]. intros ->. apply NoDup_cons in Hnd as [Hnd _]. apply Hnd. by left. }
    rewrite elem_of_remove_dups in Hz. apply list_elem_of_fmap in Hz as (u & -> & Hu). by exists u.
  - intros (u & Hu & Hne). assert (it_tradeId u ∈ remove_dups ids) as Hin
      by (apply elem_of_remove_dups; by apply list_elem_of_fmap_2).
    destruct (remove_dups ids) as [|a [|b r]]; [by apply not_elem_of_nil in Ht| |simpl; lia].
    apply list_elem_of_singleton in Ht, Hin. congruence.
Qed.

Lemma duplicate_position_report id ts c :
  c ∈ duplicate_position (id, pushed id (position_ids ts)) ->
  exists t u, first_with (fun t => holds_as t id) ts t /\ u ∈ ts /\ holds_as u id /\ it_tradeId u <> it_tradeId t /\
    report c = mkReport DUPLICATE_PROVIDER_ID CRITICAL (Some TRADE) (Some (it_tradeId t)) (Some id) None.
Proof.
  destruct (pushed id (position_ids ts)) as [|t l] eqn:E; simpl; [by intros ?%not_elem_of_nil|].
  case_bool_decide as Hl; [|by intros ?%not_elem_of_nil]. intros ->%list_elem_of_singleton.
  apply several_ids in Hl as (u & Hu & Hne). rewrite <- E in Hu. apply pushed_elem in Hu as [? ?].
  exists t, u. split; [refine (proj1 (pushed_first _ _ _) _); by eexists|done].
Qed.

Lemma report_duplicate_position id ts t u :
  first_with (fun t => holds_as t id) ts t -> u ∈ ts -> holds_as u id -> it_tradeId u <> it_tradeId t ->
  exists c, c ∈ duplicate_position (id, pushed id (position_ids ts)) /\
    report c = mkReport DUPLICATE_PROVIDER_ID CRITICAL (Some TRADE) (Some (it_tradeId t)) (Some id) None.
Proof.
  intros [l E]%pushed_first Hu Hh Hne. assert (u ∈ pushed id (position_ids ts)) as Hin by (by apply pushed_elem).
  rewrite E in Hin |- *. eexists. unfold duplicate_position. rewrite bool_decide_eq_true_2; [split; [by left|done]|].
  apply several_ids. by exists u.
Qed.

Lemma readable_scaled raw : readable raw -> exists z, toScaledBigInt raw 10 = Ok z.
Proof.
  intros (s & m & f & Hp & Hf). eexists. apply (toScaledBigInt_plain raw s m f 10 Hp). lia.
Qed.

Lemma driftExceeds_total e v t : readable e -> readable v -> exists b, driftExceeds e v t = Ok b.
Proof.
  intros (se & me & fe & He & ?) (sv & mv & fv & Hv & ?). unfold driftExceeds.
  rewrite (toScaledBigInt_plain e se me fe 10), (toScaledBigInt_plain v sv mv fv 10) by (done || lia).
  cbn [rbind]. cbn zeta.
  repeat match goal with |- context [if ?b then Ok _ else _] => destruct b; [by eexists|] end.
  by eexists.
Qed.

Lemma collect_total {A B} (f : A -> jsres (list B)) l :
  Forall (fun x => exists a, f x = Ok a) l -> exists out, collect f l = Ok out.
Proof.
  induction 1 as [|x l [a Ha] _ [out IH]]; simpl; [by eexists|]. rewrite Ha, IH. by eexists.
Qed.

Lemma compareOrders_total i p :
  readable_states i p -> exists out, compareOrders (is_orders i) (ps_orders p) (ps_positions p) = Ok out.
Proof.
  intros [Ho Hb _ _]. unfold compareOrders.
  destruct (collect_total (compare_internal_order (ps_orders p) (ps_positions p)) (is_orders i))
    as [cmp ->]; [|by eexists].
  eapply Forall_impl; [exact Ho|]. intros o Hr. unfold compare_internal_order.
  destruct (negb _); [by eexists|]. destruct (io_providerOrderId o) as [pid|]; [|by eexists].
  case_bool_decide; [by eexists|]. destruct (negb _); [by eexists|].
  destruct (List.find _ _) as [b|] eqn:Hf; [|by eexists].
  apply List.find_some in Hf as [Hin _]. apply list_elem_of_In in Hin.
  unfold checkStaleOrderState, compareDecimal.
  destruct (has _ _); [by eexists|]. case_bool_decide; [by eexists|].
  destruct (readable_scaled _ (proj1 (Forall_forall _ _) Hb b Hin)) as [zb ->].
  destruct (readable_scaled _ Hr) as [zo ->]. by eexists.
Qed.

Lemma compareAccount_total i p o :
  readable_states i p -> exists out, compareAccount (is_account i) (ps_account p) o = Ok out.
Proof.
  intros [_ _ Ha Hp]. destruct (is_account i) as [a|]; [|by eexists].
  specialize (Ha a eq_refl). cbn zeta in Hp. rewrite !Forall_cons in Ha, Hp.
  assert (exists d, account_drift a (ps_account p) (accountDriftTolerance o) = Ok d) as [d Hd].
  { apply collect_total. destruct_and!.
    repeat (apply Forall_cons; split;
      [edestruct driftExceeds_total as [b ->]; [eassumption|eassumption|]; by eexists|]).
    constructor. }
  simpl. rewrite Hd. cbn [rbind]. destruct (_ && _); by eexists.
Qed.

(** a comparison of readable snapshots always returns: no field makes it throw. *)
Theorem compareStates_total i p now o :
  readable_states i p -> exists out, compareStates i p now o = Ok out.
Proof.
  intros Hr. unfold compareStates, detections.
  destruct (compareOrders_total i p Hr) as [ords ->].
  destruct (compareAccount_total i p o Hr) as [acc ->]. by eexists.
Qed.

(** *** The account rule *)

Definition readable_account (a : InternalAccount) (p : BrokerAccount) : Prop :=
  Forall readable [ia_balance a; ia_equity a; ia_margin a; ia_freeMargin a; ia_marginLevel a] /\
  Forall readable [ba_balance p; ba_equity p; ba_margin p; ba_freeMargin p; ba_marginLevel p].

Lemma account_drift_elem a p t d f x y :
  readable_account a p -> account_drift a p t = Ok d ->
  (f, (x, y)) ∈ d <-> exists e v, drifted t a p f e v /\ x = DStr e /\ y = DStr v.
Proof.
  intros [Ha Hp] Hd. rewrite !Forall_cons in Ha, Hp. rewrite (collect_elem _ _ _ Hd). unfold drifted. split.
  - intros ([[f' e] v] & l & Hin & Hf & Hl). assert (money a p f' e v /\ readable e /\ readable v) as (Hm & He & Hv).
    { rewrite !elem_of_cons, elem_of_nil in Hin. destruct_and!. destruct_or?; simplify_eq; repeat (split || constructor || done). }
    destruct (driftExceeds_drifts e v t He Hv) as (b & Hb & Hs). rewrite Hb in Hf. cbn [rbind] in Hf.
    destruct b; simplify_eq; [|by apply not_elem_of_nil in Hl]. apply list_elem_of_singleton in Hl. simplify_eq.
    exists e, v. by rewrite <- Hs.
  - intros (e & v & [Hm Hd'] & -> & ->). assert (readable e /\ readable v) as [He Hv] by (destruct_and!; by destruct Hm).
    destruct (driftExceeds_drifts e v t He Hv) as (b & Hb & Hs). apply Hs in Hd' as ->.
    exists (f, e, v), [(f, (DStr e, DStr v))]. rewrite Hb. split; [|split; [done|by left]].
    rewrite !elem_of_cons. destruct Hm; tauto.
Qed.

Lemma account_structural_elem a p f x y : (f, (x, y)) ∈ account_structural a p <-> structural a p f x y.
Proof.
  unfold account_structural. rewrite elem_of_app. split.
  - intros [H|H].
    + destruct (ia_currency a) as [c|] eqn:Hc; [|by apply not_elem_of_nil in H]. case_bool_decide; [by apply not_elem_of_nil in H|].
      apply list_elem_of_singleton in H. simplify_eq. unfold dstr, from_option. by apply structural_currency.
    + destruct (ia_leverage a) as [l|] eqn:Hl; [|by apply not_elem_of_nil in H].
      destruct (Z.eqb_spec l (ba_leverage p)); [by apply not_elem_of_nil in H|].
      apply list_elem_of_singleton in H. simplify_eq. by apply structural_leverage.
  - intros [c Hc Hne|l Hl Hne]; [left; rewrite Hc, bool_decide_eq_false_2 by done; by left|].
    right. rewrite Hl. destruct (Z.eqb_spec l (ba_leverage p)); [congruence|by left].
Qed.

Lemma nonempty_elem {A B C} (l : list (A * (B * C))) : l <> [] <-> exists f x y, (f, (x, y)) ∈ l.
Proof.
  split; [|by intros (f & x & y & H) ->; apply not_elem_of_nil in H].
  destruct l as [|[f [x y]] l]; [done|]. intros _. exists f, x, y. by left.
Qed.

Definition account_level (s : Severity) : Report := mkReport ACCOUNT_STATE_MISMATCH s (Some ACCOUNT) None None None.

Lemma account_reported i p o a c :
  readable_states i p -> is_account i = Some a -> compareAccount (Some a) (ps_account p) o = Ok [c] ->
  account_details i p o (details c) /\
  ((report c = account_level CRITICAL /\ exists f x y, structural a (ps_account p) f x y) \/
   (report c = account_level WARNING /\ (forall f x y, ~ structural a (ps_account p) f x y) /\
    exists f x y, drifted (accountDriftTolerance o) a (ps_account p) f x y)).
Proof.
  intros Hr Ha (d & Hd & H)%rbind_ok. assert (readable_account a (ps_account p)) as Hra by (split; [by eapply rs_account|apply Hr]).
  pose proof (fun f x y => account_drift_elem _ _ _ _ f x y Hra Hd) as Hde.
  pose proof (account_structural_elem a (ps_account p)) as Hse. cbv zeta in H. set (st := account_structural _ _) in *. clearbody st.
  destruct (decide (d = [] /\ st = [])) as [[-> ->]|Hne]; [done|].
  assert (bool_decide (d = []) && bool_decide (st = []) = false) as Hb.
  { apply andb_false_iff. rewrite !bool_decide_eq_false. destruct (decide (d = [])); [right|by left]. tauto. }
  rewrite Hb in H. injection H as <-. split.
  { exists a, d, st. eexists. split; [done|]. split; [reflexivity|]. split; intros; [apply Hde|apply Hse]. }
  clear Hb. unfold report. cbn [type severity internalRefType internalRefId providerRef clientOrderId]. case_bool_decide as Hst.
  - right. split; [done|]. subst st. split; [by intros f x y ?%Hse%not_elem_of_nil|].
    destruct (proj1 (nonempty_elem d)) as (f & x & y & (e & v & Hin & _ & _)%Hde); [tauto|]. by exists f, e, v.
  - left. split; [done|]. apply nonempty_elem in Hst as (f & x & y & Hin%Hse). by exists f, x, y.
Qed.

Lemma account_complete i p o a :
  readable_states i p -> is_account i = Some a ->
  (exists f x y, structural a (ps_account p) f x y) \/ (exists f x y, drifted (accountDriftTolerance o) a (ps_account p) f x y) ->
  exists c, compareAccount (Some a) (ps_account p) o = Ok [c].
Proof.
  intros Hr Ha Hx. destruct (compareAccount_total i p o Hr) as [out Hout]. rewrite Ha in Hout. rewrite Hout.
  pose proof Hout as (d & Hd & H)%rbind_ok.
  assert (readable_account a (ps_account p)) as Hra by (split; [by eapply rs_account|apply Hr]).
  pose proof (fun f x y => account_drift_elem _ _ _ _ f x y Hra Hd) as Hde.
  cbv zeta in H. destruct (bool_decide (d = []) && bool_decide (account_structural a (ps_account p) = [])) eqn:Hb; injection H as <-; [|by eexists]. exfalso.
  apply andb_true_iff in Hb as [Hb1%bool_decide_eq_true Hb2%bool_decide_eq_true]. subst d. destruct Hx as [(f & x & y & Hs)|(f & x & y & Hs)].
  - apply account_structural_elem in Hs. rewrite Hb2 in Hs. by apply not_elem_of_nil in Hs.
  - assert ((f, (DStr x, DStr y)) ∈ @nil (string * (leaf * leaf))) as ?%not_elem_of_nil by (apply Hde; by exists x, y). done.
Qed.

(** *** What is detected is a discrepancy, and conversely *)

Lemma detected_discrepancy i p now o c :
  readable_states i p -> detected i p now o c -> discrepancy i p now o (report c).
Proof.
  intros Hr [pid x y rest c0 Hp Hcl Hc|x pid Hx He Hn|x pid b Hx He Hb Ht|x pid b Hx He Hb Hu
           |x pid b Hx He Hb Ht Hu Hgt|b Hb Hi Hcl|id c0 Hc|t eid Ht Hst He Hne Hn Hn'|b Hb Hn
           |a c0 Ha Hc|x Hx [Ho1 Ho2]|t Ht [Ho1 Ho2]];
    rewrite ?expected_live, ?working_first, ?terminal_elem, ?holding_open in *;
    try (pose proof (first_record_id _ _ _ Hb) as [Hid Hin]; unfold report; cbn; rewrite Hid).
  - destruct (duplicate_order_report i c0) as (pid' & x' & y' & ? & ? & ? & ? & ->); [by eauto 10|].
    by eapply disc_duplicate_order.
  - apply absent_at_provider in Hn as [? ?]. by apply disc_missing_provider.
  - by eapply disc_stale_terminal.
  - by eapply disc_unknown_order.
  - destruct (readable_units _ (proj1 (Forall_forall _ _) (rs_working _ _ Hr) b Hin)) as [zb Hzb].
    destruct (readable_units _ (proj1 (Forall_forall _ _) (rs_orders _ _ Hr) x Hx)) as [zx Hzx].
    rewrite (compareDecimal_units _ _ _ _ Hzb Hzx) in Hgt. injection Hgt as Hgt%Z.compare_gt_iff.
    by eapply disc_stale_fill.
  - by apply disc_missing_internal.
  - destruct (duplicate_position_report _ _ _ Hc) as (t & u & ? & ? & ? & ? & ->). by eapply disc_duplicate_position.
  - apply disc_closed; [done..|]. intros b Hb. rewrite list_elem_of_fmap in Hn. split.
    + intros Heq. apply Hn. by exists b.
    + intros He'%Hn'. apply He'. by apply list_elem_of_fmap_2.
  - apply disc_unknown_position; [done|]. intros t Ht Hh%claims_holds. by apply (Hn t).
  - destruct (account_reported i p o a c0 Hr Ha Hc) as [_ [[-> Hs]|(-> & Hs & Hd)]];
      [by eapply disc_account_structural|by eapply disc_account_drift].
  - apply disc_unresolved_order; [done..|lia].
  - apply disc_unresolved_trade; [done..|lia].
Qed.

Lemma discrepancy_detected i p now o r :
  readable_states i p -> discrepancy i p now o r -> exists c, detected i p now o c /\ report c = r.
Proof.
  intros Hr [pid x y Hp Hf Hnm Hy|x pid Hx He Hn1 Hn2|x pid b Hx He Hb Ht|x pid b Hx He Hb Hu
           |x pid b zb zx Hx He Hb Ht Hu Hzb Hzx Hgt|b Hb Hi Hcl|id t u Hf Hu Hh Hne|t eid Ht Hst He Hne Hn|b Hb Hn
           |a Ha Hs|a Ha Hs Hd|x Hx Ho1 Ho2|t Ht Ho1 Ho2];
    try (pose proof (first_record_id _ _ _ Hb) as [Hid Hin]);
    rewrite <- ?expected_live, <- ?working_first, <- ?terminal_elem, <- ?holding_open in *.
  - destruct (report_duplicate_order i pid x y) as (z & rest & c & Hcl & Hc & Hrep); [done..|]. exists c.
    split; [by eapply det_duplicate_order|done].
  - exists (missing_provider_order x pid). split; [|done]. apply det_missing_provider; [done..|by apply absent_at_provider].
  - exists (stale_terminal x b). split; [by eapply det_stale_terminal|]. unfold report. cbn. by rewrite Hid.
  - exists (unknown_provider_order x b). split; [by eapply det_unknown_order|]. unfold report. cbn. by rewrite Hid.
  - exists (stale_fill x b). split; [|unfold report; cbn; by rewrite Hid].
    eapply det_stale_fill; [done..|]. rewrite (compareDecimal_units _ _ _ _ Hzb Hzx). f_equal. by apply Z.compare_gt_iff.
  - exists (missing_internal_order b). split; [by apply det_missing_internal|done].
  - destruct (report_duplicate_position id (is_trades i) t u) as (c & Hc & Hrep); [done..|]. exists c.
    split; [by eapply det_duplicate_position|done].
  - exists (closed_externally t eid). split; [|done]. apply det_closed; [done..| |].
    + intros (b & -> & Hb)%list_elem_of_fmap. by destruct (Hn b Hb).
    + intros e He' (b & -> & Hb)%list_elem_of_fmap. by destruct (Hn b Hb).
  - exists (unknown_position b). split; [|done]. apply det_unknown_position; [done|]. intros t Ht Hh%claims_holds. by apply (Hn t).
  - destruct (account_complete i p o a) as [c Hc]; [done..|by left|]. exists c. split; [by eapply det_account|].
    destruct (account_reported i p o a c Hr Ha Hc) as [_ [[-> _]|(_ & Hno & _)]]; [done|].
    destruct Hs as (f & x & y & Hs). by destruct (Hno f x y).
  - destruct (account_complete i p o a) as [c Hc]; [done..|by right|]. exists c. split; [by eapply det_account|].
    destruct (account_reported i p o a c Hr Ha Hc) as [_ [[_ (f & x & y & Hs')]|(-> & _ & _)]]; [by destruct (Hs f x y)|done].
  - exists (unresolved_order x). split; [|done]. apply det_unresolved_order; [done|]. split; [done|lia].
  - exists (unresolved_trade t). split; [|done]. apply det_unresolved_trade; [done|]. split; [done|lia].
Qed.

(** *** The identity key names the subject *)

Lemma bar_split a b r r' : plain_id a -> plain_id b -> a +:+ "|" +:+ r = b +:+ "|" +:+ r' -> a = b /\ r = r'.
Proof.
  unfold plain_id. revert b. induction a as [|x a IH]; intros [|y b] Ha Hb Heq.
  - split; [done|by injection Heq].
  - injection Heq as <- _. by apply Forall_cons in Hb as [Hb _].
  - injection Heq as -> _. by apply Forall_cons in Ha as [Ha _].
  - injection Heq as -> Heq. apply Forall_cons in Ha as [_ Ha]. apply Forall_cons in Hb as [_ Hb].
    by destruct (IH b Ha Hb Heq) as [-> ->].
Qed.

Lemma type_name_plain t : plain_id (type_name t).
Proof. destruct t; by repeat constructor. Qed.

Lemma identity_subject c c' : plain_id (default "" (internalRefId c)) -> plain_id (default "" (internalRefId c')) ->
  identity_key c = identity_key c' <-> subject (report c) = subject (report c').
Proof.
  intros Hc Hc'. unfold subject, identity_key. cbn [report rp_type rp_refId rp_provider]. split.
  - intros Heq. pose proof (identity_key_type c c' Heq) as Ht.
    apply bar_split in Heq as [_ Heq]; [|apply type_name_plain..]. apply bar_split in Heq as [-> ->]; [|done..]. by rewrite Ht.
  - by intros [= -> -> ->].
Qed.

Lemma discrepancy_plain i p now o r : plain_ids i -> discrepancy i p now o r -> plain_id (default "" (rp_refId r)).
Proof.
  intros [Ho Ht] Hd. pose proof (proj1 (Forall_forall _ _) Ho) as Hfo. pose proof (proj1 (Forall_forall _ _) Ht) as Hft.
  assert (plain_id "") as H0 by constructor.
  destruct Hd as [? x y Hp Hf Hnm Hy| | | | | |id t u (pre & post & He & _) Hu Hh Hne| | | | | |]; cbn; auto.
  - destruct Hf as (pre & post & He & _). apply Hfo. rewrite He. set_solver.
  - apply Hft. rewrite He. set_solver.
Qed.

Lemma compareStates_total_witness :
  let i := mkInternal [] [] None in
  let p := mkProvider [] [] (mkBAccount None 1 "0" "0" "0" "0" "0") in
  readable_states i p /\ exists out, compareStates i p 0 DEFAULT_COMPARATOR_OPTIONS = Ok out.
Proof.
  assert (readable "0") as H0.
  { exists 1, 0, 0. split; [|lia].
    apply (plain_decimal_intro _ _ _ _ [] ["0"%char]);
      [done|constructor|done|apply (mant_int ["0"%char]); by repeat constructor]. }
  assert (readable_states (mkInternal [] [] None)
            (mkProvider [] [] (mkBAccount None 1 "0" "0" "0" "0" "0"))) as Hr
    by (constructor; [constructor|constructor|done|repeat constructor; done]).
  split; [exact Hr|]. apply compareStates_total. exact Hr.
Defined.

(** C37: a comparison of readable snapshots returns, and reports exactly the discrepancies of
    the specification: each candidate is one, with its type, severity and references; each
    discrepancy has a candidate of its type and references; and no subject is reported twice.
    An account report names exactly the monetary fields that drift, with both values, and
    exactly the structural mismatches. *)
Theorem compareStates_refines i p now o :
  readable_states i p -> plain_ids i ->
  exists out, compareStates i p now o = Ok out /\
    (forall c, c ∈ out -> discrepancy i p now o (report c)) /\
    (forall r, discrepancy i p now o r -> exists c, c ∈ out /\ subject (report c) = subject r) /\
    NoDup ((fun c => subject (report c)) <$> out) /\
    (forall c, c ∈ out -> type c = ACCOUNT_STATE_MISMATCH -> account_details i p o (details c)).
Proof.
  intros Hr Hi. destruct (compareStates_total i p now o Hr) as [out Hout]. exists out. split; [done|].
  pose proof Hout as (all & Hall & [= <-])%rbind_ok.
  assert (forall c, c ∈ dedup ∅ all -> detected i p now o c) as Hin
    by (intros c [Hc _]%dedup_elem; by apply (detections_spec i p now o all)).
  assert (forall c, detected i p now o c -> plain_id (default "" (internalRefId c))) as Hpl
    by (intros c Hc%detected_discrepancy; [by apply (discrepancy_plain i p now o) in Hc|done]).
  split; [|split; [|split]].
  - intros c Hc. by apply detected_discrepancy, Hin.
  - intros r (c & Hc & <-)%discrepancy_detected; [|done]. pose proof Hc as Hca.
    apply (detections_spec i p now o all) in Hca; [|done].
    destruct (dedup_kept ∅ all c Hca) as [?|(c' & Hc' & Hk)]; [set_solver|]. exists c'. split; [done|].
    apply identity_subject; [by apply Hpl, Hin|by apply Hpl|done].
  - pose proof (dedup_nodup ∅ all) as Hnd. revert Hin Hnd. generalize (dedup ∅ all) as l. clear -Hpl. intros l Hin.
    induction l as [|c l IH]; [constructor|]. rewrite !fmap_cons, !NoDup_cons. intros [Hn Hnd].
    split; [|apply IH; [|done]; intros; apply Hin; by right]. intros (c' & Hk & Hc')%list_elem_of_fmap. apply Hn.
    apply list_elem_of_fmap. exists c'. split; [|done]. apply identity_subject; [..|done]; apply Hpl, Hin; [by left|by right].
  - intros c Hc Ht. apply Hin in Hc. destruct Hc; try discriminate Ht.
    + destruct (duplicate_order_report i c) as (? & ? & ? & _ & _ & _ & _ & Hrep); [by eauto 10|].
      unfold report in Hrep. congruence.
    + destruct (duplicate_position_report id (is_trades i) c) as (? & ? & _ & _ & _ & _ & Hrep); [done|]. unfold report in Hrep. congruence.
    + by eapply account_reported.
Qed.

(** Two drifting amounts, a leverage the provider does not confirm and a duplicated position. *)
Definition drift_internal : InternalState :=
  mkInternal [sample_order]
    [mkITrade "t1" (Some "P2") None "OPEN" "EURUSD" "1" None None; mkITrade "t2" (Some "P2") None "OPEN" "EURUSD" "1" None None]
    (Some (mkIAccount "100.00" "100.00" "0" "100" "0" None (Some 50))).

Lemma compareStates_refines_witness :
  match compareStates drift_internal sample_provider 1000 DEFAULT_COMPARATOR_OPTIONS with
  | Ok out =>
      ((fun c => (type c, severity c)) <$> out) =
        [(MISSING_PROVIDER_ORDER, WARNING); (DUPLICATE_PROVIDER_ID, CRITICAL); (POSITION_CLOSED_EXTERNALLY, WARNING);
         (POSITION_CLOSED_EXTERNALLY, WARNING); (UNKNOWN_PROVIDER_POSITION, CRITICAL); (ACCOUNT_STATE_MISMATCH, CRITICAL)] /\
      NoDup ((fun c => subject (report c)) <$> out) /\
      (exists a, is_account drift_internal = Some a /\ structural a (ps_account sample_provider) "leverage" (DNum 50) (DNum 100))
  | Err _ => False
  end.
Proof.
  assert (forall raw sg ml s m f, chars_of raw = sg ++ ml -> sign_lit sg s -> sg <> ["+"%char] -> mantissa_lit ml m f ->
    0 <= f <= 10 -> readable raw) as Hread by (intros; exists s, m, f; split; [by econstructor|done]).
  assert (forall raw ip, chars_of raw = ip -> ip <> [] -> all_digits ip -> readable raw) as Hint
    by (intros raw ip Hc Hn Hd; eapply (Hread raw [] ip 1); [done|constructor|done|by apply mant_int|lia]).
  assert (forall raw ip fp, chars_of raw = ip ++ "."%char :: fp -> ip <> [] -> all_digits ip -> all_digits fp -> fp <> [] ->
    Z.of_nat (length fp) <= 10 -> readable raw) as Hfrac
    by (intros raw ip fp Hc Hn Hd Hf Hne Hl; eapply (Hread raw [] _ 1); [done|constructor|done|by apply mant_frac|lia]).
  assert (readable "100.00") as H1 by (by apply (Hfrac _ ["1"; "0"; "0"]%char ["0"; "0"]%char); repeat constructor).
  assert (readable "103.5") as H2 by (by apply (Hfrac _ ["1"; "0"; "3"]%char ["5"]%char); repeat constructor).
  assert (readable "0.0000") as H3 by (by apply (Hfrac _ ["0"]%char ["0"; "0"; "0"; "0"]%char); repeat constructor).
  assert (readable "0") as H4 by (by apply (Hint _ ["0"]%char); repeat constructor).
  assert (readable "100") as H5 by (by apply (Hint _ ["1"; "0"; "0"]%char); repeat constructor).
  assert (readable_states drift_internal sample_provider) as Hr.
  { constructor; [by repeat constructor|constructor| |by repeat constructor]. intros a [= <-]. by repeat constructor. }
  assert (plain_ids drift_internal) as Hi by (split; by repeat constructor).
  destruct (compareStates_refines drift_internal sample_provider 1000 DEFAULT_COMPARATOR_OPTIONS Hr Hi)
    as (out & Hout & Hd & _ & Hnd & _). rewrite Hout. split; [|split; [exact Hnd|]].
  - vm_compute in Hout. injection Hout as <-. reflexivity.
  - eexists. split; [reflexivity|]. by apply structural_leverage.
Defined.
