(* ===== verification/Store.v ===== *)
(** * The durable store

    The rows of the tables the execution core reads and writes ([execution/entities/*],
    [execution/orders/order.entity.ts], [execution-control/entities],
    [execution-authority/entities], the columns of [broker/entities/broker-connection.entity.ts]
    the core reads), the database state [DB], the errors a caller can see and the
    statements TypeORM issues: a [SELECT] reads the state, an [UPDATE .. WHERE] rewrites the
    matching rows and returns how many there were, an [INSERT] checks the unique indexes.
    Money columns hold their value scaled to the column's scale; timestamps are
    milliseconds; [now] is the clock that [Date.now()], [new Date()] and [NOW()] read; a
    method reads it in the same step as the statement next to it, so that only statements
    can fail. *)

From S2P Require Import Prelude Prog StateMachines JsString CanonicalJson.
Open Scope string_scope.
Open Scope list_scope.
Open Scope Z_scope.

(** ** Enumerations *)

Inductive OrderKind := MARKET | LIMIT | STOP | STOP_LIMIT.
Inductive OrderTimeInForce := GTC | DAY | IOC | FOK.
Inductive ExecutionMode := PAPER_ONLY | SEMI_AUTO | FULL_AUTO.
Inductive RiskGrantStatus := G_ACTIVE | G_CONSUMED | G_EXPIRED | G_INVALIDATED.
Inductive ConfirmationStatus := C_PENDING | C_CONSUMED | C_EXPIRED | C_REVOKED.
Inductive BrokerConnectionStatus := B_CONNECTING | B_CONNECTED | B_DISCONNECTED | B_ERROR | B_SUSPENDED.
Inductive ControlScope := GLOBAL | PROVIDER | USER | BROKER_CONNECTION.
Inductive ControlStatus := K_ACTIVE | K_EXPIRED.
Inductive SignalStatus := RECEIVED | PROCESSED.
Inductive ProviderOperationClass :=
| NEW_EXPOSURE | INCREASE_EXPOSURE | REDUCE_EXPOSURE | CLOSE_POSITION
| CANCEL_PENDING | RECONCILE_READ | RISK_REDUCING_MODIFY | RISK_INCREASING_MODIFY.

#[global] Instance OrderKind_eq_dec : EqDecision OrderKind.
Proof. solve_decision. Defined.
#[global] Instance OrderTimeInForce_eq_dec : EqDecision OrderTimeInForce.
Proof. solve_decision. Defined.
#[global] Instance ExecutionMode_eq_dec : EqDecision ExecutionMode.
Proof. solve_decision. Defined.
#[global] Instance RiskGrantStatus_eq_dec : EqDecision RiskGrantStatus.
Proof. solve_decision. Defined.
#[global] Instance ConfirmationStatus_eq_dec : EqDecision ConfirmationStatus.
Proof. solve_decision. Defined.
#[global] Instance BrokerConnectionStatus_eq_dec : EqDecision BrokerConnectionStatus.
Proof. solve_decision. Defined.
#[global] Instance ControlScope_eq_dec : EqDecision ControlScope.
Proof. solve_decision. Defined.
#[global] Instance ControlStatus_eq_dec : EqDecision ControlStatus.
Proof. solve_decision. Defined.
#[global] Instance SignalStatus_eq_dec : EqDecision SignalStatus.
Proof. solve_decision. Defined.
#[global] Instance ProviderOperationClass_eq_dec : EqDecision ProviderOperationClass.
Proof. solve_decision. Defined.

Module Intent.
Inductive TradeIntentStatus := CREATED | EXECUTED | REJECTED | EXPIRED | SUPERSEDED.

#[global] Instance TradeIntentStatus_eq_dec : EqDecision TradeIntentStatus.
Proof. solve_decision. Defined.
End Intent.

Inductive AllocationFailureCode :=
| ALLOCATION_BUDGET_UNPROVABLE | ALLOCATION_INSUFFICIENT_CAPITAL | ALLOCATION_INSTRUMENT_CONCENTRATION
| ALLOCATION_STRATEGY_CONCENTRATION | ALLOCATION_CURRENCY_MISMATCH | ALLOCATION_ALREADY_RELEASED.

#[global] Instance AllocationFailureCode_eq_dec : EqDecision AllocationFailureCode.
Proof. solve_decision. Defined.

(** ** Rows *)

(** [requested] and [filled] are in units of 10^-4 (numeric(10,4)); prices in units of
    10^-8 (numeric(18,8)). *)
Record Order := mkOrder {
  o_id : string; o_userId : string; o_brokerConnectionId : string;
  o_tradeId : option string; o_signalId : option string;
  o_clientOrderId : string; o_idempotencyKey : string; o_providerOrderId : option string;
  o_kind : OrderKind; o_timeInForce : OrderTimeInForce; o_instrument : string;
  o_direction : string;
  o_requested : Z; o_price : option Z; o_stop : option Z;
  o_filled : Z; o_avg : option Z;
  o_status : Order.OrderStatus; o_rejectReason : option string;
  o_submittedAt : option Z; o_finalizedAt : option Z; o_createdAt : Z; o_updatedAt : Z }.

Record OrderPayload := mkPayload {
  p_instrument : string; p_direction : string; p_quantity : string; p_orderType : string;
  p_requestedPrice : option string; p_stopLoss : option string; p_takeProfit : option string;
  p_marketRegime : option string; p_strategyTimeframe : option string }.

Record RiskGrant := mkGrant {
  g_id : string; g_userId : string; g_signalId : string; g_signalPayloadDigest : string;
  g_sessionId : string; g_sessionGeneration : Z; g_executionMode : ExecutionMode;
  g_brokerConnectionId : string; g_credentialGeneration : option Z;
  g_providerBrokerIdentity : option string; g_providerVerificationFingerprint : option string;
  g_riskProfileId : option string; g_riskProfileVersion : option Z; g_riskProfileHash : option string;
  g_accountSnapshotId : option string; g_accountSnapshotGeneration : option Z;
  g_accountSnapshotObservedAt : option Z;
  g_authorityGeneration : Z; g_killSwitchGeneration : option Z;
  g_executionControlRevision : option Z; g_authorityBindingDigest : option string;
  g_tradingPolicyRevision : option Z; g_providerVerificationRevision : option Z;
  g_orderPayloadDigest : string; g_orderPayload : OrderPayload; g_quoteRef : option js;
  g_issuedAt : Z; g_expiresAt : Z; g_consumedAt : option Z; g_invalidatedAt : option Z;
  g_invalidationReason : option string; g_status : RiskGrantStatus }.

Record Confirmation := mkConfirmation {
  c_id : string; c_userId : string; c_sessionId : string; c_sessionGeneration : Z;
  c_signalId : string; c_brokerConnectionId : string; c_riskGrantId : option string;
  c_orderPayloadDigest : string; c_instrument : string; c_direction : string;
  c_quantity : string; c_stopLoss : option string; c_takeProfit : option string;
  c_expiresAt : Z; c_consumedAt : option Z; c_revokedAt : option Z;
  c_status : ConfirmationStatus; c_createdAt : Z }.

Record TradingSession := mkSession {
  s_id : string; s_userId : string; s_brokerConnectionId : string;
  s_executionMode : ExecutionMode; s_authorityGeneration : Z;
  s_status : Session.TradingSessionStatus; s_startedAt : Z;
  s_openingBalance : option Z; s_peakEquity : option Z (** numeric(15,2): in units of 10^-2 *);
  s_accountCurrency : option string; s_openingSnapshotId : option string; s_openingSnapshotGeneration : option Z;
  s_endedAt : option Z; s_closeAiPositionsOnStop : bool }.

(** [UPDATE trading_sessions SET ..]: the columns a session is updated in. *)
Definition session_patch (mode : ExecutionMode) (generation : Z) (status : Session.TradingSessionStatus) (peak : option Z)
    (endedAt : option Z) (closeOnStop : bool) (s : TradingSession) : TradingSession :=
  mkSession (s_id s) (s_userId s) (s_brokerConnectionId s) mode generation status (s_startedAt s) (s_openingBalance s) peak
    (s_accountCurrency s) (s_openingSnapshotId s) (s_openingSnapshotGeneration s) endedAt closeOnStop.

Record BrokerConnection := mkConnection {
  b_id : string; b_userId : string; b_brokerId : string; b_accountId : option string; b_logicalAccountKey : option string;
  b_providerBrokerIdentity : option string; b_accountType : string;
  b_status : BrokerConnectionStatus;
  b_authorizationStatus : stored Authorization.BrokerAuthorizationStatus;
  b_credentialStatus : stored Authorization.BrokerCredentialStatus;
  b_credentialGeneration : Z;
  b_encryptedCredentials : option string; b_credentialIv : option string;
  b_credentialTag : option string; b_encryptionKeyId : option string }.

Record ExecutionControl := mkControl {
  k_id : string; k_scope : ControlScope; k_scopeKey : option string; k_reason : string;
  k_activatedByUserId : string; k_activatedAt : Z; k_expiresAt : option Z;
  k_status : ControlStatus }.

Record SignalIdentity := mkSignal {
  i_id : string; i_userId : string; i_signalId : string; i_payloadDigest : string;
  i_materialFields : list (chars * js); i_generatedAt : Z; i_receivedAt : Z; i_firstProcessedAt : option Z; i_status : SignalStatus }.

Record TradeRow := mkTrade {
  t_id : string; t_userId : string; t_idempotencyKey : string; t_tradeIntentId : option string;
  t_status : Trade.TradeStatus;
  t_externalOrderId : option string; t_fillPrice : option string;
  t_closedAt : option Z; t_closeReason : option string; t_dispatchCertainty : option string;
  t_signalId : option string; t_logicalAccountKey : option string; t_accountCurrency : option string;
  t_riskPeriodId : option string; t_realisedPnl : option Z (** numeric(18,8): in units of 10^-8 *);
  t_brokerConnectionId : string; t_tradingSessionId : option string; t_instrument : string; t_direction : string;
  t_lotSize : Z (** numeric(10,4): in units of 10^-4 *); t_externalPositionId : option string; t_exitPrice : option string;
  t_orderId : option string; t_openedAt : option Z }.

(** The normalized decision of a model.  Its decimal columns keep the text they were given. *)
Record TradeIntent := mkIntent {
  n_id : string; n_userId : string; n_intentKey : string; n_signalId : string; n_signalGeneratedAt : Z;
  n_brokerConnectionId : string; n_logicalAccountKey : option string; n_tradingSessionId : option string;
  n_strategyCode : option string; n_modelVersion : option string; n_timeframe : option string;
  n_instrument : string; n_direction : string; n_entryType : string; n_requestedLotSize : string;
  n_requestedEntryPrice : option string; n_stopLoss : option string; n_takeProfit : option string;
  n_trailingStopPips : option string; n_expiresAt : Z; n_rationale : option string;
  n_authorityGeneration : Z; n_tradingPolicyRevision : option Z; n_providerVerificationRevision : option Z;
  n_executionControlRevision : option Z; n_status : Intent.TradeIntentStatus; n_tradeId : option string }.

(** The capital a decision holds: lots in units of 10^-4 (numeric(10,4)), capital in units of
    10^-8 (numeric(18,8)). *)
Record CapitalAllocation := mkCapital {
  ca_id : string; ca_userId : string; ca_tradeIntentId : string; ca_brokerConnectionId : string;
  ca_logicalAccountKey : string; ca_accountCurrency : string; ca_instrument : string; ca_direction : string;
  ca_strategyCode : option string; ca_allocatedLots : Z; ca_allocatedCapital : Z;
  ca_active : bool; (** ACTIVE, or RELEASED *)
  ca_releasedReason : option string }.

(** What a user lets the AI allocate; caps are percents in units of 10^-2 (numeric(5,2)). *)
Record CapitalBudget := mkBudget {
  cb_accountCurrency : string; cb_totalCapital : Z; cb_maxInstrumentConcentration : option Z;
  cb_maxStrategyConcentration : option Z }.

(** The limits of a user.  Percents, pips and scores are in units of 10^-2, lots in units of
    10^-4; the two legacy columns on position counts are left out. *)
Record RiskProfile := mkProfile {
  rk_id : string; rk_userId : string; rk_killSwitchActive : bool; rk_killSwitchReason : option string;
  rk_maxDailyLossPercent : Z; rk_maxDrawdownPercent : Z; rk_maxPositionSizeLot : Z; rk_minStopLossPips : Z;
  rk_allowedInstruments : option (list string); rk_maxVolatilityScore : Z; rk_rejectLowLiquidity : bool;
  rk_riskAcknowledgementAccepted : bool; rk_riskAcknowledgementAcceptedAt : option Z;
  rk_maxTradeRiskPercent : Z; rk_maxLeverageAllowed : Z; rk_allowedTradingModes : ExecutionMode; rk_revision : Z }.

(** An accepted observation of an account; amounts are in units of 10^-8 (numeric(20,8)). *)
Record AccountSnapshot := mkSnapshot {
  sn_id : string; sn_connectionId : string; sn_generation : Z; sn_providerObservedAt : option Z; sn_acceptedAt : Z;
  sn_balance : option Z; sn_equity : option Z; sn_margin : option Z; sn_freeMargin : option Z;
  sn_marginLevel : option Z; sn_leverage : option Z; sn_openPositionsCount : option Z; sn_currency : option string;
  sn_source : string; sn_providerAccountIdentity : option string }.

(** The legacy current view of an account, one row per connection: amounts in units of 10^-8
    (numeric(18,8)), the margin level of 10^-4 (numeric(10,4)). *)
Record BrokerAccount := mkAccount {
  ba_balance : Z; ba_equity : Z; ba_margin : Z; ba_freeMargin : Z; ba_marginLevel : Z;
  ba_currency : option string; ba_leverage : option Z; ba_openPositionsCount : Z;
  ba_syncedAt : Z; ba_lastSnapshotGeneration : option Z }.

(** The loss budget of a logical account for a day; its balances are in units of 10^-8
    (numeric(20,8)). *)
Record DailyRiskPeriod := mkPeriod {
  dp_id : string; dp_brokerConnectionId : string; dp_accountCurrency : string; dp_openingBalance : Z;
  dp_openingEquity : Z; dp_openingSnapshotId : string; dp_riskProfile : option (string * Z) }.

Record DailyLossReset := mkReset {
  dr_brokerConnectionId : string; dr_resetAt : Z; dr_resetCount : Z; dr_lastSessionId : option string }.

(** A rejection: user, signal and the name of its code. *)
Record RiskViolation := mkViolation { vi_userId : string; vi_signalId : string; vi_code : string }.

(** One audit-log entry: actor, action, resource and a code. *)
Record AuditEntry := mkAudit {
  a_actor : option string; a_action : string; a_resourceType : string; a_resourceId : string;
  a_code : string }.

(** The singleton revision rows of the shared control plane; [None]: never seeded. *)
Record SharedState := mkShared { sh_revision : Z; sh_fingerprint : string }.

(** ** The database *)

Record DB := mkDB {
  now : Z;
  orders : gmap string Order;
  grants : gmap string RiskGrant;
  confirmations : gmap string Confirmation;
  sessions : gmap string TradingSession;
  connections : gmap string BrokerConnection;
  generations : gmap string Z;
  policyRevision : option SharedState;
  providerRevision : option SharedState;
  controlRevision : option Z;
  controls : list ExecutionControl;
  policyLog : gmap Z string;
  providerLog : gmap Z string;
  profiles : gmap string RiskProfile; (** by user *)
  signals : gmap (string * string) SignalIdentity;
  trades : gmap string TradeRow;
  intents : gmap string TradeIntent;
  allocations : gmap string CapitalAllocation; (** by trade intent *)
  budgets : gmap (string * string) CapitalBudget; (** by user and logical account *)
  snapshots : gmap (string * Z) AccountSnapshot; (** by connection and generation *)
  brokerAccounts : gmap string BrokerAccount; (** by connection *)
  riskPeriods : gmap (string * string * string) DailyRiskPeriod; (** by user, logical account and UTC day *)
  lossResets : gmap (string * string * string * string) DailyLossReset; (** by user, logical account, currency and UTC day *)
  violations : list RiskViolation;
  audit : list AuditEntry }.

Definition set_now (v : Z) (d : DB) : DB :=
  mkDB v (orders d) (grants d) (confirmations d) (sessions d) (connections d)
    (generations d) (policyRevision d) (providerRevision d) (controlRevision d) (controls d)
    (policyLog d) (providerLog d) (profiles d) (signals d) (trades d) (intents d) (allocations d) (budgets d) (snapshots d) (brokerAccounts d)
    (riskPeriods d) (lossResets d) (violations d) (audit d).
Definition set_orders (v : gmap string Order) (d : DB) : DB :=
  mkDB (now d) v (grants d) (confirmations d) (sessions d) (connections d)
    (generations d) (policyRevision d) (providerRevision d) (controlRevision d) (controls d)
    (policyLog d) (providerLog d) (profiles d) (signals d) (trades d) (intents d) (allocations d) (budgets d) (snapshots d) (brokerAccounts d)
    (riskPeriods d) (lossResets d) (violations d) (audit d).
Definition set_grants (v : gmap string RiskGrant) (d : DB) : DB :=
  mkDB (now d) (orders d) v (confirmations d) (sessions d) (connections d)
    (generations d) (policyRevision d) (providerRevision d) (controlRevision d) (controls d)
    (policyLog d) (providerLog d) (profiles d) (signals d) (trades d) (intents d) (allocations d) (budgets d) (snapshots d) (brokerAccounts d)
    (riskPeriods d) (lossResets d) (violations d) (audit d).
Definition set_confirmations (v : gmap string Confirmation) (d : DB) : DB :=
  mkDB (now d) (orders d) (grants d) v (sessions d) (connections d)
    (generations d) (policyRevision d) (providerRevision d) (controlRevision d) (controls d)
    (policyLog d) (providerLog d) (profiles d) (signals d) (trades d) (intents d) (allocations d) (budgets d) (snapshots d) (brokerAccounts d)
    (riskPeriods d) (lossResets d) (violations d) (audit d).
Definition set_sessions (v : gmap string TradingSession) (d : DB) : DB :=
  mkDB (now d) (orders d) (grants d) (confirmations d) v (connections d)
    (generations d) (policyRevision d) (providerRevision d) (controlRevision d) (controls d)
    (policyLog d) (providerLog d) (profiles d) (signals d) (trades d) (intents d) (allocations d) (budgets d) (snapshots d) (brokerAccounts d)
    (riskPeriods d) (lossResets d) (violations d) (audit d).
Definition set_connections (v : gmap string BrokerConnection) (d : DB) : DB :=
  mkDB (now d) (orders d) (grants d) (confirmations d) (sessions d) v
    (generations d) (policyRevision d) (providerRevision d) (controlRevision d) (controls d)
    (policyLog d) (providerLog d) (profiles d) (signals d) (trades d) (intents d) (allocations d) (budgets d) (snapshots d) (brokerAccounts d)
    (riskPeriods d) (lossResets d) (violations d) (audit d).
Definition set_generations (v : gmap string Z) (d : DB) : DB :=
  mkDB (now d) (orders d) (grants d) (confirmations d) (sessions d) (connections d)
    v (policyRevision d) (providerRevision d) (controlRevision d) (controls d)
    (policyLog d) (providerLog d) (profiles d) (signals d) (trades d) (intents d) (allocations d) (budgets d) (snapshots d) (brokerAccounts d)
    (riskPeriods d) (lossResets d) (violations d) (audit d).
Definition set_policyRevision (v : option SharedState) (d : DB) : DB :=
  mkDB (now d) (orders d) (grants d) (confirmations d) (sessions d) (connections d)
    (generations d) v (providerRevision d) (controlRevision d) (controls d)
    (policyLog d) (providerLog d) (profiles d) (signals d) (trades d) (intents d) (allocations d) (budgets d) (snapshots d) (brokerAccounts d)
    (riskPeriods d) (lossResets d) (violations d) (audit d).
Definition set_providerRevision (v : option SharedState) (d : DB) : DB :=
  mkDB (now d) (orders d) (grants d) (confirmations d) (sessions d) (connections d)
    (generations d) (policyRevision d) v (controlRevision d) (controls d)
    (policyLog d) (providerLog d) (profiles d) (signals d) (trades d) (intents d) (allocations d) (budgets d) (snapshots d) (brokerAccounts d)
    (riskPeriods d) (lossResets d) (violations d) (audit d).
Definition set_controlRevision (v : option Z) (d : DB) : DB :=
  mkDB (now d) (orders d) (grants d) (confirmations d) (sessions d) (connections d)
    (generations d) (policyRevision d) (providerRevision d) v (controls d)
    (policyLog d) (providerLog d) (profiles d) (signals d) (trades d) (intents d) (allocations d) (budgets d) (snapshots d) (brokerAccounts d)
    (riskPeriods d) (lossResets d) (violations d) (audit d).
Definition set_controls (v : list ExecutionControl) (d : DB) : DB :=
  mkDB (now d) (orders d) (grants d) (confirmations d) (sessions d) (connections d)
    (generations d) (policyRevision d) (providerRevision d) (controlRevision d) v
    (policyLog d) (providerLog d) (profiles d) (signals d) (trades d) (intents d) (allocations d) (budgets d) (snapshots d) (brokerAccounts d)
    (riskPeriods d) (lossResets d) (violations d) (audit d).
Definition set_policyLog (v : gmap Z string) (d : DB) : DB :=
  mkDB (now d) (orders d) (grants d) (confirmations d) (sessions d) (connections d)
    (generations d) (policyRevision d) (providerRevision d) (controlRevision d) (controls d)
    v (providerLog d) (profiles d) (signals d) (trades d) (intents d) (allocations d) (budgets d) (snapshots d) (brokerAccounts d)
    (riskPeriods d) (lossResets d) (violations d) (audit d).
Definition set_providerLog (v : gmap Z string) (d : DB) : DB :=
  mkDB (now d) (orders d) (grants d) (confirmations d) (sessions d) (connections d)
    (generations d) (policyRevision d) (providerRevision d) (controlRevision d) (controls d)
    (policyLog d) v (profiles d) (signals d) (trades d) (intents d) (allocations d) (budgets d) (snapshots d) (brokerAccounts d)
    (riskPeriods d) (lossResets d) (violations d) (audit d).
Definition set_signals (v : gmap (string * string) SignalIdentity) (d : DB) : DB :=
  mkDB (now d) (orders d) (grants d) (confirmations d) (sessions d) (connections d)
    (generations d) (policyRevision d) (providerRevision d) (controlRevision d) (controls d)
    (policyLog d) (providerLog d) (profiles d) v (trades d) (intents d) (allocations d) (budgets d) (snapshots d) (brokerAccounts d)
    (riskPeriods d) (lossResets d) (violations d) (audit d).
Definition set_trades (v : gmap string TradeRow) (d : DB) : DB :=
  mkDB (now d) (orders d) (grants d) (confirmations d) (sessions d) (connections d)
    (generations d) (policyRevision d) (providerRevision d) (controlRevision d) (controls d)
    (policyLog d) (providerLog d) (profiles d) (signals d) v (intents d) (allocations d) (budgets d) (snapshots d) (brokerAccounts d)
    (riskPeriods d) (lossResets d) (violations d) (audit d).
Definition set_intents (v : gmap string TradeIntent) (d : DB) : DB :=
  mkDB (now d) (orders d) (grants d) (confirmations d) (sessions d) (connections d)
    (generations d) (policyRevision d) (providerRevision d) (controlRevision d) (controls d)
    (policyLog d) (providerLog d) (profiles d) (signals d) (trades d) v (allocations d) (budgets d) (snapshots d) (brokerAccounts d)
    (riskPeriods d) (lossResets d) (violations d) (audit d).
Definition set_allocations (v : gmap string CapitalAllocation) (d : DB) : DB :=
  mkDB (now d) (orders d) (grants d) (confirmations d) (sessions d) (connections d)
    (generations d) (policyRevision d) (providerRevision d) (controlRevision d) (controls d)
    (policyLog d) (providerLog d) (profiles d) (signals d) (trades d) (intents d) v (budgets d) (snapshots d) (brokerAccounts d)
    (riskPeriods d) (lossResets d) (violations d) (audit d).
Definition set_budgets (v : gmap (string * string) CapitalBudget) (d : DB) : DB :=
  mkDB (now d) (orders d) (grants d) (confirmations d) (sessions d) (connections d)
    (generations d) (policyRevision d) (providerRevision d) (controlRevision d) (controls d)
    (policyLog d) (providerLog d) (profiles d) (signals d) (trades d) (intents d) (allocations d) v (snapshots d) (brokerAccounts d)
    (riskPeriods d) (lossResets d) (violations d) (audit d).
Definition set_profiles (v : gmap string RiskProfile) (d : DB) : DB :=
  mkDB (now d) (orders d) (grants d) (confirmations d) (sessions d) (connections d)
    (generations d) (policyRevision d) (providerRevision d) (controlRevision d) (controls d)
    (policyLog d) (providerLog d) v (signals d) (trades d) (intents d) (allocations d) (budgets d) (snapshots d) (brokerAccounts d)
    (riskPeriods d) (lossResets d) (violations d) (audit d).
Definition set_snapshots (v : gmap (string * Z) AccountSnapshot) (d : DB) : DB :=
  mkDB (now d) (orders d) (grants d) (confirmations d) (sessions d) (connections d)
    (generations d) (policyRevision d) (providerRevision d) (controlRevision d) (controls d)
    (policyLog d) (providerLog d) (profiles d) (signals d) (trades d) (intents d) (allocations d) (budgets d) v (brokerAccounts d)
    (riskPeriods d) (lossResets d) (violations d) (audit d).
Definition set_brokerAccounts (v : gmap string BrokerAccount) (d : DB) : DB :=
  mkDB (now d) (orders d) (grants d) (confirmations d) (sessions d) (connections d)
    (generations d) (policyRevision d) (providerRevision d) (controlRevision d) (controls d)
    (policyLog d) (providerLog d) (profiles d) (signals d) (trades d) (intents d) (allocations d) (budgets d) (snapshots d) v
    (riskPeriods d) (lossResets d) (violations d) (audit d).
Definition set_riskPeriods (v : gmap (string * string * string) DailyRiskPeriod) (d : DB) : DB :=
  mkDB (now d) (orders d) (grants d) (confirmations d) (sessions d) (connections d)
    (generations d) (policyRevision d) (providerRevision d) (controlRevision d) (controls d)
    (policyLog d) (providerLog d) (profiles d) (signals d) (trades d) (intents d) (allocations d) (budgets d) (snapshots d) (brokerAccounts d)
    v (lossResets d) (violations d) (audit d).
Definition set_lossResets (v : gmap (string * string * string * string) DailyLossReset) (d : DB) : DB :=
  mkDB (now d) (orders d) (grants d) (confirmations d) (sessions d) (connections d)
    (generations d) (policyRevision d) (providerRevision d) (controlRevision d) (controls d)
    (policyLog d) (providerLog d) (profiles d) (signals d) (trades d) (intents d) (allocations d) (budgets d) (snapshots d) (brokerAccounts d)
    (riskPeriods d) v (violations d) (audit d).
Definition set_violations (v : list RiskViolation) (d : DB) : DB :=
  mkDB (now d) (orders d) (grants d) (confirmations d) (sessions d) (connections d)
    (generations d) (policyRevision d) (providerRevision d) (controlRevision d) (controls d)
    (policyLog d) (providerLog d) (profiles d) (signals d) (trades d) (intents d) (allocations d) (budgets d) (snapshots d) (brokerAccounts d)
    (riskPeriods d) (lossResets d) v (audit d).
Definition set_audit (v : list AuditEntry) (d : DB) : DB :=
  mkDB (now d) (orders d) (grants d) (confirmations d) (sessions d) (connections d)
    (generations d) (policyRevision d) (providerRevision d) (controlRevision d) (controls d)
    (policyLog d) (providerLog d) (profiles d) (signals d) (trades d) (intents d) (allocations d) (budgets d) (snapshots d) (brokerAccounts d)
    (riskPeriods d) (lossResets d) (violations d) v.

(** The revision of a user's profile. *)
Definition profileRevisions (d : DB) : gmap string Z := rk_revision <$> profiles d.

Definition empty_db (t : Z) : DB :=
  mkDB t ∅ ∅ ∅ ∅ ∅ ∅ None None None [] ∅ ∅ ∅ ∅ ∅ ∅ ∅ ∅ ∅ ∅ ∅ ∅ [] [].

(** ** Errors *)

Inductive FinalDispatchBlockedReason :=
| GRANT_REQUIRED | GRANT_NOT_FOUND | GRANT_NOT_ACTIVE | GRANT_EXPIRED | GRANT_CONSUMED
| GRANT_INVALIDATED | GRANT_USER_MISMATCH | SESSION_NOT_FOUND | SESSION_NOT_ACTIVE
| SESSION_GENERATION_MISMATCH | EXECUTION_MODE_MISMATCH | CONFIRMATION_REQUIRED
| CONFIRMATION_NOT_FOUND | CONFIRMATION_USER_MISMATCH | CONFIRMATION_NOT_PENDING
| CONFIRMATION_EXPIRED | CONFIRMATION_CONSUMED | CONFIRMATION_REVOKED
| CONFIRMATION_GENERATION_MISMATCH | CONFIRMATION_DIGEST_MISMATCH | CONNECTION_NOT_FOUND
| CONNECTION_NOT_OWNED | CONNECTION_NOT_CONNECTED | CONNECTION_NOT_EXECUTABLE
| CONNECTION_CREDENTIAL_STATUS_NOT_USABLE | CONNECTION_CREDENTIAL_GENERATION_CHANGED
| PAPER_ONLY_REFUSES_NON_PAPER_CONNECTION | LIVE_VERIFICATION_UNVERIFIED
| PROVIDER_IDENTITY_CHANGED | PROVIDER_VERIFICATION_DOWNGRADED | EXECUTION_CONTROL_BLOCKED
| GRANT_CONSUME_RACE_LOST | TRADING_AUTHORITY_GENERATION_MISMATCH
| SHARED_TRADING_POLICY_REVISION_MISMATCH | SHARED_PROVIDER_VERIFICATION_REVISION_MISMATCH
| EXECUTION_CONTROL_REVISION_MISMATCH | KILL_SWITCH_PROFILE_REVISION_MISMATCH
| ORDER_COMMITMENT_TRANSITION_LOST.

#[global] Instance FinalDispatchBlockedReason_eq_dec : EqDecision FinalDispatchBlockedReason.
Proof. solve_decision. Defined.

Inductive SnapshotFailureCode := SNAPSHOT_MISSING | SNAPSHOT_STALE | SNAPSHOT_MALFORMED | SNAPSHOT_CURRENCY_UNKNOWN.

#[global] Instance SnapshotFailureCode_eq_dec : EqDecision SnapshotFailureCode.
Proof. solve_decision. Defined.

(** The typed refusals of the session authority ([execution-session.resolution.ts]). *)
Inductive SessionErrorCode :=
| SESSION_SUSPENDED | ACTIVE_SESSION_CONFLICT | SESSION_AUTHORITY_GENERATION_CONFLICT
| BROKER_CONNECTION_NOT_OWNED | BROKER_CONNECTION_NOT_CONNECTED | BROKER_CONNECTION_NOT_EXECUTABLE.

#[global] Instance SessionErrorCode_eq_dec : EqDecision SessionErrorCode.
Proof. solve_decision. Defined.

(** The exceptions that reach a caller.  [DbUnavailable] is any driver failure; the next
    three are the constraint errors of PostgreSQL (23505, 23514, 22003). *)
Inductive exn :=
| DbUnavailable
| UniqueViolation (index : string)
| CheckViolation (constraint : string)
| NumericOverflow
| BadRequestException (message : string)
| NotFoundException (message : string)
| ConflictException (message : string)
| ForbiddenException (message : string)
| InvalidOrderTransition (t : stored Order.OrderStatus * Order.OrderStatus)
| InvalidTradeTransition (t : stored Trade.TradeStatus * Trade.TradeStatus)
| InvalidSessionTransition (t : stored Session.TradingSessionStatus * Session.TradingSessionStatus)
| SessionError (code : SessionErrorCode)
| PlainError (message : string)
| MalformedDecimal
| CanonicalJsonError (e : CanonicalError)
| AuthorityStoreUnavailable | AuthorityBumpReasonInvalid
| SharedControlStoreUnavailable | SharedControlStateNotInitialized
| SharedControlBumpReasonInvalid | SharedControlConvergence | SharedControlFingerprintInvalid
| FinalDispatchBlocked (reason : FinalDispatchBlockedReason)
| CommitmentLost (what : string)
| RiskGrantIssuanceConflict | PendingConfirmationRebind
| SignalIdentityRequired | SignalGeneratedAtRequired | SignalStale | SignalFuture
| SignalIdentityConflict
| AllocationFailed (code : AllocationFailureCode) | TradeIntentNotUsable (intentId : string) (status : Intent.TradeIntentStatus)
| SessionAuthorityNotActive | ReconfirmationRequired
| SnapshotNotFresh (code : SnapshotFailureCode) | MalformedSnapshotField (field : string)
| DailyRiskPeriodBaseline | DailyRiskPeriodCurrencyMismatch
| RiskEngineError (message : string).

#[global] Instance exn_eq_dec : EqDecision exn.
Proof. solve_decision. Defined.

Abbreviation io := (prog DB exn).

(** [isUniqueViolation], of [broker/utils/db-unique-violation.ts] and its copies. *)
Definition isUniqueViolation (e : exn) : bool :=
  match e with UniqueViolation _ => true | _ => false end.

(** ** Statements *)

Abbreviation sel := (read (S := DB) (E := exn)).

(** [UPDATE .. SET f WHERE id = .. AND p]: the rows affected. *)
Definition update_row {R} (p : R -> bool) (f : R -> R) (id : string) (m : gmap string R)
  : gmap string R * Z :=
  match m !! id with
  | Some r => if p r then (<[id := f r]> m, 1) else (m, 0)
  | None => (m, 0)
  end.

(** [UPDATE .. SET f WHERE p], over the whole table. *)
Definition update_where {R} (p : R -> bool) (f : R -> R) (m : gmap string R)
  : gmap string R * Z :=
  ((fun r => if p r then f r else r) <$> m,
   Z.of_nat (size (filter (fun '(_, r) => p r = true) m))).

(** [SELECT .. WHERE p LIMIT 1] with no [ORDER BY]: some matching row. *)
Definition find_row {R} (p : R -> bool) (m : gmap string R) : option R :=
  snd <$> head (filter (fun '(_, r) => p r = true) (map_to_list m)).

(** Audit entries are appended by [auditService.log], which swallows its own errors
    ([audit.service.ts]): it never throws. *)
Definition audit_log (e : AuditEntry) : io unit :=
  catch (modify (fun d => set_audit (audit d ++ [e]) d)) (fun _ => Ret tt).

(** ** Lemmas on statements *)

Lemma find_row_none {R} (p : R -> bool) (m : gmap string R) :
  find_row p m = None <-> forall id r, m !! id = Some r -> p r = false.
Proof.
  unfold find_row. split.
  - intros Hn id r Hr. destruct (p r) eqn:Hp; [|done]. exfalso.
    assert ((id, r) ∈ filter (fun '(_, r) => p r = true) (map_to_list m)) as Hin
      by (apply list_elem_of_filter; split; [done|by apply elem_of_map_to_list]).
    destruct (filter _ _); [by apply not_elem_of_nil in Hin|done].
  - intros Hall. destruct (filter _ _) as [|[id r] l] eqn:E; [done|]. exfalso.
    assert ((id, r) ∈ (id, r) :: l) as Hin by left. rewrite <- E in Hin.
    apply list_elem_of_filter in Hin as [Hp Hin%elem_of_map_to_list].
    rewrite (Hall id r Hin) in Hp. done.
Qed.

Lemma find_row_some {R} (p : R -> bool) (m : gmap string R) r :
  find_row p m = Some r -> exists id, m !! id = Some r /\ p r = true.
Proof.
  unfold find_row. destruct (filter _ _) as [|[id x] l] eqn:E; [done|]. intros [= <-].
  assert ((id, x) ∈ (id, x) :: l) as Hin by left. rewrite <- E in Hin.
  apply list_elem_of_filter in Hin as [Hp Hin%elem_of_map_to_list]. eauto.
Qed.

Lemma find_row_unique {R} (p : R -> bool) (m : gmap string R) id r :
  m !! id = Some r -> p r = true ->
  (forall id' r', m !! id' = Some r' -> p r' = true -> r' = r) -> find_row p m = Some r.
Proof.
  intros Hr Hp Hu. destruct (find_row p m) as [x|] eqn:E.
  - apply find_row_some in E as (id' & Hx & Hpx). f_equal. by eapply Hu.
  - rewrite find_row_none in E. by rewrite (E id r Hr) in Hp.
Qed.

(** ** Tables

    What the components need of a table: the rows an [UPDATE] leaves are the old ones or
    evolutions of them, and a partial unique index survives updates that revive no row and
    guarded inserts. *)

Section table.
Context {R : Type}.

Definition rows_evolve (evolves : R -> R -> Prop) (m m' : gmap string R) : Prop :=
  forall id r, m !! id = Some r -> exists r', m' !! id = Some r' /\ evolves r r'.

(** The rows of [m'] are evolutions of rows of [m]: nothing was inserted. *)
Definition rows_only (evolves : R -> R -> Prop) (m m' : gmap string R) : Prop :=
  forall id r', m' !! id = Some r' -> exists r, m !! id = Some r /\ evolves r r'.

Lemma update_row_cases (p : R -> bool) f id m m' n :
  update_row p f id m = (m', n) ->
  (n = 0 /\ m' = m /\ forall r, m !! id = Some r -> p r = false) \/
  exists r, m !! id = Some r /\ p r = true /\ m' = <[id := f r]> m /\ n = 1.
Proof.
  unfold update_row. destruct (m !! id) as [r|] eqn:Hr; [|intros [= <- <-]; by left].
  destruct (p r) eqn:Hp; intros [= <- <-]; [right; by exists r|left].
  split; [done|]. split; [done|]. by intros r' [= <-].
Qed.

Context (evolves : R -> R -> Prop) `{!Reflexive evolves}.

Lemma rows_insert_evolve id r r' m :
  m !! id = Some r -> evolves r r' ->
  rows_evolve evolves m (<[id := r']> m) /\ rows_only evolves m (<[id := r']> m).
Proof.
  intros Hr He. split; intros id0 r0.
  - destruct (decide (id = id0)) as [->|]; intros H0; [simplify_map_eq; eauto|].
    exists r0. rewrite lookup_insert_ne by done. done.
  - destruct (decide (id = id0)) as [->|]; [rewrite lookup_insert_eq|rewrite lookup_insert_ne by done].
    + intros [= <-]. eauto.
    + intros H0. by exists r0.
Qed.

Lemma update_row_evolve p f id m :
  (forall r, p r = true -> evolves r (f r)) ->
  rows_evolve evolves m (fst (update_row p f id m)) /\ rows_only evolves m (fst (update_row p f id m)).
Proof.
  intros Hf. destruct (update_row p f id m) as [m' n] eqn:E. simpl.
  apply update_row_cases in E as [(_ & -> & _)|(r & Hr & Hp & -> & _)].
  - split; intros id0 r0 H0; by exists r0.
  - apply (rows_insert_evolve id r); [done|by apply Hf].
Qed.

Lemma update_where_lookup (p : R -> bool) f m id :
  fst (update_where p f m) !! id = (fun r => if p r then f r else r) <$> (m !! id).
Proof. unfold update_where. simpl. by rewrite lookup_fmap. Qed.

Lemma update_where_evolve p f m :
  (forall r, p r = true -> evolves r (f r)) ->
  rows_evolve evolves m (fst (update_where p f m)) /\ rows_only evolves m (fst (update_where p f m)).
Proof.
  intros Hf. assert (forall r, evolves r (if p r then f r else r)) as He
    by (intros r; destruct (p r) eqn:Hp; [by apply Hf|done]).
  split; intros id r; rewrite update_where_lookup.
  - intros ->. simpl. eauto.
  - destruct (m !! id) as [x|]; [|done]. simpl. intros [= <-]. eauto.
Qed.
End table.

Section unique_index.
Context {R K : Type} `{!EqDecision K} (rid : R -> string) (live : R -> bool) (slot : R -> K).

(** Every row is under its id; two live rows never share a slot. *)
Record indexed (m : gmap string R) : Prop := {
  ix_id : forall id r, m !! id = Some r -> rid r = id;
  ix_slot : forall id1 id2 r1 r2, m !! id1 = Some r1 -> m !! id2 = Some r2 ->
    live r1 = true -> live r2 = true -> slot r1 = slot r2 -> id1 = id2 }.

Lemma indexed_evolve (evolves : R -> R -> Prop) m m' :
  (forall r r', evolves r r' -> rid r' = rid r /\ (live r' = true -> live r = true /\ slot r' = slot r)) ->
  rows_only evolves m m' -> indexed m -> indexed m'.
Proof.
  intros He Hold [Hid Hslot]. split.
  - intros id r' (r & Hr & [-> _]%He)%Hold. by apply Hid.
  - intros id1 id2 r1 r2 (x1 & Hx1 & [_ H1]%He)%Hold (x2 & Hx2 & [_ H2]%He)%Hold [L1 S1]%H1 [L2 S2]%H2 Heq.
    apply (Hslot id1 id2 x1 x2); congruence.
Qed.

Lemma indexed_insert m r :
  m !! rid r = None ->
  (live r = true -> forall id x, m !! id = Some x -> live x = true -> slot x <> slot r) ->
  indexed m -> indexed (<[rid r := r]> m).
Proof.
  intros Hn Hfree [Hid Hslot]. split.
  - intros id x. rewrite lookup_insert_Some. intros [[<- <-]|[_ Hx]]; [done|by apply Hid].
  - intros id1 id2 r1 r2. rewrite !lookup_insert_Some.
    intros [[<- <-]|[_ H1]] [[<- <-]|[_ H2]] L1 L2 Heq; [done| | |by eapply Hslot]; exfalso;
      [by apply (Hfree L1 _ _ H2 L2)|by apply (Hfree L2 _ _ H1 L1)].
Qed.
End unique_index.
