(* ===== verification/Provider.v ===== *)
(** * Providers: operation classes, responses, identities, LIVE verification

    [execution/orchestration/provider-operation-class.ts] (module [Operation]),
    [provider-response.mapper.ts] ([Response]),
    [broker/adapters/ctrader/ctrader-broker-identity.ts] ([Identity]), and the catalog with its
    production-LIVE verification ([Live]): [broker/registry/broker-definition.ts],
    [broker-catalog.ts], [broker-provider-registry.service.ts],
    [broker/verification/provider-live-verification.policy.ts].  Pure functions; the adapters
    registered at run time are an argument. *)

From S2P Require Import Prelude JsString Store.
Open Scope string_scope.
Open Scope list_scope.
Open Scope Z_scope.

(** ** Operation classes *)

Module Operation.
Inductive ProviderOperationPrimitive := PLACE | CLOSE | CANCEL | RECONCILE | MODIFY.
Inductive PositionEffect := P_OPENING | P_INCREASING | P_CLOSING | P_REDUCING | P_NONE.
Inductive RiskEffect := R_INCREASING | R_REDUCING | R_NEUTRAL.

#[global] Instance ProviderOperationPrimitive_eq_dec : EqDecision ProviderOperationPrimitive.
Proof. solve_decision. Defined.
#[global] Instance PositionEffect_eq_dec : EqDecision PositionEffect.
Proof. solve_decision. Defined.
#[global] Instance RiskEffect_eq_dec : EqDecision RiskEffect.
Proof. solve_decision. Defined.

Definition EXPOSURE_INCREASING_OPERATION_CLASSES : list ProviderOperationClass :=
  [NEW_EXPOSURE; INCREASE_EXPOSURE; RISK_INCREASING_MODIFY].

Definition isExposureIncreasingOperation (c : ProviderOperationClass) : bool :=
  bool_decide (c ∈ EXPOSURE_INCREASING_OPERATION_CLASSES).

Definition operationAllowedUnderExecutionControl (c : ProviderOperationClass) : bool :=
  negb (isExposureIncreasingOperation c).

(** A primitive outside the enum is [None]. *)
Definition classifyProviderOperation (providerAction : option ProviderOperationPrimitive)
    (positionEffect : option PositionEffect) (riskEffect : option RiskEffect) : ProviderOperationClass :=
  match providerAction with
  | Some CLOSE => CLOSE_POSITION
  | Some CANCEL => CANCEL_PENDING
  | Some RECONCILE => RECONCILE_READ
  | Some MODIFY =>
      if bool_decide (riskEffect = Some R_INCREASING) then RISK_INCREASING_MODIFY
      else if bool_decide (riskEffect = Some R_REDUCING) then RISK_REDUCING_MODIFY
      else RISK_INCREASING_MODIFY
  | Some PLACE =>
      if bool_decide (positionEffect = Some P_CLOSING) || bool_decide (positionEffect = Some P_REDUCING)
      then REDUCE_EXPOSURE
      else if bool_decide (positionEffect = Some P_INCREASING) then INCREASE_EXPOSURE
      else NEW_EXPOSURE
  | None => NEW_EXPOSURE
  end.

Definition classifyIntentOperation (providerAction : option ProviderOperationPrimitive) : ProviderOperationClass :=
  classifyProviderOperation providerAction None None.
End Operation.

(** ** Provider responses *)

Module Response.
Inductive BrokerOrderStatus := FILLED | PENDING | REJECTED | FAILED.

(** [brokerMessage], the identifiers and the amounts are decimal or plain strings. *)
Record BrokerOrderResult := mkResult {
  success : bool; status : BrokerOrderStatus; externalOrderId : option string;
  filledPrice : option string; filledQuantity : option string;
  realisedPnl : option string; commission : option string; swap : option string;
  brokerMessage : option string }.

Inductive ProviderResponseAction :=
| ACKNOWLEDGE_AND_FILL (providerOrderId fillQuantity : option string) (fillPrice : string)
    (realisedPnl commission swap : option string)
| ACKNOWLEDGE (providerOrderId : string)
| REJECT (reason : string)
| RECONCILIATION_PENDING (reason : string).

(** [!s]: absent or empty. *)
Definition falsy (s : option string) : bool :=
  match s with Some s => bool_decide (s = "") | None => true end.

Definition mapProviderOrderResponse (r : BrokerOrderResult) : ProviderResponseAction :=
  match status r with
  | FILLED =>
      if negb (success r) then REJECT (default "Provider reported FILLED with success=false" (brokerMessage r))
      else match filledPrice r with
           | Some price =>
               if falsy (Some price)
               then RECONCILIATION_PENDING "Provider reported FILLED without a fill price — outcome cannot be recorded"
               else ACKNOWLEDGE_AND_FILL (externalOrderId r) (filledQuantity r) price
                      (realisedPnl r) (commission r) (swap r)
           | None => RECONCILIATION_PENDING "Provider reported FILLED without a fill price — outcome cannot be recorded"
           end
  | PENDING =>
      if negb (success r) then REJECT (default "Provider reported PENDING with success=false" (brokerMessage r))
      else match externalOrderId r with
           | Some id =>
               if falsy (Some id)
               then RECONCILIATION_PENDING "Provider reported PENDING without a provider order id — outcome cannot be tracked"
               else ACKNOWLEDGE id
           | None => RECONCILIATION_PENDING "Provider reported PENDING without a provider order id — outcome cannot be tracked"
           end
  | REJECTED => REJECT (default "Order rejected by provider" (brokerMessage r))
  | FAILED => REJECT (default "Order failed at provider" (brokerMessage r))
  end.
End Response.

(** ** Broker identities *)

Module Identity.
Definition CTRADER_ALIAS_SUFFIX : string := "-ctrader".

Record ProviderIdentityFamily := mkFamily { family : string; acceptableNormalizedTitles : list string }.

Definition PROVIDER_IDENTITY_CATALOG : list (string * ProviderIdentityFamily) :=
  [("pepperstone-ctrader", mkFamily "PEPPERSTONE" ["pepperstone"]);
   ("icmarkets-ctrader", mkFamily "IC_MARKETS" ["icmarkets"])].

Definition providerIdentityFamilyForAlias (id : string) : option ProviderIdentityFamily :=
  snd <$> List.find (fun e => bool_decide (fst e = id)) PROVIDER_IDENTITY_CATALOG.

Definition is_alnum (c : ascii) : bool := is_digit c || is_upper c || is_lower c.
Definition to_lower (c : ascii) : ascii := if is_upper c then ascii_of_code (code c + 32) else c.

(** Bytes of multi-byte characters are not alphanumeric: they are dropped like the
    characters they encode. *)
Definition normalizeBrokerTitleShort (title : string) : string :=
  string_of (map to_lower (List.filter is_alnum (chars_of title))).

Definition ends_with (suffix s : string) : bool :=
  let n := String.length s in let k := String.length suffix in
  Nat.leb k n && bool_decide (substring (n - k) k s = suffix).

Definition expectedBrokerIdentityToken (id : string) : option string :=
  if bool_decide (id = "ctrader") then None
  else if ends_with CTRADER_ALIAS_SUFFIX id then
    let token := substring 0 (String.length id - String.length CTRADER_ALIAS_SUFFIX) id in
    Some (if Nat.ltb 0 (String.length token) then token else id)
  else Some id.

(** [!t || t.trim() === '']. *)
Definition blank (t : option string) : bool :=
  match t with Some t => bool_decide (t = "") || bool_decide (trim (chars_of t) = []) | None => true end.

Definition brokerIdentityMatches (id : string) (brokerTitleShort : option string) : bool :=
  match expectedBrokerIdentityToken id with
  | None => true
  | Some expectedToken =>
      if blank brokerTitleShort then false
      else
        let normalized := normalizeBrokerTitleShort (default "" brokerTitleShort) in
        if bool_decide (normalized = "") then false
        else if ends_with CTRADER_ALIAS_SUFFIX id
                && Nat.eqb (String.length id) (String.length CTRADER_ALIAS_SUFFIX) then false
        else match providerIdentityFamilyForAlias id with
             | Some f => bool_decide (normalized ∈ acceptableNormalizedTitles f)
             | None => bool_decide (normalized = normalizeBrokerTitleShort expectedToken)
             end
  end.

Definition normalizeProviderBrokerIdentity (brokerTitleShort : option string) : option string :=
  if blank brokerTitleShort then None
  else
    let normalized := normalizeBrokerTitleShort (default "" brokerTitleShort) in
    if bool_decide (normalized = "") then None else Some normalized.
End Identity.

(** ** The catalog and LIVE verification *)

Module Live.
Import Identity.

Inductive VerificationStatus := UNVERIFIED | VERIFIED.
Inductive CertifiedVia := LEGACY_ATTESTATION | HARNESS_CERTIFIED.
Inductive ProviderCertificationState := NOT_CERTIFIED | LEGACY_VERIFIED | CERTIFIED.
Inductive BrokerAvailabilityStatus :=
| SUPPORTED | BETA | NOT_STARTED | PARTNER_APPROVAL_REQUIRED | UNAVAILABLE.
Inductive LiveVerificationEnvironment := DEMO | LIVE.

#[global] Instance VerificationStatus_eq_dec : EqDecision VerificationStatus.
Proof. solve_decision. Defined.
#[global] Instance CertifiedVia_eq_dec : EqDecision CertifiedVia.
Proof. solve_decision. Defined.
#[global] Instance ProviderCertificationState_eq_dec : EqDecision ProviderCertificationState.
Proof. solve_decision. Defined.
#[global] Instance BrokerAvailabilityStatus_eq_dec : EqDecision BrokerAvailabilityStatus.
Proof. solve_decision. Defined.
#[global] Instance LiveVerificationEnvironment_eq_dec : EqDecision LiveVerificationEnvironment.
Proof. solve_decision. Defined.

Record BrokerProductionLiveVerification := mkVerification {
  v_status : VerificationStatus; v_verifiedAt : option string; v_evidenceRef : option string;
  v_certifiedVia : option CertifiedVia; v_certificationRunRef : option string }.

Definition unverified : BrokerProductionLiveVerification := mkVerification UNVERIFIED None None None None.

Module Capability.
Inductive BrokerCapability :=
| ACCOUNT_READ | BALANCE_READ | POSITION_READ | ORDER_READ | HISTORY_READ
| MARKET_DATA | MARKET_DATA_STREAMING | OAUTH | API_TOKEN | SESSION_AUTH | DEMO | LIVE
| REST | WEBSOCKET | METATRADER | CTRADER | FIX | SDK | WEBHOOKS | EVENT_STREAM
| ORDER_PLACEMENT | ORDER_MODIFICATION | CLOSE_ALL | MARGIN_CALCULATION.

#[global] Instance BrokerCapability_eq_dec : EqDecision BrokerCapability.
Proof. solve_decision. Defined.
End Capability.

(** A catalog entry, without its display texts, routes and (empty) regions. *)
Record BrokerDefinition := mkDefinition {
  d_id : string; d_adapterId : option string; d_status : BrokerAvailabilityStatus;
  d_productionLiveVerification : option BrokerProductionLiveVerification;
  d_capabilities : list Capability.BrokerCapability; d_environments : list LiveVerificationEnvironment }.

Record BrokerRegistryEntry := mkEntry {
  e_id : string; e_status : BrokerAvailabilityStatus;
  e_productionLiveVerification : BrokerProductionLiveVerification;
  e_certificationState : ProviderCertificationState;
  e_capabilities : list Capability.BrokerCapability; e_environments : list LiveVerificationEnvironment;
  e_adapterAvailable : bool }.

Record ProviderLiveVerificationEvidence := mkEvidence {
  l_providerTechnology : string; l_providerIdentity : option string;
  l_environment : LiveVerificationEnvironment; l_status : VerificationStatus;
  l_verifiedAt : option string; l_evidenceRef : option string }.

(** [/^8hex-4hex-4xxx-[89ab]xxx-12hex@sha256:64hex$/i]. *)
Definition is_hex_i (c : ascii) : bool :=
  is_digit c || ((97 <=? code c) && (code c <=? 102)) || ((65 <=? code c) && (code c <=? 70)).
Definition hexes (n : nat) : re := RRep (RSet is_hex_i) n 0.
Definition lit (s : string) : re :=
  fold_right (fun c r => RSeq (RSet (fun x => ascii_eqb (to_lower x) (to_lower c))) r) REps (chars_of s).
Definition variant (c : ascii) : bool :=
  bool_decide (to_lower c ∈ ["8"; "9"; "a"; "b"]%char).

Definition runRefPattern : re :=
  RSeq (hexes 8) (RSeq (lit "-") (RSeq (hexes 4) (RSeq (lit "-4") (RSeq (hexes 3) (RSeq (lit "-")
    (RSeq (RSet variant) (RSeq (hexes 3) (RSeq (lit "-") (RSeq (hexes 12)
      (RSeq (lit "@sha256:") (hexes 64))))))))))).

Definition trimmed (s : option string) : chars := trim (chars_of (default "" s)).

Section certification.
(** Which strings [Date.parse] reads: beyond ISO 8601 this is left to the engine. *)
Context (date_parses : chars -> bool).

Definition deriveProviderCertificationState (verification : option BrokerProductionLiveVerification)
  : ProviderCertificationState :=
  match verification with
  | None => NOT_CERTIFIED
  | Some v =>
      if negb (bool_decide (v_status v = VERIFIED)) then NOT_CERTIFIED
      else if negb (bool_decide (v_certifiedVia v = Some HARNESS_CERTIFIED)) then LEGACY_VERIFIED
      else
        let verifiedAt := trimmed (v_verifiedAt v) in
        let evidenceRef := trimmed (v_evidenceRef v) in
        let certificationRunRef := trimmed (v_certificationRunRef v) in
        if bool_decide (verifiedAt = []) || negb (date_parses verifiedAt) || bool_decide (evidenceRef = [])
           || negb (re_match runRefPattern certificationRunRef)
        then NOT_CERTIFIED else CERTIFIED
  end.

Context (catalog : list BrokerDefinition) (isSupported : string -> bool).

Definition registry_entry (d : BrokerDefinition) : BrokerRegistryEntry :=
  let adapterAvailable := match d_adapterId d with Some a => isSupported a | None => false end in
  let effectiveStatus :=
    if (bool_decide (d_status d = SUPPORTED) || bool_decide (d_status d = BETA)) && negb adapterAvailable
    then NOT_STARTED else d_status d in
  mkEntry (d_id d) effectiveStatus (default unverified (d_productionLiveVerification d))
    (deriveProviderCertificationState (d_productionLiveVerification d)) (d_capabilities d) (d_environments d)
    adapterAvailable.

Definition getCatalog : list BrokerRegistryEntry := map registry_entry catalog.

Definition getEntry (brokerId : string) : option BrokerRegistryEntry :=
  List.find (fun e => bool_decide (e_id e = brokerId)) getCatalog.

Definition isConnectable (brokerId : string) : bool :=
  match getEntry brokerId with Some e => e_adapterAvailable e | None => false end.

Definition isProductionLiveEligible (brokerId : string) : bool :=
  match getEntry brokerId with
  | Some e => e_adapterAvailable e && bool_decide (e_certificationState e = CERTIFIED)
  | None => false
  end.

Definition hasCapability (brokerId : string) (capability : Capability.BrokerCapability) : bool :=
  match getEntry brokerId with Some e => bool_decide (capability ∈ e_capabilities e) | None => false end.

Definition supportsEnvironment (brokerId : string) (environment : LiveVerificationEnvironment) : bool :=
  match getEntry brokerId with Some e => bool_decide (environment ∈ e_environments e) | None => false end.
End certification.

Definition connectionLiveVerificationStatus (providerTechnology : string)
    (connectionProviderIdentity : option string) (environment : LiveVerificationEnvironment)
    (evidence : list ProviderLiveVerificationEvidence) : VerificationStatus :=
  let candidates := List.filter (fun e =>
      bool_decide (l_providerTechnology e = providerTechnology) &&
      bool_decide (l_environment e = environment) && bool_decide (l_status e = VERIFIED)) evidence in
  match candidates with
  | [] => UNVERIFIED
  | _ =>
      match connectionProviderIdentity with
      | None => UNVERIFIED
      | Some i =>
          if existsb (fun e => bool_decide (l_providerIdentity e = Some i)) candidates
          then VERIFIED else UNVERIFIED
      end
  end.

Definition catalogEntryIdentity (brokerId : string) : option string :=
  if bool_decide (brokerId = "ctrader") then None
  else match providerIdentityFamilyForAlias brokerId with
       | Some f => head (acceptableNormalizedTitles f)
       | None => None
       end.

Definition catalogEntryToEvidence (entry : BrokerRegistryEntry)
    (environments : list LiveVerificationEnvironment) : list ProviderLiveVerificationEvidence :=
  let v := e_productionLiveVerification entry in
  map (fun environment => mkEvidence (e_id entry) (catalogEntryIdentity (e_id entry)) environment
         (v_status v) (v_verifiedAt v) (v_evidenceRef v)) environments.

Definition CTRADER_FAMILY_BROKER_IDS : list string := ["ctrader"; "pepperstone-ctrader"; "icmarkets-ctrader"].

(** The shipped catalog. *)
Definition reads_data : list Capability.BrokerCapability :=
  [Capability.ACCOUNT_READ; Capability.BALANCE_READ; Capability.POSITION_READ; Capability.ORDER_READ;
   Capability.HISTORY_READ; Capability.MARKET_DATA].
Definition trades : list Capability.BrokerCapability :=
  [Capability.ORDER_PLACEMENT; Capability.ORDER_MODIFICATION; Capability.CLOSE_ALL; Capability.MARGIN_CALCULATION].
Definition ctrader_capabilities : list Capability.BrokerCapability :=
  reads_data ++ [Capability.WEBSOCKET; Capability.OAUTH; Capability.CTRADER; Capability.DEMO; Capability.LIVE] ++ trades.

Definition BROKER_CATALOG : list BrokerDefinition :=
  [mkDefinition "direct-mt5" (Some "direct-mt5") BETA (Some unverified)
     (reads_data ++ [Capability.DEMO; Capability.LIVE; Capability.METATRADER] ++ trades) [DEMO; LIVE];
   mkDefinition "metatrader5" (Some "metatrader5") SUPPORTED
     (Some (mkVerification VERIFIED None
              (Some "production operation — MetaApi bridge, live in production")
              (Some LEGACY_ATTESTATION) None))
     (reads_data ++ [Capability.MARKET_DATA_STREAMING; Capability.API_TOKEN; Capability.DEMO; Capability.LIVE;
        Capability.METATRADER; Capability.SDK; Capability.WEBHOOKS] ++ trades) [DEMO; LIVE];
   mkDefinition "paper-broker" (Some "paper-broker") SUPPORTED None
     (reads_data ++ [Capability.SESSION_AUTH; Capability.DEMO] ++ trades) [DEMO];
   mkDefinition "oanda" (Some "oanda") BETA (Some unverified)
     (reads_data ++ [Capability.REST; Capability.API_TOKEN; Capability.DEMO; Capability.LIVE] ++ trades) [DEMO; LIVE];
   mkDefinition "ctrader" (Some "ctrader") BETA (Some unverified) ctrader_capabilities [DEMO; LIVE];
   mkDefinition "pepperstone-ctrader" (Some "ctrader") BETA (Some unverified) ctrader_capabilities [DEMO; LIVE];
   mkDefinition "icmarkets-ctrader" (Some "ctrader") BETA (Some unverified) ctrader_capabilities [DEMO; LIVE]].
End Live.

(** ** Operation classes: what the emergency controls let through *)

(** the emergency controls fail closed on the operation class.  While a control is active
    the only operations let through are closes, cancellations, reads, modifications known to
    reduce risk and placements known to reduce or close; an unknown primitive or an
    unspecified effect is controlled. *)
Theorem control_classification a p r :
  Operation.operationAllowedUnderExecutionControl (Operation.classifyProviderOperation a p r) = true <->
  a = Some Operation.CLOSE \/ a = Some Operation.CANCEL \/ a = Some Operation.RECONCILE \/
  (a = Some Operation.MODIFY /\ r = Some Operation.R_REDUCING) \/
  (a = Some Operation.PLACE /\ (p = Some Operation.P_CLOSING \/ p = Some Operation.P_REDUCING)).
Proof. destruct a as [[]|], p as [[]|], r as [[]|]; vm_compute; naive_solver. Qed.

(** ** Provider responses *)

(** a provider response is never read as a refusal unless the provider refused, and never
    as a fill without a price.  It is a rejection exactly when the provider said REJECTED or
    FAILED or that it did not succeed; a fill exactly on a successful FILLED with a price,
    which it carries; an acknowledgement exactly on a successful PENDING with its order id; a
    successful answer that cannot be recorded goes to reconciliation. *)
Theorem response_mapping r :
  match Response.mapProviderOrderResponse r with
  | Response.REJECT _ =>
      Response.status r = Response.REJECTED \/ Response.status r = Response.FAILED \/ Response.success r = false
  | Response.ACKNOWLEDGE_AND_FILL id q price pnl c s =>
      Response.status r = Response.FILLED /\ Response.success r = true /\ price <> "" /\
      Response.filledPrice r = Some price /\ id = Response.externalOrderId r /\ q = Response.filledQuantity r /\
      pnl = Response.realisedPnl r /\ c = Response.commission r /\ s = Response.swap r
  | Response.ACKNOWLEDGE id =>
      Response.status r = Response.PENDING /\ Response.success r = true /\ id <> "" /\
      Response.externalOrderId r = Some id
  | Response.RECONCILIATION_PENDING _ =>
      Response.success r = true /\
      ((Response.status r = Response.FILLED /\ Response.falsy (Response.filledPrice r) = true) \/
       (Response.status r = Response.PENDING /\ Response.falsy (Response.externalOrderId r) = true))
  end.
Proof.
  destruct r as [ok st id price q pnl c s msg]. unfold Response.mapProviderOrderResponse. cbn.
  destruct st, ok; cbn; auto.
  - destruct price as [x|]; [|by auto]. cbn. case_bool_decide; naive_solver.
  - destruct id as [x|]; [|by auto]. cbn. case_bool_decide; naive_solver.
Qed.

(** ** Identities *)

Lemma family_cases a f :
  Identity.providerIdentityFamilyForAlias a = Some f ->
  (a = "pepperstone-ctrader" /\ Identity.acceptableNormalizedTitles f = ["pepperstone"]) \/
  (a = "icmarkets-ctrader" /\ Identity.acceptableNormalizedTitles f = ["icmarkets"]).
Proof.
  unfold Identity.providerIdentityFamilyForAlias, Identity.PROVIDER_IDENTITY_CATALOG. cbn [List.find fst].
  case_bool_decide as H1; [intros [= <-]; by left|]. case_bool_decide as H2; [intros [= <-]; by right|]. done.
Qed.

Lemma matches_cataloged a f t :
  Identity.providerIdentityFamilyForAlias a = Some f ->
  Identity.brokerIdentityMatches a t = true <->
    exists title, Identity.normalizeProviderBrokerIdentity t = Some title /\
                  title ∈ Identity.acceptableNormalizedTitles f.
Proof.
  intros Hf. unfold Identity.brokerIdentityMatches, Identity.normalizeProviderBrokerIdentity.
  assert (exists tok, Identity.expectedBrokerIdentityToken a = Some tok) as [tok ->]
    by (apply family_cases in Hf as [[-> _]|[-> _]]; eexists; vm_compute; reflexivity).
  destruct (Identity.blank t); [naive_solver|].
  case_bool_decide; [naive_solver|].
  assert (Identity.ends_with Identity.CTRADER_ALIAS_SUFFIX a
            && Nat.eqb (String.length a) (String.length Identity.CTRADER_ALIAS_SUFFIX) = false) as ->
    by (apply family_cases in Hf as [[-> _]|[-> _]]; vm_compute; reflexivity).
  rewrite Hf, bool_decide_eq_true. naive_solver.
Qed.

(** a branded alias accepts exactly its own brand.  A discovered title matches a cataloged
    alias only when its persisted normalized identity is the one the alias's LIVE evidence
    is scoped to, so that no title matches two different aliases. *)
Theorem alias_identity a f t :
  Identity.providerIdentityFamilyForAlias a = Some f ->
  (Identity.brokerIdentityMatches a t = true <->
     Identity.normalizeProviderBrokerIdentity t = Live.catalogEntryIdentity a) /\
  (Identity.brokerIdentityMatches a t = true ->
   forall b g, Identity.providerIdentityFamilyForAlias b = Some g ->
     Identity.brokerIdentityMatches b t = true -> b = a).
Proof.
  intros Hf. assert (forall a f, Identity.providerIdentityFamilyForAlias a = Some f ->
    (Identity.brokerIdentityMatches a t = true <->
     Identity.normalizeProviderBrokerIdentity t = Live.catalogEntryIdentity a)) as H.
  { intros a' f' Hf'. rewrite (matches_cataloged _ _ _ Hf'). unfold Live.catalogEntryIdentity.
    rewrite bool_decide_eq_false_2, Hf' by (intros ->; by vm_compute in Hf').
    apply family_cases in Hf' as [[_ ->]|[_ ->]]; set_solver. }
  split; [by apply (H _ f)|]. intros Ha b g Hg Hb. apply (H _ _ Hf) in Ha. apply (H _ _ Hg) in Hb.
  rewrite Ha in Hb. apply family_cases in Hf as [[-> _]|[-> _]], Hg as [[-> _]|[-> _]]; done.
Qed.

Lemma alias_identity_witness :
  Identity.brokerIdentityMatches "icmarkets-ctrader" (Some "IC Markets") = true /\
  Identity.normalizeProviderBrokerIdentity (Some "IC Markets") = Live.catalogEntryIdentity "icmarkets-ctrader".
Proof.
  assert (Identity.brokerIdentityMatches "icmarkets-ctrader" (Some "IC Markets") = true) as H by (vm_compute; reflexivity).
  split; [exact H|].
  exact (proj1 (proj1 (alias_identity "icmarkets-ctrader" (Identity.mkFamily "IC_MARKETS" ["icmarkets"])
    (Some "IC Markets") eq_refl)) H).
Defined.

(** ** Certification *)

Lemma hexes_lang n l : lang (Live.hexes n) l <-> length l = n /\ forallb Live.is_hex_i l = true.
Proof.
  unfold Live.hexes. revert l. induction n as [|n IH]; intros l; simpl.
  - split; [intros ->%lang_eps_inv; done|]. intros [?%nil_length_inv _]. subst. constructor.
  - split.
    + intros (a & b & -> & (c & -> & Hc)%lang_set_inv & [<- Hb]%IH)%lang_seq_inv. simpl. by rewrite Hc.
    + intros [Hl Hx]. destruct l as [|c l]; [done|]. simpl in Hl, Hx. apply andb_true_iff in Hx as [Hc Hx].
      change (c :: l) with ([c] ++ l). constructor; [by constructor|]. apply IH. split; [lia|done].
Qed.

(** Text that reads [s] up to case. *)
Definition reads (s : string) (l : chars) : Prop := map Identity.to_lower l = map Identity.to_lower (chars_of s).

Lemma lit_lang s l : lang (Live.lit s) l -> reads s l.
Proof.
  unfold Live.lit, reads. generalize (chars_of s) as t. intros t. revert l.
  induction t as [|c t IH]; intros l; simpl; [by intros ->%lang_eps_inv|].
  intros (a & b & -> & (x & -> & Hx)%lang_set_inv & Hb)%lang_seq_inv. simpl. f_equal; [|by apply IH].
  by apply bool_decide_eq_true in Hx.
Qed.

Record certified_evidence_of (date_parses : chars -> bool) (v : Live.BrokerProductionLiveVerification) : Prop := {
  cv_status : Live.v_status v = Live.VERIFIED;
  cv_via : Live.v_certifiedVia v = Some Live.HARNESS_CERTIFIED;
  cv_date : date_parses (Live.trimmed (Live.v_verifiedAt v)) = true;
  cv_dated : Live.trimmed (Live.v_verifiedAt v) <> [];
  cv_ref : Live.trimmed (Live.v_evidenceRef v) <> [];
  cv_run : exists run at_sha digest, Live.trimmed (Live.v_certificationRunRef v) = run ++ at_sha ++ digest /\
    length run = 36%nat /\ reads "@sha256:" at_sha /\ length digest = 64%nat /\
    forallb Live.is_hex_i digest = true }.

Lemma reads_length s l : reads s l -> length l = length (chars_of s).
Proof. intros H%(f_equal length). by rewrite !length_map in H. Qed.

Lemma run_ref_parts l :
  re_match Live.runRefPattern l = true ->
  exists run at_sha digest, l = run ++ at_sha ++ digest /\ length run = 36%nat /\ reads "@sha256:" at_sha /\
    length digest = 64%nat /\ forallb Live.is_hex_i digest = true.
Proof.
  intros (h1 & r1 & -> & [H1 _]%hexes_lang & (m1 & r2 & -> & M1%lit_lang & (h2 & r3 & -> & [H2 _]%hexes_lang
    & (m2 & r4 & -> & M2%lit_lang & (h3 & r5 & -> & [H3 _]%hexes_lang & (m3 & r6 & -> & M3%lit_lang
    & (v & r7 & -> & (c & -> & _)%lang_set_inv & (h4 & r8 & -> & [H4 _]%hexes_lang & (m4 & r9 & -> & M4%lit_lang
    & (h5 & r10 & -> & [H5 _]%hexes_lang & (at_sha & digest & -> & Hat%lit_lang & [Hd Hx]%hexes_lang)
    %lang_seq_inv)%lang_seq_inv)%lang_seq_inv)%lang_seq_inv)%lang_seq_inv)%lang_seq_inv)%lang_seq_inv)%lang_seq_inv)%lang_seq_inv)%lang_seq_inv)%re_match_iff%lang_seq_inv.
  exists (h1 ++ m1 ++ h2 ++ m2 ++ h3 ++ m3 ++ [c] ++ h4 ++ m4 ++ h5), at_sha, digest.
  split; [by rewrite <- ?app_assoc|]. split; [|done].
  apply reads_length in M1, M2, M3, M4. cbn in M1, M2, M3, M4. rewrite !length_app. cbn. lia.
Qed.

(** only complete harness evidence certifies.  A provider is CERTIFIED exactly on VERIFIED
    harness evidence with a date that parses, a non-empty evidence reference and a run
    reference of the form [<36-character run id>@sha256:<64 hex digits>]; a legacy
    attestation is never more than LEGACY_VERIFIED. *)
Theorem certification_sound date_parses verification :
  (Live.deriveProviderCertificationState date_parses verification = Live.CERTIFIED ->
     exists v, verification = Some v /\ certified_evidence_of date_parses v) /\
  (Live.deriveProviderCertificationState date_parses verification = Live.LEGACY_VERIFIED <->
     exists v, verification = Some v /\ Live.v_status v = Live.VERIFIED /\
               Live.v_certifiedVia v <> Some Live.HARNESS_CERTIFIED).
Proof.
  destruct verification as [v|]; simpl; [|naive_solver].
  destruct (bool_decide_reflect (Live.v_status v = Live.VERIFIED)) as [Hs|Hs]; simpl; [|naive_solver].
  destruct (bool_decide_reflect (Live.v_certifiedVia v = Some Live.HARNESS_CERTIFIED)) as [Hv|Hv]; simpl;
    [|naive_solver].
  destruct (_ || _) eqn:Hc; [naive_solver|]. bool_to_prop.
  split; [|naive_solver]. intros _. exists v. split; [done|]. split; try done.
  by apply run_ref_parts.
Qed.

(** ** Identity-scoped verification *)

(** LIVE verification is identity-scoped.  A connection is VERIFIED exactly when some
    VERIFIED evidence for the technology and environment names the connection's own
    identity: evidence for other brokers and technology-level evidence authorize nothing,
    and an unknown identity is never verified. *)
Theorem live_identity_scoped tech ident env evidence :
  Live.connectionLiveVerificationStatus tech ident env evidence = Live.VERIFIED <->
  exists i e, ident = Some i /\ e ∈ evidence /\ Live.l_providerTechnology e = tech /\
    Live.l_environment e = env /\ Live.l_status e = Live.VERIFIED /\ Live.l_providerIdentity e = Some i.
Proof.
  unfold Live.connectionLiveVerificationStatus.
  match goal with |- context [List.filter ?f evidence] => set (p := f) end.
  assert (forall i, existsb (fun e => bool_decide (Live.l_providerIdentity e = Some i))
      (List.filter p evidence) = true <->
    exists e, e ∈ evidence /\ Live.l_providerTechnology e = tech /\ Live.l_environment e = env /\
      Live.l_status e = Live.VERIFIED /\ Live.l_providerIdentity e = Some i) as Hex.
  { intros i. rewrite existsb_exists. setoid_rewrite filter_In. setoid_rewrite <- list_elem_of_In.
    unfold p. split; [intros (e & [He Hp] & Hi); bool_to_prop; eauto 7|].
    intros (e & ? & ? & ? & ? & ?). exists e. by rewrite !bool_decide_eq_true_2. }
  destruct (List.filter p evidence) eqn:E.
  - split; [done|]. intros (i & e & -> & He). pose proof (proj2 (Hex i) (ex_intro _ e He)) as Hc. by simpl in Hc.
  - rewrite <- E in *. destruct ident as [i|]; [|naive_solver].
    specialize (Hex i). destruct (existsb _ _); naive_solver.
Qed.

Lemma shipped_not_eligible date_parses isSupported id :
  Live.isProductionLiveEligible date_parses Live.BROKER_CATALOG isSupported id = false.
Proof.
  unfold Live.isProductionLiveEligible, Live.getEntry, Live.getCatalog.
  destruct (List.find _ _) as [e|] eqn:E; [|done]. apply find_some in E as [Hin _].
  unfold Live.BROKER_CATALOG in Hin. cbn [map] in Hin.
  assert (Live.e_certificationState e <> Live.CERTIFIED) as Hc
    by (repeat destruct Hin as [<-|Hin]; try (intros [=]; fail); destruct Hin).
  by rewrite bool_decide_eq_false_2, andb_comm.
Qed.

(** nothing shipped is production-LIVE.  With the shipped catalog, whatever adapters are
    registered and whatever the engine's date parsing, no provider is production-LIVE
    eligible; MetaTrader 5 is LEGACY_VERIFIED only; the paper broker has no LIVE environment. *)
Theorem shipped_catalog_closed date_parses isSupported :
  (forall id, Live.isProductionLiveEligible date_parses Live.BROKER_CATALOG isSupported id = false) /\
  (forall e, Live.getEntry date_parses Live.BROKER_CATALOG isSupported "metatrader5" = Some e ->
     Live.e_certificationState e = Live.LEGACY_VERIFIED) /\
  Live.supportsEnvironment date_parses Live.BROKER_CATALOG isSupported "paper-broker" Live.LIVE = false.
Proof.
  split; [|split; [by intros e [= <-]|done]].
  intros id. apply shipped_not_eligible.
Qed.
