(* ===== verification/OrderService.v ===== *)
(** * OrderService ([execution/orders/order.service.ts])

    Idempotent submission, the state-machine-guarded transitions and the fill accounting.
    Each awaited statement is one operation of the program.  The [CHECK] constraints of
    migration 1753600000000 (with the status list of 1754300000000) are [order_checks]:
    every write is refused when the new row breaks them.  [submitOrder]'s transaction is
    modelled statement by statement: its only write is the [INSERT], so an abort after
    it is a lost acknowledgement.  PostgreSQL's numeric division and SHA-256 are
    parameters. *)

From S2P Require Import Prelude Prog JsString Decimal StateMachines Comparator Store.
From stdpp Require Import relations.
Open Scope string_scope.
Open Scope list_scope.
Open Scope Z_scope.

(** [a / b] of PostgreSQL numerics, stored in a numeric column: numerator and denominator
    are integers, the result is in the column's unit.  The documented behaviour used is
    that the stored value is within one unit of the exact quotient. *)
Class PgNumeric := {
  pg_div : Z -> Z -> Z;
  pg_div_near n d : 0 <= n -> 0 < d -> Z.abs (pg_div n d * d - n) < d }.

(** Rounding to nearest is such a division. *)
Definition div_nearest (n d : Z) : Z := (2 * n + d) / (2 * d).

#[global] Program Instance PgNumeric_nearest : PgNumeric := {| pg_div := div_nearest |}.
Next Obligation.
  intros n d Hn Hd. unfold div_nearest.
  pose proof (Z.div_mod (2 * n + d) (2 * d) ltac:(lia)) as Hq.
  pose proof (Z.mod_pos_bound (2 * n + d) (2 * d) ltac:(lia)) as Hr.
  cbv beta. nia.
Qed.

(** ** Inputs *)

Record SubmitOrderInput := mkSubmit {
  in_userId : string; in_brokerConnectionId : string; in_clientOrderId : string;
  in_orderKind : stored OrderKind; in_timeInForce : stored OrderTimeInForce;
  in_instrument : string; in_direction : string; in_requestedQuantity : string;
  in_requestedPrice : option string; in_stopPrice : option string;
  in_signalId : option string; in_tradeId : option string }.

Inductive OrderSubmissionResult := RESERVED_NEW (o : Order) | DUPLICATE_EXISTING (o : Order).

Record ApplyFillInput := mkFill {
  f_quantity : string; f_price : string; f_providerOrderId : option string }.

(** [/^\d+(\.\d{1,4})?$/], [/^\d+(\.\d{1,8})?$/] and [/^[A-Za-z0-9._-]{1,100}$/]. *)
Definition decimal_pattern (digits : nat) : re :=
  RSeq (RPlus RDigit) (ROpt (RSeq (RChar ".") (RRep RDigit 1 (digits - 1)))).
Definition QUANTITY_PATTERN : re := decimal_pattern 4.
Definition PRICE_PATTERN : re := decimal_pattern 8.
Definition CLIENT_ORDER_ID_PATTERN : re :=
  RRep (RSet (fun c => is_upper c || is_lower c || is_digit c
                       || ascii_eqb c "." || ascii_eqb c "_" || ascii_eqb c "-")) 1 99.

(** The value, in units of [10^-scale], of a string the patterns accept. *)
Definition numeric_value (scale : nat) (raw : string) : Z :=
  let parts := split_on "." (chars_of raw) in
  let ip := default [] (parts !! 0%nat) in
  let fp := default [] (parts !! 1%nat) in
  digits_val (ip ++ take scale (fp ++ replicate scale "0"%char)).

(** [PATTERN.test(s) && parseFloat(s) > 0]: on a string of the pattern [parseFloat] is
    positive exactly when some digit is. *)
Definition positive_decimal (scale : nat) (raw : string) : bool :=
  re_match (decimal_pattern scale) (chars_of raw) && (0 <? numeric_value scale raw).

(** A literal entering a numeric(p,s) column. *)
Definition numeric_in (p : Z) (scale : nat) (raw : string) : result exn Z :=
  let v := numeric_value scale raw in
  if v <? 10 ^ p then Ok v else Err NumericOverflow.

(** The text PostgreSQL returns for a numeric(p,s) value. *)
Definition numeric_out (scale : Z) (v : Z) : string := string_of (toString (mkED v scale)).

Section results.
Local Open Scope result_scope.

Definition guard (b : bool) (message : string) : result exn unit :=
  if b then Ok tt else Err (BadRequestException message).

Definition price_rule (required : bool) (p : option string) (message : string) : result exn unit :=
  if required then
    guard (match p with
           | Some s => negb (bool_decide (s = "")) && positive_decimal 8 s
           | None => false
           end) message
  else guard (bool_decide (p = None)) message.

Definition price_rules (k : OrderKind) : bool * bool :=
  match k with
  | MARKET => (false, false) | LIMIT => (true, false)
  | STOP => (false, true) | STOP_LIMIT => (true, true)
  end.

Definition validateSubmission (i : SubmitOrderInput) : result exn (OrderKind * OrderTimeInForce) :=
  try! _ := guard (negb (bool_decide (in_userId i = ""))) "userId" in
  try! _ := guard (negb (bool_decide (in_brokerConnectionId i = ""))) "brokerConnectionId" in
  try! _ := guard (re_match CLIENT_ORDER_ID_PATTERN (chars_of (in_clientOrderId i))) "clientOrderId" in
  match in_orderKind i with
  | Known kind =>
      match in_timeInForce i with
      | Known tif =>
          try! _ := guard (negb (bool_decide (trim (chars_of (in_instrument i)) = []))
                           && bool_decide (String.length (in_instrument i) <= 50)%nat) "instrument" in
          try! _ := guard (bool_decide (in_direction i ∈ ["BUY"; "SELL"])) "direction" in
          try! _ := guard (positive_decimal 4 (in_requestedQuantity i)) "requestedQuantity" in
          try! _ := price_rule (fst (price_rules kind)) (in_requestedPrice i) "requestedPrice" in
          try! _ := price_rule (snd (price_rules kind)) (in_stopPrice i) "stopPrice" in
          Ok (kind, tif)
      | _ => Err (BadRequestException "timeInForce")
      end
  | _ => Err (BadRequestException "orderKind")
  end.

Definition validateFill (f : ApplyFillInput) : result exn unit :=
  try! _ := guard (positive_decimal 4 (f_quantity f)) "fill quantity" in
  guard (positive_decimal 8 (f_price f)) "fill price".
End results.

(** ** The table *)

(** The [CHECK] constraints; kind, time in force and status are typed columns here, and
    [chk_orders_direction] is the first conjunct. *)
Definition price_kind_ok (k : OrderKind) (p s : option Z) : bool :=
  match k with
  | MARKET => bool_decide (p = None) && bool_decide (s = None)
  | LIMIT => bool_decide (is_Some p) && bool_decide (s = None)
  | STOP => bool_decide (p = None) && bool_decide (is_Some s)
  | STOP_LIMIT => bool_decide (is_Some p) && bool_decide (is_Some s)
  end.

Definition order_checks (o : Order) : bool :=
  bool_decide (o_direction o ∈ ["BUY"; "SELL"]) &&
  (0 <? o_requested o) &&
  ((0 <=? o_filled o) && (o_filled o <=? o_requested o)) &&
  (((o_filled o =? 0) && bool_decide (o_avg o = None))
   || ((0 <? o_filled o) && bool_decide (is_Some (o_avg o)))) &&
  match o_status o with
  | Order.FILLED => o_filled o =? o_requested o
  | Order.PARTIALLY_FILLED => (0 <? o_filled o) && (o_filled o <? o_requested o)
  | _ => o_filled o <? o_requested o
  end &&
  price_kind_ok (o_kind o) (o_price o) (o_stop o) &&
  ((o_filled o =? 0) || bool_decide (is_Some (o_submittedAt o))).

Definition with_status (st : Order.OrderStatus) (o : Order) : Order :=
  mkOrder (o_id o) (o_userId o) (o_brokerConnectionId o) (o_tradeId o) (o_signalId o)
    (o_clientOrderId o) (o_idempotencyKey o) (o_providerOrderId o) (o_kind o) (o_timeInForce o)
    (o_instrument o) (o_direction o) (o_requested o) (o_price o) (o_stop o) (o_filled o) (o_avg o)
    st (o_rejectReason o) (o_submittedAt o) (o_finalizedAt o) (o_createdAt o) (o_updatedAt o).

(** [UPDATE trading.orders SET f WHERE id = .. AND p RETURNING *]. *)
Definition order_update_act (p : Order -> bool) (f : Z -> Order -> result exn Order) (id : string)
    (d : DB) : DB * result exn (option Order) :=
  match orders d !! id with
  | Some o =>
      if p o then
        match f (now d) o with
        | Ok o' => if order_checks o' then (set_orders (<[id := o']> (orders d)) d, Ok (Some o'))
                   else (d, Err (CheckViolation "trading.orders"))
        | Err e => (d, Err e)
        end
      else (d, Ok None)
  | None => (d, Ok None)
  end.

Definition order_update p f id : io (option Order) := op (order_update_act p f id).

Definition has_key (key : string) (o : Order) : bool := bool_decide (o_idempotencyKey o = key).

Definition find_by_key (key : string) (d : DB) : option Order := find_row (has_key key) (orders d).

(** [INSERT INTO trading.orders .. RETURNING *]: the primary key, the unique index
    [uq_orders_idempotency_key], the column types and the [CHECK]s. *)
Definition order_insert_act (row : Z -> result exn Order) (d : DB) : DB * result exn Order :=
  match row (now d) with
  | Err e => (d, Err e)
  | Ok o =>
      if negb (order_checks o) then (d, Err (CheckViolation "trading.orders"))
      else if bool_decide (is_Some (orders d !! o_id o)) then (d, Err (UniqueViolation "pk_orders"))
      else if bool_decide (is_Some (find_by_key (o_idempotencyKey o) d))
      then (d, Err (UniqueViolation "uq_orders_idempotency_key"))
      else (set_orders (<[o_id o := o]> (orders d)) d, Ok o)
  end.

(** ** The service *)

Section service.
Context `{!PgNumeric} (sha256 : string -> string).
Local Open Scope prog_scope.

Definition generateIdempotencyKey (userId clientOrderId : string) : string :=
  sha256 (userId +:+ ":" +:+ clientOrderId).

Definition findOrderById (id : string) : io (option Order) := sel (fun d => orders d !! id).
Definition findByClientOrderId (userId clientOrderId : string) : io (option Order) :=
  sel (find_by_key (generateIdempotencyKey userId clientOrderId)).
Definition findByTradeId (tradeId : string) : io (option Order) :=
  sel (fun d => find_row (fun o => bool_decide (o_tradeId o = Some tradeId)) (orders d)).

(** The row [submitOrder] inserts, at time [t]; a price argument enters its column as
    soon as it is present. *)
Definition new_order (newId : string) (kind : OrderKind) (tif : OrderTimeInForce) (key : string)
    (i : SubmitOrderInput) (t : Z) : result exn Order :=
  let price (p : option string) : result exn (option Z) :=
    match p with Some s => rmap Some (numeric_in 18 8 s) | None => Ok None end in
  rbind (numeric_in 10 4 (in_requestedQuantity i)) (fun q =>
  rbind (price (in_requestedPrice i)) (fun p =>
  rbind (price (in_stopPrice i)) (fun s =>
    Ok (mkOrder newId (in_userId i) (in_brokerConnectionId i) (in_tradeId i) (in_signalId i)
          (in_clientOrderId i) key None kind tif (in_instrument i) (in_direction i)
          q p s 0 None Order.CREATED None None None t t)))).

(** [newId] is the uuid [gen_random_uuid()] will answer. *)
Definition submitOrder (newId : string) (i : SubmitOrderInput) : io OrderSubmissionResult :=
  match validateSubmission i with
  | Err e => Throw e
  | Ok (kind, tif) =>
      let key := generateIdempotencyKey (in_userId i) (in_clientOrderId i) in
      let* existing := sel (find_by_key key) in
      match existing with
      | Some o => Ret (DUPLICATE_EXISTING o)
      | None =>
          catch
            (let* o := op (order_insert_act (new_order newId kind tif key i)) in
             Ret (RESERVED_NEW o))
            (fun err =>
               if isUniqueViolation err then
                 let* duplicate := sel (find_by_key key) in
                 match duplicate with
                 | Some o => Ret (DUPLICATE_EXISTING o)
                 | None => Throw err
                 end
               else Throw err)
      end
  end.

Record transition_extras := mkExtras {
  x_providerOrderId : option string; x_rejectReason : option string; x_setSubmittedAt : bool }.

Definition transition_patch (to : Order.OrderStatus) (x : transition_extras) (t : Z) (o : Order)
  : result exn Order :=
  Ok (mkOrder (o_id o) (o_userId o) (o_brokerConnectionId o) (o_tradeId o) (o_signalId o)
        (o_clientOrderId o) (o_idempotencyKey o)
        (match x_providerOrderId x with Some p => Some p | None => o_providerOrderId o end)
        (o_kind o) (o_timeInForce o) (o_instrument o) (o_direction o)
        (o_requested o) (o_price o) (o_stop o) (o_filled o) (o_avg o) to
        (match x_rejectReason x with Some r => Some r | None => o_rejectReason o end)
        (if x_setSubmittedAt x then Some t else o_submittedAt o)
        (if Order.isTerminal (Known to) then Some t else o_finalizedAt o)
        (o_createdAt o) t).

Definition in_status (st : Order.OrderStatus) (o : Order) : bool := bool_decide (o_status o = st).

Definition applyTransition (orderId : string) (to : Order.OrderStatus) (x : transition_extras)
  : io (option Order) :=
  let* current := findOrderById orderId in
  match current with
  | None => Throw (NotFoundException "order")
  | Some o =>
      match Order.assert (Known (o_status o)) to with
      | Err t => Throw (InvalidOrderTransition t)
      | Ok _ =>
          let* updated := order_update (in_status (o_status o)) (transition_patch to x) orderId in
          match updated with
          | None => Throw (ConflictException "state changed concurrently")
          | Some _ => findOrderById orderId
          end
      end
  end.

(** [s.slice(0, 500)]. *)
Definition slice500 (s : string) : string := substring 0 500 s.
Definition blank (s : string) : bool := bool_decide (trim (chars_of s) = []).

Definition markSubmitted (orderId : string) (providerOrderId : option string) : io (option Order) :=
  applyTransition orderId Order.SUBMITTED (mkExtras providerOrderId None true).

Definition markAcknowledged (orderId providerOrderId : string) : io (option Order) :=
  if blank providerOrderId then Throw (BadRequestException "providerOrderId")
  else applyTransition orderId Order.ACKNOWLEDGED (mkExtras (Some providerOrderId) None false).

Definition rejectOrder (orderId reason : string) : io (option Order) :=
  if blank reason then Throw (BadRequestException "reject reason")
  else applyTransition orderId Order.REJECTED (mkExtras None (Some (slice500 reason)) false).

(** [reason ? reason.slice(0, 500) : null]. *)
Definition optional_reason (r : option string) : option string :=
  match r with Some s => if bool_decide (s = "") then None else Some (slice500 s) | None => None end.

Definition cancelOrder (orderId : string) (reason : option string) : io (option Order) :=
  applyTransition orderId Order.CANCELLED (mkExtras None (optional_reason reason) false).

Definition expireOrder (orderId : string) : io (option Order) :=
  applyTransition orderId Order.EXPIRED (mkExtras None None false).

Definition markReconciliationPending (orderId : string) : io (option Order) :=
  applyTransition orderId Order.RECONCILIATION_PENDING (mkExtras None None false).

Definition resolveReconciliation (orderId : string) (resolvedTo : Order.OrderStatus)
    (providerOrderId rejectReason : option string) : io (option Order) :=
  if bool_decide (resolvedTo ∈ [Order.FILLED; Order.PARTIALLY_FILLED])
  then Throw (ConflictException "fill-bearing reconciliation")
  else applyTransition orderId resolvedTo
         (mkExtras providerOrderId (optional_reason rejectReason) false).

Definition cmp_or_throw (a b : string) : io comparison :=
  match compareDecimal a b 10 with Ok c => Ret c | Err _ => Throw MalformedDecimal end.

Definition resolveReconciliationFillState (orderId : string) (target : Order.OrderStatus)
    (providerOrderId : option string) : io (option Order) :=
  if negb (bool_decide (target ∈ [Order.FILLED; Order.PARTIALLY_FILLED]))
  then Throw (ConflictException "target")
  else
    let* current := findOrderById orderId in
    match current with
    | None => Throw (NotFoundException "order")
    | Some o =>
        if negb (bool_decide (o_status o = Order.RECONCILIATION_PENDING))
        then Throw (ConflictException "not RECONCILIATION_PENDING")
        else
          let filled := numeric_out 4 (o_filled o) in
          let* short :=
            (if bool_decide (target = Order.FILLED) then
               let* c := cmp_or_throw filled (numeric_out 4 (o_requested o)) in
               Ret (bool_decide (c = Lt))
             else Ret false) in
          if short then Throw (ConflictException "fill has not reached the requested quantity")
          else
            let* empty :=
              (if bool_decide (target = Order.PARTIALLY_FILLED) then
                 let* c := cmp_or_throw filled "0" in Ret (negb (bool_decide (c = Gt)))
               else Ret false) in
            if empty then Throw (ConflictException "no fill is recorded")
            else applyTransition orderId target
                   (mkExtras providerOrderId
                      (Some ("Reconciliation resolved by provider fill-bearing state " +:+
                             (if bool_decide (target = Order.FILLED)
                              then "FILLED" else "PARTIALLY_FILLED"))) false)
    end.

(** The [SET] list of [applyFill]; [q] and [price] are [$2::numeric] and [$3::numeric]. *)
Definition fill_patch (q price : Z) (providerOrderId : option string) (t : Z) (o : Order)
  : result exn Order :=
  let filled := o_filled o + q in
  let avg := if o_filled o =? 0 then Some price
             else (fun a => pg_div (a * o_filled o + price * q) filled) <$> o_avg o in
  let done := filled =? o_requested o in
  if match avg with Some a => 10 ^ 18 <=? a | None => false end then Err NumericOverflow
  else
    Ok (mkOrder (o_id o) (o_userId o) (o_brokerConnectionId o) (o_tradeId o) (o_signalId o)
          (o_clientOrderId o) (o_idempotencyKey o)
          (match providerOrderId with Some p => Some p | None => o_providerOrderId o end)
          (o_kind o) (o_timeInForce o) (o_instrument o) (o_direction o)
          (o_requested o) (o_price o) (o_stop o) filled avg
          (if done then Order.FILLED else Order.PARTIALLY_FILLED)
          (o_rejectReason o) (o_submittedAt o)
          (if done then Some t else o_finalizedAt o) (o_createdAt o) t).

Definition applyFill (orderId : string) (fill : ApplyFillInput) : io Order :=
  match validateFill fill with
  | Err e => Throw e
  | Ok _ =>
      let q := numeric_value 4 (f_quantity fill) in
      let price := numeric_value 8 (f_price fill) in
      let* current := findOrderById orderId in
      match current with
      | None => Throw (NotFoundException "order")
      | Some o =>
          if negb (Order.isFillable (Known (o_status o)))
          then Throw (ConflictException "not fillable")
          else
            let* row := order_update
                          (fun r => in_status (o_status o) r && (o_filled r + q <=? o_requested r))
                          (fill_patch q price (f_providerOrderId fill)) orderId in
            match row with
            | Some r => Ret r
            | None =>
                let* recheck := findOrderById orderId in
                match recheck with
                | Some r => if Order.isFillable (Known (o_status r))
                            then Throw (ConflictException "exceeds remaining quantity")
                            else Throw (ConflictException "state changed concurrently")
                | None => Throw (ConflictException "state changed concurrently")
                end
            end
      end
  end.
End service.

(** ** Evolution of the order table

    What every statement of the service respects, whatever runs in between: an order
    keeps its identity and its terms, its status follows the transition table, its fill
    never shrinks, and a well-formed table stays well-formed. *)

Record order_evolves (o o' : Order) : Prop := {
  oe_id : o_id o' = o_id o;
  oe_user : o_userId o' = o_userId o;
  oe_key : o_idempotencyKey o' = o_idempotencyKey o;
  oe_requested : o_requested o' = o_requested o;
  oe_status : reach Order.ALLOWED_TRANSITIONS (o_status o) (o_status o');
  oe_filled : o_filled o <= o_filled o' }.

#[export] Instance order_evolves_preorder : PreOrder order_evolves.
Proof.
  split.
  - intros o. by constructor.
  - intros x y z [] []. constructor; try congruence; [by etransitivity|lia].
Qed.

Definition orders_wf (d : DB) : Prop :=
  (forall id o, orders d !! id = Some o -> o_id o = id /\ order_checks o = true) /\
  (forall id1 id2 o1 o2, orders d !! id1 = Some o1 -> orders d !! id2 = Some o2 ->
     o_idempotencyKey o1 = o_idempotencyKey o2 -> id1 = id2).

Record order_rel (d d' : DB) : Prop := {
  or_evolves : forall id o, orders d !! id = Some o ->
    exists o', orders d' !! id = Some o' /\ order_evolves o o';
  or_wf : orders_wf d -> orders_wf d' }.

#[export] Instance order_rel_preorder : PreOrder order_rel.
Proof.
  split.
  - intros d. constructor; [|done]. intros id o Ho. exists o. split; [done|reflexivity].
  - intros x y z [Hxy Hwxy] [Hyz Hwyz]. constructor; [|auto]. intros id o Ho.
    destruct (Hxy id o Ho) as (o1 & Ho1 & H1). destruct (Hyz id o1 Ho1) as (o2 & Ho2 & H2).
    exists o2. split; [done|]. by etransitivity.
Qed.

(** Any step that leaves the order table alone respects it. *)
Lemma order_rel_same d d' : orders d' = orders d -> order_rel d d'.
Proof.
  intros Heq. constructor; unfold orders_wf; rewrite Heq; [|done].
  intros id o Ho. exists o. split; [done|reflexivity].
Qed.

Lemma order_update_cases p f id d d' r :
  order_update_act p f id d = (d', r) ->
  (d' = d /\ forall o, r <> Ok (Some o)) \/
  exists o o', orders d !! id = Some o /\ p o = true /\ f (now d) o = Ok o' /\
    order_checks o' = true /\ d' = set_orders (<[id := o']> (orders d)) d /\ r = Ok (Some o').
Proof.
  unfold order_update_act. destruct (orders d !! id) as [o|] eqn:Ho; [|intros [= <- <-]; by left].
  destruct (p o) eqn:Hp; [|intros [= <- <-]; by left].
  destruct (f (now d) o) as [o'|e] eqn:Hf; [|intros [= <- <-]; by left].
  destruct (order_checks o') eqn:Hc; [|intros [= <- <-]; by left].
  intros [= <- <-]. right. eauto 10.
Qed.

Lemma order_update_rel p f id d :
  (forall t o o', p o = true -> f t o = Ok o' -> order_evolves o o') ->
  order_rel d (fst (order_update_act p f id d)).
Proof.
  intros Hpf. destruct (order_update_act p f id d) as [d' r] eqn:E. simpl.
  apply order_update_cases in E as [[-> _]|(o & o' & Ho & Hp & Hf & Hc & -> & _)]; [reflexivity|].
  specialize (Hpf _ _ _ Hp Hf). constructor.
  - intros id0 o0 Ho0. simpl. destruct (decide (id = id0)) as [->|Hne].
    + simplify_map_eq. eauto.
    + exists o0. rewrite lookup_insert_ne by done. split; [done|reflexivity].
  - intros [Hrow Hkey]. split; simpl.
    + intros id0 o0. destruct (decide (id = id0)) as [->|Hne].
      * rewrite lookup_insert_eq. intros [= <-]. split; [|done].
        rewrite (oe_id _ _ Hpf). by apply Hrow.
      * rewrite lookup_insert_ne by done. apply Hrow.
    + assert (forall i x, <[id:=o']> (orders d) !! i = Some x ->
                exists y, orders d !! i = Some y /\ o_idempotencyKey x = o_idempotencyKey y) as Hold.
      { intros i x. destruct (decide (id = i)) as [->|Hne].
        - rewrite lookup_insert_eq. intros [= <-]. exists o. split; [done|]. apply Hpf.
        - rewrite lookup_insert_ne by done. eauto. }
      intros id1 id2 o1 o2 (y1 & ? & H1)%Hold (y2 & ? & H2)%Hold Heq.
      apply (Hkey id1 id2 y1 y2); [done..|congruence].
Qed.

Lemma order_insert_cases row d d' r :
  order_insert_act row d = (d', r) ->
  (d' = d /\ is_ok r = false) \/
  exists o, row (now d) = Ok o /\ order_checks o = true /\ orders d !! o_id o = None /\
    find_by_key (o_idempotencyKey o) d = None /\
    d' = set_orders (<[o_id o := o]> (orders d)) d /\ r = Ok o.
Proof.
  unfold order_insert_act. destruct (row (now d)) as [o|e]; [|intros [= <- <-]; by left].
  destruct (order_checks o) eqn:Hc; [|intros [= <- <-]; by left]. cbn [negb].
  case_bool_decide as Hid; [intros [= <- <-]; by left|].
  case_bool_decide as Hk; [intros [= <- <-]; by left|].
  intros [= <- <-]. right. exists o.
  rewrite <- eq_None_not_Some in Hid, Hk. done.
Qed.

Lemma order_insert_rel row d : order_rel d (fst (order_insert_act row d)).
Proof.
  destruct (order_insert_act row d) as [d' r] eqn:E. simpl.
  apply order_insert_cases in E as [[-> _]|(o & _ & Hc & Hid & Hk & -> & _)]; [reflexivity|].
  constructor.
  - intros id x Hx. exists x. simpl. rewrite lookup_insert_ne by congruence. split; [done|reflexivity].
  - intros [Hrow Hkey]. split; simpl.
    + intros id x. destruct (decide (o_id o = id)) as [<-|Hne].
      * rewrite lookup_insert_eq. intros [= <-]. done.
      * rewrite lookup_insert_ne by done. apply Hrow.
    + unfold find_by_key in Hk. rewrite find_row_none in Hk.
      assert (forall i x, orders d !! i = Some x -> o_idempotencyKey x <> o_idempotencyKey o) as Hfresh.
      { intros i x Hx. specialize (Hk i x Hx). by apply bool_decide_eq_false in Hk. }
      intros id1 id2 o1 o2. rewrite !lookup_insert_Some.
      intros [[<- <-]|[Hn1 H1]] [[<- <-]|[Hn2 H2]] Heq; [done| | |by eapply Hkey];
        exfalso; [apply (Hfresh _ _ H2)|apply (Hfresh _ _ H1)]; congruence.
Qed.

(** ** Every method respects it *)

Section guarantees.
Context `{!PgNumeric} (sha256 : string -> string).

Lemma guar_update p f id :
  (forall t o o', p o = true -> f t o = Ok o' -> order_evolves o o') ->
  guar order_rel (order_update p f id).
Proof. intros. apply guar_op. intros. by apply order_update_rel. Qed.

Lemma transition_evolves from to x t o o' :
  Order.can (Known from) to = true -> in_status from o = true ->
  transition_patch to x t o = Ok o' -> order_evolves o o'.
Proof.
  intros Hc Hs%bool_decide_eq_true [= <-]. constructor; try done; simpl.
  apply rtc_once. unfold step. by rewrite Hs.
Qed.

Lemma guar_applyTransition id to x : guar order_rel (applyTransition id to x).
Proof.
  unfold applyTransition, findOrderById. guar_walk. apply guar_update.
  intros t o1 o2. apply transition_evolves.
  match goal with H : _ = Ok _ |- _ => unfold Order.assert, assertTransition in H end.
  unfold Order.can. by destruct (canTransition _ _ _).
Qed.

Lemma fillable_reach s (done : bool) :
  Order.isFillable (Known s) = true ->
  reach Order.ALLOWED_TRANSITIONS s (if done then Order.FILLED else Order.PARTIALLY_FILLED).
Proof.
  intros Hs. destruct s; try discriminate Hs; destruct done;
    first [reflexivity|apply rtc_once; reflexivity].
Qed.

Lemma guar_applyFill id fill : guar order_rel (applyFill id fill).
Proof.
  unfold applyFill. destruct (validateFill fill) as [|] eqn:Hv; [|done].
  unfold findOrderById. guar_walk.
  apply guar_update. intros t r r' [Hs%bool_decide_eq_true Hle]%andb_true_iff. unfold fill_patch.
  case_match; [done|]. intros [= <-]. constructor; try done; simpl.
  - match goal with H : negb _ = false |- _ => apply negb_false_iff in H; rename H into Hf end.
    rewrite Hs. by apply fillable_reach.
  - assert (0 < numeric_value 4 (f_quantity fill)); [|lia].
    unfold validateFill, guard in Hv.
    destruct (positive_decimal 4 (f_quantity fill)) eqn:Hq; [|done].
    apply andb_true_iff in Hq as [_ Hq]. by apply Z.ltb_lt.
Qed.

Lemma guar_submitOrder newId i : guar order_rel (submitOrder sha256 newId i).
Proof.
  unfold submitOrder. destruct (validateSubmission i) as [[kind tif]|e]; [|done].
  guar_walk. apply guar_op. intros. apply order_insert_rel.
Qed.
End guarantees.

(** ** Calls: any use of the service, as a program of one type *)

Inductive call :=
| CSubmit (newId : string) (i : SubmitOrderInput)
| CSubmitted (id : string) (p : option string)
| CAcknowledged (id p : string)
| CReject (id reason : string)
| CCancel (id : string) (reason : option string)
| CExpire (id : string)
| CPending (id : string)
| CResolve (id : string) (to : Order.OrderStatus) (p r : option string)
| CResolveFill (id : string) (to : Order.OrderStatus) (p : option string)
| CFill (id : string) (f : ApplyFillInput).

Section calls.
Context `{!PgNumeric} (sha256 : string -> string).

Definition quiet {A} (p : io A) : io (option OrderSubmissionResult) := bind p (fun _ => Ret None).

Definition run_call (c : call) : io (option OrderSubmissionResult) :=
  match c with
  | CSubmit newId i => bind (submitOrder sha256 newId i) (fun r => Ret (Some r))
  | CSubmitted id p => quiet (markSubmitted id p)
  | CAcknowledged id p => quiet (markAcknowledged id p)
  | CReject id r => quiet (rejectOrder id r)
  | CCancel id r => quiet (cancelOrder id r)
  | CExpire id => quiet (expireOrder id)
  | CPending id => quiet (markReconciliationPending id)
  | CResolve id to p r => quiet (resolveReconciliation id to p r)
  | CResolveFill id to p => quiet (resolveReconciliationFillState id to p)
  | CFill id f => quiet (applyFill id f)
  end.

Lemma guar_call c : guar order_rel (run_call c).
Proof.
  assert (forall A (p : io A), guar order_rel p -> guar order_rel (quiet p)) as Hq
    by (intros; by apply guar_bind).
  destruct c; cbn [run_call]; try apply Hq.
  - apply guar_bind; [apply guar_submitOrder|done].
  - apply guar_applyTransition.
  - unfold markAcknowledged. destruct (blank _); [done|apply guar_applyTransition].
  - unfold rejectOrder. destruct (blank _); [done|apply guar_applyTransition].
  - apply guar_applyTransition.
  - apply guar_applyTransition.
  - apply guar_applyTransition.
  - unfold resolveReconciliation. case_bool_decide; [done|apply guar_applyTransition].
  - unfold resolveReconciliationFillState, findOrderById, cmp_or_throw.
    guar_walk; apply guar_applyTransition.
  - apply guar_applyFill.
Qed.

Lemma guar_calls cs : Forall (guar order_rel) (run_call <$> cs).
Proof. apply Forall_fmap, Forall_true. apply guar_call. Qed.

(** *** One reservation per idempotency key *)

Definition reserved (key : string) (d : DB) : bool := bool_decide (is_Some (find_by_key key d)).

Definition reserves (key : string) (r : option OrderSubmissionResult) : bool :=
  match r with Some (RESERVED_NEW o) => has_key key o | _ => false end.

Lemma reserved_iff key d :
  reserved key d = true <-> exists id o, orders d !! id = Some o /\ o_idempotencyKey o = key.
Proof.
  unfold reserved. rewrite bool_decide_eq_true. split.
  - intros [o Ho]. apply find_row_some in Ho as (id & ? & Hk%bool_decide_eq_true). eauto.
  - intros (id & o & Ho & Hk). destruct (find_by_key key d) eqn:E; [done|].
    unfold find_by_key in E. rewrite find_row_none in E. specialize (E id o Ho).
    by apply bool_decide_eq_false in E.
Qed.

Lemma order_rel_reserved key d d' : order_rel d d' -> stays (reserved key) d d'.
Proof.
  intros [Hev _] (id & o & Ho & Hk)%reserved_iff.
  destruct (Hev id o Ho) as (o' & Ho' & He). apply reserved_iff. exists id, o'.
  split; [done|]. by rewrite (oe_key _ _ He).
Qed.

Lemma needs_bind_ret {A} key (p : io A) (f : A -> option OrderSubmissionResult) :
  (forall a, reserves key (f a) = false) ->
  needs DbUnavailable (reserved key) (reserves key) (bind p (fun a => Ret (f a))).
Proof. intros Hf. induction p as [a|e|X act k IH]; simpl; [apply Hf|done|]. eauto. Qed.

(** A submission answers a fresh reservation only by taking its own key. *)
Lemma needs_submit key (wins : OrderSubmissionResult -> bool) newId i :
  (forall o, wins (DUPLICATE_EXISTING o) = false) ->
  (forall o, o_idempotencyKey o = generateIdempotencyKey sha256 (in_userId i) (in_clientOrderId i) ->
     wins (RESERVED_NEW o) = true -> key = o_idempotencyKey o) ->
  needs DbUnavailable (reserved key) wins (submitOrder sha256 newId i).
Proof.
  intros Hdup Hwin. unfold submitOrder. destruct (validateSubmission i) as [[kind tif]|e]; [|done].
  cbn [bind catch read op of_result].
  set (k := generateIdempotencyKey sha256 (in_userId i) (in_clientOrderId i)) in *.
  split; [|done]. intros d. right. cbn [snd].
  destruct (find_by_key k d) as [o|]; [apply Hdup|]. cbn [of_result bind catch].
  split; [|done].
  intros d'. destruct (order_insert_act _ d') as [d2 [o|e]] eqn:E; cbn [fst snd of_result bind catch].
  - apply order_insert_cases in E as [[_ ?]|(o2 & Hrow & _ & _ & Hk & -> & [= <-])]; [done|].
    assert (o_idempotencyKey o = k) as Hok.
    { revert Hrow. unfold new_order. repeat (intros (? & _ & Hr)%rbind_ok; revert Hr). by intros [= <-]. }
    cbn [needs]. destruct (wins (RESERVED_NEW o)) eqn:Hw; [|by right].
    left. unfold fires. rewrite (Hwin o Hok Hw). split.
    + unfold reserved. by rewrite Hk, bool_decide_eq_false_2 by (by intros []).
    + apply reserved_iff. exists (o_id o), o. simpl. by rewrite lookup_insert_eq.
  - right. destruct (isUniqueViolation e); [|done]. cbn [needs bind read op].
    split; [|done]. intros d3. right. cbn [snd of_result bind].
    destruct (find_by_key k d3); [apply Hdup|done].
Qed.

Lemma needs_call key c : needs DbUnavailable (reserved key) (reserves key) (run_call c).
Proof.
  destruct c as [newId i| | | | | | | | |]; cbn [run_call]; try (by apply needs_bind_ret).
  apply needs_map, needs_submit; [done|]. intros o _ Hk. cbn in Hk. unfold has_key in Hk. by bool_to_prop.
Qed.
End calls.

(** ** Properties *)

(** What a method of the service does when it runs alone. *)
Section alone.
Context `{!PgNumeric}.

Lemma run_applyTransition id to x d o :
  orders d !! id = Some o ->
  run (applyTransition id to x) d =
    if Order.can (Known (o_status o)) to then
      match transition_patch to x (now d) o with
      | Ok o' => if order_checks o' then (set_orders (<[id := o']> (orders d)) d, Ok (Some o'))
                 else (d, Err (CheckViolation "trading.orders"))
      | Err e => (d, Err e)
      end
    else (d, Err (InvalidOrderTransition (Known (o_status o), to))).
Proof.
  intros Ho. unfold applyTransition, findOrderById. run_simpl. rewrite Ho.
  unfold Order.assert, assertTransition, Order.can.
  destruct (canTransition _ _ _) eqn:Hc; cbn [negb]; [|done]. unfold order_update. run_simpl.
  unfold order_update_act. rewrite Ho. unfold in_status. rewrite bool_decide_eq_true_2 by done.
  unfold transition_patch. destruct (order_checks _); run_simpl; [|done]. cbn [orders set_orders]. by rewrite lookup_insert_eq.
Qed.

(** The stored average of [apply_avg] lies between the two prices it mixes. *)
Lemma pg_div_between a p f q :
  0 <= a -> 0 <= p -> 0 < f -> 0 < q ->
  Z.min a p <= pg_div (a * f + p * q) (f + q) <= Z.max a p.
Proof.
  intros. pose proof (pg_div_near (a * f + p * q) (f + q)) as Hn.
  specialize (Hn ltac:(nia) ltac:(lia)).
  set (x := pg_div _ _) in *. clearbody x. split.
  - destruct (Z.le_gt_cases (Z.min a p) x); [done|exfalso].
    assert (Z.min a p * (f + q) <= a * f + p * q) by nia. nia.
  - destruct (Z.le_gt_cases x (Z.max a p)); [done|exfalso].
    assert (a * f + p * q <= Z.max a p * (f + q)) by nia. nia.
Qed.

Lemma order_checks_fill o :
  order_checks o = true ->
  0 <= o_filled o <= o_requested o /\ (o_filled o = 0 <-> o_avg o = None) /\
  (o_status o = Order.FILLED <-> o_filled o = o_requested o).
Proof.
  unfold order_checks. rewrite !andb_true_iff, orb_true_iff, !andb_true_iff.
  intros ((((((_ & Hr) & [H0 H1]) & Ha) & Hs) & _) & _). bool_to_prop.
  split; [lia|]. split.
  - destruct Ha as [[? ?]|[? [v Hv]%bool_decide_eq_true]]; bool_to_prop; [tauto|].
    rewrite Hv. split; [lia|done].
  - destruct (o_status o); bool_to_prop; split; intros; try done; lia.
Qed.

(** The average before a fill, as the mix of the fill takes it. *)
Definition avg_before (o : Order) (price : Z) : Z := default price (o_avg o).

Lemma fill_patch_ok q price pid t o :
  order_checks o = true -> is_Some (o_submittedAt o) -> 0 < q -> 0 <= price < 10 ^ 18 ->
  (forall a, o_avg o = Some a -> 0 <= a < 10 ^ 18) -> o_filled o + q <= o_requested o ->
  exists o' a', fill_patch q price pid t o = Ok o' /\ order_checks o' = true /\
    o_filled o' = o_filled o + q /\ o_requested o' = o_requested o /\
    o_status o' = (if o_filled o + q =? o_requested o then Order.FILLED else Order.PARTIALLY_FILLED) /\
    o_avg o' = Some a' /\ Z.min (avg_before o price) price <= a' <= Z.max (avg_before o price) price /\
    Z.abs (a' * o_filled o' - (avg_before o price * o_filled o + price * q)) < o_filled o'.
Proof.
  intros Hc Hs Hq Hp Ha Hle. destruct (order_checks_fill o Hc) as (Hf & Hfa & _).
  assert (exists a', (if o_filled o =? 0 then Some price
             else (fun a => pg_div (a * o_filled o + price * q) (o_filled o + q)) <$> o_avg o) = Some a'
    /\ Z.min (avg_before o price) price <= a' <= Z.max (avg_before o price) price
    /\ Z.abs (a' * (o_filled o + q) - (avg_before o price * o_filled o + price * q)) < o_filled o + q)
    as (a' & Hav & Hbt & Hnear).
  { unfold avg_before. destruct (Z.eqb_spec (o_filled o) 0) as [Hz|Hz].
    - exists price. rewrite (proj1 Hfa Hz). cbn [default from_option]. unfold id. split; [done|].
      split; [lia|]. rewrite Hz. replace (_ - _) with 0 by ring. simpl. lia.
    - destruct (o_avg o) as [a|] eqn:E; [|tauto]. specialize (Ha a eq_refl).
      eexists. split; [done|]. cbn [default from_option]. unfold id.
      split; [apply pg_div_between; lia|apply pg_div_near; nia]. }
  assert (avg_before o price < 10 ^ 18)
    by (unfold avg_before; destruct (o_avg o); simpl; unfold id; [by apply Ha|lia]).
  unfold fill_patch. cbv zeta. rewrite Hav. destruct (Z.leb_spec (10 ^ 18) a'); [lia|].
  eexists _, a'. split; [done|]. cbn [o_filled o_requested o_status o_avg]. split; [|done].
  revert Hc. unfold order_checks.
  cbn [o_filled o_requested o_status o_avg o_direction o_kind o_price o_stop o_submittedAt].
  rewrite !andb_true_iff. intros ((((((Hd & Hr) & _) & _) & _) & Hk) & _).
  rewrite (bool_decide_eq_true_2 (is_Some (Some a'))), (bool_decide_eq_true_2 _ Hs) by done.
  rewrite Hd, Hr, Hk, !orb_true_r. repeat split; try apply Z.leb_le; try lia.
  destruct (Z.eqb_spec (o_filled o + q) (o_requested o)); lia.
Qed.

Lemma validateFill_pos f : validateFill f = Ok tt -> 0 < numeric_value 4 (f_quantity f) /\ 0 < numeric_value 8 (f_price f).
Proof.
  unfold validateFill, guard, positive_decimal. intros Hv.
  repeat case_match; simplify_eq/=. rewrite !andb_true_iff, !Z.ltb_lt in *. tauto.
Qed.
End alone.

(** Status-only calls leave every recorded fill as it is. *)
Definition status_only (c : call) : bool :=
  match c with CFill _ _ => false | _ => true end.

Record fills_kept (d d' : DB) : Prop := {
  fk : forall id o, orders d !! id = Some o ->
    exists o', orders d' !! id = Some o' /\ o_filled o' = o_filled o /\ o_avg o' = o_avg o }.

#[export] Instance fills_kept_preorder : PreOrder fills_kept.
Proof.
  split.
  - intros d. constructor. eauto.
  - intros x y z [Hxy] [Hyz]. constructor. intros id o (o1 & H1 & ? & ?)%Hxy.
    apply Hyz in H1 as (o2 & ? & ? & ?). exists o2. split; [done|]. split; congruence.
Qed.

Section status_only.
Context `{!PgNumeric} (sha256 : string -> string).

Lemma fills_kept_transition id to x : guar fills_kept (applyTransition id to x).
Proof.
  unfold applyTransition, findOrderById. guar_walk. apply guar_op. intros d.
  destruct (order_update_act _ _ _ d) as [d' r] eqn:E. simpl.
  apply order_update_cases in E as [[-> _]|(o1 & o' & Ho & _ & [= <-] & _ & -> & _)]; [reflexivity|].
  constructor. intros i y Hy. simpl. destruct (decide (id = i)) as [->|Hne].
  - simplify_map_eq. eauto.
  - rewrite lookup_insert_ne by done. eauto.
Qed.

Lemma fills_kept_call c : status_only c = true -> guar fills_kept (run_call sha256 c).
Proof.
  assert (forall A (p : io A), guar fills_kept p -> guar fills_kept (quiet p)) as Hq
    by (intros; by apply guar_bind).
  destruct c as [newId i| | | | | | | | |]; intros Hs; cbn [run_call]; try apply Hq; try done;
    unfold markAcknowledged, rejectOrder, resolveReconciliation, resolveReconciliationFillState,
      cmp_or_throw, findOrderById; try (guar_walk; apply fills_kept_transition).
  unfold submitOrder. destruct (validateSubmission i) as [[kind tif]|e]; [|done]. guar_walk.
  apply guar_op. intros d. destruct (order_insert_act _ d) as [d' r] eqn:E. simpl.
  apply order_insert_cases in E as [[-> _]|(o & _ & _ & Hid & _ & -> & _)]; [reflexivity|].
  constructor. intros i1 y Hy. simpl. rewrite lookup_insert_ne by congruence. eauto.
Qed.
End status_only.

(** *** Samples *)

Definition sample_row : Order :=
  mkOrder "o1" "u1" "b1" None None "c-1" "u1:c-1" None LIMIT GTC "EURUSD" "BUY"
    15000 (Some 110000000) None 5000 (Some 100000000) Order.PARTIALLY_FILLED None (Some 1) None 0 0.

Definition sample_db : DB := set_orders {["o1" := sample_row]} (empty_db 7).

Definition id_hash (s : string) : string := s.

Lemma sample_wf : orders_wf sample_db.
Proof.
  split; simpl.
  - intros id o [<- <-]%lookup_singleton_Some. done.
  - intros id1 id2 o1 o2 [<- _]%lookup_singleton_Some [<- _]%lookup_singleton_Some. done.
Qed.

(** *** Claims *)

(** C13: one reservation per idempotency key.  Whatever calls of the service run together, in
    whatever interleaving and with whatever statements lost on the way to the store or on
    the way back, at most one of them returns a fresh reservation for a key; it exists
    only if the key was free at the start, and the key is taken afterwards. *)
Theorem submit_once `{!PgNumeric} (sha256 : string -> string) key calls sched d :
  let c := exec DbUnavailable sched (d, run_call sha256 <$> calls) in
  (forall i j, winner (reserves key) c i -> winner (reserves key) c j -> i = j) /\
  (forall i, winner (reserves key) c i -> reserved key d = false /\ reserved key (fst c) = true).
Proof.
  apply (one_shot DbUnavailable (reserved key) (reserves key) sched (d, run_call sha256 <$> calls)).
  - apply (Forall_impl (guar order_rel)); [apply guar_calls|].
    intros p. apply guar_weaken; apply order_rel_reserved.
  - apply Forall_fmap, Forall_true. apply needs_call.
Qed.

(** the lifecycle under concurrency.  Under every interleaving and every fault of any
    calls, a table whose rows satisfy their constraints and have distinct keys stays so;
    no order is lost, and each keeps its identity and terms, moves only along the
    transition table (so a terminal order never moves again) and never loses a fill nor
    exceeds its requested quantity. *)
Theorem orders_evolve `{!PgNumeric} (sha256 : string -> string) calls sched d :
  orders_wf d ->
  let d' := fst (exec DbUnavailable sched (d, run_call sha256 <$> calls)) in
  orders_wf d' /\
  forall id o, orders d !! id = Some o ->
    exists o', orders d' !! id = Some o' /\ order_evolves o o' /\
      0 <= o_filled o <= o_filled o' /\ o_filled o' <= o_requested o /\
      (Order.isTerminal (Known (o_status o)) = true -> o_status o' = o_status o).
Proof.
  intros Hwf.
  assert (order_rel d (fst (exec DbUnavailable sched (d, run_call sha256 <$> calls)))) as [Hev Hw]
    by (apply (exec_guar DbUnavailable order_rel sched (d, run_call sha256 <$> calls)); apply guar_calls).
  cbv zeta. specialize (Hw Hwf). split; [done|]. intros id o Ho.
  destruct (Hev id o Ho) as (o' & Ho' & He). exists o'. split; [done|]. split; [done|].
  destruct (proj1 Hwf id o Ho) as [_ [Hf _]%order_checks_fill].
  destruct (proj1 Hw id o' Ho') as [_ [Hf' _]%order_checks_fill].
  destruct He as [_ _ _ Hreq Hst Hle]. split; [lia|]. split; [lia|].
  intros Ht. apply (closed_reach Order.ALLOWED_TRANSITIONS (fun s => s = o_status o)) in Hst; [done| |done].
  intros x y -> Hxy. exfalso. revert Ht Hxy. unfold step. destruct (o_status o), y; done.
Qed.

Lemma orders_evolve_witness :
  orders_wf sample_db /\
  let d' := fst (exec DbUnavailable [(0, AckLost)] (sample_db, run_call id_hash <$> [CFill "o1" (mkFill "1" "1.2" None)]))%nat in
  orders_wf d'.
Proof.
  split; [apply sample_wf|].
  apply (orders_evolve id_hash [CFill "o1" (mkFill "1" "1.2" None)] [(0%nat, AckLost)] sample_db sample_wf).
Defined.

(** the fill accounting.  A fill of a fillable order that fits the remaining quantity adds
    exactly its quantity; the order is [FILLED] exactly when the requested quantity is
    reached and [PARTIALLY_FILLED] otherwise; the stored average is within one unit of the
    exact volume-weighted average and lies between the prices it mixes.  A fill that does
    not fit, or an order that is not fillable, is refused and nothing changes. *)
Theorem applyFill_accounts `{!PgNumeric} id f d o :
  orders_wf d -> orders d !! id = Some o -> validateFill f = Ok tt ->
  is_Some (o_submittedAt o) -> numeric_value 8 (f_price f) < 10 ^ 18 ->
  (forall a, o_avg o = Some a -> 0 <= a < 10 ^ 18) ->
  let q := numeric_value 4 (f_quantity f) in let p := numeric_value 8 (f_price f) in
  if negb (Order.isFillable (Known (o_status o))) then
    run (applyFill id f) d = (d, Err (ConflictException "not fillable"))
  else if o_requested o <? o_filled o + q then
    run (applyFill id f) d = (d, Err (ConflictException "exceeds remaining quantity"))
  else exists o' a',
    run (applyFill id f) d = (set_orders (<[id := o']> (orders d)) d, Ok o') /\
    o_filled o' = o_filled o + q /\
    o_status o' = (if o_filled o + q =? o_requested o then Order.FILLED else Order.PARTIALLY_FILLED) /\
    o_avg o' = Some a' /\ Z.min (avg_before o p) p <= a' <= Z.max (avg_before o p) p /\
    Z.abs (a' * o_filled o' - (avg_before o p * o_filled o + p * q)) < o_filled o'.
Proof.
  intros [Hrow _] Ho Hv Hs Hp Ha. cbv zeta. destruct (validateFill_pos f Hv).
  destruct (Hrow id o Ho) as [_ Hc]. unfold applyFill, findOrderById, order_update. rewrite Hv.
  run_simpl. rewrite Ho. destruct (Order.isFillable (Known (o_status o))) eqn:Hf; cbn [negb]; [|done].
  run_simpl. unfold order_update_act. rewrite Ho. unfold in_status.
  rewrite (bool_decide_eq_true_2 (o_status o = o_status o)) by done. cbn [andb].
  destruct (Z.ltb_spec (o_requested o) (o_filled o + numeric_value 4 (f_quantity f))) as [Hlt|Hle].
  - destruct (Z.leb_spec (o_filled o + numeric_value 4 (f_quantity f)) (o_requested o)); [lia|].
    run_simpl. by rewrite Ho, Hf.
  - destruct (Z.leb_spec (o_filled o + numeric_value 4 (f_quantity f)) (o_requested o)); [|lia].
    destruct (fill_patch_ok (numeric_value 4 (f_quantity f)) (numeric_value 8 (f_price f))
                (f_providerOrderId f) (now d) o) as (o' & a' & -> & -> & Hres); try done; try lia.
    exists o', a'. split; [done|]. naive_solver.
Qed.

Lemma applyFill_accounts_witness :
  orders_wf sample_db /\
  exists o' a', run (applyFill "o1" (mkFill "1" "1.2" None)) sample_db
    = (set_orders (<["o1" := o']> (orders sample_db)) sample_db, Ok o') /\
    o_filled o' = 15000 /\ o_status o' = Order.FILLED /\ o_avg o' = Some a' /\ 100000000 <= a' <= 120000000.
Proof.
  split; [apply sample_wf|].
  pose proof (applyFill_accounts "o1" (mkFill "1" "1.2" None) sample_db sample_row sample_wf
    ltac:(vm_compute; reflexivity) ltac:(vm_compute; reflexivity) ltac:(by eexists) ltac:(vm_compute; reflexivity)
    ltac:(intros a [= <-]; lia)) as H.
  destruct H as (o' & a' & Hr & Hf & Hst & Ha & Hb & _). exists o', a'. done.
Defined.

(** a status-only reconciliation never invents a fill.  Every interleaving and every fault
    of any calls but [applyFill] leaves the filled quantity and the average price of every
    order as they were. *)
Theorem status_calls_keep_fills `{!PgNumeric} (sha256 : string -> string) calls sched d id o :
  forallb status_only calls = true -> orders d !! id = Some o ->
  exists o', orders (fst (exec DbUnavailable sched (d, run_call sha256 <$> calls))) !! id = Some o' /\
    o_filled o' = o_filled o /\ o_avg o' = o_avg o.
Proof.
  intros Hc. apply (exec_guar DbUnavailable fills_kept sched (d, run_call sha256 <$> calls)).
  apply Forall_fmap, Forall_forall. intros c Hin. apply fills_kept_call.
  rewrite forallb_forall in Hc. apply Hc. by apply list_elem_of_In.
Qed.

Lemma status_calls_keep_fills_witness :
  exists o', orders (fst (exec DbUnavailable [(0, Exec); (0, Exec); (0, Exec)]
               (sample_db, run_call id_hash <$> [CPending "o1"])))%nat !! "o1" = Some o' /\
    o_filled o' = 5000 /\ o_avg o' = Some 100000000.
Proof.
  apply (status_calls_keep_fills id_hash [CPending "o1"] [(0%nat, Exec); (0%nat, Exec); (0%nat, Exec)]
           sample_db "o1" sample_row); reflexivity.
Defined.

(** a transition to a status that bears no fill succeeds exactly when the transition table
    allows it, whatever well-formed row it finds; a refused one throws the typed error and
    changes nothing.  The new row stamps the terminal time exactly on terminal statuses. *)
Theorem transition_total id to x d o :
  orders_wf d -> orders d !! id = Some o -> to <> Order.FILLED -> to <> Order.PARTIALLY_FILLED ->
  if Order.can (Known (o_status o)) to then
    exists o', run (applyTransition id to x) d = (set_orders (<[id := o']> (orders d)) d, Ok (Some o')) /\
      transition_patch to x (now d) o = Ok o' /\ order_checks o' = true /\
      o_status o' = to /\ o_filled o' = o_filled o /\ o_avg o' = o_avg o /\
      o_finalizedAt o' = (if Order.isTerminal (Known to) then Some (now d) else o_finalizedAt o)
  else run (applyTransition id to x) d = (d, Err (InvalidOrderTransition (Known (o_status o), to))).
Proof.
  intros [Hrow _] Ho Hn1 Hn2. destruct (Hrow id o Ho) as [_ Hc].
  pose proof (order_checks_fill o Hc) as ((_ & Hle) & _ & Hfull).
  rewrite (run_applyTransition id to x d o Ho).
  destruct (Order.can (Known (o_status o)) to) eqn:Hcan; [|done]. cbv [transition_patch].
  assert (o_filled o < o_requested o) as Hlt.
  { destruct (Z.eq_dec (o_filled o) (o_requested o)) as [He|]; [|lia].
    apply Hfull in He. rewrite He in Hcan. by destruct to. }
  match goal with |- context [order_checks ?x] => assert (order_checks x = true) as Hx end.
  - revert Hc. unfold order_checks.
    cbn [o_filled o_requested o_status o_avg o_direction o_kind o_price o_stop o_submittedAt].
    rewrite !andb_true_iff. intros ((((((Hd & Hr) & Hf) & Ha) & _) & Hk) & Hsub).
    rewrite Hd, Hr, Hk, Ha. repeat split; try tauto.
    + destruct to; try done; by apply Z.ltb_lt.
    + destruct (x_setSubmittedAt x); [|done]. by rewrite bool_decide_eq_true_2, orb_true_r by eauto.
  - rewrite Hx. eexists. split; [done|]. done.
Qed.

Lemma transition_total_witness :
  exists o', run (applyTransition "o1" Order.CANCELLED (mkExtras None (Some "r") false)) sample_db
    = (set_orders (<["o1" := o']> (orders sample_db)) sample_db, Ok (Some o')) /\
    o_status o' = Order.CANCELLED /\ o_filled o' = 5000 /\ o_finalizedAt o' = Some 7.
Proof.
  destruct (transition_total "o1" Order.CANCELLED (mkExtras None (Some "r") false) sample_db sample_row
    sample_wf ltac:(vm_compute; reflexivity) ltac:(discriminate) ltac:(discriminate))
    as (o' & Hr & _ & _ & Hs & Hf & _ & Ht).
  exists o'. done.
Defined.

(** The reconciliation entry point for fill-bearing states compares the printed numerics. *)
Lemma numeric_out_scaled v : 0 <= v -> toScaledBigInt (numeric_out 4 v) 10 = Ok (v * 10 ^ 6).
Proof.
  intros Hv. pose proof (toString_nonneg v 4 Hv ltac:(lia)) as Hm.
  rewrite (toScaledBigInt_plain _ 1 v 4); [|econstructor; [|constructor|done|exact Hm]|lia].
  - f_equal. change (10 ^ (Z.of_nat 10 - 4)) with (10 ^ 6). lia.
  - unfold numeric_out. by rewrite chars_of_string_of.
Qed.

(** [resolveReconciliationFillState] towards [FILLED] never succeeds and never changes
    anything: the constraint that ties [FILLED] to the requested quantity means a
    [RECONCILIATION_PENDING] order is always short of it. *)
Theorem resolve_filled_unreachable id pid d :
  orders_wf d ->
  exists e, run (resolveReconciliationFillState id Order.FILLED pid) d = (d, Err e).
Proof.
  intros [Hrow _]. unfold resolveReconciliationFillState, findOrderById.
  rewrite bool_decide_eq_true_2 by (left + right; left). cbn [negb]. run_simpl.
  destruct (orders d !! id) as [o|] eqn:Ho; [|by eexists].
  case_bool_decide as Hst; cbn [negb]; [|by eexists].
  destruct (Hrow id o Ho) as [_ Hc]. destruct (order_checks_fill o Hc) as (Hf & _ & Hfull).
  assert (o_filled o < o_requested o) as Hlt.
  { destruct (Z.eq_dec (o_filled o) (o_requested o)) as [He|]; [|lia].
    apply Hfull in He. congruence. }
  rewrite bool_decide_eq_true_2 by done. run_simpl. unfold cmp_or_throw, compareDecimal.
  rewrite !numeric_out_scaled by lia. cbn [rbind].
  destruct (Z.ltb_spec (o_filled o * 10 ^ 6) (o_requested o * 10 ^ 6)); [|lia]. by eexists.
Qed.

Lemma resolve_filled_unreachable_witness :
  exists e, run (resolveReconciliationFillState "o1" Order.FILLED None) sample_db = (sample_db, Err e).
Proof. apply (resolve_filled_unreachable "o1" None sample_db sample_wf). Defined.

(** A submission that passes validation builds a row the table accepts. *)
Lemma validateSubmission_ok i kind tif :
  validateSubmission i = Ok (kind, tif) ->
  in_direction i ∈ ["BUY"; "SELL"] /\ 0 < numeric_value 4 (in_requestedQuantity i) /\
  bool_decide (is_Some (in_requestedPrice i)) = fst (price_rules kind) /\
  bool_decide (is_Some (in_stopPrice i)) = snd (price_rules kind).
Proof.
  assert (forall b p m, price_rule b p m = Ok tt -> bool_decide (is_Some p) = b) as Hpr.
  { intros b p m. unfold price_rule, guard. destruct b, p as [s|]; simpl; try done. }
  unfold validateSubmission. intros H.
  repeat (apply rbind_ok in H as ([] & ? & H)).
  destruct (in_orderKind i) as [|?|k]; try done. destruct (in_timeInForce i) as [|?|t]; try done.
  repeat (apply rbind_ok in H as ([] & ? & H)). injection H as -> ->.
  repeat match goal with H : guard ?b _ = Ok _ |- _ =>
    unfold guard in H; destruct b eqn:?; [clear H|discriminate] end.
  bool_to_prop. unfold positive_decimal in *. bool_to_prop. eauto 10.
Qed.

Lemma new_order_ok newId kind tif key i t o :
  validateSubmission i = Ok (kind, tif) -> new_order newId kind tif key i t = Ok o ->
  o_id o = newId /\ o_idempotencyKey o = key /\ o_status o = Order.CREATED /\ o_filled o = 0 /\
  order_checks o = true.
Proof.
  intros (Hd & Hq & Hp & Hs)%validateSubmission_ok Hn. revert Hn. unfold new_order, numeric_in.
  intros (q & Hq' & (p & Hp' & (s & Hs' & [= <-])%rbind_ok)%rbind_ok)%rbind_ok.
  split; [done|]. split; [done|]. split; [done|]. split; [done|].
  assert (forall (raw : option string) v,
    match raw with Some s => rmap Some (if numeric_value 8 s <? 10 ^ 18 then Ok (numeric_value 8 s)
       else Err NumericOverflow) | None => Ok None end = Ok v ->
    bool_decide (is_Some v) = bool_decide (is_Some raw)) as Hprice.
  { intros [r|] v; [|by intros [= <-]]. intros (a & _ & ->)%rmap_ok. done. }
  apply Hprice in Hp', Hs'. rewrite Hp in Hp'. rewrite Hs in Hs'.
  destruct (Z.ltb_spec (numeric_value 4 (in_requestedQuantity i)) (10 ^ 10)); [|done].
  injection Hq' as <-. unfold order_checks. cbn.
  rewrite bool_decide_eq_true_2 by done.
  destruct (Z.ltb_spec 0 (numeric_value 4 (in_requestedQuantity i))); [|lia].
  destruct (Z.leb_spec 0 (numeric_value 4 (in_requestedQuantity i))); [|lia].
  destruct kind, p, s; done.
Qed.

(** a valid submission that runs alone either answers the order already reserved under its
    key and writes nothing, or creates one order in [CREATED] with nothing filled, under its
    key and with the submitted terms. *)
Theorem submit_creates sha256 newId i d kind tif o :
  validateSubmission i = Ok (kind, tif) ->
  let key := generateIdempotencyKey sha256 (in_userId i) (in_clientOrderId i) in
  new_order newId kind tif key i (now d) = Ok o -> orders d !! newId = None ->
  match find_by_key key d with
  | Some old => run (submitOrder sha256 newId i) d = (d, Ok (DUPLICATE_EXISTING old))
  | None => run (submitOrder sha256 newId i) d = (set_orders (<[newId := o]> (orders d)) d, Ok (RESERVED_NEW o))
      /\ o_status o = Order.CREATED /\ o_filled o = 0 /\ o_idempotencyKey o = key
  end.
Proof.
  intros Hv key Hnew Hid. unfold submitOrder. rewrite Hv. fold key. cbv zeta. run_simpl.
  destruct (find_by_key key d) as [old|] eqn:Hk; [done|].
  assert (o_id o = newId /\ o_idempotencyKey o = key /\ o_status o = Order.CREATED /\ o_filled o = 0
          /\ order_checks o = true) as (Hoid & Hokey & Host & Hof & Hoc)
    by by apply (new_order_ok newId kind tif key i (now d)).
  run_simpl. unfold order_insert_act. rewrite Hnew, Hoc. cbn [negb].
  rewrite Hoid, Hid, Hokey, Hk. rewrite !bool_decide_eq_false_2 by (by intros []). run_simpl. done.
Qed.

Definition with_limit (limit : string) : SubmitOrderInput :=
  mkSubmit "u1" "b1" "c-2" (Known LIMIT) (Known GTC) "EURUSD" "BUY" "1.5" (Some limit) None None None.

Lemma submit_creates_witness :
  exists o, run (submitOrder id_hash "o2" (with_limit "1.1")) sample_db
    = (set_orders (<["o2" := o]> (orders sample_db)) sample_db, Ok (RESERVED_NEW o)) /\
    o_status o = Order.CREATED.
Proof.
  destruct (new_order "o2" LIMIT GTC (generateIdempotencyKey id_hash "u1" "c-2") (with_limit "1.1") 7)
    as [o|] eqn:Ho; [|by vm_compute in Ho].
  exists o. destruct (submit_creates id_hash "o2" (with_limit "1.1") sample_db LIMIT GTC o
    ltac:(vm_compute; reflexivity) Ho ltac:(vm_compute; reflexivity)) as (Hr & Hs & _).
  done.
Defined.
