(* ===== verification/RiskGrants.v ===== *)
(** * Risk grants and confirmations ([risk/risk-grant.service.ts],
    [execution-authority/grant-invalidation.service.ts])

    The durable authority for new exposure: issuance with its convergence loop, the
    single-winner consumption, invalidation, and the confirmations bound to a grant.
    Each awaited statement is one operation.  The partial unique indexes (one [ACTIVE]
    grant and one [PENDING] confirmation per user and signal) are checked by the
    [INSERT]s.  Foreign keys are not modelled, metrics are not state. *)

From S2P Require Import Prelude Prog JsString CanonicalJson StateMachines Store.
Open Scope string_scope.
Open Scope list_scope.
Open Scope Z_scope.

Definition RISK_GRANT_TTL_MS : Z := 60000.
Definition EXECUTION_CONFIRMATION_WINDOW_MS : Z := 300000.

(** [ri_rebindConfirmationId] is the id when one is given; the code treats an empty id as none. *)
Record RiskGrantIssuanceInput := mkIssuance {
  ri_userId : string; ri_signalId : string; ri_signalPayloadDigest : string;
  ri_sessionId : string; ri_sessionGeneration : Z; ri_executionMode : ExecutionMode;
  ri_brokerConnectionId : string; ri_providerBrokerIdentity : option string;
  ri_providerVerificationFingerprint : option string;
  ri_riskProfileId : option string; ri_riskProfileVersion : option Z;
  ri_riskProfileHash : option string;
  ri_accountSnapshotId : option string; ri_accountSnapshotGeneration : option Z;
  ri_accountSnapshotObservedAt : option Z;
  ri_authorityGeneration : Z; ri_killSwitchGeneration : option Z;
  ri_executionControlRevision : option Z; ri_tradingPolicyRevision : option Z;
  ri_providerVerificationRevision : option Z; ri_credentialGeneration : option Z;
  ri_orderPayloadDigest : string; ri_orderPayload : OrderPayload; ri_quoteRef : option js;
  ri_issuedAt : Z; ri_rebindConfirmationId : option string }.

Record RiskGrantIssuanceResult := mkIssued { rr_grant : RiskGrant; rr_reused : bool }.

Inductive RiskGrantConsumeFailureReason :=
| NOT_FOUND | NOT_ACTIVE | EXPIRED | ALREADY_CONSUMED | INVALIDATED | CAS_RACE_LOST.

Record RiskGrantConsumeResult := mkConsume {
  cr_consumed : bool; cr_reason : option RiskGrantConsumeFailureReason; cr_grant : option RiskGrant }.

(** ** The binding digest *)

Definition jstr (s : string) : js := JString (chars_of s).
Definition jint (n : Z) : js := JNumber (Some (bigint_text n)).
Definition jopt {A} (f : A -> js) (o : option A) : js := from_option f JNull o.
Definition mode_name (m : ExecutionMode) : string :=
  match m with PAPER_ONLY => "PAPER_ONLY" | SEMI_AUTO => "SEMI_AUTO" | FULL_AUTO => "FULL_AUTO" end.

Definition field (k : string) (v : js) : chars * js := (chars_of k, v).

(** [input.quoteRef ?? null]. *)
Definition nullish (v : option js) : js :=
  match v with Some JUndefined | None => JNull | Some v => v end.

Definition authority_payload (i : RiskGrantIssuanceInput) : js :=
  JObject
    [field "v" (jint 1);
     field "userId" (jstr (ri_userId i));
     field "signalId" (jstr (ri_signalId i));
     field "signalPayloadDigest" (jstr (ri_signalPayloadDigest i));
     field "orderPayloadDigest" (jstr (ri_orderPayloadDigest i));
     field "sessionId" (jstr (ri_sessionId i));
     field "sessionGeneration" (jint (ri_sessionGeneration i));
     field "executionMode" (jstr (mode_name (ri_executionMode i)));
     field "brokerConnectionId" (jstr (ri_brokerConnectionId i));
     field "providerBrokerIdentity" (jopt jstr (ri_providerBrokerIdentity i));
     field "providerVerificationFingerprint" (jopt jstr (ri_providerVerificationFingerprint i));
     field "riskProfileId" (jopt jstr (ri_riskProfileId i));
     field "riskProfileVersion" (jopt jint (ri_riskProfileVersion i));
     field "riskProfileHash" (jopt jstr (ri_riskProfileHash i));
     field "accountSnapshotId" (jopt jstr (ri_accountSnapshotId i));
     field "accountSnapshotGeneration" (jopt jint (ri_accountSnapshotGeneration i));
     field "authorityGeneration" (jint (ri_authorityGeneration i));
     field "killSwitchGeneration" (jopt jint (ri_killSwitchGeneration i));
     field "executionControlRevision" (jopt jint (ri_executionControlRevision i));
     field "tradingPolicyRevision" (jopt jint (ri_tradingPolicyRevision i));
     field "providerVerificationRevision" (jopt jint (ri_providerVerificationRevision i));
     field "credentialGeneration" (jopt jint (ri_credentialGeneration i));
     field "quoteRef" (nullish (ri_quoteRef i))].

(** ** Rows *)

(** Grants are immutable but for their lifecycle. *)
Definition set_lifecycle (st : RiskGrantStatus) (consumedAt invalidatedAt : option Z)
    (reason : option string) (g : RiskGrant) : RiskGrant :=
  mkGrant (g_id g) (g_userId g) (g_signalId g) (g_signalPayloadDigest g) (g_sessionId g)
    (g_sessionGeneration g) (g_executionMode g) (g_brokerConnectionId g) (g_credentialGeneration g)
    (g_providerBrokerIdentity g) (g_providerVerificationFingerprint g) (g_riskProfileId g)
    (g_riskProfileVersion g) (g_riskProfileHash g) (g_accountSnapshotId g)
    (g_accountSnapshotGeneration g) (g_accountSnapshotObservedAt g) (g_authorityGeneration g)
    (g_killSwitchGeneration g) (g_executionControlRevision g) (g_authorityBindingDigest g)
    (g_tradingPolicyRevision g) (g_providerVerificationRevision g) (g_orderPayloadDigest g)
    (g_orderPayload g) (g_quoteRef g) (g_issuedAt g) (g_expiresAt g) consumedAt invalidatedAt
    reason st.

Definition consume_patch (t : Z) (g : RiskGrant) : RiskGrant :=
  set_lifecycle G_CONSUMED (Some t) (g_invalidatedAt g) (g_invalidationReason g) g.
Definition invalidate_patch (reason : string) (t : Z) (g : RiskGrant) : RiskGrant :=
  set_lifecycle G_INVALIDATED (g_consumedAt g) (Some t) (Some (substring 0 200 reason)) g.

Definition set_confirmation (st : ConfirmationStatus) (consumedAt revokedAt : option Z)
    (grantId : option string) (c : Confirmation) : Confirmation :=
  mkConfirmation (c_id c) (c_userId c) (c_sessionId c) (c_sessionGeneration c) (c_signalId c)
    (c_brokerConnectionId c) grantId (c_orderPayloadDigest c) (c_instrument c) (c_direction c)
    (c_quantity c) (c_stopLoss c) (c_takeProfit c) (c_expiresAt c) consumedAt revokedAt st
    (c_createdAt c).

Definition consume_confirmation_patch (t : Z) (c : Confirmation) : Confirmation :=
  set_confirmation C_CONSUMED (Some t) (c_revokedAt c) (c_riskGrantId c) c.
Definition revoke_patch (t : Z) (c : Confirmation) : Confirmation :=
  set_confirmation C_REVOKED (c_consumedAt c) (Some t) (c_riskGrantId c) c.
Definition expire_patch (c : Confirmation) : Confirmation :=
  set_confirmation C_EXPIRED (c_consumedAt c) (c_revokedAt c) (c_riskGrantId c) c.
Definition rebind_patch (grantId : string) (c : Confirmation) : Confirmation :=
  set_confirmation (c_status c) (c_consumedAt c) (c_revokedAt c) (Some grantId) c.

(** ** Statements *)

Definition grant_active (g : RiskGrant) : bool := bool_decide (g_status g = G_ACTIVE).
Definition pending (c : Confirmation) : bool := bool_decide (c_status c = C_PENDING).
Definition slot_of_grant (u s : string) (g : RiskGrant) : bool :=
  bool_decide (g_userId g = u) && bool_decide (g_signalId g = s) && grant_active g.
Definition slot_of_confirmation (u s : string) (c : Confirmation) : bool :=
  bool_decide (c_userId c = u) && bool_decide (c_signalId c = s) && pending c.

Definition active_grant (u s : string) (d : DB) : option RiskGrant := find_row (slot_of_grant u s) (grants d).
Definition pending_confirmation (u s : string) (d : DB) : option Confirmation :=
  find_row (slot_of_confirmation u s) (confirmations d).

(** [UPDATE .. WHERE id = .. AND p] and [UPDATE .. WHERE p], with the clock of the statement. *)
Definition grant_update (p : Z -> RiskGrant -> bool) (f : Z -> RiskGrant -> RiskGrant) (id : string)
    (d : DB) : DB * result exn Z :=
  let '(m, n) := update_row (p (now d)) (f (now d)) id (grants d) in (set_grants m d, Ok n).
Definition grants_update_where (p : RiskGrant -> bool) (f : Z -> RiskGrant -> RiskGrant) (d : DB)
  : DB * result exn Z :=
  let '(m, n) := update_where p (f (now d)) (grants d) in (set_grants m d, Ok n).
Definition confirmation_update (p : Z -> Confirmation -> bool) (f : Z -> Confirmation -> Confirmation)
    (id : string) (d : DB) : DB * result exn Z :=
  let '(m, n) := update_row (p (now d)) (f (now d)) id (confirmations d) in (set_confirmations m d, Ok n).
Definition confirmations_update_where (p : Confirmation -> bool) (f : Z -> Confirmation -> Confirmation)
    (d : DB) : DB * result exn Z :=
  let '(m, n) := update_where p (f (now d)) (confirmations d) in (set_confirmations m d, Ok n).

Definition grant_insert (g : RiskGrant) (d : DB) : DB * result exn RiskGrant :=
  if bool_decide (is_Some (grants d !! g_id g)) then (d, Err (UniqueViolation "pk_risk_grants"))
  else if grant_active g && bool_decide (is_Some (active_grant (g_userId g) (g_signalId g) d))
  then (d, Err (UniqueViolation "uq_risk_grants_one_active_per_user_signal"))
  else (set_grants (<[g_id g := g]> (grants d)) d, Ok g).

Definition confirmation_insert (c : Z -> Confirmation) (d : DB) : DB * result exn unit :=
  let c := c (now d) in
  if bool_decide (is_Some (confirmations d !! c_id c)) then (d, Err (UniqueViolation "pk_execution_confirmations"))
  else if pending c && bool_decide (is_Some (pending_confirmation (c_userId c) (c_signalId c) d))
  then (d, Err (UniqueViolation "uq_execution_confirmations_one_pending_per_user_signal"))
  else (set_confirmations (<[c_id c := c]> (confirmations d)) d, Ok tt).

(** ** The service *)

Section service.
Context (sha256 : chars -> string).
Local Open Scope prog_scope.

Definition computeAuthorityBindingDigest (i : RiskGrantIssuanceInput) : io string :=
  match digestCanonicalPayload sha256 (authority_payload i) with
  | Ok digest => Ret digest
  | Err e => Throw (CanonicalJsonError e)
  end.

Definition findActiveGrantForSignal (userId signalId : string) : io (option RiskGrant) :=
  sel (active_grant userId signalId).

Definition casInvalidateGrant (grantId reason : string) : io unit :=
  do! op (grant_update (fun _ => grant_active) (invalidate_patch reason) grantId) in Ret tt.

Definition revokeConfirmationsForGrant (grantId : string) : io Z :=
  op (confirmations_update_where
        (fun c => bool_decide (c_riskGrantId c = Some grantId) && pending c) revoke_patch).

Definition rebindPendingConfirmation (confirmationId : string) (grant : RiskGrant)
    (userId signalId : string) : io unit :=
  let* affected := op (confirmation_update
      (fun _ => slot_of_confirmation userId signalId) (fun _ => rebind_patch (g_id grant)) confirmationId) in
  if negb (affected =? 1) then Throw PendingConfirmationRebind else Ret tt.

(** The numeric(18,8) columns of the quantity, the stop and the target keep the text they were
    given, where PostgreSQL reads them back padded to eight digits ("0.1" as "0.10000000"); what
    compares them later compares digests, which normalise such texts. *)
Definition new_confirmation (confId : string) (grant : RiskGrant) (i : RiskGrantIssuanceInput) (t : Z)
  : Confirmation :=
  mkConfirmation confId (ri_userId i) (g_sessionId grant) (g_sessionGeneration grant) (g_signalId grant)
    (g_brokerConnectionId grant) (Some (g_id grant)) (g_orderPayloadDigest grant)
    (p_instrument (ri_orderPayload i)) (p_direction (ri_orderPayload i)) (p_quantity (ri_orderPayload i))
    (p_stopLoss (ri_orderPayload i)) (p_takeProfit (ri_orderPayload i))
    (g_expiresAt grant + EXECUTION_CONFIRMATION_WINDOW_MS) None None C_PENDING t.

Definition createPendingConfirmation (confId : string) (grant : RiskGrant) (i : RiskGrantIssuanceInput)
  : io unit :=
  catch (op (confirmation_insert (new_confirmation confId grant i)))
    (fun err => if isUniqueViolation err then Ret tt else Throw err).

Definition auditIssuance (grant : RiskGrant) : io unit :=
  audit_log (mkAudit (Some (g_userId grant)) "RISK_GRANT_ISSUED" "RiskGrant" (g_id grant) "issued").

Definition new_grant (id digest : string) (i : RiskGrantIssuanceInput) : RiskGrant :=
  mkGrant id (ri_userId i) (ri_signalId i) (ri_signalPayloadDigest i) (ri_sessionId i)
    (ri_sessionGeneration i) (ri_executionMode i) (ri_brokerConnectionId i) (ri_credentialGeneration i)
    (ri_providerBrokerIdentity i) (ri_providerVerificationFingerprint i) (ri_riskProfileId i)
    (ri_riskProfileVersion i) (ri_riskProfileHash i) (ri_accountSnapshotId i)
    (ri_accountSnapshotGeneration i) (ri_accountSnapshotObservedAt i) (ri_authorityGeneration i)
    (ri_killSwitchGeneration i) (ri_executionControlRevision i) (Some digest)
    (ri_tradingPolicyRevision i) (ri_providerVerificationRevision i) (ri_orderPayloadDigest i)
    (ri_orderPayload i) (ri_quoteRef i) (ri_issuedAt i) (ri_issuedAt i + RISK_GRANT_TTL_MS)
    None None None G_ACTIVE.

(** What an issuance does once it holds its fresh grant. *)
Definition bind_confirmation (confId : string) (grant : RiskGrant) (i : RiskGrantIssuanceInput) : io unit :=
  match ri_rebindConfirmationId i with
  | Some c => rebindPendingConfirmation c grant (ri_userId i) (ri_signalId i)
  | None => if bool_decide (ri_executionMode i = SEMI_AUTO)
            then createPendingConfirmation confId grant i else Ret tt
  end.

(** The bounded convergence loop; [ids] and [confIds] are the uuids of each attempt. *)
Fixpoint issue_loop (attempts : nat) (ids confIds : nat -> string) (digest : string)
    (i : RiskGrantIssuanceInput) : io RiskGrantIssuanceResult :=
  match attempts with
  | O => Throw RiskGrantIssuanceConflict
  | S attempts =>
      let* existing := findActiveGrantForSignal (ri_userId i) (ri_signalId i) in
      match existing with
      | Some g =>
          if bool_decide (g_authorityBindingDigest g = Some digest) then
            do! match ri_rebindConfirmationId i with
                | Some c => rebindPendingConfirmation c g (ri_userId i) (ri_signalId i)
                | None => Ret tt
                end in
            Ret (mkIssued g true)
          else
            do! casInvalidateGrant (g_id g)
                  (if bool_decide (is_Some (ri_rebindConfirmationId i))
                   then "SUPERSEDED_BY_CONFIRMATION_RE_EVALUATION"
                   else "SUPERSEDED_BY_REVALIDATION") in
            do! match ri_rebindConfirmationId i with
                | Some _ => Ret 0
                | None => revokeConfirmationsForGrant (g_id g)
                end in
            issue_loop attempts ids confIds digest i
      | None =>
          catch
            (let* grant := op (grant_insert (new_grant (ids attempts) digest i)) in
             do! bind_confirmation (confIds attempts) grant i in
             do! auditIssuance grant in
             Ret (mkIssued grant false))
            (fun err => if isUniqueViolation err then issue_loop attempts ids confIds digest i
                        else Throw err)
      end
  end.

Definition issueGrant (ids confIds : nat -> string) (i : RiskGrantIssuanceInput)
  : io RiskGrantIssuanceResult :=
  let* digest := computeAuthorityBindingDigest i in
  issue_loop 3 ids confIds digest i.

(** [userId]: the optional tenant fence; an empty string is no fence. *)
Definition fenced (userId : option string) (g : RiskGrant) : bool :=
  match userId with
  | Some u => bool_decide (u = "") || bool_decide (g_userId g = u)
  | None => true
  end.

Definition consume_guard (userId : option string) (t : Z) (g : RiskGrant) : bool :=
  grant_active g && (t <? g_expiresAt g) && fenced userId g.

Definition find_grant (userId : option string) (id : string) (d : DB) : option RiskGrant :=
  match grants d !! id with
  | Some g => if fenced userId g then Some g else None
  | None => None
  end.

Definition consumeGrantAtomic (grantId : string) (userId : option string) : io RiskGrantConsumeResult :=
  let* affected := op (grant_update (consume_guard userId) consume_patch grantId) in
  if 0 <? affected then
    let* grant := sel (find_grant userId grantId) in Ret (mkConsume true None grant)
  else
    let* reload := sel (fun d => (find_grant userId grantId d, now d)) in
    match fst reload with
    | None => Ret (mkConsume false (Some NOT_FOUND) None)
    | Some g =>
        let failed r := Ret (mkConsume false (Some r) (Some g)) in
        if bool_decide (g_status g = G_CONSUMED) then failed ALREADY_CONSUMED
        else if bool_decide (g_status g = G_INVALIDATED) then failed INVALIDATED
        else if bool_decide (g_status g = G_EXPIRED) || (g_expiresAt g <=? snd reload) then failed EXPIRED
        else failed CAS_RACE_LOST
    end.

Definition invalidateGrantsForSession (sessionId reason : string) : io Z :=
  op (grants_update_where (fun g => bool_decide (g_sessionId g = sessionId) && grant_active g)
        (invalidate_patch reason)).

Definition revokeConfirmationsForSession (sessionId : string) : io Z :=
  op (confirmations_update_where (fun c => bool_decide (c_sessionId c = sessionId) && pending c) revoke_patch).

(** [for (const c of stale) await ..]. *)
Fixpoint each {A} (f : A -> io unit) (l : list A) : io unit :=
  match l with
  | [] => Ret tt
  | x :: l => do! f x in each f l
  end.

Definition expireStalePendingConfirmations (t : Z) : io Z :=
  let* found := sel (fun d => List.filter pending (map snd (map_to_list (confirmations d)))) in
  let stale := List.filter (fun c => c_expiresAt c <=? t) found in
  do! each (fun c =>
        do! op (confirmation_update (fun _ => pending) (fun _ => expire_patch) (c_id c)) in Ret tt) stale in
  Ret (Z.of_nat (length stale)).

(** *** GrantInvalidationService *)

Record UserAuthorityInvalidationResult := mkInvalidation {
  invalidatedGrants : Z; revokedConfirmations : Z }.

(** The statements share the [now] the first one reads. *)
Definition invalidateUserNewExposureAuthority (userId reason : string) : io UserAuthorityInvalidationResult :=
  let* g := op (fun d =>
      let '(d', r) := grants_update_where
            (fun g => bool_decide (g_userId g = userId) && grant_active g) (invalidate_patch reason) d in
      (d', rmap (fun n => (n, now d)) r)) in
  let* c := op (confirmations_update_where (fun c => bool_decide (c_userId c = userId) && pending c)
                  (fun _ => revoke_patch (snd g))) in
  Ret (mkInvalidation (fst g) c).

Definition revokePendingConfirmationsForGrant (grantId : string) : io Z :=
  revokeConfirmationsForGrant grantId.
End service.

(** ** Evolution

    What every statement that touches grants and confirmations respects: a grant only
    moves from [ACTIVE] to [CONSUMED], before its expiry, or to [INVALIDATED]; a
    confirmation from [PENDING] to [CONSUMED], before its own expiry, [REVOKED] or
    [EXPIRED], and it can be re-bound to another grant while [PENDING]; everything else in
    them is immutable, and each user and signal keeps at most one of each. *)

Record grant_evolves (g g' : RiskGrant) : Prop := {
  ge_core : g' = set_lifecycle (g_status g') (g_consumedAt g') (g_invalidatedAt g') (g_invalidationReason g') g;
  ge_terminal : g_status g <> G_ACTIVE -> g' = g;
  ge_active : g_status g' = G_ACTIVE -> g' = g;
  ge_consumed : g_status g = G_ACTIVE -> g_status g' = G_CONSUMED ->
    exists t, g_consumedAt g' = Some t /\ t < g_expiresAt g }.

Record confirmation_evolves (c c' : Confirmation) : Prop := {
  ce_core : c' = set_confirmation (c_status c') (c_consumedAt c') (c_revokedAt c') (c_riskGrantId c') c;
  ce_terminal : c_status c <> C_PENDING -> c' = c;
  ce_consumed : c_status c = C_PENDING -> c_status c' = C_CONSUMED ->
    exists t, c_consumedAt c' = Some t /\ t < c_expiresAt c }.

Lemma set_lifecycle_id g :
  g = set_lifecycle (g_status g) (g_consumedAt g) (g_invalidatedAt g) (g_invalidationReason g) g.
Proof. by destruct g. Qed.

Lemma set_confirmation_id c :
  c = set_confirmation (c_status c) (c_consumedAt c) (c_revokedAt c) (c_riskGrantId c) c.
Proof. by destruct c. Qed.

#[export] Instance grant_evolves_preorder : PreOrder grant_evolves.
Proof.
  split.
  - intros g. constructor; [apply set_lifecycle_id|done|done|congruence].
  - intros x y z [Hc1 Ht1 Ha1 Hd1] [Hc2 Ht2 Ha2 Hd2].
    destruct (decide (g_status y = G_ACTIVE)) as [Hy|Hy].
    + specialize (Ha1 Hy). subst y. by constructor.
    + specialize (Ht2 Hy). subst z. by constructor.
Qed.

#[export] Instance confirmation_evolves_preorder : PreOrder confirmation_evolves.
Proof.
  split.
  - intros c. constructor; [apply set_confirmation_id|done|congruence].
  - intros x y z [Hc1 Ht1 Hd1] [Hc2 Ht2 Hd2]. constructor.
    + rewrite Hc1 in Hc2. exact Hc2.
    + intros Hx. specialize (Ht1 Hx) as ->. by apply Ht2.
    + intros Hx Hz. destruct (decide (c_status y = C_PENDING)) as [Hy|Hy].
      * destruct (Hd2 Hy Hz) as (t & ? & Hlt). exists t. rewrite Hc1 in Hlt. done.
      * rewrite (Ht2 Hy) in *. by apply Hd1.
Qed.

Definition grant_slot (g : RiskGrant) : string * string := (g_userId g, g_signalId g).
Definition confirmation_slot (c : Confirmation) : string * string := (c_userId c, c_signalId c).

Record authority_wf (d : DB) : Prop := {
  aw_grants : indexed g_id grant_active grant_slot (grants d);
  aw_confirmations : indexed c_id pending confirmation_slot (confirmations d) }.

Record authority_rel (d d' : DB) : Prop := {
  ar_grants : rows_evolve grant_evolves (grants d) (grants d');
  ar_confirmations : rows_evolve confirmation_evolves (confirmations d) (confirmations d');
  ar_wf : authority_wf d -> authority_wf d' }.

#[export] Instance rows_evolve_preorder {R} (E : R -> R -> Prop) `{!PreOrder E} : PreOrder (rows_evolve E).
Proof.
  split.
  - intros m id r Hr. exists r. by split; [|reflexivity].
  - intros x y z Hxy Hyz id r (r1 & H1 & E1)%Hxy. apply Hyz in H1 as (r2 & H2 & E2).
    exists r2. split; [done|]. by etransitivity.
Qed.

#[export] Instance authority_rel_preorder : PreOrder authority_rel.
Proof.
  split.
  - intros d. constructor; [reflexivity..|done].
  - intros x y z [] []. constructor; [by etransitivity..|auto].
Qed.

Lemma authority_rel_same d d' :
  grants d' = grants d -> confirmations d' = confirmations d -> authority_rel d d'.
Proof.
  intros Hg Hc. constructor; [rewrite Hg; reflexivity|rewrite Hc; reflexivity|].
  intros [H1 H2]. constructor; [by rewrite Hg|by rewrite Hc].
Qed.

(** *** Statements *)

Lemma grant_evolves_slot g g' :
  grant_evolves g g' -> g_id g' = g_id g /\ (grant_active g' = true -> grant_active g = true /\ grant_slot g' = grant_slot g).
Proof.
  intros [Hc Ht Ha _]. split; [by rewrite Hc|]. unfold grant_active. rewrite bool_decide_eq_true.
  intros Hs. rewrite Ha by done. split; [|done]. rewrite Ha in Hs by done. by apply bool_decide_eq_true.
Qed.

Lemma confirmation_evolves_slot c c' :
  confirmation_evolves c c' ->
  c_id c' = c_id c /\ (pending c' = true -> pending c = true /\ confirmation_slot c' = confirmation_slot c).
Proof.
  intros [Hc Ht _]. split; [by rewrite Hc|]. unfold pending. rewrite !bool_decide_eq_true.
  intros Hs. split; [|by rewrite Hc]. destruct (decide (c_status c = C_PENDING)) as [|Hn]; [done|].
  rewrite (Ht Hn) in Hs. done.
Qed.

Lemma grants_only_rel m d :
  rows_evolve grant_evolves (grants d) m -> rows_only grant_evolves (grants d) m ->
  authority_rel d (set_grants m d).
Proof.
  intros He Ho. constructor; simpl; [done|reflexivity|]. intros [Hg Hc].
  constructor; simpl; [|done]. by apply (indexed_evolve _ _ _ grant_evolves (grants d) m grant_evolves_slot).
Qed.

Lemma confirmations_only_rel m d :
  rows_evolve confirmation_evolves (confirmations d) m ->
  rows_only confirmation_evolves (confirmations d) m -> authority_rel d (set_confirmations m d).
Proof.
  intros He Ho. constructor; simpl; [reflexivity|done|]. intros [Hg Hc].
  constructor; simpl; [done|].
  by apply (indexed_evolve _ _ _ confirmation_evolves (confirmations d) m confirmation_evolves_slot).
Qed.

Lemma consume_evolves t g : grant_active g = true -> t < g_expiresAt g -> grant_evolves g (consume_patch t g).
Proof. intros Ha%bool_decide_eq_true Ht. constructor; simpl; try done. eauto. Qed.

Lemma invalidate_evolves r t g : grant_active g = true -> grant_evolves g (invalidate_patch r t g).
Proof. intros Ha%bool_decide_eq_true. by constructor. Qed.

Lemma consume_confirmation_evolves t c :
  pending c = true -> t < c_expiresAt c -> confirmation_evolves c (consume_confirmation_patch t c).
Proof. intros Ha%bool_decide_eq_true Ht. constructor; simpl; try done. eauto. Qed.

Lemma revoke_evolves t c : pending c = true -> confirmation_evolves c (revoke_patch t c).
Proof. intros Ha%bool_decide_eq_true. by constructor. Qed.

Lemma expire_evolves c : pending c = true -> confirmation_evolves c (expire_patch c).
Proof. intros Ha%bool_decide_eq_true. by constructor. Qed.

Lemma rebind_evolves gid c : pending c = true -> confirmation_evolves c (rebind_patch gid c).
Proof. intros Ha%bool_decide_eq_true. constructor; simpl; [done..|congruence]. Qed.

#[export] Hint Resolve consume_evolves invalidate_evolves consume_confirmation_evolves revoke_evolves
  expire_evolves rebind_evolves : irex.

Lemma grant_update_rel p f id d :
  (forall t g, p t g = true -> grant_evolves g (f t g)) -> authority_rel d (fst (grant_update p f id d)).
Proof.
  intros Hf. unfold grant_update. destruct (update_row _ _ id (grants d)) as [m n] eqn:E. simpl.
  destruct (update_row_evolve grant_evolves (p (now d)) (f (now d)) id (grants d)) as [H1 H2]; [auto|].
  rewrite E in H1, H2. by apply grants_only_rel.
Qed.

Lemma grants_update_where_rel p f d :
  (forall t g, p g = true -> grant_evolves g (f t g)) -> authority_rel d (fst (grants_update_where p f d)).
Proof.
  intros Hf. unfold grants_update_where. destruct (update_where _ _ (grants d)) as [m n] eqn:E. simpl.
  destruct (update_where_evolve grant_evolves p (f (now d)) (grants d)) as [H1 H2]; [auto|].
  rewrite E in H1, H2. by apply grants_only_rel.
Qed.

Lemma confirmation_update_rel p f id d :
  (forall t c, p t c = true -> confirmation_evolves c (f t c)) ->
  authority_rel d (fst (confirmation_update p f id d)).
Proof.
  intros Hf. unfold confirmation_update. destruct (update_row _ _ id (confirmations d)) as [m n] eqn:E. simpl.
  destruct (update_row_evolve confirmation_evolves (p (now d)) (f (now d)) id (confirmations d)) as [H1 H2]; [auto|].
  rewrite E in H1, H2. by apply confirmations_only_rel.
Qed.

Lemma confirmations_update_where_rel p f d :
  (forall t c, p c = true -> confirmation_evolves c (f t c)) ->
  authority_rel d (fst (confirmations_update_where p f d)).
Proof.
  intros Hf. unfold confirmations_update_where. destruct (update_where _ _ (confirmations d)) as [m n] eqn:E. simpl.
  destruct (update_where_evolve confirmation_evolves p (f (now d)) (confirmations d)) as [H1 H2]; [auto|].
  rewrite E in H1, H2. by apply confirmations_only_rel.
Qed.

Lemma grant_insert_rel g d : authority_rel d (fst (grant_insert g d)).
Proof.
  unfold grant_insert. case_bool_decide as Hid; [reflexivity|].
  destruct (grant_active g && _) eqn:Hslot; [reflexivity|]. simpl.
  rewrite <- eq_None_not_Some in Hid. constructor; simpl; [|reflexivity|].
  - intros id r Hr. exists r. rewrite lookup_insert_ne by congruence. split; [done|reflexivity].
  - intros [Hg Hc]. constructor; simpl; [|done]. apply indexed_insert; [done| |done].
    intros Ha id x Hx Hl [= Hu Hs]. rewrite Ha in Hslot. simpl in Hslot.
    apply bool_decide_eq_false in Hslot. rewrite <- eq_None_not_Some in Hslot.
    unfold active_grant in Hslot. rewrite find_row_none in Hslot. specialize (Hslot id x Hx).
    unfold slot_of_grant in Hslot. rewrite Hl, Hu, Hs, !bool_decide_eq_true_2 in Hslot; done.
Qed.

Lemma confirmation_insert_rel c d : authority_rel d (fst (confirmation_insert c d)).
Proof.
  unfold confirmation_insert. cbv zeta. set (r := c (now d)). case_bool_decide as Hid; [reflexivity|].
  destruct (pending r && _) eqn:Hslot; [reflexivity|]. simpl.
  rewrite <- eq_None_not_Some in Hid. constructor; simpl; [reflexivity| |].
  - intros id x Hx. exists x. rewrite lookup_insert_ne by congruence. split; [done|reflexivity].
  - intros [Hg Hc]. constructor; simpl; [done|]. apply indexed_insert; [done| |done].
    intros Ha id x Hx Hl [= Hu Hs]. rewrite Ha in Hslot. simpl in Hslot.
    apply bool_decide_eq_false in Hslot. rewrite <- eq_None_not_Some in Hslot.
    unfold pending_confirmation in Hslot. rewrite find_row_none in Hslot. specialize (Hslot id x Hx).
    unfold slot_of_confirmation in Hslot. rewrite Hl, Hu, Hs, !bool_decide_eq_true_2 in Hslot; done.
Qed.

(** ** Every method respects it *)

Lemma guar_audit R `{!Reflexive R} e :
  (forall d, R d (set_audit (audit d ++ [e]) d)) -> guar R (audit_log e).
Proof. intros Ha. unfold audit_log. apply guar_catch; [|done]. by apply guar_modify. Qed.

Lemma guar_each {A} (R : DB -> DB -> Prop) (f : A -> io unit) l :
  (forall x, guar R (f x)) -> guar R (each f l).
Proof. intros Hf. induction l as [|x l IH]; [done|]. apply guar_bind; auto. Qed.

Lemma slot_pending u s c : slot_of_confirmation u s c = true -> pending c = true.
Proof. intros [_ ?]%andb_true_iff. done. Qed.
#[export] Hint Resolve slot_pending : irex.

Section guarantees.
Context (sha256 : chars -> string).

Lemma guar_rebind c g u s : guar authority_rel (rebindPendingConfirmation c g u s).
Proof.
  unfold rebindPendingConfirmation. guar_walk. apply guar_op. intros d.
  apply confirmation_update_rel. eauto with irex.
Qed.

Lemma guar_revoke gid : guar authority_rel (revokeConfirmationsForGrant gid).
Proof.
  apply guar_op. intros d. apply confirmations_update_where_rel.
  intros t c [_ ?]%andb_true_iff. eauto with irex.
Qed.

Lemma guar_issue_loop n ids confIds digest i : guar authority_rel (issue_loop n ids confIds digest i).
Proof.
  induction n as [|n IH]; [done|]. cbn [issue_loop]. apply guar_bind; [by apply guar_read|].
  intros [g|].
  - case_bool_decide; (apply guar_bind; [|intros _]); [|done| |].
    + destruct (ri_rebindConfirmationId i); [apply guar_rebind|done].
    + unfold casInvalidateGrant. guar_walk. apply guar_op. intros d. apply grant_update_rel. eauto with irex.
    + apply guar_bind; [|done]. destruct (ri_rebindConfirmationId i); [done|apply guar_revoke].
  - apply guar_catch.
    + apply guar_bind; [apply guar_op; intros d; apply grant_insert_rel|]. intros g.
      apply guar_bind; [|intros _; apply guar_bind; [|done]].
      * unfold bind_confirmation, createPendingConfirmation. guar_walk; [apply guar_rebind|].
        apply guar_op. intros d. apply confirmation_insert_rel.
      * apply guar_audit; [typeclasses eauto|]. intros d. by apply authority_rel_same.
    + intros e. destruct (isUniqueViolation e); done.
Qed.

Lemma guar_issueGrant ids confIds i : guar authority_rel (issueGrant sha256 ids confIds i).
Proof.
  unfold issueGrant, computeAuthorityBindingDigest. apply guar_bind; [by case_match|].
  intros digest. apply guar_issue_loop.
Qed.

Lemma consume_guard_evolves u t g : consume_guard u t g = true -> grant_evolves g (consume_patch t g).
Proof. intros [[? ?%Z.ltb_lt]%andb_true_iff _]%andb_true_iff. eauto with irex. Qed.

Lemma guar_consume id u : guar authority_rel (consumeGrantAtomic id u).
Proof.
  unfold consumeGrantAtomic. guar_walk. apply guar_op. intros d. apply grant_update_rel.
  apply consume_guard_evolves.
Qed.

Lemma guar_expire t : guar authority_rel (expireStalePendingConfirmations t).
Proof.
  unfold expireStalePendingConfirmations. guar_walk. apply guar_each. intros c. guar_walk.
  apply guar_op. intros d. apply confirmation_update_rel. eauto with irex.
Qed.

Lemma guar_invalidate_user u r : guar authority_rel (invalidateUserNewExposureAuthority u r).
Proof.
  unfold invalidateUserNewExposureAuthority. guar_walk.
  - apply guar_op. intros d.
    destruct (grants_update_where _ _ d) as [d' n] eqn:E. simpl. change d' with (fst (d', n)).
    rewrite <- E. apply grants_update_where_rel. intros t g [_ ?]%andb_true_iff. eauto with irex.
  - apply guar_op. intros d. apply confirmations_update_where_rel.
    intros t c [_ ?]%andb_true_iff. eauto with irex.
Qed.
End guarantees.

(** ** Calls *)

Inductive gcall :=
| GIssue (ids confIds : nat -> string) (i : RiskGrantIssuanceInput)
| GConsume (grantId : string) (userId : option string)
| GInvalidateSession (sessionId reason : string)
| GRevokeSession (sessionId : string)
| GRevokeGrant (grantId : string)
| GExpireStale (t : Z)
| GInvalidateUser (userId reason : string).

Section calls.
Context (sha256 : chars -> string).

Definition silent {A} (p : io A) : io (option (string * RiskGrantConsumeResult)) := bind p (fun _ => Ret None).

Definition run_gcall (c : gcall) : io (option (string * RiskGrantConsumeResult)) :=
  match c with
  | GIssue ids confIds i => silent (issueGrant sha256 ids confIds i)
  | GConsume id u => bind (consumeGrantAtomic id u) (fun r => Ret (Some (id, r)))
  | GInvalidateSession s r => silent (invalidateGrantsForSession s r)
  | GRevokeSession s => silent (revokeConfirmationsForSession s)
  | GRevokeGrant g => silent (revokeConfirmationsForGrant g)
  | GExpireStale t => silent (expireStalePendingConfirmations t)
  | GInvalidateUser u r => silent (invalidateUserNewExposureAuthority u r)
  end.

Lemma guar_gcall c : guar authority_rel (run_gcall c).
Proof.
  assert (forall A (p : io A), guar authority_rel p -> guar authority_rel (silent p)) as Hq
    by (intros; by apply guar_bind).
  destruct c; cbn [run_gcall]; try apply Hq.
  - apply guar_issueGrant.
  - apply guar_bind; [apply guar_consume|done].
  - apply guar_op. intros d. apply grants_update_where_rel. intros t g [_ ?]%andb_true_iff. eauto with irex.
  - apply guar_op. intros d. apply confirmations_update_where_rel.
    intros t c [_ ?]%andb_true_iff. eauto with irex.
  - apply guar_revoke.
  - apply guar_expire.
  - apply guar_invalidate_user.
Qed.

Lemma guar_gcalls cs : Forall (guar authority_rel) (run_gcall <$> cs).
Proof. apply Forall_fmap, Forall_true. apply guar_gcall. Qed.
End calls.

(** No grant call touches an order. *)
Definition same_orders (d d' : DB) : Prop := orders d' = orders d.

#[export] Instance same_orders_preorder : PreOrder same_orders.
Proof. split; [done|]. intros x y z. unfold same_orders. congruence. Qed.

Ltac same_orders :=
  guar_walk; try (apply guar_op; intros ?; unfold same_orders, grant_update, grants_update_where,
    confirmation_update, confirmations_update_where, grant_insert, confirmation_insert;
    cbv zeta; repeat case_match; simplify_eq; done).

Lemma orders_issue n ids confIds digest i : guar same_orders (issue_loop n ids confIds digest i).
Proof.
  induction n as [|n IH]; [done|]. cbn [issue_loop].
  unfold findActiveGrantForSignal, rebindPendingConfirmation, casInvalidateGrant, revokeConfirmationsForGrant,
    bind_confirmation, createPendingConfirmation, rebindPendingConfirmation, auditIssuance, audit_log.
  same_orders; exact IH || (by apply guar_modify).
Qed.

Lemma orders_consume id u : guar same_orders (consumeGrantAtomic id u).
Proof. unfold consumeGrantAtomic. same_orders. Qed.

Lemma orders_gcall sha256 c : guar same_orders (run_gcall sha256 c).
Proof.
  assert (forall A (p : io A), guar same_orders p -> guar same_orders (silent p)) as Hq
    by (intros; by apply guar_bind).
  destruct c; cbn [run_gcall]; try apply Hq.
  - unfold issueGrant, computeAuthorityBindingDigest. apply guar_bind; [by case_match|].
    intros. apply orders_issue.
  - apply guar_bind; [apply orders_consume|done].
  - unfold invalidateGrantsForSession. same_orders.
  - unfold revokeConfirmationsForSession. same_orders.
  - unfold revokeConfirmationsForGrant. same_orders.
  - unfold expireStalePendingConfirmations. guar_walk. apply guar_each. intros c. same_orders.
  - unfold invalidateUserNewExposureAuthority. same_orders.
Qed.

(** A grant that is no longer there to be consumed: spent once [CONSUMED]. *)
Definition spent (grantId : string) (d : DB) : bool :=
  match grants d !! grantId with Some g => bool_decide (g_status g = G_CONSUMED) | None => false end.

Lemma authority_rel_spent grantId d d' : authority_rel d d' -> stays (spent grantId) d d'.
Proof.
  intros [Hg _ _]. unfold stays, spent. destruct (grants d !! grantId) as [g|] eqn:E; [|done].
  intros Hs%bool_decide_eq_true. destruct (Hg _ _ E) as (g' & -> & [_ Ht _ _]).
  rewrite Ht by congruence. by apply bool_decide_eq_true.
Qed.

(** The winners: consumptions of [grantId] that report success. *)
Definition consumes (grantId : string) (r : option (string * RiskGrantConsumeResult)) : bool :=
  match r with
  | Some (id, r) => bool_decide (id = grantId) && cr_consumed r
  | None => false
  end.

Lemma needs_silent {A} key (p : io A) : needs DbUnavailable (spent key) (consumes key) (silent p).
Proof. unfold silent. induction p as [a|e|X act k IH]; simpl; [done..|]. eauto. Qed.

Lemma consume_fires key id u d d' n :
  grant_update (consume_guard u) consume_patch id d = (d', Ok n) -> 0 < n -> id = key ->
  fires (spent key) d d'.
Proof.
  unfold grant_update. destruct (update_row _ _ id (grants d)) as [m k] eqn:E. intros [= <- <-] Hn ->.
  apply update_row_cases in E as [(-> & _)|(g & Hg & Hp & -> & _)]; [lia|].
  apply andb_true_iff in Hp as [[Ha%bool_decide_eq_true _]%andb_true_iff _].
  unfold fires, spent. cbn [grants set_grants]. rewrite Hg, lookup_insert_eq, Ha. done.
Qed.

Lemma needs_gcall sha256 key c : needs DbUnavailable (spent key) (consumes key) (run_gcall sha256 c).
Proof.
  destruct c as [| id u| | | | |]; cbn [run_gcall]; try apply needs_silent.
  unfold consumeGrantAtomic. cbn [bind op of_result read]. split; [|done].
  intros d. destruct (grant_update _ _ id d) as [d' [n|e]] eqn:E; cbn [fst snd of_result bind]; [|by right].
  destruct (Z.ltb_spec 0 n) as [Hn|Hn].
  - cbn [bind op of_result read needs]. destruct (decide (id = key)) as [->|Hne].
    + left. by eapply consume_fires.
    + right. split; [|done]. intros d2. right. simpl. by rewrite bool_decide_eq_false_2.
  - right. cbn [bind op of_result read needs]. split; [|done]. intros d2. right. cbn [snd of_result bind fst].
    repeat case_match; cbn [needs bind consumes cr_consumed]; by rewrite andb_false_r.
Qed.

(** ** Issuing alone *)

Lemma active_grant_some u s d g :
  authority_wf d ->
  active_grant u s d = Some g <->
    grants d !! g_id g = Some g /\ g_userId g = u /\ g_signalId g = s /\ g_status g = G_ACTIVE.
Proof.
  intros [[Hid Hslot] _]. unfold active_grant. split.
  - intros (id & Hg & Hp)%find_row_some. unfold slot_of_grant, grant_active in Hp. bool_to_prop.
    by rewrite (Hid _ _ Hg).
  - intros (Hg & Hu & Hs & Ha). assert (slot_of_grant u s g = true) as Hp.
    { unfold slot_of_grant, grant_active. by rewrite !bool_decide_eq_true_2. }
    apply (find_row_unique _ _ (g_id g)); [done..|]. intros id' g' Hg' Hp'.
    unfold slot_of_grant in Hp, Hp'. bool_to_prop.
    assert (g_id g = id') as <- by (eapply Hslot; [done..|]; unfold grant_slot; congruence).
    congruence.
Qed.

Lemma active_grant_none u s d :
  active_grant u s d = None <-> forall id g, grants d !! id = Some g -> slot_of_grant u s g = false.
Proof. apply find_row_none. Qed.

(** The store after a superseded grant is invalidated. *)
Definition superseded (g : RiskGrant) (d : DB) : DB :=
  fst (confirmations_update_where (fun c => bool_decide (c_riskGrantId c = Some (g_id g)) && pending c) revoke_patch
    (set_grants (<[g_id g := invalidate_patch "SUPERSEDED_BY_REVALIDATION" (now d) g]> (grants d)) d)).

Lemma superseded_rel g d :
  authority_wf d -> grants d !! g_id g = Some g -> g_status g = G_ACTIVE -> authority_rel d (superseded g d).
Proof.
  intros Hwf Hg Ha. unfold superseded. etransitivity.
  - assert (grant_evolves g (invalidate_patch "SUPERSEDED_BY_REVALIDATION" (now d) g)) as He
      by (apply invalidate_evolves; by apply bool_decide_eq_true).
    destruct (rows_insert_evolve grant_evolves (g_id g) g _ (grants d) Hg He). by apply grants_only_rel.
  - apply confirmations_update_where_rel. intros t c [_ ?]%andb_true_iff. eauto with irex.
Qed.

Lemma superseded_free u s g d :
  authority_wf d -> active_grant u s d = Some g -> active_grant u s (superseded g d) = None.
Proof.
  intros Hwf Hg. apply (active_grant_some u s d g Hwf) in Hg as (Hg & Hu & Hs & Ha).
  apply active_grant_none. intros id x. cbn [grants superseded confirmations_update_where update_where
    fst set_confirmations set_grants].
  rewrite lookup_insert_Some. intros [[<- <-]|[Hne Hx]].
  { unfold slot_of_grant, grant_active. cbn. by rewrite andb_false_r. }
  destruct (slot_of_grant u s x) eqn:Hp; [|done]. unfold slot_of_grant, grant_active in Hp. bool_to_prop.
  destruct Hwf as [[_ Hslot] _]. destruct Hne. eapply Hslot; [done..| | |]; unfold grant_active, grant_slot;
    rewrite ?bool_decide_eq_true; congruence.
Qed.

Lemma run_audit e d : run (audit_log e) d = (set_audit (audit d ++ [e]) d, Ok tt).
Proof. done. Qed.

(** The store after a fresh grant, its confirmation and its audit entry. *)
Definition confirm_fresh (confId : string) (g : RiskGrant) (i : RiskGrantIssuanceInput) (d : DB) : DB :=
  if bool_decide (ri_executionMode i = SEMI_AUTO)
  then fst (confirmation_insert (new_confirmation confId g i) d) else d.

Lemma run_fresh n ids confIds dg i d :
  active_grant (ri_userId i) (ri_signalId i) d = None -> grants d !! ids n = None ->
  ri_rebindConfirmationId i = None ->
  let g := new_grant (ids n) dg i in
  exists d', run (issue_loop (S n) ids confIds dg i) d = (d', Ok (mkIssued g false)) /\
    grants d' = <[ids n := g]> (grants d) /\
    confirmations d' = confirmations (confirm_fresh (confIds n) g i (set_grants (<[ids n := g]> (grants d)) d)).
Proof.
  intros Hnone Hid Hrb g. cbn [issue_loop]. unfold findActiveGrantForSignal. run_simpl. rewrite Hnone.
  run_simpl. unfold grant_insert. cbn [g_id new_grant g_userId g_signalId grant_active g_status].
  rewrite Hid, Hnone, andb_comm. rewrite !bool_decide_eq_false_2 by (by intros []). cbn [andb].
  run_simpl. unfold bind_confirmation. rewrite Hrb. fold g. unfold confirm_fresh.
  case_bool_decide; [|eexists; split; [done|done]].
  unfold createPendingConfirmation. run_simpl.
  destruct (confirmation_insert _ _) as [d2 [[]|e]] eqn:E; run_simpl.
  - eexists. split; [done|]. unfold confirmation_insert in E. repeat case_match; simplify_eq. done.
  - assert (isUniqueViolation e = true /\ d2 = set_grants (<[ids n := g]> (grants d)) d) as [-> ->]
      by (unfold confirmation_insert in E; repeat case_match; simplify_eq; done).
    run_simpl. eexists. done.
Qed.

Lemma run_supersede n ids confIds dg i d g :
  authority_wf d -> active_grant (ri_userId i) (ri_signalId i) d = Some g ->
  g_authorityBindingDigest g <> Some dg -> ri_rebindConfirmationId i = None ->
  run (issue_loop (S n) ids confIds dg i) d = run (issue_loop n ids confIds dg i) (superseded g d).
Proof.
  intros Hwf Hg Hdg Hrb. pose proof Hg as (Hrow & _ & _ & Ha)%active_grant_some; [|done].
  cbn [issue_loop]. unfold findActiveGrantForSignal. run_simpl. rewrite Hg.
  rewrite bool_decide_eq_false_2 by done. rewrite Hrb. unfold casInvalidateGrant. run_simpl.
  unfold grant_update, update_row. rewrite Hrow. unfold grant_active.
  rewrite bool_decide_eq_true_2 by done. run_simpl. rewrite bool_decide_eq_false_2 by (by intros []).
  unfold revokeConfirmationsForGrant. run_simpl. unfold superseded.
  destruct (confirmations_update_where _ _ _) as [d2 [r|e]] eqn:E; [done|].
  unfold confirmations_update_where in E. by case_match.
Qed.

Lemma pending_confirmation_some u s d c :
  authority_wf d ->
  pending_confirmation u s d = Some c <->
    confirmations d !! c_id c = Some c /\ c_userId c = u /\ c_signalId c = s /\ c_status c = C_PENDING.
Proof.
  intros [_ [Hid Hslot]]. unfold pending_confirmation. split.
  - intros (id & Hg & Hp)%find_row_some. unfold slot_of_confirmation, pending in Hp. bool_to_prop.
    by rewrite (Hid _ _ Hg).
  - intros (Hg & Hu & Hs & Ha). assert (slot_of_confirmation u s c = true) as Hp.
    { unfold slot_of_confirmation, pending. by rewrite !bool_decide_eq_true_2. }
    apply (find_row_unique _ _ (c_id c)); [done..|]. intros id' g' Hg' Hp'.
    unfold slot_of_confirmation in Hp, Hp'. bool_to_prop.
    assert (c_id c = id') as <- by (eapply Hslot; [done..|]; unfold confirmation_slot; congruence).
    congruence.
Qed.

(** What a fresh SEMI_AUTO grant leaves pending. *)
Lemma confirm_fresh_pending confId g i d :
  ri_executionMode i = SEMI_AUTO -> g_signalId g = ri_signalId i -> confirmations d !! confId = None ->
  authority_wf d ->
  authority_wf (confirm_fresh confId g i d) /\
  match pending_confirmation (ri_userId i) (ri_signalId i) d with
  | Some c => pending_confirmation (ri_userId i) (ri_signalId i) (confirm_fresh confId g i d) = Some c
  | None => pending_confirmation (ri_userId i) (ri_signalId i) (confirm_fresh confId g i d)
              = Some (new_confirmation confId g i (now d))
  end.
Proof.
  intros Hm Hs Hid Hwf. unfold confirm_fresh. rewrite bool_decide_eq_true_2 by done.
  assert (authority_wf (fst (confirmation_insert (new_confirmation confId g i) d))) as Hwf'
    by (by apply confirmation_insert_rel).
  split; [done|]. revert Hwf'. unfold confirmation_insert. cbv zeta.
  cbn [c_id new_confirmation c_userId c_signalId]. rewrite Hid, Hs.
  rewrite (bool_decide_eq_false_2 (is_Some None)) by (by intros []).
  unfold pending at 1 3. cbn [c_status new_confirmation]. rewrite (bool_decide_eq_true_2 (C_PENDING = C_PENDING)) by done.
  cbn [andb]. destruct (pending_confirmation (ri_userId i) (ri_signalId i) d) as [c|] eqn:Hc.
  - rewrite bool_decide_eq_true_2 by eauto. done.
  - rewrite bool_decide_eq_false_2 by (by intros []). cbn [fst]. intros Hwf'.
    apply pending_confirmation_some; [done|]. cbn [confirmations set_confirmations c_id new_confirmation].
    rewrite lookup_insert_eq. done.
Qed.

(** ** The binding digest *)

(** Every fact an issuance binds, but for the quote reference. *)
Definition bound_facts (i : RiskGrantIssuanceInput) :=
  ((ri_userId i, ri_signalId i, ri_signalPayloadDigest i, ri_orderPayloadDigest i),
   (ri_sessionId i, ri_sessionGeneration i, ri_executionMode i, ri_brokerConnectionId i),
   (ri_providerBrokerIdentity i, ri_providerVerificationFingerprint i),
   (ri_riskProfileId i, ri_riskProfileVersion i, ri_riskProfileHash i),
   (ri_accountSnapshotId i, ri_accountSnapshotGeneration i),
   (ri_authorityGeneration i, ri_killSwitchGeneration i, ri_executionControlRevision i),
   (ri_tradingPolicyRevision i, ri_providerVerificationRevision i, ri_credentialGeneration i)).

Definition payload_fields (i : RiskGrantIssuanceInput) : list (chars * js) :=
  match authority_payload i with JObject l => l | _ => [] end.

Lemma chars_of_inj a b : chars_of a = chars_of b -> a = b.
Proof. intros H. by rewrite <- (string_of_chars_of a), <- (string_of_chars_of b), H. Qed.

Lemma jstr_inj a b : canon (jstr a) = canon (jstr b) -> a = b.
Proof. intros [= H]. by apply chars_of_inj. Qed.

Lemma jint_inj a b : canon (jint a) = canon (jint b) -> a = b.
Proof. intros [= H]. by apply bigint_text_inj. Qed.

Lemma jopt_inj {A} (f : A -> js) a b :
  (forall x y, canon (f x) = canon (f y) -> x = y) -> (forall x, canon (f x) <> JNull) ->
  canon (jopt f a) = canon (jopt f b) -> a = b.
Proof.
  intros Hf Hn. destruct a as [x|], b as [y|]; simpl; [by intros ->%Hf|..|done]; intros H; exfalso.
  - by apply (Hn x).
  - by apply (Hn y).
Qed.

Lemma mode_name_inj a b : mode_name a = mode_name b -> a = b.
Proof. by destruct a, b. Qed.

Lemma defined_jstr o : is_undefined (jopt jstr o) = false.
Proof. by destruct o. Qed.
Lemma defined_jint o : is_undefined (jopt jint o) = false.
Proof. by destruct o. Qed.

Lemma payload_positions i j n k v w :
  canon (authority_payload i) = canon (authority_payload j) ->
  payload_fields i !! n = Some (k, v) -> payload_fields j !! n = Some (k, w) -> canon v = canon w.
Proof.
  intros Heq Hv Hw. assert (forall x, fst <$> payload_fields x = fst <$> payload_fields i) as Hk by done.
  assert (NoDup (fst <$> payload_fields i)) as Hnd by (apply (bool_decide_unpack _); vm_compute; done).
  assert (forall x, forallb (fun p => negb (is_undefined (snd p))) (payload_fields x) = true) as Hund.
  { intros x. assert (is_undefined (nullish (ri_quoteRef x)) = false) as Hq by by destruct (ri_quoteRef x) as [[]|].
    unfold payload_fields, authority_payload, field. cbn [forallb snd jstr jint is_undefined negb].
    by rewrite Hq, !defined_jstr, !defined_jint. }
  apply list_elem_of_lookup_2 in Hv, Hw.
  apply (canon_field (payload_fields i) (payload_fields j) k v w); try done; by rewrite Hk.
Qed.

Lemma payload_numbers i : numbers_ok (nullish (ri_quoteRef i)) -> numbers_ok (authority_payload i).
Proof.
  assert (forall n, number_text (bigint_text n)) as Hn by apply bigint_number_text.
  assert (forall o, numbers_ok (jopt jstr o)) as Hos by by intros [].
  assert (forall o, numbers_ok (jopt jint o)) as Hoi by (intros [z|]; [apply Hn|done]).
  intros Hq. unfold authority_payload, field. cbn [numbers_ok map foldr jstr jint]. auto 30.
Qed.

(** ** Samples *)

Definition hash_id (l : chars) : string := string_of l.

Definition sample_payload : OrderPayload :=
  mkPayload "EURUSD" "BUY" "0.1" "MARKET" None (Some "1.05") None None None.

Definition sample_issuance : RiskGrantIssuanceInput :=
  mkIssuance "u1" "sig1" "sd" "s1" 3 SEMI_AUTO "b1" (Some "broker") (Some "fp") (Some "rp") (Some 2)
    (Some "rh") (Some "snap") (Some 5) (Some 900) 4 (Some 7) (Some 1) (Some 1) (Some 1) (Some 2)
    "od" sample_payload None 1000 None.

(** An old grant of the same signal with another binding, and its confirmation. *)
Definition old_grant : RiskGrant := new_grant "g0" "stale" sample_issuance.
Definition old_confirmation : Confirmation := new_confirmation "c0" old_grant sample_issuance 1000.
Definition sample_authority : DB :=
  set_grants {["g0" := old_grant]} (set_confirmations {["c0" := old_confirmation]} (empty_db 2000)).

Lemma sample_authority_wf : authority_wf sample_authority.
Proof.
  split; split; simpl.
  - by intros id g [<- <-]%lookup_singleton_Some.
  - by intros id1 id2 g1 g2 [<- _]%lookup_singleton_Some [<- _]%lookup_singleton_Some.
  - by intros id g [<- <-]%lookup_singleton_Some.
  - by intros id1 id2 g1 g2 [<- _]%lookup_singleton_Some [<- _]%lookup_singleton_Some.
Qed.

Definition fresh_ids (prefix : string) (n : nat) : string := prefix +:+ string_of (bigint_text (Z.of_nat n)).

Lemma sample_fresh n :
  grants sample_authority !! fresh_ids "grant-" n = None /\
  confirmations sample_authority !! fresh_ids "conf-" n = None.
Proof. split; by apply lookup_singleton_ne. Qed.

(** ** Properties *)

(** a grant is consumed at most once.  Whatever calls of the grant service run together,
    under any interleaving and any lost statements, at most one consumption of a grant
    reports success, only if the grant was not consumed before, and it is consumed
    afterwards. *)
Theorem consume_once sha256 grantId calls sched d :
  let c := exec DbUnavailable sched (d, run_gcall sha256 <$> calls) in
  (forall i j, winner (consumes grantId) c i -> winner (consumes grantId) c j -> i = j) /\
  (forall i, winner (consumes grantId) c i -> spent grantId d = false /\ spent grantId (fst c) = true).
Proof.
  apply (one_shot DbUnavailable (spent grantId) (consumes grantId) sched (d, run_gcall sha256 <$> calls)).
  - apply (Forall_impl (guar authority_rel)); [apply guar_gcalls|].
    intros p. apply guar_weaken, authority_rel_spent.
  - apply Forall_fmap, Forall_true. apply needs_gcall.
Qed.

(** the authority lifecycle under concurrency.  Under every interleaving and every fault
    of any calls, a user and a signal keep at most one [ACTIVE] grant and one [PENDING]
    confirmation; no row is lost; a grant keeps every issued fact and only moves from
    [ACTIVE] to [CONSUMED] before its expiry or to [INVALIDATED]; a confirmation only leaves
    [PENDING], to [CONSUMED] only before its own expiry. *)
Theorem authority_evolves sha256 calls sched d :
  authority_wf d ->
  let d' := fst (exec DbUnavailable sched (d, run_gcall sha256 <$> calls)) in
  authority_wf d' /\
  (forall id g, grants d !! id = Some g -> exists g', grants d' !! id = Some g' /\ grant_evolves g g') /\
  (forall id c, confirmations d !! id = Some c ->
     exists c', confirmations d' !! id = Some c' /\ confirmation_evolves c c').
Proof.
  intros Hwf.
  assert (authority_rel d (fst (exec DbUnavailable sched (d, run_gcall sha256 <$> calls)))) as [Hg Hc Hw]
    by (apply (exec_guar DbUnavailable authority_rel sched (d, run_gcall sha256 <$> calls)); apply guar_gcalls).
  cbv zeta. split; [by apply Hw|]. split; [exact Hg|exact Hc].
Qed.

(** What a fresh issuance promises. *)
Record issued_fresh (i : RiskGrantIssuanceInput) (dg : string) (g : RiskGrant) (confId : string) (d d' : DB) : Prop := {
  if_active : active_grant (ri_userId i) (ri_signalId i) d' = Some g;
  if_binding : g = new_grant (g_id g) dg i;
  if_wf : authority_wf d';
  if_superseded old : active_grant (ri_userId i) (ri_signalId i) d = Some old ->
    exists old', grants d' !! g_id old = Some old' /\ g_status old' = G_INVALIDATED;
  if_confirmation : ri_executionMode i = SEMI_AUTO ->
    (forall c, pending_confirmation (ri_userId i) (ri_signalId i) d = Some c ->
       exists old, active_grant (ri_userId i) (ri_signalId i) d = Some old /\ c_riskGrantId c = Some (g_id old)) ->
    exists c, pending_confirmation (ri_userId i) (ri_signalId i) d' = Some c /\
      c_riskGrantId c = Some (g_id g) /\ c_orderPayloadDigest c = g_orderPayloadDigest g }.

Lemma fresh_issued n ids confIds dg i d :
  authority_wf d -> active_grant (ri_userId i) (ri_signalId i) d = None -> grants d !! ids n = None ->
  confirmations d !! confIds n = None -> ri_rebindConfirmationId i = None ->
  exists d', run (issue_loop (S n) ids confIds dg i) d = (d', Ok (mkIssued (new_grant (ids n) dg i) false)) /\
    grants d' = <[ids n := new_grant (ids n) dg i]> (grants d) /\
    active_grant (ri_userId i) (ri_signalId i) d' = Some (new_grant (ids n) dg i) /\ authority_wf d' /\
    (ri_executionMode i = SEMI_AUTO -> pending_confirmation (ri_userId i) (ri_signalId i) d = None ->
       exists c, pending_confirmation (ri_userId i) (ri_signalId i) d' = Some c /\
         c_riskGrantId c = Some (ids n) /\ c_orderPayloadDigest c = ri_orderPayloadDigest i).
Proof.
  intros Hwf Hnone Hid Hcid Hrb.
  destruct (run_fresh n ids confIds dg i d Hnone Hid Hrb) as (d' & Hrun & Hgr & Hcf).
  exists d'. split; [done|]. split; [done|].
  assert (authority_wf d') as Hwf'.
  { pose proof (guar_run authority_rel (issue_loop (S n) ids confIds dg i) d _ (guar_issue_loop _ _ _ _ _)) as Hr.
    rewrite Hrun in Hr. by apply Hr. }
  split; [|split; [done|]].
  - apply active_grant_some; [done|]. rewrite Hgr. cbn [g_id new_grant]. by rewrite lookup_insert_eq.
  - intros Hm Hp.
    assert (authority_wf (set_grants (<[ids n := new_grant (ids n) dg i]> (grants d)) d)) as Hwf1.
    { destruct Hwf' as [Hg _]. rewrite Hgr in Hg. by destruct Hwf. }
    destruct (confirm_fresh_pending (confIds n) (new_grant (ids n) dg i) i
                (set_grants (<[ids n := new_grant (ids n) dg i]> (grants d)) d) Hm eq_refl Hcid Hwf1) as [_ Hpc].
    change (pending_confirmation ?u ?s (set_grants ?m ?x)) with (pending_confirmation u s x) in Hpc.
    rewrite Hp in Hpc. exists (new_confirmation (confIds n) (new_grant (ids n) dg i) i (now d)).
    split; [|done]. unfold pending_confirmation in *. by rewrite Hcf.
Qed.

Lemma superseded_pending u s g d :
  authority_wf d ->
  (forall c, pending_confirmation u s d = Some c -> c_riskGrantId c = Some (g_id g)) ->
  pending_confirmation u s (superseded g d) = None.
Proof.
  intros Hwf Hp. apply find_row_none. intros id x.
  cbn [confirmations superseded confirmations_update_where update_where fst set_confirmations set_grants].
  rewrite lookup_fmap. destruct (confirmations d !! id) as [c|] eqn:Hc; [|done]. simpl. intros [= <-].
  destruct (slot_of_confirmation u s c) eqn:Hs.
  - assert (pending_confirmation u s d = Some c) as Hpc.
    { apply pending_confirmation_some; [done|]. unfold slot_of_confirmation, pending in Hs. bool_to_prop.
      destruct Hwf as [_ [Hid _]]. by rewrite (Hid _ _ Hc). }
    rewrite bool_decide_eq_true_2 by by apply Hp. rewrite (slot_pending _ _ _ Hs). cbn [andb].
    unfold slot_of_confirmation, pending. cbn. by rewrite andb_false_r.
  - case_match eqn:Hb; [|done]. unfold slot_of_confirmation, pending. cbn. by rewrite andb_false_r.
Qed.

Lemma authority_evolves_witness :
  authority_wf sample_authority /\
  authority_wf (fst (exec DbUnavailable [(0, Exec); (1, AckLost); (0, Down)]
    (sample_authority, run_gcall hash_id <$> [GConsume "g0" None; GInvalidateUser "u1" "r"]))%nat).
Proof.
  split; [apply sample_authority_wf|].
  apply (authority_evolves hash_id [GConsume "g0" None; GInvalidateUser "u1" "r"]
    [(0%nat, Exec); (1%nat, AckLost); (0%nat, Down)] sample_authority sample_authority_wf).
Defined.

(** issuance alone always answers.  It reuses the [ACTIVE] grant of the user and signal
    when that carries the same binding digest, writing nothing; otherwise it leaves a fresh
    grant with every fact of the input as the only [ACTIVE] one, the previous one
    invalidated, and in SEMI_AUTO a pending confirmation bound to it unless an unrelated one
    already holds the slot. *)
Theorem issueGrant_issues sha256 ids confIds i d dg :
  authority_wf d -> ri_rebindConfirmationId i = None ->
  digestCanonicalPayload sha256 (authority_payload i) = Ok dg ->
  (forall n, grants d !! ids n = None /\ confirmations d !! confIds n = None) ->
  match active_grant (ri_userId i) (ri_signalId i) d with
  | Some g => g_authorityBindingDigest g = Some dg ->
              run (issueGrant sha256 ids confIds i) d = (d, Ok (mkIssued g true))
  | None => True
  end /\
  ((forall g, active_grant (ri_userId i) (ri_signalId i) d = Some g -> g_authorityBindingDigest g <> Some dg) ->
   exists n g d', run (issueGrant sha256 ids confIds i) d = (d', Ok (mkIssued g false)) /\
     g_id g = ids n /\ issued_fresh i dg g (confIds n) d d').
Proof.
  intros Hwf Hrb Hdg Hfresh. unfold issueGrant, computeAuthorityBindingDigest. rewrite Hdg. cbn [bind].
  split.
  - destruct (active_grant _ _ d) as [g|] eqn:Hg; [|done]. intros Hgd. cbn [issue_loop].
    unfold findActiveGrantForSignal. run_simpl. rewrite Hg, bool_decide_eq_true_2 by done.
    rewrite Hrb. by run_simpl.
  - intros Hne. destruct (active_grant (ri_userId i) (ri_signalId i) d) as [old|] eqn:Hold.
    + rewrite (run_supersede 2 ids confIds dg i d old) by auto.
      pose proof Hold as (Hrow & _ & _ & Ha)%active_grant_some; [|done].
      destruct (superseded_rel old d Hwf Hrow Ha) as [Hge _ Hw]. specialize (Hw Hwf).
      assert (forall n, grants (superseded old d) !! ids n = None /\ confirmations (superseded old d) !! confIds n = None)
        as Hfresh'.
      { intros n. destruct (Hfresh n) as [H1 H2].
        cbn [grants confirmations superseded confirmations_update_where update_where fst set_confirmations set_grants].
        rewrite lookup_fmap, H2, lookup_insert_ne by congruence. done. }
      destruct (fresh_issued 1 ids confIds dg i (superseded old d) Hw
                  (superseded_free _ _ _ _ Hwf Hold) (proj1 (Hfresh' _)) (proj2 (Hfresh' _)) Hrb)
        as (d' & Hrun & Hgr & Hact & Hwf' & Hsemi).
      exists 1%nat, (new_grant (ids 1%nat) dg i), d'. split; [done|]. split; [done|].
      constructor; [done|done|done| |].
      * intros old'. rewrite Hold. intros [= <-].
        exists (invalidate_patch "SUPERSEDED_BY_REVALIDATION" (now d) old). split; [|done]. rewrite Hgr.
        cbn [grants superseded confirmations_update_where update_where fst set_confirmations set_grants].
        destruct (Hfresh 1%nat) as [H1 _]. rewrite lookup_insert_ne by congruence. by rewrite lookup_insert_eq.
      * intros Hm Hp. apply Hsemi; [done|]. apply superseded_pending; [done|].
        intros c (x & Hx & Hb)%Hp. congruence.
    + destruct (fresh_issued 2 ids confIds dg i d Hwf Hold (proj1 (Hfresh _)) (proj2 (Hfresh _)) Hrb)
        as (d' & Hrun & Hgr & Hact & Hwf' & Hsemi).
      exists 2%nat, (new_grant (ids 2%nat) dg i), d'. split; [done|]. split; [done|].
      constructor; [done|done|done|by rewrite Hold|].
      intros Hm Hp. apply Hsemi; [done|]. destruct (pending_confirmation _ _ d) as [c|] eqn:E; [|done].
      destruct (Hp c eq_refl) as (x & Hx & _). congruence.
Qed.

Lemma issueGrant_issues_witness :
  exists n g d', run (issueGrant hash_id (fresh_ids "grant-") (fresh_ids "conf-") sample_issuance) sample_authority
    = (d', Ok (mkIssued g false)) /\ g_id g = fresh_ids "grant-" n /\
    exists c, pending_confirmation "u1" "sig1" d' = Some c /\ c_riskGrantId c = Some (g_id g).
Proof.
  destruct (digestCanonicalPayload hash_id (authority_payload sample_issuance)) as [dg|] eqn:Hdg;
    [|by vm_compute in Hdg].
  assert (active_grant "u1" "sig1" sample_authority = Some old_grant) as Hact by (vm_compute; reflexivity).
  assert (dg <> "stale") as Hne by (vm_compute in Hdg; injection Hdg as <-; discriminate).
  destruct (issueGrant_issues hash_id (fresh_ids "grant-") (fresh_ids "conf-") sample_issuance sample_authority dg
    sample_authority_wf eq_refl Hdg sample_fresh) as [_ H].
  destruct H as (n & g & d' & Hrun & Hid & [_ _ _ _ Hc]).
  { intros g Hg. change (active_grant "u1" "sig1" sample_authority = Some g) in Hg.
    rewrite Hact in Hg. injection Hg as <-. intros [= Heq]. by apply Hne. }
  exists n, g, d'. split; [done|]. split; [done|].
  destruct (Hc eq_refl) as (c & Hp & Hb & _).
  { intros c Hc0. exists old_grant. split; [exact Hact|]. vm_compute in Hc0. injection Hc0 as <-. reflexivity. }
  by exists c.
Defined.

(** a consumption alone is exact.  It succeeds exactly on a grant that is there, visible to
    the tenant, [ACTIVE] and not expired, and stamps it consumed now; otherwise nothing
    changes and the reason is the one that holds ([CAS_RACE_LOST] never appears alone). *)
Theorem consume_alone id u d :
  run (consumeGrantAtomic id u) d =
    match find_grant u id d with
    | None => (d, Ok (mkConsume false (Some NOT_FOUND) None))
    | Some g =>
        match g_status g with
        | G_CONSUMED => (d, Ok (mkConsume false (Some ALREADY_CONSUMED) (Some g)))
        | G_INVALIDATED => (d, Ok (mkConsume false (Some INVALIDATED) (Some g)))
        | G_EXPIRED => (d, Ok (mkConsume false (Some EXPIRED) (Some g)))
        | G_ACTIVE =>
            if g_expiresAt g <=? now d then (d, Ok (mkConsume false (Some EXPIRED) (Some g)))
            else let g' := consume_patch (now d) g in
                 (set_grants (<[id := g']> (grants d)) d, Ok (mkConsume true None (Some g')))
        end
    end.
Proof.
  assert (forall d, set_grants (grants d) d = d) as Hid by by intros [].
  unfold consumeGrantAtomic. run_simpl. unfold grant_update, update_row.
  destruct (grants d !! id) as [g|] eqn:Hg.
  2:{ run_simpl. counts. run_simpl. rewrite Hid. unfold find_grant. by rewrite Hg. }
  assert (find_grant u id d = if fenced u g then Some g else None) as Hfind
    by (unfold find_grant; by rewrite Hg).
  unfold consume_guard, grant_active. rewrite Hfind. destruct (fenced u g) eqn:Hf.
  - rewrite andb_true_r. destruct (g_status g) eqn:Hs;
      try (rewrite bool_decide_eq_false_2 by done; cbn [andb]; run_simpl; counts; run_simpl;
           rewrite Hid, Hfind; cbn [fst]; by rewrite Hs).
    rewrite bool_decide_eq_true_2 by done. cbn [andb].
    rewrite Z.ltb_antisym. destruct (g_expiresAt g <=? now d) eqn:Hexp; cbn [negb].
    + run_simpl. counts. run_simpl. rewrite Hid, Hfind. cbn [fst snd]. by rewrite Hs, Hexp.
    + run_simpl. counts. run_simpl. unfold find_grant. cbn [grants set_grants]. rewrite lookup_insert_eq.
      assert (fenced u (consume_patch (now d) g) = true) as -> by by destruct u.
      done.
  - rewrite andb_false_r. run_simpl. counts. run_simpl. by rewrite Hid, Hfind.
Qed.

(** invalidating a user's authority is complete and narrow.  Afterwards the user has no
    [ACTIVE] grant and no [PENDING] confirmation; rows of other users and rows already
    terminal are untouched. *)
Theorem invalidate_user_complete u reason d :
  exists d' r, run (invalidateUserNewExposureAuthority u reason) d = (d', Ok r) /\
    (forall id g, grants d' !! id = Some g -> g_userId g = u -> g_status g <> G_ACTIVE) /\
    (forall id c, confirmations d' !! id = Some c -> c_userId c = u -> c_status c <> C_PENDING) /\
    (forall id g, grants d !! id = Some g -> g_userId g <> u \/ g_status g <> G_ACTIVE -> grants d' !! id = Some g) /\
    (forall id c, confirmations d !! id = Some c -> c_userId c <> u \/ c_status c <> C_PENDING ->
       confirmations d' !! id = Some c).
Proof.
  unfold invalidateUserNewExposureAuthority. run_simpl.
  unfold grants_update_where, confirmations_update_where. run_simpl. cbn [rmap update_where]. run_simpl.
  do 2 eexists. split; [done|]. cbn [grants confirmations set_grants set_confirmations].
  split; [|split; [|split]].
  - intros id g. rewrite lookup_fmap. destruct (grants d !! id) as [x|]; [|done]. simpl. intros [= <-].
    case_match eqn:Hb; [done|]. intros <-. unfold grant_active in Hb.
    rewrite bool_decide_eq_true_2 in Hb by done. by apply bool_decide_eq_false in Hb.
  - intros id c. rewrite lookup_fmap. destruct (confirmations d !! id) as [x|]; [|done]. simpl. intros [= <-].
    case_match eqn:Hb; [done|]. intros <-. unfold pending in Hb.
    rewrite bool_decide_eq_true_2 in Hb by done. by apply bool_decide_eq_false in Hb.
  - intros id g Hg Hn. rewrite lookup_fmap, Hg. simpl. case_match eqn:Hb; [|done]. exfalso.
    unfold grant_active in Hb. bool_to_prop. naive_solver.
  - intros id c Hc Hn. rewrite lookup_fmap, Hc. simpl. case_match eqn:Hb; [|done]. exfalso.
    unfold pending in Hb. bool_to_prop. naive_solver.
Qed.

(** the binding digest binds.  For a collision-free hash, two issuances share a binding
    digest only when every authority fact is the same and their quote references are the
    same canonical value. *)
Theorem binding_digest_binds sha256 i j dg :
  (forall a b, sha256 a = sha256 b -> a = b) ->
  numbers_ok (nullish (ri_quoteRef i)) -> numbers_ok (nullish (ri_quoteRef j)) ->
  digestCanonicalPayload sha256 (authority_payload i) = Ok dg ->
  digestCanonicalPayload sha256 (authority_payload j) = Ok dg ->
  bound_facts i = bound_facts j /\ canon (nullish (ri_quoteRef i)) = canon (nullish (ri_quoteRef j)).
Proof.
  intros Hinj Hqi Hqj (ti & Hti & ->)%rmap_ok (tj & Htj & Heq)%rmap_ok. apply Hinj in Heq as ->.
  assert (canon (authority_payload i) = canon (authority_payload j)) as Hc
    by (eapply canonicalJson_canon; [apply payload_numbers; done..|exact Hti|exact Htj]).
  pose proof (fun n k v w => payload_positions i j n k v w Hc) as Hp.
  assert (forall n k a b, payload_fields i !! n = Some (k, jstr a) -> payload_fields j !! n = Some (k, jstr b) -> a = b) as Hs
    by (intros; eapply jstr_inj, Hp; eauto).
  assert (forall n k a b, payload_fields i !! n = Some (k, jint a) -> payload_fields j !! n = Some (k, jint b) -> a = b) as Hi
    by (intros; eapply jint_inj, Hp; eauto).
  assert (forall n k a b, payload_fields i !! n = Some (k, jopt jstr a) ->
            payload_fields j !! n = Some (k, jopt jstr b) -> a = b) as Hos
    by (intros; eapply (jopt_inj jstr); [apply jstr_inj|done|eapply Hp; eauto]).
  assert (forall n k a b, payload_fields i !! n = Some (k, jopt jint a) ->
            payload_fields j !! n = Some (k, jopt jint b) -> a = b) as Hoi
    by (intros; eapply (jopt_inj jint); [apply jint_inj|done|eapply Hp; eauto]).
  split; [|by apply (Hp 22%nat (chars_of "quoteRef"))]. unfold bound_facts.
  repeat (f_equal; try first
    [ by apply (Hs 1%nat (chars_of "userId")) | by apply (Hs 2%nat (chars_of "signalId"))
    | by apply (Hs 3%nat (chars_of "signalPayloadDigest")) | by apply (Hs 4%nat (chars_of "orderPayloadDigest"))
    | by apply (Hs 5%nat (chars_of "sessionId")) | by apply (Hi 6%nat (chars_of "sessionGeneration"))
    | by apply mode_name_inj, (Hs 7%nat (chars_of "executionMode"))
    | by apply (Hs 8%nat (chars_of "brokerConnectionId"))
    | by apply (Hos 9%nat (chars_of "providerBrokerIdentity"))
    | by apply (Hos 10%nat (chars_of "providerVerificationFingerprint"))
    | by apply (Hos 11%nat (chars_of "riskProfileId")) | by apply (Hoi 12%nat (chars_of "riskProfileVersion"))
    | by apply (Hos 13%nat (chars_of "riskProfileHash")) | by apply (Hos 14%nat (chars_of "accountSnapshotId"))
    | by apply (Hoi 15%nat (chars_of "accountSnapshotGeneration")) | by apply (Hi 16%nat (chars_of "authorityGeneration"))
    | by apply (Hoi 17%nat (chars_of "killSwitchGeneration")) | by apply (Hoi 18%nat (chars_of "executionControlRevision"))
    | by apply (Hoi 19%nat (chars_of "tradingPolicyRevision"))
    | by apply (Hoi 20%nat (chars_of "providerVerificationRevision"))
    | by apply (Hoi 21%nat (chars_of "credentialGeneration")) ]).
Qed.

Lemma binding_digest_binds_witness :
  (forall a b, hash_id a = hash_id b -> a = b) /\
  (forall dg, digestCanonicalPayload hash_id (authority_payload sample_issuance) = Ok dg ->
     bound_facts sample_issuance = bound_facts sample_issuance).
Proof.
  assert (forall a b, hash_id a = hash_id b -> a = b) as Hinj.
  { intros a b H. rewrite <- (chars_of_string_of a), <- (chars_of_string_of b). unfold hash_id in H. by rewrite H. }
  split; [exact Hinj|]. intros dg Hdg.
  exact (proj1 (binding_digest_binds hash_id sample_issuance sample_issuance dg Hinj I I Hdg Hdg)).
Defined.

(** reuse ignores expiry.  A re-issuance with the same binding answers the existing
    [ACTIVE] grant even when it has already expired, so that its consumption fails. *)
Theorem reuse_may_be_expired sha256 ids confIds i d dg g :
  authority_wf d -> ri_rebindConfirmationId i = None ->
  digestCanonicalPayload sha256 (authority_payload i) = Ok dg ->
  active_grant (ri_userId i) (ri_signalId i) d = Some g -> g_authorityBindingDigest g = Some dg ->
  g_expiresAt g <= now d ->
  run (issueGrant sha256 ids confIds i) d = (d, Ok (mkIssued g true)) /\
  run (consumeGrantAtomic (g_id g) None) d = (d, Ok (mkConsume false (Some EXPIRED) (Some g))).
Proof.
  intros Hwf Hrb Hdg Hact Hgd Hexp. split.
  - unfold issueGrant, computeAuthorityBindingDigest. rewrite Hdg. cbn [bind issue_loop].
    unfold findActiveGrantForSignal. run_simpl. rewrite Hact, bool_decide_eq_true_2, Hrb by done. by run_simpl.
  - apply active_grant_some in Hact as (Hg & _ & _ & Ha); [|done].
    assert (forall d, set_grants (grants d) d = d) as Hid by by intros [].
    unfold consumeGrantAtomic. run_simpl. unfold grant_update, update_row. rewrite Hg.
    unfold consume_guard. rewrite (proj2 (Z.ltb_ge _ _) Hexp), andb_false_r. cbn [andb].
    run_simpl. counts. run_simpl. rewrite Hid. unfold find_grant. rewrite Hg. cbn [fenced fst snd].
    rewrite Ha, (proj2 (Z.leb_le _ _) Hexp). done.
Qed.

Lemma reuse_may_be_expired_witness :
  exists dg, let g := new_grant "g1" dg sample_issuance in
  let d := set_grants {["g1" := g]} (empty_db 999999) in
  run (issueGrant hash_id (fresh_ids "grant-") (fresh_ids "conf-") sample_issuance) d = (d, Ok (mkIssued g true)).
Proof.
  destruct (digestCanonicalPayload hash_id (authority_payload sample_issuance)) as [dg|] eqn:Hdg;
    [|by vm_compute in Hdg].
  exists dg. cbv zeta. set (d := set_grants _ _).
  assert (authority_wf d) as Hwf.
  { split; split; simpl.
    - by intros id g [<- <-]%lookup_singleton_Some.
    - by intros id1 id2 g1 g2 [<- _]%lookup_singleton_Some [<- _]%lookup_singleton_Some.
    - done.
    - done. }
  apply (reuse_may_be_expired hash_id (fresh_ids "grant-") (fresh_ids "conf-") sample_issuance d dg
    (new_grant "g1" dg sample_issuance) Hwf eq_refl Hdg).
  - apply active_grant_some; [exact Hwf|]. split; [|done]. apply lookup_singleton_eq.
  - reflexivity.
  - discriminate.
Defined.
