(* ===== verification/Authority.v ===== *)
(** * Authority generations, shared revisions and emergency controls

    [execution-authority/trading-authority.service.ts]: the monotonic generation of each
    user.  [execution-authority/shared-control-revision.service.ts]: the cross-replica
    singletons (trading policy, provider verification catalog, execution control) with
    their append-only logs.  [execution-control/execution-control.service.ts]: the
    emergency controls, whose every activation and deactivation advances the
    execution-control revision in the same transaction.  Every awaited statement is one
    operation, a transaction is one operation.  Reasons, timestamps and realtime events
    are not state the code decides on, and are left out. *)

From S2P Require Import Prelude Prog JsString CanonicalJson StateMachines Store RiskGrants.
Open Scope string_scope.
Open Scope list_scope.
Open Scope Z_scope.

(** ** Counters

    A row that holds a revision: absent until it is seeded with 1. *)
Class Counter := {
  c_get : DB -> option Z;
  c_set : Z -> DB -> DB;
  c_get_set n d : c_get (c_set n d) = Some n }.

#[global] Program Instance user_generation (userId : string) : Counter := {|
  c_get d := generations d !! userId;
  c_set n d := set_generations (<[userId := n]> (generations d)) d |}.
Next Obligation. intros. simpl. by rewrite lookup_insert_eq. Qed.

#[global] Program Instance control_revision : Counter := {|
  c_get := controlRevision;
  c_set n := set_controlRevision (Some n) |}.
Next Obligation. done. Qed.

(** The [integer] columns. *)
Definition MAX_INT4 : Z := 2147483647.

(** [INSERT .. VALUES (.., 1)] and [UPDATE .. SET n = n + 1]. *)
Definition counter_seed (c : Counter) (d : DB) : DB * result exn unit :=
  match c_get d with
  | Some _ => (d, Err (UniqueViolation "counter"))
  | None => (c_set 1 d, Ok tt)
  end.

Definition counter_bump (c : Counter) (d : DB) : DB * result exn Z :=
  match c_get d with
  | Some n => if n <? MAX_INT4 then (c_set (n + 1) d, Ok 1) else (d, Err NumericOverflow)
  | None => (d, Ok 0)
  end.

Section protocols.
Local Open Scope prog_scope.

(** [try { p } catch (err) { throw new e(.., err) }]. *)
Definition wrap {A} (e : exn) (p : io A) : io A := catch p (fun _ => Throw e).

Definition unless_unique (e : exn) (p : io unit) : io unit :=
  catch p (fun err => if isUniqueViolation err then Ret tt else Throw e).

(** The guarded bump both services are written with. *)
Definition bump_protocol (c : Counter) (unavailable diverged : exn) : io Z :=
  let* affected := wrap unavailable (op (counter_bump c)) in
  do! (if affected =? 0 then
         do! unless_unique unavailable (op (counter_seed c)) in
         let* retried := wrap unavailable (op (counter_bump c)) in
         if retried =? 0 then Throw diverged else Ret tt
       else Ret tt) in
  let* row := wrap unavailable (sel c_get) in
  match row with
  | Some n => Ret n
  | None => Throw unavailable
  end.

(** ** TradingAuthorityService *)

Definition getCurrentGeneration (userId : string) : io Z :=
  let* current := wrap AuthorityStoreUnavailable (sel (c_get (Counter := user_generation userId))) in
  match current with
  | Some n => Ret n
  | None =>
      catch (do! op (counter_seed (user_generation userId)) in Ret 1)
        (fun err =>
           if isUniqueViolation err then
             let* winner := wrap AuthorityStoreUnavailable (sel (c_get (Counter := user_generation userId))) in
             match winner with
             | Some n => Ret n
             | None => Throw AuthorityStoreUnavailable
             end
           else Throw AuthorityStoreUnavailable)
  end.

Definition AUTHORITY_BUMP_REASONS : list string :=
  ["USER_PROFILE_COUNTRY_CHANGED"; "USER_PROFILE_DATE_OF_BIRTH_CHANGED"; "USER_PROFILE_DOB_KYC_RESET";
   "KYC_REVIEW_DECIDED"; "JURISDICTION_DECISION_CHANGED";
   "ACCOUNT_SUSPENDED"; "ACCOUNT_PERMANENTLY_LOCKED"; "ACCOUNT_CLOSED"; "ACCOUNT_REACTIVATED";
   "RISK_PROFILE_MATERIAL_EDIT"; "RISK_ACKNOWLEDGEMENT_CHANGED"; "KILL_SWITCH_TOGGLED";
   "BROKER_AUTHORIZATION_REVOKED"; "BROKER_CONNECTION_SUSPENDED"; "BROKER_CONNECTION_DISCONNECTED";
   "BROKER_CREDENTIAL_INVALIDATED"; "BROKER_CREDENTIAL_ROTATED"; "BROKER_PROVIDER_IDENTITY_CHANGED";
   "BROKER_EXECUTABLE_STATUS_CHANGED"].

Definition auditBump (userId reason : string) : io unit :=
  audit_log (mkAudit (Some userId) "ADMIN_ACTION" "TradingAuthorityGeneration" userId reason).

Definition bumpGeneration (userId reason : string) : io Z :=
  if negb (bool_decide (reason ∈ AUTHORITY_BUMP_REASONS)) then Throw AuthorityBumpReasonInvalid
  else
    let* n := bump_protocol (user_generation userId) AuthorityStoreUnavailable AuthorityStoreUnavailable in
    do! auditBump userId reason in
    Ret n.

(** ** SharedControlRevisionService *)

Definition readSingletonRevision (f : DB -> option Z) : io Z :=
  let* row := wrap SharedControlStoreUnavailable (sel f) in
  match row with
  | Some n => Ret n
  | None => Throw SharedControlStateNotInitialized
  end.

Definition getCurrentTradingPolicyRevision : io Z :=
  readSingletonRevision (fun d => sh_revision <$> policyRevision d).
Definition getCurrentProviderVerificationRevision : io Z :=
  readSingletonRevision (fun d => sh_revision <$> providerRevision d).
Definition getCurrentExecutionControlRevision : io Z := readSingletonRevision controlRevision.

Definition ensureExecutionControlRevisionInitialized : io Z :=
  catch
    (let* existing := sel controlRevision in
     match existing with
     | Some n => Ret n
     | None =>
         do! unless_unique SharedControlStoreUnavailable (op (counter_seed control_revision)) in
         let* seeded := sel controlRevision in
         match seeded with
         | Some n => Ret n
         | None => Throw SharedControlConvergence
         end
     end)
    (fun err => if bool_decide (err ∈ [SharedControlStoreUnavailable; SharedControlConvergence])
                then Throw err else Throw SharedControlStoreUnavailable).

Definition blank_reason (reason : string) : bool := bool_decide (trim (chars_of reason) = []).

Definition auditControlBump (reason : string) : io unit :=
  audit_log (mkAudit None "ADMIN_ACTION" "ExecutionControlRevisionState" "1" reason).

Definition bumpExecutionControlRevision (reason : string) : io Z :=
  if blank_reason reason then Throw SharedControlBumpReasonInvalid
  else
    let* n := bump_protocol control_revision SharedControlStoreUnavailable SharedControlConvergence in
    do! auditControlBump reason in
    Ret n.

(** A fingerprinted singleton with its log. *)
Record Plane := mkPlane {
  pl_state : DB -> option SharedState; pl_set_state : option SharedState -> DB -> DB;
  pl_log : DB -> gmap Z string; pl_set_log : gmap Z string -> DB -> DB }.

Definition policy_plane : Plane := mkPlane policyRevision set_policyRevision policyLog set_policyLog.
Definition provider_plane : Plane := mkPlane providerRevision set_providerRevision providerLog set_providerLog.

Definition seedState (p : Plane) (fingerprint : string) (d : DB) : DB * result exn unit :=
  match pl_state p d with
  | Some _ => (d, Err (UniqueViolation "pk_state"))
  | None => (pl_set_state p (Some (mkShared 1 fingerprint)) d, Ok tt)
  end.

Definition appendLog (p : Plane) (revision : Z) (fingerprint : string) (d : DB) : DB * result exn unit :=
  match pl_log p d !! revision with
  | Some _ => (d, Err (UniqueViolation "uq_revision"))
  | None => (pl_set_log p (<[revision := fingerprint]> (pl_log p d)) d, Ok tt)
  end.

Definition casAdvance (p : Plane) (expected next : Z) (fingerprint : string) (d : DB) : DB * result exn Z :=
  match pl_state p d with
  | Some s => if sh_revision s =? expected
              then (pl_set_state p (Some (mkShared next fingerprint)) d, Ok 1) else (d, Ok 0)
  | None => (d, Ok 0)
  end.

Definition SYNC_CAS_MAX_ATTEMPTS : nat := 3.

Fixpoint sync_loop (attempts : nat) (p : Plane) (fingerprint : string) : io Z :=
  match attempts with
  | O => Throw SharedControlConvergence
  | S attempts =>
      let* state := wrap SharedControlStoreUnavailable (sel (pl_state p)) in
      match state with
      | None =>
          do! unless_unique SharedControlStoreUnavailable (op (seedState p fingerprint)) in
          do! unless_unique SharedControlStoreUnavailable (op (appendLog p 1 fingerprint)) in
          sync_loop attempts p fingerprint
      | Some s =>
          if bool_decide (sh_fingerprint s = fingerprint) then Ret (sh_revision s)
          else
            let next := sh_revision s + 1 in
            do! unless_unique SharedControlStoreUnavailable (op (appendLog p next fingerprint)) in
            let* affected := wrap SharedControlStoreUnavailable
                (op (casAdvance p (sh_revision s) next fingerprint)) in
            if 0 <? affected then Ret next else sync_loop attempts p fingerprint
      end
  end.

Definition syncSharedControlRevision (p : Plane) (fingerprint : string) : io Z :=
  sync_loop SYNC_CAS_MAX_ATTEMPTS p fingerprint.

(** [/^[0-9a-f]{64}$/]. *)
Definition is_hex (c : ascii) : bool := is_digit c || ((97 <=? code c) && (code c <=? 102)).
Definition FINGERPRINT_PATTERN (l : chars) : bool := bool_decide (length l = 64%nat) && forallb is_hex l.

Definition sync (p : Plane) (fingerprint : string) : io Z :=
  if FINGERPRINT_PATTERN (chars_of fingerprint) then syncSharedControlRevision p fingerprint
  else Throw SharedControlFingerprintInvalid.

Definition syncTradingPolicy (fingerprint : string) : io Z := sync policy_plane fingerprint.
Definition syncProviderVerificationCatalog (fingerprint : string) : io Z := sync provider_plane fingerprint.
End protocols.

(** ** ExecutionControlService *)

Record Block := mkBlock { bl_scope : ControlScope; bl_scopeKey : option string; bl_reason : string }.
Record ExecutionPermission := mkPermission { allowed : bool; blockedBy : option Block }.

Record ActivateControl := mkActivate {
  ac_scope : ControlScope; ac_scopeKey : option string; ac_reason : string; ac_expiresAt : option Z }.

Section control.
Local Open Scope prog_scope.

Definition isEffectivelyActive (t : Z) (c : ExecutionControl) : bool :=
  bool_decide (k_status c = K_ACTIVE) &&
  match k_expiresAt c with None => true | Some e => t <? e end.

(** The controls in force, with the clock they were read at. *)
Definition findActiveControls : io (list ExecutionControl * Z) :=
  sel (fun d => (List.filter (isEffectivelyActive (now d)) (controls d), now d)).

Definition matchScope (t : Z) (cs : list ExecutionControl) (scope : ControlScope) (key : option string)
  : option ExecutionControl :=
  List.find (fun c => bool_decide (k_scope c = scope) && bool_decide (k_scopeKey c = key)
                      && isEffectivelyActive t c) cs.

Definition toBlock (c : ExecutionControl) : Block := mkBlock (k_scope c) (k_scopeKey c) (k_reason c).

(** [if (x)] on an optional string: present and not empty. *)
Definition present (o : option string) : bool :=
  match o with Some s => negb (bool_decide (s = "")) | None => false end.

Definition cascade (t : Z) (cs : list ExecutionControl) (userId : string)
    (brokerId brokerConnectionId : option string) : ExecutionPermission :=
  let block c := mkPermission false (Some (toBlock c)) in
  match matchScope t cs GLOBAL None with
  | Some c => block c
  | None =>
      match (if present brokerId then matchScope t cs PROVIDER brokerId else None) with
      | Some c => block c
      | None =>
          match matchScope t cs USER (Some userId) with
          | Some c => block c
          | None =>
              match (if present brokerConnectionId
                     then matchScope t cs BROKER_CONNECTION brokerConnectionId else None) with
              | Some c => block c
              | None => mkPermission true None
              end
          end
      end
  end.

Definition store_unavailable : ExecutionPermission :=
  mkPermission false (Some (mkBlock GLOBAL None "EXECUTION_CONTROL_STORE_UNAVAILABLE")).

Definition checkExecutionPermission (userId : string) (brokerId brokerConnectionId : option string)
  : io ExecutionPermission :=
  let* read := attempt findActiveControls in
  match read with
  | Err _ => Ret store_unavailable
  | Ok (cs, t) => Ret (cascade t cs userId brokerId brokerConnectionId)
  end.

Definition assertExecutionAllowed (userId : string) (brokerId brokerConnectionId : option string) : io unit :=
  let* permission := checkExecutionPermission userId brokerId brokerConnectionId in
  match blockedBy permission with
  | Some _ => if allowed permission then Ret tt else Throw (ForbiddenException "Execution blocked by emergency control")
  | None => Ret tt
  end.

Definition normalizeScopeKey (scope : ControlScope) (scopeKey : option string) : result exn (option string) :=
  match scope with
  | GLOBAL => Ok None
  | _ =>
      match scopeKey with
      | Some k => match trim (chars_of k) with
                  | [] => Err (ConflictException "scopeKey is required")
                  | t => Ok (Some (string_of t))
                  end
      | None => Err (ConflictException "scopeKey is required")
      end
  end.

(** [findOne({ where: { scope, scopeKey, status }, order })]: a [null] in a [where] is not a
    condition. *)
Definition same_slot (scope : ControlScope) (key : option string) (c : ExecutionControl) : bool :=
  bool_decide (k_scope c = scope) && match key with None => true | Some _ => bool_decide (k_scopeKey c = key) end
  && bool_decide (k_status c = K_ACTIVE).

Fixpoint newest (cs : list ExecutionControl) : option ExecutionControl :=
  match cs with
  | [] => None
  | c :: cs => match newest cs with
               | Some c' => if k_activatedAt c <? k_activatedAt c' then Some c' else Some c
               | None => Some c
               end
  end.

Definition findCurrentActiveControl (scope : ControlScope) (key : option string)
  : io (option ExecutionControl * Z) :=
  sel (fun d => (newest (List.filter (same_slot scope key) (controls d)), now d)).

Definition set_control_status (st : ControlStatus) (c : ExecutionControl) : ExecutionControl :=
  mkControl (k_id c) (k_scope c) (k_scopeKey c) (k_reason c) (k_activatedByUserId c) (k_activatedAt c)
    (k_expiresAt c) st.

Definition retireExpiredActiveControl (c : ExecutionControl) : io unit :=
  modify (fun d => set_controls (map (fun x =>
    if bool_decide (k_id x = k_id c) && bool_decide (k_status x = K_ACTIVE)
    then set_control_status K_EXPIRED x else x) (controls d)) d).

(** The partial unique index [(scope, COALESCE(scope_key, '')) WHERE status = 'ACTIVE']. *)
Definition index_slot (c : ExecutionControl) : ControlScope * string := (k_scope c, default "" (k_scopeKey c)).

Definition control_insert (c : Z -> ExecutionControl) (d : DB) : DB * result exn ExecutionControl :=
  let c := c (now d) in
  if existsb (fun x => bool_decide (k_id x = k_id c)) (controls d)
  then (d, Err (UniqueViolation "pk_execution_controls"))
  else if existsb (fun x => bool_decide (k_status x = K_ACTIVE) && bool_decide (index_slot x = index_slot c)) (controls d)
  then (d, Err (UniqueViolation "uq_exec_controls_active_scope"))
  else (set_controls (controls d ++ [c]) d, Ok c).

Definition activateControl (newId : string) (dto : ActivateControl) (adminUserId : string) : io ExecutionControl :=
  match normalizeScopeKey (ac_scope dto) (ac_scopeKey dto) with
  | Err e => Throw e
  | Ok scopeKey =>
      let* found := findCurrentActiveControl (ac_scope dto) scopeKey in
      if match fst found with Some c => isEffectivelyActive (snd found) c | None => false end
      then Throw (ConflictException "Execution control already active")
      else
        do! match fst found with Some c => retireExpiredActiveControl c | None => Ret tt end in
        let* control :=
          catch
            (transaction
               (let* saved := op (control_insert (fun t =>
                    mkControl newId (ac_scope dto) scopeKey (ac_reason dto) adminUserId t (ac_expiresAt dto) K_ACTIVE)) in
                do! bumpExecutionControlRevision ("execution control activated: " +:+ ac_reason dto) in
                Ret saved))
            (fun err => if isUniqueViolation err
                        then Throw (ConflictException "Execution control already active (concurrent activation)")
                        else Throw err) in
        do! audit_log (mkAudit (Some adminUserId) "EXECUTION_CONTROL_ACTIVATED" "ExecutionControl" (k_id control) (ac_reason dto)) in
        Ret control
  end.

Definition deactivateControl (controlId adminUserId : string) : io unit :=
  let* control := sel (fun d => List.find (fun c => bool_decide (k_id c = controlId)) (controls d)) in
  match control with
  | None => Throw (NotFoundException "Execution control")
  | Some c =>
      do! transaction
        (do! modify (fun d => set_controls (List.filter (fun x => negb (bool_decide (k_id x = controlId))) (controls d)) d) in
         bumpExecutionControlRevision "execution control deactivated") in
      audit_log (mkAudit (Some adminUserId) "EXECUTION_CONTROL_DEACTIVATED" "ExecutionControl" controlId (k_reason c))
  end.

(** [toView]: the status an administrator sees, and the two listings. *)
Definition toView (t : Z) (c : ExecutionControl) : ExecutionControl :=
  set_control_status (if isEffectivelyActive t c then K_ACTIVE else K_EXPIRED) c.

Definition listActiveControls : io (list ExecutionControl) :=
  let* r := findActiveControls in Ret (map (toView (snd r)) (fst r)).
Definition listControlsIncludingExpired : io (list ExecutionControl) :=
  sel (fun d => map (toView (now d)) (controls d)).
End control.

(** ** What every statement respects *)

Definition opt_le (a b : option Z) : Prop :=
  match a, b with
  | None, None => True
  | None, Some y => 0 < y
  | Some x, Some y => x <= y
  | Some _, None => False
  end.

(** A singleton keeps its content until its revision grows. *)
Definition state_le (a b : option SharedState) : Prop :=
  match a, b with
  | None, _ => True
  | Some s, Some s' => sh_revision s < sh_revision s' \/ s' = s
  | Some _, None => False
  end.

#[export] Instance opt_le_preorder : PreOrder opt_le.
Proof. split; [by intros [x|]; simpl; lia|]. intros [x|] [y|] [z|]; simpl; lia. Qed.

#[export] Instance state_le_preorder : PreOrder state_le.
Proof.
  split; [by intros [s|]; simpl; auto|]. intros [x|] [y|] [z|]; simpl; try done.
  intros [H1| ->] [H2| ->]; auto. left. lia.
Qed.

Definition control_active (c : ExecutionControl) : bool := bool_decide (k_status c = K_ACTIVE).
Definition active_slots (cs : list ExecutionControl) : list (ControlScope * string) :=
  map index_slot (List.filter control_active cs).

Record counters_rel (d d' : DB) : Prop := {
  cr_generation u : opt_le (generations d !! u) (generations d' !! u);
  cr_control : opt_le (controlRevision d) (controlRevision d');
  cr_policy : state_le (policyRevision d) (policyRevision d');
  cr_provider : state_le (providerRevision d) (providerRevision d');
  cr_policyLog : policyLog d ⊆ policyLog d';
  cr_providerLog : providerLog d ⊆ providerLog d';
  cr_slots : NoDup (active_slots (controls d)) -> NoDup (active_slots (controls d')) }.

#[export] Instance counters_rel_preorder : PreOrder counters_rel.
Proof.
  split.
  - intros d. by constructor.
  - intros x y z [] []. constructor; [intros u; etransitivity; eauto|etransitivity; eassumption..|auto].
Qed.

Ltac counters_same := constructor; cbn; intros; first [reflexivity | done | auto].

Lemma seed_generation_rel u d : counters_rel d (fst (counter_seed (user_generation u) d)).
Proof.
  unfold counter_seed. destruct (c_get d) as [n|] eqn:E; [reflexivity|]. cbn in E. constructor; try done.
  intros v. cbn. destruct (decide (u = v)) as [<-|]; [rewrite E, lookup_insert_eq; simpl; lia|by rewrite lookup_insert_ne].
Qed.

Lemma bump_generation_rel u d : counters_rel d (fst (counter_bump (user_generation u) d)).
Proof.
  unfold counter_bump. destruct (c_get d) as [n|] eqn:E; [|reflexivity].
  destruct (n <? MAX_INT4); [|reflexivity]. cbn in E. constructor; try done.
  intros v. cbn. destruct (decide (u = v)) as [<-|]; [|by rewrite lookup_insert_ne].
  rewrite E, lookup_insert_eq. simpl. lia.
Qed.

Lemma seed_control_rel d : counters_rel d (fst (counter_seed control_revision d)).
Proof. unfold counter_seed. cbn. destruct (controlRevision d) eqn:E; [reflexivity|]. constructor; try done. by rewrite E. Qed.

Lemma bump_control_rel d : counters_rel d (fst (counter_bump control_revision d)).
Proof.
  unfold counter_bump. cbn. destruct (controlRevision d) as [n|] eqn:E; [|reflexivity].
  destruct (n <? MAX_INT4); [|reflexivity]. constructor; try done. rewrite E. simpl. lia.
Qed.

Lemma guar_bump_protocol c e1 e2 :
  (forall d, counters_rel d (fst (counter_seed c d))) -> (forall d, counters_rel d (fst (counter_bump c d))) ->
  guar counters_rel (bump_protocol c e1 e2).
Proof.
  intros Hs Hb. unfold bump_protocol, wrap, unless_unique. guar_walk; by apply guar_op.
Qed.

Lemma guar_audit_counters e : guar counters_rel (audit_log e).
Proof. apply guar_audit; [typeclasses eauto|]. intros d. counters_same. Qed.

Lemma guar_bumpGeneration u r : guar counters_rel (bumpGeneration u r).
Proof.
  unfold bumpGeneration. case_match; [done|]. apply guar_bind.
  - apply guar_bump_protocol; [apply seed_generation_rel|apply bump_generation_rel].
  - intros n. apply guar_bind; [apply guar_audit_counters|done].
Qed.

Lemma guar_bumpControl r : guar counters_rel (bumpExecutionControlRevision r).
Proof.
  unfold bumpExecutionControlRevision. case_match; [done|]. apply guar_bind.
  - apply guar_bump_protocol; [apply seed_control_rel|apply bump_control_rel].
  - intros n. apply guar_bind; [apply guar_audit_counters|done].
Qed.

Lemma guar_getCurrentGeneration u : guar counters_rel (getCurrentGeneration u).
Proof. unfold getCurrentGeneration, wrap. guar_walk. apply guar_op, seed_generation_rel. Qed.

Lemma guar_readSingleton f : guar counters_rel (readSingletonRevision f).
Proof. unfold readSingletonRevision, wrap. guar_walk. Qed.

Lemma guar_ensure : guar counters_rel ensureExecutionControlRevisionInitialized.
Proof.
  unfold ensureExecutionControlRevisionInitialized, unless_unique. guar_walk. apply guar_op, seed_control_rel.
Qed.

(** The planes, one lemma per statement. *)
Class GoodPlane (p : Plane) := {
  gp_seed fp d : counters_rel d (fst (seedState p fp d));
  gp_append r fp d : counters_rel d (fst (appendLog p r fp d));
  gp_cas e fp d : counters_rel d (fst (casAdvance p e (e + 1) fp d)) }.

#[export] Instance good_policy : GoodPlane policy_plane.
Proof.
  split; intros; unfold seedState, appendLog, casAdvance; cbn; case_match eqn:E; try reflexivity.
  - constructor; try done. by rewrite E.
  - constructor; try done. cbn. by apply insert_subseteq.
  - case_match eqn:Hr; [|reflexivity]. constructor; try done. cbn. rewrite E. left. cbn. lia.
Qed.

#[export] Instance good_provider : GoodPlane provider_plane.
Proof.
  split; intros; unfold seedState, appendLog, casAdvance; cbn; case_match eqn:E; try reflexivity.
  - constructor; try done. by rewrite E.
  - constructor; try done. cbn. by apply insert_subseteq.
  - case_match eqn:Hr; [|reflexivity]. constructor; try done. cbn. rewrite E. left. cbn. lia.
Qed.

Lemma guar_sync p `{!GoodPlane p} fp : guar counters_rel (sync p fp).
Proof.
  unfold sync. case_match; [|done]. unfold syncSharedControlRevision.
  induction SYNC_CAS_MAX_ATTEMPTS as [|n IH]; [done|]. cbn [sync_loop]. unfold wrap, unless_unique.
  guar_walk; try exact IH; apply guar_op; intros d; first [apply gp_seed|apply gp_append|apply gp_cas].
Qed.

(** *** Controls *)

Lemma retire_slots c cs :
  active_slots (map (fun x => if bool_decide (k_id x = k_id c) && bool_decide (k_status x = K_ACTIVE)
                              then set_control_status K_EXPIRED x else x) cs) `sublist_of` active_slots cs.
Proof.
  unfold active_slots. induction cs as [|x cs IH]; [constructor|]. cbn [map List.filter].
  destruct (bool_decide (k_id x = k_id c) && bool_decide (k_status x = K_ACTIVE)) eqn:Hb.
  - apply andb_true_iff in Hb as [_ Ha].
    replace (control_active (set_control_status K_EXPIRED x)) with false by done.
    replace (control_active x) with true by (symmetry; exact Ha). cbn [map]. by constructor.
  - destruct (control_active x); cbn; [by constructor|done].
Qed.

Lemma delete_slots p cs : active_slots (List.filter p cs) `sublist_of` active_slots cs.
Proof.
  unfold active_slots. induction cs as [|x cs IH]; [constructor|]. cbn [List.filter].
  destruct (p x), (control_active x) eqn:Ha; cbn [List.filter]; rewrite ?Ha; cbn; try done; by constructor.
Qed.

Lemma insert_slots c d d' r :
  control_insert c d = (d', r) -> NoDup (active_slots (controls d)) -> NoDup (active_slots (controls d')).
Proof.
  unfold control_insert. cbv zeta. set (x := c (now d)).
  destruct (existsb _ _) eqn:E1; [by intros [= <- _]|].
  destruct (existsb (fun y => bool_decide (k_status y = K_ACTIVE) && _) _) eqn:E2; intros [= <- _]; [done|].
  cbn. intros Hnd. unfold active_slots. rewrite List.filter_app, map_app. cbn.
  destruct (control_active x); cbn; [|by rewrite app_nil_r].
  apply NoDup_app. split; [done|]. split; [|apply NoDup_singleton].
  intros s Hs ->%list_elem_of_singleton. apply list_elem_of_In, in_map_iff in Hs as (y & Hy & [Hin Ha]%filter_In).
  apply not_true_iff_false in E2. apply E2, existsb_exists. exists y. split; [done|].
  unfold control_active in Ha. rewrite Ha. by apply bool_decide_eq_true.
Qed.

Lemma guar_retire c : guar counters_rel (retireExpiredActiveControl c).
Proof.
  apply guar_modify. intros d. constructor; try done. cbn. intros Hn. eapply sublist_NoDup; [exact Hn|apply retire_slots].
Qed.

Lemma guar_control_insert c : guar counters_rel (op (control_insert c)).
Proof.
  apply guar_op. intros d. destruct (control_insert c d) as [d' r] eqn:E. cbn.
  pose proof (insert_slots _ _ _ _ E) as Hs. revert E. unfold control_insert. cbv zeta.
  destruct (existsb _ _); [by intros [= <- _]|]. destruct (existsb (fun y => bool_decide (k_status y = K_ACTIVE) && _) _);
    intros [= <- _]; [done|]. by constructor.
Qed.

Lemma guar_activate id dto admin : guar counters_rel (activateControl id dto admin).
Proof.
  unfold activateControl. case_match; [|done]. unfold findCurrentActiveControl.
  guar_walk; try apply guar_retire; try apply guar_audit_counters.
  - apply guar_control_insert.
  - apply guar_bumpControl.
Qed.

Lemma guar_deactivate id admin : guar counters_rel (deactivateControl id admin).
Proof.
  unfold deactivateControl. guar_walk; [|apply guar_bumpControl|apply guar_audit_counters].
  apply guar_modify. intros d. constructor; try done. cbn. intros Hn. eapply sublist_NoDup; [exact Hn|apply delete_slots].
Qed.

Lemma guar_check u b c : guar counters_rel (checkExecutionPermission u b c).
Proof.
  unfold checkExecutionPermission. apply guar_bind; [|intros r; by repeat case_match].
  apply guar_attempt. unfold findActiveControls. guar_walk.
Qed.

(** ** Calls *)

Inductive acall :=
| AGet (userId : string)
| ABump (userId reason : string)
| AReadPolicy | AReadProvider | AReadControl | AEnsure
| ABumpControl (reason : string)
| ASyncPolicy (fingerprint : string)
| ASyncProvider (fingerprint : string)
| AActivate (newId : string) (dto : ActivateControl) (adminUserId : string)
| ADeactivate (controlId adminUserId : string)
| ACheck (userId : string) (brokerId brokerConnectionId : option string).

(** What a completed call raised: the generation of a user, or the control revision. *)
Inductive raised := RGeneration (userId : string) | RControl | RNothing.

Definition gives {A} (r : raised) (p : io A) : io raised := bind p (fun _ => Ret r).

Definition run_acall (c : acall) : io raised :=
  match c with
  | AGet u => gives RNothing (getCurrentGeneration u)
  | ABump u r => gives (RGeneration u) (bumpGeneration u r)
  | AReadPolicy => gives RNothing getCurrentTradingPolicyRevision
  | AReadProvider => gives RNothing getCurrentProviderVerificationRevision
  | AReadControl => gives RNothing getCurrentExecutionControlRevision
  | AEnsure => gives RNothing ensureExecutionControlRevisionInitialized
  | ABumpControl r => gives RControl (bumpExecutionControlRevision r)
  | ASyncPolicy fp => gives RNothing (syncTradingPolicy fp)
  | ASyncProvider fp => gives RNothing (syncProviderVerificationCatalog fp)
  | AActivate id dto admin => gives RControl (activateControl id dto admin)
  | ADeactivate id admin => gives RControl (deactivateControl id admin)
  | ACheck u b c => gives RNothing (checkExecutionPermission u b c)
  end.

Lemma guar_acall c : guar counters_rel (run_acall c).
Proof.
  assert (forall A r (p : io A), guar counters_rel p -> guar counters_rel (gives r p)) as Hq
    by (intros; by apply guar_bind).
  destruct c; cbn [run_acall]; apply Hq.
  - apply guar_getCurrentGeneration.
  - apply guar_bumpGeneration.
  - apply guar_readSingleton.
  - apply guar_readSingleton.
  - apply guar_readSingleton.
  - apply guar_ensure.
  - apply guar_bumpControl.
  - apply guar_sync, _.
  - apply guar_sync, _.
  - apply guar_activate.
  - apply guar_deactivate.
  - apply guar_check.
Qed.

Lemma guar_acalls cs : Forall (guar counters_rel) (run_acall <$> cs).
Proof. apply Forall_fmap, Forall_true. apply guar_acall. Qed.

(** ** No bump is lost *)

Definition generation_of (u : string) (d : DB) : Z := default 0 (generations d !! u).
Definition revision_of (d : DB) : Z := default 0 (controlRevision d).

Lemma rises_generation u d d' : counters_rel d d' -> rises (generation_of u) d d'.
Proof.
  intros [Hg _ _ _ _ _ _]. specialize (Hg u). unfold rises, generation_of.
  destruct (generations d !! u), (generations d' !! u); simpl in *; unfold id; lia.
Qed.

Lemma rises_revision d d' : counters_rel d d' -> rises revision_of d d'.
Proof.
  intros [_ Hg _ _ _ _ _]. unfold rises, revision_of.
  destruct (controlRevision d), (controlRevision d'); simpl in *; unfold id; lia.
Qed.

Lemma pays_wrap_op {X A} measure (wins : A -> bool) e (act : DB -> DB * result exn X) (f : X -> io A) :
  (forall d, measure d < measure (fst (act d)) \/
     forall x, snd (act d) = Ok x -> pays DbUnavailable measure wins (f x)) ->
  pays DbUnavailable measure wins (bind (wrap e (op act)) f).
Proof.
  intros Ha. unfold wrap. cbn [bind catch op]. split; [|done]. intros d.
  destruct (Ha d) as [H|H]; [by left|right]. destruct (snd (act d)) as [x|err]; cbn [of_result catch bind]; auto.
  done.
Qed.

Lemma pays_bump_protocol c measure e1 e2 :
  (forall d d' n, counter_bump c d = (d', Ok n) -> n = 0 \/ measure d < measure d') ->
  pays DbUnavailable measure (fun _ => true) (bump_protocol c e1 e2).
Proof.
  intros Hb. unfold bump_protocol. apply pays_wrap_op. intros d.
  destruct (counter_bump c d) as [d' [n|e]] eqn:Hd; [|by right].
  destruct (Hb d d' n Hd) as [-> |]; [right|by left]. intros x [= <-]. counts.
  apply pays_bind_l, pays_bind_r. intros _. apply pays_wrap_op. intros d2.
  destruct (counter_bump c d2) as [d3 [n|e]] eqn:Hd2; [|by right].
  destruct (Hb d2 d3 n Hd2) as [-> |]; [right|by left]. by intros x [= <-].
Qed.

Lemma bump_raises_generation u d d' n :
  counter_bump (user_generation u) d = (d', Ok n) -> n = 0 \/ generation_of u d < generation_of u d'.
Proof.
  unfold counter_bump. cbn. destruct (generations d !! u) as [g|] eqn:E; [|intros [= _ <-]; by left].
  destruct (g <? MAX_INT4); [|done]. intros [= <- _]. right. unfold generation_of. cbn.
  rewrite E, lookup_insert_eq. cbn. unfold id. lia.
Qed.

Lemma bump_raises_revision d d' n :
  counter_bump control_revision d = (d', Ok n) -> n = 0 \/ revision_of d < revision_of d'.
Proof.
  unfold counter_bump. cbn. destruct (controlRevision d) as [g|] eqn:E; [|intros [= _ <-]; by left].
  destruct (g <? MAX_INT4); [|done]. intros [= <- _]. right. unfold revision_of. cbn. rewrite E. cbn. unfold id. lia.
Qed.

Lemma pays_bumpControl r : pays DbUnavailable revision_of (fun _ => true) (bumpExecutionControlRevision r).
Proof.
  unfold bumpExecutionControlRevision. case_match; [done|].
  apply pays_bind_l, pays_bump_protocol, bump_raises_revision.
Qed.

Lemma guar_rises_revision {A} (p : io A) : guar counters_rel p -> guar (rises revision_of) p.
Proof. apply guar_weaken, rises_revision. Qed.

(** The calls that raise the generation of [u], and those that raise the control revision. *)
Definition raises_generation (u : string) (r : raised) : bool :=
  match r with RGeneration v => bool_decide (v = u) | _ => false end.
Definition raises_control (r : raised) : bool := match r with RControl => true | _ => false end.

Lemma pays_generation_call u c :
  pays DbUnavailable (generation_of u) (raises_generation u) (run_acall c).
Proof.
  destruct c as [|v r| | | | | | | | | |]; cbn [run_acall]; unfold gives; try by apply pays_quiet.
  destruct (decide (v = u)) as [->|Hne]; [|by apply pays_quiet, bool_decide_eq_false_2].
  apply pays_bind_l. unfold bumpGeneration. case_match; [done|].
  apply pays_bind_l, pays_bump_protocol, bump_raises_generation.
Qed.

Lemma pays_control_call c : pays DbUnavailable revision_of raises_control (run_acall c).
Proof.
  destruct c as [| | | | | |r| | |newId dto admin|id admin|]; cbn [run_acall]; unfold gives; try by apply pays_quiet.
  - apply pays_bind_l, pays_bumpControl.
  - apply pays_bind_l. unfold activateControl. case_match; [|done]. apply pays_bind_r. intros found.
    case_match; [done|]. apply pays_bind_r. intros _. apply pays_bind_l, pays_catch; [|intros e; destruct (isUniqueViolation e); exact I].
    apply pays_transaction.
    + apply guar_rises_revision, guar_bind; [apply guar_control_insert|]. intros c.
      apply guar_bind; [apply guar_bumpControl|done].
    + apply pays_bind_r. intros c. apply pays_bind_l, pays_bumpControl.
  - apply pays_bind_l. unfold deactivateControl. apply pays_bind_r. intros [c|]; [|done]. apply pays_bind_l.
    apply pays_transaction.
    + apply guar_rises_revision, guar_bind; [|intros _; apply guar_bumpControl].
      apply guar_modify. intros d. constructor; try done. cbn. intros Hn.
      eapply sublist_NoDup; [exact Hn|apply delete_slots].
    + apply pays_bind_r. intros _. apply pays_bumpControl.
Qed.

(** ** Properties *)

(** no bump is ever lost.  Whatever calls run together, under any interleaving and any
    lost statements, the generation of a user ends at least as many units above where it
    started as there are bumps of that user that completed. *)
Theorem no_lost_bump u calls sched d :
  let c := exec DbUnavailable sched (d, run_acall <$> calls) in
  generation_of u d + winners (raises_generation u) (snd c) <= generation_of u (fst c).
Proof.
  apply (tickets DbUnavailable (generation_of u) (raises_generation u) sched (d, run_acall <$> calls)).
  - apply (Forall_impl (guar counters_rel)); [apply guar_acalls|]. intros p. apply guar_weaken, rises_generation.
  - apply Forall_fmap, Forall_true. apply pays_generation_call.
Qed.

(** an emergency control never resurrects authority.  Under any interleaving and any lost
    statements, every activation, every deactivation and every explicit bump that completed
    has advanced the execution-control revision by a unit of its own, so a grant bound to
    the revision of before can never again match it. *)
Theorem control_changes_advance calls sched d :
  let c := exec DbUnavailable sched (d, run_acall <$> calls) in
  revision_of d + winners raises_control (snd c) <= revision_of (fst c).
Proof.
  apply (tickets DbUnavailable revision_of raises_control sched (d, run_acall <$> calls)).
  - apply (Forall_impl (guar counters_rel)); [apply guar_acalls|]. intros p. apply guar_weaken, rises_revision.
  - apply Forall_fmap, Forall_true. apply pays_control_call.
Qed.

(** the shared control plane is monotone.  Under any interleaving and any lost statements
    no generation and no revision ever goes back, a singleton never changes its fingerprint
    without a new revision, the revision logs only grow, and a scope never has two active
    emergency controls. *)
Theorem shared_plane_monotone calls sched d :
  counters_rel d (fst (exec DbUnavailable sched (d, run_acall <$> calls))).
Proof. apply (exec_guar DbUnavailable counters_rel sched (d, run_acall <$> calls)), guar_acalls. Qed.

(** The controls that block a user and a connection. *)
Definition blocks (t : Z) (userId : string) (brokerId brokerConnectionId : option string)
    (c : ExecutionControl) : Prop :=
  isEffectivelyActive t c = true /\
  match k_scope c with
  | GLOBAL => k_scopeKey c = None
  | PROVIDER => exists b, brokerId = Some b /\ b <> "" /\ k_scopeKey c = Some b
  | USER => k_scopeKey c = Some userId
  | BROKER_CONNECTION => exists b, brokerConnectionId = Some b /\ b <> "" /\ k_scopeKey c = Some b
  end.

Definition scope_rank (s : ControlScope) : Z :=
  match s with GLOBAL => 0 | PROVIDER => 1 | USER => 2 | BROKER_CONNECTION => 3 end.

Lemma matchScope_some t cs scope key c :
  matchScope t cs scope key = Some c ->
  c ∈ cs /\ k_scope c = scope /\ k_scopeKey c = key /\ isEffectivelyActive t c = true.
Proof.
  unfold matchScope. intros [Hin Hb]%find_some. bool_to_prop.
  split; [by apply list_elem_of_In|]. done.
Qed.

Lemma matchScope_none t cs scope key c :
  matchScope t cs scope key = None -> c ∈ cs -> isEffectivelyActive t c = true ->
  k_scope c = scope -> k_scopeKey c = key -> False.
Proof.
  unfold matchScope. intros Hn Hin Ha Hs Hk. apply list_elem_of_In in Hin.
  pose proof (find_none _ _ Hn c Hin) as Hb. cbv beta in Hb.
  rewrite Ha, !bool_decide_eq_true_2 in Hb; done.
Qed.

Lemma present_some o : present o = true <-> exists s, o = Some s /\ s <> "".
Proof.
  destruct o as [s|]; simpl; [|split; [done|by intros (? & ? & ?)]].
  rewrite negb_true_iff, bool_decide_eq_false. split; [eauto|]. by intros (? & [= <-] & ?).
Qed.

(** No control of a scope blocks when the lookup of that scope finds none. *)
Lemma scope_clear t cs u b k (scope : ControlScope) :
  match scope with
  | GLOBAL => matchScope t cs GLOBAL None
  | PROVIDER => if present b then matchScope t cs PROVIDER b else None
  | USER => matchScope t cs USER (Some u)
  | BROKER_CONNECTION => if present k then matchScope t cs BROKER_CONNECTION k else None
  end = None ->
  forall c, c ∈ cs -> blocks t u b k c -> k_scope c <> scope.
Proof.
  intros Hn c Hin [Ha Hb] <-. destruct (k_scope c) eqn:Hs.
  - by eapply matchScope_none.
  - destruct Hb as (x & -> & Hne & Hk). rewrite (proj2 (present_some (Some x))) in Hn by eauto.
    by eapply matchScope_none.
  - by eapply matchScope_none.
  - destruct Hb as (x & -> & Hne & Hk). rewrite (proj2 (present_some (Some x))) in Hn by eauto.
    by eapply matchScope_none.
Qed.

(** What the answer to a permission check promises. *)
Record permission_spec (t : Z) (u : string) (b k : option string) (cs : list ExecutionControl)
    (p : ExecutionPermission) : Prop := {
  ps_allowed : allowed p = true <-> forall c, c ∈ cs -> ~ blocks t u b k c;
  ps_denied : allowed p = false -> exists c, blockedBy p = Some (toBlock c) /\ c ∈ cs /\ blocks t u b k c /\
    forall c', c' ∈ cs -> blocks t u b k c' -> scope_rank (k_scope c) <= scope_rank (k_scope c') }.

Lemma blocked_spec t u b k cs c :
  c ∈ cs -> blocks t u b k c ->
  (forall c', c' ∈ cs -> blocks t u b k c' -> scope_rank (k_scope c) <= scope_rank (k_scope c')) ->
  permission_spec t u b k cs (mkPermission false (Some (toBlock c))).
Proof.
  intros Hin Hb Hmin. split; simpl; [|eauto 10]. split; [done|]. intros Hn. by destruct (Hn c Hin).
Qed.

Lemma cascade_spec t u b k cs : permission_spec t u b k cs (cascade t cs u b k).
Proof.
  pose proof (scope_clear t cs u b k GLOBAL) as HG. pose proof (scope_clear t cs u b k PROVIDER) as HP.
  pose proof (scope_clear t cs u b k USER) as HU. pose proof (scope_clear t cs u b k BROKER_CONNECTION) as HK.
  cbv beta iota in HG, HP, HU, HK. unfold cascade.
  destruct (matchScope t cs GLOBAL None) as [c|] eqn:EG.
  { apply matchScope_some in EG as (Hin & Hs & Hk & Ha). apply blocked_spec; [done|split; [done|by rewrite Hs]|].
    intros c' _ _. rewrite Hs. destruct (k_scope c'); simpl; lia. }
  specialize (HG eq_refl). destruct (if present b then _ else None) as [c|] eqn:EP.
  { destruct (present b) eqn:Hp; [|done]. apply present_some in Hp as (x & -> & Hx).
    apply matchScope_some in EP as (Hin & Hs & Hk & Ha). apply blocked_spec; [done|split; [done|rewrite Hs; eauto]|].
    intros c' Hin' Hb'. specialize (HG c' Hin' Hb'). rewrite Hs. destruct (k_scope c'); simpl; try lia. done. }
  specialize (HP eq_refl). destruct (matchScope t cs USER (Some u)) as [c|] eqn:EU.
  { apply matchScope_some in EU as (Hin & Hs & Hk & Ha). apply blocked_spec; [done|split; [done|by rewrite Hs]|].
    intros c' Hin' Hb'. specialize (HG c' Hin' Hb'). specialize (HP c' Hin' Hb').
    rewrite Hs. destruct (k_scope c'); simpl; try lia; done. }
  specialize (HU eq_refl). destruct (if present k then _ else None) as [c|] eqn:EK.
  { destruct (present k) eqn:Hp; [|done]. apply present_some in Hp as (x & -> & Hx).
    apply matchScope_some in EK as (Hin & Hs & Hk & Ha). apply blocked_spec; [done|split; [done|rewrite Hs; eauto]|].
    intros c' Hin' Hb'. specialize (HG c' Hin' Hb'). specialize (HP c' Hin' Hb'). specialize (HU c' Hin' Hb').
    rewrite Hs. destruct (k_scope c'); simpl; try lia; done. }
  specialize (HK eq_refl). split; [|done]. split; [|done]. intros _ c Hin Hb.
  specialize (HG c Hin Hb). specialize (HP c Hin Hb). specialize (HU c Hin Hb). specialize (HK c Hin Hb).
  by destruct (k_scope c).
Qed.

Lemma checked userId brokerId connectionId d :
  exists p, run (checkExecutionPermission userId brokerId connectionId) d = (d, Ok p) /\
    permission_spec (now d) userId brokerId connectionId (controls d) p.
Proof.
  unfold checkExecutionPermission, findActiveControls. run_simpl. eexists. split; [done|].
  pose proof (cascade_spec (now d) userId brokerId connectionId
                (List.filter (isEffectivelyActive (now d)) (controls d))) as [Ha Hd].
  assert (forall c, c ∈ List.filter (isEffectivelyActive (now d)) (controls d) <->
            c ∈ controls d /\ isEffectivelyActive (now d) c = true) as Hin.
  { intros c. by rewrite !list_elem_of_In, filter_In. }
  split.
  + rewrite Ha. split; intros H c Hc Hb; [|by apply Hin in Hc as [Hc _]; apply (H c Hc)].
    apply (H c); [|done]. apply Hin. split; [done|]. apply Hb.
  + intros H. destruct (Hd H) as (c & Hc & [Hcin _]%Hin & Hb & Hmin). exists c.
    split; [done|]. split; [done|]. split; [done|]. intros c' Hc' Hb'. apply Hmin; [|done].
    apply Hin. split; [done|]. apply Hb'.
Qed.

(** permission checks are sound, complete and fail closed.  A check is allowed exactly when
    no control in force blocks the user, the provider or the connection; a refusal reports a
    blocking control of the widest scope; a check the store does not answer is refused; and
    no check ever throws or writes. *)
Theorem permission_check userId brokerId connectionId d :
  (exists p, run (checkExecutionPermission userId brokerId connectionId) d = (d, Ok p) /\
     permission_spec (now d) userId brokerId connectionId (controls d) p) /\
  (forall delivered, delivered <> Exec ->
     step1 DbUnavailable delivered (checkExecutionPermission userId brokerId connectionId) d
       = (d, Ret store_unavailable)).
Proof.
  split.
  - apply checked.
  - intros [] Hne; [done|reflexivity|reflexivity].
Qed.

(** a sync alone converges.  It returns a revision whose installed fingerprint is the one
    asked for; the revision is unchanged when that fingerprint was already installed, and
    one above the previous one otherwise (1 when there was none), with a log row for it. *)
Theorem sync_converges p fp d :
  p = policy_plane \/ p = provider_plane ->
  FINGERPRINT_PATTERN (chars_of fp) = true ->
  exists d' r, run (sync p fp) d = (d', Ok r) /\ pl_state p d' = Some (mkShared r fp) /\
    match pl_state p d with
    | Some s => if bool_decide (sh_fingerprint s = fp) then d' = d /\ r = sh_revision s
                else r = sh_revision s + 1 /\ is_Some (pl_log p d' !! r)
    | None => r = 1 /\ is_Some (pl_log p d' !! 1)
    end.
Proof.
  intros Hp Hfp. unfold sync. rewrite Hfp. unfold syncSharedControlRevision, SYNC_CAS_MAX_ATTEMPTS.
  destruct (pl_state p d) as [[r f]|] eqn:Hs.
  - cbn [sync_loop]. unfold wrap, unless_unique. run_simpl. rewrite Hs. cbn [sh_fingerprint sh_revision].
    case_bool_decide as He; [subst f; run_simpl; by exists d, r|]. run_simpl.
    assert (exists d1, run (catch (op (appendLog p (r + 1) fp))
        (fun err => if isUniqueViolation err then Ret tt else Throw SharedControlStoreUnavailable)) d = (d1, Ok tt)
      /\ pl_state p d1 = Some (mkShared r f) /\ is_Some (pl_log p d1 !! (r + 1))) as (d1 & Hrun & Hs1 & Hl1).
    { run_simpl. unfold appendLog. destruct (pl_log p d !! (r + 1)) eqn:Hl; run_simpl.
      - exists d. rewrite Hl. eauto.
      - eexists. split; [done|]. destruct Hp as [->| ->]; cbn in *; rewrite lookup_insert_eq; eauto. }
    rewrite run_catch, run_op in Hrun. rewrite Hrun. run_simpl. unfold casAdvance. rewrite Hs1.
    cbn [sh_revision]. rewrite Z.eqb_refl. run_simpl. counts. run_simpl.
    do 2 eexists. split; [done|]. destruct Hp as [->| ->]; cbn in *; auto.
  - cbn [sync_loop]. unfold wrap, unless_unique. run_simpl. rewrite Hs. run_simpl.
    unfold seedState. rewrite Hs. run_simpl. unfold appendLog.
    destruct Hp as [->| ->]; cbn in *.
    + destruct (policyLog d !! 1) eqn:Hl; run_simpl; cbn; rewrite bool_decide_eq_true_2 by done; run_simpl;
        do 2 eexists; (split; [done|]); cbn; (split; [done|]); (split; [done|]);
        rewrite ?Hl, ?lookup_insert_eq; eauto.
    + destruct (providerLog d !! 1) eqn:Hl; run_simpl; cbn; rewrite bool_decide_eq_true_2 by done; run_simpl;
        do 2 eexists; (split; [done|]); cbn; (split; [done|]); (split; [done|]);
        rewrite ?Hl, ?lookup_insert_eq; eauto.
Qed.

Definition fp_of (c : ascii) : string := string_of (replicate 64 c).

Definition policy_db (f : string) : DB :=
  set_policyLog {[1 := f]} (set_policyRevision (Some (mkShared 1 f)) (empty_db 0)).

Lemma sync_converges_witness :
  exists d' r, run (syncTradingPolicy (fp_of "a")) (policy_db (fp_of "0")) = (d', Ok r) /\ r = 2.
Proof.
  destruct (sync_converges policy_plane (fp_of "a") (policy_db (fp_of "0")) (or_introl eq_refl)
    ltac:(vm_compute; reflexivity)) as (d' & r & Hrun & _ & Hr & _).
  exists d', r. split; [exact Hrun|exact Hr].
Defined.

(** a revision's log row may not carry the fingerprint the revision installed.  Two
    replicas syncing different policies: the first appends the log row of revision 2, the
    second, ignoring that row, installs its own fingerprint as revision 2. *)
Theorem log_row_may_differ :
  let d' := fst (exec DbUnavailable [(0, Exec); (0, Exec); (1, Exec); (1, Exec); (1, Exec)]
                   (policy_db (fp_of "0"), [syncTradingPolicy (fp_of "a"); syncTradingPolicy (fp_of "b")]))%nat in
  policyRevision d' = Some (mkShared 2 (fp_of "b")) /\ policyLog d' !! 2 = Some (fp_of "a").
Proof. vm_compute. split; reflexivity. Qed.
