(* ===== verification/Boundary.v ===== *)
(** * The final dispatch boundary ([execution/orchestration/final-dispatch-boundary.ts])

    The last gate before a provider call that adds exposure.  [authorize] re-reads every
    authority fact from the store and answers the frozen context or a typed refusal;
    [commitProviderDispatch] re-checks, then consumes the grant and the confirmation and
    moves the order to [DISPATCH_COMMITTED] in one transaction.  A refusal appends an audit
    entry and throws.  The hash, the catalog, the registered adapters and the engine's date
    parsing are arguments. *)

From S2P Require Import Prelude Prog JsString CanonicalJson StateMachines Store Provider.
From S2P Require Import OrderService RiskGrants Authority.
Open Scope string_scope.
Open Scope list_scope.
Open Scope Z_scope.

Definition PAPER_BROKER_ID : string := "paper-broker".

Inductive FinalDispatchOrigin := PIPELINE | USER_CONFIRMATION.

#[global] Instance FinalDispatchOrigin_eq_dec : EqDecision FinalDispatchOrigin.
Proof. solve_decision. Defined.

Record ExecutionAuthorityContext := mkContext {
  x_userId : string; x_signalId : string; x_operationType : ProviderOperationClass;
  x_sessionId : string; x_sessionGeneration : Z; x_executionMode : ExecutionMode;
  x_brokerConnectionId : string; x_brokerAccountId : option string; x_providerTechnology : string;
  x_providerBrokerIdentity : option string; x_providerVerificationFingerprint : option string;
  x_financialSnapshotGeneration : option Z; x_riskProfileId : option string;
  x_riskProfileVersion : option Z; x_riskGrantId : string; x_authorityGeneration : Z;
  x_validatedOrderDigest : string }.

Record FinalDispatchAuthorization := mkAuthorization {
  fa_context : ExecutionAuthorityContext; fa_connection : BrokerConnection;
  fa_confirmationId : option string; fa_operationClass : ProviderOperationClass }.

Record FinalDispatchInput := mkInput {
  fi_userId : string; fi_grantId : option string; fi_confirmationId : option string;
  fi_origin : FinalDispatchOrigin; fi_operationClass : option ProviderOperationClass }.

(** ** Refusals *)

Definition CONFLICT_REASONS : list FinalDispatchBlockedReason :=
  [GRANT_NOT_ACTIVE; GRANT_EXPIRED; GRANT_CONSUMED; GRANT_INVALIDATED; GRANT_CONSUME_RACE_LOST;
   SESSION_GENERATION_MISMATCH; EXECUTION_MODE_MISMATCH; CONFIRMATION_NOT_PENDING; CONFIRMATION_EXPIRED;
   CONFIRMATION_CONSUMED; CONFIRMATION_REVOKED; CONFIRMATION_GENERATION_MISMATCH;
   CONFIRMATION_DIGEST_MISMATCH; CONNECTION_CREDENTIAL_GENERATION_CHANGED; PROVIDER_IDENTITY_CHANGED;
   PROVIDER_VERIFICATION_DOWNGRADED].

(** The HTTP status of a [FinalDispatchBlockedException]. *)
Definition statusCode (code : FinalDispatchBlockedReason) : Z :=
  if bool_decide (code ∈ CONFLICT_REASONS) then 409
  else if bool_decide (code = GRANT_NOT_FOUND) || bool_decide (code = CONFIRMATION_NOT_FOUND) then 404
  else 403.

Section boundary.
Context (sha256 : chars -> string) (date_parses : chars -> bool)
        (catalog : list Live.BrokerDefinition) (isSupported : string -> bool).
Local Open Scope prog_scope.

(** [throw await this.blocked(input, .., reason, { grantId })]. *)
Definition blocked {A} (input : FinalDispatchInput) (reason : FinalDispatchBlockedReason)
    (grantId : option string) : io A :=
  do! catch (audit_log (mkAudit (Some (fi_userId input)) "EXECUTION_AUTHORITY_BLOCKED" "RiskGrant"
                          (default "not-authorized" grantId) "blocked"))
        (fun _ => Ret tt) in
  Throw (FinalDispatchBlocked reason).

(** [if (c) throw await this.blocked(..)]. *)
Definition refuse_if (c : bool) (input : FinalDispatchInput) (reason : FinalDispatchBlockedReason)
    (grantId : option string) : io unit :=
  if c then blocked input reason grantId else Ret tt.

(** ** LIVE verification *)

Definition status_text (s : Live.VerificationStatus) : string :=
  match s with Live.VERIFIED => "VERIFIED" | Live.UNVERIFIED => "UNVERIFIED" end.

Definition fingerprint_payload (providerTechnology : string) (providerIdentity : option string)
    (status : Live.VerificationStatus) : js :=
  JObject [field "modelVersion" (jint 1); field "providerTechnology" (jstr providerTechnology);
           field "providerIdentity" (jopt jstr providerIdentity); field "environment" (jstr "LIVE");
           field "status" (jstr (status_text status))].

Definition verificationFingerprint (providerTechnology : string) (providerIdentity : option string)
    (status : Live.VerificationStatus) : result exn string :=
  match canonicalJson (fingerprint_payload providerTechnology providerIdentity status) with
  | Ok canonical => Ok (substring 0 128 (sha256 canonical))
  | Err e => Err (CanonicalJsonError e)
  end.

Definition ctraderFamilyLiveEvidence : list Live.ProviderLiveVerificationEvidence :=
  List.flat_map (fun id =>
    match Live.getEntry date_parses catalog isSupported id with
    | None => []
    | Some entry =>
        map (fun u => Live.mkEvidence "ctrader" (Live.l_providerIdentity u) (Live.l_environment u)
                        (Live.l_status u) (Live.l_verifiedAt u) (Live.l_evidenceRef u))
            (Live.catalogEntryToEvidence entry [Live.LIVE])
    end) Live.CTRADER_FAMILY_BROKER_IDS.

Record LiveEvaluation := mkEvaluation {
  le_eligible : bool; le_status : Live.VerificationStatus; le_fingerprint : result exn string }.

Definition evaluateCurrentLiveVerification (connection : BrokerConnection) : LiveEvaluation :=
  if bool_decide (b_brokerId connection ∈ Live.CTRADER_FAMILY_BROKER_IDS) then
    let status := Live.connectionLiveVerificationStatus "ctrader" (b_providerBrokerIdentity connection)
                    Live.LIVE ctraderFamilyLiveEvidence in
    mkEvaluation (bool_decide (status = Live.VERIFIED)) status
      (verificationFingerprint "ctrader" (b_providerBrokerIdentity connection) status)
  else
    let eligible := Live.isProductionLiveEligible date_parses catalog isSupported (b_brokerId connection) in
    let status := if eligible then Live.VERIFIED else Live.UNVERIFIED in
    mkEvaluation eligible status (verificationFingerprint (b_brokerId connection) None status).

(** ** Shared pieces *)

Definition frozen_context (grant : RiskGrant) (session : TradingSession) (connection : BrokerConnection)
    (operationClass : ProviderOperationClass) (fingerprint : option string) : ExecutionAuthorityContext :=
  mkContext (g_userId grant) (g_signalId grant) operationClass (s_id session) (s_authorityGeneration session)
    (s_executionMode session) (b_id connection) (b_accountId connection) (b_brokerId connection)
    (b_providerBrokerIdentity connection) fingerprint (g_accountSnapshotGeneration grant)
    (g_riskProfileId grant) (g_riskProfileVersion grant) (g_id grant) (g_authorityGeneration grant)
    (g_orderPayloadDigest grant).

Definition owned_grant (userId id : string) (d : DB) : option RiskGrant :=
  match grants d !! id with
  | Some g => if bool_decide (g_userId g = userId) then Some g else None
  | None => None
  end.

Definition owned_confirmation (userId id : string) (d : DB) : option Confirmation :=
  match confirmations d !! id with
  | Some c => if bool_decide (c_userId c = userId) then Some c else None
  | None => None
  end.

(** [brokerService.findConnectionById]. *)
Definition findConnectionById (connectionId userId : string) (d : DB) : result exn BrokerConnection :=
  match connections d !! connectionId with
  | Some b => if bool_decide (b_userId b = userId) then Ok b
              else Err (NotFoundException "Broker connection not found")
  | None => Err (NotFoundException "Broker connection not found")
  end.

(** [bound !== null && current !== bound]. *)
Definition drifted {A} `{!EqDecision A} (bound : option A) (current : A) : bool :=
  match bound with Some b => negb (bool_decide (current = b)) | None => false end.

(** ** [commitProviderDispatch] *)

Record CommitInput := mkCommit {
  ci_userId : string; ci_grantId : string; ci_confirmationId : option string; ci_orderId : string;
  ci_origin : FinalDispatchOrigin }.

Definition boundaryInput (i : CommitInput) : FinalDispatchInput :=
  mkInput (ci_userId i) (Some (ci_grantId i)) (ci_confirmationId i) (ci_origin i) (Some NEW_EXPOSURE).

Definition grant_refusal (g : RiskGrant) : FinalDispatchBlockedReason :=
  match g_status g with
  | G_CONSUMED => GRANT_CONSUMED
  | G_INVALIDATED => GRANT_INVALIDATED
  | _ => GRANT_EXPIRED
  end.

Definition commit_grant (i : CommitInput) : io RiskGrant :=
  let* found := sel (fun d => (owned_grant (ci_userId i) (ci_grantId i) d, now d)) in
  match fst found with
  | None => blocked (boundaryInput i) GRANT_NOT_FOUND (Some (ci_grantId i))
  | Some grant =>
      do! refuse_if (negb (grant_active grant) || (g_expiresAt grant <=? snd found))
            (boundaryInput i) (grant_refusal grant) (Some (g_id grant)) in
      Ret grant
  end.

Definition read_revisions : io (Z * Z * Z) :=
  let* policyRevision := getCurrentTradingPolicyRevision in
  let* providerRevision := getCurrentProviderVerificationRevision in
  let* controlRevision := getCurrentExecutionControlRevision in
  Ret (policyRevision, providerRevision, controlRevision).

Definition commit_authority (i : CommitInput) (grant : RiskGrant) : io unit :=
  let input := boundaryInput i in
  let gid := Some (g_id grant) in
  let* currentGeneration := getCurrentGeneration (ci_userId i) in
  do! refuse_if (negb (currentGeneration =? g_authorityGeneration grant)) input
        TRADING_AUTHORITY_GENERATION_MISMATCH gid in
  let* revisions := attempt read_revisions in
  match revisions with
  | Err _ => blocked input EXECUTION_CONTROL_REVISION_MISMATCH gid
  | Ok (policyRevision, providerRevision, controlRevision) =>
      do! refuse_if (drifted (g_tradingPolicyRevision grant) policyRevision) input
            SHARED_TRADING_POLICY_REVISION_MISMATCH gid in
      do! refuse_if (drifted (g_providerVerificationRevision grant) providerRevision) input
            SHARED_PROVIDER_VERIFICATION_REVISION_MISMATCH gid in
      do! refuse_if (drifted (g_executionControlRevision grant) controlRevision) input
            EXECUTION_CONTROL_REVISION_MISMATCH gid in
      match g_killSwitchGeneration grant with
      | None => Ret tt
      | Some bound =>
          let* currentRevision := sel (fun d => profileRevisions d !! ci_userId i) in
          refuse_if (match currentRevision with Some r => negb (r =? bound) | None => false end) input
            KILL_SWITCH_PROFILE_REVISION_MISMATCH gid
      end
  end.

(** The guard of the session and the reason it gives. *)
Definition session_refusal (session : option TradingSession) (grant : RiskGrant)
  : option FinalDispatchBlockedReason :=
  match session with
  | None => Some SESSION_NOT_FOUND
  | Some s =>
      if negb (bool_decide (s_status s = Session.ACTIVE)) then Some SESSION_NOT_ACTIVE
      else if negb (s_authorityGeneration s =? g_sessionGeneration grant) then Some SESSION_GENERATION_MISMATCH
      else if negb (bool_decide (s_executionMode s = g_executionMode grant)) then Some EXECUTION_MODE_MISMATCH
      else None
  end.

Definition commit_session (i : CommitInput) (grant : RiskGrant) : io TradingSession :=
  let* session := sel (fun d => sessions d !! g_sessionId grant) in
  match session, session_refusal session grant with
  | Some s, None => Ret s
  | _, refusal => blocked (boundaryInput i) (default SESSION_NOT_FOUND refusal) (Some (g_id grant))
  end.

(** The connection and the instant [now] of the commitment, taken right after it is read. *)
Definition commit_connection (i : CommitInput) (grant : RiskGrant) : io (BrokerConnection * Z) :=
  let* found := attempt (op (fun d => (d, rmap (fun b => (b, now d))
                    (findConnectionById (g_brokerConnectionId grant) (ci_userId i) d)))) in
  match found with
  | Err _ => blocked (boundaryInput i) CONNECTION_NOT_FOUND (Some (g_id grant))
  | Ok (connection, t) =>
      do! refuse_if (negb (bool_decide (b_status connection = B_CONNECTED))) (boundaryInput i)
            CONNECTION_NOT_CONNECTED None in
      do! refuse_if (drifted (g_credentialGeneration grant) (b_credentialGeneration connection))
            (boundaryInput i) CONNECTION_CREDENTIAL_GENERATION_CHANGED None in
      Ret (connection, t)
  end.

Definition commit_grant_guard (userId : string) (t : Z) (g : RiskGrant) : bool :=
  bool_decide (g_userId g = userId) && grant_active g && (t <? g_expiresAt g).
Definition commit_confirmation_guard (userId grantId : string) (t : Z) (c : Confirmation) : bool :=
  bool_decide (c_userId c = userId) && bool_decide (c_riskGrantId c = Some grantId) && pending c
  && (t <? c_expiresAt c).

Definition commit_order_patch : Z -> Order -> result exn Order :=
  transition_patch Order.DISPATCH_COMMITTED (mkExtras None None false).

Definition commitment_body (i : CommitInput) (grant : RiskGrant) (t : Z) : io unit :=
  let* grantConsume := op (grant_update (fun _ => commit_grant_guard (ci_userId i) t)
                             (fun _ => consume_patch t) (g_id grant)) in
  do! (if negb (grantConsume =? 1) then Throw (CommitmentLost "COMMITMENT_GRANT_CAS_LOST") else Ret tt) in
  do! (if present (ci_confirmationId i) then
         let* confirmationConsume :=
           op (confirmation_update (fun _ => commit_confirmation_guard (ci_userId i) (g_id grant) t)
                 (fun _ => consume_confirmation_patch t) (default "" (ci_confirmationId i))) in
         if negb (confirmationConsume =? 1)
         then Throw (CommitmentLost "COMMITMENT_CONFIRMATION_CAS_LOST") else Ret tt
       else Ret tt) in
  let* orderTransition := order_update (in_status Order.SUBMITTED) commit_order_patch (ci_orderId i) in
  match orderTransition with
  | None => Throw (CommitmentLost "COMMITMENT_ORDER_TRANSITION_LOST")
  | Some _ => Ret tt
  end.

Definition commitment (i : CommitInput) (grant : RiskGrant) (t : Z) : io unit :=
  catch (transaction (commitment_body i grant t))
    (fun err =>
       blocked (boundaryInput i)
         (if bool_decide (err = CommitmentLost "COMMITMENT_ORDER_TRANSITION_LOST")
          then ORDER_COMMITMENT_TRANSITION_LOST else GRANT_CONSUME_RACE_LOST) (Some (g_id grant))).

Definition commitProviderDispatch (i : CommitInput) : io FinalDispatchAuthorization :=
  let* grant := commit_grant i in
  do! commit_authority i grant in
  let* session := commit_session i grant in
  let* connection := commit_connection i grant in
  do! commitment i grant (snd connection) in
  Ret (mkAuthorization
         (frozen_context grant session (fst connection) NEW_EXPOSURE (g_providerVerificationFingerprint grant))
         (fst connection) (ci_confirmationId i) NEW_EXPOSURE).

(** ** [authorize] *)

Definition confirmation_refusal (c : Confirmation) : FinalDispatchBlockedReason :=
  match c_status c with
  | C_CONSUMED => CONFIRMATION_CONSUMED
  | C_REVOKED => CONFIRMATION_REVOKED
  | _ => CONFIRMATION_EXPIRED
  end.

Definition load_confirmation (input : FinalDispatchInput) : io (option Confirmation) :=
  if negb (present (fi_confirmationId input)) then Ret None
  else
    let* confirmation := sel (owned_confirmation (fi_userId input) (default "" (fi_confirmationId input))) in
    match confirmation with
    | None => blocked input CONFIRMATION_NOT_FOUND None
    | Some c =>
        do! refuse_if (negb (pending c)) input (confirmation_refusal c) None in
        do! refuse_if (negb (bool_decide (c_userId c = fi_userId input))) input CONFIRMATION_USER_MISMATCH None in
        Ret (Some c)
    end.

(** [findOne({ where: { signalId, sessionId, sessionGeneration }, order: { issuedAt: 'DESC' } })]. *)
Definition legacy_grant (c : Confirmation) (d : DB) : option RiskGrant :=
  let matching := List.filter (fun g => bool_decide (g_signalId g = c_signalId c) &&
                      bool_decide (g_sessionId g = c_sessionId c) &&
                      (g_sessionGeneration g =? c_sessionGeneration c)) (map snd (map_to_list (grants d))) in
  fold_right (fun g best => match best with
                            | Some b => if g_issuedAt b <? g_issuedAt g then Some g else Some b
                            | None => Some g
                            end) None matching.

Definition confirmation_grant (c : Confirmation) (d : DB) : option RiskGrant :=
  if present (c_riskGrantId c) then grants d !! default "" (c_riskGrantId c) else legacy_grant c d.

Definition grant_for (input : FinalDispatchInput) (confirmation : option Confirmation) (d : DB)
  : option RiskGrant :=
  if present (fi_grantId input) then grants d !! default "" (fi_grantId input)
  else match confirmation with Some c => confirmation_grant c d | None => None end.

Definition load_grant (input : FinalDispatchInput) (confirmation : option Confirmation) : io RiskGrant :=
  let* found := sel (fun d => (grant_for input confirmation d, now d)) in
  match fst found with
  | None => blocked input (if present (fi_grantId input) then GRANT_NOT_FOUND else GRANT_REQUIRED) (fi_grantId input)
  | Some grant =>
      let gid := Some (g_id grant) in
      do! refuse_if (negb (bool_decide (g_userId grant = fi_userId input))) input GRANT_USER_MISMATCH gid in
      do! refuse_if (bool_decide (g_status grant = G_CONSUMED)) input GRANT_CONSUMED gid in
      do! refuse_if (bool_decide (g_status grant = G_INVALIDATED)) input GRANT_INVALIDATED gid in
      do! refuse_if (negb (grant_active grant)) input GRANT_NOT_ACTIVE gid in
      do! refuse_if (g_expiresAt grant <=? snd found) input GRANT_EXPIRED gid in
      Ret grant
  end.

Definition load_session (input : FinalDispatchInput) (confirmation : option Confirmation)
    (grant : RiskGrant) : io TradingSession :=
  let* session := sel (fun d => sessions d !! g_sessionId grant) in
  match session with
  | None => blocked input SESSION_NOT_FOUND None
  | Some s =>
      do! (match session_refusal session grant with
           | Some reason => blocked input reason None
           | None => Ret tt
           end) in
      do! refuse_if (match confirmation with
                     | Some c => negb (c_sessionGeneration c =? s_authorityGeneration s)
                     | None => false
                     end) input CONFIRMATION_GENERATION_MISMATCH None in
      Ret s
  end.

(** The connection bound to the grant, with the clock right after it is read. *)
Definition load_connection (input : FinalDispatchInput) (grant : RiskGrant) : io (BrokerConnection * Z) :=
  let* found := sel (fun d => (connections d !! g_brokerConnectionId grant, now d)) in
  match fst found with
  | None => blocked input CONNECTION_NOT_FOUND None
  | Some b =>
      do! refuse_if (negb (bool_decide (b_userId b = g_userId grant))) input CONNECTION_NOT_OWNED None in
      do! refuse_if (negb (bool_decide (b_status b = B_CONNECTED))) input CONNECTION_NOT_CONNECTED None in
      do! refuse_if (negb (Authorization.isExecutable (b_authorizationStatus b))) input CONNECTION_NOT_EXECUTABLE None in
      do! refuse_if (negb (Authorization.isUsable (b_credentialStatus b))) input
            CONNECTION_CREDENTIAL_STATUS_NOT_USABLE None in
      do! refuse_if (drifted (g_credentialGeneration grant) (b_credentialGeneration b)) input
            CONNECTION_CREDENTIAL_GENERATION_CHANGED None in
      do! refuse_if (match g_providerBrokerIdentity grant with
                     | Some i => negb (bool_decide (b_providerBrokerIdentity b = Some i))
                     | None => false
                     end) input PROVIDER_IDENTITY_CHANGED None in
      Ret (b, snd found)
  end.

(** Whether the confirmation is for exactly this signal, payload, session and connection. *)
Definition confirmation_binds (c : Confirmation) (grant : RiskGrant) (session : TradingSession)
    (b : BrokerConnection) : bool :=
  bool_decide (c_signalId c = g_signalId grant) && bool_decide (c_orderPayloadDigest c = g_orderPayloadDigest grant)
  && bool_decide (c_sessionId c = s_id session) && bool_decide (c_brokerConnectionId c = b_id b).

(** The mode gates; [t] is the clock when the gates run. *)
Definition mode_gates (input : FinalDispatchInput) (grant : RiskGrant) (confirmation : option Confirmation)
    (session : TradingSession) (b : BrokerConnection) (t : Z) : io unit :=
  match s_executionMode session with
  | PAPER_ONLY =>
      refuse_if (negb (bool_decide (b_brokerId b = PAPER_BROKER_ID))) input PAPER_ONLY_REFUSES_NON_PAPER_CONNECTION None
  | SEMI_AUTO =>
      if bool_decide (fi_origin input = PIPELINE) then blocked input CONFIRMATION_REQUIRED (Some (g_id grant))
      else match confirmation with
           | None => blocked input CONFIRMATION_REQUIRED (Some (g_id grant))
           | Some c =>
               do! refuse_if (negb (confirmation_binds c grant session b)) input CONFIRMATION_DIGEST_MISMATCH None in
               refuse_if (c_expiresAt c <=? t) input CONFIRMATION_EXPIRED None
           end
  | FULL_AUTO => Ret tt
  end.

(** The fingerprint that enters the context. *)
Definition live_gate (input : FinalDispatchInput) (grant : RiskGrant) (b : BrokerConnection)
    (exposureIncreasing : bool) : io (option string) :=
  if exposureIncreasing && bool_decide (b_accountType b = "LIVE") then
    let verification := evaluateCurrentLiveVerification b in
    match le_fingerprint verification with
    | Err e => Throw e
    | Ok fingerprint =>
        do! refuse_if (negb (le_eligible verification)) input LIVE_VERIFICATION_UNVERIFIED None in
        do! refuse_if (drifted (g_providerVerificationFingerprint grant) fingerprint) input
              PROVIDER_VERIFICATION_DOWNGRADED None in
        Ret (Some fingerprint)
    end
  else Ret (g_providerVerificationFingerprint grant).

Definition control_gate (input : FinalDispatchInput) (b : BrokerConnection) : io unit :=
  let* permission := checkExecutionPermission (fi_userId input) (Some (b_brokerId b)) (Some (b_id b)) in
  refuse_if (negb (allowed permission)) input EXECUTION_CONTROL_BLOCKED None.

(** The consumptions of the consuming mode. *)
Definition consume_confirmation (input : FinalDispatchInput) (c : Confirmation) : io unit :=
  let* affected := op (confirmation_update
      (fun t c => pending c && (t <? c_expiresAt c) && bool_decide (c_revokedAt c = None))
      consume_confirmation_patch (c_id c)) in
  if affected =? 0 then
    let* reloaded := sel (fun d => confirmations d !! c_id c) in
    blocked input (match reloaded with
                   | Some r => match c_status r with
                               | C_REVOKED => CONFIRMATION_REVOKED
                               | C_CONSUMED => CONFIRMATION_CONSUMED
                               | _ => CONFIRMATION_EXPIRED
                               end
                   | None => CONFIRMATION_EXPIRED
                   end) None
  else audit_log (mkAudit (Some (fi_userId input)) "EXECUTION_CONFIRMATION_CONSUMED" "ExecutionConfirmation"
                    (c_id c) "consumed").

Definition consume_grant (input : FinalDispatchInput) (grant : RiskGrant) : io unit :=
  let* consume := consumeGrantAtomic (g_id grant) None in
  refuse_if (negb (cr_consumed consume)) input
    (match cr_reason consume with
     | Some ALREADY_CONSUMED => GRANT_CONSUMED
     | Some INVALIDATED => GRANT_INVALIDATED
     | Some EXPIRED => GRANT_EXPIRED
     | _ => GRANT_CONSUME_RACE_LOST
     end) (Some (g_id grant)).

Definition authorize (consume : bool) (input : FinalDispatchInput) : io FinalDispatchAuthorization :=
  let operationClass := default NEW_EXPOSURE (fi_operationClass input) in
  let exposureIncreasing := Operation.isExposureIncreasingOperation operationClass in
  let* confirmation := load_confirmation input in
  let* grant := load_grant input confirmation in
  let* session := load_session input confirmation grant in
  let* found := load_connection input grant in
  let connection := fst found in
  do! (if exposureIncreasing then mode_gates input grant confirmation session connection (snd found) else Ret tt) in
  let* fingerprint := live_gate input grant connection exposureIncreasing in
  do! (if exposureIncreasing then control_gate input connection else Ret tt) in
  do! (match confirmation with
       | Some c => if consume && exposureIncreasing && bool_decide (s_executionMode session = SEMI_AUTO)
                   then consume_confirmation input c else Ret tt
       | None => Ret tt
       end) in
  do! (if consume then consume_grant input grant else Ret tt) in
  do! audit_log (mkAudit (Some (fi_userId input)) "ORDER_SUBMITTED" "RiskGrant" (g_id grant) "FINAL_DISPATCH_AUTHORIZED") in
  Ret (mkAuthorization (frozen_context grant session connection operationClass fingerprint) connection
         (c_id <$> confirmation) operationClass).

Definition authorizeNewExposureDispatch (userId grantId : string) (confirmationId : option string)
    (origin : option FinalDispatchOrigin) (operationClass : option ProviderOperationClass)
  : io FinalDispatchAuthorization :=
  authorize false (mkInput userId (Some grantId) confirmationId (default PIPELINE origin)
                     (Some (default NEW_EXPOSURE operationClass))).

Definition authorizeFromUserConfirmation (userId confirmationId : string)
    (operationClass : option ProviderOperationClass) : io FinalDispatchAuthorization :=
  authorize false (mkInput userId None (Some confirmationId) USER_CONFIRMATION
                     (Some (default NEW_EXPOSURE operationClass))).
End boundary.

(** ** Running a check alone

    [phase p d P]: alone, [p] either returns, writing nothing, a value [P] describes, or it
    refuses with a typed reason, appending to the audit log only, and no value satisfies
    [P]. *)

Definition audited (d d' : DB) : Prop := exists l, d' = set_audit (audit d ++ l) d.

Definition phase {A} (p : io A) (d : DB) (P : A -> Prop) : Prop :=
  (exists a, run p d = (d, Ok a) /\ P a) \/
  (exists d' reason, run p d = (d', Err (FinalDispatchBlocked reason)) /\ audited d d' /\ forall a, ~ P a).

Lemma phase_ret {A} (x : A) d (P : A -> Prop) : P x -> phase (Ret x) d P.
Proof. left. by exists x. Qed.

Lemma phase_read {X B} (f : DB -> X) (k : X -> io B) d (P : B -> Prop) :
  phase (k (f d)) d P -> phase (bind (sel f) k) d P.
Proof.
  intros [(a & Hr & Ha)|(d' & r & Hr & Hd & Hn)]; [left; exists a|right; exists d', r]; by rewrite run_bind, run_read.
Qed.

Lemma phase_blocked {A} input reason gid d (P : A -> Prop) :
  (forall a, ~ P a) -> phase (blocked (A := A) input reason gid) d P.
Proof. intros Hn. right. do 2 eexists. split; [reflexivity|]. split; [by eexists|done]. Qed.

(** A guard, and a guard before the rest of a check. *)
Lemma phase_refuse c input reason gid d (P : unit -> Prop) :
  (c = false -> P tt) -> (c = true -> ~ P tt) -> phase (refuse_if c input reason gid) d P.
Proof.
  intros Hk Hn. destruct c; simpl; [|by apply phase_ret, Hk]. apply phase_blocked. intros []. by apply Hn.
Qed.

Lemma phase_guard {B} c input reason gid (k : io B) d (P : B -> Prop) :
  (c = false -> phase k d P) -> (c = true -> forall b, ~ P b) ->
  phase (bind (refuse_if c input reason gid) (fun _ => k)) d P.
Proof.
  intros Hk Hn. destruct c; simpl; [|by apply Hk].
  right. do 2 eexists. split; [reflexivity|]. split; [by eexists|auto].
Qed.

(** One check after another: [R] is what the second one adds to the first. *)
Lemma phase_bind {A B} (p : io A) (f : A -> io B) d (P : A -> Prop) (R : B -> Prop) :
  phase p d P -> (forall a, P a -> phase (f a) d R) -> ((forall a, ~ P a) -> forall b, ~ R b) ->
  phase (bind p f) d R.
Proof.
  intros [(a & Hr & Ha)|(d' & r & Hr & Hd & Hn)] Hf HR.
  - destruct (Hf a Ha) as [(b & Hb & HQ)|(d' & r & Hb & Hd & Hn)]; [left; exists b|right; exists d', r];
      by rewrite run_bind, Hr.
  - right. exists d', r. rewrite run_bind, Hr. auto.
Qed.

(** ** What an authorization means *)

Definition confirmation_ok (d : DB) (input : FinalDispatchInput) (oc : option Confirmation) : Prop :=
  match oc with
  | None => present (fi_confirmationId input) = false
  | Some c => present (fi_confirmationId input) = true /\
      confirmations d !! default "" (fi_confirmationId input) = Some c /\
      c_userId c = fi_userId input /\ c_status c = C_PENDING
  end.

Record grant_ok (d : DB) (input : FinalDispatchInput) (oc : option Confirmation) (g : RiskGrant) : Prop := {
  go_found : grant_for input oc d = Some g;
  go_owner : g_userId g = fi_userId input;
  go_active : g_status g = G_ACTIVE;
  go_live : now d < g_expiresAt g }.

Record session_ok (d : DB) (oc : option Confirmation) (g : RiskGrant) (s : TradingSession) : Prop := {
  so_found : sessions d !! g_sessionId g = Some s;
  so_active : s_status s = Session.ACTIVE;
  so_generation : s_authorityGeneration s = g_sessionGeneration g;
  so_mode : s_executionMode s = g_executionMode g;
  so_confirmation : forall c, oc = Some c -> c_sessionGeneration c = s_authorityGeneration s }.

(** [bound] is what the grant recorded, if anything. *)
Definition unchanged {A} (bound : option A) (current : A) : Prop := forall x, bound = Some x -> current = x.

Record connection_ok (d : DB) (g : RiskGrant) (b : BrokerConnection) : Prop := {
  co_found : connections d !! g_brokerConnectionId g = Some b;
  co_owner : b_userId b = g_userId g;
  co_connected : b_status b = B_CONNECTED;
  co_executable : b_authorizationStatus b = Known Authorization.ACTIVE;
  co_usable : Authorization.isUsable (b_credentialStatus b) = true;
  co_credentials : unchanged (g_credentialGeneration g) (b_credentialGeneration b);
  co_identity : forall i, g_providerBrokerIdentity g = Some i -> b_providerBrokerIdentity b = Some i }.

Definition mode_ok (d : DB) (input : FinalDispatchInput) (oc : option Confirmation) (g : RiskGrant)
    (s : TradingSession) (b : BrokerConnection) : Prop :=
  match s_executionMode s with
  | PAPER_ONLY => b_brokerId b = PAPER_BROKER_ID
  | SEMI_AUTO => fi_origin input = USER_CONFIRMATION /\
      exists c, oc = Some c /\ confirmation_binds c g s b = true /\ now d < c_expiresAt c
  | FULL_AUTO => True
  end.

Definition controls_ok (d : DB) (input : FinalDispatchInput) (b : BrokerConnection) : Prop :=
  forall c, c ∈ controls d -> ~ blocks (now d) (fi_userId input) (Some (b_brokerId b)) (Some (b_id b)) c.

Lemma drifted_false {A} `{!EqDecision A} (bound : option A) current :
  drifted bound current = false <-> unchanged bound current.
Proof.
  unfold drifted, unchanged. destruct bound as [x|]; [|naive_solver].
  rewrite negb_false_iff, bool_decide_eq_true. naive_solver.
Qed.

(** Turn the boolean guards of a [phase] into the clauses of its specification. *)
Ltac guard_prop :=
  repeat match goal with
    | H : drifted _ _ = false |- _ => apply drifted_false in H
    | H : drifted ?b ?c = true |- _ =>
        assert (~ unchanged b c) by (rewrite <- drifted_false, H; discriminate); clear H
    end;
  bool_to_prop.

(** Guards one after the other; what is left are the facts they establish or refute. *)
Ltac phases :=
  repeat match goal with
    | |- phase (bind (refuse_if _ _ _ _) _) _ _ => apply phase_guard; intros
    | |- phase (refuse_if _ _ _ _) _ _ => apply phase_refuse; intros
    | |- phase (bind (read _) _) _ _ => apply phase_read
    | |- phase (blocked _ _ _) _ _ => apply phase_blocked; intros
    | |- phase (Ret _) _ _ => apply phase_ret
    end.

Lemma phase_confirmation input d : phase (load_confirmation input) d (confirmation_ok d input).
Proof.
  unfold load_confirmation, confirmation_ok. destruct (present (fi_confirmationId input)) eqn:Hp; cbn [negb].
  2:{ by phases. }
  phases. unfold owned_confirmation.
  destruct (confirmations d !! _) as [c|] eqn:Hc.
  2:{ phases. destruct a; naive_solver. }
  case_bool_decide as Hu.
  2:{ phases. destruct a; naive_solver. }
  unfold pending. phases; guard_prop; try destruct b; naive_solver.
Qed.

Lemma phase_grant input oc d : phase (load_grant input oc) d (grant_ok d input oc).
Proof.
  unfold load_grant, grant_active. phases. cbn [fst snd]. destruct (grant_for input oc d) as [g|] eqn:Hg.
  2:{ phases. intros []. congruence. }
  phases; guard_prop; try (intros []; simplify_eq; congruence || lia). by constructor.
Qed.

Lemma session_refusal_none s g :
  session_refusal (Some s) g = None <->
  s_status s = Session.ACTIVE /\ s_authorityGeneration s = g_sessionGeneration g /\
  s_executionMode s = g_executionMode g.
Proof. unfold session_refusal. repeat case_match; guard_prop; naive_solver. Qed.

Lemma phase_session input oc g d : phase (load_session input oc g) d (session_ok d oc g).
Proof.
  unfold load_session. phases. destruct (sessions d !! _) as [s|] eqn:Hs.
  2:{ phases. intros []. congruence. }
  destruct (session_refusal (Some s) g) as [r|] eqn:Hr; cbv iota.
  - apply (phase_bind _ _ _ (fun _ => False)); [phases; by intros []|by intros ? []|]. intros _ b [Hf Ha Hg Hm _].
    assert (b = s) as -> by congruence.
    by rewrite (proj2 (session_refusal_none s g)) in Hr.
  - apply session_refusal_none in Hr as (Ha & Hg & Hm). cbn [bind].
    phases.
    + constructor; try done. intros c ->. guard_prop. lia.
    + intros [Hf _ _ _ Hc]. destruct oc as [c|]; [|done]. specialize (Hc c eq_refl). guard_prop. congruence.
Qed.

Lemma phase_connection input g d :
  phase (load_connection input g) d (fun r => snd r = now d /\ connection_ok d g (fst r)).
Proof.
  unfold load_connection, Authorization.isExecutable. phases. cbn [fst snd].
  destruct (connections d !! _) as [b|] eqn:Hb.
  2:{ phases. intros [_ []]. congruence. }
  phases; guard_prop; try (intros [_ []]; simplify_eq; congruence || done).
  - split; [done|]. constructor; try done. intros i Hi. rewrite Hi in *. by guard_prop.
  - intros [_ []]. simplify_eq. destruct (g_providerBrokerIdentity g) as [i|]; [|done].
    guard_prop. cbn in *. naive_solver.
Qed.

Lemma phase_mode input oc g s b d :
  phase (mode_gates input g oc s b (now d)) d (fun _ => mode_ok d input oc g s b).
Proof.
  unfold mode_gates, mode_ok. destruct (s_executionMode s); phases; guard_prop; try done.
  case_bool_decide as Ho; [phases; intros [Ho' _]; congruence|].
  destruct oc as [c|]; [|phases; intros (_ & c & ? & _); done].
  assert (fi_origin input = USER_CONFIRMATION) by (destruct (fi_origin input); done).
  phases; guard_prop; [naive_solver lia| |]; intros (_ & c' & [= <-] & ? & ?); [lia|congruence].
Qed.

Lemma fingerprint_printable tech ident st : printable (fingerprint_payload tech ident st) = true.
Proof. by destruct ident, st. Qed.

Lemma evaluation_fingerprint sha256 dp cat sup b :
  exists f, le_fingerprint (evaluateCurrentLiveVerification sha256 dp cat sup b) = Ok f.
Proof.
  assert (forall t i s, exists f, verificationFingerprint sha256 t i s = Ok f) as H.
  { intros t i s. unfold verificationFingerprint.
    rewrite canonicalJson_ok by apply fingerprint_printable. eauto. }
  unfold evaluateCurrentLiveVerification. case_match; apply H.
Qed.

Lemma phase_control input b d : phase (control_gate input b) d (fun _ => controls_ok d input b).
Proof.
  unfold control_gate, controls_ok.
  destruct (checked (fi_userId input) (Some (b_brokerId b)) (Some (b_id b)) d) as (p & Hrun & [Ha _]).
  apply (phase_bind _ _ _ (fun q => q = p)).
  - left. by exists p.
  - intros q ->. phases; guard_prop; [by apply Ha|]. intros Hc%Ha. congruence.
  - intros Hn. by destruct (Hn p).
Qed.

Section exact.
Context (sha256 : chars -> string) (date_parses : chars -> bool)
        (catalog : list Live.BrokerDefinition) (isSupported : string -> bool).

Abbreviation evaluate := (evaluateCurrentLiveVerification sha256 date_parses catalog isSupported).

(** The fingerprint of a dispatch: the current, verified one for exposure-increasing LIVE
    operations, the one the grant recorded otherwise. *)
Definition live_ok (g : RiskGrant) (b : BrokerConnection) (exposureIncreasing : bool)
    (fp : option string) : Prop :=
  if exposureIncreasing && bool_decide (b_accountType b = "LIVE")
  then le_eligible (evaluate b) = true /\ exists f, le_fingerprint (evaluate b) = Ok f /\ fp = Some f /\
       unchanged (g_providerVerificationFingerprint g) f
  else fp = g_providerVerificationFingerprint g.

Definition input_class (input : FinalDispatchInput) : ProviderOperationClass :=
  default NEW_EXPOSURE (fi_operationClass input).
Definition increases (input : FinalDispatchInput) : bool :=
  Operation.isExposureIncreasingOperation (input_class input).

(** Every authority fact of a dispatch, read off one state of the store. *)
Record authorized (d : DB) (input : FinalDispatchInput) (oc : option Confirmation) (g : RiskGrant)
    (s : TradingSession) (b : BrokerConnection) (fp : option string) : Prop := {
  au_confirmation : confirmation_ok d input oc;
  au_grant : grant_ok d input oc g;
  au_session : session_ok d oc g s;
  au_connection : connection_ok d g b;
  au_mode : increases input = true -> mode_ok d input oc g s b;
  au_live : live_ok g b (increases input) fp;
  au_controls : increases input = true -> controls_ok d input b }.

Lemma phase_live input g b e d :
  phase (live_gate sha256 date_parses catalog isSupported input g b e) d (live_ok g b e).
Proof.
  unfold live_gate, live_ok. destruct (e && bool_decide (b_accountType b = "LIVE")); [|by phases].
  destruct (evaluation_fingerprint sha256 date_parses catalog isSupported b) as [f Hf]. rewrite Hf.
  phases; guard_prop; first [naive_solver|by intros [He _]; congruence].
Qed.

Lemma confirmation_ok_unique d input oc oc' :
  confirmation_ok d input oc -> confirmation_ok d input oc' -> oc = oc'.
Proof. unfold confirmation_ok. destruct oc, oc'; intros; destruct_and?; congruence. Qed.

Lemma live_ok_unique g b e fp fp' : live_ok g b e fp -> live_ok g b e fp' -> fp = fp'.
Proof. unfold live_ok. case_match; [|congruence]. intros (_ & f & ? & -> & _) (_ & f' & ? & -> & _). congruence. Qed.

Lemma authorized_unique d input oc g s b fp oc' g' s' b' fp' :
  authorized d input oc g s b fp -> authorized d input oc' g' s' b' fp' ->
  oc = oc' /\ g = g' /\ s = s' /\ b = b' /\ fp = fp'.
Proof.
  intros [C1 [G1] [S1] [N1] _ L1 _] [C2 [G2] [S2] [N2] _ L2 _].
  assert (oc = oc') as <- by by eapply confirmation_ok_unique. assert (g = g') as <- by congruence.
  assert (s = s') as <- by congruence. assert (b = b') as <- by congruence.
  assert (fp = fp') as <- by by eapply live_ok_unique. done.
Qed.

(** The answer of an authorization, and the audit entry it leaves. *)
Definition answer (input : FinalDispatchInput) (oc : option Confirmation) (g : RiskGrant)
    (s : TradingSession) (b : BrokerConnection) (fp : option string) : FinalDispatchAuthorization :=
  mkAuthorization (frozen_context g s b (input_class input) fp) b (c_id <$> oc) (input_class input).

Definition dispatch_audit (input : FinalDispatchInput) (g : RiskGrant) : AuditEntry :=
  mkAudit (Some (fi_userId input)) "ORDER_SUBMITTED" "RiskGrant" (g_id g) "FINAL_DISPATCH_AUTHORIZED".

Lemma phase_when (e : bool) (p : io unit) d (P : Prop) :
  phase p d (fun _ => P) -> phase (if e then p else Ret tt) d (fun _ => e = true -> P).
Proof.
  destruct e; [|by intros; apply phase_ret].
  intros [(a & Hr & Ha)|(d' & r & Hr & Hd & Hn)]; [left; by exists a|right].
  exists d', r. split; [done|]. split; [done|]. intros a Ha. apply (Hn a). by apply Ha.
Qed.

(** Take the next check of a run: on success go on, on refusal conclude. *)
Ltac next_phase H :=
  let a := fresh "a" in let Hr := fresh "Hr" in let Ha := fresh "Ha" in
  destruct H as [(a & Hr & Ha)|(d' & reason & Hr & Hd & Hn)];
  rewrite run_bind, Hr;
  [|right; exists d', reason; split; [done|]; split; [done|]; intros oc' g' s' b' fp' [C G S N M L K]].

Lemma authorize_runs input d :
  (exists oc g s b fp, authorized d input oc g s b fp /\
     run (authorize sha256 date_parses catalog isSupported false input) d
       = (set_audit (audit d ++ [dispatch_audit input g]) d, Ok (answer input oc g s b fp))) \/
  (exists d' reason,
     run (authorize sha256 date_parses catalog isSupported false input) d = (d', Err (FinalDispatchBlocked reason)) /\
     audited d d' /\ forall oc g s b fp, ~ authorized d input oc g s b fp).
Proof.
  unfold authorize. fold (input_class input). fold (increases input).
  next_phase (phase_confirmation input d); [|by apply (Hn oc')]. rename a into oc.
  next_phase (phase_grant input oc d).
  2:{ assert (oc' = oc) as -> by by eapply confirmation_ok_unique. by apply (Hn g'). }
  rename a into g. next_phase (phase_session input oc g d).
  2:{ assert (oc' = oc) as -> by by eapply confirmation_ok_unique.
      assert (g' = g) as -> by (destruct Ha0, G; congruence). by apply (Hn s'). }
  rename a into s. next_phase (phase_connection input g d).
  2:{ assert (oc' = oc) as -> by by eapply confirmation_ok_unique.
      assert (g' = g) as -> by (destruct Ha0, G; congruence). by apply (Hn (b', now d)). }
  destruct a as [b t]. destruct Ha2 as [Ht Hb]. cbn [fst snd] in *. subst t.
  assert (forall oc' g' s' b' fp', authorized d input oc' g' s' b' fp' -> oc' = oc /\ g' = g /\ s' = s /\ b' = b) as Hu.
  { intros oc' g' s' b' fp' [C [] [] [] _ _ _]. assert (oc' = oc) as -> by by eapply confirmation_ok_unique.
    destruct Ha0, Ha1, Hb. split; [done|]. assert (g' = g) as -> by congruence.
    split; [done|]. split; congruence. }
  next_phase (phase_when (increases input) _ d _ (phase_mode input oc g s b d)).
  2:{ destruct (Hu oc' g' s' b' fp') as (-> & -> & -> & ->); [by constructor|]. by apply (Hn tt). }
  next_phase (phase_live input g b (increases input) d).
  2:{ destruct (Hu oc' g' s' b' fp') as (-> & -> & -> & ->); [by constructor|]. by apply (Hn fp'). }
  rename a0 into fp. next_phase (phase_when (increases input) _ d _ (phase_control input b d)).
  2:{ destruct (Hu oc' g' s' b' fp') as (-> & -> & -> & ->); [by constructor|]. by apply (Hn tt). }
  left. exists oc, g, s, b, fp. split; [by constructor|]. by destruct oc.
Qed.
End exact.

(** ** What the boundary leaves alone *)

(** Steps that touch neither grants nor confirmations nor orders. *)
Record keeps_rows (d d' : DB) : Prop := {
  kr_grants : grants d' = grants d;
  kr_confirmations : confirmations d' = confirmations d;
  kr_orders : orders d' = orders d }.

#[export] Instance keeps_rows_preorder : PreOrder keeps_rows.
Proof. split; [by constructor|]. intros x y z [] []. constructor; congruence. Qed.

Lemma keeps_authority d d' : keeps_rows d d' -> authority_rel d d'.
Proof. intros []. by apply authority_rel_same. Qed.

Lemma keeps_order d d' : keeps_rows d d' -> order_rel d d'.
Proof. intros []. by apply order_rel_same. Qed.

Lemma guar_audit_keeps e : guar keeps_rows (audit_log e).
Proof. apply guar_audit; [typeclasses eauto|]. done. Qed.

Lemma guar_blocked {A} input reason gid : guar keeps_rows (blocked (A := A) input reason gid).
Proof. apply guar_bind; [|done]. apply guar_catch; [apply guar_audit_keeps|done]. Qed.

Lemma guar_refuse c input reason gid : guar keeps_rows (refuse_if c input reason gid).
Proof. destruct c; [apply guar_blocked|done]. Qed.

#[export] Hint Resolve guar_audit_keeps guar_blocked guar_refuse : irex.

Ltac keeps :=
  guar_walk; eauto with irex; try (apply guar_op; intros; first [done | by case_match | reflexivity]).

Lemma keeps_generation u : guar keeps_rows (getCurrentGeneration u).
Proof.
  unfold getCurrentGeneration, wrap. guar_walk. apply guar_op. intros d. unfold counter_seed. by case_match.
Qed.

Lemma keeps_singleton f : guar keeps_rows (readSingletonRevision f).
Proof. unfold readSingletonRevision, wrap. guar_walk. Qed.

Lemma keeps_check u b c : guar keeps_rows (checkExecutionPermission u b c).
Proof.
  unfold checkExecutionPermission. apply guar_bind; [|intros r; by repeat case_match].
  apply guar_attempt. unfold findActiveControls. guar_walk.
Qed.

#[export] Hint Resolve keeps_generation keeps_singleton keeps_check : irex.

Lemma keeps_commit_grant i : guar keeps_rows (commit_grant i).
Proof. unfold commit_grant. keeps. Qed.

Lemma keeps_commit_authority i g : guar keeps_rows (commit_authority i g).
Proof.
  unfold commit_authority, read_revisions.
  unfold getCurrentTradingPolicyRevision, getCurrentProviderVerificationRevision, getCurrentExecutionControlRevision.
  guar_walk; eauto with irex.
Qed.

Lemma keeps_commit_session i g : guar keeps_rows (commit_session i g).
Proof. unfold commit_session. keeps. Qed.

Lemma keeps_commit_connection i g : guar keeps_rows (commit_connection i g).
Proof.
  unfold commit_connection. apply guar_bind; [|intros r; keeps].
  apply guar_attempt. apply guar_op. done.
Qed.

Lemma keeps_load_confirmation input : guar keeps_rows (load_confirmation input).
Proof. unfold load_confirmation. keeps. Qed.

Lemma keeps_load_grant input oc : guar keeps_rows (load_grant input oc).
Proof. unfold load_grant. keeps. Qed.

Lemma keeps_load_session input oc g : guar keeps_rows (load_session input oc g).
Proof. unfold load_session. keeps. Qed.

Lemma keeps_load_connection input g : guar keeps_rows (load_connection input g).
Proof. unfold load_connection. keeps. Qed.

Lemma keeps_mode input g oc s b t : guar keeps_rows (mode_gates input g oc s b t).
Proof. unfold mode_gates. keeps. Qed.

Lemma keeps_live sha256 dp cat sup input g b e : guar keeps_rows (live_gate sha256 dp cat sup input g b e).
Proof. unfold live_gate. keeps. Qed.

Lemma keeps_control input b : guar keeps_rows (control_gate input b).
Proof. unfold control_gate. keeps. Qed.

#[export] Hint Resolve keeps_commit_grant keeps_commit_authority keeps_commit_session keeps_commit_connection
  keeps_load_confirmation keeps_load_grant keeps_load_session keeps_load_connection keeps_mode keeps_live
  keeps_control : irex.

(** ** Calls *)

Inductive bcall :=
| BCommit (i : CommitInput)
| BAuthorize (consume : bool) (input : FinalDispatchInput)
| BGrant (c : gcall)
| BAuthority (c : acall).

(** The grant a dispatch went out under. *)
Definition grant_of (a : FinalDispatchAuthorization) : string := x_riskGrantId (fa_context a).

(** The grant a finished call consumed, if any. *)
Definition consumed_grant (r : option (string * RiskGrantConsumeResult)) : option string :=
  match r with Some (id, r) => if cr_consumed r then Some id else None | None => None end.

Section calls.
Context (sha256 : chars -> string) (date_parses : chars -> bool)
        (catalog : list Live.BrokerDefinition) (isSupported : string -> bool).

Definition run_bcall (c : bcall) : io (option string) :=
  match c with
  | BCommit i => bind (commitProviderDispatch i) (fun a => Ret (Some (grant_of a)))
  | BAuthorize consume input =>
      bind (authorize sha256 date_parses catalog isSupported consume input)
        (fun a => Ret (if consume then Some (grant_of a) else None))
  | BGrant c => bind (run_gcall sha256 c) (fun r => Ret (consumed_grant r))
  | BAuthority c => bind (run_acall c) (fun _ => Ret None)
  end.

(** *** Every step, as a relation on the store

    [advances] adds to [authority_rel] and [order_rel] the accounting of the commitment: an
    order only becomes [DISPATCH_COMMITTED] together with a grant becoming [CONSUMED]. *)

Definition is_consumed (r : string * RiskGrant) : Prop := g_status r.2 = G_CONSUMED.
Definition is_committed (r : string * Order) : Prop := o_status r.2 = Order.DISPATCH_COMMITTED.
Definition consumed_count (d : DB) : Z := Z.of_nat (size (filter is_consumed (grants d))).
Definition committed_count (d : DB) : Z := Z.of_nat (size (filter is_committed (orders d))).

Record advances (d d' : DB) : Prop := {
  ad_authority : authority_rel d d';
  ad_order : order_rel d d';
  ad_count : committed_count d' - committed_count d <= consumed_count d' - consumed_count d }.

#[export] Instance advances_preorder : PreOrder advances.
Proof.
  split; [by intros d; constructor; [reflexivity..|lia]|].
  intros x y z [] []. constructor; [by etransitivity..|lia].
Qed.

Lemma consumed_grows d d' :
  rows_evolve grant_evolves (grants d) (grants d') -> consumed_count d <= consumed_count d'.
Proof.
  intros He. unfold consumed_count. apply inj_le. rewrite <- !size_dom. apply subseteq_size.
  intros id. rewrite !elem_of_dom. intros [g [Hg Hc]%map_lookup_filter_Some].
  destruct (He id g Hg) as (g' & Hg' & [_ Ht _ _]). exists g'. apply map_lookup_filter_Some.
  split; [done|]. rewrite Ht; [done|]. unfold is_consumed in Hc. simpl in Hc. congruence.
Qed.

Lemma keeps_advances d d' : keeps_rows d d' -> advances d d'.
Proof.
  intros Hk. constructor; [by apply keeps_authority|by apply keeps_order|].
  destruct Hk as [Hg _ Ho]. unfold committed_count, consumed_count. rewrite Hg, Ho. lia.
Qed.

Lemma grant_step_advances d d' : authority_rel d d' -> orders d' = orders d -> advances d d'.
Proof.
  intros Ha Ho. constructor; [done|by apply order_rel_same|].
  pose proof (consumed_grows d d' (ar_grants _ _ Ha)). unfold committed_count. rewrite Ho. lia.
Qed.

Lemma guar_grant_part {A} (p : io A) : guar authority_rel p -> guar same_orders p -> guar advances p.
Proof.
  intros H1 H2. apply (guar_weaken (fun d d' => authority_rel d d' /\ same_orders d d')); [|by apply guar_and].
  intros d d' [? ?]. by apply grant_step_advances.
Qed.

Lemma guar_keeps {A} (p : io A) : guar keeps_rows p -> guar advances p.
Proof. apply guar_weaken, keeps_advances. Qed.

(** *** The authority calls *)

Lemma keeps_bump c e1 e2 :
  (forall d, keeps_rows d (fst (counter_seed c d))) -> (forall d, keeps_rows d (fst (counter_bump c d))) ->
  guar keeps_rows (bump_protocol c e1 e2).
Proof. intros Hs Hb. unfold bump_protocol, wrap, unless_unique. guar_walk; by apply guar_op. Qed.

Lemma keeps_bumpControl r : guar keeps_rows (bumpExecutionControlRevision r).
Proof.
  unfold bumpExecutionControlRevision. guar_walk; [|apply guar_audit_keeps].
  apply keeps_bump; intros d; unfold counter_seed, counter_bump; repeat case_match; done.
Qed.

Lemma keeps_bumpGeneration u r : guar keeps_rows (bumpGeneration u r).
Proof.
  unfold bumpGeneration. guar_walk; [|apply guar_audit_keeps].
  apply keeps_bump; intros d; unfold counter_seed, counter_bump; repeat case_match; done.
Qed.

Lemma keeps_sync p fp : p = policy_plane \/ p = provider_plane -> guar keeps_rows (sync p fp).
Proof.
  intros Hp. unfold sync. case_match; [|done]. unfold syncSharedControlRevision.
  induction SYNC_CAS_MAX_ATTEMPTS as [|n IH]; [done|]. cbn [sync_loop]. unfold wrap, unless_unique.
  guar_walk; try exact IH; apply guar_op; intros d; unfold seedState, appendLog, casAdvance;
    repeat case_match; destruct Hp as [-> | ->]; done.
Qed.

Lemma keeps_acall c : guar keeps_rows (run_acall c).
Proof.
  assert (forall A r (p : io A), guar keeps_rows p -> guar keeps_rows (gives r p)) as Hq
    by (intros; by apply guar_bind).
  destruct c; cbn [run_acall]; apply Hq; try (apply keeps_singleton || apply keeps_sync; auto).
  - apply keeps_generation.
  - apply keeps_bumpGeneration.
  - unfold ensureExecutionControlRevisionInitialized, unless_unique. guar_walk. apply guar_op.
    intros d. unfold counter_seed. by case_match.
  - apply keeps_bumpControl.
  - unfold activateControl, findCurrentActiveControl, retireExpiredActiveControl. guar_walk;
      try apply guar_audit_keeps; try apply keeps_bumpControl; try by apply guar_modify.
    apply guar_op. intros d. unfold control_insert. cbv zeta. repeat case_match; done.
  - unfold deactivateControl. guar_walk; try apply guar_audit_keeps; try apply keeps_bumpControl.
    by apply guar_modify.
  - apply keeps_check.
Qed.

(** *** The commitment *)

(** What a commitment that succeeds found, and what it left. *)
Record commitment_of (i : CommitInput) (gid : string) (t : Z) (d d' : DB) : Prop := {
  cm_grant : exists g, grants d !! gid = Some g /\ commit_grant_guard (ci_userId i) t g = true /\
    grants d' = <[gid := consume_patch t g]> (grants d);
  cm_confirmation : if present (ci_confirmationId i)
    then exists c, confirmations d !! default "" (ci_confirmationId i) = Some c /\
      commit_confirmation_guard (ci_userId i) gid t c = true /\
      confirmations d' = <[default "" (ci_confirmationId i) := consume_confirmation_patch t c]> (confirmations d)
    else confirmations d' = confirmations d;
  cm_order : exists o o', orders d !! ci_orderId i = Some o /\ o_status o = Order.SUBMITTED /\
    commit_order_patch (now d) o = Ok o' /\ orders d' = <[ci_orderId i := o']> (orders d);
  cm_rest : set_orders (orders d) (set_confirmations (confirmations d) (set_grants (grants d) d')) = d }.

Lemma grant_update_ok p f id d d' n :
  grant_update p f id d = (d', Ok n) ->
  (n = 0 /\ d' = d) \/
  (n = 1 /\ exists g, grants d !! id = Some g /\ p (now d) g = true /\
     d' = set_grants (<[id := f (now d) g]> (grants d)) d).
Proof.
  unfold grant_update. destruct (update_row _ _ id (grants d)) as [m k] eqn:E. intros [= <- <-].
  apply update_row_cases in E as [(-> & -> & _)|(g & Hg & Hp & -> & ->)]; [left|right].
  - by destruct d.
  - eauto 6.
Qed.

Lemma confirmation_update_ok p f id d d' n :
  confirmation_update p f id d = (d', Ok n) ->
  (n = 0 /\ d' = d) \/
  (n = 1 /\ exists c, confirmations d !! id = Some c /\ p (now d) c = true /\
     d' = set_confirmations (<[id := f (now d) c]> (confirmations d)) d).
Proof.
  unfold confirmation_update. destruct (update_row _ _ id (confirmations d)) as [m k] eqn:E. intros [= <- <-].
  apply update_row_cases in E as [(-> & -> & _)|(g & Hg & Hp & -> & ->)]; [left|right].
  - by destruct d.
  - eauto 6.
Qed.

Lemma run_confirmation_cas i gid t d d' :
  run (if present (ci_confirmationId i) then
         let* n := op (confirmation_update (fun _ => commit_confirmation_guard (ci_userId i) gid t)
                 (fun _ => consume_confirmation_patch t) (default "" (ci_confirmationId i))) in
         if negb (n =? 1) then Throw (CommitmentLost "COMMITMENT_CONFIRMATION_CAS_LOST") else Ret tt
       else Ret tt)%prog d = (d', Ok tt) ->
  (if present (ci_confirmationId i)
   then exists c, confirmations d !! default "" (ci_confirmationId i) = Some c /\
      commit_confirmation_guard (ci_userId i) gid t c = true /\
      d' = set_confirmations (<[default "" (ci_confirmationId i) := consume_confirmation_patch t c]> (confirmations d)) d
   else d' = d).
Proof.
  destruct (present _); [|by intros [= <-]]. run_simpl.
  destruct (confirmation_update _ _ _ d) as [d1 [n|e]] eqn:E; [|done].
  apply confirmation_update_ok in E as [[-> ->]|(-> & c & Hc & Hp & ->)]; counts; run_simpl; [done|].
  intros [= <-]. eauto.
Qed.

Lemma run_commitment i g t d d' :
  run (commitment_body i g t) d = (d', Ok tt) -> commitment_of i (g_id g) t d d'.
Proof.
  unfold commitment_body. run_simpl.
  destruct (grant_update _ _ _ d) as [d1 [n|e]] eqn:E1; [|done].
  apply grant_update_ok in E1 as [[-> ->]|(-> & g0 & Hg & Hp & ->)]; counts; run_simpl; [done|].
  destruct (run (if present (ci_confirmationId i) then _ else _) _) as [d2 [[]|e]] eqn:E2; [|done].
  apply run_confirmation_cas in E2. unfold order_update. run_simpl.
  destruct (order_update_act _ _ _ d2) as [d3 [o|e]] eqn:E3; [|done].
  apply order_update_cases in E3 as [[-> Hn]|(o0 & o' & Ho & Hs & Hf & _ & -> & [= ->])].
  { destruct o; [by destruct (Hn o)|done]. }
  run_simpl. intros [= <-]. unfold in_status in Hs. bool_to_prop.
  destruct (present (ci_confirmationId i)) eqn:Hc.
  - destruct E2 as (c & Hc1 & Hc2 & ->). constructor; rewrite ?Hc; cbn in *; eauto 10.
    by destruct d.
  - subst d2. constructor; rewrite ?Hc; cbn in *; eauto 10. by destruct d.
Qed.

Lemma guar_body_authority i g t : guar authority_rel (commitment_body i g t).
Proof.
  unfold commitment_body, order_update. guar_walk; apply guar_op; intros d.
  - apply grant_update_rel. intros _ g0 Hp. unfold commit_grant_guard in Hp. bool_to_prop. eauto with irex.
  - apply confirmation_update_rel. intros _ c Hp. unfold commit_confirmation_guard in Hp. bool_to_prop.
    eauto with irex.
  - apply authority_rel_same; unfold order_update_act; repeat case_match; done.
Qed.

Lemma guar_body_order i g t : guar order_rel (commitment_body i g t).
Proof.
  unfold commitment_body. guar_walk; try (apply guar_op; intros d; apply order_rel_same;
    unfold grant_update, confirmation_update; by case_match).
  apply guar_update. intros t0 o o' Hs Ho. by apply (transition_evolves Order.SUBMITTED Order.DISPATCH_COMMITTED (mkExtras None None false) t0).
Qed.

Lemma size_filter_update {R} (P : string * R -> Prop) `{!forall x, Decision (P x)} (m : gmap string R) id r r' :
  m !! id = Some r -> ~ P (id, r) -> P (id, r') ->
  size (filter P (<[id := r']> m)) = S (size (filter P m)).
Proof.
  intros Hr Hn Hp. rewrite map_filter_insert_True by done. apply map_size_insert_None.
  apply map_lookup_filter_None. right. intros x Hx. by simplify_eq.
Qed.

Lemma commitment_counts i gid t d d' :
  commitment_of i gid t d d' ->
  committed_count d' = committed_count d + 1 /\ consumed_count d' = consumed_count d + 1.
Proof.
  intros [(g & Hg & Hgg & Hg') _ (o & o' & Ho & Hs & [= Hf] & Ho') _].
  unfold commit_grant_guard, grant_active in Hgg. bool_to_prop.
  unfold committed_count, consumed_count. rewrite Hg', Ho'.
  rewrite (size_filter_update is_consumed _ _ g) by (unfold is_consumed; cbn; congruence).
  rewrite (size_filter_update is_committed _ _ o) by (unfold is_committed; cbn; subst; cbn; congruence).
  lia.
Qed.

Lemma guar_commitment i g t : guar advances (commitment i g t).
Proof.
  unfold commitment. apply guar_catch; [|intros e; apply guar_keeps, guar_blocked].
  apply guar_op. intros d. destruct (run (commitment_body i g t) d) as [d' [[]|e]] eqn:E; [|reflexivity].
  pose proof (guar_run authority_rel (commitment_body i g t) d _ (guar_body_authority i g t)) as H1.
  pose proof (guar_run order_rel (commitment_body i g t) d _ (guar_body_order i g t)) as H2.
  rewrite E in H1, H2. cbn. constructor; [done..|].
  apply run_commitment, commitment_counts in E. lia.
Qed.

Lemma guar_commit i : guar advances (commitProviderDispatch i).
Proof.
  unfold commitProviderDispatch.
  repeat (apply guar_bind; [first [apply guar_commitment | apply guar_keeps; eauto with irex]|intros]); done.
Qed.

Lemma guar_consume_confirmation input c : guar advances (consume_confirmation input c).
Proof.
  unfold consume_confirmation. guar_walk; try (apply guar_keeps; by eauto with irex).
  apply guar_op. intros d. apply grant_step_advances.
  - apply confirmation_update_rel. intros t x Hp. bool_to_prop. eauto with irex.
  - unfold confirmation_update. by case_match.
Qed.

Lemma guar_consume_grant input g : guar advances (consume_grant input g).
Proof.
  unfold consume_grant. apply guar_bind; [|intros; apply guar_keeps, guar_refuse].
  apply guar_grant_part; [apply guar_consume|apply orders_consume].
Qed.

Lemma guar_authorize consume input :
  guar advances (authorize sha256 date_parses catalog isSupported consume input).
Proof.
  unfold authorize.
  repeat first [done | apply guar_keeps; by eauto with irex | apply guar_bind; [|intros]].
  - case_match; [apply guar_keeps, keeps_mode|done].
  - case_match; [apply guar_keeps, keeps_control|done].
  - repeat case_match; try done. apply guar_consume_confirmation.
  - case_match; [apply guar_consume_grant|done].
Qed.

Lemma guar_bcall c : guar advances (run_bcall c).
Proof.
  destruct c; cbn [run_bcall]; (apply guar_bind; [|done]).
  - apply guar_commit.
  - apply guar_authorize.
  - apply guar_grant_part; [apply guar_gcall|apply orders_gcall].
  - apply guar_keeps, keeps_acall.
Qed.

Lemma guar_bcalls cs : Forall (guar advances) (run_bcall <$> cs).
Proof. apply Forall_fmap, Forall_true. apply guar_bcall. Qed.

(** *** One dispatch per grant *)

Section once.
Context (key : string).

Definition dispatches (r : option string) : bool := bool_decide (r = Some key).

Lemma needs_blocked {A B} (wins : B -> bool) input reason gid (f : A -> io B) :
  needs DbUnavailable (spent key) wins (bind (blocked input reason gid) f).
Proof. split; [|done]. intros d. by right. Qed.

Lemma commitment_fires i g t d d' :
  run (commitment_body i g t) d = (d', Ok tt) -> fires (spent (g_id g)) d d'.
Proof.
  intros E%run_commitment. destruct E as [(g0 & Hg & Hp & Hg') _ _ _].
  unfold commit_grant_guard in Hp. bool_to_prop. unfold fires, spent. rewrite Hg, Hg', lookup_insert_eq.
  unfold grant_active in *. bool_to_prop. by rewrite bool_decide_eq_false_2 by congruence.
Qed.

Lemma needs_commit i :
  needs DbUnavailable (spent key) (fun a => dispatches (Some (grant_of a))) (commitProviderDispatch i).
Proof.
  unfold commitProviderDispatch. apply needs_bind_r. intros g.
  apply needs_bind_r. intros _. apply needs_bind_r. intros s. apply needs_bind_r. intros [b t].
  destruct (decide (g_id g = key)) as [Hk|Hne].
  - unfold commitment, transaction. apply needs_catch_op; [|intros ?; apply needs_blocked].
    intros d d' [] E. left. destruct (run (commitment_body i g _) d) as [d1 [[]|err]] eqn:Hr; [|done].
    injection E as <-.
    rewrite <- Hk. by eapply commitment_fires.
  - apply needs_bind_r. intros _. cbn. unfold dispatches, grant_of. cbn.
    by rewrite bool_decide_eq_false_2 by congruence.
Qed.

Lemma needs_consume {B} (wins : B -> bool) u (f : RiskGrantConsumeResult -> io B) :
  (forall r, cr_consumed r = false -> needs DbUnavailable (spent key) wins (f r)) ->
  needs DbUnavailable (spent key) wins (bind (consumeGrantAtomic key u) f).
Proof.
  intros Hf. unfold consumeGrantAtomic. cbn [bind op of_result read]. split; [|done].
  intros d. destruct (grant_update _ _ key d) as [d' [n|e]] eqn:E; cbn [fst snd of_result bind]; [|by right].
  destruct (Z.ltb_spec 0 n) as [Hn|Hn]; [left; by eapply consume_fires|right].
  cbn [bind op of_result read needs]. split; [|done]. intros d2. right. cbn [snd of_result bind fst].
  repeat case_match; cbn [bind]; by apply Hf.
Qed.

Lemma needs_consume_grant input g : g_id g = key -> needs DbUnavailable (spent key) (fun _ => true) (consume_grant input g).
Proof.
  intros Hk. unfold consume_grant. rewrite Hk. apply needs_consume. intros r Hr. rewrite Hr. cbn [negb refuse_if].
  split; [|done]. intros d. by right.
Qed.

Lemma needs_authorize (consume : bool) input :
  needs DbUnavailable (spent key) (fun a : FinalDispatchAuthorization => dispatches (if consume then Some (grant_of a) else None))
    (authorize sha256 date_parses catalog isSupported consume input).
Proof.
  destruct consume; [|by apply needs_never].
  unfold authorize. do 4 (apply needs_bind_r; intros ?). do 3 (apply needs_bind_r; intros ?).
  apply needs_bind_r; intros ?. cbv iota.
  match goal with |- context [consume_grant _ ?g] => destruct (decide (g_id g = key)) as [Hk|Hne] end.
  - by apply needs_bind_l, needs_consume_grant.
  - apply needs_bind_r. intros _. apply needs_bind_r. intros _. cbn. unfold dispatches, grant_of. cbn.
    by rewrite bool_decide_eq_false_2 by congruence.
Qed.

Lemma needs_bcall c : needs DbUnavailable (spent key) dispatches (run_bcall c).
Proof.
  destruct c; cbn [run_bcall].
  - apply (needs_map _ _ dispatches (fun a => Some (grant_of a))). apply needs_commit.
  - apply (needs_map _ _ dispatches (fun a : FinalDispatchAuthorization => if consume then Some (grant_of a) else None)). apply needs_authorize.
  - apply (needs_map _ _ dispatches consumed_grant). eapply needs_ext; [|apply needs_gcall].
    intros [[id r]|]; unfold dispatches; cbn; [|done]. destruct (cr_consumed r).
    + rewrite andb_true_r. apply bool_decide_ext. naive_solver.
    + by rewrite andb_false_r.
  - apply needs_bind_r. done.
Qed.

Lemma guar_stays c : guar (stays (spent key)) (run_bcall c).
Proof. eapply guar_weaken; [|apply guar_bcall]. intros d d' [Ha _ _]. by apply authority_rel_spent. Qed.
End once.
End calls.

(** ** A commitment alone *)

Definition current_generation (u : string) (d : DB) : Z := default 1 (generations d !! u).

(** The first read of a user's generation seeds it. *)
Definition seeded (u : string) (d : DB) : DB := fst (counter_seed (user_generation u) d).

Lemma run_generation u d : run (getCurrentGeneration u) d = (seeded u d, Ok (current_generation u d)).
Proof.
  unfold getCurrentGeneration, seeded, current_generation, wrap. run_simpl. unfold counter_seed. cbn.
  destruct (generations d !! u) as [n|] eqn:E; run_simpl; cbn; by rewrite ?E.
Qed.

Lemma seeded_keeps u d : keeps_rows d (seeded u d).
Proof. unfold seeded, counter_seed. by case_match. Qed.

Record commit_ok (d : DB) (i : CommitInput) (g : RiskGrant) (s : TradingSession) (b : BrokerConnection) : Prop := {
  ck_grant : grants d !! ci_grantId i = Some g;
  ck_owner : g_userId g = ci_userId i;
  ck_active : g_status g = G_ACTIVE;
  ck_live : now d < g_expiresAt g;
  ck_generation : current_generation (ci_userId i) d = g_authorityGeneration g;
  ck_policy : exists p, policyRevision d = Some p /\ unchanged (g_tradingPolicyRevision g) (sh_revision p);
  ck_provider : exists p, providerRevision d = Some p /\ unchanged (g_providerVerificationRevision g) (sh_revision p);
  ck_control : exists r, controlRevision d = Some r /\ unchanged (g_executionControlRevision g) r;
  ck_kill_switch : forall bound r, g_killSwitchGeneration g = Some bound ->
    profileRevisions d !! ci_userId i = Some r -> r = bound;
  ck_session : sessions d !! g_sessionId g = Some s;
  ck_session_state : s_status s = Session.ACTIVE /\ s_authorityGeneration s = g_sessionGeneration g /\
    s_executionMode s = g_executionMode g;
  ck_connection : connections d !! g_brokerConnectionId g = Some b;
  ck_connected : b_userId b = ci_userId i /\ b_status b = B_CONNECTED;
  ck_credentials : unchanged (g_credentialGeneration g) (b_credentialGeneration b);
  ck_confirmation : present (ci_confirmationId i) = true ->
    exists c, confirmations d !! default "" (ci_confirmationId i) = Some c /\ c_userId c = ci_userId i /\
      c_riskGrantId c = Some (ci_grantId i) /\ c_status c = C_PENDING /\ now d < c_expiresAt c;
  ck_order : exists o, orders d !! ci_orderId i = Some o /\ o_status o = Order.SUBMITTED }.

Lemma phase_commit_grant i d :
  phase (commit_grant i) d (fun g => grants d !! ci_grantId i = Some g /\ g_userId g = ci_userId i /\
    g_status g = G_ACTIVE /\ now d < g_expiresAt g).
Proof.
  unfold commit_grant, owned_grant, grant_active. phases. cbn [fst snd].
  destruct (grants d !! _) as [g|] eqn:Hg; [case_bool_decide|]; phases; try naive_solver.
  - apply orb_false_iff in H0 as [Ha He]. guard_prop. auto.
  - intros (Hb & _ & Hs & Hl). simplify_eq. apply orb_true_iff in H0 as [Ha|He]; guard_prop; [done|lia].
Qed.

Definition authority_ok (d : DB) (i : CommitInput) (g : RiskGrant) : Prop :=
  (exists p, policyRevision d = Some p /\ unchanged (g_tradingPolicyRevision g) (sh_revision p)) /\
  (exists p, providerRevision d = Some p /\ unchanged (g_providerVerificationRevision g) (sh_revision p)) /\
  (exists r, controlRevision d = Some r /\ unchanged (g_executionControlRevision g) r) /\
  forall bound r, g_killSwitchGeneration g = Some bound -> profileRevisions d !! ci_userId i = Some r -> r = bound.

Definition revisions (d : DB) : option (Z * Z * Z) :=
  match policyRevision d, providerRevision d, controlRevision d with
  | Some p, Some q, Some r => Some (sh_revision p, sh_revision q, r)
  | _, _, _ => None
  end.

Lemma run_revisions d :
  run read_revisions d =
    (d, match revisions d with Some r => Ok r | None => Err SharedControlStateNotInitialized end).
Proof.
  unfold read_revisions, getCurrentTradingPolicyRevision, getCurrentProviderVerificationRevision,
    getCurrentExecutionControlRevision, readSingletonRevision, wrap, revisions.
  run_simpl. destruct (policyRevision d); cbn; run_simpl; [|done].
  destruct (providerRevision d); cbn; run_simpl; [|done].
  destruct (controlRevision d); cbn; by run_simpl.
Qed.

(** The authority check once the generation has been read and found unchanged. *)
Lemma commit_authority_run i g d :
  (current_generation (ci_userId i) d = g_authorityGeneration g /\ authority_ok d i g /\
     run (commit_authority i g) d = (seeded (ci_userId i) d, Ok tt)) \/
  (exists d' reason, run (commit_authority i g) d = (d', Err (FinalDispatchBlocked reason)) /\ keeps_rows d d' /\
     ~ (current_generation (ci_userId i) d = g_authorityGeneration g /\ authority_ok d i g)).
Proof.
  set (d1 := seeded (ci_userId i) d). assert (keeps_rows d d1) as Hk by apply seeded_keeps.
  assert (policyRevision d1 = policyRevision d /\ providerRevision d1 = providerRevision d /\
    controlRevision d1 = controlRevision d /\ profileRevisions d1 = profileRevisions d) as (E1 & E2 & E3 & E4)
    by (unfold d1, seeded, counter_seed; by case_match).
  match goal with |- context [run (commit_authority i g) d] => remember (commit_authority i g) as p eqn:Hp end.
  unfold commit_authority in Hp. subst p. rewrite run_bind, run_generation. fold d1.
  match goal with |- context [run ?k d1] =>
    assert (phase k d1 (fun _ => current_generation (ci_userId i) d = g_authorityGeneration g /\ authority_ok d i g))
      as Hph end.
  { apply phase_guard; intros Hc; guard_prop; [|intros _ [? _]; lia].
    unfold authority_ok. rewrite <- E1, <- E2, <- E3, <- E4.
    apply (phase_bind _ _ _ (fun r => r = match revisions d1 with Some r => Ok r
                                         | None => Err SharedControlStateNotInitialized end)).
    - left. eexists. split; [|done]. by rewrite run_attempt, run_revisions.
    - intros r ->. unfold revisions.
      destruct (policyRevision d1) as [p|] eqn:F1; [|phases; intros (_ & (? & ? & _) & _); done].
      destruct (providerRevision d1) as [q|] eqn:F2; [|phases; intros (_ & _ & (? & ? & _) & _); done].
      destruct (controlRevision d1) as [r|] eqn:F3; [|phases; intros (_ & _ & _ & (? & ? & _) & _); done].
      do 3 (apply phase_guard; intros; guard_prop; [|intros (_ & (? & ? & ?) & (? & ? & ?) & (? & ? & ?) & _); naive_solver]).
      destruct (g_killSwitchGeneration g) as [bound|]; [|by phases; naive_solver].
      phases; destruct (profileRevisions d1 !! ci_userId i) as [n|]; guard_prop; naive_solver.
    - intros Hn. by destruct (Hn _ eq_refl). }
  destruct Hph as [([] & Hr & Hg & Ha)|(d' & reason & Hr & [l ->] & Hn)]; rewrite Hr.
  - by left.
  - right. do 2 eexists. split; [done|]. split; [by destruct Hk; constructor|]. by apply (Hn tt).
Qed.

Lemma phase_commit_session i g d :
  phase (commit_session i g) d (fun s => sessions d !! g_sessionId g = Some s /\
    s_status s = Session.ACTIVE /\ s_authorityGeneration s = g_sessionGeneration g /\
    s_executionMode s = g_executionMode g).
Proof.
  unfold commit_session. phases. destruct (sessions d !! _) as [s|] eqn:Hs; [|phases; naive_solver].
  destruct (session_refusal (Some s) g) as [r|] eqn:Hr; phases.
  - intros (Heq & Hok). simplify_eq. by rewrite (proj2 (session_refusal_none a g)) in Hr.
  - split; [done|]. by apply session_refusal_none.
Qed.

Lemma phase_attempt {X B} (act : DB -> DB * result exn X) r (k : result exn X -> io B) d (P : B -> Prop) :
  act d = (d, r) -> phase (k r) d P -> phase (bind (attempt (op act)) k) d P.
Proof.
  intros Ha [(x & Hr & Hx)|(d' & e & Hr & Hx)]; [left; exists x|right; exists d', e];
    rewrite run_bind, run_attempt, run_op, Ha; done.
Qed.

Lemma phase_commit_connection i g d :
  phase (commit_connection i g) d (fun r => snd r = now d /\
    connections d !! g_brokerConnectionId g = Some (fst r) /\ b_userId (fst r) = ci_userId i /\
    b_status (fst r) = B_CONNECTED /\ unchanged (g_credentialGeneration g) (b_credentialGeneration (fst r))).
Proof.
  unfold commit_connection. eapply phase_attempt; [reflexivity|]. unfold findConnectionById.
  destruct (connections d !! _) as [b|] eqn:Hb; [case_bool_decide as Hu|]; cbn [rmap].
  - phases; guard_prop; cbn [fst snd]; try done; intros (_ & Heq & _ & ? & ?); simplify_eq; done.
  - phases. intros (_ & Heq & ? & _). by simplify_eq.
  - phases. naive_solver.
Qed.

Lemma commit_patch_checks t o o' :
  order_checks o = true -> o_status o = Order.SUBMITTED -> commit_order_patch t o = Ok o' ->
  order_checks o' = true.
Proof.
  intros Hc Hs [= <-]. unfold order_checks in *. cbn. rewrite Hs in Hc. exact Hc.
Qed.

(** The transaction: it goes through exactly when the three rows are still as the checks and
    the request need them. *)
Lemma commitment_run i g t d :
  orders_wf d -> grants d !! g_id g = Some g -> g_userId g = ci_userId i -> g_status g = G_ACTIVE ->
  t < g_expiresAt g ->
  ((present (ci_confirmationId i) = true -> exists c, confirmations d !! default "" (ci_confirmationId i) = Some c /\
      commit_confirmation_guard (ci_userId i) (g_id g) t c = true) /\
   (exists o, orders d !! ci_orderId i = Some o /\ o_status o = Order.SUBMITTED) /\
   exists d', run (commitment_body i g t) d = (d', Ok tt)) \/
  (exists e, snd (run (commitment_body i g t) d) = Err e /\
   ~ ((present (ci_confirmationId i) = true -> exists c, confirmations d !! default "" (ci_confirmationId i) = Some c /\
      commit_confirmation_guard (ci_userId i) (g_id g) t c = true) /\
     exists o, orders d !! ci_orderId i = Some o /\ o_status o = Order.SUBMITTED)).
Proof.
  intros [Hwf _] Hg Hu Ha Ht.
  assert (commit_grant_guard (ci_userId i) t g = true) as Hgg.
  { unfold commit_grant_guard, grant_active. rewrite !bool_decide_eq_true_2 by done. by apply Z.ltb_lt. }
  unfold commitment_body. run_simpl. unfold grant_update, update_row. rewrite Hg, Hgg. run_simpl. counts. run_simpl.
  set (d1 := set_grants _ d). assert (confirmations d1 = confirmations d /\ orders d1 = orders d) as [Hc1 Ho1] by done.
  clearbody d1. rewrite <- Hc1.
  destruct (run (if present _ then _ else _) d1) as [d2 [[]|e]] eqn:E2.
  - assert (orders d2 = orders d) as Ho2.
    { apply run_confirmation_cas in E2. destruct (present _); [destruct E2 as (c & _ & _ & ->)|subst d2]; done. }
    apply run_confirmation_cas in E2.
    assert (present (ci_confirmationId i) = true -> exists c, confirmations d1 !! default "" (ci_confirmationId i) = Some c /\
      commit_confirmation_guard (ci_userId i) (g_id g) t c = true) as Hconf
      by (intros Hp; rewrite Hp in E2; destruct E2 as (c & ? & ? & _); eauto).
    unfold order_update. run_simpl. unfold order_update_act. rewrite Ho2.
    destruct (orders d !! ci_orderId i) as [o|] eqn:Ho; [|right; eexists; run_simpl; split; [done|naive_solver]].
    unfold in_status. case_bool_decide as Hs; [|right; eexists; run_simpl; split; [done|naive_solver]].
    destruct (commit_order_patch (now d2) o) as [o'|] eqn:Hp; [|done].
    rewrite (commit_patch_checks _ _ _ (proj2 (Hwf _ _ Ho)) Hs Hp). run_simpl. left. split; [done|]. eauto.
  - right. exists e. split; [done|]. intros [Hconf _]. destruct (present _); [|done].
    destruct (Hconf eq_refl) as (c & Hc & Hcg). revert E2. run_simpl. unfold confirmation_update, update_row.
    rewrite Hc, Hcg. run_simpl. counts. by run_simpl.
Qed.

Definition committed_answer (i : CommitInput) (g : RiskGrant) (s : TradingSession) (b : BrokerConnection)
  : FinalDispatchAuthorization :=
  mkAuthorization (frozen_context g s b NEW_EXPOSURE (g_providerVerificationFingerprint g)) b
    (ci_confirmationId i) NEW_EXPOSURE.

Lemma commit_ok_unique d i g s b g' s' b' :
  commit_ok d i g s b -> commit_ok d i g' s' b' -> g = g' /\ s = s' /\ b = b'.
Proof.
  intros [] []. assert (g = g') as -> by congruence. split; [done|]. split; congruence.
Qed.

Lemma commit_runs i d :
  authority_wf d -> orders_wf d ->
  (exists g s b d', commit_ok d i g s b /\
     run (commitProviderDispatch i) d = (d', Ok (committed_answer i g s b)) /\
     commitment_of i (ci_grantId i) (now d) (seeded (ci_userId i) d) d') \/
  (exists d' reason, run (commitProviderDispatch i) d = (d', Err (FinalDispatchBlocked reason)) /\
     keeps_rows d d' /\ forall g s b, ~ commit_ok d i g s b).
Proof.
  intros [[Hid _] _] Hwf. unfold commitProviderDispatch.
  assert (forall d l, keeps_rows d (set_audit (audit d ++ l) d)) as Hau by done.
  destruct (phase_commit_grant i d) as [(g & Hr & Hg & Hu & Ha & Ht)|(d' & r & Hr & [l ->] & Hn)];
    rewrite run_bind, Hr.
  2:{ right. do 2 eexists. split; [done|]. split; [done|]. intros g s b []. by apply (Hn g). }
  assert (g_id g = ci_grantId i) as Hgid by by apply Hid.
  destruct (commit_authority_run i g d) as [(Hgen & Hauth & Hr2)|(d' & r & Hr2 & Hk & Hn)]; rewrite run_bind, Hr2.
  2:{ right. do 2 eexists. split; [done|]. split; [done|]. intros g' s b []. apply Hn.
      assert (g' = g) as -> by congruence. split; [done|]. done. }
  set (d1 := seeded (ci_userId i) d).
  assert (keeps_rows d d1) as Hk by apply seeded_keeps.
  assert (sessions d1 = sessions d /\ connections d1 = connections d /\ now d1 = now d) as (E1 & E2 & E3)
    by (unfold d1, seeded, counter_seed; by case_match).
  destruct (phase_commit_session i g d1) as [(s & Hr3 & Hs & Hst)|(d' & r & Hr3 & [l ->] & Hn)]; rewrite run_bind, Hr3.
  2:{ right. do 2 eexists. split; [done|]. split; [by etransitivity|]. intros g' s b []. apply (Hn s).
      assert (g' = g) as -> by congruence. by rewrite E1. }
  destruct (phase_commit_connection i g d1) as [([b t] & Hr4 & Ht4 & Hb)|(d' & r & Hr4 & [l ->] & Hn)];
    rewrite run_bind, Hr4; cbn [fst snd] in *.
  2:{ right. do 2 eexists. split; [done|]. split; [by etransitivity|]. intros g' s' b []. apply (Hn (b, now d1)).
      assert (g' = g) as -> by congruence. cbn. rewrite E2. naive_solver. }
  subst t. rewrite E3. destruct Hk as [K1 K2 K3].
  assert (orders_wf d1) as Hwf1 by (unfold orders_wf; by rewrite K3).
  pose proof (commitment_run i g (now d) d1 Hwf1) as Hrun. rewrite K1, K2, K3, Hgid in Hrun.
  specialize (Hrun Hg Hu Ha Ht). unfold commitment. rewrite run_bind, run_catch, run_transaction.
  destruct Hrun as [(Hc & Ho & d' & Hd)|(e & He & Hn)].
  - rewrite Hd. left. exists g, s, b, d'. split; [|split; [done|]].
    + destruct Hauth as (? & ? & ? & ?). destruct Hb as (? & ? & ? & ?). rewrite E1 in Hs. rewrite E2 in *.
      constructor; try done. intros Hp. destruct (Hc Hp) as (c & Hc1 & Hc2). exists c.
      unfold commit_confirmation_guard, pending in Hc2. bool_to_prop. done.
    + rewrite <- Hgid. by apply run_commitment.
  - destruct (run (commitment_body i g (now d)) d1) as [d2 r] eqn:Hd. cbn in He. subst r.
    right. do 2 eexists. split; [reflexivity|]. split; [by constructor|].
    intros g' s' b' []. apply Hn. split; [|done]. intros Hp. destruct (ck_confirmation0 Hp) as (c & ? & ? & ? & ? & ?).
    exists c. split; [done|]. unfold commit_confirmation_guard, pending. rewrite !bool_decide_eq_true_2 by done.
    by apply Z.ltb_lt.
Qed.

(** ** A sample *)

Definition sample_payload : OrderPayload :=
  mkPayload "EURUSD" "BUY" "0.1" "MARKET" None None None None None.
Definition sample_grant (mode : ExecutionMode) : RiskGrant :=
  mkGrant "g1" "u1" "sig1" "pd" "s1" 7 mode "b1" (Some 2) None None None None None None None None
    3 (Some 5) (Some 4) (Some "digest") (Some 1) (Some 1) "od" sample_payload None 0 60000 None None None G_ACTIVE.
Definition sample_session (mode : ExecutionMode) : TradingSession :=
  mkSession "s1" "u1" "b1" mode 7 Session.ACTIVE 0 None None None None None None false.
Definition sample_connection (brokerId accountType : string) : BrokerConnection :=
  mkConnection "b1" "u1" brokerId None None None accountType B_CONNECTED (Known Authorization.ACTIVE)
    (Known Authorization.VERIFIED) 2 (Some "ct") (Some "iv") (Some "tag") (Some "k1").
Definition sample_confirmation : Confirmation :=
  mkConfirmation "c1" "u1" "s1" 7 "sig1" "b1" (Some "g1") "od" "EURUSD" "BUY" "0.1" None None 90000 None None
    C_PENDING 0.
Definition sample_order : Order :=
  mkOrder "o1" "u1" "b1" None (Some "sig1") "cl" "key" None MARKET GTC "EURUSD" "BUY" 1000 None None 0 None
    Order.SUBMITTED None (Some 0) None 0 0.

Definition sample_profile (revision : Z) : RiskProfile :=
  mkProfile "rp1" "u1" false None 500 1000 40000 500 None 85 true true None 200 30 PAPER_ONLY revision.

Definition boundary_db (mode : ExecutionMode) (brokerId accountType : string) : DB :=
  mkDB 1000 {["o1" := sample_order]} {["g1" := sample_grant mode]} {["c1" := sample_confirmation]}
    {["s1" := sample_session mode]} {["b1" := sample_connection brokerId accountType]}
    {["u1" := 3]} (Some (mkShared 1 "p")) (Some (mkShared 1 "v")) (Some 4) [] ∅ ∅ {["u1" := sample_profile 5]} ∅ ∅ ∅ ∅ ∅ ∅ ∅ ∅ ∅ [] [].

Lemma singleton_indexed {R K} (rid : R -> string) live (slot : R -> K) (r : R) :
  indexed rid live slot {[rid r := r]}.
Proof.
  split.
  - by intros id x [<- <-]%lookup_singleton_Some.
  - by intros i j x y [<- _]%lookup_singleton_Some [<- _]%lookup_singleton_Some.
Qed.

Lemma boundary_db_wf mode id t : authority_wf (boundary_db mode id t) /\ orders_wf (boundary_db mode id t).
Proof.
  split; [split; [apply (singleton_indexed g_id _ _ (sample_grant mode))|apply (singleton_indexed c_id _ _ sample_confirmation)]|].
  split; cbn.
  - intros i o [<- <-]%lookup_singleton_Some. done.
  - by intros i j x y [<- _]%lookup_singleton_Some [<- _]%lookup_singleton_Some.
Qed.

(** ** Properties *)

Section properties.
Context (sha256 : chars -> string) (date_parses : chars -> bool)
        (catalog : list Live.BrokerDefinition) (isSupported : string -> bool).

Abbreviation calls cs := (run_bcall sha256 date_parses catalog isSupported <$> cs).
Abbreviation authorize' := (authorize sha256 date_parses catalog isSupported).

(** exactly one dispatch per grant.  Whatever dispatch commitments, authorizations, grant
    calls and authority calls run together, under any interleaving and any lost statements or
    acknowledgements, at most one of them reports a dispatch or a consumption under a given
    grant; when one does, the grant was not consumed at the start and is at the end. *)
Theorem one_dispatch_per_grant key cs sched d :
  let c := exec DbUnavailable sched (d, calls cs) in
  (forall i j, winner (dispatches key) c i -> winner (dispatches key) c j -> i = j) /\
  (forall i, winner (dispatches key) c i -> spent key d = false /\ spent key (fst c) = true).
Proof.
  apply (one_shot DbUnavailable (spent key) (dispatches key) sched (d, calls cs)); cbn [snd].
  - apply Forall_fmap, Forall_true. intros c. apply guar_stays.
  - apply Forall_fmap, Forall_true. intros c. apply needs_bcall.
Qed.

(** no order is committed to dispatch without a grant of its own.  Under any interleaving
    and any lost statements or acknowledgements, the orders that became [DISPATCH_COMMITTED]
    are no more than the grants that became [CONSUMED]; grants and confirmations only
    evolve towards their terminal states, and the order table keeps its constraints and its
    lifecycle. *)
Theorem dispatch_accounting cs sched d :
  advances d (fst (exec DbUnavailable sched (d, calls cs))).
Proof. apply (exec_guar DbUnavailable advances sched (d, calls cs)), guar_bcalls. Qed.

(** C6: a commitment alone is exact and atomic.  On a well-formed store it goes through exactly
    when the grant, the generation, the three revisions, the kill switch, the session, the
    connection, the confirmation and the order are all as required; it then consumes the
    grant and the confirmation and moves the order to [DISPATCH_COMMITTED], and nothing else
    but the seeded generation changes.  Otherwise the refusal is typed, and no grant, no
    confirmation and no order changes. *)
Theorem commit_exact i d :
  authority_wf d -> orders_wf d ->
  (exists g s b d', commit_ok d i g s b /\
     run (commitProviderDispatch i) d = (d', Ok (committed_answer i g s b)) /\
     commitment_of i (ci_grantId i) (now d) (seeded (ci_userId i) d) d') \/
  (exists d' reason, run (commitProviderDispatch i) d = (d', Err (FinalDispatchBlocked reason)) /\
     keeps_rows d d' /\ forall g s b, ~ commit_ok d i g s b).
Proof. apply commit_runs. Qed.

(** C25: an authorization alone is exact, typed and read-only.  It answers exactly when every
    authority fact holds of the current store, with the context those facts determine; it
    otherwise refuses with a typed reason.  Either way only the audit log changes. *)
Theorem authorize_exact input d :
  (exists oc g s b fp, authorized sha256 date_parses catalog isSupported d input oc g s b fp /\
     run (authorize' false input) d = (set_audit (audit d ++ [dispatch_audit input g]) d, Ok (answer input oc g s b fp))) \/
  (exists d' reason, run (authorize' false input) d = (d', Err (FinalDispatchBlocked reason)) /\ audited d d' /\
     forall oc g s b fp, ~ authorized sha256 date_parses catalog isSupported d input oc g s b fp).
Proof. apply authorize_runs. Qed.

Lemma authorize_some input d d' a :
  run (authorize' false input) d = (d', Ok a) ->
  exists oc g s b fp, authorized sha256 date_parses catalog isSupported d input oc g s b fp /\ a = answer input oc g s b fp.
Proof.
  intros Hr. destruct (authorize_runs sha256 date_parses catalog isSupported input d)
    as [(oc & g & s & b & fp & Ha & Hr')|(d2 & r & Hr' & _)]; rewrite Hr in Hr'; [|done].
  injection Hr' as _ ->. eauto 7.
Qed.

(** the execution mode rules new exposure.  An exposure-increasing authorization of a
    SEMI_AUTO session comes from the user and carries a pending, unexpired confirmation of
    exactly the grant's signal, payload, session and connection; in a PAPER_ONLY session it
    is for the paper broker; and no emergency control in force blocks it. *)
Theorem modes_enforced input d d' a :
  run (authorize' false input) d = (d', Ok a) -> increases input = true ->
  match x_executionMode (fa_context a) with
  | SEMI_AUTO => fi_origin input = USER_CONFIRMATION /\
      exists c, fa_confirmationId a = Some (c_id c) /\
        confirmations d !! default "" (fi_confirmationId input) = Some c /\ c_status c = C_PENDING /\
        now d < c_expiresAt c /\ c_signalId c = x_signalId (fa_context a) /\
        c_orderPayloadDigest c = x_validatedOrderDigest (fa_context a) /\
        c_sessionId c = x_sessionId (fa_context a) /\ c_brokerConnectionId c = x_brokerConnectionId (fa_context a)
  | PAPER_ONLY => b_brokerId (fa_connection a) = PAPER_BROKER_ID
  | FULL_AUTO => True
  end /\ controls_ok d input (fa_connection a).
Proof.
  intros (oc & g & s & b & fp & [Hc _ _ _ Hm _ Hk] & ->)%authorize_some Hinc. split; [|by apply Hk].
  specialize (Hm Hinc). unfold mode_ok in Hm. cbn. destruct (s_executionMode s); try done.
  destruct Hm as (Ho & c & -> & Hb & Ht). split; [done|]. exists c.
  destruct Hc as (_ & Hc & _ & Hs). unfold confirmation_binds in Hb. bool_to_prop. done.
Qed.

Lemma ctrader_unverified ident :
  Live.connectionLiveVerificationStatus "ctrader" ident Live.LIVE
    (ctraderFamilyLiveEvidence date_parses Live.BROKER_CATALOG isSupported) = Live.UNVERIFIED.
Proof. done. Qed.

Lemma shipped_not_live b :
  le_eligible (evaluateCurrentLiveVerification sha256 date_parses Live.BROKER_CATALOG isSupported b) = false.
Proof.
  unfold evaluateCurrentLiveVerification. case_bool_decide; cbn [le_eligible]; [by rewrite ctrader_unverified|].
  apply shipped_not_eligible.
Qed.

(** as shipped, no new exposure reaches a LIVE account.  With the shipped catalog, whatever
    adapters are registered, no exposure-increasing authorization is ever given for a
    connection to a LIVE account. *)
Theorem live_dispatch_closed input d d' a :
  run (authorize sha256 date_parses Live.BROKER_CATALOG isSupported false input) d = (d', Ok a) ->
  increases input = true -> b_accountType (fa_connection a) <> "LIVE".
Proof.
  intros Hr Hinc. destruct (authorize_runs sha256 date_parses Live.BROKER_CATALOG isSupported input d)
    as [(oc & g & s & b & fp & [_ _ _ _ _ Hl _] & Hr')|(d2 & r & Hr' & _)]; rewrite Hr in Hr'; [|done].
  injection Hr' as _ ->. cbn. intros Ha. unfold live_ok in Hl. rewrite Hinc, Ha in Hl.
  destruct Hl as [Hl _]. by rewrite shipped_not_live in Hl.
Qed.

(** an authority change just before the commitment does not stop it.  The authority facts
    are checked before the transaction, not in it: a bump of the user's generation that
    completes between the last check and the transaction leaves the order
    [DISPATCH_COMMITTED] under a grant of the previous generation. *)
Theorem late_bump_still_dispatches :
  let i := mkCommit "u1" "g1" None "o1" PIPELINE in
  let c := exec DbUnavailable
             (replicate 8 (0, Exec) ++ replicate 3 (1, Exec) ++ [(0, Exec)])%nat
             (boundary_db FULL_AUTO "paper-broker" "DEMO",
              calls [BCommit i; BAuthority (ABump "u1" "KILL_SWITCH_TOGGLED")]) in
  snd c = [Ret (Some "g1"); Ret None] /\
  generations (fst c) !! "u1" = Some 4 /\
  (o_status <$> orders (fst c) !! "o1") = Some Order.DISPATCH_COMMITTED /\
  (g_authorityGeneration <$> grants (fst c) !! "g1") = Some 3.
Proof. vm_compute. done. Qed.
End properties.

(** for the cTrader family the boundary is weaker than the connection gate.  A legacy
    operator attestation of a branded entry makes its connections LIVE-eligible at the
    boundary, with or without a registered adapter, while the registry's eligibility, which
    the connection gate requires, stays closed. *)
Theorem legacy_attestation_eligible sha256 date_parses isSupported v b :
  Live.v_status v = Live.VERIFIED -> Live.v_certifiedVia v <> Some Live.HARNESS_CERTIFIED ->
  b_brokerId b = "pepperstone-ctrader" -> b_providerBrokerIdentity b = Some "pepperstone" ->
  let catalog := [Live.mkDefinition "pepperstone-ctrader" (Some "ctrader") Live.BETA (Some v) Live.ctrader_capabilities [Live.DEMO; Live.LIVE]] in
  le_eligible (evaluateCurrentLiveVerification sha256 date_parses catalog isSupported b) = true /\
  Live.isProductionLiveEligible date_parses catalog isSupported "pepperstone-ctrader" = false.
Proof.
  intros Hv Hc Hb Hi. cbv zeta. split.
  - unfold evaluateCurrentLiveVerification. rewrite Hb, Hi. destruct v as [st ????]. cbn in Hv. subst st. reflexivity.
  - unfold Live.isProductionLiveEligible, Live.getEntry. cbn [map Live.getCatalog List.find Live.e_id Live.registry_entry Live.d_id].
    rewrite bool_decide_eq_true_2 by done. cbn [Live.e_certificationState Live.e_adapterAvailable Live.registry_entry
      Live.d_productionLiveVerification].
    unfold Live.deriveProviderCertificationState. rewrite (bool_decide_eq_true_2 _ Hv), (bool_decide_eq_false_2 _ Hc).
    cbn [negb]. by rewrite andb_comm.
Qed.

Lemma legacy_attestation_eligible_witness :
  let v := Live.mkVerification Live.VERIFIED None None (Some Live.LEGACY_ATTESTATION) None in
  let b := mkConnection "b1" "u1" "pepperstone-ctrader" None None (Some "pepperstone") "LIVE" B_CONNECTED
             (Known Authorization.ACTIVE) (Known Authorization.VERIFIED) 2 None None None None in
  le_eligible (evaluateCurrentLiveVerification string_of (fun _ => true)
     [Live.mkDefinition "pepperstone-ctrader" (Some "ctrader") Live.BETA (Some v) Live.ctrader_capabilities [Live.DEMO; Live.LIVE]] (fun _ => false) b) = true.
Proof.
  intros v b. exact (proj1 (legacy_attestation_eligible string_of (fun _ => true) (fun _ => false) v b
    eq_refl ltac:(discriminate) eq_refl eq_refl)).
Defined.

Lemma commit_exact_witness :
  let i := mkCommit "u1" "g1" (Some "c1") "o1" USER_CONFIRMATION in
  let d := boundary_db SEMI_AUTO "oanda" "DEMO" in
  exists g s b d', commit_ok d i g s b /\ run (commitProviderDispatch i) d = (d', Ok (committed_answer i g s b)) /\
    commitment_of i "g1" 1000 d d'.
Proof.
  intros i d. destruct (boundary_db_wf SEMI_AUTO "oanda" "DEMO") as [H1 H2].
  destruct (commit_exact i d H1 H2) as [(g & s & b & d' & Hok & Hr & Hc)|(d' & r & Hr & _)].
  - exists g, s, b, d'. split; [exact Hok|]. split; [exact Hr|exact Hc].
  - vm_compute in Hr. discriminate Hr.
Defined.

Lemma modes_enforced_witness :
  let input := mkInput "u1" None (Some "c1") USER_CONFIRMATION None in
  let d := boundary_db SEMI_AUTO "oanda" "DEMO" in
  let r := run (authorize string_of (fun _ => true) Live.BROKER_CATALOG (fun _ => true) false input) d in
  exists a, snd r = Ok a /\ controls_ok d input (fa_connection a).
Proof.
  intros input d r.
  assert (exists a, r = (fst r, Ok a)) as [a Ha] by (vm_compute; eexists; reflexivity).
  exists a. split; [rewrite Ha; reflexivity|].
  exact (proj2 (modes_enforced string_of (fun _ => true) Live.BROKER_CATALOG (fun _ => true) input d (fst r) a Ha eq_refl)).
Defined.

Lemma live_dispatch_closed_witness :
  let input := mkInput "u1" (Some "g1") None PIPELINE None in
  let d := boundary_db FULL_AUTO "metatrader5" "DEMO" in
  let r := run (authorize string_of (fun _ => true) Live.BROKER_CATALOG (fun _ => true) false input) d in
  exists a, snd r = Ok a /\ b_accountType (fa_connection a) <> "LIVE".
Proof.
  intros input d r.
  assert (exists a, r = (fst r, Ok a)) as [a Ha] by (vm_compute; eexists; reflexivity).
  exists a. split; [rewrite Ha; reflexivity|].
  exact (live_dispatch_closed string_of (fun _ => true) (fun _ => true) input d (fst r) a Ha eq_refl).
Defined.
