(* ===== verification/JsMap.v ===== *)
(** * Insertion-ordered maps

    [Map<string, V>] of JavaScript: [set] overwrites in place or appends, [delete] removes,
    iteration is in insertion order.  The in-memory state of the services (adapter sessions,
    dispatch chains) is kept in such maps. *)

From S2P Require Import Prelude.

Section jsmap.
Context {V : Type}.

Definition jsmap : Type := list (string * V).

Fixpoint jget (k : string) (m : jsmap) : option V :=
  match m with
  | [] => None
  | (k', v) :: m => if bool_decide (k' = k) then Some v else jget k m
  end.

Fixpoint jset (k : string) (v : V) (m : jsmap) : jsmap :=
  match m with
  | [] => [(k, v)]
  | (k', v') :: m => if bool_decide (k' = k) then (k, v) :: m else (k', v') :: jset k v m
  end.

Definition jdelete (k : string) (m : jsmap) : jsmap :=
  List.filter (fun e => negb (bool_decide (e.1 = k))) m.

Definition jhas (k : string) (m : jsmap) : bool := bool_decide (is_Some (jget k m)).

Lemma jget_set_eq k v m : jget k (jset k v m) = Some v.
Proof.
  induction m as [|[k' v'] m IH]; simpl; [by rewrite bool_decide_eq_true_2|].
  case_bool_decide; simpl; [by rewrite bool_decide_eq_true_2|]. by rewrite bool_decide_eq_false_2.
Qed.

Lemma jget_set_ne k k' v m : k <> k' -> jget k' (jset k v m) = jget k' m.
Proof.
  intros Hne. induction m as [|[x v'] m IH]; simpl; [by rewrite bool_decide_eq_false_2|].
  case_bool_decide as Hx; simpl; [|by rewrite IH]. subst x. by rewrite !bool_decide_eq_false_2.
Qed.

Lemma jget_delete_eq k m : jget k (jdelete k m) = None.
Proof.
  induction m as [|[x v] m IH]; [done|]. simpl. destruct (decide (x = k)) as [->|Hx].
  - by rewrite bool_decide_eq_true_2.
  - rewrite bool_decide_eq_false_2 by done. simpl. by rewrite bool_decide_eq_false_2.
Qed.

Lemma jget_delete_ne k k' m : k <> k' -> jget k' (jdelete k m) = jget k' m.
Proof.
  intros Hne. induction m as [|[x v] m IH]; [done|]. simpl. destruct (decide (x = k)) as [->|Hx].
  - rewrite bool_decide_eq_true_2 by done. simpl. by rewrite IH, bool_decide_eq_false_2.
  - rewrite bool_decide_eq_false_2 by done. simpl. by rewrite IH.
Qed.

Lemma jget_delete k k' m : jget k' (jdelete k m) = if bool_decide (k = k') then None else jget k' m.
Proof. case_bool_decide; [subst; apply jget_delete_eq|by apply jget_delete_ne]. Qed.

Lemma jget_set k k' v m : jget k' (jset k v m) = if bool_decide (k = k') then Some v else jget k' m.
Proof. case_bool_decide; [subst; apply jget_set_eq|by apply jget_set_ne]. Qed.

(** An empty map is one that answers nothing. *)
Lemma jget_nil m : (forall k, jget k m = None) -> m = [].
Proof.
  destruct m as [|[k v] m]; [done|]. intros Hn. specialize (Hn k). simpl in Hn.
  by rewrite bool_decide_eq_true_2 in Hn.
Qed.
End jsmap.

Arguments jsmap V : clear implicits.
