(* ===== verification/AdapterRegistry.v ===== *)
(** * Adapter sessions ([broker/adapters/broker-adapter.registry.ts])

    [BrokerAdapterRegistry]: the registered providers, their aliases and the mutable adapter
    context of each persisted connection.  An adapter object is an identity [A]; what it
    answers as its [brokerId] is [adapterBrokerId]; a factory constructs an adapter from the
    providers' own state [P].  The names and DEMO flags of the summaries are left out. *)

From S2P Require Import Prelude JsMap Store.

Section registry.
Context {A P : Type} `{!EqDecision A} (adapterBrokerId : A -> string).

Definition BrokerAdapterFactory : Type := string -> option string -> P -> P * A.

Record BrokerAdapterRegistration := mkRegistration {
  rg_adapter : A; rg_factory : option BrokerAdapterFactory }.

Record BrokerAdapterSession := mkAdapterSession { as_brokerId : string; as_adapter : A }.

Record Registry := mkRegistry {
  registrations : jsmap BrokerAdapterRegistration;
  aliases : jsmap string;
  connectionSessions : jsmap BrokerAdapterSession;
  isolatedAdapterInstances : list A }.

Definition empty_registry : Registry := mkRegistry [] [] [] [].

Definition resolveCanonicalBrokerId (brokerId : string) (r : Registry) : string :=
  default brokerId (jget brokerId (aliases r)).

Definition getRegistration (brokerId : string) (r : Registry) : result exn BrokerAdapterRegistration :=
  match jget (resolveCanonicalBrokerId brokerId r) (registrations r) with
  | Some g => Ok g
  | None => Err (NotFoundException "No broker adapter registered")
  end.

Definition register (adapter : A) (factory : option BrokerAdapterFactory) (r : Registry) : Registry :=
  mkRegistry (jset (adapterBrokerId adapter) (mkRegistration adapter factory) (registrations r))
    (jdelete (adapterBrokerId adapter) (aliases r)) (connectionSessions r) (isolatedAdapterInstances r).

(** The target of an alias: a broker id or the registered root adapter. *)
Definition alias_target : Type := string + A.

Definition registerBrokerAlias (aliasBrokerId : string) (target : alias_target) (r : Registry)
  : Registry * result exn unit :=
  let targetBrokerId := match target with inl id => id | inr a => adapterBrokerId a end in
  let canonicalBrokerId := resolveCanonicalBrokerId targetBrokerId r in
  match jget canonicalBrokerId (registrations r) with
  | None => (r, Err (NotFoundException "Cannot register broker alias"))
  | Some registration =>
      if match target with inl _ => false | inr a => negb (bool_decide (rg_adapter registration = a)) end
      then (r, Err (ConflictException "adapter identity does not match canonical provider"))
      else if bool_decide (aliasBrokerId = "")
      then (r, Err (ConflictException "Broker alias requires a non-empty broker id"))
      else if bool_decide (aliasBrokerId = canonicalBrokerId) then (r, Ok tt)
      else if jhas aliasBrokerId (registrations r)
      then (r, Err (ConflictException "a primary adapter already uses that id"))
      else
        (* [existing && ..]: the empty string is falsy *)
        if match jget aliasBrokerId (aliases r) with
           | Some existing => negb (bool_decide (existing = "")) && negb (bool_decide (existing = canonicalBrokerId))
           | None => false
           end
        then (r, Err (ConflictException "already bound to another canonical provider"))
        else (mkRegistry (registrations r) (jset aliasBrokerId canonicalBrokerId (aliases r))
                (connectionSessions r) (isolatedAdapterInstances r), Ok tt)
  end.

Definition getAdapter (brokerId : string) (r : Registry) : result exn A :=
  rmap rg_adapter (getRegistration brokerId r).

Definition instantiate (brokerId : string) (connectionId : option string) (r : Registry) (p : P)
  : Registry * P * result exn A :=
  match getRegistration brokerId r with
  | Err e => (r, p, Err e)
  | Ok registration =>
      match rg_factory registration with
      | None => (r, p, Err (ConflictException "no connection-isolation factory"))
      | Some factory =>
          let '(p', adapter) := factory brokerId connectionId p in
          if bool_decide (adapter = rg_adapter registration)
          then (r, p', Err (ConflictException "returned its metadata/root singleton"))
          else if negb (bool_decide (adapterBrokerId adapter = adapterBrokerId (rg_adapter registration)))
          then (r, p', Err (ConflictException "returned another provider"))
          else if bool_decide (adapter ∈ isolatedAdapterInstances r)
          then (r, p', Err (ConflictException "reused a previously-created adapter instance"))
          else (mkRegistry (registrations r) (aliases r) (connectionSessions r)
                  (adapter :: isolatedAdapterInstances r), p', Ok adapter)
      end
  end.

Definition createEphemeralAdapter (brokerId : string) (r : Registry) (p : P) : Registry * P * result exn A :=
  instantiate brokerId None r p.

Definition getAdapterForConnection (connectionId brokerId : string) (r : Registry) (p : P)
  : Registry * P * result exn A :=
  if bool_decide (connectionId = "")
  then (r, p, Err (ConflictException "Broker adapter session requires a connection id"))
  else
    match jget connectionId (connectionSessions r) with
    | Some existing =>
        if negb (bool_decide (as_brokerId existing = brokerId))
        then (r, p, Err (ConflictException "refusing cross-provider session reuse"))
        else (r, p, Ok (as_adapter existing))
    | None =>
        match instantiate brokerId (Some connectionId) r p with
        | (r', p', Ok adapter) =>
            (mkRegistry (registrations r') (aliases r')
               (jset connectionId (mkAdapterSession brokerId adapter) (connectionSessions r'))
               (isolatedAdapterInstances r'), p', Ok adapter)
        | (r', p', Err e) => (r', p', Err e)
        end
    end.

Definition releaseAdapterForConnection (connectionId : string) (r : Registry) : Registry :=
  mkRegistry (registrations r) (aliases r) (jdelete connectionId (connectionSessions r)) (isolatedAdapterInstances r).

Definition getSupportedBrokerIds (r : Registry) : list string := (registrations r).*1 ++ (aliases r).*1.

Definition isSupported (brokerId : string) (r : Registry) : bool :=
  jhas brokerId (registrations r) || jhas brokerId (aliases r).

Definition getActiveConnectionSessionCount (r : Registry) : nat := length (connectionSessions r).

(** ** Uses of the registry *)

Inductive rcall :=
| RRegister (adapter : A) (factory : option BrokerAdapterFactory)
| RAlias (aliasBrokerId : string) (target : alias_target)
| REphemeral (brokerId : string)
| RConnection (connectionId brokerId : string)
| RRelease (connectionId : string).

(** A call, and the adapter it hands out, if any. *)
Definition run_rcall (c : rcall) (s : Registry * P) : (Registry * P) * option A :=
  let '(r, p) := s in
  match c with
  | RRegister a f => ((register a f r, p), None)
  | RAlias al t => ((fst (registerBrokerAlias al t r), p), None)
  | REphemeral b => let '(r', p', a) := createEphemeralAdapter b r p in ((r', p'), ok_opt a)
  | RConnection c b => let '(r', p', a) := getAdapterForConnection c b r p in ((r', p'), ok_opt a)
  | RRelease c => ((releaseAdapterForConnection c r, p), None)
  end.

Fixpoint run_rcalls (cs : list rcall) (s : Registry * P) : Registry * P :=
  match cs with [] => s | c :: cs => run_rcalls cs (fst (run_rcall c s)) end.

(** ** Isolation *)

Record registry_wf (r : Registry) : Prop := {
  rw_issued : forall c s, jget c (connectionSessions r) = Some s -> as_adapter s ∈ isolatedAdapterInstances r;
  rw_private : forall c1 c2 s1 s2, jget c1 (connectionSessions r) = Some s1 ->
    jget c2 (connectionSessions r) = Some s2 -> as_adapter s1 = as_adapter s2 -> c1 = c2;
  rw_root : forall b g, jget b (registrations r) = Some g -> adapterBrokerId (rg_adapter g) = b }.

Lemma empty_registry_wf : registry_wf empty_registry.
Proof. by split. Qed.

Lemma instantiate_cases brokerId c r p r' p' a :
  instantiate brokerId c r p = (r', p', a) ->
  (r' = r /\ is_ok a = false) \/
  exists x g, a = Ok x /\ (x ∉ isolatedAdapterInstances r) /\ getRegistration brokerId r = Ok g /\
    adapterBrokerId x = adapterBrokerId (rg_adapter g) /\
    r' = mkRegistry (registrations r) (aliases r) (connectionSessions r) (x :: isolatedAdapterInstances r).
Proof.
  unfold instantiate. destruct (getRegistration brokerId r) as [g|e] eqn:Hg; [|intros [= <- <- <-]; by left].
  destruct (rg_factory g) as [f|]; [|intros [= <- <- <-]; by left].
  destruct (f brokerId c p) as [q x].
  repeat case_bool_decide; cbn [negb]; intros [= <- <- <-]; try (by left). right. eauto 8.
Qed.

(** The registry's own errors. *)
Definition registry_error (e : exn) : bool :=
  match e with NotFoundException _ | ConflictException _ => true | _ => false end.

Lemma connection_errors connectionId brokerId r p r' p' e :
  getAdapterForConnection connectionId brokerId r p = (r', p', Err e) -> registry_error e = true.
Proof.
  unfold getAdapterForConnection, instantiate, getRegistration. intros H.
  repeat (case_match; simplify_eq/=; try done).
Qed.

Lemma instantiate_wf brokerId c r p r' p' a :
  instantiate brokerId c r p = (r', p', a) -> registry_wf r -> registry_wf r'.
Proof.
  intros [[-> _]|(x & g & -> & Hx & _ & _ & ->)]%instantiate_cases; [done|]. intros [Hi Hp Hr].
  split; cbn; [|done..]. intros k s Hs. right. by eapply Hi.
Qed.

Lemma connection_wf connectionId brokerId r p r' p' a :
  getAdapterForConnection connectionId brokerId r p = (r', p', a) -> registry_wf r -> registry_wf r'.
Proof.
  unfold getAdapterForConnection. case_bool_decide; [by intros [= <- <- <-]|].
  destruct (jget connectionId _) as [s|] eqn:Hs.
  { case_bool_decide; cbn [negb]; by intros [= <- <- <-]. }
  destruct (instantiate _ _ r p) as [[r1 p1] [x|e]] eqn:Hi;
    intros [= <- <- <-] Hwf; pose proof (instantiate_wf _ _ _ _ _ _ _ Hi Hwf) as Hwf1; [|done].
  apply instantiate_cases in Hi as [[_ ?]|(y & g & [= <-] & Hx & _ & _ & ->)]; [done|].
  destruct Hwf as [Hiss Hpriv Hroot]. split; cbn in *; [| |done].
  - intros k t. rewrite jget_set. case_bool_decide; [intros [= <-]; cbn; left|]. intros Ht. right. by eapply Hiss.
  - assert (forall k t, jget k (connectionSessions r) = Some t -> as_adapter t <> x) as Hold
      by (intros k t Ht <-; by apply Hx, (Hiss k)).
    intros k1 k2 t1 t2. rewrite !jget_set.
    case_bool_decide as E1; case_bool_decide as E2; intros H1 H2 He; simplify_eq/=; eauto.
    + by destruct (Hold k2 t2 H2).
    + by destruct (Hold k1 t1 H1).
Qed.

Lemma rcall_wf c s : registry_wf (fst s) -> registry_wf (fst (fst (run_rcall c s))).
Proof.
  destruct s as [r p]. intros Hwf. destruct c as [ad f|al t|b|cid b|cid]; cbn [run_rcall fst snd].
  - destruct Hwf as [Hi Hp Hr]. split; [done..|]. cbn. intros b g. rewrite jget_set.
    case_bool_decide; [intros [= <-]; done|apply Hr].
  - destruct Hwf as [Hi Hp Hr]. unfold registerBrokerAlias. cbv zeta. repeat case_match; by split.
  - unfold createEphemeralAdapter. destruct (instantiate _ _ _ _) as [[r' p'] a] eqn:E. cbn.
    by eapply instantiate_wf.
  - destruct (getAdapterForConnection _ _ _ _) as [[r' p'] a] eqn:E. cbn. by eapply connection_wf.
  - destruct Hwf as [Hi Hp Hr]. split; cbn; [| |done].
    + intros k t. rewrite jget_delete. case_bool_decide; [done|apply Hi].
    + intros k1 k2 t1 t2. rewrite !jget_delete. case_bool_decide; [done|]. case_bool_decide; [done|apply Hp].
Qed.

Lemma rcalls_wf cs s : registry_wf (fst s) -> registry_wf (fst (run_rcalls cs s)).
Proof. revert s. induction cs as [|c cs IH]; intros s Hwf; [done|]. by apply IH, rcall_wf. Qed.

(** adapter contexts are private to their connection.  After any uses of the registry, and
    whatever the factories answer: two connections never hold the same adapter; an adapter
    handed out fresh, to a connection or for an ephemeral check, was never handed out before;
    asking for a connection again answers the adapter it holds, or refuses when the broker
    asked for is not the one it is bound to, and then changes nothing. *)
Theorem sessions_isolated cs p c connectionId brokerId :
  let s := run_rcalls cs (empty_registry, p) in
  (forall c1 c2 s1 s2, jget c1 (connectionSessions (fst s)) = Some s1 ->
     jget c2 (connectionSessions (fst s)) = Some s2 -> as_adapter s1 = as_adapter s2 -> c1 = c2) /\
  (forall a, snd (run_rcall c s) = Some a ->
     match c with
     | REphemeral _ => a ∉ isolatedAdapterInstances (fst s)
     | RConnection k b =>
         jget k (connectionSessions (fst s)) = Some (mkAdapterSession b a) \/ a ∉ isolatedAdapterInstances (fst s)
     | _ => False
     end) /\
  (forall held, connectionId <> "" -> jget connectionId (connectionSessions (fst s)) = Some held ->
     run_rcall (RConnection connectionId brokerId) s =
       (s, if bool_decide (as_brokerId held = brokerId) then Some (as_adapter held) else None)).
Proof.
  cbv zeta. pose proof (rcalls_wf cs (empty_registry, p) empty_registry_wf) as Hwf.
  set (s := run_rcalls cs _) in *. clearbody s. destruct s as [r q]. cbn [fst] in *. split; [apply Hwf|]. split.
  - intros a. destruct c as [ad f|al t|b|cid b|cid]; cbn [run_rcall snd]; try done.
    + unfold createEphemeralAdapter. destruct (instantiate _ _ _ _) as [[r' p'] x] eqn:E. cbn.
      apply instantiate_cases in E as [[_ ?]|(y & g & -> & Hy & _)]; [by destruct x|]. by intros [= <-].
    + unfold getAdapterForConnection. case_bool_decide; [done|].
      destruct (jget cid _) as [h|] eqn:Hh.
      { destruct h as [hb ha]. case_bool_decide as Hb; cbn in *; [|done]. intros [= <-]. left. by subst. }
      destruct (instantiate _ _ _ _) as [[r' p'] x] eqn:E.
      apply instantiate_cases in E as [[_ ?]|(y & g & -> & Hy & _)]; [by destruct x|]. cbn. intros [= <-]. by right.
  - intros held Hc Hh. cbn [run_rcall]. unfold getAdapterForConnection.
    rewrite bool_decide_eq_false_2, Hh by done. by case_bool_decide.
Qed.
End registry.

Arguments Registry : clear implicits.
Arguments BrokerAdapterFactory : clear implicits.
Arguments rcall : clear implicits.

(** A registry whose factory numbers its adapters: a connection keeps its adapter. *)
Lemma sessions_isolated_witness :
  let mk : BrokerAdapterFactory (string * Z) Z := fun b _ p => (p + 1, ("ctrader", p)) in
  let cs := [RRegister ("ctrader", 0) (Some mk); RAlias "ic" (inl "ctrader"); RConnection "c1" "ic";
             RConnection "c2" "ctrader"] in
  let s := run_rcalls (A := string * Z) fst cs (empty_registry, 1) in
  "c1" <> "" /\
  run_rcall fst (RConnection "c1" "ctrader") s = (s, None) /\
  run_rcall fst (RConnection "c1" "ic") s = (s, Some ("ctrader", 1)).
Proof.
  intros mk cs s. split; [done|].
  assert (jget "c1" (connectionSessions (fst s)) = Some (mkAdapterSession "ic" ("ctrader", 1))) as Hh by reflexivity.
  pose proof (sessions_isolated (A := string * Z) fst cs 1 (RRelease "c1") "c1") as Ht.
  split; [apply (proj2 (proj2 (Ht "ctrader")) _ ltac:(done) Hh)|apply (proj2 (proj2 (Ht "ic")) _ ltac:(done) Hh)].
Defined.
