(* ===== verification/DispatchLease.v ===== *)
(** * The per-account dispatch lease ([execution/orchestration/account-dispatch-lease.service.ts])

    [withAccountDispatchLease] chains the critical sections of one account on a promise per
    key.  A promise is modelled by what it waits for: a gate, or another promise and a gate; a
    gate is the number of the call that made it, and resolves when that call releases.  The
    event loop is a step relation: a call arrives (the code up to the first [await]), starts
    its critical section once its predecessor has resolved, and leaves it, normally or by an
    exception, through the [finally]; a resolved tail takes its entry out of the map. *)

From S2P Require Import Prelude JsMap.
Open Scope nat_scope.

(** [gate] and [predecessor.then(() => gate)]. *)
Inductive tail := Gate (g : nat) | Then (p : tail) (g : nat).

#[export] Instance tail_eq_dec : EqDecision tail.
Proof. solve_decision. Defined.

Definition gate_of (t : tail) : nat := match t with Gate g | Then _ g => g end.

Inductive phase := Waiting | Critical | Released.

#[export] Instance phase_eq_dec : EqDecision phase.
Proof. solve_decision. Defined.

(** One call of [withAccountDispatchLease]: its key, its predecessor, its own tail. *)
Record holder := mkHolder { h_key : string; h_pred : option tail; h_tail : tail; h_phase : phase }.

Record lease := mkLease { accountChains : jsmap tail; holders : list holder }.

Definition idle : lease := mkLease [] [].

Definition released (l : lease) (g : nat) : bool :=
  match holders l !! g with Some h => bool_decide (h_phase h = Released) | None => false end.

Fixpoint resolved (l : lease) (t : tail) : bool :=
  match t with Gate g => released l g | Then p g => resolved l p && released l g end.

Definition with_phase (p : phase) (h : holder) : holder := mkHolder (h_key h) (h_pred h) (h_tail h) p.

(** The call: it reads its predecessor, makes its gate, sets the chain, and enters at once
    when there was no predecessor. *)
Definition arrive (accountKey : string) (l : lease) : lease :=
  let predecessor := jget accountKey (accountChains l) in
  let gate := length (holders l) in
  let t := match predecessor with Some p => Then p gate | None => Gate gate end in
  mkLease (jset accountKey t (accountChains l))
    (holders l ++ [mkHolder accountKey predecessor t (if predecessor is Some _ then Waiting else Critical)]).

(** [if (predecessor) await predecessor; .. critical()]. *)
Definition enter (i : nat) (l : lease) : option lease :=
  match holders l !! i with
  | Some h =>
      match h_phase h, h_pred h with
      | Waiting, Some p =>
          if resolved l p then Some (mkLease (accountChains l) (<[i := with_phase Critical h]> (holders l))) else None
      | _, _ => None
      end
  | None => None
  end.

(** [finally { release() }], whatever [critical] did. *)
Definition leave (i : nat) (l : lease) : option lease :=
  match holders l !! i with
  | Some h =>
      match h_phase h with
      | Critical => Some (mkLease (accountChains l) (<[i := with_phase Released h]> (holders l)))
      | _ => None
      end
  | None => None
  end.

(** [tail.then(() => { if (accountChains.get(key) === tail) delete })]. *)
Definition drain (i : nat) (l : lease) : option lease :=
  match holders l !! i with
  | Some h =>
      if resolved l (h_tail h) && bool_decide (jget (h_key h) (accountChains l) = Some (h_tail h))
      then Some (mkLease (jdelete (h_key h) (accountChains l)) (holders l)) else None
  | None => None
  end.

Definition activeAccountKeys (l : lease) : list string := (accountChains l).*1.

(** The event loop, without and with new calls. *)
Inductive work : lease -> lease -> Prop :=
| work_enter i l l' : enter i l = Some l' -> work l l'
| work_leave i l l' : leave i l = Some l' -> work l l'
| work_drain i l l' : drain i l = Some l' -> work l l'.

Inductive step : lease -> lease -> Prop :=
| step_arrive k l : step l (arrive k l)
| step_work l l' : work l l' -> step l l'.

(** ** The invariant *)

(** The calls a tail waits for. *)
Fixpoint gates (t : tail) : list nat := match t with Gate g => [g] | Then p g => g :: gates p end.

(** Every call's tail waits for its own gate and for its predecessor's; the calls before it on
    the same key that it does not wait for were released; a call is past its [await] only when
    its predecessor has resolved; the chain of a key is the tail of a call that every
    unreleased call of the key is waited for by. *)
Record lease_wf (l : lease) : Prop := {
  lw_tail : forall i h, holders l !! i = Some h ->
    h_tail h = match h_pred h with Some p => Then p i | None => Gate i end;
  lw_pred : forall i h j h', holders l !! i = Some h -> j < i -> holders l !! j = Some h' ->
    h_key h' = h_key h -> h_phase h' = Released \/ exists p, h_pred h = Some p /\ j ∈ gates p;
  lw_old : forall i h p g, holders l !! i = Some h -> h_pred h = Some p -> g ∈ gates p ->
    g < i /\ exists h', holders l !! g = Some h' /\ h_key h' = h_key h;
  lw_phase : forall i h, holders l !! i = Some h ->
    match h_pred h with None => h_phase h <> Waiting | Some p => h_phase h <> Waiting -> resolved l p = true end;
  lw_chain : forall k t, jget k (accountChains l) = Some t ->
    exists i h, holders l !! i = Some h /\ h_tail h = t /\ h_key h = k;
  lw_last : forall i h, holders l !! i = Some h -> h_phase h = Released \/
    exists t, jget (h_key h) (accountChains l) = Some t /\ i ∈ gates t }.

Lemma idle_wf : lease_wf idle.
Proof. by split. Qed.

Lemma released_iff l g : released l g = true <-> exists h, holders l !! g = Some h /\ h_phase h = Released.
Proof.
  unfold released. destruct (holders l !! g) as [h|]; [|by split; [|intros (h & ? & _)]].
  rewrite bool_decide_eq_true. split; [eauto|]. by intros (h' & [= <-] & ?).
Qed.

Lemma resolved_iff l t : resolved l t = true <-> forall g, g ∈ gates t -> released l g = true.
Proof.
  induction t as [g|p IH g]; simpl.
  - split; [by intros H g' ->%list_elem_of_singleton|intros H; apply H; by left].
  - rewrite andb_true_iff, IH. split.
    + intros [H1 H2] g' [->|Hg]%elem_of_cons; auto.
    + intros H. split; [intros g' Hg; apply H; by right|apply H; by left].
Qed.

Lemma resolved_mono l l' t :
  (forall g, released l g = true -> released l' g = true) -> resolved l t = true -> resolved l' t = true.
Proof. intros Hm. rewrite !resolved_iff. auto. Qed.

(** The gates of a call's own tail. *)
Lemma tail_gates l i h g :
  lease_wf l -> holders l !! i = Some h -> g ∈ gates (h_tail h) <->
  g = i \/ exists p, h_pred h = Some p /\ g ∈ gates p.
Proof.
  intros Hwf Hh. rewrite (lw_tail l Hwf i h Hh). destruct (h_pred h) as [p|]; simpl.
  - rewrite elem_of_cons. naive_solver.
  - rewrite list_elem_of_singleton. naive_solver.
Qed.

Lemma tail_old l i h g :
  lease_wf l -> holders l !! i = Some h -> g ∈ gates (h_tail h) ->
  g <= i /\ exists h', holders l !! g = Some h' /\ h_key h' = h_key h.
Proof.
  intros Hwf Hh [->|(p & Hp & Hg)]%(tail_gates l i h g Hwf Hh); [eauto|].
  destruct (lw_old l Hwf i h p g Hh Hp Hg) as [? ?]. split; [lia|done].
Qed.

(** *** Preservation *)

Lemma arrive_wf k l : lease_wf l -> lease_wf (arrive k l).
Proof.
  intros Hwf. pose proof Hwf as [Ht Hp Ho Hph Hc Hl].
  assert (forall i h, holders (arrive k l) !! i = Some h -> holders l !! i = Some h \/
            (i = length (holders l) /\ h_key h = k /\ h_pred h = jget k (accountChains l) /\
             h_tail h = match jget k (accountChains l) with Some p => Then p i | None => Gate i end /\
             h_phase h = if jget k (accountChains l) is Some _ then Waiting else Critical)) as Hcase.
  { intros i h. cbn. rewrite lookup_app_Some. intros [?|[Hi Hx]]; [by left|right].
    apply list_lookup_singleton_Some in Hx as [? <-]. assert (i = length (holders l)) as -> by lia. done. }
  assert (forall i h, holders l !! i = Some h -> holders (arrive k l) !! i = Some h) as Hin
    by (intros i h Hi; cbn; by apply lookup_app_l_Some).
  assert (forall t, resolved l t = true -> resolved (arrive k l) t = true) as Hres.
  { intros t. apply resolved_mono. intros g (h & Hg & Hr)%released_iff. apply released_iff. eauto. }
  split.
  - intros i h [Hi|(-> & _ & -> & -> & _)]%Hcase; [by apply Ht|done].
  - intros i h j h' [Hi|(-> & Hk & Hpr & _)]%Hcase Hj [Hj'|(-> & _)]%Hcase Hkey; try lia.
    + by eapply Hp.
    + apply lookup_lt_Some in Hi. lia.
    + destruct (Hl j h' Hj') as [?|(t & Htl & Hg)]; [by left|right]. exists t. rewrite Hpr, <- Hk, <- Hkey. done.
  - intros i h p g [Hi|(-> & Hk & Hpr & _)]%Hcase Hpred Hg.
    + destruct (Ho i h p g Hi Hpred Hg) as (? & h' & ? & ?). eauto 6.
    + rewrite Hpr in Hpred. destruct (Hc k p Hpred) as (j & h1 & Hj & <- & <-).
      destruct (tail_old l j h1 g Hwf Hj Hg) as (? & h' & ? & ?).
      apply lookup_lt_Some in Hj. split; [lia|]. exists h'. split; [auto|congruence].
  - intros i h [Hi|(-> & _ & -> & _ & ->)]%Hcase.
    + specialize (Hph i h Hi). destruct (h_pred h); [|done]. auto.
    + by destruct (jget k (accountChains l)).
  - intros k' t. cbn. rewrite jget_set. case_bool_decide as Hk.
    + intros [= <-]. subst k'. eexists (length (holders l)), _. split; [by apply list_lookup_middle|done].
    + intros (i & h & ? & ? & ?)%Hc. eauto 6.
  - intros i h [Hi|(-> & Hk & _)]%Hcase; cbn.
    + destruct (Hl i h Hi) as [?|(t & Htl & Hg)]; [by left|right]. rewrite jget_set. case_bool_decide as Hk; [|eauto].
      rewrite Hk, Htl. eexists. split; [done|]. simpl. by right.
    + right. rewrite Hk, jget_set_eq. eexists. split; [done|]. destruct (jget k (accountChains l)); simpl; by left.
Qed.

(** A call that moves on in its own life. *)
Lemma advance_wf l i h ph :
  lease_wf l -> holders l !! i = Some h -> h_phase h <> Released -> ph <> Waiting ->
  (forall p, h_pred h = Some p -> resolved l p = true) ->
  lease_wf (mkLease (accountChains l) (<[i := with_phase ph h]> (holders l))).
Proof.
  intros [Ht Hp Ho Hph Hc Hl] Hi Hnr Hnw Hr. set (l' := mkLease _ _).
  assert (i < length (holders l)) as Hlt by by apply lookup_lt_Some in Hi.
  assert (forall j x, holders l' !! j = Some x -> exists y, holders l !! j = Some y /\ h_key x = h_key y /\
            h_pred x = h_pred y /\ h_tail x = h_tail y /\ (h_phase y = Released -> h_phase x = Released) /\
            ((j = i /\ h_phase x = ph) \/ h_phase x = h_phase y)) as Hback.
  { intros j x. cbn. destruct (decide (i = j)) as [<-|Hne].
    - rewrite list_lookup_insert_eq by done. intros [= <-]. exists h. cbn. naive_solver.
    - rewrite list_lookup_insert_ne by done. intros Hj. exists x. naive_solver. }
  assert (forall j y, holders l !! j = Some y -> exists x, holders l' !! j = Some x /\ h_key x = h_key y /\
            h_tail x = h_tail y /\ (h_phase y = Released -> h_phase x = Released)) as Hfor.
  { intros j y Hj. cbn. destruct (decide (i = j)) as [<-|Hne].
    - rewrite list_lookup_insert_eq by done. simplify_eq. eexists. split; [done|]. cbn. naive_solver.
    - rewrite list_lookup_insert_ne by done. eauto. }
  assert (forall t, resolved l t = true -> resolved l' t = true) as Hres.
  { intros t. apply resolved_mono. intros g (y & Hg & Hy)%released_iff. apply released_iff.
    destruct (Hfor g y Hg) as (x & Hx & _ & _ & Hxy). eauto. }
  split.
  - intros j x (y & Hj & _ & -> & -> & _)%Hback. by apply Ht.
  - intros j x j' x' (y & Hj & -> & -> & _)%Hback Hlt' (y' & Hj' & -> & _ & _ & Hrel & _)%Hback Hk.
    destruct (Hp j y j' y' Hj Hlt' Hj' Hk) as [?|?]; auto.
  - intros j x p g (y & Hj & -> & -> & _)%Hback Hpr Hg.
    destruct (Ho j y p g Hj Hpr Hg) as (? & y' & (x' & ? & <- & _)%Hfor & ?). eauto.
  - intros j x (y & Hj & _ & -> & _ & _ & Hcase)%Hback. specialize (Hph j y Hj).
    destruct Hcase as [[-> Hx]|Hx]; rewrite Hx.
    + simplify_eq. destruct (h_pred h); auto.
    + destruct (h_pred y); auto.
  - intros k t (j & y & Hj & Hty & Hky)%Hc. destruct (Hfor j y Hj) as (x & ? & ? & ? & _).
    exists j, x. split; [done|]. split; congruence.
  - intros j x (y & Hj & -> & _ & _ & Hrel & _)%Hback. destruct (Hl j y Hj) as [?|?]; [left; auto|by right].
Qed.

Lemma drain_wf l i h :
  lease_wf l -> holders l !! i = Some h -> resolved l (h_tail h) = true ->
  jget (h_key h) (accountChains l) = Some (h_tail h) ->
  lease_wf (mkLease (jdelete (h_key h) (accountChains l)) (holders l)).
Proof.
  intros [Ht Hp Ho Hph Hc Hl] Hi Hr Hj. split; [done..| | |].
  - intros j x Hx. specialize (Hph j x Hx). destruct (h_pred x) as [q|]; [|done].
    intros Hw. apply (resolved_mono l); auto.
  - intros k t. cbn. rewrite jget_delete. case_bool_decide; [done|apply Hc].
  - intros j x Hx. cbn in Hx |- *. destruct (Hl j x Hx) as [?|(t & Htl & Hg)]; [by left|]. rewrite jget_delete.
    case_bool_decide as Hk; [left|right; by exists t]. rewrite <- Hk, Hj in Htl. injection Htl as <-.
    rewrite resolved_iff in Hr. apply Hr, released_iff in Hg as (x' & ? & ?). by simplify_eq.
Qed.

Lemma work_wf l l' : work l l' -> lease_wf l -> lease_wf l'.
Proof.
  intros [i ? ? E|i ? ? E|i ? ? E] Hwf; revert E.
  - unfold enter. destruct (holders l0 !! i) as [h|] eqn:Hi; [|done]. destruct (h_phase h) eqn:Hp; try done.
    destruct (h_pred h) as [p|] eqn:Hpr; [|done]. destruct (resolved l0 p) eqn:Hr; [|done]. intros [= <-].
    apply advance_wf; try done; [congruence|]. intros q Hq. congruence.
  - unfold leave. destruct (holders l0 !! i) as [h|] eqn:Hi; [|done]. destruct (h_phase h) eqn:Hp; try done.
    intros [= <-]. apply advance_wf; try done; [congruence|]. intros q Hq.
    pose proof (lw_phase l0 Hwf i h Hi) as Hx. rewrite Hq in Hx. apply Hx. congruence.
  - unfold drain. destruct (holders l0 !! i) as [h|] eqn:Hi; [|done].
    destruct (resolved l0 (h_tail h)) eqn:Hr; [|done]. case_bool_decide as Hj; [|done]. intros [= <-].
    by apply (drain_wf l0 i h).
Qed.

Lemma reachable_wf l : rtc step idle l -> lease_wf l.
Proof.
  intros Hr. assert (forall a b, rtc step a b -> lease_wf a -> lease_wf b) as Hrtc; [|by apply (Hrtc idle), idle_wf].
  induction 1 as [|x y z Hs _ IH]; [done|]. intros Hwf. apply IH.
  destruct Hs as [k|a b Hw]; [by apply arrive_wf|by apply (work_wf a)].
Qed.

(** *** Progress *)

Definition phase_weight (h : holder) : nat :=
  match h_phase h with Waiting => 2 | Critical => 1 | Released => 0 end.

(** The steps the calls still have to make, and the chains to drain. *)
Definition weight (l : lease) : nat := sum_list_with phase_weight (holders l) + length (accountChains l).

Lemma sum_insert (f : holder -> nat) hs i h h' :
  hs !! i = Some h -> sum_list_with f (<[i := h']> hs) + f h = sum_list_with f hs + f h'.
Proof.
  revert i. induction hs as [|x hs IH]; intros [|i]; simpl; try done.
  - intros [= ->]. lia.
  - intros Hi. specialize (IH i Hi). lia.
Qed.

Lemma delete_shrinks {V} k (m : jsmap V) v : jget k m = Some v -> length (jdelete k m) < length m.
Proof.
  assert (forall m' : jsmap V, length (jdelete k m') <= length m') as Hle.
  { induction m' as [|[x w] m' IH]; simpl; [lia|]. case_bool_decide; simpl; lia. }
  induction m as [|[x w] m IH]; simpl; [done|]. specialize (Hle m). case_bool_decide; simpl; [lia|].
  intros ?%IH. lia.
Qed.

Lemma work_weight l l' : work l l' -> weight l' < weight l.
Proof.
  intros [i ? ? E|i ? ? E|i ? ? E]; revert E; unfold weight.
  - unfold enter. destruct (holders l0 !! i) as [h|] eqn:Hi; [|done]. destruct (h_phase h) eqn:Hp; try done.
    destruct (h_pred h); [|done]. destruct (resolved _ _); [|done]. intros [= <-]. cbn.
    pose proof (sum_insert phase_weight _ i h (with_phase Critical h) Hi) as Hs. unfold phase_weight in *.
    rewrite Hp in Hs. cbn in Hs. lia.
  - unfold leave. destruct (holders l0 !! i) as [h|] eqn:Hi; [|done]. destruct (h_phase h) eqn:Hp; try done.
    intros [= <-]. cbn. pose proof (sum_insert phase_weight _ i h (with_phase Released h) Hi) as Hs.
    unfold phase_weight in *. rewrite Hp in Hs. cbn in Hs. lia.
  - unfold drain. destruct (holders l0 !! i) as [h|] eqn:Hi; [|done]. destruct (resolved _ _); [|done].
    case_bool_decide as Hj; [|done]. intros [= <-]. cbn. apply delete_shrinks in Hj. lia.
Qed.

(** When all calls before a waiting call on its key are released, it can enter. *)
Lemma waiting_enters l i h :
  lease_wf l -> holders l !! i = Some h -> h_phase h = Waiting ->
  (forall j h', j < i -> holders l !! j = Some h' -> h_key h' = h_key h -> h_phase h' = Released) ->
  exists l', enter i l = Some l'.
Proof.
  intros Hwf Hi Hw Hprev. pose proof (lw_phase l Hwf i h Hi) as Hph.
  destruct (h_pred h) as [p|] eqn:Hp; [|by rewrite Hw in Hph].
  assert (resolved l p = true) as Hr.
  { apply resolved_iff. intros g Hg. destruct (lw_old l Hwf i h p g Hi Hp Hg) as (Hlt & h' & Hh' & Hk).
    apply released_iff. exists h'. split; [done|]. by apply (Hprev g h'). }
  unfold enter. rewrite Hi, Hw, Hp, Hr. eauto.
Qed.

Definition at_rest (l : lease) : Prop :=
  (forall i h, holders l !! i = Some h -> h_phase h = Released) /\ accountChains l = [].

Lemma stuck_at_rest l : lease_wf l -> (forall l', ~ work l l') -> at_rest l.
Proof.
  intros Hwf Hstuck.
  assert (forall i h, holders l !! i = Some h -> h_phase h = Released) as Hall.
  { intros i. induction i as [i IH] using (well_founded_induction lt_wf). intros h Hi.
    destruct (h_phase h) eqn:Hp; [exfalso|exfalso|done].
    - destruct (waiting_enters l i h Hwf Hi Hp) as [l' Hl'].
      { intros j h' Hlt Hj _. by apply (IH j Hlt). }
      apply (Hstuck l'). by apply (work_enter i).
    - apply (Hstuck (mkLease (accountChains l) (<[i := with_phase Released h]> (holders l)))).
      apply (work_leave i). unfold leave. by rewrite Hi, Hp. }
  split; [done|]. apply jget_nil. intros k. destruct (jget k (accountChains l)) as [t|] eqn:Hk; [exfalso|done].
  destruct (lw_chain l Hwf k t Hk) as (i & h & Hi & <- & <-).
  apply (Hstuck (mkLease (jdelete (h_key h) (accountChains l)) (holders l))). apply (work_drain i). unfold drain.
  rewrite Hi, bool_decide_eq_true_2 by done.
  assert (resolved l (h_tail h) = true) as ->; [|done]. apply resolved_iff. intros g Hg.
  destruct (tail_old l i h g Hwf Hi Hg) as (_ & h' & Hh' & _). apply released_iff. eauto.
Qed.

(** ** Properties *)

(** C14: critical sections of one account never overlap, and run in the order the calls were made.
    In every reachable state, when a call is in its critical section every earlier call on the
    same account has been released and no later one has entered. *)
Theorem lease_exclusive l i h :
  rtc step idle l -> holders l !! i = Some h -> h_phase h = Critical ->
  forall j h', holders l !! j = Some h' -> h_key h' = h_key h -> j <> i ->
    h_phase h' = if bool_decide (j < i) then Released else Waiting.
Proof.
  intros Hwf%reachable_wf Hi Hc j h' Hj Hk Hne.
  assert (forall a b x y, holders l !! a = Some x -> holders l !! b = Some y -> b < a -> h_key y = h_key x ->
            h_phase x <> Waiting -> h_phase y = Released) as Hord.
  { intros a b x y Ha Hb Hlt Hxy Hx. destruct (lw_pred l Hwf a x b y Ha Hlt Hb Hxy) as [?|(p & Hp & Hg)]; [done|].
    pose proof (lw_phase l Hwf a x Ha) as Hph. rewrite Hp in Hph.
    apply (proj1 (resolved_iff l p) (Hph Hx)) in Hg. apply released_iff in Hg as (y' & ? & ?). by simplify_eq. }
  case_bool_decide as Hlt.
  - apply (Hord i j h h'); [done..|congruence].
  - destruct (decide (h_phase h' = Waiting)) as [|Hw]; [done|exfalso].
    assert (h_phase h = Released) by (apply (Hord j i h' h); [done|done|lia|done|done]). congruence.
Qed.

(** C26: no call is wedged.  Whatever calls were made, whether their critical sections end normally
    or by an exception: every step other than a new call lowers a weight, so the loop runs out
    of them; and when it has, every call was released and the map is empty again.  A waiting
    call whose account's earlier calls were released can enter, whatever other accounts do. *)
Theorem lease_live l :
  rtc step idle l ->
  (forall l', work l l' -> weight l' < weight l) /\
  (forall l', rtc work l l' -> (forall l'', ~ work l' l'') -> at_rest l') /\
  (forall i h, holders l !! i = Some h -> h_phase h = Waiting ->
     (forall j h', j < i -> holders l !! j = Some h' -> h_key h' = h_key h -> h_phase h' = Released) ->
     exists l', enter i l = Some l').
Proof.
  intros Hr. pose proof (reachable_wf l Hr) as Hwf. split; [intros l'; apply work_weight|]. split.
  - intros l' Hw. apply stuck_at_rest. clear Hr. induction Hw as [|x y z Hs _ IH]; [done|].
    by apply IH, (work_wf x).
  - intros i h. by apply waiting_enters.
Qed.

(** Two calls on one account: the second waits for the first. *)
Definition two_calls : lease := arrive "a" (arrive "a" idle).

Lemma two_calls_reachable : rtc step idle two_calls.
Proof. eapply rtc_l; [apply (step_arrive "a")|]. apply rtc_once, step_arrive. Qed.

Lemma lease_exclusive_witness :
  holders two_calls !! 0 = Some (mkHolder "a" None (Gate 0) Critical) /\
  h_phase (mkHolder "a" (Some (Gate 0)) (Then (Gate 0) 1) Waiting) = Waiting.
Proof.
  split; [reflexivity|].
  apply (lease_exclusive two_calls 0 (mkHolder "a" None (Gate 0) Critical) two_calls_reachable eq_refl eq_refl
           1 (mkHolder "a" (Some (Gate 0)) (Then (Gate 0) 1) Waiting)); [reflexivity..|lia].
Defined.

Lemma lease_live_witness : rtc step idle two_calls /\ enter 1 two_calls = None /\
  forall l', rtc work two_calls l' -> (forall l'', ~ work l' l'') -> at_rest l'.
Proof.
  split; [apply two_calls_reachable|]. split; [reflexivity|].
  apply (lease_live two_calls two_calls_reachable).
Defined.
