(* ===== verification/Adapter.v ===== *)
(** * The broker adapter interface

    What the execution core relies on of a provider adapter
    ([broker/interfaces/broker-adapter.interface.ts], [broker-adapter.errors.ts]): its errors
    with their write certainty ([provider-dispatch-certainty.ts]), its order capability
    contract ([order-capability.ts]), its requests and answers, and the operations as a class;
    and the state the core runs on: the durable store, the adapter registry, the providers'
    own state, and a record of every state-changing provider call. *)

From S2P Require Import Prelude Prog JsString JsMap StateMachines Store AdapterRegistry.
From S2P Require Provider.
Import Provider.Response(BrokerOrderResult).
Open Scope string_scope.
Open Scope list_scope.
Open Scope Z_scope.

(** ** Errors *)

Inductive BrokerErrorCode :=
| AUTHENTICATION_FAILED | INSUFFICIENT_MARGIN | INVALID_INSTRUMENT | INVALID_LOT_SIZE
| INVALID_ORDER_TYPE | INVALID_PRICE | DUPLICATE_ORDER | MARKET_CLOSED | POSITION_NOT_FOUND
| CONNECTION_TIMEOUT | CONNECTION_LOST | RATE_LIMITED | BROKER_SERVER_ERROR | DECRYPTION_FAILED
| NOT_CONNECTED | AUTHORIZATION_EXPIRED | ACCOUNT_NOT_FOUND | ACCOUNT_DISABLED | INVALID_REQUEST
| ENVIRONMENT_MISMATCH | PROVIDER_UNAVAILABLE | UNKNOWN.

#[export] Instance BrokerErrorCode_eq_dec : EqDecision BrokerErrorCode.
Proof. solve_decision. Defined.

Definition RETRYABLE_BROKER_ERRORS : list BrokerErrorCode :=
  [CONNECTION_TIMEOUT; RATE_LIMITED; BROKER_SERVER_ERROR; PROVIDER_UNAVAILABLE].

Inductive ProviderDispatchCertainty := DEFINITELY_NOT_SENT | SENT_RESPONSE_RECEIVED | MAY_HAVE_REACHED_PROVIDER.

#[export] Instance ProviderDispatchCertainty_eq_dec : EqDecision ProviderDispatchCertainty.
Proof. solve_decision. Defined.

Record BrokerAdapterError := mkAdapterError {
  ae_code : BrokerErrorCode; ae_message : string; ae_brokerMessage : option string;
  ae_isRetryable : bool; ae_dispatchCertainty : option ProviderDispatchCertainty }.

Definition defaultCertaintyForCode (code : BrokerErrorCode) : ProviderDispatchCertainty :=
  match code with
  | INVALID_PRICE | INVALID_ORDER_TYPE | INVALID_LOT_SIZE | INVALID_INSTRUMENT | NOT_CONNECTED
  | DECRYPTION_FAILED | ENVIRONMENT_MISMATCH => DEFINITELY_NOT_SENT
  | CONNECTION_TIMEOUT | CONNECTION_LOST | PROVIDER_UNAVAILABLE | UNKNOWN => MAY_HAVE_REACHED_PROVIDER
  | _ => SENT_RESPONSE_RECEIVED
  end.

Definition withDefaultCertainty (error : BrokerAdapterError) : BrokerAdapterError :=
  match ae_dispatchCertainty error with
  | Some _ => error
  | None => mkAdapterError (ae_code error) (ae_message error) (ae_brokerMessage error) (ae_isRetryable error)
              (Some (defaultCertaintyForCode (ae_code error)))
  end.

Inductive OrderCapabilityViolationCode := ORDER_KIND_NOT_SUPPORTED | LIMIT_PRICE_REQUIRED | STOP_PRICE_REQUIRED.

Inductive MarketSafetyFailureCode :=
| MARKET_DATA_UNAVAILABLE | STALE_PRICE | ABNORMAL_SPREAD | PRICE_DEVIATION_EXCESSIVE.

(** What the dispatch path can throw: an exception of the platform, one of the three typed
    errors, or any other [Error]. *)
Inductive dexn :=
| Platform (e : exn)
| AdapterFailure (e : BrokerAdapterError)
| OrderCapabilityError (code : OrderCapabilityViolationCode) (brokerId : string)
| MarketSafetyError (code : MarketSafetyFailureCode)
| PlainError (message : string).

(** ** The order capability contract *)

Record OrderKindRequirement := mkRequirement { limitPriceRequired : bool; stopPriceRequired : bool }.

Record OrderCapabilityDeclaration := mkDeclaration {
  oc_brokerId : string; supportedOrderKinds : list OrderKind;
  requirements : OrderKind -> option OrderKindRequirement; marketSlTpAttachedAtPlacement : bool }.

(** A StrDecimalLiteral without sign, as mantissa and exponent: digits, an optional point, an
    optional exponent; some digit is required. *)
Definition unsigned_decimal (l : chars) : option (Z * Z) :=
  let ip := take_while is_digit l in
  let r1 := drop_while is_digit l in
  let '(fp, r2) := match r1 with
                   | "."%char :: r => (take_while is_digit r, drop_while is_digit r)
                   | _ => ([], r1)
                   end in
  match ip ++ fp with
  | [] => None
  | ds =>
      let sized e := Some (digits_val ds, e - Z.of_nat (length fp)) in
      match r2 with
      | [] => sized 0
      | c :: r3 =>
          if bool_decide (c = "e"%char) || bool_decide (c = "E"%char) then
            let '(neg, ds') := match r3 with
                               | "-"%char :: r => (true, r)
                               | "+"%char :: r => (false, r)
                               | _ => (false, r3)
                               end in
            match ds' with
            | [] => None
            | _ => if forallb is_digit ds' then sized (if neg then - digits_val ds' else digits_val ds') else None
            end
          else None
      end
  end.

(** [m * 10^e] rounds to a positive finite double: it is above half the least denormal, which
    rounds to zero, and below the midpoint past the greatest double. *)
Definition finite_positive (m e : Z) : bool :=
  let n := m * 10 ^ Z.max e 0 in let d := 10 ^ Z.max (- e) 0 in
  (d <? n * 2 ^ 1075) && (n <? d * (2 ^ 1024 - 2 ^ 970)).

(** [Number(value) > 0 && Number.isFinite(Number(value))]: white space is trimmed, a radix
    prefix reads an integer, a minus sign gives no positive number, ["Infinity"] is not
    finite. *)
Definition positive_number (value : string) : bool :=
  let l := trim (chars_of value) in
  match l with
  | "0"%char :: c :: r =>
      match radix_of c with
      | Some x => match r with [] => false | _ => match radix_val x 0 r with Some v => finite_positive v 0 | None => false end end
      | None => match unsigned_decimal l with Some (m, e) => finite_positive m e | None => false end
      end
  | "+"%char :: r => match unsigned_decimal r with Some (m, e) => finite_positive m e | None => false end
  | _ => match unsigned_decimal l with Some (m, e) => finite_positive m e | None => false end
  end.

(** A price that is [undefined] is not a string. *)
Definition isPositiveDecimalString (value : option string) : bool :=
  match value with
  | Some s => negb (bool_decide (trim (chars_of s) = [])) && positive_number s
  | None => false
  end.

Definition assertOrderWithinCapabilities (orderKind : option OrderKind) (limitPrice stopPrice : option string)
    (declaration : OrderCapabilityDeclaration) : result dexn unit :=
  let kind := default MARKET orderKind in
  if negb (bool_decide (kind ∈ supportedOrderKinds declaration))
  then Err (OrderCapabilityError ORDER_KIND_NOT_SUPPORTED (oc_brokerId declaration))
  else
    let requirement := requirements declaration kind in
    if match requirement with Some r => limitPriceRequired r | None => false end && negb (isPositiveDecimalString limitPrice)
    then Err (OrderCapabilityError LIMIT_PRICE_REQUIRED (oc_brokerId declaration))
    else if match requirement with Some r => stopPriceRequired r | None => false end && negb (isPositiveDecimalString stopPrice)
    then Err (OrderCapabilityError STOP_PRICE_REQUIRED (oc_brokerId declaration))
    else Ok tt.

(** ** Requests and answers *)

Record DecryptedBrokerCredentials := mkCredentials {
  apiKey : option string; apiSecret : option string; accountId : string; serverUrl : option string;
  additionalParams : option (jsmap string) }.

(** The fields the core reads of a [BrokerConnectionResult]. *)
Record BrokerConnectionResult := mkConnectResult { cr_success : bool; cr_accountType : string }.

(** [timestamp] is [None] when it is absent or not an instant. *)
Record BrokerPrice := mkPrice {
  q_bid : string; q_ask : string; q_spread : string; q_timestamp : option Z }.

Record BrokerOrderRequest := mkRequest {
  br_idempotencyKey : string; br_instrument : string; br_direction : string; br_lotSize : string;
  br_stopLoss : string; br_takeProfit : string; br_comment : option string;
  br_connectionReference : option string; br_orderKind : option OrderKind;
  br_timeInForce : option OrderTimeInForce; br_limitPrice : option string; br_stopPrice : option string;
  br_clientOrderId : option string; br_strategyTimeframe : option string }.

(** A state-changing provider call. *)
Inductive ProviderCall :=
| PlaceOrder (request : BrokerOrderRequest)
| CloseOrder (externalOrderId lotSize : string).

(** The operations of [IBrokerAdapter] the core calls, over adapter objects [A] and the
    providers' state [P]; [connect], [getCurrentPrice], [placeOrder] and [closeOrder] may
    throw. *)
Class BrokerAdapter (A P : Type) := {
  adapterId : A -> string;
  setMode : A -> string -> P -> P;
  isConnected : A -> P -> bool;
  connect : A -> DecryptedBrokerCredentials -> P -> P * result dexn BrokerConnectionResult;
  getCurrentPrice : A -> string -> option string -> P -> P * result dexn (option BrokerPrice);
  perform : A -> ProviderCall -> P -> P * result dexn BrokerOrderResult;
  getOrderCapabilities : A -> OrderCapabilityDeclaration }.

(** ** The state of the dispatch path *)

(** A state-changing call as it was made: the order key and the grant it is made for (known to
    the dispatch, not sent), the call, and the adapter's answer. *)
Record WireCall := mkWire {
  wc_key : string; wc_grant : option string; wc_call : ProviderCall; wc_reply : result dexn BrokerOrderResult }.

Record World (A P : Type) := mkWorld {
  w_db : DB; w_registry : Registry A P; w_provider : P; w_wire : list WireCall }.
Arguments mkWorld {A P}.
Arguments w_db {A P}.
Arguments w_registry {A P}.
Arguments w_provider {A P}.
Arguments w_wire {A P}.

Section world.
Context {A P : Type} `{!EqDecision A, !BrokerAdapter A P}.
Local Open Scope prog_scope.

Definition wio : Type -> Type := prog (World A P) dexn.

Definition put_db (d : DB) (w : World A P) : World A P := mkWorld d (w_registry w) (w_provider w) (w_wire w).
Definition unplatform (e : dexn) : exn := match e with Platform e => e | _ => DbUnavailable end.

(** A program of the platform, run on the store. *)
Definition db {X} (p : io X) : wio X := lift w_db put_db Platform unplatform p.

(** A synchronous use of the registry for the connection's adapter. *)
Definition session_act {X} (connectionId brokerId : string)
    (f : A -> World A P -> World A P * result dexn X) (w : World A P) : World A P * result dexn X :=
  match getAdapterForConnection adapterId connectionId brokerId (w_registry w) (w_provider w) with
  | (r, p, Ok a) => f a (mkWorld (w_db w) r p (w_wire w))
  | (r, p, Err e) => (mkWorld (w_db w) r p (w_wire w), Err (Platform e))
  end.

(** The providers take a step. *)
Definition on_provider {X} (f : P -> P * result dexn X) (w : World A P) : World A P * result dexn X :=
  let '(p, r) := f (w_provider w) in (mkWorld (w_db w) (w_registry w) p (w_wire w), r).

(** A state-changing call, recorded with its answer. *)
Definition call_act (a : A) (key : string) (grant : option string) (c : ProviderCall) (w : World A P)
  : World A P * result dexn BrokerOrderResult :=
  let '(p, r) := perform a c (w_provider w) in
  (mkWorld (w_db w) (w_registry w) p (w_wire w ++ [mkWire key grant c r]), r).

(** ** What a program of the dispatch path may touch *)

Lemma run_db {X} (p : io X) w :
  run (db p) w = let '(d, r) := run p (w_db w) in (put_db d w, inject Platform r).
Proof. unfold db. by rewrite run_lift; [|by intros ? []|by intros []|done..]. Qed.

Lemma guar_db {X} (R : DB -> DB -> Prop) (R' : World A P -> World A P -> Prop) (p : io X) :
  (forall d w, R (w_db w) d -> R' w (put_db d w)) -> guar R p -> guar R' (db p).
Proof. apply guar_lift. Qed.

Lemma guar_db_any {X} (R' : World A P -> World A P -> Prop) (p : io X) :
  (forall d w, R' w (put_db d w)) -> guar R' (db p).
Proof. apply guar_lift_any. Qed.

Lemma needs_db {X} spent (wins : X -> bool) (p : io X) :
  needs DbUnavailable spent wins p -> needs (Platform DbUnavailable) (fun w => spent (w_db w)) wins (db p).
Proof. apply needs_lift; [by intros ? []|done]. Qed.

(** The calls of the wire that satisfy [f]. *)
Definition calls_of (f : WireCall -> bool) (w : World A P) : Z := Z.of_nat (length (List.filter f (w_wire w))).

(** Only the store changes, or only the registry and the providers do. *)
Definition same_wire (w w' : World A P) : Prop := w_wire w' = w_wire w.
Definition same_db (w w' : World A P) : Prop := w_db w' = w_db w.

#[global] Instance same_wire_preorder : PreOrder same_wire.
Proof. split; unfold same_wire; [done|congruence]. Qed.
#[global] Instance same_db_preorder : PreOrder same_db.
Proof. split; unfold same_db; [done|congruence]. Qed.

Lemma same_wire_still f w w' : same_wire w w' -> still (calls_of f) w w'.
Proof. unfold same_wire, still, calls_of. intros ->. lia. Qed.

Lemma db_same_wire {X} (p : io X) : guar same_wire (db p).
Proof. by apply guar_db_any. Qed.

Lemma session_wire {X} cid bid (f : A -> World A P -> World A P * result dexn X) w :
  (forall a w', w_wire w' = w_wire w -> w_wire (fst (f a w')) = w_wire w') ->
  same_wire w (fst (session_act cid bid f w)).
Proof.
  intros Hf. unfold session_act, same_wire.
  destruct (getAdapterForConnection _ _ _ _ _) as [[r p] [a|e]]; [by rewrite Hf|done].
Qed.

Lemma session_db {X} cid bid (f : A -> World A P -> World A P * result dexn X) w :
  (forall a w', w_db w' = w_db w -> w_db (fst (f a w')) = w_db w') ->
  same_db w (fst (session_act cid bid f w)).
Proof.
  intros Hf. unfold session_act, same_db.
  destruct (getAdapterForConnection _ _ _ _ _) as [[r p] [a|e]]; [by rewrite Hf|done].
Qed.

Lemma provider_wire {X} (f : P -> P * result dexn X) w : same_wire w (fst (on_provider f w)).
Proof. unfold on_provider, same_wire. by destruct (f _). Qed.

Lemma provider_db {X} (f : P -> P * result dexn X) w : same_db w (fst (on_provider f w)).
Proof. unfold on_provider, same_db. by destruct (f _). Qed.

Lemma call_db a key grant c w : same_db w (fst (call_act a key grant c w)).
Proof. unfold call_act, same_db. by destruct (perform a c _). Qed.
End world.
