(* ===== verification/DecimalSpecs.v ===== *)
(** * Working with [ExactDecimal] values

    What a component uses of [Decimal]: reading and printing strings, and, for each operation
    that answered, its value as a rational.  The statements are about an answer that was given;
    the conditions under which an operation throws are in [Decimal]. *)

From S2P Require Import Prelude JsString Decimal.
From Stdlib Require Import QArith Qabs Lqa.
Open Scope Z_scope.

(** ** Strings *)

Definition parse_text (s : string) : result EDError ED := parse (InString (chars_of s)).
Definition tryParse_text (s : string) : option ED := tryParse (InString (chars_of s)).
Definition text (d : ED) : string := string_of (toString d).

Lemma parse_text_canonical s d : parse_text s = Ok d -> canonical d.
Proof.
  intros Hp. pose proof Hp as Hok. unfold parse_text in *. cbn [parse] in *.
  destruct (re_match STRICT_DECIMAL_PATTERN (chars_of s)) eqn:Hre;
    [|unfold parse_string in Hok; by rewrite Hre in Hok].
  apply strict_pattern_iff in Hre as (m & f & e & Hl). rewrite (parse_string_lit _ m f e Hl) in Hp.
  pose proof (literal_value_spec m f e) as Hs. rewrite Hp in Hs. apply Hs.
Qed.

Lemma tryParse_canonical s d : tryParse_text s = Some d -> canonical d.
Proof.
  unfold tryParse_text, tryParse. destruct (parse _) eqn:E; [|done]. intros [= <-].
  by apply (parse_text_canonical s).
Qed.

Lemma tryParse_text_text d : canonical d -> tryParse_text (text d) = Some d.
Proof.
  intros Hd. unfold tryParse_text, text, tryParse. rewrite chars_of_string_of. cbn [parse].
  rewrite parse_toString by (by apply canonical_scale). by rewrite normalize_canonical.
Qed.

(** ** Tests *)

Lemma isPositive_Q d : isPositive d = true <-> (0 < toQ d)%Q.
Proof. unfold isPositive, toQ, Qlt. simpl. rewrite Z.gtb_ltb, Z.ltb_lt. lia. Qed.

Lemma not_positive_Q d : isPositive d = false -> (toQ d <= 0)%Q.
Proof. unfold isPositive, toQ, Qle. simpl. rewrite Z.gtb_ltb, Z.ltb_ge. lia. Qed.

Lemma cmp_test_spec f a b : canonical a -> canonical b -> cmp_test f a b = Ok (f (toQ a ?= toQ b)%Q).
Proof. intros Ha Hb. unfold cmp_test. by rewrite cmp_spec. Qed.

Lemma whole_canonical z : canonical (mkED z 0).
Proof. apply canonical_iff. cbn [scale unscaled]. unfold MAX_SCALE. split; [lia|by left]. Qed.

Section tests.
Context (a b : ED) (Ha : canonical a) (Hb : canonical b).

Lemma gt_spec : exists g, gt a b = Ok g /\ if g then (toQ b < toQ a)%Q else (toQ a <= toQ b)%Q.
Proof using Ha Hb.
  unfold gt. rewrite cmp_test_spec by done. eexists. split; [done|].
  pose proof (Qle_alt (toQ a) (toQ b)). pose proof (Qgt_alt (toQ a) (toQ b)).
  destruct (toQ a ?= toQ b)%Q; intuition congruence.
Qed.

Lemma lt_spec : exists l, lt a b = Ok l /\ if l then (toQ a < toQ b)%Q else (toQ b <= toQ a)%Q.
Proof using Ha Hb.
  unfold lt. rewrite cmp_test_spec by done. eexists. split; [done|].
  pose proof (Qge_alt (toQ a) (toQ b)). pose proof (Qlt_alt (toQ a) (toQ b)).
  destruct (toQ a ?= toQ b)%Q; intuition congruence.
Qed.

Lemma lte_spec : exists l, lte a b = Ok l /\ if l then (toQ a <= toQ b)%Q else (toQ b < toQ a)%Q.
Proof using Ha Hb.
  unfold lte. rewrite cmp_test_spec by done. eexists. split; [done|].
  pose proof (Qle_alt (toQ a) (toQ b)). pose proof (Qgt_alt (toQ a) (toQ b)).
  destruct (toQ a ?= toQ b)%Q; intuition congruence.
Qed.

Lemma gte_spec : exists l, gte a b = Ok l /\ if l then (toQ b <= toQ a)%Q else (toQ a < toQ b)%Q.
Proof using Ha Hb.
  unfold gte. rewrite cmp_test_spec by done. eexists. split; [done|].
  pose proof (Qge_alt (toQ a) (toQ b)). pose proof (Qlt_alt (toQ a) (toQ b)).
  destruct (toQ a ?= toQ b)%Q; intuition congruence.
Qed.

Lemma eq_ok : Decimal.eq a b = Ok true -> (toQ a == toQ b)%Q.
Proof using Ha Hb.
  unfold Decimal.eq. rewrite cmp_test_spec by done. pose proof (Qeq_alt (toQ a) (toQ b)).
  destruct (toQ a ?= toQ b)%Q; intuition congruence.
Qed.

Lemma lt_ok l : lt a b = Ok l -> if l then (toQ a < toQ b)%Q else (toQ b <= toQ a)%Q.
Proof using Ha Hb. destruct lt_spec as (x & -> & ?). by intros [= <-]. Qed.
Lemma lte_ok l : lte a b = Ok l -> if l then (toQ a <= toQ b)%Q else (toQ b < toQ a)%Q.
Proof using Ha Hb. destruct lte_spec as (x & -> & ?). by intros [= <-]. Qed.
Lemma gt_ok l : gt a b = Ok l -> if l then (toQ b < toQ a)%Q else (toQ a <= toQ b)%Q.
Proof using Ha Hb. destruct gt_spec as (x & -> & ?). by intros [= <-]. Qed.
Lemma gte_ok l : gte a b = Ok l -> if l then (toQ b <= toQ a)%Q else (toQ a < toQ b)%Q.
Proof using Ha Hb. destruct gte_spec as (x & -> & ?). by intros [= <-]. Qed.

(** ** Arithmetic *)

Lemma mul_ok d : mul a b = Ok d -> canonical d /\ (toQ d == toQ a * toQ b)%Q.
Proof using Ha Hb. intros Hd. pose proof (mul_spec a b Ha Hb) as H. by rewrite Hd in H. Qed.

Lemma sub_ok d : sub a b = Ok d -> canonical d /\ (toQ d == toQ a - toQ b)%Q.
Proof using Ha Hb.
  rewrite sub_add_neg by done. destruct (add_spec a (neg b) Ha (neg_canonical b Hb)) as (x & -> & Hc & Hq).
  intros [= <-]. split; [done|]. by rewrite Hq, toQ_neg.
Qed.

Lemma abs_ok : canonical (abs a) /\ (toQ (abs a) == Qabs (toQ a))%Q.
Proof using Ha.
  unfold abs. destruct (Z.ltb_spec (unscaled a) 0).
  - split; [by apply neg_canonical|]. rewrite toQ_neg. symmetry. apply Qabs_neg. unfold toQ, Qle. cbn. lia.
  - split; [done|]. symmetry. apply Qabs_pos. unfold toQ, Qle. cbn. lia.
Qed.

Lemma min_ok d : min a b = Ok d -> (d = a \/ d = b) /\ canonical d /\ (toQ d <= toQ a)%Q /\ (toQ d <= toQ b)%Q.
Proof using Ha Hb.
  unfold min. destruct lte_spec as (c & -> & Hc). cbn [rbind]. intros [= <-].
  destruct c; cbv iota in *; (split; [tauto|]); (split; [done|]); split; lra.
Qed.

Lemma max_ok d : max a b = Ok d -> (d = a \/ d = b) /\ canonical d /\ (toQ a <= toQ d)%Q /\ (toQ b <= toQ d)%Q.
Proof using Ha Hb.
  unfold max. destruct gte_spec as (c & -> & Hc). cbn [rbind]. intros [= <-].
  destruct c; cbv iota in *; (split; [tauto|]); (split; [done|]); split; lra.
Qed.

(** Division of a non-negative number by a positive one. *)
Lemma div_sides sc mode d :
  0 <= sc <= MAX_SCALE -> (0 <= toQ a)%Q -> (0 < toQ b)%Q -> div a b (Some (Int sc)) (Some mode) = Ok d ->
  canonical d /\ (mode = UP -> (toQ a <= toQ d * toQ b)%Q) /\
  (mode = DOWN -> (0 <= toQ d)%Q /\ (toQ d * toQ b <= toQ a)%Q /\ exists q, 0 <= q /\ (toQ d == toQ (mkED q sc))%Q).
Proof using Ha Hb.
  intros Hsc Hpa Hpb Hd. destruct (div_quotient a b sc mode Ha Hb Hsc d Hd) as (_ & Hc & q & [Hlt Hr] & Hq).
  destruct (div_common a b sc Ha Hb Hsc q d Hq) as (En & Ep & _). split; [done|].
  pose proof (canonical_scale a Ha). pose proof (canonical_scale b Hb).
  assert (0 <= unscaled a) as Hua by (unfold toQ, Qle in Hpa; cbn in Hpa; lia).
  assert (0 < unscaled b) as Hub by (unfold toQ, Qlt in Hpb; cbn in Hpb; lia).
  set (n := unscaled a * 10 ^ (scale b + sc)) in *. set (m := unscaled b * 10 ^ scale a) in *.
  assert (0 <= n) by (unfold n; pose proof (pow10_pos (scale b + sc) ltac:(lia)); nia).
  assert (0 < m) by (unfold m; pose proof (pow10_pos (scale a) ltac:(lia)); nia).
  assert (0 <= q) as Hq0.
  { destruct (Z.le_gt_cases 0 q) as [|Hneg]; [done|exfalso]. assert (q * m <= - m) by nia. lia. }
  split; intros ->; rewrite En, Ep.
  - apply toQ_le. assert (0 <= q * m) by nia. lia.
  - assert (0 <= q * m) by nia.
    split; [rewrite Hq; unfold toQ, Qle; cbn; lia|]. split; [apply toQ_le; lia|by exists q].
Qed.

Lemma divUp_ok sc d :
  0 <= sc <= MAX_SCALE -> (0 <= toQ a)%Q -> (0 < toQ b)%Q -> divUp a b (Int sc) = Ok d ->
  canonical d /\ (toQ a <= toQ d * toQ b)%Q.
Proof using Ha Hb. intros Hs Hpa Hpb Hd. destruct (div_sides sc UP d Hs Hpa Hpb Hd) as (? & Hu & _). auto. Qed.

Lemma divDown_ok sc d :
  0 <= sc <= MAX_SCALE -> (0 <= toQ a)%Q -> (0 < toQ b)%Q -> divDown a b (Int sc) = Ok d ->
  canonical d /\ (0 <= toQ d)%Q /\ (toQ d * toQ b <= toQ a)%Q.
Proof using Ha Hb. intros Hs Hpa Hpb Hd. destruct (div_sides sc DOWN d Hs Hpa Hpb Hd) as (? & _ & Hx). destruct Hx as (? & ? & _); auto. Qed.

(** A whole quotient is a natural number of scale 0. *)
Lemma divDown_whole d :
  (0 <= toQ a)%Q -> (0 < toQ b)%Q -> divDown a b (Int 0) = Ok d ->
  scale d = 0 /\ 0 <= unscaled d /\ (inject_Z (unscaled d) * toQ b <= toQ a)%Q /\ canonical d.
Proof using Ha Hb.
  intros Hpa Hpb Hd. destruct (div_sides 0 DOWN d ltac:(unfold MAX_SCALE; lia) Hpa Hpb Hd) as (Hc & _ & Hx).
  destruct (Hx eq_refl) as (Hn & Hle & q & Hq & He). assert (d = mkED q 0) as ->.
  { apply canonical_unique; [done|apply whole_canonical|done]. }
  cbn [unscaled scale] in *. done.
Qed.

(** The next whole number is beyond the dividend. *)
Lemma divDown_next d :
  (0 < toQ b)%Q -> divDown a b (Int 0) = Ok d -> (toQ a < inject_Z (unscaled d + 1) * toQ b)%Q.
Proof using Ha Hb.
  intros Hpb Hd. destruct (div_quotient a b 0 DOWN Ha Hb ltac:(unfold MAX_SCALE; lia) d Hd) as (_ & Hc & q & [Hlt Hr] & Hq).
  assert (d = mkED q 0) as -> by (apply canonical_unique; [done|apply whole_canonical|done]). cbn [unscaled].
  destruct (div_common a b 0 Ha Hb ltac:(unfold MAX_SCALE; lia) (q + 1) (mkED (q + 1) 0) ltac:(reflexivity)) as (En & Ep & _).
  change (inject_Z (q + 1)) with (toQ (mkED (q + 1) 0)). rewrite Ep, En.
  assert (0 < unscaled b) as Hub by (unfold toQ, Qlt in Hpb; cbn in Hpb; lia).
  pose proof (pow10_pos (scale a) ltac:(pose proof (canonical_scale a Ha); lia)).
  set (n := unscaled a * 10 ^ (scale b + 0)) in *. set (m := unscaled b * 10 ^ scale a) in *.
  assert (0 < m) by (unfold m; nia). apply Qnot_le_lt. rewrite toQ_le. nia.
Qed.

(** The next quotient of the scale is beyond the dividend, too. *)
Lemma divDown_exact sc d :
  0 <= sc <= MAX_SCALE -> (0 <= toQ a)%Q -> (0 < toQ b)%Q -> divDown a b (Int sc) = Ok d ->
  canonical d /\ (exists q, 0 <= q /\ (toQ d == toQ (mkED q sc))%Q) /\
  (toQ d * toQ b <= toQ a)%Q /\ (toQ a < (toQ d + (1 # Z.to_pos (10 ^ sc))) * toQ b)%Q.
Proof using Ha Hb.
  intros Hsc Hpa Hpb Hd. destruct (div_sides sc DOWN d Hsc Hpa Hpb Hd) as (Hc & _ & Hx). destruct Hx as (Hn & Hle & Hq); [done|].
  split; [done|]. split; [done|]. split; [done|]. clear Hq.
  destruct (div_quotient a b sc DOWN Ha Hb Hsc d Hd) as (_ & _ & q & [Hlt Hr] & Hq).
  destruct (div_common a b sc Ha Hb Hsc q d Hq) as (En & Ep & Em). rewrite Qmult_plus_distr_l, Ep, En, (Qmult_comm (1 # _)), Em.
  pose proof (canonical_scale a Ha). pose proof (canonical_scale b Hb).
  assert (0 < unscaled b) as Hub by (unfold toQ, Qlt in Hpb; cbn in Hpb; lia).
  assert (0 <= unscaled a) as Hua by (unfold toQ, Qle in Hpa; cbn in Hpa; lia).
  set (n := unscaled a * 10 ^ (scale b + sc)) in *. set (m := unscaled b * 10 ^ scale a) in *.
  assert (0 < m) by (unfold m; pose proof (pow10_pos (scale a) ltac:(lia)); nia).
  rewrite Ep, En in Hle. apply toQ_le in Hle.
  assert (n < q * m + m) as Hn' by nia. unfold toQ, Qlt, Qplus. cbn [Qnum Qden unscaled scale].
  set (P := Z.to_pos _). rewrite Pos2Z.inj_mul. nia.
Qed.

(** A whole quotient always exists, and so does a multiple. *)
Lemma divDown_whole_total : (0 < toQ b)%Q -> exists d, divDown a b (Int 0) = Ok d.
Proof using Ha Hb.
  intros Hpb. apply div_total; [done|done|unfold MAX_SCALE; lia| |pose proof (canonical_scale b Hb); lia].
  unfold toQ, Qlt in Hpb. cbn in Hpb. lia.
Qed.

Lemma mul_whole_total z : exists d, mul a (mkED z 0) = Ok d /\ canonical d /\ (toQ d == toQ a * inject_Z z)%Q.
Proof using Ha.
  pose proof (canonical_scale a Ha). unfold mul. cbn [unscaled scale].
  destruct (normalize_total (mkED (unscaled a * z) (scale a + 0))) as (d & -> & Hd & Hq); [cbn; lia|].
  exists d. split; [done|]. split; [done|]. rewrite Hq. destruct a as [u s]. cbn [unscaled scale] in *.
  by rewrite toQ_mul by lia.
Qed.
End tests.

Lemma percent_ok a d : canonical a -> divByPowerOfTen a (Int 2) = Ok d -> canonical d /\ (toQ d == toQ a * (1 # 100))%Q.
Proof.
  intros Ha. pose proof (canonical_scale a Ha). unfold divByPowerOfTen, divPow10_nonneg. cbn [Z.ltb Z.compare].
  destruct (_ >? _); [done|]. intros [Hc Hq]%normalize_ok; [|cbn [scale]; lia]. split; [done|]. rewrite Hq.
  destruct a as [u s]. cbn [unscaled scale] in *. rewrite <- (Z.mul_1_r u) at 1. by rewrite (toQ_mul u 1 s 2) by lia.
Qed.

(** [ExactDecimal.parse] of a natural number's text. *)
Lemma whole_text z : 0 <= z -> parse (InString (to_digits z)) = Ok (mkED z 0).
Proof.
  intros Hz. assert (to_digits z = toString (mkED z 0)) as ->.
  { unfold toString. cbn [unscaled scale]. by rewrite (proj2 (Z.ltb_ge z 0)). }
  cbn [parse]. rewrite parse_toString by (cbn; unfold MAX_SCALE; lia). apply normalize_canonical, whole_canonical.
Qed.

Lemma whole_Q z : (toQ (mkED z 0) == inject_Z z)%Q.
Proof. done. Qed.
