(* ===== verification/MarketSafety.v ===== *)
(** * The market safety gate ([execution/orchestration/market-safety-gate.service.ts])

    [assertMarketSafeForDispatch]: the last check before the provider-dispatch commitment.  It
    reads one fresh quote through [BrokerService.getCurrentPriceForConnection]
    ([broker/broker.service.ts]) and refuses, with the order rejected and a typed error, unless
    the quote is provable, fresh, of a sane spread and near the price risk was assessed at.
    The checks are the pure [market_verdict]; [market_verdict_exact] bounds what they let
    through as rational numbers. *)

From Stdlib Require Import QArith Qabs Lqa.
From S2P Require Import Prelude Prog JsString Decimal DecimalSpecs StateMachines Store OrderService Authority Boundary AdapterRegistry Adapter.
Open Scope string_scope.
Open Scope list_scope.
Open Scope Z_scope.

Definition MARKET_QUOTE_MAX_AGE_MS : Z := 30000.
Definition MARKET_MAX_SPREAD_RATIO : string := "0.02".
Definition MARKET_MAX_ENTRY_DEVIATION : string := "0.01".

Definition failure_text (code : MarketSafetyFailureCode) : string :=
  match code with
  | MARKET_DATA_UNAVAILABLE => "MARKET_DATA_UNAVAILABLE" | STALE_PRICE => "STALE_PRICE"
  | ABNORMAL_SPREAD => "ABNORMAL_SPREAD" | PRICE_DEVIATION_EXCESSIVE => "PRICE_DEVIATION_EXCESSIVE"
  end.

(** A refusal: its code and the detail of its message. *)
Definition refusal : Type := (MarketSafetyFailureCode * string)%type.

Section verdict.
Local Open Scope result_scope.

(** Spread sanity: [spread && mid.isPositive()]. *)
Definition spread_verdict (spread : option ED) (mid : ED) : result EDError (option refusal) :=
  match spread with
  | Some spread =>
      if isPositive mid then
        try! spreadRatio := div spread mid (Some (Int 10)) None in
        try! limit := parse_text MARKET_MAX_SPREAD_RATIO in
        try! wide := gt spreadRatio limit in
        if wide then
          try! shown := toFixed spreadRatio (Int 4) DOWN in
          Ok (Some (ABNORMAL_SPREAD,
                "spread " +:+ text spread +:+ " is " +:+ string_of shown +:+ " of mid " +:+ text mid
                  +:+ " — above the 0.02 anomaly threshold"))
        else Ok None
      else Ok None
  | None => Ok None
  end.

(** Entry deviation of the executable side from the reference. *)
Definition deviation_verdict (direction : string) (reference : option ED) (bid ask : ED)
  : result EDError (option refusal) :=
  let buy := bool_decide (direction = "BUY") in
  let executableSide := if buy then ask else bid in
  match reference with
  | Some reference =>
      if isPositive reference && isPositive executableSide then
        try! moved := sub executableSide reference in
        try! deviation := div (Decimal.abs moved) reference (Some (Int 10)) None in
        try! limit := parse_text MARKET_MAX_ENTRY_DEVIATION in
        try! far := gt deviation limit in
        if far then
          try! shown := toFixed deviation (Int 6) DOWN in
          Ok (Some (PRICE_DEVIATION_EXCESSIVE,
                (if buy then "ask" else "bid") +:+ " " +:+ text executableSide +:+ " deviates "
                  +:+ string_of shown +:+ " from the risk-validated reference " +:+ text reference
                  +:+ " — above the 0.01 threshold"))
        else Ok None
      else Ok None
  | None => Ok None
  end.

Definition unavailable (detail : string) : result EDError (option refusal) := Ok (Some (MARKET_DATA_UNAVAILABLE, detail)).

(** The checks, in order, on the quote read at time [t]; [None] is a safe market. *)
Definition market_verdict (isDeterministicPaperSimulator : bool) (t : Z) (direction : string)
    (referencePrice : option string) (quote : option BrokerPrice) : result EDError (option refusal) :=
  match quote with
  | None => unavailable "no provable current quote for the instrument through this connection"
  | Some q =>
      match q_timestamp q with
      | None => unavailable "quote timestamp is not a provable instant"
      | Some observedAt =>
          let age := Z.abs (t - observedAt) in
          if negb isDeterministicPaperSimulator && (MARKET_QUOTE_MAX_AGE_MS <? age)
          then Ok (Some (STALE_PRICE, "quote age " +:+ string_of (to_digits age)
                                        +:+ "ms exceeds the 30000ms execution window"))
          else
            let unproved := unavailable "quote bid/ask are not provable positive decimals with ask >= bid" in
            match tryParse_text (q_bid q), tryParse_text (q_ask q) with
            | Some bid, Some ask =>
                if negb (isPositive bid) || negb (isPositive ask) then unproved
                else
                  try! crossed := lt ask bid in
                  if crossed then unproved
                  else
                    try! total := add bid ask in
                    try! two := parse_text "2" in
                    try! mid := div total two None None in
                    try! spread := spread_verdict (tryParse_text (q_spread q)) mid in
                    match spread with
                    | Some refused => Ok (Some refused)
                    | None => deviation_verdict direction (tryParse_text (default "" referencePrice)) bid ask
                    end
            | _, _ => unproved
            end
      end
  end.
End verdict.

(** ** What the checks let through *)

(** A ratio quantized to ten digits against a limit of [K] units of the tenth digit: the test
    cuts at [K] units and a half. *)
Lemma ratio_test a b limit K :
  canonical a -> canonical b -> 0 < unscaled b -> scale b <= 90 ->
  canonical limit -> (toQ limit == K # 10000000000)%Q ->
  exists d g, div a b (Some (Int 10)) None = Ok d /\ canonical d /\ gt d limit = Ok g /\
    if g then ((2 * K + 1 # 20000000000) * toQ b <= toQ a)%Q
    else (toQ a <= (2 * K + 1 # 20000000000) * toQ b)%Q.
Proof.
  intros Ha Hb Hub Hsb Hlc Hl.
  assert (0 <= 10 <= MAX_SCALE) as Hsc by (unfold MAX_SCALE; lia).
  destruct (div_total a b 10 HALF_UP Ha Hb Hsc ltac:(lia) ltac:(unfold MAX_SCALE; lia)) as [d Hd].
  destruct (div_quotient a b 10 HALF_UP Ha Hb Hsc d Hd) as (_ & Hc & q & Hr & Hq).
  destruct (gt_spec d limit Hc Hlc) as (g & Hg & Hcmp). exists d, g.
  split; [exact Hd|]. split; [done|]. split; [done|].
  destruct (div_common a b 10 Ha Hb Hsc q d Hq) as (En & _ & Em).
  set (n := unscaled a * 10 ^ (scale b + 10)) in *. set (m := unscaled b * 10 ^ scale a) in *.
  set (S := scale a + scale b + 10) in *.
  assert (0 < m) as Hm.
  { pose proof (canonical_scale a Ha). pose proof (pow10_pos (scale a)). unfold m. nia. }
  assert (2 * Z.abs (n - q * m) <= m) as Hn.
  { destruct Hr as [_ [Hx _]]. unfold nearest in Hx. lia. }
  assert ((2 * K + 1 # 20000000000) * toQ b == (2 * K + 1 # 2) * toQ (mkED m S))%Q as Hscale.
  { rewrite <- Em. change (Z.to_pos (10 ^ 10)) with 10000000000%positive.
    destruct (toQ b) as [x y]. unfold Qeq, Qmult. simpl. lia. }
  assert (forall x, (toQ (mkED x S) <= (2 * K + 1 # 2) * toQ (mkED m S))%Q <-> 2 * x <= (2 * K + 1) * m) as Hle.
  { intros x. unfold toQ, Qle, Qmult. simpl. set (p := Z.to_pos _). nia. }
  assert (forall x, ((2 * K + 1 # 2) * toQ (mkED m S) <= toQ (mkED x S))%Q <-> (2 * K + 1) * m <= 2 * x) as Hge.
  { intros x. unfold toQ, Qle, Qmult. simpl. set (p := Z.to_pos _). nia. }
  destruct g; rewrite Hq, Hl in Hcmp; rewrite En, Hscale.
  - apply Hge. assert (K < q) by (unfold toQ, Qlt in Hcmp; simpl in Hcmp; lia). nia.
  - apply Hle. assert (q <= K) by (unfold toQ, Qle in Hcmp; simpl in Hcmp; lia). nia.
Qed.

(** A canonical decimal has the least scale its value allows. *)
Lemma canonical_minimal d q sc : canonical d -> 0 <= sc -> (toQ d == toQ (mkED q sc))%Q -> scale d <= sc.
Proof.
  rewrite canonical_iff. intros [Hs Hc] Hsc Hq. apply toQ_eq in Hq; [|lia|simpl; lia]. cbn [unscaled scale] in Hq.
  destruct (Z.le_gt_cases (scale d) sc) as [|Hgt]; [done|exfalso]. destruct Hc as [|[_ Hr]]; [lia|]. apply Hr.
  rewrite (pow10_split sc (scale d)) in Hq by lia.
  assert (unscaled d = q * 10 ^ (scale d - sc - 1) * 10) as ->.
  { replace (scale d - sc) with (Z.succ (scale d - sc - 1)) in Hq by lia. rewrite Z.pow_succ_r in Hq by lia.
    pose proof (pow10_pos sc Hsc). nia. }
  apply Z.rem_mul. lia.
Qed.

Lemma add_scale a b d : canonical a -> canonical b -> add a b = Ok d -> scale d <= Z.max (scale a) (scale b).
Proof.
  intros Ha Hb. unfold add. destruct (common_scale a b Ha Hb) as (-> & -> & ? & ? & ?). cbn [rbind].
  intros [Hc Hq]%normalize_ok; [|cbn [scale]; lia]. eapply canonical_minimal; [done|lia|exact Hq].
Qed.

(** The midpoint of two prices of up to nine digits is exact. *)
Lemma mid_exact total :
  canonical total -> scale total <= 9 ->
  exists mid, div total (mkED 2 0) None None = Ok mid /\ canonical mid /\ scale mid <= 10 /\
    (toQ mid == toQ total * (1 # 2))%Q.
Proof.
  intros Ht Hs. pose proof (canonical_scale total Ht) as Hst.
  assert (canonical (mkED 2 0)) as H2 by done. assert (0 <= 10 <= MAX_SCALE) as Hsc by (unfold MAX_SCALE; lia).
  assert (div total (mkED 2 0) None None = div total (mkED 2 0) (Some (Int 10)) (Some HALF_UP)) as ->.
  { unfold div. cbn [unscaled scale default from_option]. unfold id.
    rewrite (Z.max_r _ DEFAULT_DIV_SCALE) by (unfold DEFAULT_DIV_SCALE; lia). done. }
  destruct (div_total total (mkED 2 0) 10 HALF_UP Ht H2 Hsc) as [mid Hmid]; [done|done|].
  destruct (div_quotient total (mkED 2 0) 10 HALF_UP Ht H2 Hsc mid Hmid) as (_ & Hc & q & [Hr _] & Hq).
  exists mid. split; [done|]. split; [done|]. split; [by apply (canonical_minimal mid q)|].
  cbn [unscaled scale] in Hr. rewrite (Z.add_0_l 10) in Hr.
  assert (2 * (q * 10 ^ scale total) = unscaled total * 10 ^ 10) as Hx.
  { assert (10 ^ 10 = 10 ^ scale total * (10 * 10 ^ (9 - scale total))) as E10.
    { rewrite <- (Z.pow_succ_r 10) by lia. rewrite <- pow10_add by lia. f_equal. lia. }
    rewrite E10 in Hr |- *. set (k := 10 ^ (9 - scale total)) in *. clearbody k.
    pose proof (pow10_pos (scale total)) as Hp. set (p := 10 ^ scale total) in *. clearbody p.
    assert (unscaled total * (p * (10 * k)) - q * (2 * p) = (unscaled total * 5 * k - q) * (2 * p)) as Hd by ring.
    rewrite Hd, Z.abs_mul in Hr. set (x := unscaled total * 5 * k - q) in *.
    assert (x = 0) by (destruct (Z.eq_dec x 0); [done|]; assert (1 <= Z.abs x) by lia; nia). unfold x in *. nia. }
  rewrite Hq. unfold toQ, Qeq, Qmult. cbn [unscaled scale Qnum Qden]. rewrite Pos2Z.inj_mul, !Z2Pos.id by (apply pow10_pos; lia).
  change (Z.pos 2) with 2. nia.
Qed.

Definition spread_limit : Q := 400000001 # 20000000000.
Definition deviation_limit : Q := 200000001 # 20000000000.

(** The quote proves a bid and an ask. *)
Definition priced (quote : option BrokerPrice) (b a : ED) : Prop :=
  exists q, quote = Some q /\ is_Some (q_timestamp q) /\ tryParse_text (q_bid q) = Some b /\
    tryParse_text (q_ask q) = Some a /\ (0 < toQ b)%Q /\ (toQ b <= toQ a)%Q.

Definition fresh (t : Z) (quote : option BrokerPrice) : Prop :=
  exists q at_, quote = Some q /\ q_timestamp q = Some at_ /\ Z.abs (t - at_) <= MARKET_QUOTE_MAX_AGE_MS.

Definition spread_of (quote : option BrokerPrice) : option ED := q ← quote; tryParse_text (q_spread q).

Definition executable (direction : string) (b a : ED) : ED := if bool_decide (direction = "BUY") then a else b.

Lemma spread_verdict_spec spread mid :
  canonical mid -> scale mid <= 90 -> (forall s, spread = Some s -> canonical s) -> (0 < toQ mid)%Q ->
  match spread_verdict spread mid with
  | Err _ => False
  | Ok None => forall s, spread = Some s -> (toQ s <= spread_limit * toQ mid)%Q
  | Ok (Some (code, _)) => code = ABNORMAL_SPREAD /\ exists s, spread = Some s /\ (spread_limit * toQ mid <= toQ s)%Q
  end.
Proof.
  intros Hm Hs Hc Hp. unfold spread_verdict. destruct spread as [s|]; [|done].
  rewrite (proj2 (isPositive_Q mid) Hp). assert (0 < unscaled mid) as Hu.
  { apply isPositive_Q in Hp. unfold isPositive in Hp. by bool_to_prop. }
  destruct (ratio_test s mid (mkED 2 2) 200000000 (Hc s eq_refl) Hm Hu Hs) as (d & g & -> & Hd & Hg & Hcmp); [done|done|].
  change (parse_text MARKET_MAX_SPREAD_RATIO) with (Ok (E := EDError) (mkED 2 2)). cbn [rbind]. rewrite Hg. cbn [rbind].
  destruct g.
  - destruct (toFixed_rounds d 4 DOWN Hd) as (out & _ & -> & _); [unfold MAX_SCALE; lia|]. cbn [rbind]. eauto.
  - by intros x [= <-].
Qed.

Lemma deviation_verdict_spec direction reference b a :
  canonical b -> canonical a -> (0 < toQ b)%Q -> (0 < toQ a)%Q ->
  (forall r, reference = Some r -> canonical r /\ scale r <= 90) ->
  match deviation_verdict direction reference b a with
  | Err _ => False
  | Ok None => forall r, reference = Some r -> (0 < toQ r)%Q ->
      (Qabs (toQ (executable direction b a) - toQ r) <= deviation_limit * toQ r)%Q
  | Ok (Some (code, _)) => code = PRICE_DEVIATION_EXCESSIVE /\ exists r, reference = Some r /\ (0 < toQ r)%Q /\
      (deviation_limit * toQ r <= Qabs (toQ (executable direction b a) - toQ r))%Q
  end.
Proof.
  intros Hb Ha Hpb Hpa Hr. unfold deviation_verdict, executable.
  set (x := if bool_decide (direction = "BUY") then a else b). destruct reference as [r|]; [|done].
  destruct (Hr r eq_refl) as [Hcr Hsr].
  assert (canonical x) as Hx by (unfold x; by case_bool_decide).
  assert (isPositive x = true) as -> by (unfold x; case_bool_decide; by apply isPositive_Q). rewrite andb_true_r.
  destruct (isPositive r) eqn:Hpr.
  2:{ intros r' [= <-] Hq%isPositive_Q. congruence. }
  assert (0 < unscaled r) as Hu by (unfold isPositive in Hpr; by bool_to_prop).
  rewrite sub_add_neg by done. destruct (add_spec x (neg r) Hx (neg_canonical r Hcr)) as (m & -> & Hm & Hqm).
  cbn [rbind]. assert (canonical (Decimal.abs m) /\ toQ (Decimal.abs m) == Qabs (toQ x - toQ r))%Q as [Hma Hqa].
  { rewrite toQ_neg in Hqm. assert (toQ x - toQ r == toQ m)%Q as Hxr by (rewrite Hqm; ring). rewrite Hxr.
    unfold Decimal.abs. destruct (Z.ltb_spec (unscaled m) 0).
    - split; [by apply neg_canonical|]. unfold toQ, neg, Qabs, Qeq. simpl. lia.
    - split; [done|]. unfold toQ, Qabs, Qeq. simpl. lia. }
  destruct (ratio_test _ r (mkED 1 2) 100000000 Hma Hcr Hu Hsr) as (d & g & -> & Hd & Hg & Hcmp); [done|done|].
  change (parse_text MARKET_MAX_ENTRY_DEVIATION) with (Ok (E := EDError) (mkED 1 2)). cbn [rbind]. rewrite Hg. cbn [rbind].
  apply isPositive_Q in Hpr. destruct g; rewrite Hqa in Hcmp.
  - destruct (toFixed_rounds d 6 DOWN Hd) as (out & _ & -> & _); [unfold MAX_SCALE; lia|]. cbn [rbind]. eauto.
  - by intros r' [= <-] _.
Qed.

(** the market gate is exact on prices of up to nine digits and references of up to 90.  It
    never throws; it passes only a quote that proves a positive bid at most its ask, that is
    fresh unless the broker is the simulator, whose spread is at most 2% of the midpoint and
    whose executable side is within 1% of the reference, up to half a unit of the tenth digit;
    and each refusal names a condition that fails. *)
Theorem market_verdict_exact paper t direction referencePrice quote :
  (forall q d, quote = Some q -> tryParse_text (q_bid q) = Some d \/ tryParse_text (q_ask q) = Some d -> scale d <= 9) ->
  (forall r, tryParse_text (default "" referencePrice) = Some r -> scale r <= 90) ->
  match market_verdict paper t direction referencePrice quote with
  | Err _ => False
  | Ok None => exists b a, priced quote b a /\ (paper = true \/ fresh t quote) /\
      (forall s, spread_of quote = Some s -> (toQ s <= spread_limit * ((toQ b + toQ a) * (1 # 2)))%Q) /\
      (forall r, tryParse_text (default "" referencePrice) = Some r -> (0 < toQ r)%Q ->
         (Qabs (toQ (executable direction b a) - toQ r) <= deviation_limit * toQ r)%Q)
  | Ok (Some (MARKET_DATA_UNAVAILABLE, _)) => forall b a, ~ priced quote b a
  | Ok (Some (STALE_PRICE, _)) => paper = false /\ ~ fresh t quote
  | Ok (Some (ABNORMAL_SPREAD, _)) => exists b a s, priced quote b a /\ spread_of quote = Some s /\
      (spread_limit * ((toQ b + toQ a) * (1 # 2)) <= toQ s)%Q
  | Ok (Some (PRICE_DEVIATION_EXCESSIVE, _)) => exists b a r, priced quote b a /\
      tryParse_text (default "" referencePrice) = Some r /\ (0 < toQ r)%Q /\
      (deviation_limit * toQ r <= Qabs (toQ (executable direction b a) - toQ r))%Q
  end.
Proof.
  intros Hs9 Hs90. unfold market_verdict. destruct quote as [q|]; [|by intros b a (? & ? & _)].
  destruct (q_timestamp q) as [at_|] eqn:Hat.
  2:{ intros b a (q' & [= <-] & Hx & _). rewrite Hat in Hx. by destruct Hx. }
  destruct (negb paper && (MARKET_QUOTE_MAX_AGE_MS <? Z.abs (t - at_))) eqn:Hage.
  { bool_to_prop. split; [done|]. intros (q' & x & [= <-] & Hx & Hle). rewrite Hat in Hx. injection Hx as <-. lia. }
  assert (paper = true \/ fresh t (Some q)) as Hfresh.
  { destruct paper; [by left|right]. cbn [negb andb] in Hage. bool_to_prop. by exists q, at_. }
  destruct (tryParse_text (q_bid q)) as [b|] eqn:Hb.
  2:{ intros b a (q' & [= <-] & _ & Hx & _). congruence. }
  destruct (tryParse_text (q_ask q)) as [a|] eqn:Ha.
  2:{ intros x a (q' & [= <-] & _ & _ & Hx & _). congruence. }
  pose proof (tryParse_canonical _ _ Hb) as Hcb. pose proof (tryParse_canonical _ _ Ha) as Hca.
  assert (forall b' a', priced (Some q) b' a' -> b' = b /\ a' = a /\ (0 < toQ b)%Q /\ (toQ b <= toQ a)%Q) as Huniq.
  { intros b' a' (q' & [= <-] & _ & H1 & H2 & H3 & H4). simplify_eq. done. }
  destruct (negb (isPositive b) || negb (isPositive a)) eqn:Hpos.
  { intros b' a' (_ & _ & H1 & H2)%Huniq. assert (0 < toQ a)%Q as H3 by (by eapply Qlt_le_trans).
    apply isPositive_Q in H1, H3. by rewrite H1, H3 in Hpos. }
  bool_to_prop. destruct (isPositive b) eqn:Hpb; [|done]. destruct (isPositive a) eqn:Hpa; [|done].
  apply isPositive_Q in Hpb, Hpa. destruct (lt_spec a b Hca Hcb) as (l & -> & Hle). cbn [rbind]. destruct l.
  { intros b' a' (_ & _ & _ & Hx)%Huniq. by apply (Qle_not_lt _ _ Hx). }
  assert (priced (Some q) b a) as Hpriced by (exists q; rewrite Hat; eauto 8).
  destruct (add_spec b a Hcb Hca) as (total & Htot & Htc & Htq). pose proof (add_scale b a total Hcb Hca Htot).
  rewrite Htot. cbn [rbind]. change (parse_text "2") with (Ok (E := EDError) (mkED 2 0)). cbn [rbind].
  pose proof (Hs9 q b eq_refl (or_introl Hb)). pose proof (Hs9 q a eq_refl (or_intror Ha)).
  destruct (mid_exact total Htc ltac:(lia)) as (mid & -> & Hcm & Hsm & Hqm). cbn [rbind]. rewrite Htq in Hqm.
  assert (0 < toQ mid)%Q as Hpm by (rewrite Hqm; lra).
  pose proof (spread_verdict_spec (tryParse_text (q_spread q)) mid Hcm ltac:(lia) (tryParse_canonical _) Hpm) as Hsp.
  destruct (spread_verdict _ mid) as [[[code detail]|]|e]; cbn [rbind]; [|  |done].
  { destruct Hsp as [-> (s & Hs & Hx)]. rewrite Hqm in Hx. eauto 8. }
  pose proof (deviation_verdict_spec direction (tryParse_text (default "" referencePrice)) b a Hcb Hca Hpb Hpa) as Hdev.
  specialize (Hdev (fun r Hr => conj (tryParse_canonical _ r Hr) (Hs90 r Hr))).
  destruct (deviation_verdict _ _ b a) as [[[code detail]|]|e]; [| |done].
  - destruct Hdev as [-> (r & Hr & Hpr & Hx)]. eauto 8.
  - exists b, a. split; [done|]. split; [done|]. split; [|done]. intros s Hs. rewrite <- Hqm. by apply Hsp.
Qed.

Definition sample_quote (bid ask spread : string) : option BrokerPrice := Some (mkPrice bid ask spread (Some 0)).

Lemma market_verdict_exact_witness :
  market_verdict false 1000 "BUY" (Some "1.1001") (sample_quote "1.1000" "1.1002" "0.0002") = Ok None /\
  match market_verdict false 1000 "BUY" (Some "1.0") (sample_quote "1.1000" "1.1002" "0.0002") with
  | Ok (Some (PRICE_DEVIATION_EXCESSIVE, _)) => exists b a r,
      priced (sample_quote "1.1000" "1.1002" "0.0002") b a /\ tryParse_text "1.0" = Some r /\ (0 < toQ r)%Q /\
      (deviation_limit * toQ r <= Qabs (toQ (executable "BUY" b a) - toQ r))%Q
  | _ => False
  end.
Proof.
  split; [vm_compute; reflexivity|].
  pose proof (market_verdict_exact false 1000 "BUY" (Some "1.0") (sample_quote "1.1000" "1.1002" "0.0002")) as H.
  assert (exists detail, market_verdict false 1000 "BUY" (Some "1.0") (sample_quote "1.1000" "1.1002" "0.0002")
            = Ok (Some (PRICE_DEVIATION_EXCESSIVE, detail))) as [detail E] by (eexists; vm_compute; reflexivity).
  rewrite E in H |- *. apply H.
  - intros q d [= <-] [Hd|Hd]; vm_compute in Hd; injection Hd as <-; vm_compute; discriminate.
  - intros r Hr. vm_compute in Hr. injection Hr as <-. vm_compute. discriminate.
Defined.

(** ** The gate *)

Section gate.
Context {A P : Type} `{!EqDecision A, !BrokerAdapter A P}.
(** [CredentialEncryptionService.decrypt], AES-256-GCM of ciphertext, iv, tag and key id; it
    fails with a typed adapter error. *)
Context (decrypt : option string -> option string -> option string -> option string -> result BrokerAdapterError DecryptedBrokerCredentials).
Local Open Scope prog_scope.

Abbreviation wio := (wio (A := A) (P := P)).

Definition direct_mt5 (c : BrokerConnection) : bool := bool_decide (b_brokerId c = "direct-mt5").

(** [!encryptedCredentials || !credentialIv || !credentialTag]. *)
Definition no_ciphertext (c : BrokerConnection) : bool :=
  negb (present (b_encryptedCredentials c)) || negb (present (b_credentialIv c)) || negb (present (b_credentialTag c)).

(** The credentials of a connection, under the key id given when it has none. *)
Definition credentials_of (c : BrokerConnection) (keyId : option string) : result dexn DecryptedBrokerCredentials :=
  if direct_mt5 c then Ok (mkCredentials None None (default (b_id c) (b_accountId c)) None None)
  else match decrypt (b_encryptedCredentials c) (b_credentialIv c) (b_credentialTag c)
               (match b_encryptionKeyId c with Some k => Some k | None => keyId end) with
       | Ok credentials => Ok credentials
       | Err e => Err (AdapterFailure e)
       end.

(** A quote with every field it is used for. *)
Definition provable (price : option BrokerPrice) : option BrokerPrice :=
  match price with
  | Some q => if bool_decide (q_bid q = "") || bool_decide (q_ask q = "") || bool_decide (q_timestamp q = None)
              then None else Some q
  | None => None
  end.

Definition find_connection (connectionId userId : string) : wio BrokerConnection :=
  db (op (fun d => (d, findConnectionById connectionId userId d))).

(** The registry's adapter with its mode set, the credentials, and whether it is connected. *)
Definition quote_session (connection : BrokerConnection) : wio (A * DecryptedBrokerCredentials * bool) :=
  op (session_act (b_id connection) (b_brokerId connection) (fun a w =>
    match credentials_of connection (Some "env-key-v1") with
    | Err e => (w, Err e)
    | Ok credentials =>
        let p := setMode a (b_accountType connection) (w_provider w) in
        (mkWorld (w_db w) (w_registry w) p (w_wire w), Ok (a, credentials, isConnected a p))
    end)).

(** With the options the gate passes: no simulation step, provider errors collapse to no quote. *)
Definition getCurrentPriceForConnection (userId brokerConnectionId instrument : string)
    (strategyTimeframe : option string) : wio (option BrokerPrice) :=
  let* connection := find_connection brokerConnectionId userId in
  if negb (bool_decide (b_status connection = B_CONNECTED))
  then Throw (Platform (ForbiddenException "Broker connection is not active"))
  else if negb (direct_mt5 connection) && no_ciphertext connection
  then Throw (Platform (ForbiddenException "Broker connection credentials unavailable"))
  else if negb (direct_mt5 connection) && negb (Authorization.isUsable (b_credentialStatus connection))
  then Throw (Platform (ConflictException "Broker credentials are not usable"))
  else
    let* s := quote_session connection in
    let '(a, credentials, alreadyConnected) := s in
    catch
      (do! (if alreadyConnected then Ret tt
            else let* _ := op (on_provider (connect a credentials)) in Ret tt) in
       let* price := op (on_provider (getCurrentPrice a instrument strategyTimeframe)) in
       Ret (provable price))
      (fun _ => Ret None).

(** Reject the order, audit, and surface the typed error; a rejection that fails is logged. *)
Definition rejectForMarketSafety (userId orderId : string) (r : refusal) : wio unit :=
  let reason := "MARKET_SAFETY_" +:+ failure_text r.1 +:+ ": " +:+ r.2 in
  do! db (catch (let* _ := rejectOrder orderId reason in Ret tt) (fun _ => Ret tt)) in
  do! db (audit_log (mkAudit (Some userId) "ORDER_REJECTED" "Order" orderId (failure_text r.1))) in
  Throw (MarketSafetyError r.1).

(** [assertMarketSafeForDispatch]; an [ExactDecimalError] would be thrown as it is. *)
Definition assertMarketSafeForDispatch (userId brokerConnectionId instrument direction : string)
    (strategyTimeframe referencePrice : option string) (connection : BrokerConnection) (orderId : string) : wio unit :=
  let* quote := getCurrentPriceForConnection userId brokerConnectionId instrument strategyTimeframe in
  let* t := db (sel now) in
  match market_verdict (bool_decide (b_brokerId connection = PAPER_BROKER_ID)) t direction referencePrice quote with
  | Err _ => Throw (PlainError "ExactDecimalError")
  | Ok (Some r) => rejectForMarketSafety userId orderId r
  | Ok None => Ret tt
  end.

(** The gate makes no state-changing provider call. *)
Lemma gate_same_wire userId cid instrument direction tf ref connection orderId :
  guar same_wire (assertMarketSafeForDispatch userId cid instrument direction tf ref connection orderId).
Proof.
  unfold assertMarketSafeForDispatch, getCurrentPriceForConnection, find_connection, quote_session, rejectForMarketSafety.
  guar_walk; try apply db_same_wire; apply guar_op; intros w; try apply provider_wire.
  apply session_wire. intros ? ? _. by destruct (credentials_of _ _).
Qed.
End gate.
