(* ===== verification/Orchestrator.v ===== *)
(** * The execution orchestrator ([execution/orchestration/execution-orchestrator.service.ts])

    [assertDispatchable] and [dispatchOrder]: one provider dispatch of an execution intent, from
    the idempotent reservation of its order through the capability contract, the market gate
    and the provider-dispatch commitment to the provider call, its retries, and the recording
    of every outcome.  [dispatchOrder] is [dispatchOrderUnderLease] under the account lease
    ([DispatchLease]); here it runs in any interleaving, which the lease only narrows.  A reply
    that does not come within [EXECUTION_TIMEOUT_MS] is a reply that is lost, which the
    interleavings allow at every call; a sequential run takes what the adapter answers.  Events,
    metrics and the delays between attempts are left out, and so is the audit metadata but for
    one code. *)

From S2P Require Import Prelude Prog JsString StateMachines Store OrderService RiskGrants Authority Boundary.
From S2P Require Import JsMap AdapterRegistry Adapter MarketSafety.
From S2P Require Provider.
Import Provider.Operation Provider.Response.
Open Scope string_scope.
Open Scope list_scope.
Open Scope Z_scope.

Definition MAX_RETRY_ATTEMPTS : nat := 3.
Definition PROVIDER_REASON_MAX_LENGTH : nat := 500.

(** ** Redaction *)

Definition is_alnum (c : ascii) : bool := is_digit c || is_upper c || is_lower c.

(** A maximal run of letters and digits, and what replaces it. *)
Definition redacted_run (run : chars) : chars :=
  if (16 <=? length run)%nat then chars_of "[redacted]" else run.

(** [text.replace(/[A-Za-z0-9]{16,}/g, '[redacted]')]; [run] is the run read so far. *)
Fixpoint redact (run text : chars) : chars :=
  match text with
  | [] => redacted_run run
  | c :: text => if is_alnum c then redact (run ++ [c]) text else redacted_run run ++ c :: redact [] text
  end.

Definition sanitizeProviderReason (reason : option string) : string :=
  let bounded := take PROVIDER_REASON_MAX_LENGTH (chars_of (default "Unknown provider reason" reason)) in
  string_of (redact [] bounded).

(** ** Intents and outcomes *)

Record ExecutionIntent := mkIntent {
  ei_userId : string; ei_brokerConnectionId : string; ei_clientOrderId : string;
  ei_tradeId : option string; ei_signalId : option string;
  ei_orderKind : OrderKind; ei_timeInForce : OrderTimeInForce;
  ei_instrument : string; ei_direction : string; ei_requestedQuantity : string;
  ei_requestedPrice : option string; ei_stopPrice : option string; ei_referencePrice : option string;
  ei_stopLoss : string; ei_takeProfit : string; ei_comment : option string;
  ei_strategyTimeframe : option string;
  ei_providerAction : option ProviderOperationPrimitive; ei_providerReferenceId : option string }.

Record Commitment := mkCommitment {
  cm_grantId : string; cm_confirmationId : option string; cm_origin : option FinalDispatchOrigin }.

Inductive ProviderDispatchOutcome :=
| D_FILLED (order : Order) (providerOrderId filledQuantity avgFillPrice : string)
    (realisedPnl commission swap : option string)
| D_WORKING (order : Order) (providerOrderId : string)
| D_REJECTED (order : Order) (reason : string)
| D_UNKNOWN (order : Order) (reason : string) (certainty : ProviderDispatchCertainty)
| D_DUPLICATE (order : Order).

Definition submission_of (i : ExecutionIntent) : SubmitOrderInput :=
  mkSubmit (ei_userId i) (ei_brokerConnectionId i) (ei_clientOrderId i) (Known (ei_orderKind i))
    (Known (ei_timeInForce i)) (ei_instrument i) (ei_direction i) (ei_requestedQuantity i)
    (ei_requestedPrice i) (ei_stopPrice i) (ei_signalId i) (ei_tradeId i).

Definition certainty_text (c : ProviderDispatchCertainty) : string :=
  match c with
  | DEFINITELY_NOT_SENT => "DEFINITELY_NOT_SENT" | SENT_RESPONSE_RECEIVED => "SENT_RESPONSE_RECEIVED"
  | MAY_HAVE_REACHED_PROVIDER => "MAY_HAVE_REACHED_PROVIDER"
  end.

Definition violation_text (c : OrderCapabilityViolationCode) : string :=
  match c with
  | ORDER_KIND_NOT_SUPPORTED => "ORDER_KIND_NOT_SUPPORTED" | LIMIT_PRICE_REQUIRED => "LIMIT_PRICE_REQUIRED"
  | STOP_PRICE_REQUIRED => "STOP_PRICE_REQUIRED"
  end.

(** True only for adapter failures proven to have never left the platform. *)
Definition isDefinitelyNotSent (e : dexn) : bool :=
  match e with
  | AdapterFailure e => bool_decide (ae_dispatchCertainty e = Some DEFINITELY_NOT_SENT)
  | _ => false
  end.

Definition certaintyOf (e : dexn) : ProviderDispatchCertainty :=
  match e with
  | AdapterFailure e => default MAY_HAVE_REACHED_PROVIDER (ae_dispatchCertainty e)
  | _ => MAY_HAVE_REACHED_PROVIDER
  end.

Definition uncertaintyReason (message : string) (certainty : ProviderDispatchCertainty) : string :=
  let bounded := string_of (take PROVIDER_REASON_MAX_LENGTH (chars_of message)) in
  "Dispatch error (" +:+ certainty_text certainty +:+ "): " +:+ sanitizeProviderReason (Some bounded).

Section orchestrator.
Context {A P : Type} `{!EqDecision A, !BrokerAdapter A P, !PgNumeric}.
Context (sha256 : chars -> string)
        (decrypt : option string -> option string -> option string -> option string -> result BrokerAdapterError DecryptedBrokerCredentials)
        (** [err.message], and the text of a boundary refusal code. *)
        (message_of : dexn -> string) (code_text : FinalDispatchBlockedReason -> string).
Local Open Scope prog_scope.

Abbreviation wio := (wio (A := A) (P := P)).

Definition hash_text (s : string) : string := sha256 (chars_of s).

Definition audit (i : ExecutionIntent) (action resourceId code : string) : wio unit :=
  db (audit_log (mkAudit (Some (ei_userId i)) action "Order" resourceId code)).

(** ** [assertDispatchable] *)

Definition forbidden {X} (message : string) : wio X := Throw (Platform (ForbiddenException message)).

(** [await auditService.log(..); throw new ForbiddenException(..)]. *)
Definition refuse_dispatch (userId reason message : string) : wio unit :=
  do! db (audit_log (mkAudit (Some userId) "ORDER_REJECTED" "Order" "not-dispatched" reason)) in forbidden message.

Definition assertDispatchable (userId : string) (connection : BrokerConnection)
    (operation : option ProviderOperationClass) : wio unit :=
  let operationClass := default NEW_EXPOSURE operation in
  let* permission := db (checkExecutionPermission userId (Some (b_brokerId connection)) (Some (b_id connection))) in
  if negb (allowed permission) && isExposureIncreasingOperation operationClass
  then refuse_dispatch userId "EXECUTION_CONTROL_BLOCKED" "Execution blocked by platform control plane"
  else
    let* connection := catch (find_connection (b_id connection) userId)
                         (fun _ => forbidden "Broker connection is no longer available for dispatch (fail-closed).") in
    if bool_decide (b_accountType connection = "LIVE") && negb (Authorization.isExecutable (b_authorizationStatus connection))
       && isExposureIncreasingOperation operationClass
    then refuse_dispatch userId "LIVE_AUTHORIZATION_REQUIRED" "Live account is not authorized for execution"
    else if negb (direct_mt5 connection) && negb (Authorization.isUsable (b_credentialStatus connection))
    then refuse_dispatch userId "CREDENTIAL_LIFECYCLE_BLOCKED" "Broker credentials are not usable for execution"
    else if negb (direct_mt5 connection) && no_ciphertext connection
    then forbidden "Broker connection credentials unavailable (fail-closed)."
    else Ret tt.

(** ** The provider *)

(** Each attempt calls afresh; only a failure proven not sent is tried again. *)
Fixpoint withRetry (attempts : nat) (call : wio BrokerOrderResult) : wio BrokerOrderResult :=
  match attempts with
  | O => Throw (PlainError "All retry attempts exhausted")
  | S rest =>
      let* r := attempt call in
      match r with
      | Ok x => Ret x
      | Err e => if negb (isDefinitelyNotSent e) || bool_decide (rest = O) then Throw e else withRetry rest call
      end
  end.

(** [adapter.setMode(..); await adapter.connect(credentials)], on the connection's adapter. *)
Definition connect_session (connection : BrokerConnection) (credentials : DecryptedBrokerCredentials)
  : wio (A * BrokerConnectionResult) :=
  op (session_act (b_id connection) (b_brokerId connection) (fun a w =>
    let '(p, r) := connect a credentials (setMode a (b_accountType connection) (w_provider w)) in
    (mkWorld (w_db w) (w_registry w) p (w_wire w), match r with Ok c => Ok (a, c) | Err e => Err e end))).

Definition not_sent (code : BrokerErrorCode) (message : string) : dexn :=
  AdapterFailure (mkAdapterError code message None false (Some DEFINITELY_NOT_SENT)).

Definition order_request (i : ExecutionIntent) (key connectionReference : string) : BrokerOrderRequest :=
  mkRequest key (ei_instrument i) (ei_direction i) (ei_requestedQuantity i) (ei_stopLoss i) (ei_takeProfit i)
    (ei_comment i) (Some connectionReference) (Some (ei_orderKind i)) (Some (ei_timeInForce i))
    (ei_requestedPrice i) (ei_stopPrice i) (Some (ei_clientOrderId i)) (ei_strategyTimeframe i).

(** The state-changing call of the intent, or why there is none: the action router. *)
Definition routed_call (i : ExecutionIntent) (key connectionReference : string) : result dexn ProviderCall :=
  match ei_providerAction i with
  | Some CLOSE =>
      match ei_providerReferenceId i with
      | Some r => if bool_decide (r = "") then Err (PlainError "CLOSE_POSITION intent requires providerReferenceId")
                  else Ok (CloseOrder r (ei_requestedQuantity i))
      | None => Err (PlainError "CLOSE_POSITION intent requires providerReferenceId")
      end
  | Some PLACE => Ok (PlaceOrder (order_request i key connectionReference))
  | _ => Err (not_sent INVALID_REQUEST "Unsupported providerAction at the dispatch boundary")
  end.

Definition execute (a : A) (grant : option string) (key : string) (call : result dexn ProviderCall) : wio BrokerOrderResult :=
  match call with Ok c => op (call_act a key grant c) | Err e => Throw e end.

(** [grant] is recorded with the call, not used by it. *)
Definition dispatchToProvider (i : ExecutionIntent) (connection : BrokerConnection) (grant : option string)
  : wio BrokerOrderResult :=
  let key := generateIdempotencyKey hash_text (ei_userId i) (ei_clientOrderId i) in
  match credentials_of decrypt connection None with
  | Err e => Throw e
  | Ok credentials =>
      let* s := connect_session connection credentials in
      if cr_success s.2 && negb (bool_decide (cr_accountType s.2 = b_accountType connection))
      then Throw (not_sent ENVIRONMENT_MISMATCH "Environment mismatch at dispatch")
      else withRetry MAX_RETRY_ATTEMPTS (execute s.1 grant key (routed_call i key (accountId credentials)))
  end.

(** ** Gates between the reservation and the provider *)

(** [orderService.rejectOrder(..).catch(log)]. *)
Definition reject_quietly (orderId reason : string) : wio unit :=
  db (catch (let* _ := rejectOrder orderId reason in Ret tt) (fun _ => Ret tt)).

Definition capability_gate (i : ExecutionIntent) (connection : BrokerConnection) (orderId : string) : wio unit :=
  if bool_decide (ei_providerAction i = Some PLACE) then
    catch
      (op (session_act (b_id connection) (b_brokerId connection) (fun a w =>
         (w, assertOrderWithinCapabilities (Some (ei_orderKind i)) (ei_requestedPrice i) (ei_stopPrice i) (getOrderCapabilities a)))))
      (fun err =>
         match err with
         | OrderCapabilityError code _ =>
             do! reject_quietly orderId ("ORDER_CAPABILITY_" +:+ violation_text code +:+ ": " +:+ message_of err) in
             do! audit i "ORDER_REJECTED" orderId (violation_text code) in
             Throw err
         | _ => Throw err
         end)
  else Ret tt.

Definition market_gate (i : ExecutionIntent) (connection : BrokerConnection) (orderId : string) : wio unit :=
  if bool_decide (classifyIntentOperation (ei_providerAction i) = NEW_EXPOSURE) && bool_decide (ei_providerAction i = Some PLACE)
  then assertMarketSafeForDispatch decrypt (ei_userId i) (ei_brokerConnectionId i) (ei_instrument i) (ei_direction i)
         (ei_strategyTimeframe i) (ei_referencePrice i) connection orderId
  else Ret tt.

(** [if (commitment?.grantId) try { commitProviderDispatch } catch ..]; the answer is the grant
    that was consumed. *)
Definition commit_gate (i : ExecutionIntent) (orderId : string) (commitment : option Commitment) : wio (option string) :=
  match commitment with
  | Some c =>
      if bool_decide (cm_grantId c = "") then Ret None
      else
        catch
          (let* a := db (commitProviderDispatch (mkCommit (ei_userId i) (cm_grantId c) (cm_confirmationId c) orderId
                                                  (default PIPELINE (cm_origin c)))) in
           Ret (Some (grant_of a)))
          (fun err =>
             match err with
             | Platform (FinalDispatchBlocked code) =>
                 do! reject_quietly orderId ("DISPATCH_BOUNDARY_" +:+ code_text code +:+ ": " +:+ message_of err) in
                 do! audit i "ORDER_REJECTED" orderId (code_text code) in
                 Throw err
             | _ => Throw err
             end)
  | None => Ret None
  end.

(** ** Recording the outcome *)

(** The row a transition reloads; rows are never deleted. *)
Definition the_row (o : option Order) : wio Order :=
  match o with Some o => Ret o | None => Throw (PlainError "TypeError") end.

Definition transition (p : io (option Order)) : wio Order := let* o := db p in the_row o.

(** The [catch] around the provider dispatch: [order] is the last value assigned. *)
Definition settle_unknown (i : ExecutionIntent) (order : Order) (err : dexn) : wio ProviderDispatchOutcome :=
  let certainty := certaintyOf err in
  let reason := uncertaintyReason (message_of err) certainty in
  let* moved := attempt
    (let* order := transition (markReconciliationPending (o_id order)) in
     do! audit i "ORDER_RECONCILIATION_PENDING" (o_id order) (certainty_text certainty) in
     Ret order) in
  Ret (D_UNKNOWN (match moved with Ok o => o | Err _ => order end) reason certainty).

(** A statement of the [try] block. *)
Definition guarded {X} (i : ExecutionIntent) (order : Order) (p : wio X) (k : X -> wio ProviderDispatchOutcome)
  : wio ProviderDispatchOutcome :=
  let* r := attempt p in
  match r with Ok x => k x | Err e => settle_unknown i order e end.

Definition record_fill (i : ExecutionIntent) (order : Order) (pid fillQuantity : option string) (fillPrice : string)
    (pnl commission swap : option string) : wio ProviderDispatchOutcome :=
  guarded i order
    (match pid with
     | Some id =>
         if bool_decide (id = "") then Ret order
         else let* o := transition (markAcknowledged (o_id order) id) in
              do! audit i "ORDER_ACKNOWLEDGED" (o_id o) "acknowledged" in Ret o
     | None => Ret order
     end)
    (fun order =>
       guarded i order
         (let* filled := db (applyFill (o_id order)
                               (mkFill (default (ei_requestedQuantity i) fillQuantity) fillPrice pid)) in
          do! audit i "ORDER_FILLED" (o_id filled) "filled" in Ret filled)
         (fun filled =>
            Ret (D_FILLED filled
                   (match o_providerOrderId filled with Some p => p | None => default "" pid end)
                   (numeric_out 4 (o_filled filled))
                   (match o_avg filled with Some a => numeric_out 8 a | None => fillPrice end)
                   pnl commission swap))).

Definition record_reply (i : ExecutionIntent) (order : Order) (result : BrokerOrderResult) : wio ProviderDispatchOutcome :=
  match mapProviderOrderResponse result with
  | ACKNOWLEDGE_AND_FILL pid fillQuantity fillPrice pnl commission swap =>
      record_fill i order pid fillQuantity fillPrice pnl commission swap
  | ACKNOWLEDGE pid =>
      guarded i order
        (let* o := transition (markAcknowledged (o_id order) pid) in
         do! audit i "ORDER_ACKNOWLEDGED" (o_id o) "acknowledged" in Ret o)
        (fun o => Ret (D_WORKING o pid))
  | REJECT reason =>
      let sanitizedReason := sanitizeProviderReason (Some reason) in
      guarded i order
        (let* o := transition (rejectOrder (o_id order) sanitizedReason) in
         do! audit i "ORDER_REJECTED" (o_id o) "rejected" in Ret o)
        (fun o => Ret (D_REJECTED o sanitizedReason))
  | RECONCILIATION_PENDING reason =>
      guarded i order
        (let* o := transition (markReconciliationPending (o_id order)) in
         do! audit i "ORDER_RECONCILIATION_PENDING" (o_id o) (certainty_text MAY_HAVE_REACHED_PROVIDER) in Ret o)
        (fun o => Ret (D_UNKNOWN o reason MAY_HAVE_REACHED_PROVIDER))
  end.

(** ** [dispatchOrder] *)

(** From the new reservation to the commitment: the submitted order and the consumed grant. *)
Definition prepare (i : ExecutionIntent) (connection : BrokerConnection) (commitment : option Commitment)
    (order : Order) : wio (Order * option string) :=
  let* order := transition (markSubmitted (o_id order) None) in
  do! audit i "ORDER_SUBMITTED" (o_id order) "submitted" in
  do! capability_gate i connection (o_id order) in
  do! market_gate i connection (o_id order) in
  let* grant := commit_gate i (o_id order) commitment in
  Ret (order, grant).

(** From the new reservation on. *)
Definition dispatch_reserved (i : ExecutionIntent) (connection : BrokerConnection) (commitment : option Commitment)
    (order : Order) : wio ProviderDispatchOutcome :=
  let* ready := prepare i connection commitment order in
  guarded i ready.1 (dispatchToProvider i connection ready.2) (record_reply i ready.1).

Definition dispatchOrderUnderLease (newId : string) (i : ExecutionIntent) (connection : BrokerConnection)
    (commitment : option Commitment) : wio ProviderDispatchOutcome :=
  let* submission := db (submitOrder hash_text newId (submission_of i)) in
  match submission with
  | DUPLICATE_EXISTING order =>
      do! audit i "ORDER_DUPLICATE_SUPPRESSED" (o_id order) "duplicate" in
      Ret (D_DUPLICATE order)
  | RESERVED_NEW order => dispatch_reserved i connection commitment order
  end.
End orchestrator.

(** ** What redaction leaves *)

(** No run of letters and digits reaches sixteen, [k] of them already read. *)
Fixpoint short_runs (k : nat) (l : chars) : bool :=
  match l with
  | [] => true
  | c :: l => if is_alnum c then (S k <? 16)%nat && short_runs (S k) l else short_runs 0 l
  end.

Lemma short_runs_app k run rest :
  Forall (fun c => is_alnum c = true) run -> (k + length run < 16)%nat ->
  short_runs k (run ++ rest) = short_runs (k + length run) rest.
Proof.
  revert k. induction run as [|c run IH]; intros k Ha Hk; [by rewrite Nat.add_0_r|].
  inversion_clear Ha as [|?? Hc Hr]. cbn [length app short_runs] in *. rewrite Hc, IH by (done || lia).
  rewrite (proj2 (Nat.ltb_lt (S k) 16)) by lia. cbn [andb]. by replace (S k + length run)%nat with (k + S (length run))%nat by lia.
Qed.

Lemma short_runs_redacted run rest :
  Forall (fun c => is_alnum c = true) run ->
  match rest with [] => True | c :: _ => is_alnum c = false end ->
  short_runs 0 (redacted_run run ++ rest) = short_runs 0 rest.
Proof.
  intros Ha Hr. unfold redacted_run. destruct (16 <=? length run)%nat eqn:E; [done|].
  apply Nat.leb_gt in E. rewrite short_runs_app by done. destruct rest as [|c rest]; [done|]. cbn [short_runs]. by rewrite Hr.
Qed.

Lemma redact_short run text :
  Forall (fun c => is_alnum c = true) run -> short_runs 0 (redact run text) = true.
Proof.
  revert run. induction text as [|c text IH]; intros run Ha; cbn [redact].
  - rewrite <- (app_nil_r (redacted_run run)). by rewrite short_runs_redacted.
  - destruct (is_alnum c) eqn:Hc; [apply IH, Forall_app; auto|].
    rewrite short_runs_redacted by done. cbn [short_runs]. rewrite Hc. by apply IH.
Qed.

Lemma redact_length run text : (length (redact run text) <= length run + length text)%nat.
Proof.
  assert (forall r, length (redacted_run r) <= length r)%nat as Hr.
  { intros r. unfold redacted_run. destruct (16 <=? length r)%nat eqn:E; [|done]. apply Nat.leb_le in E. cbn. lia. }
  revert run. induction text as [|c text IH]; intros run; cbn [redact]; [rewrite Nat.add_0_r; apply Hr|].
  destruct (is_alnum c); [specialize (IH (run ++ [c]))|specialize (IH []); specialize (Hr run)];
    rewrite ?length_app in *; cbn [length] in *; lia.
Qed.

Lemma redact_id run text :
  Forall (fun c => is_alnum c = true) run -> (length run < 16)%nat ->
  short_runs (length run) text = true -> redact run text = run ++ text.
Proof.
  revert run. induction text as [|c text IH]; intros run Ha Hl Hs; cbn [redact short_runs] in *.
  - unfold redacted_run. rewrite (proj2 (Nat.leb_gt 16 (length run))) by lia. by rewrite app_nil_r.
  - destruct (is_alnum c) eqn:Hc.
    + apply andb_true_iff in Hs as [H1 H2]. apply Nat.ltb_lt in H1. rewrite IH; [by rewrite <- app_assoc| | |].
      * apply Forall_app; auto.
      * rewrite length_app. cbn. lia.
      * rewrite length_app. cbn. by rewrite Nat.add_1_r.
    + unfold redacted_run. rewrite (proj2 (Nat.leb_gt 16 (length run))) by lia. f_equal. f_equal. by apply IH; [|cbn; lia|].
Qed.

Lemma short_runs_segment k pre seg post :
  short_runs k (pre ++ seg ++ post) = true -> Forall (fun c => is_alnum c = true) seg -> (length seg < 16)%nat.
Proof.
  revert k. induction pre as [|c pre IH]; intros k; cbn [app short_runs].
  - intros Hs Ha. assert (k + length seg < 16 \/ seg = [])%nat as [?| ->]; [|lia|cbn; lia].
    revert k Hs. induction Ha as [|c seg Hc Ha IHs]; intros k; [by right|]. cbn [app short_runs]. rewrite Hc.
    intros [H1%Nat.ltb_lt H2]%andb_true_iff. left. destruct (IHs _ H2) as [?| ->]; cbn in *; lia.
  - destruct (is_alnum c); [intros [_ Hs]%andb_true_iff|intros Hs]; by apply (IH _ Hs).
Qed.

(** a provider reason is stored bounded and redacted.  Whatever the provider says, what is
    kept has at most 500 characters and no sixteen letters or digits in a row, so no token or
    account key of that shape; a text within the bound that has no such run is kept as it is. *)
Theorem redaction_exact reason :
  let out := chars_of (sanitizeProviderReason reason) in
  let text := chars_of (default "Unknown provider reason" reason) in
  (length out <= PROVIDER_REASON_MAX_LENGTH)%nat /\
  (forall pre seg post, out = pre ++ seg ++ post -> Forall (fun c => is_alnum c = true) seg -> (length seg < 16)%nat) /\
  ((length text <= PROVIDER_REASON_MAX_LENGTH)%nat -> short_runs 0 text = true -> out = text).
Proof.
  cbv zeta. unfold sanitizeProviderReason. rewrite chars_of_string_of. set (text := chars_of _). split; [|split].
  - pose proof (redact_length [] (take PROVIDER_REASON_MAX_LENGTH text)) as H. rewrite length_take in H. cbn [length] in H. lia.
  - intros pre seg post Ho. apply (short_runs_segment 0 pre seg post). rewrite <- Ho. by apply redact_short.
  - intros Hl Hs. rewrite take_ge by done. by apply redact_id; [|cbn; lia|].
Qed.

(** A message with an account key, and one without. *)
Lemma redaction_exact_witness :
  sanitizeProviderReason (Some "denied for key a1b2c3d4e5f6a7b8c9 (code 10016)") =
    "denied for key [redacted] (code 10016)" /\
  chars_of (sanitizeProviderReason (Some "market closed")) = chars_of "market closed".
Proof.
  split; [vm_compute; reflexivity|].
  apply (proj2 (proj2 (redaction_exact (Some "market closed")))); [vm_compute; lia|reflexivity].
Defined.
