(* ===== verification/Dispatch.v ===== *)
(** * Properties of the dispatch path

    What [Orchestrator] guarantees: provider calls are made at most once per order key and per
    grant under any interleaving, only failures proven not sent are retried, an exception means
    no provider call, every outcome is recorded on the order; and where it departs from its
    documentation. *)

From S2P Require Import Prelude Prog JsString StateMachines Store OrderService RiskGrants Authority Boundary.
From S2P Require Import JsMap AdapterRegistry Adapter MarketSafety Orchestrator.
From S2P Require Provider.
Import Provider.Operation Provider.Response.
Open Scope string_scope.
Open Scope list_scope.
Open Scope Z_scope.

(** ** What the platform's statements keep *)

(** The order table and the authority tables only evolve. *)
Definition core_rel (d d' : DB) : Prop := order_rel d d' /\ authority_rel d d'.

#[export] Instance core_rel_preorder : PreOrder core_rel.
Proof. split; [by intros d|]. intros x y z [] []. split; by etransitivity. Qed.

Definition same_authority (d d' : DB) : Prop := grants d' = grants d /\ confirmations d' = confirmations d.

#[export] Instance same_authority_preorder : PreOrder same_authority.
Proof. split; unfold same_authority; [done|]. intros ??? [-> ->] [-> ->]. done. Qed.

Lemma same_authority_rel d d' : same_authority d d' -> authority_rel d d'.
Proof. intros [Hg Hc]. by apply authority_rel_same. Qed.

Lemma core_of_order {X} (p : io X) : guar order_rel p -> guar same_authority p -> guar core_rel p.
Proof.
  intros Ho Ha. eapply guar_weaken; [|apply (guar_and _ _ _ Ho Ha)].
  intros d d' [? ?%same_authority_rel]. done.
Qed.

Section order_statements.
Context `{!PgNumeric}.

Lemma authority_update p f id : guar same_authority (order_update p f id).
Proof. apply guar_op. intros d. unfold order_update_act. by repeat case_match. Qed.

Lemma authority_transition id to x : guar same_authority (applyTransition id to x).
Proof. unfold applyTransition, findOrderById. guar_walk. apply authority_update. Qed.

Lemma core_transition id to x : guar core_rel (applyTransition id to x).
Proof. apply core_of_order; [apply guar_applyTransition|apply authority_transition]. Qed.

Lemma core_fill id f : guar core_rel (applyFill id f).
Proof.
  apply core_of_order; [apply guar_applyFill|].
  unfold applyFill, findOrderById. guar_walk. apply authority_update.
Qed.

Lemma core_submit hash newId i : guar core_rel (submitOrder hash newId i).
Proof.
  apply core_of_order; [apply guar_submitOrder|].
  unfold submitOrder. guar_walk. apply guar_op. intros d. unfold order_insert_act. by repeat case_match.
Qed.

End order_statements.

Lemma core_keeps {X} (p : io X) : guar keeps_rows p -> guar core_rel p.
Proof.
  apply guar_weaken. intros d d' Hk. split; [by apply keeps_order|by apply keeps_authority].
Qed.

Lemma core_audit e : guar core_rel (audit_log e).
Proof. apply core_keeps, guar_audit_keeps. Qed.

Lemma core_advances {X} (p : io X) : guar advances p -> guar core_rel p.
Proof. apply guar_weaken. by intros d d' [? ? _]. Qed.

#[export] Hint Resolve core_transition core_fill core_submit core_audit : irex.

(** What a dispatch asks of the store, kept by [R]. *)
Class Dispatchable `{!PgNumeric} (R : DB -> DB -> Prop) := {
  dr_preorder :: PreOrder R;
  dr_transition id to x : guar R (applyTransition id to x);
  dr_fill id f : guar R (applyFill id f);
  dr_submit hash newId i : guar R (submitOrder hash newId i);
  dr_audit e : guar R (audit_log e);
  dr_check u b c : guar R (checkExecutionPermission u b c);
  dr_commit i : guar R (commitProviderDispatch i) }.

#[export] Instance core_dispatchable `{!PgNumeric} : Dispatchable core_rel.
Proof.
  split; try apply _; intros; eauto with irex; [apply core_keeps, keeps_check|apply core_advances, guar_commit].
Qed.

Section world.
Context {A P : Type} `{!EqDecision A, !BrokerAdapter A P}.

Abbreviation world := (World A P).

Definition on_db (R : DB -> DB -> Prop) (w w' : world) : Prop := R (w_db w) (w_db w').

#[export] Instance on_db_preorder R : PreOrder R -> PreOrder (on_db R).
Proof. intros [Hr Ht]. split; [by intros w; apply Hr|]. intros x y z. apply Ht. Qed.

Lemma on_db_db {X} R (p : io X) : guar R p -> guar (on_db R) (db (A := A) (P := P) p).
Proof. apply guar_db. done. Qed.

Lemma on_db_side {X} R `{!Reflexive R} (act : world -> world * result dexn X) :
  (forall w, same_db w (fst (act w))) -> guar (on_db R) (op act).
Proof. intros Hs. apply guar_op. intros w. unfold on_db. by rewrite (Hs w). Qed.
End world.

(** The walk of a program on the world: what is left is a statement of the store, a use of the
    registry or a step of the providers. *)
Ltac world_walk :=
  guar_walk;
  try (apply db_same_wire);
  try (apply on_db_db; eauto with irex; guar_walk; eauto with irex; apply guar_op; intros ?; reflexivity);
  try (apply on_db_side; [typeclasses eauto|]; intros ?);
  try (apply guar_op; intros ?);
  try (apply provider_db); try (apply provider_wire); try (apply call_db);
  try (first [apply session_db|apply session_wire]; intros ? ? _; by repeat case_match).

(** ** What a dispatch keeps, and where it calls the provider *)

Section dispatch.
Context {A P : Type} `{!EqDecision A, !BrokerAdapter A P, !PgNumeric}.
Context (sha256 : chars -> string)
        (decrypt : option string -> option string -> option string -> option string -> result BrokerAdapterError DecryptedBrokerCredentials)
        (message_of : dexn -> string) (code_text : FinalDispatchBlockedReason -> string).

Abbreviation world := (World A P).
Abbreviation dispatch := (dispatchOrderUnderLease (A := A) (P := P) sha256 decrypt message_of code_text).

Section kept.
Context {R : DB -> DB -> Prop} `{!Dispatchable R}.

#[local] Hint Resolve dr_transition dr_fill dr_submit dr_audit dr_check dr_commit : irex.

Lemma core_assert u b c : guar (on_db R) (assertDispatchable (A := A) (P := P) u b c).
Proof. unfold assertDispatchable, refuse_dispatch, forbidden, find_connection. world_walk. Qed.

Lemma core_capability i b id : guar (on_db R) (capability_gate (A := A) (P := P) message_of i b id).
Proof. unfold capability_gate, reject_quietly, rejectOrder, audit. world_walk. Qed.

Lemma core_market i b id : guar (on_db R) (market_gate (A := A) (P := P) decrypt i b id).
Proof.
  unfold market_gate, assertMarketSafeForDispatch, getCurrentPriceForConnection, find_connection, quote_session,
    rejectForMarketSafety, rejectOrder. world_walk.
Qed.

Lemma core_commit_gate i id c : guar (on_db R) (commit_gate (A := A) (P := P) message_of code_text i id c).
Proof. unfold commit_gate, reject_quietly, rejectOrder, audit. world_walk. Qed.

Lemma core_retry n (p : wio BrokerOrderResult) :
  guar (on_db R) p -> guar (on_db R) (withRetry (A := A) (P := P) n p).
Proof. intros Hp. induction n as [|n IH]; [done|]. cbn [withRetry]. guar_walk; [done|apply IH]. Qed.

Lemma core_provider i b g : guar (on_db R) (dispatchToProvider (A := A) (P := P) sha256 decrypt i b g).
Proof.
  unfold dispatchToProvider, connect_session. guar_walk; [world_walk|].
  apply core_retry. unfold execute. world_walk.
Qed.

Lemma core_settle i o e : guar (on_db R) (settle_unknown (A := A) (P := P) message_of i o e).
Proof. unfold settle_unknown, transition, markReconciliationPending, the_row, audit. world_walk. Qed.

Lemma core_guarded {X} i o (p : wio X) k :
  guar (on_db R) p -> (forall x, guar (on_db R) (k x)) ->
  guar (on_db R) (guarded (A := A) (P := P) message_of i o p k).
Proof. intros Hp Hk. unfold guarded. guar_walk; [done|apply Hk|apply core_settle]. Qed.

Lemma core_record i o r : guar (on_db R) (record_reply (A := A) (P := P) message_of i o r).
Proof.
  unfold record_reply, record_fill. destruct (mapProviderOrderResponse r); repeat (apply core_guarded; [|intros ?]);
    unfold transition, the_row, audit, markReconciliationPending, markAcknowledged, rejectOrder; world_walk.
Qed.

Lemma core_dispatch newId i b c : guar (on_db R) (dispatch newId i b c).
Proof.
  unfold dispatchOrderUnderLease, dispatch_reserved, prepare, transition, markSubmitted, the_row, audit.
  guar_walk; try apply core_capability; try apply core_market; try apply core_commit_gate; try (world_walk; fail).
  all: try (apply core_guarded; [apply core_provider|intros r; apply core_record]).
  all: world_walk.
Qed.

End kept.

Lemma provider_same_db i b g : guar same_db (dispatchToProvider (A := A) (P := P) sha256 decrypt i b g).
Proof.
  unfold dispatchToProvider, connect_session. guar_walk; [apply guar_op; intros ?; apply session_db; intros ? ? _; by repeat case_match|].
  generalize MAX_RETRY_ATTEMPTS. intros n. induction n as [|n IH]; [done|]. cbn [withRetry].
  guar_walk; [|apply IH]. unfold execute. guar_walk. apply guar_op. intros ?. apply call_db.
Qed.

(** Everything but [dispatchToProvider] leaves the wire alone. *)
Lemma wire_transition p : guar same_wire (transition (A := A) (P := P) p).
Proof. unfold transition, the_row. world_walk. Qed.

Lemma wire_capability i b id : guar same_wire (capability_gate (A := A) (P := P) message_of i b id).
Proof. unfold capability_gate, reject_quietly, audit. world_walk. Qed.

Lemma wire_market i b id : guar same_wire (market_gate (A := A) (P := P) decrypt i b id).
Proof. unfold market_gate. case_match; [apply gate_same_wire|done]. Qed.

Lemma wire_commit_gate i id c : guar same_wire (commit_gate (A := A) (P := P) message_of code_text i id c).
Proof. unfold commit_gate, reject_quietly, audit. world_walk. Qed.

Lemma wire_prepare i b c o : guar same_wire (prepare (A := A) (P := P) decrypt message_of code_text i b c o).
Proof.
  unfold prepare. guar_walk; [apply wire_transition|unfold audit; world_walk|apply wire_capability|apply wire_market|].
  apply wire_commit_gate.
Qed.

Lemma wire_settle i o e : guar same_wire (settle_unknown (A := A) (P := P) message_of i o e).
Proof. unfold settle_unknown, audit. guar_walk; try apply wire_transition; world_walk. Qed.

Lemma wire_guarded {X} i o (p : wio X) k :
  guar same_wire p -> (forall x, guar same_wire (k x)) -> guar same_wire (guarded (A := A) (P := P) message_of i o p k).
Proof. intros Hp Hk. unfold guarded. guar_walk; [done|apply Hk|apply wire_settle]. Qed.

Lemma wire_record i o r : guar same_wire (record_reply (A := A) (P := P) message_of i o r).
Proof.
  unfold record_reply, record_fill. destruct (mapProviderOrderResponse r); repeat (apply wire_guarded; [|intros ?]);
    unfold audit; guar_walk; try apply wire_transition; world_walk.
Qed.

(** *** Counting provider calls *)

Abbreviation lost := (Platform DbUnavailable).

(** The call is not proven to have stayed on the platform. *)
Definition possibly_sent (c : WireCall) : bool :=
  match wc_reply c with Err e => negb (isDefinitelyNotSent e) | Ok _ => true end.

Definition key_of (i : ExecutionIntent) : string := generateIdempotencyKey (hash_text sha256) (ei_userId i) (ei_clientOrderId i).

Lemma wire_still {X} f (p : wio X) : guar same_wire p -> guar (still (calls_of (A := A) (P := P) f)) p.
Proof. apply guar_weaken. intros w w'. apply same_wire_still. Qed.

Lemma call_counts f a key g c w :
  calls_of f (fst (call_act (A := A) (P := P) a key g c w)) =
    calls_of f w + (if f (mkWire key g c (snd (call_act a key g c w))) then 1 else 0).
Proof.
  unfold call_act, calls_of. destruct (perform a c (w_provider w)) as [p r]. cbn [fst snd w_wire].
  rewrite List.filter_app, length_app. cbn [List.filter]. destruct (f _); cbn [length]; lia.
Qed.

(** [gone]: the token of the dispatch was taken. *)
Section counting.
Context (gone : world -> bool).

Lemma execute_spends f a g key c : spends lost gone (calls_of f) 1 (execute (A := A) (P := P) a g key c).
Proof.
  destruct c as [c|e]; [|done]. cbn [execute op spends of_result]. split; [|done]. intros w _.
  exists (if f (mkWire key g c (snd (call_act a key g c w))) then 1 else 0). rewrite call_counts.
  destruct (snd (call_act a key g c w)); destruct (f _); cbn; lia.
Qed.

Lemma retry_spends f n call :
  spends lost gone (calls_of f) 1 call -> spends lost gone (calls_of f) (Z.of_nat n) (withRetry (A := A) (P := P) n call).
Proof.
  intros Hc. induction n as [|n IH]; [done|]. cbn [withRetry]. replace (Z.of_nat (S n)) with (1 + Z.of_nat n) by lia.
  apply spends_bind_add; [by apply spends_attempt| |lia]. intros [x|e]; [cbn; lia|].
  destruct (_ || _); [cbn; lia|done].
Qed.

(** Of the calls that may have reached the provider there is one at most. *)
Lemma retry_sent f n a g key c :
  (forall x, f x = true -> possibly_sent x = true) ->
  spends lost gone (calls_of f) 1 (withRetry (A := A) (P := P) n (execute a g key c)).
Proof.
  intros Hf. induction n as [|n IH]; [cbn; lia|]. cbn [withRetry]. destruct c as [c|e].
  2:{ cbn [execute attempt bind]. destruct (_ || _); [cbn; lia|done]. }
  cbn [execute op attempt bind]. split.
  2:{ cbn. lia. }
  intros w _. rewrite call_counts. destruct (snd (call_act a key g c w)) as [x|e] eqn:E; cbn [of_result attempt bind].
  - exists 1. destruct (f _); cbn; lia.
  - destruct (isDefinitelyNotSent e) eqn:Hs.
    + exists 0. destruct (f (mkWire key g c (Err e))) eqn:Hfe.
      { apply Hf in Hfe. cbn in Hfe. by rewrite Hs in Hfe. }
      rewrite !Z.sub_0_r. split; [lia|]. split; [done|]. split; [|cbn; lia].
      cbn [negb orb]. destruct (bool_decide _); [cbn; lia|done].
    + exists 1. destruct (f _); cbn; lia.
Qed.

Lemma provider_spends f n i b g :
  0 <= n -> (forall a c, spends lost gone (calls_of f) n (withRetry (A := A) (P := P) 3 (execute a g (key_of i) c))) ->
  spends lost gone (calls_of f) n (dispatchToProvider (A := A) (P := P) sha256 decrypt i b g).
Proof.
  intros Hn Hr. unfold dispatchToProvider. destruct (credentials_of _ _ _) as [cr|e]; [|done].
  apply spends_bind; [|intros [a c]; case_match; [done|apply Hr]|done].
  apply wire_still. unfold connect_session. world_walk.
Qed.

(** A call whose tag [f] ignores does not count. *)
Lemma provider_ignored f i b g :
  (forall c r, f (mkWire (key_of i) g c r) = false) ->
  guar (still (calls_of f)) (dispatchToProvider (A := A) (P := P) sha256 decrypt i b g).
Proof.
  intros Hf. unfold dispatchToProvider. destruct (credentials_of _ _ _) as [cr|e]; [|done].
  apply guar_bind; [apply wire_still; unfold connect_session; world_walk|]. intros [a c]. case_match; [done|].
  set (call := execute _ _ _ _). assert (guar (still (calls_of f)) call) as Hc.
  { unfold call, execute. case_match; [|done]. apply guar_op. intros w. unfold still. rewrite call_counts, Hf. lia. }
  clearbody call. generalize MAX_RETRY_ATTEMPTS. intros n. induction n as [|n IH]; [done|]. cbn [withRetry].
  guar_walk; [done|apply IH].
Qed.

Lemma guarded_spends f n i o g b :
  spends lost gone (calls_of f) n (dispatchToProvider (A := A) (P := P) sha256 decrypt i b g) ->
  spends lost gone (calls_of f) n (guarded message_of i o (dispatchToProvider sha256 decrypt i b g) (record_reply message_of i o)).
Proof.
  intros Hp. unfold guarded. apply spends_bind_still; [by apply spends_attempt|].
  intros [x|e]; apply wire_still; [apply wire_record|apply wire_settle].
Qed.

Lemma guarded_ignored f i o g b :
  (forall c r, f (mkWire (key_of i) g c r) = false) ->
  guar (still (calls_of f)) (guarded (A := A) (P := P) message_of i o (dispatchToProvider sha256 decrypt i b g) (record_reply message_of i o)).
Proof.
  intros Hp. unfold guarded. apply guar_bind; [by apply guar_attempt, provider_ignored|].
  intros [x|e]; apply wire_still; [apply wire_record|apply wire_settle].
Qed.
End counting.

(** *** One order key *)

Lemma reserved_gated key f n newId i b c :
  0 <= n -> (forall w, f w = true -> wc_key w = key) ->
  (forall a g k c, spends lost (fun w => reserved key (w_db w)) (calls_of f) n (withRetry (A := A) (P := P) 3 (execute a g k c))) ->
  gated lost (fun w : world => reserved key (w_db w)) (calls_of f) n (dispatch newId i b c).
Proof.
  intros Hn Hf Hr. unfold dispatchOrderUnderLease.
  assert (forall o, guar same_wire (let* _ := audit (A := A) (P := P) i "ORDER_DUPLICATE_SUPPRESSED" (o_id o) "duplicate" in
                                    Ret (D_DUPLICATE o))%prog) as Hdup by (intros o; unfold audit; world_walk).
  destruct (decide (key = key_of i)) as [->|Hne].
  - apply (gated_bind_wins _ _ _ _ (fun s => match s with RESERVED_NEW _ => true | _ => false end)); [done| | | |].
    + apply wire_still, db_same_wire.
    + apply (needs_db (reserved (key_of i))), needs_submit; [done|]. by intros o Ho _.
    + intros [o|o]; [intros _|done]. apply spends_bind; [apply wire_still, wire_prepare|intros r|done].
      apply guarded_spends, provider_spends; [done|]. intros a' c'. apply Hr.
    + intros [o|o]; [done|intros _]. apply gated_still, wire_still, Hdup.
  - apply gated_still. apply guar_bind; [apply wire_still, db_same_wire|]. intros [o|o]; [|apply wire_still, Hdup].
    apply guar_bind; [apply wire_still, wire_prepare|intros r1].
    apply guarded_ignored. intros c' r. destruct (f _) eqn:E; [|done]. apply Hf in E. by destruct Hne.
Qed.

(** *** One grant *)

Lemma commit_gate_needs gid i id c :
  needs lost (fun w : world => spent gid (w_db w)) (fun g => bool_decide (g = Some gid))
    (commit_gate (A := A) (P := P) message_of code_text i id c).
Proof.
  unfold commit_gate. destruct c as [c|]; [|done]. case_bool_decide; [done|]. apply needs_catch.
  - match goal with |- context [db (commitProviderDispatch ?x)] => set (input := x) end.
    assert (needs lost (fun w : world => spent gid (w_db w)) (fun a => bool_decide (Some (grant_of a) = Some gid))
              (db (A := A) (P := P) (commitProviderDispatch input))) as Hn.
    { apply (needs_db (spent gid)), (needs_commit gid). }
    revert Hn. generalize (db (A := A) (P := P) (commitProviderDispatch input)). intros p Hn.
    by apply (needs_map lost _ (fun g => bool_decide (g = Some gid)) (fun a => Some (grant_of a)) p).
  - intros e. cbv beta. destruct e as [e| | | |]; cbv iota; [destruct e; cbv iota|..];
      lazymatch goal with |- needs _ _ _ (Throw _) => exact I | _ => idtac end.
    apply needs_bind_r. intros _. apply needs_bind_r. intros _. exact I.
Qed.

Lemma granted_gated gid f n newId i b c :
  0 <= n -> (forall w, f w = true -> wc_grant w = Some gid) ->
  (forall a g k c, spends lost (fun w => spent gid (w_db w)) (calls_of f) n (withRetry (A := A) (P := P) 3 (execute a g k c))) ->
  gated lost (fun w : world => spent gid (w_db w)) (calls_of f) n (dispatch newId i b c).
Proof.
  intros Hn Hf Hr. unfold dispatchOrderUnderLease. apply gated_bind_r; [apply wire_still, db_same_wire|].
  intros [o|o]; [|apply gated_still, wire_still; unfold audit; world_walk].
  apply (gated_bind_wins _ _ _ _ (fun r => bool_decide (r.2 = Some gid))); [done| | | |].
  - apply wire_still, wire_prepare.
  - unfold prepare. do 4 (apply needs_bind_r; intros ?).
    apply (needs_map _ _ _ (fun g => (_, g))). apply commit_gate_needs.
  - intros r _. apply guarded_spends, provider_spends; [done|]. intros a' c'. apply Hr.
  - intros r Hg. bool_to_prop. apply gated_still, guarded_ignored. intros c' x.
    destruct (f _) eqn:E; [|done]. by apply Hf in E.
Qed.

(** *** Pools of calls *)

Section pools.
Context (date_parses : chars -> bool) (catalog : list Provider.Live.BrokerDefinition) (isSupportedId : string -> bool).

(** Dispatches, dispatchability checks, and whatever else runs on the same store: order calls,
    boundary, grant and authority calls. *)
Inductive dcall :=
| DDispatch (newId : string) (i : ExecutionIntent) (connection : BrokerConnection) (commitment : option Commitment)
| DAssert (userId : string) (connection : BrokerConnection) (operation : option ProviderOperationClass)
| DOrder (c : OrderService.call)
| DBoundary (c : bcall).

Definition run_dcall (c : dcall) : wio unit :=
  (match c with
   | DDispatch newId i b cm => let* _ := dispatch newId i b cm in Ret tt
   | DAssert u b op => assertDispatchable u b op
   | DOrder c => let* _ := db (run_call (hash_text sha256) c) in Ret tt
   | DBoundary c => let* _ := db (run_bcall sha256 date_parses catalog isSupportedId c) in Ret tt
   end)%prog.

Lemma core_call c : guar core_rel (run_call (hash_text sha256) c).
Proof.
  apply core_of_order; [apply guar_call|].
  destruct c; cbn [run_call]; try (apply guar_bind; [|done]); unfold submitOrder, markSubmitted, markAcknowledged, rejectOrder,
    cancelOrder, expireOrder, markReconciliationPending, resolveReconciliation, resolveReconciliationFillState, applyFill,
    cmp_or_throw, findOrderById; guar_walk; try apply authority_transition; try apply authority_update.
  apply guar_op. intros d. unfold order_insert_act. by repeat case_match.
Qed.

Lemma core_dcall c : guar (on_db core_rel) (run_dcall c).
Proof.
  destruct c as [newId i b cm|u b op|c|c]; cbn [run_dcall]; [|apply core_assert| |].
  - apply guar_bind; [apply core_dispatch|done].
  - apply guar_bind; [apply on_db_db, core_call|done].
  - apply guar_bind; [apply on_db_db, core_advances, guar_bcall|done].
Qed.

Lemma wire_assert u b op : guar same_wire (assertDispatchable (A := A) (P := P) u b op).
Proof. unfold assertDispatchable, refuse_dispatch, forbidden, find_connection. world_walk. Qed.

(** Gated dispatches make a gated pool. *)
Lemma pool_gated spent f n cs :
  0 <= n -> (forall newId i b cm, gated lost spent (calls_of f) n (dispatch newId i b cm)) ->
  Forall (gated lost spent (calls_of f) n) (run_dcall <$> cs).
Proof.
  intros Hn Hd. apply Forall_fmap, Forall_true. intros [newId i b cm|u b op|c|c]; cbn [compose run_dcall].
  - assert (gated lost spent (calls_of f) n (bind (dispatch newId i b cm) (fun _ => Ret tt))) as Hg; [|exact Hg].
    by apply gated_bind.
  - apply gated_still, wire_still, wire_assert.
  - apply gated_still, wire_still. apply guar_bind; [apply db_same_wire|done].
  - apply gated_still, wire_still. apply guar_bind; [apply db_same_wire|done].
Qed.

Lemma pool_allowance spent f n cs sched w :
  0 <= n -> (forall d d', core_rel d d' -> stays spent d d') ->
  (forall newId i b cm, gated lost (fun w : world => spent (w_db w)) (calls_of f) n (dispatch newId i b cm)) ->
  let w' := fst (exec lost sched (w, run_dcall <$> cs)) in
  calls_of f w' <= calls_of f w + n /\
  (calls_of f w < calls_of f w' -> spent (w_db w) = false /\ spent (w_db w') = true).
Proof.
  intros Hn Hst Hd. cbv zeta.
  apply (allowance lost (fun w : world => spent (w_db w)) (calls_of f) n sched (w, run_dcall <$> cs)); [done| |].
  - apply Forall_fmap, Forall_true. intros c. eapply guar_weaken; [|apply core_dcall].
    intros x y Hxy. apply (Hst _ _ Hxy).
  - by apply pool_gated.
Qed.

Lemma execute_possibly gone f a g k c :
  (forall x, f x = true -> possibly_sent x = true) ->
  spends lost gone (calls_of f) 1 (withRetry (A := A) (P := P) 3 (execute a g k c)).
Proof. apply retry_sent. Qed.

Lemma execute_three gone f a g k c : spends lost gone (calls_of f) 3 (withRetry (A := A) (P := P) 3 (execute a g k c)).
Proof. apply (retry_spends gone f 3), execute_spends. Qed.

(** one provider dispatch per order key.  Whatever dispatches, checks, order, boundary, grant
    and authority calls run together, under any interleaving and any lost statements, calls or
    acknowledgements: at most three state-changing provider calls are made for one idempotency
    key, of which at most one is not proven to have stayed on the platform; and none at all
    when the key was reserved before, or is still free at the end. *)
Theorem dispatch_once key cs sched w :
  let w' := fst (exec lost sched (w, run_dcall <$> cs)) in
  let made c := bool_decide (wc_key c = key) in
  let sent c := made c && possibly_sent c in
  calls_of made w' <= calls_of made w + 3 /\ calls_of sent w' <= calls_of sent w + 1 /\
  (calls_of made w < calls_of made w' -> reserved key (w_db w) = false /\ reserved key (w_db w') = true).
Proof.
  cbv zeta. assert (forall d d', core_rel d d' -> stays (reserved key) d d') as Hst
    by (intros d d' [Ho _]; by apply order_rel_reserved).
  destruct (pool_allowance (reserved key) (fun c => bool_decide (wc_key c = key)) 3 cs sched w) as [Hm Hs]; [done|done| |].
  { intros. apply reserved_gated; [done|intros x Hx; by bool_to_prop|intros; apply execute_three]. }
  destruct (pool_allowance (reserved key) (fun c => bool_decide (wc_key c = key) && possibly_sent c) 1 cs sched w)
    as [Hm1 _]; [done|done| |].
  { intros. apply reserved_gated; [done|intros x Hx; by bool_to_prop|]. intros. apply execute_possibly.
    intros x Hx. by apply andb_true_iff in Hx as [_ ?]. }
  done.
Qed.

(** a grant buys one provider dispatch.  In the same pools and under the same faults, at most
    three state-changing calls are made under one risk grant, of which at most one is not
    proven to have stayed on the platform, whatever order keys the dispatches use; when one is
    made the grant was not consumed at the start and is at the end. *)
Theorem grant_one_call gid cs sched w :
  let w' := fst (exec lost sched (w, run_dcall <$> cs)) in
  let made c := bool_decide (wc_grant c = Some gid) in
  let sent c := made c && possibly_sent c in
  calls_of made w' <= calls_of made w + 3 /\ calls_of sent w' <= calls_of sent w + 1 /\
  (calls_of made w < calls_of made w' -> spent gid (w_db w) = false /\ spent gid (w_db w') = true).
Proof.
  cbv zeta. assert (forall d d', core_rel d d' -> stays (spent gid) d d') as Hst
    by (intros d d' [_ Ha]; by apply authority_rel_spent).
  destruct (pool_allowance (spent gid) (fun c => bool_decide (wc_grant c = Some gid)) 3 cs sched w) as [Hm Hs]; [done|done| |].
  { intros. apply granted_gated; [done|intros x Hx; by bool_to_prop|intros; apply execute_three]. }
  destruct (pool_allowance (spent gid) (fun c => bool_decide (wc_grant c = Some gid) && possibly_sent c) 1 cs sched w)
    as [Hm1 _]; [done|done| |].
  { intros. apply granted_gated; [done|intros x Hx; by bool_to_prop|]. intros. apply execute_possibly.
    intros x Hx. by apply andb_true_iff in Hx as [_ ?]. }
  done.
Qed.

End pools.

(** ** A dispatch that runs alone *)

Abbreviation of_run := (run (S := world) (E := dexn)).

(** The row [o] is stored under its id. *)
Definition stored_row (o : Order) (w : world) : Prop := orders (w_db w) !! o_id o = Some o.

(** An order the dispatch may still settle. *)
Definition open_order (o : Order) : Prop :=
  o_status o = Order.SUBMITTED \/ o_status o = Order.DISPATCH_COMMITTED \/ o_status o = Order.ACKNOWLEDGED.

(** The store holds an open row under [id]. *)
Definition open_at (id : string) (w : world) : Prop :=
  orders_wf (w_db w) /\ exists o, orders (w_db w) !! id = Some o /\ open_order o.

Lemma wf_run {X} (p : wio X) w : guar (on_db core_rel) p -> orders_wf (w_db w) -> orders_wf (w_db (fst (run p w) : world)).
Proof.
  intros Hp Hwf. destruct (guar_run (on_db core_rel) p w ltac:(typeclasses eauto) Hp) as [[_ Ho] _]. by apply Ho.
Qed.

Lemma run_audit_entry i a r c w :
  exists l, run (audit (A := A) (P := P) i a r c) w = (put_db (set_audit l (w_db w)) w, Ok tt).
Proof. unfold audit. rewrite run_db. unfold audit_log. run_simpl. by eexists. Qed.

Lemma run_transition_ok id to x w o :
  orders_wf (w_db w) -> orders (w_db w) !! id = Some o -> to <> Order.FILLED -> to <> Order.PARTIALLY_FILLED ->
  Order.can (Known (o_status o)) to = true ->
  exists o', run (transition (A := A) (P := P) (applyTransition id to x)) w =
      (put_db (set_orders (<[id := o']> (orders (w_db w))) (w_db w)) w, Ok o') /\
    transition_patch to x (now (w_db w)) o = Ok o' /\ o_id o' = id /\
    stored_row o' (put_db (set_orders (<[id := o']> (orders (w_db w))) (w_db w)) w) /\
    orders_wf (set_orders (<[id := o']> (orders (w_db w))) (w_db w)).
Proof.
  intros Hwf Ho H1 H2 Hc. pose proof (transition_total id to x (w_db w) o Hwf Ho H1 H2) as Ht. rewrite Hc in Ht.
  destruct Ht as (o' & Hr & Hp & _). exists o'.
  assert (o_id o' = id) as Hid by (injection Hp as <-; cbn; apply (proj1 Hwf id o Ho)).
  pose proof (guar_run order_rel _ (w_db w) ltac:(typeclasses eauto) (guar_applyTransition id to x)) as [_ Hwf'].
  rewrite Hr in Hwf'. unfold transition. rewrite run_bind, run_db, Hr. cbn [inject the_row run].
  split; [done|]. split; [done|]. split; [done|]. split; [|by apply Hwf'].
  unfold stored_row. cbn. by rewrite Hid, lookup_insert_eq.
Qed.

Lemma open_settles o to : open_order o ->
  to = Order.RECONCILIATION_PENDING \/ to = Order.REJECTED -> Order.can (Known (o_status o)) to = true.
Proof. by intros [->|[->| ->]] [->| ->]. Qed.

Lemma run_guarded {X} i o (p : wio X) k w :
  run (guarded (A := A) (P := P) message_of i o p k) w =
    match run p w with
    | (w1, Ok x) => run (k x) w1
    | (w1, Err e) => run (settle_unknown message_of i o e) w1
    end.
Proof. unfold guarded. rewrite run_bind, run_attempt. by destruct (run p w) as [w1 [x|e]]. Qed.

(** What the answer of a dispatch says of the store it leaves. *)
Definition recorded (out : ProviderDispatchOutcome) (w : world) : Prop :=
  match out with
  | D_FILLED o _ _ _ _ _ _ => stored_row o w /\ (o_status o = Order.FILLED \/ o_status o = Order.PARTIALLY_FILLED)
  | D_WORKING o pid => stored_row o w /\ o_status o = Order.ACKNOWLEDGED /\ o_providerOrderId o = Some pid
  | D_REJECTED o reason => stored_row o w /\ o_status o = Order.REJECTED /\ o_rejectReason o = Some (slice500 reason)
  | D_UNKNOWN o _ _ => stored_row o w /\ o_status o = Order.RECONCILIATION_PENDING
  | D_DUPLICATE o => stored_row o w
  end.

Definition order_of (out : ProviderDispatchOutcome) : Order :=
  match out with D_FILLED o _ _ _ _ _ _ | D_WORKING o _ | D_REJECTED o _ | D_UNKNOWN o _ _ | D_DUPLICATE o => o end.

(** The run of [p] answers an outcome for the order [id], recorded. *)
Definition records (id : string) (p : wio ProviderDispatchOutcome) (w : world) : Prop :=
  exists w' out, run p w = (w', Ok out) /\ recorded out w' /\ o_id (order_of out) = id /\
    match out with D_DUPLICATE _ => False | _ => True end.

Lemma settle_records i o e w :
  open_at (o_id o) w ->
  exists w' o', run (settle_unknown (A := A) (P := P) message_of i o e) w =
      (w', Ok (D_UNKNOWN o' (uncertaintyReason (message_of e) (certaintyOf e)) (certaintyOf e))) /\
    stored_row o' w' /\ o_status o' = Order.RECONCILIATION_PENDING /\ o_id o' = o_id o.
Proof.
  intros (Hwf & r & Hr & Ho). unfold settle_unknown, markReconciliationPending. rewrite run_bind, run_attempt, run_bind.
  destruct (run_transition_ok (o_id o) Order.RECONCILIATION_PENDING (mkExtras None None false) w r Hwf Hr)
    as (o' & -> & Hp & Hid & Hst & _); [done|done|by apply open_settles; [|left]|].
  cbn [fst snd]. rewrite run_bind. destruct (run_audit_entry i "ORDER_RECONCILIATION_PENDING" (o_id o')
    (certainty_text (certaintyOf e)) (put_db (set_orders (<[o_id o := o']> (orders (w_db w))) (w_db w)) w)) as [l ->].
  cbn [run]. eexists _, o'. split; [done|]. split; [done|]. split; [by injection Hp as <-|done].
Qed.

Lemma settle_recorded i o e w : open_at (o_id o) w -> records (o_id o) (settle_unknown message_of i o e) w.
Proof. intros (w' & o' & Hr & Hs & Hst & Hid)%(settle_records i o e). by exists w', (D_UNKNOWN o' (uncertaintyReason (message_of e) (certaintyOf e)) (certaintyOf e)). Qed.

Lemma run_fill_cases id f d d' r :
  run (applyFill id f) d = (d', r) ->
  (d' = d /\ is_ok r = false) \/
  exists o o', orders d !! id = Some o /\ r = Ok o' /\ d' = set_orders (<[id := o']> (orders d)) d /\ o_id o' = o_id o /\
    (o_status o' = Order.FILLED \/ o_status o' = Order.PARTIALLY_FILLED).
Proof.
  unfold applyFill, findOrderById, order_update. destruct (validateFill f); [|intros [= <- <-]; by left].
  run_simpl. destruct (orders d !! id) as [o|] eqn:Ho; [|intros [= <- <-]; by left].
  destruct (negb _); [intros [= <- <-]; by left|]. run_simpl.
  destruct (order_update_act _ _ id d) as [d1 [x|e]] eqn:E.
  2:{ apply order_update_cases in E as [[-> _]|(? & ? & _ & _ & _ & _ & _ & ?)]; [intros [= <- <-]; by left|done]. }
  apply order_update_cases in E as [[-> Hn]|(o0 & o' & Ho0 & _ & Hf & _ & -> & [= ->])].
  - destruct x as [x|]; [by destruct (Hn x)|]. run_simpl. rewrite Ho. case_match; intros [= <- <-]; by left.
  - intros [= <- <-]. right. rewrite Ho in Ho0. injection Ho0 as <-. exists o, o'. split; [done|]. split; [done|]. split; [done|].
    unfold fill_patch in Hf. cbv zeta in Hf.
    destruct (match (if o_filled o =? 0 then _ else _) with Some a => _ | None => _ end); [done|]. injection Hf as <-.
    split; [done|]. cbn. case_match; tauto.
Qed.

(** The store holds an order the provider may be asked for. *)
Definition sendable_at (id : string) (w : world) : Prop :=
  orders_wf (w_db w) /\ exists o, orders (w_db w) !! id = Some o /\
    (o_status o = Order.SUBMITTED \/ o_status o = Order.DISPATCH_COMMITTED).

Lemma sendable_open id w : sendable_at id w -> open_at id w.
Proof. intros (Hwf & o & Ho & [Hs|Hs]); split; [done| |done|]; exists o; split; try done; [by left|by right; left]. Qed.

Lemma open_same id w w' : orders (w_db w') = orders (w_db w) -> open_at id w -> open_at id w'.
Proof. intros He. unfold open_at, orders_wf. by rewrite He. Qed.

(** A transition followed by its audit entry. *)
Lemma run_marked i id to x action code w r :
  orders_wf (w_db w) -> orders (w_db w) !! id = Some r -> to <> Order.FILLED -> to <> Order.PARTIALLY_FILLED ->
  Order.can (Known (o_status r)) to = true ->
  exists w' o', run (let* o := transition (A := A) (P := P) (applyTransition id to x) in
                     do! audit i action (o_id o) code in Ret o)%prog w = (w', Ok o') /\
    stored_row o' w' /\ orders_wf (w_db w') /\ o_id o' = id /\ transition_patch to x (now (w_db w)) r = Ok o'.
Proof.
  intros Hwf Hr H1 H2 Hc. rewrite run_bind.
  destruct (run_transition_ok id to x w r Hwf Hr H1 H2 Hc) as (o' & -> & Hp & Hid & Hst & Hwf').
  rewrite run_bind. destruct (run_audit_entry i action (o_id o') code
    (put_db (set_orders (<[id := o']> (orders (w_db w))) (w_db w)) w)) as [l ->]. cbn [run].
  eexists _, o'. split; [done|]. split; [done|]. split; [done|]. done.
Qed.

Lemma fill_records i o pid q price pnl com swap w :
  open_at (o_id o) w ->
  records (o_id o)
    (guarded message_of i o
       (let* filled := db (applyFill (o_id o) (mkFill q price pid)) in
        do! audit i "ORDER_FILLED" (o_id filled) "filled" in Ret filled)%prog
       (fun filled => Ret (D_FILLED filled
           (match o_providerOrderId filled with Some p => p | None => default "" pid end)
           (numeric_out 4 (o_filled filled))
           (match o_avg filled with Some a => numeric_out 8 a | None => price end) pnl com swap))) w.
Proof.
  intros Hopen. unfold records. rewrite run_guarded, run_bind, run_db.
  destruct (run (applyFill _ _) (w_db w)) as [d r] eqn:Hr.
  apply run_fill_cases in Hr as [[-> Hr]|(r0 & o' & Hrow & -> & -> & Hid & Hst)].
  - destruct r as [x|e]; [done|]. cbn [inject]. apply settle_recorded. by eapply open_same.
  - cbn [inject]. rewrite run_bind. destruct (run_audit_entry i "ORDER_FILLED" (o_id o') "filled"
      (put_db (set_orders (<[o_id o := o']> (orders (w_db w))) (w_db w)) w)) as [l ->]. cbn [run].
    assert (o_id o' = o_id o) as He by (destruct Hopen as [[Hrows _] _]; destruct (Hrows _ _ Hrow); congruence).
    eexists _, _. split; [done|]. cbn [recorded order_of]. split; [|done]. split; [|done].
    unfold stored_row. cbn. by rewrite He, lookup_insert_eq.
Qed.

Lemma reply_records i o r w : sendable_at (o_id o) w -> records (o_id o) (record_reply message_of i o r) w.
Proof.
  intros Hs. pose proof (sendable_open _ _ Hs) as Hopen. destruct Hs as (Hwf & row & Hrow & Hst).
  assert (Order.can (Known (o_status row)) Order.ACKNOWLEDGED = true) as Hack by by destruct Hst as [->| ->].
  assert (open_order row) as Ho by (destruct Hst; unfold open_order; tauto).
  unfold record_reply. destruct (mapProviderOrderResponse r) as [pid q price pnl com swap|pid|reason|reason].
  - unfold record_fill, records. rewrite run_guarded.
    destruct pid as [id|]; [|cbn [run]; by apply fill_records]. case_bool_decide; [cbn [run]; by apply fill_records|].
    unfold markAcknowledged. destruct (blank id) eqn:Hb; [cbn [transition db lift bind run]; by apply settle_recorded|].
    destruct (run_marked i (o_id o) Order.ACKNOWLEDGED (mkExtras (Some id) None false) "ORDER_ACKNOWLEDGED" "acknowledged"
      w row Hwf Hrow) as (w' & o1 & -> & Hs1 & Hwf1 & Hid1 & Hp1); [done..|].
    rewrite <- Hid1. apply fill_records. split; [done|]. exists o1. split; [done|].
    right; right. by injection Hp1 as <-.
  - unfold records. rewrite run_guarded. unfold markAcknowledged.
    destruct (blank pid) eqn:Hb; [cbn [transition db lift bind run]; by apply settle_recorded|].
    destruct (run_marked i (o_id o) Order.ACKNOWLEDGED (mkExtras (Some pid) None false) "ORDER_ACKNOWLEDGED" "acknowledged"
      w row Hwf Hrow) as (w' & o1 & -> & Hs1 & Hwf1 & Hid1 & Hp1); [done..|].
    exists w', (D_WORKING o1 pid). cbn [run recorded order_of]. split; [done|]. split; [|done]. split; [done|].
    by injection Hp1 as <-.
  - unfold records. rewrite run_guarded. unfold rejectOrder. cbv zeta.
    destruct (blank _) eqn:Hb; [cbn [transition db lift bind run]; by apply settle_recorded|].
    destruct (run_marked i (o_id o) Order.REJECTED (mkExtras None (Some (slice500 (sanitizeProviderReason (Some reason)))) false)
      "ORDER_REJECTED" "rejected" w row Hwf Hrow) as (w' & o1 & -> & Hs1 & Hwf1 & Hid1 & Hp1);
      [done|done|by apply open_settles; [|right]|].
    exists w', (D_REJECTED o1 (sanitizeProviderReason (Some reason))). cbn [run recorded order_of].
    split; [done|]. split; [|done]. split; [done|]. by injection Hp1 as <-.
  - unfold records. rewrite run_guarded. unfold markReconciliationPending.
    destruct (run_marked i (o_id o) Order.RECONCILIATION_PENDING (mkExtras None None false)
      "ORDER_RECONCILIATION_PENDING" (certainty_text MAY_HAVE_REACHED_PROVIDER) w row Hwf Hrow)
      as (w' & o1 & -> & Hs1 & Hwf1 & Hid1 & Hp1); [done|done|by apply open_settles; [|left]|].
    exists w', (D_UNKNOWN o1 reason MAY_HAVE_REACHED_PROVIDER). cbn [run recorded order_of].
    split; [done|]. split; [|done]. split; [done|]. by injection Hp1 as <-.
Qed.

(** *** The gates *)

Definition submitted_at (id : string) (w : world) : Prop :=
  orders_wf (w_db w) /\ exists o, orders (w_db w) !! id = Some o /\ o_status o = Order.SUBMITTED.

Definition rejected_at (id : string) (w : world) : Prop :=
  exists o, orders (w_db w) !! id = Some o /\ o_status o = Order.REJECTED.

(** The typed refusals of the three gates. *)
Definition typed_refusal (e : dexn) : bool :=
  match e with
  | Platform (FinalDispatchBlocked _) | OrderCapabilityError _ _ | MarketSafetyError _ => true
  | _ => false
  end.

(** A gate that passes leaves [Q]; one that refuses with a typed error leaves the order rejected. *)
Definition gate {X} (id : string) (p : wio X) (Q : X -> world -> Prop) : Prop :=
  forall w, submitted_at id w ->
    match run p w with
    | (w', Ok x) => Q x w'
    | (w', Err e) => typed_refusal e = true -> rejected_at id w'
    end.

Lemma submitted_same id w w' : orders (w_db w') = orders (w_db w) -> submitted_at id w -> submitted_at id w'.
Proof. intros He. unfold submitted_at, orders_wf. by rewrite He. Qed.

Lemma gate_bind {X Y} id (p : wio X) (k : X -> wio Y) Q :
  gate id p (fun _ => submitted_at id) -> (forall x, gate id (k x) Q) -> gate id (bind p k) Q.
Proof.
  intros Hp Hk w Hw. rewrite run_bind. specialize (Hp w Hw). destruct (run p w) as [w' [x|e]]; [|done].
  by apply Hk.
Qed.

(** A program that leaves the orders alone and throws no typed refusal. *)
Lemma gate_quiet {X} id (p : wio X) :
  guar (on_db same_orders) p ->
  (forall w w' e, run p w = (w', Err e) -> typed_refusal e = false) -> gate id p (fun _ => submitted_at id).
Proof.
  intros Hp He w Hw. pose proof (guar_run (on_db same_orders) p w ltac:(typeclasses eauto) Hp) as Hr.
  destruct (run p w) as [w' [x|e]] eqn:E; [by eapply submitted_same|]. by rewrite (He _ _ _ E).
Qed.

Lemma blank_prefix c s : is_space c = false -> blank (String c s) = false.
Proof.
  intros Hc. unfold blank. apply bool_decide_eq_false. unfold trim, chars_of. cbn [list_ascii_of_string drop_while].
  rewrite Hc. cbn [rev]. intros Hn. apply (f_equal (@rev ascii)) in Hn. rewrite rev_involutive in Hn. cbn in Hn.
  assert (forall l, drop_while is_space (l ++ [c]) <> []) as Hd; [|by apply Hd in Hn].
  induction l as [|x l IH]; cbn; [by rewrite Hc|]. by destruct (is_space x).
Qed.

(** The refusal: reject, audit, throw. *)
Lemma refuse_rejects id reason (p : wio unit) w :
  submitted_at id w -> blank reason = false ->
  (forall w, exists l, run p w = (put_db (set_audit l (w_db w)) w, Ok tt)) ->
  forall X (e : dexn), exists w', run (do! reject_quietly id reason in do! p in Throw (A := X) e)%prog w = (w', Err e) /\ rejected_at id w'.
Proof.
  intros (Hwf & o & Ho & Hs) Hb Hp X e. unfold reject_quietly, rejectOrder. rewrite Hb, run_bind, run_db, run_catch, run_bind.
  pose proof (transition_total id Order.REJECTED (mkExtras None (Some (slice500 reason)) false) (w_db w) o Hwf Ho
                ltac:(done) ltac:(done)) as Ht.
  rewrite Hs in Ht. change (Order.can (Known Order.SUBMITTED) Order.REJECTED) with true in Ht.
  destruct Ht as (o' & -> & _ & _ & Hst & _). cbn [run inject]. rewrite run_bind.
  destruct (Hp (put_db (set_orders (<[id := o']> (orders (w_db w))) (w_db w)) w)) as [l ->]. cbn [run].
  eexists. split; [done|]. exists o'. cbn. by rewrite lookup_insert_eq.
Qed.

(** A use of the registry that refuses nothing itself. *)
Lemma session_error {X} cid bid (f : A -> world -> world * result dexn X) (w w' : world) e :
  session_act cid bid f w = (w', Err e) -> (forall a w1 w2 e', f a w1 = (w2, Err e') -> typed_refusal e' = false) ->
  typed_refusal e = false.
Proof.
  unfold session_act. destruct (getAdapterForConnection _ _ _ _ _) as [[r p] [a|e']] eqn:Hg; [eauto|].
  intros [= _ <-] _. apply connection_errors in Hg. by destruct e'.
Qed.

Lemma gate_capability i b id : gate id (capability_gate message_of i b id) (fun _ => submitted_at id).
Proof.
  intros w Hw. unfold capability_gate. case_bool_decide; [|done]. rewrite run_catch, run_op. unfold session_act.
  destruct (getAdapterForConnection _ _ _ _ _) as [[r p] [a|e]] eqn:Hg.
  - set (w' := mkWorld _ r p _). assert (submitted_at id w') as Hw' by (eapply submitted_same; [|exact Hw]; done).
    destruct (assertOrderWithinCapabilities _ _ _ _) as [[]|e] eqn:Hc; [done|].
    assert (exists code bid, e = OrderCapabilityError code bid) as (code & bid & ->).
    { revert Hc. unfold assertOrderWithinCapabilities. repeat case_match; intros [= <-]; eauto. }
    destruct (refuse_rejects id ("ORDER_CAPABILITY_" +:+ violation_text code +:+ ": " +:+ message_of (OrderCapabilityError code bid))
      (audit i "ORDER_REJECTED" id (violation_text code)) w' Hw' ltac:(by apply blank_prefix) ltac:(intros; apply run_audit_entry)
      unit (OrderCapabilityError code bid)) as (w2 & -> & Hr). done.
  - cbn [run]. apply connection_errors in Hg. by destruct e.
Qed.

(** The quote never throws a typed refusal, and leaves the store alone. *)
Lemma price_error u c ins tf (w w' : world) e :
  run (getCurrentPriceForConnection decrypt u c ins tf) w = (w', Err e) -> typed_refusal e = false.
Proof.
  unfold getCurrentPriceForConnection, find_connection. rewrite run_bind, run_db. cbn [run op].
  destruct (findConnectionById c u (w_db w)) as [b|e0] eqn:Hf; cbn [of_result run inject].
  2:{ intros [= _ <-]. revert Hf. unfold findConnectionById. repeat case_match; by intros [= <-]. }
  repeat (case_match; [by intros [= _ <-]|]). rewrite run_bind. unfold quote_session. rewrite run_op.
  destruct (session_act _ _ _ _) as [w1 [[[a cr] on]|e1]] eqn:Hs.
  - rewrite run_catch. by destruct (run _ w1) as [w2 [x|e2]].
  - intros [= _ <-]. eapply session_error; [exact Hs|]. cbn. intros a w2 w3 e2. unfold credentials_of.
    repeat case_match; intros; by simplify_eq/=.
Qed.

Lemma price_orders u c ins tf : guar (on_db same_orders) (getCurrentPriceForConnection (A := A) (P := P) decrypt u c ins tf).
Proof.
  unfold getCurrentPriceForConnection, find_connection, quote_session. world_walk.
Qed.

Lemma gate_market i b id : gate id (market_gate decrypt i b id) (fun _ => submitted_at id).
Proof.
  unfold market_gate. destruct (_ && _); [|intros w Hw; done]. unfold assertMarketSafeForDispatch.
  apply gate_bind; [apply gate_quiet; [apply price_orders|apply price_error]|intros quote].
  apply gate_bind; [apply gate_quiet; [by apply on_db_db, guar_read|intros ? ? ?; discriminate]|intros t].
  destruct (market_verdict _ _ _ _ _) as [[r|]|e]; [|by intros w Hw..]. intros w Hw. unfold rejectForMarketSafety. cbv zeta.
  destruct (refuse_rejects id ("MARKET_SAFETY_" +:+ failure_text r.1 +:+ ": " +:+ r.2)
     (db (audit_log (mkAudit (Some (ei_userId i)) "ORDER_REJECTED" "Order" id (failure_text r.1)))) w Hw
     ltac:(by apply blank_prefix) ltac:(intros w0; apply (run_audit_entry i)) unit (MarketSafetyError r.1)) as (w2 & Hr & Hrej).
  unfold reject_quietly in Hr. by rewrite Hr.
Qed.

(** A commitment that succeeds moves the order; one that fails leaves the orders alone. *)
Lemma commit_orders i d :
  match run (commitProviderDispatch i) d with
  | (d', Ok _) => exists o o', orders d !! ci_orderId i = Some o /\ o_status o = Order.SUBMITTED /\
      o_status o' = Order.DISPATCH_COMMITTED /\ orders d' = <[ci_orderId i := o']> (orders d)
  | (d', Err _) => orders d' = orders d
  end.
Proof.
  assert (forall X (p : io X) d, guar keeps_rows p -> orders (fst (run p d)) = orders d) as Hk.
  { intros X p d0 Hp. destruct (guar_run keeps_rows p d0 ltac:(typeclasses eauto) Hp) as [_ _ ->]. done. }
  unfold commitProviderDispatch. rewrite run_bind.
  pose proof (Hk _ (commit_grant i) d ltac:(eauto with irex)) as H1.
  destruct (run (commit_grant i) d) as [d1 [g|e]]; [|done]. rewrite run_bind.
  pose proof (Hk _ (commit_authority i g) d1 ltac:(eauto with irex)) as H2.
  destruct (run (commit_authority i g) d1) as [d2 [[]|e]]; cbn [fst] in *; [|congruence]. rewrite run_bind.
  pose proof (Hk _ (commit_session i g) d2 ltac:(eauto with irex)) as H3.
  destruct (run (commit_session i g) d2) as [d3 [s|e]]; cbn [fst] in *; [|congruence]. rewrite run_bind.
  pose proof (Hk _ (commit_connection i g) d3 ltac:(eauto with irex)) as H4.
  destruct (run (commit_connection i g) d3) as [d4 [[b t]|e]]; cbn [fst snd] in *; [|congruence]. rewrite run_bind.
  assert (orders d4 = orders d) as H0 by congruence. unfold commitment. rewrite run_catch, run_transaction.
  destruct (run (commitment_body i g t) d4) as [d5 [[]|e]] eqn:Hb.
  - apply run_commitment in Hb. destruct Hb as [_ _ (o & o' & Ho & Hs & Hp & Heq) _]. cbn [run].
    rewrite H0 in *. exists o, o'. split; [done|]. split; [done|]. split; [by injection Hp as <-|done].
  - pose proof (Hk _ (blocked (A := unit) (boundaryInput i)
      (if bool_decide (e = CommitmentLost "COMMITMENT_ORDER_TRANSITION_LOST") then ORDER_COMMITMENT_TRANSITION_LOST
       else GRANT_CONSUME_RACE_LOST) (Some (g_id g))) d4 ltac:(apply guar_blocked)) as H5.
    unfold blocked in *. rewrite run_bind in *. destruct (run (catch _ _) d4) as [d6 [x|e']]; cbn [run fst] in *; congruence.
Qed.

Lemma gate_commit i id c :
  gate id (commit_gate message_of code_text i id c) (fun _ => sendable_at id).
Proof.
  assert (forall w, submitted_at id w -> sendable_at id w) as Hsub.
  { intros w (Hwf & o & Ho & Hs). split; [done|]. exists o. tauto. }
  intros w Hw. pose proof (wf_run _ w (core_commit_gate i id c) (proj1 Hw)) as Hwf'. revert Hwf'. unfold commit_gate.
  destruct c as [c|]; [|by intros _; apply Hsub]. case_bool_decide; [by intros _; apply Hsub|].
  rewrite run_catch, run_bind, run_db. set (input := mkCommit _ _ _ _ _).
  pose proof (commit_orders input (w_db w)) as Hc. destruct (run (commitProviderDispatch input) (w_db w)) as [d [a|e]].
  - cbn [inject run fst]. intros Hwf'. destruct Hc as (o & o' & _ & _ & Hs & Heq). split; [done|]. exists o'. cbn.
    rewrite Heq. change (ci_orderId input) with id. rewrite lookup_insert_eq. tauto.
  - cbn [inject]. intros _. assert (submitted_at id (put_db d w)) as Hw' by (eapply submitted_same; [|exact Hw]; exact Hc).
    destruct e; cbv beta iota;
      lazymatch goal with |- context [reject_quietly] => idtac | _ => cbn [run typed_refusal]; discriminate end.
    destruct (refuse_rejects id ("DISPATCH_BOUNDARY_" +:+ code_text reason +:+ ": " +:+ message_of (Platform (FinalDispatchBlocked reason)))
      (audit i "ORDER_REJECTED" id (code_text reason)) (put_db d w) Hw' ltac:(by apply blank_prefix) ltac:(intros; apply run_audit_entry)
      (option string) (Platform (FinalDispatchBlocked reason))) as (w2 & -> & Hr). done.
Qed.

(** *** The dispatch as a whole *)

Lemma submit_cases newId i d d' r :
  orders_wf d -> run (submitOrder (hash_text sha256) newId i) d = (d', r) ->
  match r with
  | Ok (RESERVED_NEW o) => orders_wf d' /\ orders d' !! newId = Some o /\ o_id o = newId /\ o_status o = Order.CREATED
  | Ok (DUPLICATE_EXISTING o) => orders d' = orders d /\ orders d !! o_id o = Some o
  | Err _ => orders d' = orders d
  end.
Proof.
  intros Hwf Hr. pose proof (guar_run order_rel _ d ltac:(typeclasses eauto) (guar_submitOrder (hash_text sha256) newId i)) as [_ Hw].
  rewrite Hr in Hw. cbn [fst] in Hw. specialize (Hw Hwf). revert Hr. unfold submitOrder.
  destruct (validateSubmission i) as [[kind tif]|e] eqn:Hv; [|by intros [= <- <-]]. cbv zeta. run_simpl.
  assert (forall k o, find_by_key k d = Some o -> orders d !! o_id o = Some o) as Hfind.
  { intros k o (id & Ho & _)%find_row_some. by destruct (proj1 Hwf id o Ho) as [-> _]. }
  destruct (find_by_key _ d) as [o|] eqn:Hk; [intros [= <- <-]; eauto|]. run_simpl.
  destruct (order_insert_act _ d) as [d1 [o|e]] eqn:E.
  - apply order_insert_cases in E as [[_ ?]|(o1 & Hrow & _ & _ & _ & -> & [= <-])]; [done|].
    destruct (new_order_ok _ _ _ _ _ _ _ Hv Hrow) as (Hid & _ & Hs & _). run_simpl. intros [= <- <-].
    split; [done|]. cbn. rewrite Hid, lookup_insert_eq. done.
  - apply order_insert_cases in E as [[-> _]|(? & _ & _ & _ & _ & _ & ?)]; [|done]. destruct (isUniqueViolation e); run_simpl.
    + destruct (find_by_key _ d) as [o|] eqn:Hk2; intros [= <- <-]; eauto.
    + by intros [= <- <-].
Qed.

Lemma prepare_gates i b c o w :
  orders_wf (w_db w) -> orders (w_db w) !! o_id o = Some o -> o_status o = Order.CREATED ->
  match run (prepare (A := A) (P := P) decrypt message_of code_text i b c o) w with
  | (w', Ok r) => sendable_at (o_id o) w' /\ o_id r.1 = o_id o
  | (w', Err e) => typed_refusal e = true -> rejected_at (o_id o) w'
  end.
Proof.
  intros Hwf Ho Hs. unfold prepare, markSubmitted. rewrite run_bind.
  destruct (run_transition_ok (o_id o) Order.SUBMITTED (mkExtras None None true) w o Hwf Ho)
    as (o1 & -> & Hp1 & Hid1 & Hst1 & Hwf1); [done|done|by rewrite Hs|].
  set (w1 := put_db _ w) in *. assert (submitted_at (o_id o) w1) as Hw1.
  { split; [done|]. exists o1. unfold stored_row in Hst1. rewrite Hid1 in Hst1. split; [done|]. by injection Hp1 as <-. }
  clearbody w1. rewrite run_bind. destruct (run_audit_entry i "ORDER_SUBMITTED" (o_id o1) "submitted" w1) as [l ->].
  set (w2 := put_db _ w1). assert (submitted_at (o_id o) w2) as Hw2 by (eapply submitted_same; [|exact Hw1]; done).
  clearbody w2. rewrite Hid1, run_bind. pose proof (gate_capability i b (o_id o) w2 Hw2) as Hg.
  destruct (run (capability_gate _ _ _ _) w2) as [w3 [[]|e]]; [|done].
  rewrite run_bind. pose proof (gate_market i b (o_id o) w3 Hg) as Hg4.
  destruct (run (market_gate _ _ _ _) w3) as [w4 [[]|e]]; [|done].
  rewrite run_bind. pose proof (gate_commit i (o_id o) c w4 Hg4) as Hg5.
  destruct (run (commit_gate _ _ _ _ _) w4) as [w5 [g|e]]; [|done]. cbn [run fst]. done.
Qed.

(** What a dispatch that ran alone from [w] leaves. *)
Definition dispatch_left (newId : string) (w w' : world) (r : result dexn ProviderDispatchOutcome) : Prop :=
  match r with
  | Ok out => recorded out w' /\
      match out with
      | D_DUPLICATE _ => w_wire w' = w_wire w /\ orders (w_db w') = orders (w_db w)
      | _ => o_id (order_of out) = newId
      end
  | Err e => w_wire w' = w_wire w /\
      (typed_refusal e = true -> rejected_at newId w' \/ orders (w_db w') = orders (w_db w))
  end.

Lemma dispatch_outcome newId i b c w w' r :
  orders_wf (w_db w) -> run (dispatch newId i b c) w = (w', r) -> dispatch_left newId w w' r.
Proof.
  intros Hwf. unfold dispatch_left, dispatchOrderUnderLease. rewrite run_bind, run_db.
  destruct (run (submitOrder _ _ _) (w_db w)) as [d1 [[o|o]|e]] eqn:Hsub; cbn [inject];
    apply submit_cases in Hsub; try done.
  - destruct Hsub as (Hwf1 & Ho & <- & Hs). unfold dispatch_reserved. rewrite run_bind.
    pose proof (prepare_gates i b c o (put_db d1 w) Hwf1 Ho Hs) as Hg.
    pose proof (guar_run same_wire _ (put_db d1 w) ltac:(typeclasses eauto) (wire_prepare i b c o)) as Hwire.
    destruct (run (prepare _ _ _ _ _ _ _) (put_db d1 w)) as [w2 [ready|e]].
    2:{ intros [= <- <-]. split; [exact Hwire|]. auto. }
    destruct Hg as [Hsend Hid]. rewrite run_guarded.
    pose proof (guar_run same_db _ w2 ltac:(typeclasses eauto) (provider_same_db i b ready.2)) as Hdb.
    destruct (run (dispatchToProvider _ _ _ _ _) w2) as [w3 [x|e]]; cbn [fst] in Hdb; unfold same_db in Hdb.
    all: assert (sendable_at (o_id ready.1) w3) as Hsend3 by (rewrite Hid; unfold sendable_at; by rewrite Hdb).
    + destruct (reply_records i ready.1 x w3 Hsend3) as (w4 & out & -> & Hrec & Ho4 & Hnd). intros [= <- <-].
      split; [done|]. destruct out; try done; congruence.
    + destruct (settle_recorded i ready.1 e w3 (sendable_open _ _ Hsend3)) as (w4 & out & -> & Hrec & Ho4 & Hnd).
      intros [= <- <-]. split; [done|]. destruct out; try done; congruence.
  - rewrite run_bind. destruct Hsub as [Hsame Ho].
    destruct (run_audit_entry i "ORDER_DUPLICATE_SUPPRESSED" (o_id o) "duplicate" (put_db d1 w)) as [l ->]. cbn [run].
    intros [= <- <-]. split; [|done]. unfold recorded, stored_row. cbn. by rewrite Hsame.
  - intros [= <- <-]. split; [done|]. intros _. by right.
Qed.

(** C9: a dispatch alone records its outcome, and an exception means no provider call.  On a
    well-formed table: the answer's order is the stored row, FILLED or PARTIALLY_FILLED,
    ACKNOWLEDGED under the provider's id, REJECTED with the redacted reason, or
    RECONCILIATION_PENDING, as the outcome says; a duplicate makes no provider call and
    changes no order.  When it throws instead, no state-changing call was made, and if the
    error is a typed refusal of a gate the order it reserved is REJECTED. *)
Theorem dispatch_records newId i b c w w' r :
  orders_wf (w_db w) -> run (dispatch newId i b c) w = (w', r) ->
  match r with
  | Ok out => recorded out w' /\
      match out with
      | D_DUPLICATE _ => w_wire w' = w_wire w /\ orders (w_db w') = orders (w_db w)
      | _ => o_id (order_of out) = newId
      end
  | Err e => w_wire w' = w_wire w /\
      (typed_refusal e = true -> rejected_at newId w' \/ orders (w_db w') = orders (w_db w))
  end.
Proof. apply dispatch_outcome. Qed.

(** *** Retries *)

(** The providers' state after [j] calls of [c], and what the next one answers. *)
Fixpoint provider_after (a : A) (c : ProviderCall) (j : nat) (p : P) : P :=
  match j with O => p | S j => provider_after a c j (fst (perform a c p)) end.

Definition reply_at (a : A) (c : ProviderCall) (j : nat) (p : P) : result dexn BrokerOrderResult :=
  snd (perform a c (provider_after a c j p)).

(** Worth another attempt: a failure proven not sent. *)
Definition retryable (r : result dexn BrokerOrderResult) : bool :=
  match r with Err e => isDefinitelyNotSent e | Ok _ => false end.

Definition called (a : A) (key : string) (g : option string) (c : ProviderCall) (n : nat) (w : world) : world :=
  mkWorld (w_db w) (w_registry w) (provider_after a c n (w_provider w))
    (w_wire w ++ ((fun j => mkWire key g c (reply_at a c j (w_provider w))) <$> seq 0 n)).

Lemma fmap_seq_S {X} (f : nat -> X) n : f <$> seq 0 (S n) = f O :: ((fun j => f (S j)) <$> seq 0 n).
Proof.
  cbn [seq fmap list_fmap]. f_equal. rewrite <- seq_shift.
  induction (seq 0 n) as [|x l IH]; [done|]. cbn [map fmap list_fmap]. by rewrite <- IH.
Qed.

Lemma retry_calls n a key g c w :
  (0 < n)%nat ->
  (length (w_wire w) < length (w_wire (fst (run (withRetry (A := A) (P := P) n (execute a g key (Ok c))) w))))%nat.
Proof.
  revert w. induction n as [|n IH]; intros w Hn; [lia|]. cbn [withRetry execute].
  rewrite run_bind, run_attempt, run_op. unfold call_act. destruct (perform a c (w_provider w)) as [p r].
  set (w1 := mkWorld _ _ _ _). assert (length (w_wire w) < length (w_wire w1))%nat as Hw1
    by (cbn; rewrite length_app; cbn; lia).
  destruct r as [x|e]; [done|]. destruct (negb (isDefinitelyNotSent e) || bool_decide (n = O)) eqn:Hst; [done|].
  apply orb_false_iff in Hst as [_ Hn0]. bool_to_prop. etransitivity; [exact Hw1|]. apply (IH w1). lia.
Qed.

(** a state-changing call is retried exactly on failures proven not sent.  Run alone, the
    wrapper makes the calls up to the first whose answer is not such a failure, [n] at most,
    gives each of them its own attempt, and returns what the last one answered. *)
Theorem retry_exact n a key g c w :
  (0 < n)%nat ->
  exists k, (k < n)%nat /\ (forall j, (j < k)%nat -> retryable (reply_at a c j (w_provider w)) = true) /\
    (k = (n - 1)%nat \/ retryable (reply_at a c k (w_provider w)) = false) /\
    run (withRetry (A := A) (P := P) n (execute a g key (Ok c))) w = (called a key g c (S k) w, reply_at a c k (w_provider w)).
Proof.
  revert w. induction n as [|n IH]; intros w Hn; [lia|]. cbn [withRetry execute].
  rewrite run_bind, run_attempt, run_op. unfold call_act.
  destruct (perform a c (w_provider w)) as [p r] eqn:Hp.
  assert (reply_at a c 0 (w_provider w) = r) as H0 by (unfold reply_at; cbn; by rewrite Hp).
  assert (forall j, reply_at a c (S j) (w_provider w) = reply_at a c j p) as HS
    by (intros j; unfold reply_at; cbn; by rewrite Hp).
  destruct (retryable r && negb (bool_decide (n = O))) eqn:Hr.
  - apply andb_true_iff in Hr as [Hr Hn0]. bool_to_prop. destruct r as [x|e]; [done|]. cbn [retryable] in Hr. rewrite Hr.
    rewrite bool_decide_eq_false_2 by done. cbv beta iota delta [negb orb].
    destruct (IH (mkWorld (w_db w) (w_registry w) p (w_wire w ++ [mkWire key g c (Err e)])) ltac:(lia))
      as (k & Hk & Hall & Hlast & Hrun).
    exists (S k). split; [lia|]. split.
    { intros [|j] Hj; [by rewrite H0|]. rewrite HS. apply Hall. lia. }
    split; [rewrite HS; destruct Hlast; [left; lia|by right]|]. etransitivity; [exact Hrun|]. rewrite HS. f_equal.
    unfold called. cbn [w_db w_registry w_provider w_wire provider_after]. rewrite Hp. cbn [fst]. f_equal.
    rewrite <- app_assoc. f_equal. rewrite (fmap_seq_S _ (S k)), H0. cbn [app]. f_equal.
    apply list_fmap_ext. intros j x _. by rewrite HS.
  - exists 0%nat. split; [lia|]. split; [intros j Hj; lia|]. rewrite H0. split.
    { apply andb_false_iff in Hr as [?|Hr]; [by right|left]. bool_to_prop. lia. }
    assert ((p, r) = perform a c (w_provider w)) as Hpr by done.
    assert (called a key g c 1 w = mkWorld (w_db w) (w_registry w) p (w_wire w ++ [mkWire key g c r])) as ->.
    { unfold called. cbn [provider_after seq fmap list_fmap]. by rewrite Hp, H0. }
    destruct r as [x|e]; [done|]. cbn [retryable] in Hr.
    destruct (negb (isDefinitelyNotSent e) || bool_decide (n = O)) eqn:Hst; [done|].
    apply orb_false_iff in Hst as [H1 H2]. apply negb_false_iff in H1. by rewrite H1, H2 in Hr.
Qed.

(** the environment fence and the action router.  Run alone, a provider dispatch makes a
    state-changing call exactly when the credentials decrypt, the registry answers the
    connection's adapter, [connect] answers, the answer is not a success in another
    environment, and the intent's action routes to a call: so a [connect] that answers without
    success does not stop the call. *)
Theorem environment_fence i b g w :
  w_wire (fst (run (dispatchToProvider (A := A) (P := P) sha256 decrypt i b g) w)) <> w_wire w <->
  exists cr r p a answer call, credentials_of decrypt b None = Ok cr /\
    getAdapterForConnection adapterId (b_id b) (b_brokerId b) (w_registry w) (w_provider w) = (r, p, Ok a) /\
    snd (connect a cr (setMode a (b_accountType b) p)) = Ok answer /\
    (cr_success answer = true -> cr_accountType answer = b_accountType b) /\
    routed_call i (key_of i) (accountId cr) = Ok call.
Proof.
  unfold dispatchToProvider. destruct (credentials_of decrypt b None) as [cr|e] eqn:Hcr.
  2:{ split; [done|]. by intros (? & ? & ? & ? & ? & ? & ? & _). }
  rewrite run_bind. unfold connect_session. rewrite run_op. unfold session_act.
  destruct (getAdapterForConnection _ _ _ _ _) as [[r p] [a|e]] eqn:Hg.
  2:{ split; [done|]. intros (? & ? & ? & ? & ? & ? & _ & ? & _). simplify_eq. }
  cbn [w_provider]. destruct (connect a cr _) as [p1 [answer|e]] eqn:Hc.
  2:{ split; [done|]. intros (? & ? & ? & ? & ? & ? & ? & ? & Hx & _). simplify_eq. by rewrite Hc in Hx. }
  cbn [snd fst]. destruct (cr_success answer && negb (bool_decide (cr_accountType answer = b_accountType b))) eqn:Hm.
  { split; [done|]. intros (? & ? & ? & ? & ? & ? & ? & ? & Hx & Hy & _). simplify_eq. rewrite Hc in Hx. cbn in Hx.
    simplify_eq. bool_to_prop. tauto. }
  fold (key_of i). destruct (routed_call i (key_of i) (accountId cr)) as [call|e] eqn:Hroute.
  - pose proof (retry_calls MAX_RETRY_ATTEMPTS a (key_of i) g call (mkWorld (w_db w) r p1 (w_wire w))
      ltac:(unfold MAX_RETRY_ATTEMPTS; lia)) as Hl. split.
    2:{ intros _ Hx. apply (f_equal length) in Hx. exact (Nat.lt_irrefl _ (Nat.lt_le_trans _ _ _ Hl (Nat.eq_le_incl _ _ Hx))). }
    intros _.
    exists cr, r, p, a, answer, call. rewrite Hc. split; [done|]. split; [done|]. split; [done|]. split; [|done].
    intros Hs. rewrite Hs in Hm. cbn [andb] in Hm. by apply negb_false_iff, bool_decide_eq_true in Hm.
  - assert (forall n w1, w_wire (fst (run (withRetry (A := A) (P := P) n (execute a g (key_of i) (Err e))) w1)) = w_wire w1) as Hn.
    { induction n as [|n IH]; intros w1; [done|]. cbn [withRetry execute attempt bind]. case_match; [done|apply IH]. }
    rewrite Hn. split; [done|]. intros (? & ? & ? & ? & ? & ? & ? & ? & ? & ? & Hx). simplify_eq; congruence.
Qed.

(** a refusal without a readable message is recorded as an unknown outcome.  When the
    provider definitively refuses an order (REJECTED or FAILED) with a message that is blank
    once redacted, the rejection throws on its reason: the order is left
    RECONCILIATION_PENDING, and the outcome says the call may have reached the provider. *)
Theorem blank_rejection_unknown i o r m w :
  sendable_at (o_id o) w -> status r = REJECTED \/ status r = FAILED -> brokerMessage r = Some m ->
  blank (sanitizeProviderReason (Some m)) = true ->
  exists w' o' reason, run (record_reply (A := A) (P := P) message_of i o r) w =
      (w', Ok (D_UNKNOWN o' reason MAY_HAVE_REACHED_PROVIDER)) /\
    stored_row o' w' /\ o_id o' = o_id o /\ o_status o' = Order.RECONCILIATION_PENDING.
Proof.
  intros Hs Hr Hm Hb. assert (mapProviderOrderResponse r = REJECT m) as Hmap
    by (unfold mapProviderOrderResponse; destruct Hr as [->| ->]; by rewrite Hm).
  unfold record_reply. rewrite Hmap. cbv zeta. rewrite run_guarded. unfold rejectOrder. rewrite Hb.
  cbn [transition db lift bind run].
  destruct (settle_records i o (Platform (BadRequestException "reject reason")) w (sendable_open _ _ Hs))
    as (w' & o' & Hrun & ? & ? & ?).
  eexists w', o', _. split; [exact Hrun|]. done.
Qed.
End dispatch.

(** ** A scripted provider *)

(** An adapter is its broker id; the provider answers a market price and a script of replies,
    then nothing but timeouts. *)
Definition Script : Type := list (result dexn BrokerOrderResult).

Definition sample_quote_at (t : Z) : BrokerPrice := mkPrice "1.1000" "1.1002" "0.0002" (Some t).

#[global] Instance scripted : BrokerAdapter (string * bool) Script := {|
  adapterId := fst;
  setMode _ _ p := p;
  isConnected _ _ := false;
  connect _ _ p := (p, Ok (mkConnectResult true "DEMO"));
  getCurrentPrice _ _ _ p := (p, Ok (Some (sample_quote_at 1000)));
  perform _ _ p := match p with r :: p => (p, r) | [] => ([], Err (PlainError "timeout")) end;
  getOrderCapabilities a := mkDeclaration (fst a) [MARKET; LIMIT] (fun _ => None) true |}.

Definition sample_registry : Registry (string * bool) Script :=
  register fst ("oanda", false) (Some (fun b _ p => (p, (b, true)))) empty_registry.

Definition sample_world (script : Script) : World (string * bool) Script :=
  mkWorld (boundary_db FULL_AUTO "oanda" "DEMO") sample_registry script [].

Definition sample_decrypt (_ _ _ _ : option string) : result BrokerAdapterError DecryptedBrokerCredentials :=
  Ok (mkCredentials None None "acct" None None).

Definition sample_intent : ExecutionIntent :=
  mkIntent "u1" "b1" "cl2" None (Some "sig1") MARKET GTC "EURUSD" "BUY" "0.1" None None (Some "1.1001") "1.09" "1.12"
    None None (Some PLACE) None.

Definition refused (message : string) : BrokerOrderResult :=
  mkResult false REJECTED None None None None None None (Some message).
Definition filled_reply : BrokerOrderResult :=
  mkResult true FILLED (Some "p1") (Some "1.1001") (Some "0.1") None None None None.

Definition sample_dispatch (script : Script) :=
  run (dispatchOrderUnderLease string_of sample_decrypt (fun _ => "failed") (fun _ => "CODE") "o2" sample_intent
         (sample_connection "oanda" "DEMO") (Some (mkCommitment "g1" None None))) (sample_world script).

(** A failure proven not sent, then a fill: the dispatch retries, and records the fill. *)
Lemma dispatch_records_witness :
  let r := sample_dispatch [Err (not_sent INVALID_REQUEST "refused"); Ok filled_reply] in
  exists out, snd r = Ok out /\ recorded out (fst r) /\ o_id (order_of out) = "o2" /\
    length (w_wire (fst r)) = 2%nat.
Proof.
  intros r. assert (exists o p q a x y z, r = (fst r, Ok (D_FILLED o p q a x y z))) as (o & p & q & a & x & y & z & Hr)
    by (vm_compute; do 7 eexists; reflexivity).
  pose proof (dispatch_records string_of sample_decrypt (fun _ => "failed") (fun _ => "CODE") "o2" sample_intent
    (sample_connection "oanda" "DEMO") (Some (mkCommitment "g1" None None)) (sample_world [_; _]) (fst r) _
    (proj2 (boundary_db_wf FULL_AUTO "oanda" "DEMO")) Hr) as [Hrec Hid].
  exists (D_FILLED o p q a x y z). split; [rewrite Hr; reflexivity|]. split; [exact Hrec|]. split; [exact Hid|].
  vm_compute. reflexivity.
Defined.

Lemma retry_exact_witness :
  let w := sample_world [Err (not_sent INVALID_REQUEST "refused"); Err (PlainError "timeout"); Ok filled_reply] in
  let call := CloseOrder "p1" "0.1" in
  (0 < 3)%nat /\
  run (withRetry 3 (execute ("oanda", true) None "key" (Ok call))) w =
    (called ("oanda", true) "key" None call 2 w, Err (PlainError "timeout")).
Proof.
  intros w call. split; [lia|].
  destruct (retry_exact 3 ("oanda", true) "key" None call w ltac:(lia)) as (k & Hk & Hall & Hlast & Hrun).
  assert (k = 1%nat) as ->.
  { destruct k as [|[|k]]; [|reflexivity|].
    - destruct Hlast as [H|H]; [discriminate H|vm_compute in H; discriminate H].
    - specialize (Hall 1%nat ltac:(lia)). vm_compute in Hall. discriminate Hall. }
  exact Hrun.
Defined.

(** An order as it stands before the reply, and the two refusals of the sample. *)
Lemma blank_rejection_unknown_witness :
  let w := sample_world [] in
  blank (sanitizeProviderReason (Some " ")) = true /\
  exists w' o' reason,
    run (record_reply (fun _ => "failed") sample_intent sample_order (refused " ")) w =
      (w', Ok (D_UNKNOWN o' reason MAY_HAVE_REACHED_PROVIDER)) /\
    o_status o' = Order.RECONCILIATION_PENDING.
Proof.
  intros w. split; [vm_compute; reflexivity|].
  destruct (blank_rejection_unknown (fun _ => "failed") sample_intent sample_order (refused " ") " " w) as
    (w' & o' & reason & Hr & _ & _ & Hs).
  - split; [exact (proj2 (boundary_db_wf FULL_AUTO "oanda" "DEMO"))|]. exists sample_order. split; [reflexivity|left; reflexivity].
  - left. reflexivity.
  - reflexivity.
  - vm_compute. reflexivity.
  - exists w', o', reason. split; [exact Hr|exact Hs].
Defined.
