(* ===== verification/TradeCas.v ===== *)
(** * Trade lifecycle transitions ([execution/orders/trade-lifecycle-cas.service.ts])

    [TradeLifecycleCasService.applyCasTransition], statement by statement, over the trade
    table: every provider-bound transition of a trade is a conditional update, with one
    convergence step when it is lost.  What concurrent callers get is proved over any
    interleaving; what one caller gets, exactly. *)

From S2P Require Import Prelude Prog StateMachines Store.
Open Scope string_scope.
Open Scope list_scope.
Open Scope Z_scope.

(** ** Data *)

(** A [Partial<Trade>] over the columns of the model: [None] leaves a column alone. *)
Record TradePatch := mkTradePatch {
  tp_status : option Trade.TradeStatus; tp_externalOrderId : option (option string);
  tp_fillPrice : option (option string); tp_closedAt : option (option Z);
  tp_closeReason : option (option string); tp_dispatchCertainty : option (option string);
  tp_openedAt : option (option Z); tp_exitPrice : option (option string); tp_realisedPnl : option (option Z) }.

(** [{ status }]. *)
Definition status_patch (status : Trade.TradeStatus) : TradePatch :=
  mkTradePatch (Some status) None None None None None None None None.

Definition apply_patch (p : TradePatch) (t : TradeRow) : TradeRow :=
  mkTrade (t_id t) (t_userId t) (t_idempotencyKey t) (t_tradeIntentId t) (default (t_status t) (tp_status p))
    (default (t_externalOrderId t) (tp_externalOrderId p)) (default (t_fillPrice t) (tp_fillPrice p))
    (default (t_closedAt t) (tp_closedAt p)) (default (t_closeReason t) (tp_closeReason p))
    (default (t_dispatchCertainty t) (tp_dispatchCertainty p)) (t_signalId t) (t_logicalAccountKey t) (t_accountCurrency t)
    (t_riskPeriodId t) (default (t_realisedPnl t) (tp_realisedPnl p)) (t_brokerConnectionId t) (t_tradingSessionId t)
    (t_instrument t) (t_direction t) (t_lotSize t) (t_externalPositionId t) (default (t_exitPrice t) (tp_exitPrice p))
    (t_orderId t) (default (t_openedAt t) (tp_openedAt p)).

(** [params]: [expectedFrom] is one status or an array. *)
Record CasParams := mkCas {
  cas_tradeId : string; cas_expectedFrom : Trade.TradeStatus + list Trade.TradeStatus;
  cas_target : Trade.TradeStatus; cas_patch : TradePatch; cas_userId : string; cas_source : string }.

Inductive TradeCasOutcome :=
| APPLIED (trade : TradeRow)
| ALREADY_AT_TARGET (trade : TradeRow)
| PRESERVED_NEWER_TRUTH (trade : TradeRow)
| STATE_CONFLICT (trade : option TradeRow) (expected : list Trade.TradeStatus) (target : Trade.TradeStatus).

Definition trade_status_text (s : Trade.TradeStatus) : string :=
  match s with
  | Trade.PENDING => "PENDING" | Trade.OPEN => "OPEN" | Trade.CLOSED => "CLOSED"
  | Trade.REJECTED => "REJECTED" | Trade.CANCELLED => "CANCELLED"
  | Trade.RECONCILIATION_PENDING => "RECONCILIATION_PENDING"
  end.

(** ** The service *)

Section service.
Local Open Scope prog_scope.

Definition trade_update (p : TradeRow -> bool) (f : TradeRow -> TradeRow) (id : string) : io Z :=
  op (fun d => let '(m, n) := update_row p f id (trades d) in (set_trades m d, Ok n)).

Definition find_trade (id : string) : io (option TradeRow) := sel (fun d => trades d !! id).

(** Of the record only the observed status is kept. *)
Definition recordDiscrepancy (params : CasParams) (observed : option Trade.TradeStatus) : io unit :=
  audit_log (mkAudit (Some (cas_userId params)) "RECONCILIATION_DISCREPANCY_DETECTED" "Trade"
               (cas_tradeId params) (default "UNKNOWN" (trade_status_text <$> observed))).

Definition expected_of (e : Trade.TradeStatus + list Trade.TradeStatus) : list Trade.TradeStatus :=
  match e with inl s => [s] | inr l => l end.

Definition legal_of (params : CasParams) : list Trade.TradeStatus :=
  filter (fun from => Trade.can (Known from) (cas_target params) = true) (expected_of (cas_expectedFrom params)).

(** What is answered after an update that touched the row. *)
Definition answer_applied (params : CasParams) : io TradeCasOutcome :=
  let* trade := find_trade (cas_tradeId params) in
  match trade with
  | Some trade => Ret (APPLIED trade)
  | None => Ret (STATE_CONFLICT None (expected_of (cas_expectedFrom params)) (cas_target params))
  end.

Definition converge (params : CasParams) (authoritative : TradeRow) : io TradeCasOutcome :=
  let* converged := trade_update (fun t => bool_decide (t_status t = t_status authoritative))
                      (apply_patch (cas_patch params)) (cas_tradeId params) in
  if negb (converged =? 0) then answer_applied params
  else
    let* reloaded := find_trade (cas_tradeId params) in
    do! recordDiscrepancy params (t_status <$> reloaded) in
    Ret (STATE_CONFLICT reloaded (expected_of (cas_expectedFrom params)) (cas_target params)).

Definition applyCasTransition (params : CasParams) : io TradeCasOutcome :=
  let expected := expected_of (cas_expectedFrom params) in
  let target := cas_target params in
  let legal := legal_of params in
  do! (if bool_decide (legal = []) then
         match Trade.assert (match head expected with Some s => Known s | None => Absent end) target with
         | Ok _ => Ret tt
         | Err t => Throw (InvalidTradeTransition t)
         end
       else Ret tt) in
  let* applied := trade_update (fun t => bool_decide (t_status t ∈ legal)) (apply_patch (cas_patch params))
                    (cas_tradeId params) in
  if negb (applied =? 0) then answer_applied params
  else
    let* authoritative := find_trade (cas_tradeId params) in
    match authoritative with
    | None => Ret (STATE_CONFLICT None expected target)
    | Some t =>
        if bool_decide (t_status t = target) then Ret (ALREADY_AT_TARGET t)
        else if Trade.isTerminal (Known (t_status t)) then
          do! recordDiscrepancy params (Some (t_status t)) in Ret (PRESERVED_NEWER_TRUTH t)
        else if Trade.can (Known (t_status t)) target then converge params t
        else
          do! recordDiscrepancy params (Some (t_status t)) in Ret (STATE_CONFLICT (Some t) expected target)
    end.
End service.

(** ** How trades evolve *)

(** The callers' discipline: a patch sets the status it announces. *)
Definition patch_sets_target (params : CasParams) : Prop := tp_status (cas_patch params) = Some (cas_target params).

Definition terminal (t : TradeRow) : bool := Trade.isTerminal (Known (t_status t)).

(** A trade keeps its identity, moves along the table, and is frozen once terminal. *)
Record trade_evolves (t t' : TradeRow) : Prop := {
  te_id : t_id t' = t_id t;
  te_user : t_userId t' = t_userId t;
  te_key : t_idempotencyKey t' = t_idempotencyKey t;
  te_intent : t_tradeIntentId t' = t_tradeIntentId t;
  te_status : reach Trade.ALLOWED_TRANSITIONS (t_status t) (t_status t');
  te_frozen : terminal t = true -> t' = t }.

#[export] Instance trade_evolves_preorder : PreOrder trade_evolves.
Proof.
  split; [by intros t; split; [..|done]; unfold reach|]. intros x y z [H1 H2 H6 H5 H3 H4] [G1 G2 G6 G5 G3 G4].
  split; [congruence|congruence|congruence|congruence|unfold reach in *; by etransitivity|]. intros Hx. specialize (H4 Hx). subst. by apply G4.
Qed.

Record trade_rel (d d' : DB) : Prop := {
  tr_rows : rows_evolve trade_evolves (trades d) (trades d');
  tr_only : rows_only trade_evolves (trades d) (trades d') }.

#[export] Instance trade_rel_preorder : PreOrder trade_rel.
Proof.
  split; [intros d; split; intros id t Ht; by exists t|]. intros x y z [H1 H2] [G1 G2]. split; intros id t Ht.
  - destruct (H1 id t Ht) as (t1 & Ht1 & ?). destruct (G1 id t1 Ht1) as (t2 & ? & ?). exists t2. split; [done|by etransitivity].
  - destruct (G2 id t Ht) as (t1 & Ht1 & ?). destruct (H2 id t1 Ht1) as (t2 & ? & ?). exists t2. split; [done|by etransitivity].
Qed.

Lemma trade_rel_same d d' : trades d' = trades d -> trade_rel d d'.
Proof. intros He. split; intros id t Ht; exists t; split; congruence || done. Qed.

Lemma step_not_terminal s to : Trade.can (Known s) to = true -> Trade.isTerminal (Known s) = false.
Proof. by destruct s, to. Qed.

Lemma patch_evolves params t :
  patch_sets_target params -> Trade.can (Known (t_status t)) (cas_target params) = true ->
  trade_evolves t (apply_patch (cas_patch params) t).
Proof.
  intros Hp Hc. split; [done|done|done|done| |].
  - cbn. rewrite Hp. by apply rtc_once.
  - unfold terminal. by rewrite (step_not_terminal _ _ Hc).
Qed.

Lemma guar_trade_update p f id :
  (forall t, p t = true -> trade_evolves t (f t)) -> guar trade_rel (trade_update p f id).
Proof.
  intros Hf. apply guar_op. intros d. pose proof (update_row_evolve trade_evolves p f id (trades d) Hf) as [H1 H2].
  destruct (update_row p f id (trades d)) as [m n]. by split.
Qed.

Lemma guar_discrepancy params o : guar trade_rel (recordDiscrepancy params o).
Proof. unfold recordDiscrepancy, audit_log. guar_walk; apply guar_modify; intros d; by apply trade_rel_same. Qed.

Lemma guar_applied params : guar trade_rel (answer_applied params).
Proof. unfold answer_applied, find_trade. guar_walk. Qed.

Lemma legal_can params s : s ∈ legal_of params -> Trade.can (Known s) (cas_target params) = true.
Proof. by intros [? _]%list_elem_of_filter. Qed.

Lemma guar_cas params : patch_sets_target params -> guar trade_rel (applyCasTransition params).
Proof.
  intros Hp. unfold applyCasTransition, converge, find_trade. guar_walk.
  all: try apply guar_discrepancy; try apply guar_applied.
  - apply guar_trade_update. intros t Ht. bool_to_prop. by apply patch_evolves, legal_can.
  - apply guar_trade_update. intros x Hx. bool_to_prop. apply patch_evolves; [done|]. by rewrite Hx.
Qed.

(** ** Winning a terminal transition *)

Section winners.
Context (id : string).

Definition over (d : DB) : bool := match trades d !! id with Some t => terminal t | None => false end.

(** The caller is told that its own update ended the trade. *)
Definition ends (r : CasParams * TradeCasOutcome) : bool :=
  bool_decide (cas_tradeId r.1 = id) && Trade.isTerminal (Known (cas_target r.1)) &&
  match r.2 with APPLIED _ => true | _ => false end.

Definition run_cas (params : CasParams) : io (CasParams * TradeCasOutcome) :=
  (let* o := applyCasTransition params in Ret (params, o))%prog.

Lemma over_stays d d' : trade_rel d d' -> stays over d d'.
Proof.
  intros [Hr _]. unfold stays, over. destruct (trades d !! id) as [t|] eqn:Ht; [|done]. intros Ho.
  destruct (Hr id t Ht) as (t' & -> & He). by rewrite (te_frozen _ _ He Ho).
Qed.

Context (params : CasParams) (Hid : cas_tradeId params = id) (Hp : patch_sets_target params)
        (Ht : Trade.isTerminal (Known (cas_target params)) = true).

Abbreviation quiet := (needs DbUnavailable over (fun o => ends (params, o))).

Lemma needs_update p (k : Z -> io TradeCasOutcome) :
  (forall t, p t = true -> Trade.can (Known (t_status t)) (cas_target params) = true) ->
  quiet (k 0) -> quiet (bind (trade_update p (apply_patch (cas_patch params)) (cas_tradeId params)) k).
Proof.
  intros Hc Hk. apply needs_op. intros d d' n. rewrite Hid. destruct (update_row _ _ _ _) as [m x] eqn:E.
  intros [= <- <-]. apply update_row_cases in E as [(-> & _)|(t & Hrow & Hpt & -> & ->)]; [by right|left].
  unfold fires, over. rewrite Hrow. cbn [trades set_trades]. rewrite lookup_insert_eq. unfold terminal at 2. cbn.
  rewrite Hp. split; [|done]. by apply (step_not_terminal _ (cas_target params)), Hc.
Qed.

Lemma needs_discrepancy o (k : unit -> io TradeCasOutcome) :
  quiet (k tt) -> quiet (bind (recordDiscrepancy params o) k).
Proof. intros Hk. unfold recordDiscrepancy, audit_log. cbn. split; [by right|done]. Qed.

Lemma not_applied o : match o with APPLIED _ => False | _ => True end -> ends (params, o) = false.
Proof. destruct o; [done|..]; intros _; apply andb_false_r. Qed.

Lemma needs_matching : quiet (applyCasTransition params).
Proof.
  unfold applyCasTransition. apply needs_bind_r. intros _. apply needs_update.
  { intros t Hl. bool_to_prop. by apply legal_can. }
  change (negb (0 =? 0)) with false. cbv iota. apply needs_bind_r. intros [t|]; [|by apply not_applied].
  case_bool_decide; [by apply not_applied|]. destruct (Trade.isTerminal (Known (t_status t))); [by apply needs_discrepancy, not_applied|].
  destruct (Trade.can (Known (t_status t)) _) eqn:Hc; [|by apply needs_discrepancy, not_applied].
  unfold converge. apply needs_update.
  { intros t' Hs. bool_to_prop. by rewrite Hs. }
  change (negb (0 =? 0)) with false. cbv iota. apply needs_bind_r. intros o. by apply needs_discrepancy, not_applied.
Qed.
End winners.

Lemma needs_cas id params : patch_sets_target params -> needs DbUnavailable (over id) (ends id) (run_cas params).
Proof.
  intros Hp. unfold run_cas. apply (needs_map DbUnavailable (over id) (ends id) (fun o => (params, o))).
  destruct (decide (cas_tradeId params = id)) as [Hid|Hne]; [destruct (Trade.isTerminal (Known (cas_target params))) eqn:Ht|].
  - by apply needs_matching.
  - apply needs_never. intros o. unfold ends. cbn [fst snd]. rewrite Ht. by rewrite andb_false_r.
  - apply needs_never. intros o. unfold ends. cbn [fst snd]. by rewrite bool_decide_eq_false_2.
Qed.

(** ** Properties *)

(** concurrent transitions keep the trade lifecycle.  Whatever transitions run together,
    under any interleaving and any lost statements or acknowledgements, provided each patch
    sets the status it announces: no trade appears or disappears; every trade keeps its
    identity and moves along the transition table; and a terminal trade is not touched at all,
    so no late answer overwrites it. *)
Theorem cas_lifecycle calls sched d :
  Forall patch_sets_target calls ->
  let d' := fst (exec DbUnavailable sched (d, run_cas <$> calls)) in
  (forall id t, trades d !! id = Some t -> exists t', trades d' !! id = Some t' /\ trade_evolves t t') /\
  (forall id t', trades d' !! id = Some t' -> exists t, trades d !! id = Some t /\ trade_evolves t t').
Proof.
  intros Hc d'. assert (trade_rel d d') as [H1 H2]; [|done].
  apply (exec_guar DbUnavailable trade_rel sched (d, run_cas <$> calls)). apply Forall_fmap.
  eapply Forall_impl; [exact Hc|]. intros params Hp. unfold compose, run_cas. apply guar_bind; [by apply guar_cas|done].
Qed.

(** a trade is ended by one caller.  In the same pools and under the same faults, at most
    one of the transitions of a trade to a terminal status is told [APPLIED]; the trade was
    not terminal before, and is terminal afterwards. *)
Theorem cas_single_winner id calls sched d :
  Forall patch_sets_target calls ->
  let c := exec DbUnavailable sched (d, run_cas <$> calls) in
  (forall i j, winner (ends id) c i -> winner (ends id) c j -> i = j) /\
  (forall i, winner (ends id) c i -> over id d = false /\ over id (fst c) = true).
Proof.
  intros Hc. apply (one_shot DbUnavailable (over id) (ends id) sched (d, run_cas <$> calls)); apply Forall_fmap.
  - eapply Forall_impl; [exact Hc|]. intros params Hp. unfold compose, run_cas. apply guar_bind; [|done].
    eapply guar_weaken; [|by apply guar_cas]. apply over_stays.
  - eapply Forall_impl; [exact Hc|]. intros params Hp. by apply needs_cas.
Qed.

Lemma run_trade_update p f id d :
  run (trade_update p f id) d = let '(m, n) := update_row p f id (trades d) in (set_trades m d, Ok n).
Proof. unfold trade_update. rewrite run_op. by destruct (update_row _ _ _ _). Qed.

Lemma set_trades_same d : set_trades (trades d) d = d.
Proof. by destruct d. Qed.

Lemma run_discrepancy params o d :
  exists e, run (recordDiscrepancy params o) d = (set_audit (audit d ++ [e]) d, Ok tt).
Proof. unfold recordDiscrepancy, audit_log. run_simpl. by eexists. Qed.

Lemma legal_empty params :
  legal_of params = [] <-> ~ Exists (fun from => Trade.can (Known from) (cas_target params) = true) (expected_of (cas_expectedFrom params)).
Proof.
  rewrite Exists_exists. split.
  - intros Hl (s & Hs & Hc). assert (s ∈ legal_of params) as Hin by (by apply list_elem_of_filter).
    rewrite Hl in Hin. by apply not_elem_of_nil in Hin.
  - intros Hn. destruct (legal_of params) as [|s l] eqn:E; [done|]. destruct Hn.
    assert (s ∈ legal_of params) as [Hc Hs]%list_elem_of_filter by (rewrite E; left). eauto.
Qed.

(** An update that matches the row, then the answer. *)
Lemma run_matching params p t d (k : io TradeCasOutcome) :
  trades d !! cas_tradeId params = Some t -> p t = true ->
  run (let* n := trade_update p (apply_patch (cas_patch params)) (cas_tradeId params) in
       if negb (n =? 0) then answer_applied params else k)%prog d =
    (set_trades (<[cas_tradeId params := apply_patch (cas_patch params) t]> (trades d)) d,
     Ok (APPLIED (apply_patch (cas_patch params) t))).
Proof.
  intros Ht Hp. rewrite run_bind, run_trade_update. unfold update_row. rewrite Ht, Hp.
  change (negb (1 =? 0)) with true. cbv iota. unfold answer_applied, find_trade. run_simpl.
  cbn [trades set_trades]. by rewrite lookup_insert_eq.
Qed.

Lemma run_missing params p d (k : Z -> io TradeCasOutcome) :
  (forall t, trades d !! cas_tradeId params = Some t -> p t = false) ->
  run (bind (trade_update p (apply_patch (cas_patch params)) (cas_tradeId params)) k) d = run (k 0) d.
Proof.
  intros Hp. rewrite run_bind, run_trade_update. unfold update_row.
  destruct (trades d !! cas_tradeId params) as [t|] eqn:Ht; [rewrite (Hp t) by done|]; by rewrite set_trades_same.
Qed.

(** What one caller gets, running alone, of the stored trade [t]. *)
Definition cas_answer (params : CasParams) (t : TradeRow) : TradeCasOutcome :=
  if Trade.can (Known (t_status t)) (cas_target params) then APPLIED (apply_patch (cas_patch params) t)
  else if bool_decide (t_status t = cas_target params) then ALREADY_AT_TARGET t
  else if terminal t then PRESERVED_NEWER_TRUTH t
  else STATE_CONFLICT (Some t) (expected_of (cas_expectedFrom params)) (cas_target params).

(** C19: a transition alone is decided by the stored status.  A call none of whose expected
    statuses can reach the target throws and touches nothing.  Otherwise the expected statuses
    do not matter: the trade is patched when its own status can reach the target; else it is
    left alone and the caller is told that it is already there, that a terminal truth is
    preserved, or that the states conflict, each of the last two with one audit record; and a
    missing trade is a conflict. *)
Theorem cas_exact params d :
  let r := run (applyCasTransition params) d in
  if bool_decide (Exists (fun from => Trade.can (Known from) (cas_target params) = true) (expected_of (cas_expectedFrom params)))
  then match trades d !! cas_tradeId params with
       | None => r = (d, Ok (STATE_CONFLICT None (expected_of (cas_expectedFrom params)) (cas_target params)))
       | Some t =>
           snd r = Ok (cas_answer params t) /\
           trades (fst r) = match cas_answer params t with APPLIED t' => <[cas_tradeId params := t']> (trades d) | _ => trades d end /\
           length (audit (fst r)) = (length (audit d) +
             match cas_answer params t with PRESERVED_NEWER_TRUTH _ | STATE_CONFLICT _ _ _ => 1 | _ => 0 end)%nat
       end
  else fst r = d /\ exists from, snd r = Err (InvalidTradeTransition (from, cas_target params)).
Proof.
  cbv zeta. unfold applyCasTransition. rewrite run_bind. case_bool_decide as Hex.
  2:{ rewrite bool_decide_eq_true_2 by by apply legal_empty. unfold Trade.assert, assertTransition.
      destruct (negb _) eqn:Hn; cbn [run fst snd]; [split; [done|by eexists]|]. exfalso. apply negb_false_iff in Hn.
      destruct (expected_of _) as [|s l]; [discriminate|]. apply Hex. left. exact Hn. }
  rewrite bool_decide_eq_false_2 by (rewrite legal_empty; tauto). cbn [run].
  destruct (trades d !! cas_tradeId params) as [t|] eqn:Ht.
  2:{ rewrite run_missing by congruence. change (negb (0 =? 0)) with false. cbv iota. unfold find_trade. run_simpl. by rewrite Ht. }
  unfold cas_answer. destruct (decide (t_status t ∈ legal_of params)) as [Hl|Hl].
  { rewrite (run_matching params _ t d) by (done || by apply bool_decide_eq_true_2).
    rewrite (legal_can _ _ Hl). cbn [fst snd trades set_trades audit]. split; [done|]. split; [done|lia]. }
  rewrite run_missing by (rewrite Ht; intros x [= <-]; by apply bool_decide_eq_false_2).
  change (negb (0 =? 0)) with false. cbv iota. unfold find_trade. run_simpl. rewrite Ht.
  destruct (Trade.can (Known (t_status t)) (cas_target params)) eqn:Hc.
  - assert (t_status t <> cas_target params) as Hne by (intros He; rewrite He in Hc; by destruct (cas_target params)).
    rewrite bool_decide_eq_false_2 by done. rewrite (step_not_terminal _ _ Hc). unfold converge.
    rewrite (run_matching params _ t d) by (done || by apply bool_decide_eq_true_2).
    cbn [fst snd trades set_trades audit]. split; [done|]. split; [done|lia].
  - case_bool_decide; [cbn; split; [done|]; split; [done|lia]|]. fold (terminal t).
    destruct (terminal t); rewrite run_bind;
      destruct (run_discrepancy params (Some (t_status t)) d) as [e ->]; cbn [run fst snd trades audit set_audit];
      (split; [done|]; split; [done|rewrite length_app; cbn; lia]).
Qed.

(** A provider fill that arrives after the trade was flagged converges it; a late unknown
    outcome does not move a closed trade. *)
Definition sample_trade (s : Trade.TradeStatus) : TradeRow := mkTrade "t1" "u1" "k1" None s None None None None None None None None None None "b1" None "EURUSD" "BUY" 1000 None None None None.
Definition to_status (from to : Trade.TradeStatus) : CasParams :=
  mkCas "t1" (inl from) to (status_patch to) "u1" "executeTrade".
Definition trade_db (s : Trade.TradeStatus) : DB := set_trades {["t1" := sample_trade s]} (empty_db 1000).

Lemma cas_lifecycle_witness :
  let calls := [to_status Trade.PENDING Trade.OPEN; to_status Trade.PENDING Trade.RECONCILIATION_PENDING] in
  let sched := [(1%nat, Exec); (0%nat, Exec); (0%nat, Exec); (0%nat, Exec); (0%nat, Exec)] in
  let d' := fst (exec DbUnavailable sched (trade_db Trade.PENDING, run_cas <$> calls)) in
  Forall patch_sets_target calls /\
  exists t', trades d' !! "t1" = Some t' /\ t_status t' = Trade.OPEN /\ trade_evolves (sample_trade Trade.PENDING) t'.
Proof.
  intros calls sched d'. assert (Forall patch_sets_target calls) as Hc by (repeat constructor). split; [exact Hc|].
  destruct (proj1 (cas_lifecycle calls sched (trade_db Trade.PENDING) Hc) "t1" (sample_trade Trade.PENDING) eq_refl)
    as (t' & Ht & He).
  exists t'. split; [exact Ht|]. split; [|exact He]. vm_compute in Ht. injection Ht as <-. reflexivity.
Defined.

Lemma cas_single_winner_witness :
  let calls := [to_status Trade.OPEN Trade.CLOSED; to_status Trade.OPEN Trade.CLOSED] in
  let sched := [(1%nat, Exec); (0%nat, Exec); (0%nat, Exec); (1%nat, Exec)] in
  let c := exec DbUnavailable sched (trade_db Trade.OPEN, run_cas <$> calls) in
  winner (ends "t1") c 1 /\ over "t1" (fst c) = true /\ ~ winner (ends "t1") c 0.
Proof.
  intros calls sched c. assert (Forall patch_sets_target calls) as Hc by (repeat constructor).
  destruct (cas_single_winner "t1" calls sched (trade_db Trade.OPEN) Hc) as [Huniq Hover].
  assert (winner (ends "t1") c 1) as Hw by (eexists; split; vm_compute; reflexivity).
  split; [exact Hw|]. split; [exact (proj2 (Hover 1%nat Hw))|]. intros H0. discriminate (Huniq 0%nat 1%nat H0 Hw).
Defined.

