(* ===== verification/JsDate.v ===== *)
(** * Instants as text ([Date.prototype.toISOString])

    The proleptic Gregorian calendar of ECMAScript over milliseconds since the epoch, the text
    [toISOString] gives of a valid time value, and that different instants have different
    texts: the digests of the core take instants in this form. *)

From S2P Require Import Prelude JsString.
Open Scope list_scope.
Open Scope Z_scope.

(** A [Date] holds at most this many milliseconds either side of the epoch. *)
Definition MAX_TIME : Z := 8640000000000000.
Definition MS_PER_DAY : Z := 86400000.

Definition valid_time (t : Z) : bool := Z.abs t <=? MAX_TIME.

(** ** The calendar *)

(** The day of a 400-year era, counted from March 1st: year of the era, month, day. *)
Definition civil_of_era_day (doe : Z) : Z * Z * Z :=
  let yoe := (doe - doe / 1460 + doe / 36524 - doe / 146096) / 365 in
  let doy := doe - (365 * yoe + yoe / 4 - yoe / 100) in
  let mp := (5 * doy + 2) / 153 in
  (yoe, mp, doy - (153 * mp + 2) / 5 + 1).

Definition era_day_of_civil (c : Z * Z * Z) : Z :=
  let '(yoe, mp, d) := c in 365 * yoe + yoe / 4 - yoe / 100 + (153 * mp + 2) / 5 + d - 1.

(** Year, month and day of a day number. *)
Definition civil_of_days (days : Z) : Z * Z * Z :=
  let z := days + 719468 in
  let '(yoe, mp, d) := civil_of_era_day (z mod 146097) in
  let m := if mp <? 10 then mp + 3 else mp - 9 in
  (yoe + 400 * (z / 146097) + (if m <=? 2 then 1 else 0), m, d).

Definition days_of_civil (c : Z * Z * Z) : Z :=
  let '(y, m, d) := c in
  let y' := if m <=? 2 then y - 1 else y in
  let mp := if m <=? 2 then m + 9 else m - 3 in
  146097 * (y' / 400) + era_day_of_civil (y' mod 400, mp, d) - 719468.

(** ** The text *)

(** The last [n] decimal digits of [z]. *)
Fixpoint fixed (n : nat) (z : Z) : chars :=
  match n with
  | O => []
  | S n => fixed n (z / 10) ++ [digit_char (z mod 10)]
  end.

(** Years outside 0..9999 are written with a sign and six digits. *)
Definition year_text (y : Z) : chars :=
  if (0 <=? y) && (y <=? 9999) then fixed 4 y
  else (if y <? 0 then "-"%char else "+"%char) :: fixed 6 (Z.abs y).

Definition toISOString (t : Z) : chars :=
  let '(y, m, d) := civil_of_days (t / MS_PER_DAY) in
  let ms := t mod MS_PER_DAY in
  year_text y ++ "-"%char :: fixed 2 m ++ "-"%char :: fixed 2 d ++ "T"%char ::
    fixed 2 (ms / 3600000) ++ ":"%char :: fixed 2 (ms / 60000 mod 60) ++ ":"%char ::
    fixed 2 (ms / 1000 mod 60) ++ "."%char :: fixed 3 (ms mod 1000) ++ ["Z"%char].

Example iso_epoch : toISOString 0 = chars_of "1970-01-01T00:00:00.000Z".
Proof. reflexivity. Qed.
Example iso_leap : toISOString 951782399999 = chars_of "2000-02-28T23:59:59.999Z".
Proof. reflexivity. Qed.
Example iso_leap_day : toISOString 951782400000 = chars_of "2000-02-29T00:00:00.000Z".
Proof. reflexivity. Qed.
Example iso_first : toISOString (- MAX_TIME) = chars_of "-271821-04-20T00:00:00.000Z".
Proof. reflexivity. Qed.
Example iso_last : toISOString MAX_TIME = chars_of "+275760-09-13T00:00:00.000Z".
Proof. reflexivity. Qed.

(** ** Injectivity *)

Lemma length_fixed n z : length (fixed n z) = n.
Proof. revert z. induction n as [|n IH]; intros z; [done|]. cbn [fixed]. rewrite length_app, IH. cbn. lia. Qed.

Lemma cons_inv {A} (a b : A) l l' : a :: l = b :: l' -> a = b /\ l = l'.
Proof. by intros [= -> ->]. Qed.

Lemma digit_char_inj a b : 0 <= a < 10 -> 0 <= b < 10 -> digit_char a = digit_char b -> a = b.
Proof. intros Ha Hb He. rewrite <- (digit_char_val a), <- (digit_char_val b) by lia. by rewrite He. Qed.

Lemma fixed_inj n a b : 0 <= a < 10 ^ Z.of_nat n -> 0 <= b < 10 ^ Z.of_nat n -> fixed n a = fixed n b -> a = b.
Proof.
  revert a b. induction n as [|n IH]; intros a b Ha Hb He; [cbn in *; lia|].
  rewrite Nat2Z.inj_succ, Z.pow_succ_r in Ha, Hb by lia. cbn [fixed] in He. apply app_inj_tail in He as [H1 H2].
  apply IH in H1; [|split; [apply Z.div_pos; lia|apply Z.div_lt_upper_bound; lia]..].
  apply digit_char_inj in H2; [|apply Z.mod_pos_bound; lia..].
  rewrite (Z.div_mod a 10), (Z.div_mod b 10) by lia. congruence.
Qed.

(** Splitting equal texts after parts of equal length. *)
Lemma fixed_app_inj n a b r r' :
  0 <= a < 10 ^ Z.of_nat n -> 0 <= b < 10 ^ Z.of_nat n -> fixed n a ++ r = fixed n b ++ r' -> a = b /\ r = r'.
Proof.
  intros Ha Hb He. apply app_inj_1 in He as [H1 H2]; [|by rewrite !length_fixed].
  split; [by apply (fixed_inj n)|done].
Qed.

Definition era_checks (doe : Z) : bool :=
  let '(yoe, mp, d) := civil_of_era_day doe in
  (0 <=? yoe) && (yoe <=? 399) && (0 <=? mp) && (mp <=? 11) && (1 <=? d) && (d <=? 31)
  && (era_day_of_civil (yoe, mp, d) =? doe).

(** Every day of an era, one by one. *)
Fixpoint checks_below (n : positive) (f : Z -> bool) (from : Z) : bool :=
  match n with
  | xH => f from
  | xO p => checks_below p f from && checks_below p f (from + Zpos p)
  | xI p => f from && checks_below p f (from + 1) && checks_below p f (from + 1 + Zpos p)
  end.

Lemma checks_below_spec n f from :
  checks_below n f from = true -> forall z, from <= z < from + Zpos n -> f z = true.
Proof.
  revert from. induction n as [p IH|p IH|]; intros from; cbn [checks_below].
  - intros [[H1 H2]%andb_true_iff H3]%andb_true_iff z Hz.
    destruct (decide (z = from)) as [->|]; [done|]. destruct (decide (z < from + 1 + Zpos p)); [apply (IH _ H2); lia|apply (IH _ H3); lia].
  - intros [H1 H2]%andb_true_iff z Hz. destruct (decide (z < from + Zpos p)); [apply (IH _ H1); lia|apply (IH _ H2); lia].
  - intros H z Hz. by replace z with from by lia.
Qed.

Lemma all_eras : checks_below 146097 era_checks 0 = true.
Proof. vm_compute. reflexivity. Qed.

Lemma era_ok doe : 0 <= doe < 146097 -> era_checks doe = true.
Proof. intros H. by apply (checks_below_spec _ _ _ all_eras). Qed.

Lemma civil_bounds days y m d :
  civil_of_days days = (y, m, d) ->
  1 <= m <= 12 /\ 1 <= d <= 31 /\ 400 * ((days + 719468) / 146097) <= y <= 400 * ((days + 719468) / 146097) + 400 /\
  days_of_civil (y, m, d) = days.
Proof.
  unfold civil_of_days. pose proof (era_ok ((days + 719468) mod 146097) ltac:(apply Z.mod_pos_bound; lia)) as H.
  unfold era_checks in H. destruct (civil_of_era_day _) as [[yoe mp] d0]. set (era := (days + 719468) / 146097) in *.
  pose proof (Z.div_mod (days + 719468) 146097 ltac:(lia)) as Hz. fold era in Hz.
  rewrite !andb_true_iff in H. destruct H as [[[[[[H1 H2] H3] H4] H5] H6] H7]. bool_to_prop.
  intros [= <- <- <-].
  assert (forall y', y' = yoe + 400 * era -> y' / 400 = era /\ y' mod 400 = yoe) as Hy.
  { intros y' ->. split; [symmetry; apply (Z.div_unique _ _ _ yoe); lia|symmetry; apply (Z.mod_unique _ _ era); lia]. }
  unfold days_of_civil. destruct (mp <? 10) eqn:Hm; bool_to_prop.
  - rewrite (proj2 (Z.leb_gt (mp + 3) 2)) by lia. destruct (Hy (yoe + 400 * era + 0) ltac:(lia)) as [-> ->].
    replace (mp + 3 - 3) with mp by lia. lia.
  - rewrite (proj2 (Z.leb_le (mp - 9) 2)) by lia. destruct (Hy (yoe + 400 * era + 1 - 1) ltac:(lia)) as [-> ->].
    replace (mp - 9 + 9) with mp by lia. lia.
Qed.

Lemma year_text_inj y y' r r' :
  Z.abs y < 1000000 -> Z.abs y' < 1000000 ->
  year_text y ++ "-"%char :: r = year_text y' ++ "-"%char :: r' -> y = y' /\ r = r'.
Proof.
  intros Hy Hy'. assert (forall z l l', fixed 4 z ++ l <> "-"%char :: l' /\ fixed 4 z ++ l <> "+"%char :: l') as Hsign.
  { intros z l l'. change (fixed 4 z) with (digit_char (z / 10 / 10 / 10 mod 10) :: drop 1 (fixed 4 z)).
    assert (is_digit (digit_char (z / 10 / 10 / 10 mod 10)) = true) as Hd by (apply digit_char_digit; pose proof (Z.mod_pos_bound (z / 10 / 10 / 10) 10); lia).
    cbn [app]. split; intros [= H _]; by rewrite H in Hd. }
  unfold year_text. destruct ((0 <=? y) && (y <=? 9999)) eqn:E, ((0 <=? y') && (y' <=? 9999)) eqn:E'.
  - bool_to_prop. intros [He Hr]%(fixed_app_inj 4); [by apply cons_inv in Hr as [_ ?]|cbn; lia..].
  - destruct (y' <? 0); cbn [app]; intros H; by apply Hsign in H.
  - destruct (y <? 0); cbn [app]; intros H; symmetry in H; by apply Hsign in H.
  - intros H. cbn [app] in H. apply cons_inv in H as [Hs H]. apply (fixed_app_inj 6) in H as [Ha Hr]; [|cbn; lia..].
    apply cons_inv in Hr as [_ ->]. split; [|done]. destruct (y <? 0) eqn:S1, (y' <? 0) eqn:S2; try discriminate Hs; bool_to_prop; lia.
Qed.

Lemma valid_days t : valid_time t = true -> - 100000000 <= t / MS_PER_DAY <= 100000000.
Proof.
  unfold valid_time, MAX_TIME, MS_PER_DAY. intros H. bool_to_prop.
  split; [apply Z.div_le_lower_bound; lia|apply Z.div_le_upper_bound; lia].
Qed.

(** Valid instants with one text are one instant. *)
Lemma toISOString_inj t t' :
  valid_time t = true -> valid_time t' = true -> toISOString t = toISOString t' -> t = t'.
Proof.
  intros Ht%valid_days Ht'%valid_days. unfold toISOString.
  destruct (civil_of_days (t / MS_PER_DAY)) as [[y m] d] eqn:Hc. destruct (civil_of_days (t' / MS_PER_DAY)) as [[y' m'] d'] eqn:Hc'.
  apply civil_bounds in Hc as (Hm & Hd & Hy & Hdays). apply civil_bounds in Hc' as (Hm' & Hd' & Hy' & Hdays').
  assert (forall x, - 100000000 <= x <= 100000000 -> - 690 <= (x + 719468) / 146097 <= 690) as Hera.
  { intros x Hx. split; [apply Z.div_le_lower_bound; lia|apply Z.div_le_upper_bound; lia]. }
  pose proof (Hera _ Ht) as He1. pose proof (Hera _ Ht') as He2. clear Hera.
  pose proof (Z.mod_pos_bound t MS_PER_DAY ltac:(done)) as Hms. pose proof (Z.mod_pos_bound t' MS_PER_DAY ltac:(done)) as Hms'.
  pose proof (Z.div_mod t MS_PER_DAY ltac:(done)) as Hdm. pose proof (Z.div_mod t' MS_PER_DAY ltac:(done)) as Hdm'.
  set (ms := t mod MS_PER_DAY) in *. set (ms' := t' mod MS_PER_DAY) in *. clearbody ms ms'.
  set (x := t / MS_PER_DAY) in *. set (x' := t' / MS_PER_DAY) in *. clearbody x x'. unfold MS_PER_DAY in *.
  assert (forall s, 0 <= s < 86400000 -> s = 3600000 * (s / 3600000) + 60000 * (s / 60000 mod 60) + 1000 * (s / 1000 mod 60) + s mod 1000 /\
    0 <= s / 3600000 < 100 /\ 0 <= s / 60000 mod 60 < 60 /\ 0 <= s / 1000 mod 60 < 60 /\ 0 <= s mod 1000 < 1000) as Hsplit
    by (intros s Hs; Z.div_mod_to_equations; lia).
  destruct (Hsplit ms Hms) as (Hm0 & Hr1 & Hr2 & Hr3 & Hr4). destruct (Hsplit ms' Hms') as (Hm0' & Hr1' & Hr2' & Hr3' & Hr4').
  clear Hsplit. intros He.
  apply year_text_inj in He as [-> He]; [|lia..]. apply (fixed_app_inj 2) in He as [-> He]; [|cbn; lia..]. apply cons_inv in He as [_ He].
  apply (fixed_app_inj 2) in He as [-> He]; [|cbn; lia..]. apply cons_inv in He as [_ He].
  apply (fixed_app_inj 2) in He as [H1 He]; [|cbn; lia..]. apply cons_inv in He as [_ He].
  apply (fixed_app_inj 2) in He as [H2 He]; [|cbn; lia..]. apply cons_inv in He as [_ He].
  apply (fixed_app_inj 2) in He as [H3 He]; [|cbn; lia..]. apply cons_inv in He as [_ He].
  apply (fixed_app_inj 3) in He as [H4 _]; [|cbn; lia..]. lia.
Qed.
