(* ===== verification/SignalGate.v ===== *)
(** * The signal-identity gate ([execution/orchestration/signal-identity.gate.ts])

    [AiSignalIdentityGateService.registerOrReuse] and [markProcessed]: the durable identity of a
    signal delivery, its freshness, and the refusal of a second payload under one signal id.
    [Date] values are milliseconds, an invalid one [None]; what [new Date(string)] reads is a
    parameter, since beyond ISO 8601 it is the engine's. *)

From S2P Require Import Prelude Prog JsString JsDate CanonicalJson StateMachines Store.
Open Scope string_scope.
Open Scope list_scope.
Open Scope Z_scope.

Definition SIGNAL_MAX_AGE_MS : Z := 120000.
Definition SIGNAL_FUTURE_SKEW_MS : Z := 30000.

(** [Date | string | null]. *)
Inductive delivered_date := DDate (t : option Z) | DText (s : string) | DNull.

(** [signalId] is [None] when it is not a string at run time; the record of material fields
    is an object. *)
Record SignalIdentityInput := mkSignalInput {
  si_signalId : option string; si_generatedAt : delivered_date; si_materialFields : list (chars * js) }.

Record SignalIdentityRegistration := mkRegistered {
  rg_identityId : string; rg_signalId : string; rg_payloadDigest : string; rg_duplicate : bool;
  rg_generatedAt : Z }.

Section gate.
Context (sha256 : chars -> string) (parse_date : string -> option Z).
Local Open Scope prog_scope.

Definition toDate (value : delivered_date) : option Z :=
  match value with DDate t => t | DText s => parse_date s | DNull => None end.

Definition trimmed (signalId : option string) : string :=
  match signalId with Some s => string_of (trim (chars_of s)) | None => "" end.

(** The payload under digest. *)
Definition signal_payload (signalId : string) (generatedAt : Z) (materialFields : list (chars * js)) : js :=
  JObject [(chars_of "signalId", JString (chars_of signalId));
           (chars_of "generatedAt", JString (toISOString generatedAt));
           (chars_of "materialFields", JObject materialFields)].

(** [INSERT]: [signal_id] is a varchar(100); the primary key, then the unique index on
    (user, signal). *)
Definition signal_insert_act (row : Z -> SignalIdentity) (d : DB) : DB * result exn SignalIdentity :=
  let r := row (now d) in
  if (100 <? length (chars_of (i_signalId r)))%nat then (d, Err (CheckViolation "ai_signal_identities.signal_id"))
  else if existsb (fun x => bool_decide (i_id (snd x) = i_id r)) (map_to_list (signals d))
  then (d, Err (UniqueViolation "pk_ai_signal_identities"))
  else match signals d !! (i_userId r, i_signalId r) with
       | Some _ => (d, Err (UniqueViolation "uq_ai_signal_identity_user_signal"))
       | None => (set_signals (<[(i_userId r, i_signalId r) := r]> (signals d)) d, Ok r)
       end.

Definition answer (signalId payloadDigest : string) (duplicate : bool) (row : SignalIdentity) : SignalIdentityRegistration :=
  mkRegistered (i_id row) signalId payloadDigest duplicate (i_generatedAt row).

(** The insert failed with [err]: idempotency or conflict. *)
Definition reuse_existing (userId signalId payloadDigest : string) (err : exn) : io SignalIdentityRegistration :=
  if negb (isUniqueViolation err) then Throw err
  else
    let* existing := sel (fun d => signals d !! (userId, signalId)) in
    match existing with
    | None => Throw err
    | Some existing =>
        if negb (bool_decide (i_payloadDigest existing = payloadDigest)) then
          do! audit_log (mkAudit (Some userId) "AI_SIGNAL_IDENTITY_CONFLICT" "AiSignalIdentity" (i_id existing) signalId) in
          Throw SignalIdentityConflict
        else Ret (answer signalId payloadDigest true existing)
    end.

(** From the digest on. *)
Definition persist_or_reuse (newId userId signalId : string) (generatedAt : Z) (materialFields : list (chars * js))
    (payloadDigest : string) : io SignalIdentityRegistration :=
  let* saved := attempt (op (signal_insert_act (fun t =>
    mkSignal newId userId signalId payloadDigest materialFields generatedAt t None RECEIVED))) in
  match saved with
  | Ok identity => Ret (answer signalId payloadDigest false identity)
  | Err err => reuse_existing userId signalId payloadDigest err
  end.

Definition registerOrReuse (newId userId : string) (signal : SignalIdentityInput) : io SignalIdentityRegistration :=
  let signalId := trimmed (si_signalId signal) in
  if bool_decide (signalId = "") then Throw SignalIdentityRequired
  else
    match toDate (si_generatedAt signal) with
    | None => Throw SignalGeneratedAtRequired
    | Some generatedAt =>
        let* t := sel now in
        let age := t - generatedAt in
        if age >? SIGNAL_MAX_AGE_MS then Throw SignalStale
        else if - age >? SIGNAL_FUTURE_SKEW_MS then Throw SignalFuture
        else
          match digestCanonicalPayload sha256 (signal_payload signalId generatedAt (si_materialFields signal)) with
          | Err e => Throw (CanonicalJsonError e)
          | Ok payloadDigest => persist_or_reuse newId userId signalId generatedAt (si_materialFields signal) payloadDigest
          end
    end.

Definition processed (t : Z) (r : SignalIdentity) : SignalIdentity :=
  mkSignal (i_id r) (i_userId r) (i_signalId r) (i_payloadDigest r) (i_materialFields r) (i_generatedAt r)
    (i_receivedAt r) (Some t) PROCESSED.

(** [UPDATE .. WHERE user_id AND signal_id AND first_processed_at IS NULL]. *)
Definition markProcessed (userId signalId : string) : io unit :=
  op (fun d => (match signals d !! (userId, signalId) with
                | Some r => match i_firstProcessedAt r with
                            | None => set_signals (<[(userId, signalId) := processed (now d) r]> (signals d)) d
                            | Some _ => d
                            end
                | None => d
                end, Ok tt)).

(** ** How identities evolve *)

(** The identity of a signal is immutable; it is first processed at most once. *)
Record signal_evolves (r r' : SignalIdentity) : Prop := {
  ie_id : i_id r' = i_id r;
  ie_key : i_userId r' = i_userId r /\ i_signalId r' = i_signalId r;
  ie_digest : i_payloadDigest r' = i_payloadDigest r /\ i_materialFields r' = i_materialFields r;
  ie_generatedAt : i_generatedAt r' = i_generatedAt r /\ i_receivedAt r' = i_receivedAt r;
  ie_processed : is_Some (i_firstProcessedAt r) -> r' = r }.

#[export] Instance signal_evolves_preorder : PreOrder signal_evolves.
Proof.
  split; [by intros r; split|]. intros x y z [A1 [A2 A3] [A4 A5] [A6 A7] A8] [B1 [B2 B3] [B4 B5] [B6 B7] B8].
  split; [congruence|split; congruence|split; congruence|split; congruence|].
  intros Hx. specialize (A8 Hx). subst. by apply B8.
Qed.

Definition signals_rel (d d' : DB) : Prop :=
  forall k r, signals d !! k = Some r -> exists r', signals d' !! k = Some r' /\ signal_evolves r r'.

#[export] Instance signals_rel_preorder : PreOrder signals_rel.
Proof.
  split; [intros d k r Hr; by exists r|]. intros x y z H1 H2 k r Hr.
  destruct (H1 k r Hr) as (r1 & Hr1 & ?). destruct (H2 k r1 Hr1) as (r2 & ? & ?). exists r2. split; [done|by etransitivity].
Qed.

Lemma signals_rel_same d d' : signals d' = signals d -> signals_rel d d'.
Proof. intros He k r Hr. exists r. split; congruence || done. Qed.

Lemma signals_rel_insert k r' d :
  (forall r, signals d !! k = Some r -> signal_evolves r r') -> signals_rel d (set_signals (<[k := r']> (signals d)) d).
Proof.
  intros He k0 r Hr. cbn. destruct (decide (k = k0)) as [->|Hne]; [rewrite lookup_insert_eq; exists r'; auto|].
  exists r. by rewrite lookup_insert_ne.
Qed.

(** What an insert does. *)
Lemma signal_insert_cases row d :
  let r := row (now d) in
  (exists e, signal_insert_act row d = (d, Err e)) \/
  (signals d !! (i_userId r, i_signalId r) = None /\
   signal_insert_act row d = (set_signals (<[(i_userId r, i_signalId r) := r]> (signals d)) d, Ok r)).
Proof.
  cbv zeta. unfold signal_insert_act. destruct (100 <? _)%nat; [left; by eexists|].
  destruct (existsb _ _); [left; by eexists|]. destruct (signals d !! _) as [x|] eqn:E; [left; by eexists|by right].
Qed.

Lemma guar_signal_insert row : guar signals_rel (op (signal_insert_act row)).
Proof.
  apply guar_op. intros d. pose proof (signal_insert_cases row d) as H. cbv zeta in H.
  destruct H as [[e ->]|[Hn ->]]; [done|]. apply signals_rel_insert. congruence.
Qed.

Lemma guar_markProcessed u s : guar signals_rel (markProcessed u s).
Proof.
  apply guar_op. intros d. cbn [fst]. destruct (signals d !! (u, s)) as [r|] eqn:Hr; [|done].
  destruct (i_firstProcessedAt r) as [t|] eqn:Hp; [done|]. apply signals_rel_insert.
  intros x Hx. assert (x = r) as -> by congruence. split; try done. rewrite Hp. by intros [? ?].
Qed.

Lemma guar_audit_signals e : guar signals_rel (audit_log e).
Proof. unfold audit_log. guar_walk; apply guar_modify; intros d; by apply signals_rel_same. Qed.

Lemma guar_register newId u s : guar signals_rel (registerOrReuse newId u s).
Proof. unfold registerOrReuse, persist_or_reuse, reuse_existing. guar_walk; [apply guar_signal_insert|apply guar_audit_signals]. Qed.

(** ** What an answer says *)

(** The row an answer to user [u] stands for. *)
Definition registered (a : string * SignalIdentityRegistration) (d : DB) : Prop :=
  exists r, signals d !! (a.1, rg_signalId a.2) = Some r /\ i_id r = rg_identityId a.2 /\
    i_payloadDigest r = rg_payloadDigest a.2 /\ i_generatedAt r = rg_generatedAt a.2.

Lemma registered_stable a : stable signals_rel (registered a).
Proof.
  intros d d' Hd (r & Hr & H1 & H2 & H3). destruct (Hd _ _ Hr) as (r' & Hr' & He). exists r'. split; [done|].
  destruct He as [E1 _ [E2 _] [E3 _] _]. repeat split; congruence.
Qed.

(** Registrations and completions on one store; a registration answers its user with it. *)
Inductive signal_call :=
| SRegister (newId userId : string) (signal : SignalIdentityInput)
| SProcessed (userId signalId : string).

Definition run_signal (c : signal_call) : io (option (string * SignalIdentityRegistration)) :=
  match c with
  | SRegister newId u s => let* a := registerOrReuse newId u s in Ret (Some (u, a))
  | SProcessed u s => let* _ := markProcessed u s in Ret None
  end.

Definition answered (o : option (string * SignalIdentityRegistration)) (d : DB) : Prop :=
  match o with Some a => registered a d | None => True end.

(** A first registration, under user [u] and signal [sid]. *)
Definition first_of (u sid : string) (o : option (string * SignalIdentityRegistration)) : bool :=
  match o with
  | Some (v, a) => bool_decide (v = u) && bool_decide (rg_signalId a = sid) && negb (rg_duplicate a)
  | None => false
  end.

Definition known (u sid : string) (d : DB) : bool := bool_decide (is_Some (signals d !! (u, sid))).

Lemma known_stays u sid d d' : signals_rel d d' -> stays (known u sid) d d'.
Proof.
  intros Hd. unfold stays, known. intros H. bool_to_prop. destruct H as [r Hr].
  apply bool_decide_eq_true_2. destruct (Hd _ _ Hr) as (r' & -> & _). done.
Qed.

Lemma guar_signal c : guar signals_rel (run_signal c).
Proof. destruct c; cbn [run_signal]; (apply guar_bind; [|done]); [apply guar_register|apply guar_markProcessed]. Qed.

Lemma insert_answer row d x : snd (signal_insert_act row d) = Ok x ->
  x = row (now d) /\ signals d !! (i_userId x, i_signalId x) = None /\
  signals (fst (signal_insert_act row d)) !! (i_userId x, i_signalId x) = Some x.
Proof.
  destruct (signal_insert_cases row d) as [[e He]|[Hn ->]]; [by rewrite He|]. cbn [fst snd]. intros [= <-].
  split; [done|]. split; [done|]. cbn. by rewrite lookup_insert_eq.
Qed.

(** After the answer to user [u]. *)
Abbreviation honest u := (knows DbUnavailable signals_rel (fun a => registered (u, a))).

Lemma knows_persist newId u sid t fields dg :
  honest u (fun _ => True) (persist_or_reuse newId u sid t fields dg).
Proof.
  unfold persist_or_reuse. apply knows_attempt_op.
  - intros d x _ Hx. apply insert_answer in Hx as (-> & _ & Hx).
    exists (registered (u, answer sid dg false (mkSignal newId u sid dg fields t (now d) None RECEIVED))).
    split; [apply registered_stable|]. split; [eexists; split; [exact Hx|done]|]. intros s Hs. exact Hs.
  - intros e. unfold reuse_existing. destruct (negb (isUniqueViolation e)); [done|]. apply knows_op.
    intros d x _ [= <-]. destruct (signals d !! (u, sid)) as [r|] eqn:Hr; [|by exists (fun _ => True)].
    destruct (negb _) eqn:Hd.
    + exists (fun _ => True). split; [done|]. split; [done|]. by apply knows_bind_any.
    + exists (registered (u, answer sid dg true r)). split; [apply registered_stable|]. bool_to_prop.
      split; [by exists r|]. intros s Hs. exact Hs.
Qed.

Lemma knows_register newId u s : honest u (fun _ => True) (registerOrReuse newId u s).
Proof.
  unfold registerOrReuse. case_bool_decide; [done|]. destruct (toDate _) as [t|]; [|done].
  apply knows_bind_any. intros x. destruct (_ >? _); [done|]. destruct (_ >? _); [done|].
  destruct (digestCanonicalPayload _ _) as [dg|e]; [apply knows_persist|done].
Qed.

Lemma knows_signal c : knows DbUnavailable signals_rel answered (fun _ => True) (run_signal c).
Proof.
  destruct c as [newId u s|u s]; cbn [run_signal]; [|by apply knows_bind_any].
  apply (knows_map _ _ answered (fun a => Some (u, a))), knows_register.
Qed.

Section first.
Context (u sid : string).
Abbreviation spares v := (needs DbUnavailable (known u sid) (fun a => first_of u sid (Some (v, a)))).

Lemma needs_persist newId v s t fields dg : spares v (persist_or_reuse newId v s t fields dg).
Proof.
  unfold persist_or_reuse. cbn [op attempt bind].
  assert (forall e, spares v (reuse_existing v s dg e)) as Hretry.
  { intros e. unfold reuse_existing. destruct (negb _); [done|]. apply needs_bind_r. intros [r|]; [|done].
    destruct (negb _); [by apply needs_bind_r|]. cbn. by rewrite andb_false_r. }
  split; [|apply Hretry]. intros d. destruct (snd (signal_insert_act _ d)) as [x|e] eqn:Hx; [|right; apply Hretry].
  apply insert_answer in Hx as (-> & Hn & Hx). cbn [i_userId i_signalId] in Hn, Hx.
  destruct (decide (v = u /\ s = sid)) as [[-> ->]|Hne].
  - left. split; [apply bool_decide_eq_false_2; rewrite Hn; by intros [? ?]|apply bool_decide_eq_true_2; by eexists].
  - right. change (bool_decide (v = u) && bool_decide (s = sid) && true = false).
    rewrite andb_true_r. apply andb_false_iff. rewrite !bool_decide_eq_false. destruct (decide (v = u)); [right|by left]. tauto.
Qed.

Lemma needs_signal c : needs DbUnavailable (known u sid) (first_of u sid) (run_signal c).
Proof.
  destruct c as [newId v s|v s]; cbn [run_signal]; [|apply needs_bind_r; by intros].
  apply (needs_map _ _ (first_of u sid) (fun a => Some (v, a))).
  unfold registerOrReuse. case_bool_decide; [done|]. destruct (toDate _) as [t|]; [|done].
  apply needs_bind_r. intros x. destruct (_ >? _); [done|]. destruct (_ >? _); [done|].
  destruct (digestCanonicalPayload _ _) as [dg|e]; [apply needs_persist|done].
Qed.
End first.

(** ** Properties *)

(** one identity per signal.  Whatever deliveries and completions run together, under any
    interleaving and any lost statements or acknowledgements: two registrations answered to a
    user for one signal id carry the same identity, the same digest and the same original
    instant, which the stored row has too; at most one of them is not a duplicate, and only
    when the signal was not known before; and a stored identity never changes but for its
    first processing, once. *)
Theorem signal_identity_stable calls sched d :
  let c := exec DbUnavailable sched (d, run_signal <$> calls) in
  (forall i u a, snd c !! i = Some (Ret (Some (u, a))) -> registered (u, a) (fst c)) /\
  (forall i j u a b, snd c !! i = Some (Ret (Some (u, a))) -> snd c !! j = Some (Ret (Some (u, b))) ->
     rg_signalId a = rg_signalId b ->
     rg_identityId a = rg_identityId b /\ rg_payloadDigest a = rg_payloadDigest b /\ rg_generatedAt a = rg_generatedAt b) /\
  (forall u sid i j, winner (first_of u sid) c i -> winner (first_of u sid) c j -> i = j /\ known u sid d = false) /\
  (forall k r, signals d !! k = Some r -> exists r', signals (fst c) !! k = Some r' /\ signal_evolves r r').
Proof.
  cbv zeta. set (c := exec _ _ _).
  assert (Forall (guar signals_rel) (run_signal <$> calls)) as Hg by (apply Forall_fmap, Forall_true, guar_signal).
  assert (forall i u a, snd c !! i = Some (Ret (Some (u, a))) -> registered (u, a) (fst c)) as Hr.
  { intros i u a Hi. apply (answers_hold DbUnavailable signals_rel answered sched (d, run_signal <$> calls) i (Some (u, a)) Hg); [|done].
    apply Forall_fmap, Forall_true, knows_signal. }
  split; [done|]. split; [|split].
  - intros i j u a b (r & Ha & A1 & A2 & A3)%Hr (r' & Hb & B1 & B2 & B3)%Hr Heq. cbn in *. rewrite Heq in Ha.
    assert (r = r') as -> by congruence. split; [congruence|]. split; congruence.
  - intros u sid i j Hi Hj.
    destruct (one_shot DbUnavailable (known u sid) (first_of u sid) sched (d, run_signal <$> calls)) as [Hu Hk].
    + eapply Forall_impl; [exact Hg|]. intros p. apply guar_weaken, known_stays.
    + apply Forall_fmap, Forall_true, needs_signal.
    + split; [by apply Hu|by apply (Hk i)].
  - apply (exec_guar DbUnavailable signals_rel sched (d, run_signal <$> calls) Hg).
Qed.

(** ** Replays *)

Lemma signal_payload_inj sid t m t' m' dg :
  (forall a b, sha256 a = sha256 b -> a = b) -> valid_time t = true -> valid_time t' = true ->
  numbers_ok (JObject m) -> numbers_ok (JObject m') ->
  digestCanonicalPayload sha256 (signal_payload sid t m) = Ok dg ->
  digestCanonicalPayload sha256 (signal_payload sid t' m') = Ok dg ->
  t = t' /\ canon (JObject m) = canon (JObject m').
Proof.
  intros Hinj Ht Ht' Hm Hm' (x & Hx & ->)%rmap_ok (y & Hy & Heq)%rmap_ok. apply Hinj in Heq as ->.
  assert (canon (signal_payload sid t m) = canon (signal_payload sid t' m')) as Hc
    by (eapply canonicalJson_canon; [..|exact Hx|exact Hy]; cbn [numbers_ok]; repeat split; done).
  assert (forall k v w, (k, v) ∈ [(chars_of "signalId", JString (chars_of sid)); (chars_of "generatedAt", JString (toISOString t));
            (chars_of "materialFields", JObject m)] ->
          (k, w) ∈ [(chars_of "signalId", JString (chars_of sid)); (chars_of "generatedAt", JString (toISOString t'));
            (chars_of "materialFields", JObject m')] -> canon v = canon w) as Hf.
  { intros k v w. apply canon_field; [exact Hc| | |done|done]; (refine (bool_decide_eq_true_1 _ _); vm_compute; reflexivity). }
  split.
  - apply toISOString_inj; [done|done|].
    assert (canon (JString (toISOString t)) = canon (JString (toISOString t'))) as He
      by (apply (Hf (chars_of "generatedAt")); right; left).
    by injection He.
  - apply (Hf (chars_of "materialFields")); right; right; left.
Qed.

Lemma run_reuse u sid dg err d :
  run (reuse_existing u sid dg err) d =
    (if negb (isUniqueViolation err) then (d, Err err)
     else match signals d !! (u, sid) with
          | None => (d, Err err)
          | Some r =>
              if negb (bool_decide (i_payloadDigest r = dg))
              then (set_audit (audit d ++ [mkAudit (Some u) "AI_SIGNAL_IDENTITY_CONFLICT" "AiSignalIdentity" (i_id r) sid]) d,
                    Err SignalIdentityConflict)
              else (d, Ok (answer sid dg true r))
          end).
Proof.
  unfold reuse_existing, audit_log. destruct (negb _); [done|]. run_simpl.
  destruct (signals d !! (u, sid)) as [r|]; [|done]. destruct (negb _); run_simpl; done.
Qed.

(** The digest of a payload, when there is one. *)
Lemma payload_digest sid t m dg : digestCanonicalPayload sha256 (signal_payload sid t m) = Ok dg -> printable (JObject m) = true.
Proof.
  intros (x & Hx & _)%rmap_ok. apply canonicalJson_printable in Hx. cbn [signal_payload printable forallb] in Hx.
  by rewrite andb_true_r in Hx.
Qed.

Lemma payload_digest_total sid t m : printable (JObject m) = true ->
  exists dg, digestCanonicalPayload sha256 (signal_payload sid t m) = Ok dg.
Proof.
  intros Hm. unfold digestCanonicalPayload. rewrite canonicalJson_ok; [by eexists|].
  cbn [signal_payload printable forallb]. by rewrite andb_true_r.
Qed.

Lemma payload_digest_same sid t m m' : printable (JObject m) = true -> printable (JObject m') = true ->
  canon (JObject m) = canon (JObject m') ->
  digestCanonicalPayload sha256 (signal_payload sid t m) = digestCanonicalPayload sha256 (signal_payload sid t m').
Proof.
  intros Hm Hm' Hc. unfold digestCanonicalPayload. rewrite !canonicalJson_ok
    by (cbn [signal_payload printable forallb]; by rewrite andb_true_r).
  do 3 f_equal. unfold signal_payload. cbn [canon flat_map is_undefined]. cbn [canon] in Hc. by rewrite Hc.
Qed.

Lemma signal_insert_known row d r :
  signals d !! (i_userId (row (now d)), i_signalId (row (now d))) = Some r ->
  (length (chars_of (i_signalId (row (now d)))) <= 100)%nat ->
  exists x, signal_insert_act row d = (d, Err (UniqueViolation x)).
Proof.
  intros Hr Hl. unfold signal_insert_act. destruct (Nat.ltb_spec 100 (length (chars_of (i_signalId (row (now d)))))); [lia|].
  destruct (existsb _ _); [by eexists|]. rewrite Hr. by eexists.
Qed.

(** A delivery that passes the freshness window and can be digested, of a signal with a row. *)
Lemma run_known newId u s d r t dg :
  let sid := trimmed (si_signalId s) in
  signals d !! (u, sid) = Some r -> sid <> "" -> (length (chars_of sid) <= 100)%nat ->
  toDate (si_generatedAt s) = Some t -> now d - SIGNAL_MAX_AGE_MS <= t <= now d + SIGNAL_FUTURE_SKEW_MS ->
  digestCanonicalPayload sha256 (signal_payload sid t (si_materialFields s)) = Ok dg ->
  run (registerOrReuse newId u s) d =
    if bool_decide (i_payloadDigest r = dg) then (d, Ok (answer sid dg true r))
    else (set_audit (audit d ++ [mkAudit (Some u) "AI_SIGNAL_IDENTITY_CONFLICT" "AiSignalIdentity" (i_id r) sid]) d,
          Err SignalIdentityConflict).
Proof.
  cbv zeta. intros Hr Hne Hl Ht Hw Hd. unfold registerOrReuse. rewrite bool_decide_eq_false_2, Ht by done.
  rewrite run_bind, run_read. cbv beta zeta.
  destruct (Z.gtb_spec (now d - t) SIGNAL_MAX_AGE_MS); [lia|].
  destruct (Z.gtb_spec (- (now d - t)) SIGNAL_FUTURE_SKEW_MS); [lia|].
  rewrite Hd. unfold persist_or_reuse. rewrite run_bind, run_attempt, run_op. set (row := fun _ => mkSignal _ _ _ _ _ _ _ _ _).
  destruct (signal_insert_known row d r Hr Hl) as [x ->]. rewrite run_reuse, Hr.
  by destruct (bool_decide (i_payloadDigest r = dg)).
Qed.

(** What a delivery at [t] with material [m] of a signal registered at [t0] with [m0] is
    answered. *)
Inductive redelivered (d : DB) (r : SignalIdentity) (t0 : Z) (m0 : list (chars * js)) (t : Z) (m : list (chars * js)) :
  result exn SignalIdentityRegistration -> Prop :=
| redelivered_stale : t < now d - SIGNAL_MAX_AGE_MS -> redelivered d r t0 m0 t m (Err SignalStale)
| redelivered_early : now d + SIGNAL_FUTURE_SKEW_MS < t -> redelivered d r t0 m0 t m (Err SignalFuture)
| redelivered_unprintable e :
    now d - SIGNAL_MAX_AGE_MS <= t <= now d + SIGNAL_FUTURE_SKEW_MS -> printable (JObject m) = false ->
    redelivered d r t0 m0 t m (Err (CanonicalJsonError e))
| redelivered_conflict :
    now d - SIGNAL_MAX_AGE_MS <= t <= now d + SIGNAL_FUTURE_SKEW_MS -> printable (JObject m) = true ->
    t <> t0 \/ ~ alike (JObject m) (JObject m0) ->
    redelivered d r t0 m0 t m (Err SignalIdentityConflict)
| redelivered_same a :
    now d - SIGNAL_MAX_AGE_MS <= t <= now d + SIGNAL_FUTURE_SKEW_MS -> t = t0 -> alike (JObject m) (JObject m0) ->
    rg_duplicate a = true -> rg_identityId a = i_id r -> rg_generatedAt a = t0 -> rg_payloadDigest a = i_payloadDigest r ->
    redelivered d r t0 m0 t m (Ok a).

(** C22: a replay cannot refresh or change a signal.  For a collision-free hash, a delivery of a
    signal registered with an instant and material fields is refused as stale or as from the
    future outside the freshness window around the delivery, by the digest when its fields
    cannot be printed, and as a conflict, with an audit entry, when its instant is another or
    its fields are not alike.  Only the original instant with like fields is answered: with the
    stored identity and its original instant, as a duplicate.  No delivery changes the
    registered identities. *)
Theorem replay_refused newId u s d r t0 m0 t :
  let sid := trimmed (si_signalId s) in
  (forall a b, sha256 a = sha256 b -> a = b) ->
  sid <> "" -> (length (chars_of sid) <= 100)%nat ->
  signals d !! (u, sid) = Some r -> i_generatedAt r = t0 ->
  digestCanonicalPayload sha256 (signal_payload sid t0 m0) = Ok (i_payloadDigest r) ->
  toDate (si_generatedAt s) = Some t -> valid_time t0 = true -> valid_time t = true ->
  numbers_ok (JObject m0) -> numbers_ok (JObject (si_materialFields s)) ->
  keys_distinct (JObject m0) -> keys_distinct (JObject (si_materialFields s)) ->
  let after := run (registerOrReuse newId u s) d in
  redelivered d r t0 m0 t (si_materialFields s) (snd after) /\
  signals (fst after) = signals d /\
  (snd after = Err SignalIdentityConflict ->
   audit (fst after) = audit d ++ [mkAudit (Some u) "AI_SIGNAL_IDENTITY_CONFLICT" "AiSignalIdentity" (i_id r) sid]).
Proof.
  cbv zeta. intros Hinj Hne Hl Hr Hr0 Hd0 Ht Hv0 Hv Hm0 Hm Hk0 Hk.
  assert (now d - SIGNAL_MAX_AGE_MS <= t <= now d + SIGNAL_FUTURE_SKEW_MS \/
          t < now d - SIGNAL_MAX_AGE_MS \/ now d + SIGNAL_FUTURE_SKEW_MS < t) as [Hw|Hw] by lia.
  - destruct (printable (JObject (si_materialFields s))) eqn:Hp.
    + destruct (payload_digest_total (trimmed (si_signalId s)) t _ Hp) as [dg Hd].
      rewrite (run_known newId u s d r t dg Hr Hne Hl Ht Hw Hd). pose proof (payload_digest _ _ _ _ Hd0) as Hp0.
      case_bool_decide as Hdg; cbn [fst snd]; (split; [|by split]).
      * subst dg. destruct (signal_payload_inj _ _ _ _ _ _ Hinj Hv Hv0 Hm Hm0 Hd Hd0) as [-> Hc].
        apply redelivered_same; try done. by apply alike_of_canon.
      * apply redelivered_conflict; [done..|]. destruct (decide (t = t0)) as [->|]; [right|by left].
        intros Ha%alike_canon; [|done]. apply Hdg. rewrite (payload_digest_same _ _ _ _ Hp Hp0 Ha), Hd0 in Hd. by injection Hd.
    + unfold registerOrReuse. rewrite bool_decide_eq_false_2, Ht by done. rewrite run_bind, run_read. cbv beta zeta.
      destruct (Z.gtb_spec (now d - t) SIGNAL_MAX_AGE_MS); [lia|].
      destruct (Z.gtb_spec (- (now d - t)) SIGNAL_FUTURE_SKEW_MS); [lia|].
      destruct (digestCanonicalPayload sha256 (signal_payload (trimmed (si_signalId s)) t (si_materialFields s))) as [dg|e] eqn:Hd; [apply payload_digest in Hd; congruence|].
      split; [by apply redelivered_unprintable|by split].
  - unfold registerOrReuse. rewrite bool_decide_eq_false_2, Ht by done. rewrite run_bind, run_read. cbv beta zeta.
    destruct (Z.gtb_spec (now d - t) SIGNAL_MAX_AGE_MS).
    { split; [apply redelivered_stale; lia|by split]. }
    destruct (Z.gtb_spec (- (now d - t)) SIGNAL_FUTURE_SKEW_MS); [|lia].
    split; [apply redelivered_early; lia|by split].
Qed.
End gate.

(** A first delivery, its retry and a replay with a moved instant. *)
Definition sample_signal (t : Z) : SignalIdentityInput :=
  mkSignalInput (Some " sig-1 ") (DDate (Some t)) [(chars_of "instrument", JString (chars_of "EURUSD"))].

Lemma replay_refused_witness :
  let no_dates : string -> option Z := fun _ => None in
  let d := fst (run (registerOrReuse string_of no_dates "i1" "u1" (sample_signal 1000)) (empty_db 2000)) in
  snd (run (registerOrReuse string_of no_dates "i2" "u1" (sample_signal 1500)) d) = Err SignalIdentityConflict /\
  exists a, snd (run (registerOrReuse string_of no_dates "i2" "u1" (sample_signal 1000)) d) = Ok a /\
    rg_identityId a = "i1" /\ rg_generatedAt a = 1000.
Proof.
  intros no_dates d.
  assert (exists r, signals d !! ("u1", "sig-1") = Some r /\ i_generatedAt r = 1000 /\ i_id r = "i1" /\
    digestCanonicalPayload string_of (signal_payload "sig-1" 1000 (si_materialFields (sample_signal 1000))) = Ok (i_payloadDigest r))
    as (r & Hr & Hg & Hi & Hd) by (vm_compute; eexists; repeat split).
  assert (now d = 2000) as Hnow by (vm_compute; reflexivity). clearbody d.
  assert (forall x y, string_of x = string_of y -> x = y) as Hinj
    by (intros x y Hxy; rewrite <- (chars_of_string_of x), <- (chars_of_string_of y); by rewrite Hxy).
  assert (forall t, numbers_ok (JObject (si_materialFields (sample_signal t)))) as Hm by (intros t; vm_compute; tauto).
  assert (forall t, keys_distinct (JObject (si_materialFields (sample_signal t)))) as Hk.
  { intros t. split; [apply (bool_decide_unpack _); vm_compute; exact I|vm_compute; tauto]. }
  assert (forall t, valid_time t = true ->
    redelivered d r 1000 (si_materialFields (sample_signal 1000)) t (si_materialFields (sample_signal t))
      (snd (run (registerOrReuse string_of no_dates "i2" "u1" (sample_signal t)) d))) as H.
  { intros t Ht. refine (proj1 (replay_refused string_of no_dates "i2" "u1" (sample_signal t) d r 1000
      (si_materialFields (sample_signal 1000)) t Hinj _ _ Hr Hg Hd eq_refl eq_refl Ht (Hm 1000) (Hm t) (Hk 1000) (Hk t))); vm_compute;
      [discriminate|repeat constructor]. }
  split.
  - destruct (H 1500 eq_refl) as [Hs|Hs|e _ Hp| |a _ He _ _ _ _ _]; rewrite ?Hnow in *; try done; unfold SIGNAL_MAX_AGE_MS, SIGNAL_FUTURE_SKEW_MS in *; lia.
  - destruct (H 1000 eq_refl) as [Hs|Hs|e _ Hp|_ _ [Hne|Hne]|a _ _ _ _ Ha1 Ha2 _]; rewrite ?Hnow in *;
      try done; try (unfold SIGNAL_MAX_AGE_MS, SIGNAL_FUTURE_SKEW_MS in *; lia).
    + destruct Hne. by apply alike_of_canon.
    + exists a. split; [done|]. split; [by rewrite Ha1|done].
Defined.
