(* ===== verification/Sizing.v ===== *)
(** * Position sizing ([execution/services/position-sizing.service.ts])

    [PositionSizingService.sizePosition] in full, with the helpers it calls:
    [drawdownRiskAdjustment] ([drawdown-risk-scaling.ts]), [paperAllocationSizingPolicy]
    ([paper-allocation-sizing-policy.ts]), [resolveOrderGeometry]
    ([risk/risk-order-geometry.service.ts]), the FX conversion of
    [market-data/services/broker-fx-conversion.service.ts] and [getBrokerAccountState]
    ([broker/broker.service.ts]).  All arithmetic is [ExactDecimal].  What these read of the
    store, of the market-data cache and of the broker adapters is the class [Evidence]; a read
    that throws inside a [try] answers [None], and each query of the required margin is
    numbered, so the broker may answer the same question differently later.  The record of
    inputs that is persisted holds the texts of the values named here. *)

From S2P Require Import Prelude JsString Decimal DecimalSpecs Store Adapter.
Open Scope string_scope.
Open Scope list_scope.
Open Scope Z_scope.

(** ** Errors *)

Inductive PositionSizingFailureCode :=
| EQUITY_UNPROVABLE | FREE_MARGIN_UNPROVABLE | ACCOUNT_CURRENCY_UNPROVABLE
| INSTRUMENT_SPEC_UNPROVABLE | CONTRACT_SIZE_UNPROVABLE
| STOP_LOSS_REQUIRED | STOP_LOSS_UNPARSEABLE | STOP_LOSS_DISTANCE_INVALID
| ENTRY_PRICE_UNPROVABLE | ENTRY_PRICE_UNPARSEABLE
| RISK_PROFILE_UNPROVABLE | RISK_BUDGET_UNPARSEABLE
| REQUIRED_MARGIN_UNPROVABLE | CURRENCY_MISMATCH
| POSITION_SIZE_BELOW_MINIMUM | POSITION_SIZE_BELOW_POLICY_MINIMUM
| BROKER_MINIMUM_MARGIN_UNAFFORDABLE | POLICY_MINIMUM_LOT_UNPROVABLE | POSITION_SIZE_ZERO.

(** A typed rejection, an error of [ExactDecimal], [BigInt] of a text that is no integer, and
    the fuel of the loop running out, which is proved not to happen. *)
Inductive sizing_error :=
| PositionSizingError (code : PositionSizingFailureCode)
| ExactDecimalError (e : EDError)
| BigIntError
| OutOfFuel.

Abbreviation sres := (result sizing_error).

Definition refuse {X} (code : PositionSizingFailureCode) : sres X := Err (PositionSizingError code).

Definition dec {X} (r : result EDError X) : sres X :=
  match r with Ok x => Ok x | Err e => Err (ExactDecimalError e) end.

(** [if (guard) throw]. *)
Definition refuse_when (guard : bool) (code : PositionSizingFailureCode) : sres unit :=
  if guard then refuse code else Ok tt.

(** A parsed value that is positive. *)
Definition positive (d : option ED) : option ED :=
  match d with Some d => if isPositive d then Some d else None | None => None end.

Definition positive_text (s : string) : option ED := positive (tryParse_text s).

Definition require {X} (o : option X) (code : PositionSizingFailureCode) : sres X :=
  match o with Some x => Ok x | None => refuse code end.

(** ** [drawdownRiskAdjustment] *)

Inductive DrawdownRiskMultiplier := QUARTER | HALF | THREE_QUARTERS | WHOLE.

Record DrawdownRiskAdjustment := mkDrawdown {
  currentDrawdownPercent : option ED; maxDrawdownPercent : option ED; multiplier : DrawdownRiskMultiplier }.

Definition multiplier_text (m : DrawdownRiskMultiplier) : string :=
  match m with QUARTER => "0.25" | HALF => "0.5" | THREE_QUARTERS => "0.75" | WHOLE => "1" end.

Local Open Scope result_scope.

Definition drawdownRiskAdjustment (equity : ED) (sessionPeakEquity maxDrawdownText : option string)
  : result EDError DrawdownRiskAdjustment :=
  let maxDrawdown := positive_text (default "" maxDrawdownText) in
  match positive_text (default "" sessionPeakEquity), maxDrawdown with
  | Some peak, Some maxDrawdown =>
      try! drawdownAmount := sub peak equity in
      if negb (isPositive drawdownAmount) then Ok (mkDrawdown (Some ZERO) (Some maxDrawdown) WHOLE)
      else
        try! scaled := mul drawdownAmount HUNDRED in
        try! current := divUp scaled peak (Int 8) in
        let answer := mkDrawdown (Some current) (Some maxDrawdown) in
        try! four := parse_text "4" in try! three := parse_text "3" in try! two := parse_text "2" in
        try! current4 := mul current four in
        try! max3 := mul maxDrawdown three in
        try! band75 := gte current4 max3 in
        if band75 then Ok (answer QUARTER)
        else
          try! current2 := mul current two in
          try! band50 := gte current2 maxDrawdown in
          if band50 then Ok (answer HALF)
          else
            try! band25 := gte current4 maxDrawdown in
            Ok (answer (if band25 then THREE_QUARTERS else WHOLE))
  | _, _ => Ok (mkDrawdown None maxDrawdown WHOLE)
  end.

(** ** [paperAllocationSizingPolicy] *)

Inductive PaperAllocationConfidenceTier := BASE | STRONG | VERY_STRONG | EXCEPTIONAL | ELITE | RESEARCH.

(** [String(paperAllocationRiskTargetPercent(tier))]. *)
Definition paperAllocationRiskTargetPercent (tier : PaperAllocationConfidenceTier) : string :=
  match tier with
  | VERY_STRONG | EXCEPTIONAL | ELITE => "2.5"
  | RESEARCH => "1"
  | BASE | STRONG => "2"
  end.

Inductive policy_reason := ALLOCATION_AWARE_PAPER | NON_PAPER_EXECUTION | INVALID_ALLOCATION | INVALID_BROKER_EQUITY.

(** The [riskCapitalBase] of the decision is not read by the sizing. *)
Record PaperAllocationSizingPolicyDecision := mkPolicy {
  enabled : bool; requestedRiskPercent : string; removeAiLotCeiling : bool; removeProfileLotCeiling : bool;
  reason : policy_reason }.

(** [Number.isFinite(x) && x > 0] for [x = Number(d.toString())]. *)
Definition positive_double (d : ED) : bool := positive_number (text d).

Definition paperAllocationSizingPolicy (executionMode : string) (brokerAccountType : option string)
    (allocatedCapital : option ED) (brokerEquity : ED) (tier : PaperAllocationConfidenceTier)
  : PaperAllocationSizingPolicyDecision :=
  let requested := paperAllocationRiskTargetPercent tier in
  let disabled := mkPolicy false requested false false in
  if negb (bool_decide (brokerAccountType = Some "DEMO"))
     || negb (bool_decide (executionMode ∈ ["PAPER_ONLY"; "SEMI_AUTO"; "FULL_AUTO"]))
  then disabled NON_PAPER_EXECUTION
  else if negb (match allocatedCapital with Some a => positive_double a | None => false end)
  then disabled INVALID_ALLOCATION
  else if negb (positive_double brokerEquity) then disabled INVALID_BROKER_EQUITY
  else mkPolicy true requested false true ALLOCATION_AWARE_PAPER.

(** ** What the sizing reads *)

Record BrokerInstrument := mkInstrument {
  bi_minLot : string; bi_maxLot : string; bi_lotStep : string; bi_contractSize : string }.

Record RiskProfileLimits := mkLimits {
  rp_maxTradeRiskPercent : string; rp_maxPositionSizeLot : string;
  rp_maxLeverageAllowed : string; (** [String(..)] of the integer column *)
  rp_maxDrawdownPercent : option string }.

(** An account snapshot or the legacy account row; absent values are [None]. *)
Record AccountView := mkAccountView {
  av_balance : option string; av_equity : option string; av_freeMargin : option string; av_currency : option string }.

Class Evidence := {
  acceptedSnapshot : option AccountView;      (** [readLatestAcceptedSnapshot] *)
  accountRow : option AccountView;            (** [accountRepo.findOne] *)
  riskProfile : option RiskProfileLimits;     (** [profileRepo.findOne] *)
  connectionAccountType : option string;      (** of [findConnectionById] *)
  executionQuote : option BrokerPrice;        (** [getCurrentPriceForConnection] of the instrument *)
  instrumentSpecification : option BrokerInstrument; (** [getInstrumentSpecForConnection] *)
  fxConversionAvailable : bool;               (** [BrokerFxConversionService] resolves *)
  cachedQuote : string -> option BrokerPrice; (** [getLatestPositiveSpreadQuote] *)
  conversionQuote : string -> option BrokerPrice; (** [getCurrentPriceForConnection] of a pair *)
  evaluatedAt : Z;                            (** the clock of the cached conversion *)
  quotedAt : Z;                               (** the clock of the quoted conversion *)
  requiredMargin : nat -> string -> option string (** the n-th [getRequiredMargin], of a lot size *) }.

Record PaperAllocationSizing := mkPaper {
  pa_executionMode : string; pa_allocatedCapital : option string; pa_confidenceTier : PaperAllocationConfidenceTier;
  pa_marketReferenceEntryPrice : option string; pa_adaptiveRiskMultiplier : option string;
  pa_sessionPeakEquity : option string; pa_minimumExecutableLot : option string }.

Inductive EntryType := MARKET_ENTRY | LIMIT_ENTRY.
#[export] Instance EntryType_eq_dec : EqDecision EntryType.
Proof. solve_decision. Defined.

Record SizeParams := mkSizeParams {
  sp_instrument : string; sp_direction : string; sp_entryType : EntryType; sp_requestedEntryPrice : option string;
  sp_stopLoss : option string; sp_requestedLotUpperBound : string; sp_paper : option PaperAllocationSizing }.

Section sizing.
Context `{!Evidence}.

(** ** [getBrokerAccountState] *)

Definition getBrokerAccountState : option (option string * option string * string) :=
  let nonempty c := match c with Some c => if bool_decide (c = "") then None else Some c | None => None end in
  match acceptedSnapshot with
  | Some v =>
      match av_balance v, av_equity v, av_freeMargin v, nonempty (av_currency v) with
      | Some _, Some e, Some f, Some c => Some (Some e, Some f, c)
      | _, _, _, _ => None
      end
  | None => v ← accountRow; c ← nonempty (av_currency v); Some (av_equity v, av_freeMargin v, c)
  end.

Record AccountState := mkAccountState { equity : ED; freeMargin : ED; accountCurrency : string }.

Definition account_state : sres AccountState :=
  try! account := require getBrokerAccountState EQUITY_UNPROVABLE in
  let '(equity, freeMargin, currency) := account in
  try! equity := require (positive_text (default "" equity)) EQUITY_UNPROVABLE in
  try! freeMargin := require (tryParse_text (default "" freeMargin)) FREE_MARGIN_UNPROVABLE in
  let accountCurrency := toUpperCase currency in
  try! _ := refuse_when (negb (upper_word 3 accountCurrency)) ACCOUNT_CURRENCY_UNPROVABLE in
  Ok (mkAccountState equity freeMargin accountCurrency).

(** ** Budget: the durable profile and the allocation-aware override *)

Record Limits := mkProfile {
  riskPercent : ED; profileMaxLots : ED; maxLeverageAllowed : ED; profileMaxDrawdown : option string }.

Definition profile_limits : sres Limits :=
  try! profile := require riskProfile RISK_PROFILE_UNPROVABLE in
  try! riskPercent := require (positive_text (rp_maxTradeRiskPercent profile)) RISK_BUDGET_UNPARSEABLE in
  try! profileMaxLots := require (positive_text (rp_maxPositionSizeLot profile)) RISK_BUDGET_UNPARSEABLE in
  try! maxLeverage := require (positive_text (rp_maxLeverageAllowed profile)) RISK_BUDGET_UNPARSEABLE in
  Ok (mkProfile riskPercent profileMaxLots maxLeverage (rp_maxDrawdownPercent profile)).

(** [allocationAwarePaper], the requested and the effective risk percent, the capital base and
    the two lifted ceilings. *)
Record Allocation := mkAllocation {
  aware : bool; requestedPercent : ED; basePercent : ED; riskCapitalBase : ED; noAiCeiling : bool; noProfileCeiling : bool }.

Definition allocation (p : SizeParams) (a : AccountState) (l : Limits) : sres Allocation :=
  let standard := mkAllocation false (riskPercent l) (riskPercent l) (equity a) false false in
  match sp_paper p with
  | None => Ok standard
  | Some paper =>
      let allocatedCapital := tryParse_text (default "" (pa_allocatedCapital paper)) in
      let policy := paperAllocationSizingPolicy (pa_executionMode paper) connectionAccountType allocatedCapital
                      (equity a) (pa_confidenceTier paper) in
      match positive allocatedCapital with
      | Some allocatedCapital =>
          if enabled policy then
            try! requested := dec (parse_text (requestedRiskPercent policy)) in
            try! base := dec (min requested (riskPercent l)) in
            try! capital := dec (min allocatedCapital (equity a)) in
            Ok (mkAllocation true requested base capital (removeAiLotCeiling policy) (removeProfileLotCeiling policy))
          else Ok standard
      | None => Ok standard
      end
  end.

(** The multipliers on the base percent. *)
Record RiskTerms := mkTerms {
  adaptiveMultiplier : ED; adaptivePercent : ED; drawdown : DrawdownRiskAdjustment; finalPercent : ED;
  combinedMultiplier : ED }.

Definition adaptive (p : SizeParams) (l : Limits) (al : Allocation) : sres (ED * ED) :=
  match sp_paper p with
  | Some paper =>
      match pa_adaptiveRiskMultiplier paper with
      | Some m =>
          if aware al then
            try! least := dec (parse_text "0.5") in
            try! most := dec (parse_text "1.25") in
            try! requested := require (tryParse_text m) RISK_BUDGET_UNPARSEABLE in
            try! low := dec (lt requested least) in
            try! high := dec (gt requested most) in
            try! _ := refuse_when (low || high) RISK_BUDGET_UNPARSEABLE in
            let ceiling := match pa_confidenceTier paper with RESEARCH => ONE | _ => most end in
            try! multiplier := dec (min requested ceiling) in
            try! product := dec (mul (basePercent al) multiplier) in
            try! percent := dec (min product (riskPercent l)) in
            Ok (multiplier, percent)
          else Ok (ONE, basePercent al)
      | None => Ok (ONE, basePercent al)
      end
  | None => Ok (ONE, basePercent al)
  end.

Definition risk_terms (p : SizeParams) (a : AccountState) (l : Limits) (al : Allocation) : sres RiskTerms :=
  try! m := adaptive p l al in
  try! d := (if aware al
             then dec (drawdownRiskAdjustment (equity a) (paper ← sp_paper p; pa_sessionPeakEquity paper) (profileMaxDrawdown l))
             else Ok (mkDrawdown None None WHOLE)) in
  try! factor := dec (parse_text (multiplier_text (multiplier d))) in
  try! final := dec (mul m.2 factor) in
  try! combined := dec (divDown final (basePercent al) (Int 8)) in
  Ok (mkTerms m.1 m.2 d final combined).

(** ** [resolveOrderGeometry] *)

Definition fresh_quote (direction : string) : sres (option ED) :=
  match executionQuote with
  | None => Ok None
  | Some q =>
      match positive_text (q_bid q), positive_text (q_ask q) with
      | Some bid, Some ask =>
          try! crossed := dec (lt ask bid) in
          Ok (if crossed then None
              else match q_timestamp q with
                   | Some _ => Some (if bool_decide (direction = "BUY") then ask else bid)
                   | None => None
                   end)
      | _, _ => Ok None
      end
  end.

Record Geometry := mkGeometry { contractSize : option ED; freshQuote : option ED; instrumentSpec : option BrokerInstrument }.

Definition resolveOrderGeometry (direction : string) (needFreshQuote : bool) : sres Geometry :=
  try! quote := (if needFreshQuote then fresh_quote direction else Ok None) in
  match instrumentSpecification with
  | None => Ok (mkGeometry None quote None)
  | Some spec =>
      let size := if bool_decide (bi_contractSize spec = "") then None else positive_text (bi_contractSize spec) in
      Ok (mkGeometry size quote (match size with Some _ => Some spec | None => None end))
  end.

(** ** Entry, stop and instrument *)

Record Entry := mkEntry {
  contract : ED; entry : ED; stopLoss : ED; riskReference : ED; slDistance : ED; minLot : ED; maxLot : ED; lotStep : ED }.

Definition entry_price (p : SizeParams) (g : Geometry) : sres ED :=
  match sp_entryType p with
  | LIMIT_ENTRY => require (positive_text (default "" (sp_requestedEntryPrice p))) ENTRY_PRICE_UNPARSEABLE
  | MARKET_ENTRY => require (positive (freshQuote g)) ENTRY_PRICE_UNPROVABLE
  end.

Definition risk_reference (p : SizeParams) (al : Allocation) (entry : ED) : sres ED :=
  match paper ← sp_paper p; pa_marketReferenceEntryPrice paper with
  | Some reference =>
      if aware al && bool_decide (sp_entryType p = MARKET_ENTRY)
      then require (positive_text reference) ENTRY_PRICE_UNPARSEABLE else Ok entry
  | None => Ok entry
  end.

Definition order_entry (p : SizeParams) (al : Allocation) : sres Entry :=
  try! g := resolveOrderGeometry (sp_direction p) (bool_decide (sp_entryType p = MARKET_ENTRY)) in
  let size := match contractSize g with
              | Some c => Some c
              | None => spec ← instrumentSpec g; tryParse_text (bi_contractSize spec)
              end in
  try! contract := require (positive size) CONTRACT_SIZE_UNPROVABLE in
  try! entry := entry_price p g in
  try! stop := require (sp_stopLoss p) STOP_LOSS_REQUIRED in
  try! stopLoss := require (positive_text stop) STOP_LOSS_UNPARSEABLE in
  try! reference := risk_reference p al entry in
  try! difference := dec (sub reference stopLoss) in
  let slDistance := abs difference in
  try! _ := refuse_when (negb (isPositive slDistance)) STOP_LOSS_DISTANCE_INVALID in
  try! spec := require (instrumentSpec g) INSTRUMENT_SPEC_UNPROVABLE in
  try! minLot := require (positive_text (bi_minLot spec)) INSTRUMENT_SPEC_UNPROVABLE in
  try! maxLot := require (positive_text (bi_maxLot spec)) INSTRUMENT_SPEC_UNPROVABLE in
  try! lotStep := require (positive_text (bi_lotStep spec)) INSTRUMENT_SPEC_UNPROVABLE in
  Ok (mkEntry contract entry stopLoss reference slDistance minLot maxLot lotStep).

(** ** Currency conversion *)

Definition MAX_FUTURE_SKEW_MS : Z := 5000.
Definition DEFAULT_MAX_AGE_MS : Z := 60000.

Definition isFreshQuote (quote : option BrokerPrice) : sres bool :=
  match quote with
  | None => Ok false
  | Some q =>
      match positive_text (q_bid q), positive_text (q_ask q) with
      | Some bid, Some ask =>
          try! crossed := dec (lt ask bid) in
          Ok (negb crossed &&
              match q_timestamp q with
              | Some t => (- MAX_FUTURE_SKEW_MS <=? evaluatedAt - t) && (evaluatedAt - t <=? DEFAULT_MAX_AGE_MS)
              | None => false
              end)
      | _, _ => Ok false
      end
  end.

(** The rate of a leg and the instrument it was read from. *)
Definition resolveLeg (baseCurrency quoteCurrency : string) : sres (option (ED * string)) :=
  let direct := cachedQuote (baseCurrency +:+ quoteCurrency) in
  let inverse := cachedQuote (quoteCurrency +:+ baseCurrency) in
  try! directFresh := isFreshQuote direct in
  match (if directFresh then q ← direct; positive_text (q_bid q) else None) with
  | Some bid => Ok (Some (bid, baseCurrency +:+ quoteCurrency))
  | None =>
      try! inverseFresh := isFreshQuote inverse in
      match (if inverseFresh then q ← inverse; positive_text (q_ask q) else None) with
      | Some ask =>
          try! rate := dec (divDown ONE ask (Int 12)) in
          Ok (Some (rate, quoteCurrency +:+ baseCurrency))
      | None => Ok None
      end
  end.

(** The rate's text and the path. *)
Definition resolveCachedBid (accountCurrency quoteCurrency : string) : sres (option (string * list string)) :=
  let account := toUpperCase (string_of (trim (chars_of accountCurrency))) in
  let quote := toUpperCase (string_of (trim (chars_of quoteCurrency))) in
  if negb (upper_word 3 account) || negb (upper_word 3 quote) then Ok None
  else if bool_decide (account = quote) then Ok (Some ("1", []))
  else
    try! direct := resolveLeg account quote in
    match direct with
    | Some (rate, instrument) => Ok (Some (text rate, [instrument]))
    | None =>
        if bool_decide (account = "USD") || bool_decide (quote = "USD") then Ok None
        else
          try! accountToUsd := resolveLeg account "USD" in
          match accountToUsd with
          | None => Ok None
          | Some (r1, i1) =>
              try! usdToQuote := resolveLeg "USD" quote in
              match usdToQuote with
              | None => Ok None
              | Some (r2, i2) => try! rate := dec (mul r1 r2) in Ok (Some (text rate, [i1; i2]))
              end
          end
    end.

Inductive RiskCurrencyConversion :=
| ACCOUNT_IS_QUOTE | ACCOUNT_IS_BASE_USING_ENTRY | ACCOUNT_TO_QUOTE_USING_BROKER_BID
| ACCOUNT_TO_QUOTE_USING_BROKER_NATIVE_EVIDENCE.

(** The bid of the quoted pair, when it is provable and fresh. *)
Definition quoted_bid (pair : string) : option ED :=
  quote ← conversionQuote pair;
  bid ← positive_text (q_bid quote);
  t ← q_timestamp quote;
  if (quotedAt - t <? -5000) || (quotedAt - t >? 60000) then None else Some bid.

(** The base and the quote currency of a standard symbol. *)
Definition currencies (p : SizeParams) : sres (string * string) :=
  let normalizedInstrument := toUpperCase (sp_instrument p) in
  try! _ := refuse_when (negb (upper_word 6 normalizedInstrument)) CURRENCY_MISMATCH in
  Ok (string_of (take 3 (chars_of normalizedInstrument)), string_of (take 3 (drop 3 (chars_of normalizedInstrument)))).

(** Quote-currency units per unit of the account currency. *)
Definition conversion_rate (baseCurrency quoteCurrency : string) (a : AccountState) (e : Entry)
  : sres (ED * RiskCurrencyConversion) :=
  if bool_decide (quoteCurrency = accountCurrency a) then Ok (ONE, ACCOUNT_IS_QUOTE)
  else if bool_decide (baseCurrency = accountCurrency a) then Ok (entry e, ACCOUNT_IS_BASE_USING_ENTRY)
  else
    try! cached := (if fxConversionAvailable then resolveCachedBid (accountCurrency a) quoteCurrency else Ok None) in
    match c ← cached; positive_text c.1 with
    | Some bid => Ok (bid, ACCOUNT_TO_QUOTE_USING_BROKER_NATIVE_EVIDENCE)
    | None =>
        try! bid := require (quoted_bid (accountCurrency a +:+ quoteCurrency)) CURRENCY_MISMATCH in
        Ok (bid, ACCOUNT_TO_QUOTE_USING_BROKER_BID)
    end.

(** The risk amounts in the account and the quote currency, and the durable ceiling. *)
Record RiskAmounts := mkAmounts {
  quotePerAccount : ED; conversion : RiskCurrencyConversion; baseRiskAmount : ED; riskAmount : ED;
  riskAmountInQuote : ED; ceilingInQuote : ED }.

(** [capital * percent / 100]. *)
Definition percent_amount (capital percent : ED) : sres ED :=
  try! product := dec (mul capital percent) in dec (divByPowerOfTen product (Int 2)).

Definition risk_amounts (p : SizeParams) (a : AccountState) (l : Limits) (al : Allocation) (rt : RiskTerms) (e : Entry)
  : sres RiskAmounts :=
  try! codes := currencies p in
  try! baseRisk := percent_amount (riskCapitalBase al) (basePercent al) in
  try! risk := percent_amount (riskCapitalBase al) (finalPercent rt) in
  try! c := conversion_rate codes.1 codes.2 a e in
  try! inQuote := match c.2 with ACCOUNT_IS_QUOTE => Ok risk | _ => dec (mul risk c.1) end in
  try! ceiling := percent_amount (riskCapitalBase al) (riskPercent l) in
  try! ceilingQuote := dec (mul ceiling c.1) in
  Ok (mkAmounts c.1 c.2 baseRisk risk inQuote ceilingQuote).

(** ** The volume *)

Definition LOT_SCALE : Z := 8.
Definition PAPER_PRODUCT_PREFERRED_LOT : string := "0.2".
Definition PAPER_PRODUCT_DEFAULT_MIN_LOT : string := "0.2".
Definition PAPER_PRODUCT_MAX_LOT : string := "4".
Definition MICRO_EQUITY_THRESHOLD : string := "50".
Definition MICRO_MARGIN_CAPACITY_MULTIPLIER : string := "0.8".

(** Down to a whole number of steps. *)
Definition to_steps (volume step : ED) : sres ED :=
  try! steps := dec (divDown volume step (Int 0)) in dec (mul steps step).

Definition leverage_ceiling (a : AccountState) (l : Limits) (e : Entry) (notional : ED) : sres ED :=
  try! most := dec (mul (equity a) (maxLeverageAllowed l)) in
  try! raw := dec (divDown most notional (Int LOT_SCALE)) in
  try! stepped := to_steps raw (lotStep e) in
  try! ceiling := (if isPositive stepped then
                     try! product := dec (mul stepped notional) in
                     try! boundary := dec (divUp product (equity a) (Int LOT_SCALE)) in
                     try! reached := dec (gte boundary (maxLeverageAllowed l)) in
                     if reached then dec (sub stepped (lotStep e)) else Ok stepped
                   else Ok stepped) in
  if isPositive ceiling then Ok ceiling
  else
    try! below := dec (lt raw (minLot e)) in
    refuse (if isPositive raw && below then POSITION_SIZE_BELOW_MINIMUM else POSITION_SIZE_ZERO).

(** The unrounded volume and what bounds it. *)
Record Volume := mkVolume {
  riskPerLot : ED; lotsByRiskBudget : ED; notionalPerLot : ED; lotsByLeverage : ED; requestedUpperBound : ED;
  effectiveUpperBound : ED; lotsBeforeStep : ED }.

Definition raw_volume (p : SizeParams) (a : AccountState) (l : Limits) (al : Allocation) (e : Entry) (r : RiskAmounts)
  : sres Volume :=
  try! perLot := dec (mul (slDistance e) (contract e)) in
  try! byRisk := dec (divDown (riskAmountInQuote r) perLot (Int LOT_SCALE)) in
  try! _ := refuse_when (negb (isPositive byRisk)) POSITION_SIZE_ZERO in
  try! requested := require (positive_text (sp_requestedLotUpperBound p)) RISK_BUDGET_UNPARSEABLE in
  try! gross := dec (mul (entry e) (contract e)) in
  try! notional := dec (divUp gross (quotePerAccount r) (Int 12)) in
  try! _ := refuse_when (negb (isPositive notional)) RISK_BUDGET_UNPARSEABLE in
  try! byLeverage := leverage_ceiling a l e notional in
  try! productMax := dec (parse_text PAPER_PRODUCT_MAX_LOT) in
  try! effective := (if aware al then dec (min requested productMax) else Ok requested) in
  try! v0 := dec (min byRisk (maxLot e)) in
  try! v1 := dec (min v0 byLeverage) in
  try! v2 := (if aware al then dec (min v1 productMax) else Ok v1) in
  try! v3 := (if noProfileCeiling al then Ok v2 else dec (min v2 (profileMaxLots l))) in
  try! v4 := (if noAiCeiling al then Ok v3 else dec (min v3 effective)) in
  Ok (mkVolume perLot byRisk notional byLeverage requested effective v4).

Definition stepped_volume (e : Entry) (v : Volume) : sres ED :=
  try! lots := to_steps (lotsBeforeStep v) (lotStep e) in
  if negb (isPositive lots) then
    try! below := dec (lt (lotsBeforeStep v) (minLot e)) in
    refuse (if isPositive (lotsBeforeStep v) && below then POSITION_SIZE_BELOW_MINIMUM else POSITION_SIZE_ZERO)
  else
    try! below := dec (lt lots (minLot e)) in
    try! _ := refuse_when below POSITION_SIZE_BELOW_MINIMUM in
    Ok lots.

(** The preferred lot of allocation-aware PAPER: the volume is lifted to it when it is a whole
    number of steps and every ceiling holds it. *)
Definition floor_fits (l : Limits) (al : Allocation) (e : Entry) (v : Volume) (preferred : ED) : sres bool :=
  try! normalized := to_steps preferred (lotStep e) in
  try! whole := dec (eq normalized preferred) in
  try! underMax := dec (lte preferred (maxLot e)) in
  try! underBound := dec (lte preferred (effectiveUpperBound v)) in
  try! underLeverage := dec (lte preferred (lotsByLeverage v)) in
  try! underProfile := dec (lte preferred (profileMaxLots l)) in
  Ok (whole && underMax && (noAiCeiling al || underBound) && underLeverage && (noProfileCeiling al || underProfile)).

(** The volume, the preferred lot, and whether it was lifted to it. *)
Definition preferred_volume (p : SizeParams) (l : Limits) (al : Allocation) (e : Entry) (r : RiskAmounts) (v : Volume) (lots : ED)
  : sres (ED * option ED * bool) :=
  if negb (aware al) then Ok (lots, None, false)
  else
    try! standard := dec (parse_text PAPER_PRODUCT_DEFAULT_MIN_LOT) in
    try! requested := match paper ← sp_paper p; pa_minimumExecutableLot paper with
                      | Some m => require (positive_text m) POLICY_MINIMUM_LOT_UNPROVABLE
                      | None => Ok standard
                      end in
    try! paperPreferred := dec (parse_text PAPER_PRODUCT_PREFERRED_LOT) in
    try! preferred := dec (max requested paperPreferred) in
    try! fits := floor_fits l al e v preferred in
    try! smaller := dec (lt lots preferred) in
    if smaller then
      try! floorRisk := dec (mul preferred (riskPerLot v)) in
      try! underRisk := dec (lte floorRisk (ceilingInQuote r)) in
      try! overMin := dec (gte preferred (minLot e)) in
      Ok (if fits && underRisk && overMin then (preferred, Some preferred, true) else (lots, Some preferred, false))
    else Ok (lots, Some preferred, false).

(** ** Margin *)

Definition margin_capacity (a : AccountState) (al : Allocation) : sres ED :=
  try! threshold := dec (parse_text MICRO_EQUITY_THRESHOLD) in
  try! micro := dec (lte (equity a) threshold) in
  try! reserve := dec (parse_text MICRO_MARGIN_CAPACITY_MULTIPLIER) in
  try! least := dec (min (freeMargin a) (riskCapitalBase al)) in
  dec (mul least (if aware al && micro then reserve else ONE)).

(** The [n]-th query of the broker. *)
Definition requiredMarginForLots (n : nat) (lots : ED) : sres ED :=
  require (positive_text (default "" (requiredMargin n (text lots)))) REQUIRED_MARGIN_UNPROVABLE.

Definition to_bigint (d : ED) : sres Z := if scale d =? 0 then Ok (unscaled d) else Err BigIntError.

(** [while (low <= high)]: [best] is the largest affordable volume found, [n] the number of
    queries made. *)
Fixpoint step_down (fuel n : nat) (step least capacity : ED) (low high : Z) (best : option (ED * ED))
  : sres (option (ED * ED)) :=
  if high <? low then Ok best
  else
    match fuel with
    | O => Err OutOfFuel
    | S fuel =>
        let middle := (low + high) / 2 in
        try! count := dec (parse (InString (to_digits middle))) in
        try! candidate := dec (mul step count) in
        try! below := dec (lt candidate least) in
        if below then step_down fuel n step least capacity (middle + 1) high best
        else
          try! margin := requiredMarginForLots n candidate in
          try! affordable := dec (lte margin capacity) in
          if affordable then step_down fuel (S n) step least capacity (middle + 1) high (Some (candidate, margin))
          else step_down fuel (S n) step least capacity low (middle - 1) best
    end.

Definition affordable_volume (a : AccountState) (al : Allocation) (e : Entry) (lots : ED) : sres (ED * ED) :=
  try! capacity := margin_capacity a al in
  try! required := requiredMarginForLots 0 lots in
  try! exceeds := dec (gt required capacity) in
  if exceeds then
    try! least := dec (divDown (minLot e) (lotStep e) (Int 0)) in
    try! most := dec (divDown lots (lotStep e) (Int 0)) in
    try! low := to_bigint least in
    try! high := to_bigint most in
    try! best := step_down (S (Z.to_nat (high - low))) 1 (lotStep e) (minLot e) capacity low high None in
    require best BROKER_MINIMUM_MARGIN_UNAFFORDABLE
  else Ok (lots, required).

(** ** [sizePosition] *)

Record SizedPosition := mkSized {
  lots : ED; allocatedCapital : ED; sizedCurrency : string; entryPrice : ED;
  account : AccountState; limits : Limits; terms : Allocation; risk : RiskTerms; geometry : Entry; amounts : RiskAmounts;
  volume : Volume; preferredLot : option ED; lifted : bool;
  finalRiskAtStop : ED; finalRiskPercent : ED; finalNotional : ED; finalLeverage : ED; grossNotional : ED }.

Definition sizePosition (p : SizeParams) : sres SizedPosition :=
  try! a := account_state in
  try! l := profile_limits in
  try! al := allocation p a l in
  try! rt := risk_terms p a l al in
  try! e := order_entry p al in
  try! r := risk_amounts p a l al rt e in
  try! v := raw_volume p a l al e r in
  try! lots := stepped_volume e v in
  try! preferred := preferred_volume p l al e r v lots in
  let '(lots, preferredLot, lifted) := preferred in
  try! paid := affordable_volume a al e lots in
  let '(lots, margin) := paid in
  try! riskInQuote := dec (mul lots (riskPerLot v)) in
  try! riskAtStop := dec (divDown riskInQuote (quotePerAccount r) (Int LOT_SCALE)) in
  try! fraction := dec (divDown riskAtStop (riskCapitalBase al) (Int LOT_SCALE)) in
  try! riskPercent := dec (mulByPowerOfTen fraction (Int 2)) in
  try! notional := dec (mul lots (notionalPerLot v)) in
  try! leverage := dec (divUp notional (equity a) (Int LOT_SCALE)) in
  try! reached := dec (gte leverage (maxLeverageAllowed l)) in
  try! _ := refuse_when reached POSITION_SIZE_ZERO in
  try! sizeContracts := dec (mul lots (contract e)) in
  try! gross := dec (mul sizeContracts (entry e)) in
  Ok (mkSized lots margin (accountCurrency a) (entry e) a l al rt e r v preferredLot lifted riskAtStop riskPercent notional
        leverage gross).
End sizing.
