(* ===== verification/SizingBounds.v ===== *)
(** * What a sized position promises

    [Sizing.sizePosition] walked phase by phase: [sound r Q] says that [r] answers a value with
    [Q] or a typed rejection, and never [OutOfFuel] or [BigIntError].  The phases' contracts
    ([account_ok], [limits_ok], ...) are composed into the bounds of the sized position; the
    binary search of the margin step-down is shown to find the largest affordable volume. *)

From S2P Require Import Prelude JsString Decimal DecimalSpecs Store Adapter Sizing.
From Stdlib Require Import QArith Qabs Lqa.
Open Scope string_scope.
Open Scope list_scope.
Open Scope Z_scope.

(** Case analysis of the test a computation starts with. *)
Ltac head_match :=
  match goal with |- ?P (match ?o with _ => _ end) _ => destruct o end.

(** ** Outcomes *)

Definition sound {A} (r : sres A) (Q : A -> Prop) : Prop :=
  match r with
  | Ok x => Q x
  | Err BigIntError | Err OutOfFuel => False
  | Err _ => True
  end.

Lemma sound_bind {A B} (r : sres A) (f : A -> sres B) P Q :
  sound r P -> (forall x, P x -> sound (f x) Q) -> sound (rbind r f) Q.
Proof. destruct r as [x|[]]; cbn; auto. Qed.

Lemma sound_weaken {A} (r : sres A) (P Q : A -> Prop) : sound r P -> (forall x, P x -> Q x) -> sound r Q.
Proof. destruct r as [x|[]]; cbn; auto. Qed.

Lemma sound_refuse {A} code (Q : A -> Prop) : sound (refuse code) Q.
Proof. done. Qed.

Lemma sound_ret {A} (x : A) (Q : A -> Prop) : Q x -> sound (Ok x) Q.
Proof. done. Qed.

Lemma sound_dec {A} (r : result EDError A) (Q : A -> Prop) : (forall x, r = Ok x -> Q x) -> sound (dec r) Q.
Proof. destruct r; cbn; auto. Qed.

Lemma sound_require {A} (o : option A) code (Q : A -> Prop) : (forall x, o = Some x -> Q x) -> sound (require o code) Q.
Proof. destruct o; cbn; auto. Qed.

Lemma sound_guard b code : sound (refuse_when b code) (fun _ => b = false).
Proof. by destruct b. Qed.

Definition pos (d : ED) : Prop := canonical d /\ (0 < toQ d)%Q.

Lemma positive_pos o d : (forall x, o = Some x -> canonical x) -> Sizing.positive o = Some d -> pos d.
Proof.
  intros Ho. destruct o as [x|]; [|done]. cbn. destruct (isPositive x) eqn:E; [|done]. intros [= <-].
  split; [auto|by apply isPositive_Q].
Qed.

Lemma positive_text_pos s d : positive_text s = Some d -> pos d.
Proof. apply positive_pos. apply tryParse_canonical. Qed.

Lemma sound_positive_text s code : sound (require (positive_text s) code) pos.
Proof. apply sound_require, positive_text_pos. Qed.

Lemma sound_const s d : parse_text s = Ok d -> sound (dec (parse_text s)) (fun x => x = d).
Proof. intros H. apply sound_dec. intros x. rewrite H. congruence. Qed.

Lemma pos_one : pos ONE.
Proof. done. Qed.

(** ** Operations on canonical values *)

Section operations.
Context (a b : ED) (Ha : canonical a) (Hb : canonical b).

Lemma sound_lt : sound (dec (lt a b)) (fun c => if c then (toQ a < toQ b)%Q else (toQ b <= toQ a)%Q).
Proof using Ha Hb. apply sound_dec, lt_ok; done. Qed.
Lemma sound_lte : sound (dec (lte a b)) (fun c => if c then (toQ a <= toQ b)%Q else (toQ b < toQ a)%Q).
Proof using Ha Hb. apply sound_dec, lte_ok; done. Qed.
Lemma sound_gt : sound (dec (gt a b)) (fun c => if c then (toQ b < toQ a)%Q else (toQ a <= toQ b)%Q).
Proof using Ha Hb. apply sound_dec, gt_ok; done. Qed.
Lemma sound_gte : sound (dec (gte a b)) (fun c => if c then (toQ b <= toQ a)%Q else (toQ a < toQ b)%Q).
Proof using Ha Hb. apply sound_dec, gte_ok; done. Qed.
Lemma sound_eq : sound (dec (Decimal.eq a b)) (fun c => if c then (toQ a == toQ b)%Q else True).
Proof using Ha Hb. apply sound_dec. intros [] H; [by apply eq_ok|done]. Qed.
Lemma sound_mul : sound (dec (mul a b)) (fun d => canonical d /\ (toQ d == toQ a * toQ b)%Q).
Proof using Ha Hb. apply sound_dec. intros x. by apply mul_ok. Qed.
Lemma sound_sub : sound (dec (sub a b)) (fun d => canonical d /\ (toQ d == toQ a - toQ b)%Q).
Proof using Ha Hb. apply sound_dec. intros x. by apply sub_ok. Qed.
Lemma sound_min :
  sound (dec (min a b)) (fun d => (d = a \/ d = b) /\ canonical d /\ (toQ d <= toQ a)%Q /\ (toQ d <= toQ b)%Q).
Proof using Ha Hb. apply sound_dec. intros x. by apply min_ok. Qed.
Lemma sound_max :
  sound (dec (max a b)) (fun d => (d = a \/ d = b) /\ canonical d /\ (toQ a <= toQ d)%Q /\ (toQ b <= toQ d)%Q).
Proof using Ha Hb. apply sound_dec. intros x. by apply max_ok. Qed.
End operations.
#[export] Hint Resolve sound_lt sound_lte sound_gt sound_gte sound_eq sound_mul sound_sub sound_min sound_max
  sound_positive_text sound_guard : irex.

Section divisions.
Context (a b : ED) (sc : Z) (Ha : canonical a) (Hb : pos b) (Hpa : (0 <= toQ a)%Q) (Hsc : 0 <= sc <= MAX_SCALE).

Lemma sound_divUp : sound (dec (divUp a b (Int sc))) (fun d => canonical d /\ (toQ a <= toQ d * toQ b)%Q).
Proof using Ha Hb Hpa Hsc. destruct Hb. apply sound_dec. intros x. by apply divUp_ok. Qed.
Lemma sound_divDown :
  sound (dec (divDown a b (Int sc))) (fun d => canonical d /\ (0 <= toQ d)%Q /\ (toQ d * toQ b <= toQ a)%Q).
Proof using Ha Hb Hpa Hsc. destruct Hb. apply sound_dec. intros x. by apply divDown_ok. Qed.
End divisions.

Lemma sound_percent a : canonical a -> sound (dec (divByPowerOfTen a (Int 2))) (fun d => canonical d /\ (toQ d == toQ a * (1 # 100))%Q).
Proof. intros Ha. apply sound_dec. intros x. by apply percent_ok. Qed.

(** A whole number of steps of [step]. *)
Definition stepped (step d : ED) : Prop := exists k, 0 <= k /\ (toQ d == inject_Z k * toQ step)%Q.

Lemma sound_steps_count a step :
  canonical a -> pos step -> (0 <= toQ a)%Q ->
  sound (dec (divDown a step (Int 0)))
    (fun d => canonical d /\ scale d = 0 /\ 0 <= unscaled d /\ (inject_Z (unscaled d) * toQ step <= toQ a)%Q).
Proof.
  intros Ha [Hs Hp] Hpa. apply sound_dec. intros x Hx.
  destruct (divDown_whole a step Ha Hs x Hpa Hp Hx) as (? & ? & ? & ?); auto.
Qed.

Lemma scale_0_Q d : scale d = 0 -> (toQ d == inject_Z (unscaled d))%Q.
Proof. destruct d as [u s]; cbn. intros ->. apply whole_Q. Qed.

Lemma sound_to_steps a step :
  canonical a -> pos step -> (0 <= toQ a)%Q ->
  sound (to_steps a step) (fun d => canonical d /\ stepped step d /\ (toQ d <= toQ a)%Q).
Proof.
  intros Ha Hs Hpa. unfold to_steps. eapply sound_bind; [by apply sound_steps_count|].
  intros n (Hn & Hsc & Hu & Hle). destruct Hs. eapply sound_weaken; [by apply sound_mul|].
  intros d [Hd Hq]. pose proof (scale_0_Q n Hsc) as Hn0. setoid_rewrite Hn0 in Hq.
  split; [done|]. split; [by exists (unscaled n)|]. lra.
Qed.

(** ** The phases' contracts *)

Section phases.
Context `{Hev : !Evidence}.

Definition account_ok (a : AccountState) : Prop := pos (equity a) /\ canonical (freeMargin a).

Lemma account_sound : sound account_state account_ok.
Proof.
  unfold account_state. eapply sound_bind; [by apply sound_require with (Q := fun _ => True)|].
  intros [[? ?] ?] _. eapply sound_bind; [apply sound_positive_text|]. intros eq Heq.
  eapply sound_bind; [apply sound_require; intros x; apply tryParse_canonical|]. intros free Hfree.
  eapply sound_bind; [apply sound_guard|]. intros _ _. by split.
Qed.

Definition limits_ok (l : Limits) : Prop := pos (riskPercent l) /\ pos (profileMaxLots l) /\ pos (maxLeverageAllowed l).

Lemma limits_sound : sound profile_limits limits_ok.
Proof.
  unfold profile_limits. eapply sound_bind; [by apply sound_require with (Q := fun _ => True)|]. intros pr _.
  eapply sound_bind; [apply sound_positive_text|]. intros x Hx.
  eapply sound_bind; [apply sound_positive_text|]. intros y Hy.
  eapply sound_bind; [apply sound_positive_text|]. intros z Hz. by repeat split; try apply Hx; try apply Hy; try apply Hz.
Qed.

(** The capital base is at most the equity, the base percent at most the profile's; only
    allocation-aware PAPER lifts the profile's volume ceiling, and nothing lifts the caller's. *)
Definition allocation_ok (p : SizeParams) (a : AccountState) (l : Limits) (al : Allocation) : Prop :=
  pos (basePercent al) /\ (toQ (basePercent al) <= toQ (riskPercent l))%Q /\
  pos (riskCapitalBase al) /\ (toQ (riskCapitalBase al) <= toQ (equity a))%Q /\
  noAiCeiling al = false /\ (noProfileCeiling al = true -> aware al = true) /\
  (aware al = true -> exists paper c, sp_paper p = Some paper /\
     positive_text (default "" (pa_allocatedCapital paper)) = Some c /\ (toQ (riskCapitalBase al) <= toQ c)%Q).

Lemma allocation_sound p a l : account_ok a -> limits_ok l -> sound (allocation p a l) (allocation_ok p a l).
Proof.
  intros [He Hf] (Hr & Hm & Hl). unfold allocation.
  assert (allocation_ok p a l (mkAllocation false (riskPercent l) (riskPercent l) (equity a) false false)) as Hstd.
  { unfold allocation_ok. cbn. repeat split; try apply Hr; try apply He; try lra; done. }
  destruct (sp_paper p) as [paper|] eqn:Hpaper; [|exact Hstd].
  change (Sizing.positive (tryParse_text (default "" (pa_allocatedCapital paper))))
    with (positive_text (default "" (pa_allocatedCapital paper))).
  destruct (positive_text (default "" (pa_allocatedCapital paper))) as [c|] eqn:Hc; [|exact Hstd].
  pose proof (positive_text_pos _ _ Hc) as Hcp.
  assert (forall pol, pol = paperAllocationSizingPolicy (pa_executionMode paper) connectionAccountType
            (tryParse_text (default "" (pa_allocatedCapital paper))) (equity a) (pa_confidenceTier paper) ->
            removeAiLotCeiling pol = false) as Hai.
  { intros pol ->. unfold paperAllocationSizingPolicy. by repeat case_match. }
  remember (paperAllocationSizingPolicy _ _ _ _ _) as pol eqn:Hpol. specialize (Hai pol eq_refl).
  assert (exists d, parse_text (requestedRiskPercent pol) = Ok d /\ pos d) as (d & Hd & Hdp).
  { rewrite Hpol. assert (requestedRiskPercent (paperAllocationSizingPolicy (pa_executionMode paper) connectionAccountType
              (tryParse_text (default "" (pa_allocatedCapital paper))) (equity a) (pa_confidenceTier paper))
            = paperAllocationRiskTargetPercent (pa_confidenceTier paper)) as ->
      by (unfold paperAllocationSizingPolicy; by repeat case_match).
    destruct (pa_confidenceTier paper); eexists; (split; [reflexivity|by split]). }
  destruct (enabled pol); [|exact Hstd].
  eapply sound_bind; [by apply sound_const|]. intros ? ->.
  destruct He as [He1 He2], Hr as [Hr1 Hr2], Hcp as [Hc1 Hc2], Hdp as [Hd1 Hd2].
  eapply sound_bind; [by apply sound_min|]. intros base (Hb & Hbc & _ & Hble).
  eapply sound_bind; [by apply sound_min|]. intros cap (Hca & Hcc & Hcle & Hcle2).
  unfold allocation_ok. cbn. repeat split; try done.
  - by destruct Hb as [-> | ->].
  - by destruct Hca as [-> | ->].
  - intros _. exists paper, c. done.
Qed.

(** The effective percent is at most the profile's. *)
Definition terms_ok (l : Limits) (rt : RiskTerms) : Prop :=
  pos (finalPercent rt) /\ (toQ (finalPercent rt) <= toQ (riskPercent l))%Q.

Lemma adaptive_sound p a l al :
  limits_ok l -> allocation_ok p a l al ->
  sound (adaptive p l al) (fun m => pos m.2 /\ (toQ m.2 <= toQ (riskPercent l))%Q).
Proof.
  intros ([Hr1 Hr2] & _) (Hb & Hbl & _). unfold adaptive.
  assert (pos (basePercent al) /\ (toQ (basePercent al) <= toQ (riskPercent l))%Q) as Hsame by done.
  destruct (sp_paper p) as [paper|]; [|done]. destruct (pa_adaptiveRiskMultiplier paper) as [m|]; [|done].
  destruct (aware al); [|done]. destruct Hb as [Hb1 Hb2].
  eapply sound_bind; [by apply (sound_const _ (mkED 5 1))|]. intros ? ->.
  eapply sound_bind; [by apply (sound_const _ (mkED 125 2))|]. intros ? ->.
  eapply sound_bind; [apply sound_require; intros x; apply tryParse_canonical|]. intros req Hreq.
  eapply sound_bind; [by apply sound_lt|]. intros low Hlow.
  eapply sound_bind; [by apply sound_gt|]. intros high Hhigh.
  eapply sound_bind; [apply sound_guard|]. intros _ [-> ->]%orb_false_iff. cbv iota in Hlow, Hhigh.
  assert (0 < toQ req)%Q as Hreqp.
  { eapply Qlt_le_trans; [|exact Hlow]. reflexivity. }
  set (ceiling := match pa_confidenceTier paper with RESEARCH => ONE | _ => mkED 125 2 end).
  assert (pos ceiling) as [Hcc Hcp] by (unfold ceiling; by destruct (pa_confidenceTier paper)).
  eapply sound_bind; [by apply sound_min|]. intros mult (Hm & Hmc & _).
  assert (0 < toQ mult)%Q as Hmp by (by destruct Hm as [-> | ->]).
  eapply sound_bind; [by apply sound_mul|]. intros prod [Hpc Hpq].
  assert (0 < toQ prod)%Q as Hpp by nra.
  eapply sound_bind; [by apply sound_min|]. intros pct (Hx & Hxc & _ & Hxl).
  cbn. repeat split; [done| |done]. by destruct Hx as [-> | ->].
Qed.

Lemma multiplier_sound m :
  sound (dec (parse_text (multiplier_text m))) (fun d => pos d /\ (toQ d <= 1)%Q).
Proof. by destruct m. Qed.

Lemma terms_sound p a l al :
  account_ok a -> limits_ok l -> allocation_ok p a l al -> sound (risk_terms p a l al) (terms_ok l).
Proof.
  intros Ha Hl Hal. unfold risk_terms. eapply sound_bind; [by eapply adaptive_sound|]. intros [m pct] ([Hp1 Hp2] & Hple).
  cbn [snd fst] in *.
  eapply sound_bind.
  { instantiate (1 := fun _ => True). destruct (aware al); [by apply sound_dec|done]. }
  intros d _. eapply sound_bind; [apply multiplier_sound|]. intros f [[Hf1 Hf2] Hfle].
  eapply sound_bind; [by apply sound_mul|]. intros final [Hc Hq].
  eapply sound_bind; [by apply sound_dec with (Q := fun _ => True)|]. intros ? _.
  cbn. unfold terms_ok. cbn. repeat split; [done|nra|nra].
Qed.

(** ** Geometry *)

Definition entry_ok (e : Entry) : Prop :=
  pos (contract e) /\ pos (entry e) /\ canonical (riskReference e) /\ pos (stopLoss e) /\ pos (slDistance e) /\
  pos (minLot e) /\ pos (maxLot e) /\ pos (lotStep e) /\
  (toQ (slDistance e) == Qabs (toQ (riskReference e) - toQ (stopLoss e)))%Q.

Lemma quote_sound direction : sound (fresh_quote direction) (fun q => forall d, q = Some d -> pos d).
Proof.
  unfold fresh_quote. destruct executionQuote as [q|]; [|done].
  destruct (positive_text (q_bid q)) as [bid|] eqn:Hb; [|done].
  destruct (positive_text (q_ask q)) as [ask|] eqn:Ha; [|done].
  apply positive_text_pos in Hb, Ha. eapply sound_bind; [apply sound_lt; [apply Ha|apply Hb]|].
  intros crossed _. cbn. destruct crossed; [done|]. destruct (q_timestamp q); [|done].
  intros d [= <-]. by destruct (bool_decide _).
Qed.

Lemma geometry_sound direction need :
  sound (resolveOrderGeometry direction need) (fun g =>
    (forall d, freshQuote g = Some d -> pos d) /\ forall d, contractSize g = Some d -> canonical d).
Proof.
  unfold resolveOrderGeometry. eapply sound_bind.
  { instantiate (1 := fun q => forall d, q = Some d -> pos d). destruct need; [apply quote_sound|done]. }
  intros quote Hq. destruct instrumentSpecification as [spec|]; [|done].
  apply sound_ret. cbn. split; [done|]. intros d.
  case_match; [done|]. intros Hd. by apply positive_text_pos in Hd as [? _].
Qed.

Lemma entry_price_sound p g :
  (forall d, freshQuote g = Some d -> pos d) -> sound (entry_price p g) pos.
Proof.
  intros Hg. unfold entry_price. destruct (sp_entryType p); [|apply sound_positive_text].
  apply sound_require. intros x. apply positive_pos. intros y Hy. by destruct (Hg y Hy).
Qed.

Lemma reference_sound p al d : pos d -> sound (risk_reference p al d) pos.
Proof.
  intros Hd. unfold risk_reference. repeat case_match; try done. apply sound_positive_text.
Qed.

Lemma entry_sound p al : sound (order_entry p al) entry_ok.
Proof.
  unfold order_entry. eapply sound_bind; [apply geometry_sound|]. intros g [Hq Hc].
  eapply sound_bind.
  { apply sound_require. intros x. apply positive_pos. intros y. destruct (contractSize g) as [c|] eqn:Eg.
    - intros [= <-]. by apply Hc.
    - destruct (instrumentSpec g); [apply tryParse_canonical|done]. }
  intros c Hcp. eapply sound_bind; [by apply entry_price_sound|]. intros en Hen.
  eapply sound_bind; [by apply sound_require with (Q := fun _ => True)|]. intros stop _.
  eapply sound_bind; [apply sound_positive_text|]. intros sl Hsl.
  eapply sound_bind; [by apply reference_sound|]. intros ref Href.
  eapply sound_bind; [apply sound_sub; [apply Href|apply Hsl]|]. intros diff [Hdc Hdq].
  destruct (abs_ok diff Hdc) as [Hac Haq].
  eapply sound_bind; [apply sound_guard|]. intros _ Hpos%negb_false_iff%isPositive_Q.
  eapply sound_bind; [by apply sound_require with (Q := fun _ => True)|]. intros spec _.
  eapply sound_bind; [apply sound_positive_text|]. intros lo Hlo.
  eapply sound_bind; [apply sound_positive_text|]. intros hi Hhi.
  eapply sound_bind; [apply sound_positive_text|]. intros st Hst.
  apply sound_ret. unfold entry_ok. cbn [contract entry riskReference stopLoss slDistance minLot maxLot lotStep].
  destruct Href. repeat (split; [done|]). by rewrite Haq, Hdq.
Qed.

(** ** Conversion and risk amounts *)

Lemma fresh_sound quote : sound (isFreshQuote quote) (fun _ => True).
Proof.
  unfold isFreshQuote. destruct quote as [q|]; [|done].
  destruct (positive_text (q_bid q)) as [bid|]; [|done]. destruct (positive_text (q_ask q)) as [ask|]; [|done].
  eapply sound_bind; [by apply sound_dec with (Q := fun _ => True)|]. by intros.
Qed.

Lemma leg_sound base quote : sound (resolveLeg base quote) (fun _ => True).
Proof.
  unfold resolveLeg. eapply sound_bind; [apply fresh_sound|]. intros ? _. head_match; [done|].
  eapply sound_bind; [apply fresh_sound|]. intros ? _. head_match; [|done].
  eapply sound_bind; [by apply sound_dec with (Q := fun _ => True)|]. by intros.
Qed.

Lemma cached_sound account quote : sound (resolveCachedBid account quote) (fun _ => True).
Proof.
  unfold resolveCachedBid. head_match; [done|]. head_match; [done|].
  eapply sound_bind; [apply leg_sound|]. intros [[? ?]|] _; [done|]. head_match; [done|].
  eapply sound_bind; [apply leg_sound|]. intros [[? ?]|] _; [|done].
  eapply sound_bind; [apply leg_sound|]. intros [[? ?]|] _; [|done].
  eapply sound_bind; [by apply sound_dec with (Q := fun _ => True)|]. by intros.
Qed.

Definition rate_ok (c : ED * RiskCurrencyConversion) : Prop := pos c.1 /\ (c.2 = ACCOUNT_IS_QUOTE -> c.1 = ONE).

Lemma conversion_sound base quote a e : entry_ok e -> sound (conversion_rate base quote a e) rate_ok.
Proof.
  intros He. unfold conversion_rate.
  case_match; [done|]. case_match.
  { apply sound_ret. split; [apply He|done]. }
  eapply sound_bind.
  { instantiate (1 := fun _ => True). case_match; [apply cached_sound|done]. }
  intros cached _. destruct (cached ≫= _) as [bid|] eqn:Hbid.
  - apply sound_ret. split; [|done]. destruct cached as [c|]; [|done]. by apply positive_text_pos in Hbid.
  - eapply sound_bind; [apply sound_require with (Q := pos)|].
    + intros bid. unfold quoted_bid. destruct (conversionQuote _) as [q|]; [|done]. cbn.
      destruct (positive_text (q_bid q)) as [b|] eqn:Hb; [|done]. cbn. destruct (q_timestamp q); [|done]. cbn.
      case_match; [done|]. intros [= <-]. by apply positive_text_pos in Hb.
    + intros bid Hb. by apply sound_ret.
Qed.

(** The amount at risk, in the quote currency, is the effective percent of the capital; the
    durable ceiling is the profile's percent of it. *)
Definition amounts_ok (l : Limits) (al : Allocation) (rt : RiskTerms) (r : RiskAmounts) : Prop :=
  let of_capital percent := (toQ (riskCapitalBase al) * toQ percent * (1 # 100) * toQ (quotePerAccount r))%Q in
  pos (quotePerAccount r) /\ pos (riskAmountInQuote r) /\ canonical (ceilingInQuote r) /\
  (toQ (riskAmountInQuote r) == of_capital (finalPercent rt))%Q /\
  (toQ (ceilingInQuote r) == of_capital (riskPercent l))%Q.

Lemma percent_amount_sound c x :
  canonical c -> canonical x -> sound (percent_amount c x) (fun d => canonical d /\ (toQ d == toQ c * toQ x * (1 # 100))%Q).
Proof.
  intros Hc Hx. unfold percent_amount. eapply sound_bind; [by apply sound_mul|]. intros y [Hy Hyq].
  eapply sound_weaken; [by apply sound_percent|]. intros d [Hd Hdq]. split; [done|]. by rewrite Hdq, Hyq.
Qed.

Lemma amounts_sound p a l al rt e :
  limits_ok l -> allocation_ok p a l al -> terms_ok l rt -> entry_ok e ->
  sound (risk_amounts p a l al rt e) (amounts_ok l al rt).
Proof.
  intros ([Hr1 Hr2] & _) ([Hb1 Hb2] & _ & [Hc1 Hc2] & _) ([Hf1 Hf2] & _) He. unfold risk_amounts.
  eapply sound_bind with (P := fun _ => True).
  { unfold currencies. eapply sound_bind; [apply sound_guard|]. done. }
  intros codes _. eapply sound_bind; [by apply percent_amount_sound|]. intros base _.
  eapply sound_bind; [by apply percent_amount_sound|]. intros risk [Hrc Hrq].
  eapply sound_bind; [by apply conversion_sound|]. intros [rate conv] [[Hq1 Hq2] Hone]. cbn [fst snd] in *.
  eapply sound_bind.
  { instantiate (1 := fun d => canonical d /\ (toQ d == toQ risk * toQ rate)%Q).
    destruct conv; try by apply sound_mul. apply sound_ret. split; [done|]. rewrite (Hone eq_refl).
    change (toQ ONE) with 1%Q. ring. }
  intros inq [Hi Hiq]. eapply sound_bind; [by apply percent_amount_sound|]. intros ceil [Hl Hlq].
  eapply sound_bind; [by apply sound_mul|]. intros ceilq [Hlc Hlcq]. apply sound_ret.
  unfold amounts_ok. cbn [quotePerAccount riskAmountInQuote ceilingInQuote].
  split; [done|]. split; [split; [done|]|split; [done|split; [by rewrite Hiq, Hrq|by rewrite Hlcq, Hlq]]].
  rewrite Hiq, Hrq. repeat (apply Qmult_lt_0_compat; [|done]). done.
Qed.

(** The riskier of the two amounts is the durable ceiling. *)
Lemma amounts_order p a l al rt r :
  allocation_ok p a l al -> terms_ok l rt -> amounts_ok l al rt r ->
  (toQ (riskAmountInQuote r) <= toQ (ceilingInQuote r))%Q.
Proof.
  intros (_ & _ & [_ Hc] & _) (_ & Hle) ([_ Hq] & _ & _ & -> & ->).
  apply Qmult_le_compat_r; [|lra]. apply Qmult_le_compat_r; [|done].
  setoid_rewrite Qmult_comm. apply Qmult_le_compat_r; [done|lra].
Qed.

(** ** The volume *)

Lemma leverage_sound a l e notional :
  account_ok a -> limits_ok l -> entry_ok e -> pos notional -> sound (leverage_ceiling a l e notional) pos.
Proof.
  intros [[Ha1 Ha2] _] (_ & _ & [Hl1 Hl2]) He [Hn1 Hn2]. unfold leverage_ceiling.
  assert (pos (lotStep e)) as Hst by apply He.
  assert (pos (minLot e)) as [Hlo _] by apply He. unfold LOT_SCALE.
  eapply sound_bind; [by apply sound_mul|]. intros most [Hm Hmq].
  assert (0 < toQ most)%Q as Hmp by (rewrite Hmq; by apply Qmult_lt_0_compat).
  eapply sound_bind; [apply sound_divDown; [done|done|lra|done]|]. intros raw (Hr & Hrp & _).
  eapply sound_bind; [by apply sound_to_steps|]. intros st (Hs & _ & _).
  eapply sound_bind with (P := canonical).
  { destruct (isPositive st) eqn:Epos; [|done]. apply isPositive_Q in Epos.
    eapply sound_bind; [by apply sound_mul|]. intros prod [Hp Hpq].
    eapply sound_bind; [apply sound_divUp; [done|done| |done]|].
    { rewrite Hpq. apply Qlt_le_weak. by apply Qmult_lt_0_compat. }
    intros b [Hb _]. eapply sound_bind; [by apply sound_gte|]. intros reached _. destruct reached; [|done].
    eapply sound_weaken; [apply sound_sub; [done|apply Hst]|]. by intros d [? _]. }
  intros c Hc. destruct (isPositive c) eqn:Epos; [split; [done|by apply isPositive_Q]|].
  eapply sound_bind; [by apply sound_lt|]. intros. apply sound_refuse.
Qed.

(** Every ceiling on the volume, the risk ceilings apart. *)
Definition within (l : Limits) (al : Allocation) (e : Entry) (v : Volume) (d : ED) : Prop :=
  (toQ d <= toQ (maxLot e))%Q /\ (toQ d <= toQ (lotsByLeverage v))%Q /\ (toQ d <= toQ (requestedUpperBound v))%Q /\
  (aware al = false -> (toQ d <= toQ (profileMaxLots l))%Q) /\ (aware al = true -> (toQ d <= 4)%Q).

Lemma within_le l al e v d d' : (toQ d' <= toQ d)%Q -> within l al e v d -> within l al e v d'.
Proof. intros Hle (? & ? & ? & H1 & H2). repeat split; try lra; intros Hw; [specialize (H1 Hw)|specialize (H2 Hw)]; lra. Qed.

Definition volume_ok (p : SizeParams) (l : Limits) (al : Allocation) (e : Entry) (r : RiskAmounts) (v : Volume) : Prop :=
  pos (riskPerLot v) /\ (toQ (riskPerLot v) == toQ (slDistance e) * toQ (contract e))%Q /\
  pos (notionalPerLot v) /\
  (toQ (entry e) * toQ (contract e) <= toQ (notionalPerLot v) * toQ (quotePerAccount r))%Q /\
  canonical (lotsByLeverage v) /\ canonical (effectiveUpperBound v) /\
  positive_text (sp_requestedLotUpperBound p) = Some (requestedUpperBound v) /\
  (toQ (effectiveUpperBound v) <= toQ (requestedUpperBound v))%Q /\
  (aware al = true -> (toQ (effectiveUpperBound v) <= 4)%Q) /\
  pos (lotsBeforeStep v) /\ within l al e v (lotsBeforeStep v) /\
  (toQ (lotsBeforeStep v) * toQ (riskPerLot v) <= toQ (riskAmountInQuote r))%Q.

Lemma sound_min_pos x y : pos x -> pos y -> sound (dec (min x y)) (fun d => pos d /\ (toQ d <= toQ x)%Q /\ (toQ d <= toQ y)%Q).
Proof.
  intros [Hx1 Hx2] [Hy1 Hy2]. eapply sound_weaken; [by apply sound_min|]. intros d (H & Hd & Hl & Hr).
  split; [split; [done|by destruct H as [-> | ->]]|done].
Qed.

(** [min] applied when [b] holds. *)
Lemma sound_min_when (b : bool) x y :
  pos x -> pos y ->
  sound (if b then dec (min x y) else Ok x) (fun d => pos d /\ (toQ d <= toQ x)%Q /\ (b = true -> (toQ d <= toQ y)%Q)).
Proof.
  intros Hx Hy. destruct b; [|by apply sound_ret; split; [done|split; [lra|]]].
  eapply sound_weaken; [by apply sound_min_pos|]. intros d (? & ? & ?); auto.
Qed.

Lemma volume_sound p a l al e r rt :
  account_ok a -> limits_ok l -> allocation_ok p a l al -> entry_ok e -> amounts_ok l al rt r ->
  sound (raw_volume p a l al e r) (volume_ok p l al e r).
Proof.
  intros Ha Hl Hal He Hr. unfold raw_volume, LOT_SCALE.
  destruct He as ([Hc1 Hc2] & [Hen1 Hen2] & Href & Hsl & [Hd1 Hd2] & Hlo & Hhi & Hst & Hab).
  destruct Hr as (Hq & [Hr1 Hr2] & _). destruct Hal as (_ & _ & _ & _ & Hnai & Hnp & _).
  eapply sound_bind; [by apply sound_mul|]. intros per [Hp Hpq].
  assert (0 < toQ per)%Q as Hpp by (rewrite Hpq; by apply Qmult_lt_0_compat).
  eapply sound_bind; [apply sound_divDown; [done|done|lra|done]|]. intros byRisk (Hb & _ & Hble).
  eapply sound_bind; [apply sound_guard|]. intros _ Hbp%negb_false_iff%isPositive_Q.
  eapply sound_bind; [by apply sound_require with (Q := fun x => positive_text (sp_requestedLotUpperBound p) = Some x)|].
  intros req Hreq. pose proof (positive_text_pos _ _ Hreq) as Hreqp.
  eapply sound_bind; [by apply sound_mul|]. intros gross [Hg Hgq].
  assert (0 < toQ gross)%Q as Hgp by (rewrite Hgq; by apply Qmult_lt_0_compat).
  eapply sound_bind; [apply sound_divUp; [done|done|lra|done]|]. intros not [Hn Hnle].
  eapply sound_bind; [apply sound_guard|]. intros _ Hnpos%negb_false_iff%isPositive_Q.
  eapply sound_bind; [by apply leverage_sound|]. intros lev Hlev.
  eapply sound_bind; [by apply (sound_const _ (mkED 4 0))|]. intros ? ->.
  assert (pos (mkED 4 0)) as H4 by done.
  eapply sound_bind; [by apply sound_min_when|]. intros eff ([Heff ?] & Hefle & Hef4).
  eapply sound_bind; [by apply sound_min_pos|]. intros v0 (Hv0 & Hv0a & Hv0b).
  eapply sound_bind; [by apply sound_min_pos|]. intros v1 (Hv1 & Hv1a & Hv1b).
  eapply sound_bind; [by apply sound_min_when|]. intros v2 (Hv2 & Hv2a & Hv2b).
  destruct (noAiCeiling al); [done|].
  eapply sound_bind with (P := fun d => pos d /\ (toQ d <= toQ v2)%Q /\ (noProfileCeiling al = false -> (toQ d <= toQ (profileMaxLots l))%Q)).
  { destruct (noProfileCeiling al).
    - apply sound_ret. split; [done|]. split; [lra|done].
    - eapply sound_weaken; [apply sound_min_pos; [done|apply Hl]|]. intros d (? & ? & ?); auto. }
  intros v3 (Hv3 & Hv3a & Hv3b).
  eapply sound_bind; [by apply sound_min_pos|]. intros v4 (Hv4 & Hv4a & Hv4b).
  assert (toQ (mkED 4 0) == 4)%Q as E4 by done. rewrite E4 in *.
  apply sound_ret. unfold volume_ok, within.
  cbn [riskPerLot notionalPerLot lotsByLeverage effectiveUpperBound requestedUpperBound lotsBeforeStep].
  repeat (split; [first [done|apply Hlev]|]). split; [by rewrite <- Hgq|].
  repeat (split; [first [done|apply Hlev]|]). split.
  - repeat (split; [lra|]). split; [|intros Hw; specialize (Hv2b Hw); lra].
    intros Hw. destruct (noProfileCeiling al); [by rewrite Hnp in Hw|]. specialize (Hv3b eq_refl). lra.
  - eapply Qle_trans; [|exact Hble]. apply Qmult_le_compat_r; lra.
Qed.

(** A volume that may be traded: a positive whole number of steps, the broker's minimum, every
    ceiling and the durable risk. *)
Definition tradable (l : Limits) (al : Allocation) (e : Entry) (r : RiskAmounts) (v : Volume) (d : ED) : Prop :=
  pos d /\ stepped (lotStep e) d /\ (toQ (minLot e) <= toQ d)%Q /\ within l al e v d /\
  (toQ d * toQ (riskPerLot v) <= toQ (ceilingInQuote r))%Q.

(** Within the effective risk budget. *)
Definition budgeted (r : RiskAmounts) (v : Volume) (d : ED) : Prop :=
  (toQ d * toQ (riskPerLot v) <= toQ (riskAmountInQuote r))%Q.

Section volumes.
Context (p : SizeParams) (a : AccountState) (l : Limits) (al : Allocation) (rt : RiskTerms) (e : Entry) (r : RiskAmounts) (v : Volume).
Context (Ha : account_ok a) (Hl : limits_ok l) (Hal : allocation_ok p a l al) (Hrt : terms_ok l rt) (He : entry_ok e)
  (Hr : amounts_ok l al rt r) (Hv : volume_ok p l al e r v).

Lemma per_lot_pos : (0 < toQ (riskPerLot v))%Q.
Proof using Hv. apply Hv. Qed.

Lemma step_pos : pos (lotStep e).
Proof using He. apply He. Qed.

Lemma minLot_pos : pos (minLot e).
Proof using He. apply He. Qed.
Hint Resolve per_lot_pos step_pos minLot_pos : core.

Lemma tradable_le d d' :
  pos d' -> stepped (lotStep e) d' -> (toQ (minLot e) <= toQ d')%Q -> (toQ d' <= toQ d)%Q -> tradable l al e r v d ->
  tradable l al e r v d'.
Proof using Hv.
  intros Hp Hs Hm Hle (_ & _ & _ & Hw & Hc). repeat (split; [done|]). split; [by eapply within_le|].
  eapply Qle_trans; [|exact Hc]. apply Qmult_le_compat_r; [done|]. pose proof per_lot_pos. lra.
Qed.

Lemma stepped_sound : sound (stepped_volume e v) (fun d => tradable l al e r v d /\ budgeted r v d).
Proof using Hv He Hr Hal Hrt.
  pose proof Hv as (_ & _ & _ & _ & _ & _ & _ & _ & _ & [Hp1 Hp2] & Hw & Hb). destruct minLot_pos as [Hm1 Hm2].
  unfold stepped_volume. eapply sound_bind; [apply sound_to_steps; [done|done|lra]|]. intros d (Hd & Hs & Hle).
  destruct (isPositive d) eqn:Epos; cbn [negb].
  - apply isPositive_Q in Epos. eapply sound_bind; [by apply sound_lt|]. intros below Hbelow.
    eapply sound_bind; [apply sound_guard|]. intros _ ->. cbv iota in Hbelow. apply sound_ret.
    pose proof per_lot_pos as Hpl.
    assert (budgeted r v d) as Hbud.
    { unfold budgeted. eapply Qle_trans; [|exact Hb]. apply Qmult_le_compat_r; [done|lra]. }
    split; [|done]. repeat (split; [done|]). split; [by eapply within_le|].
    eapply Qle_trans; [exact Hbud|]. by eapply amounts_order.
  - eapply sound_bind; [by apply sound_lt|]. intros. apply sound_refuse.
Qed.

Lemma floor_sound d :
  pos d -> sound (floor_fits l al e v d) (fun c => c = true -> stepped (lotStep e) d /\ within l al e v d).
Proof using Hv He Hl Hal.
  intros [Hd1 Hd2]. pose proof Hv as (_ & _ & _ & _ & Hlev & Heff & _ & Hefle & Hef4 & _).
  pose proof Hal as (_ & _ & _ & _ & Hnai & Hnp & _).
  destruct Hl as (_ & [Hpr _] & _). assert (canonical (maxLot e)) as Hmx by apply He. unfold floor_fits.
  eapply sound_bind; [apply sound_to_steps; [done|done|lra]|]. intros nm (Hn & [k [Hk Hkq]] & _).
  eapply sound_bind; [by apply sound_eq|]. intros whole Hwhole.
  eapply sound_bind; [by apply sound_lte|]. intros c1 H1.
  eapply sound_bind; [by apply sound_lte|]. intros c2 H2.
  eapply sound_bind; [by apply sound_lte|]. intros c3 H3.
  eapply sound_bind; [by apply sound_lte|]. intros c4 H4.
  apply sound_ret. rewrite Hnai. cbn [orb]. intros Hc. bool_to_prop. subst. cbv iota in *.
  split; [exists k; split; [done|by rewrite <- Hwhole]|].
  unfold within. repeat (split; [lra|]). split; [|intros Hw; specialize (Hef4 Hw); lra].
  intros Hw. destruct (noProfileCeiling al); [by rewrite Hnp in Hw|].
  cbn [orb] in *. by destruct c4.
Qed.

Lemma preferred_sound d :
  tradable l al e r v d /\ budgeted r v d ->
  sound (preferred_volume p l al e r v d) (fun x =>
    tradable l al e r v x.1.1 /\ (x.2 = false -> budgeted r v x.1.1)).
Proof using Hv He Hl Hal Hr.
  intros [Hd Hb]. unfold preferred_volume. destruct (aware al); cbn [negb]; [|done].
  eapply sound_bind; [by apply (sound_const _ (mkED 2 1))|]. intros ? ->.
  eapply sound_bind with (P := pos).
  { destruct (sp_paper p ≫= _); [apply sound_positive_text|done]. }
  intros req Hreq. eapply sound_bind; [by apply (sound_const _ (mkED 2 1))|]. intros ? ->.
  eapply sound_bind; [apply sound_max; [apply Hreq|done]|]. intros pref (_ & Hpc & _ & Hpg).
  assert (pos pref) as Hpref by (split; [done|]; eapply Qlt_le_trans; [|exact Hpg]; reflexivity).
  eapply sound_bind; [by apply floor_sound|]. intros fits Hfits.
  eapply sound_bind; [apply sound_lt; [apply Hd|done]|]. intros smaller _. destruct smaller; [|done].
  eapply sound_bind; [apply sound_mul; [done|apply Hv]|]. intros fr [Hfr Hfrq].
  eapply sound_bind; [apply sound_lte; [done|apply Hr]|]. intros under Hunder.
  eapply sound_bind; [apply sound_gte; [done|apply minLot_pos]|]. intros over Hover.
  apply sound_ret. destruct fits, under, over; cbn [andb fst snd]; try done.
  destruct (Hfits eq_refl) as [Hs Hw]. split; [|done]. repeat (split; [done|]). by rewrite <- Hfrq.
Qed.

(** ** The margin *)

(** The broker's answer to one of the queries for this volume. *)
Definition quoted_margin (d m : ED) : Prop :=
  exists n, positive_text (default "" (requiredMargin n (text d))) = Some m.

(** The share of the account the margin may take. *)
Definition margin_share : Q := if aware al && Qle_bool (toQ (equity a)) 50 then 4 # 5 else 1.

Definition capacity_ok (c : ED) : Prop :=
  canonical c /\ (toQ c <= margin_share * toQ (freeMargin a))%Q /\ (toQ c <= margin_share * toQ (riskCapitalBase al))%Q.

Lemma capacity_sound : sound (margin_capacity a al) capacity_ok.
Proof using Ha Hal.
  destruct Ha as [[Ha1 Ha2] Hf]. destruct Hal as (_ & _ & [Hc1 Hc2] & _). unfold margin_capacity.
  eapply sound_bind; [by apply (sound_const _ (mkED 50 0))|]. intros ? ->.
  eapply sound_bind; [by apply sound_lte|]. intros micro Hmicro.
  eapply sound_bind; [by apply (sound_const _ (mkED 8 1))|]. intros ? ->.
  eapply sound_bind; [by apply sound_min|]. intros least (_ & Hl1 & Hl2 & Hl3).
  change (toQ (mkED 50 0)) with 50%Q in Hmicro.
  assert (Qle_bool (toQ (equity a)) 50 = micro) as Hb.
  { destruct micro; [by apply Qle_bool_iff|]. destruct (Qle_bool _ _) eqn:E; [|done].
    apply Qle_bool_iff in E. lra. }
  eapply sound_weaken; [apply sound_mul; [done|by destruct (_ && _)]|]. intros c [Hc Hcq].
  unfold capacity_ok, margin_share. rewrite Hb. split; [done|].
  destruct (aware al && micro); [change (toQ (mkED 8 1)) with (8 # 10)%Q in Hcq|change (toQ ONE) with 1%Q in Hcq];
    split; lra.
Qed.

Lemma margin_sound n d : sound (requiredMarginForLots n d) (fun m => pos m /\ quoted_margin d m).
Proof.
  unfold requiredMarginForLots. apply sound_require. intros m Hm. split; [by eapply positive_text_pos|by exists n].
Qed.

(** What the step-down keeps. *)
Definition affordable (capacity top d m : ED) : Prop :=
  canonical d /\ stepped (lotStep e) d /\ (toQ (minLot e) <= toQ d)%Q /\ (toQ d <= toQ top)%Q /\
  quoted_margin d m /\ pos m /\ (toQ m <= toQ capacity)%Q.

Lemma step_down_sound capacity top fuel n low high best :
  canonical capacity -> 0 <= low -> high - low < Z.of_nat fuel -> (inject_Z high * toQ (lotStep e) <= toQ top)%Q ->
  (forall d m, best = Some (d, m) -> affordable capacity top d m) ->
  sound (step_down fuel n (lotStep e) (minLot e) capacity low high best)
    (fun best => forall d m, best = Some (d, m) -> affordable capacity top d m).
Proof using He.
  intros Hcap. revert n low high best. induction fuel as [|fuel IH]; intros n low high best Hlow Hfuel Htop Hbest;
    cbn [step_down]; destruct (Z.ltb_spec high low) as [|Hle]; try done; [lia|].
  pose proof step_pos as [Hs1 Hs2]. pose proof minLot_pos as [Hm1 _].
  pose proof (Z.div_le_upper_bound (low + high) 2 high). pose proof (Z.div_le_lower_bound (low + high) 2 low).
  set (middle := (low + high) / 2) in *. clearbody middle.
  rewrite whole_text by lia. eapply sound_bind; [by apply sound_ret with (Q := fun x => x = mkED middle 0)|]. intros ? ->.
  eapply sound_bind; [apply sound_mul; [done|apply whole_canonical]|]. intros c [Hc Hcq]. rewrite whole_Q in Hcq.
  assert (inject_Z middle <= inject_Z high)%Q as Hmid by (rewrite <- Zle_Qle; lia).
  eapply sound_bind; [by apply sound_lt|]. intros below Hbelow.
  destruct below; [apply IH; [lia|lia|done|done]|].
  eapply sound_bind; [apply margin_sound|]. intros m [Hmp Hmq].
  eapply sound_bind; [apply sound_lte; [apply Hmp|done]|]. intros fits Hfits. destruct fits.
  - apply IH; [lia|lia|done|]. intros d m' [= <- <-]. unfold affordable. split; [done|]. split.
    { exists middle. split; [lia|]. by rewrite Hcq, Qmult_comm. }
    split; [done|]. split; [|done]. rewrite Hcq, Qmult_comm. eapply Qle_trans; [|exact Htop].
    apply Qmult_le_compat_r; lra.
  - apply IH; [lia|lia| |done]. eapply Qle_trans; [|exact Htop]. apply Qmult_le_compat_r; [|lra].
    rewrite <- Zle_Qle. lia.
Qed.

Lemma affordable_sound d :
  pos d -> stepped (lotStep e) d -> (toQ (minLot e) <= toQ d)%Q ->
  sound (affordable_volume a al e d) (fun x => exists c, capacity_ok c /\ affordable c d x.1 x.2).
Proof using Ha Hal He.
  intros [Hd1 Hd2] Hst Hmin. unfold affordable_volume. eapply sound_bind; [apply capacity_sound|]. intros c Hc.
  pose proof Hc as [Hcc _]. pose proof minLot_pos as [Hm1 Hm2].
  eapply sound_bind; [apply margin_sound|]. intros m [Hmp Hmq].
  eapply sound_bind; [apply sound_gt; [apply Hmp|done]|]. intros exceeds Hex. destruct exceeds.
  - eapply sound_bind; [apply sound_steps_count; [done|done|lra]|]. intros lo (_ & Hlo & Hlou & _).
    eapply sound_bind; [apply sound_steps_count; [done|done|lra]|]. intros hi (_ & Hhi & Hhiu & Hhile).
    unfold to_bigint. rewrite Hlo, Hhi. cbn [Z.eqb].
    eapply sound_bind; [by apply sound_ret with (Q := fun x => x = unscaled lo)|]. intros ? ->.
    eapply sound_bind; [by apply sound_ret with (Q := fun x => x = unscaled hi)|]. intros ? ->.
    eapply sound_bind; [apply (step_down_sound c d); [done|done|lia|done|done]|].
    intros best Hbest. apply sound_require. intros [d' m'] Hx. exists c. split; [done|]. by apply Hbest.
  - apply sound_ret. exists c. cbn [fst snd]. split; [done|]. unfold affordable. repeat (split; [done|]). split; [lra|done].
Qed.
End volumes.

(** ** The sized position *)

(** Every contract, about the values the position was computed from. *)
Definition sized_ok (p : SizeParams) (s : SizedPosition) : Prop :=
  account_ok (account s) /\ limits_ok (limits s) /\ allocation_ok p (account s) (limits s) (terms s) /\
  terms_ok (limits s) (risk s) /\ entry_ok (geometry s) /\ amounts_ok (limits s) (terms s) (risk s) (amounts s) /\
  volume_ok p (limits s) (terms s) (geometry s) (amounts s) (volume s) /\
  tradable (limits s) (terms s) (geometry s) (amounts s) (volume s) (lots s) /\
  (lifted s = false -> budgeted (amounts s) (volume s) (lots s)) /\
  (exists top c, capacity_ok (account s) (terms s) c /\ affordable (geometry s) c top (lots s) (allocatedCapital s)) /\
  (toQ (lots s) * toQ (notionalPerLot (volume s)) < toQ (equity (account s)) * toQ (maxLeverageAllowed (limits s)))%Q.

Lemma budgeted_le r v d d' : (0 < toQ (riskPerLot v))%Q -> (toQ d' <= toQ d)%Q -> budgeted r v d -> budgeted r v d'.
Proof. intros Hp Hle. apply Qle_trans. apply Qmult_le_compat_r; [done|lra]. Qed.

Lemma sizing_sound p : sound (sizePosition p) (sized_ok p).
Proof.
  unfold sizePosition, LOT_SCALE.
  eapply sound_bind; [apply account_sound|]. intros a Ha.
  eapply sound_bind; [apply limits_sound|]. intros l Hl.
  eapply sound_bind; [by apply allocation_sound|]. intros al Hal.
  eapply sound_bind; [by apply terms_sound|]. intros rt Hrt.
  eapply sound_bind; [apply entry_sound|]. intros e He.
  eapply sound_bind; [by apply amounts_sound|]. intros r Hr.
  eapply sound_bind; [by eapply volume_sound|]. intros v Hv.
  eapply sound_bind; [by eapply stepped_sound|]. intros d Hd.
  eapply sound_bind; [by eapply preferred_sound|]. intros [[d' pl] lift] [Ht Hb]. cbn [fst snd] in Ht, Hb.
  eapply sound_bind; [eapply affordable_sound; [done..|apply Ht|apply Ht|apply Ht]|].
  intros [d'' m] (c & Hc & Haff). cbn [fst snd] in Haff.
  pose proof Haff as (Hdc & Hds & Hdm & Hdle & _).
  assert (pos d'') as Hdp.
  { split; [done|]. eapply Qlt_le_trans; [|exact Hdm]. by apply minLot_pos. }
  pose proof Hv as ([Hp1 Hp2] & _ & [Hn1 Hn2] & _).
  pose proof (tradable_le p l al e r v Hv d' d'' Hdp Hds Hdm Hdle Ht) as Htr.
  eapply sound_bind; [by apply sound_dec with (Q := fun _ => True)|]. intros ? _.
  eapply sound_bind; [by apply sound_dec with (Q := fun _ => True)|]. intros ? _.
  eapply sound_bind; [by apply sound_dec with (Q := fun _ => True)|]. intros ? _.
  eapply sound_bind; [by apply sound_dec with (Q := fun _ => True)|]. intros ? _.
  destruct Ha as [[He1 He2] Hfree]. destruct Hdp as [Hdp1 Hdp2].
  eapply sound_bind; [by apply sound_mul|]. intros no [Hno Hnoq].
  eapply sound_bind; [apply sound_divUp; [done|done| |done]|].
  { rewrite Hnoq. by apply Qlt_le_weak, Qmult_lt_0_compat. }
  intros lev [Hlc Hlle]. eapply sound_bind; [apply sound_gte; [done|apply Hl]|]. intros reached Hreached.
  eapply sound_bind; [apply sound_guard|]. intros _ ->. cbv iota in Hreached.
  eapply sound_bind; [by apply sound_dec with (Q := fun _ => True)|]. intros ? _.
  eapply sound_bind; [by apply sound_dec with (Q := fun _ => True)|]. intros ? _.
  apply sound_ret. unfold sized_ok.
  cbn [account limits terms risk geometry amounts volume lots lifted allocatedCapital].
  repeat (split; [done|]). split; [|split; [by exists d', c|]].
  - intros Hlift. eapply budgeted_le; [apply Hp2|exact Hdle|by apply Hb].
  - rewrite <- Hnoq. eapply Qle_lt_trans; [exact Hlle|]. rewrite Qmult_comm. by apply Qmult_lt_l.
Qed.
End phases.

(** ** The largest affordable volume *)

Section largest.
Context `{Hev : Evidence} (e : Entry) (capacity top : ED) (price : ED -> ED).

(** A volume the margin step-down may choose: a whole number of steps between the minimum and
    the volume it starts from. *)
Definition choosable (d : ED) : Prop :=
  canonical d /\ stepped (lotStep e) d /\ (toQ (minLot e) <= toQ d)%Q /\ (toQ d <= toQ top)%Q.

(** The broker answers every query of such a volume, the same whenever it is asked, and never
    asks less margin for more volume. *)
Definition priced : Prop :=
  (forall n d, canonical d -> (toQ (minLot e) <= toQ d <= toQ top)%Q -> requiredMarginForLots n d = Ok (price d)) /\
  (forall d d', canonical d -> canonical d' -> (toQ (minLot e) <= toQ d)%Q -> (toQ d <= toQ d')%Q -> (toQ d' <= toQ top)%Q ->
     (toQ (price d) <= toQ (price d'))%Q).

Definition affords (d : ED) : Prop := (toQ (price d) <= toQ capacity)%Q.

(** [best] is the largest choosable volume of at most the first steps that is affordable. *)
Definition chosen (best : option (ED * ED)) : Prop :=
  forall d m, best = Some (d, m) -> choosable d /\ m = price d /\ affords d.

Definition beaten (best : option (ED * ED)) (d : ED) : Prop := exists b m, best = Some (b, m) /\ (toQ d <= toQ b)%Q.

Context (Hcap : canonical capacity) (Hstep : pos (lotStep e)) (Hmin : pos (minLot e)) (Hpriced : priced).

Lemma price_canonical d : choosable d -> canonical (price d).
Proof using Hpriced.
  intros (Hd & _ & Hlo & Hhi). destruct Hpriced as [Hp _]. pose proof (margin_sound 0 d) as H.
  rewrite Hp in H by done. apply H.
Qed.

Lemma step_count_le k k' : (inject_Z k * toQ (lotStep e) <= inject_Z k' * toQ (lotStep e))%Q <-> k <= k'.
Proof using Hstep. destruct Hstep as [_ Hs]. rewrite Qmult_le_r by done. by rewrite Zle_Qle. Qed.

Lemma step_count_lt k k' : (inject_Z k * toQ (lotStep e) < inject_Z k' * toQ (lotStep e))%Q -> k < k'.
Proof using Hstep. destruct Hstep as [_ Hs]. rewrite Qmult_lt_r by done. by rewrite <- Zlt_Qlt. Qed.

Lemma step_down_largest fuel n low high best :
  0 <= low -> high - low < Z.of_nat fuel -> (inject_Z high * toQ (lotStep e) <= toQ top)%Q -> chosen best ->
  (forall k d, choosable d -> (toQ d == inject_Z k * toQ (lotStep e))%Q -> k < low -> affords d -> beaten best d) ->
  (forall k d, choosable d -> (toQ d == inject_Z k * toQ (lotStep e))%Q -> high < k -> ~ affords d) ->
  exists best', step_down fuel n (lotStep e) (minLot e) capacity low high best = Ok best' /\ chosen best' /\
    forall d, choosable d -> affords d -> beaten best' d.
Proof using Hcap Hstep Hmin Hpriced.
  revert n low high best. induction fuel as [|fuel IH]; intros n low high best Hlow Hfuel Htop Hbest Hbelow Habove;
    cbn [step_down]; destruct (Z.ltb_spec high low) as [Hout|Hle]; try lia.
  1, 2: exists best; split; [done|]; split; [done|]; intros d Hd Haff; pose proof Hd as (_ & (k & _ & Hk) & _);
    destruct (Z.lt_ge_cases k low); [by eapply Hbelow|exfalso; eapply Habove; eauto; lia].
  destruct Hmin as [Hm1 _]. pose proof (Z.div_le_upper_bound (low + high) 2 high). pose proof (Z.div_le_lower_bound (low + high) 2 low).
  set (middle := (low + high) / 2) in *. clearbody middle.
  rewrite whole_text by lia. cbn [dec rbind]. destruct (mul_whole_total (lotStep e) (proj1 Hstep) middle) as (c & -> & Hc & Hcq).
  cbn [dec rbind]. rewrite Qmult_comm in Hcq. destruct (lt_spec c (minLot e) Hc Hm1) as (below & -> & Hlt). cbn [dec rbind].
  destruct below.
  { apply IH; [lia|lia|done|done| |done]. intros k d Hd Hk Hlt' Haff. destruct (Z.lt_ge_cases k low); [by eapply Hbelow|].
    exfalso. destruct Hd as (_ & _ & Hd & _). assert (inject_Z k * toQ (lotStep e) <= inject_Z middle * toQ (lotStep e))%Q
      by (apply step_count_le; lia). lra. }
  assert (choosable c) as Hcc.
  { split; [done|]. split; [by exists middle; split; [lia|]|]. split; [done|]. rewrite Hcq. eapply Qle_trans; [|exact Htop].
    apply step_count_le. lia. }
  pose proof Hpriced as [Hp Hmono]. pose proof (price_canonical c Hcc) as Hpc. pose proof Hcc as (_ & _ & Hc1 & Hc2).
  rewrite Hp by done. cbn [rbind]. destruct (lte_spec (price c) capacity Hpc Hcap) as (fits & -> & Hfits). cbn [dec rbind].
  destruct fits.
  - apply IH; [lia|lia|done| | |done].
    + intros d m [= <- <-]. done.
    + intros k d Hd Hk Hlt' Haff. exists c, (price c). split; [done|]. rewrite Hk, Hcq. apply step_count_le. lia.
  - apply IH; [lia|lia| |done|done|].
    + eapply Qle_trans; [|exact Htop]. apply step_count_le. lia.
    + intros k d Hd Hk Hlt' Haff. pose proof Hd as (Hdc & _ & _ & Hd2).
      assert (toQ c <= toQ d)%Q as Hcd by (rewrite Hk, Hcq; apply step_count_le; lia).
      specialize (Hmono c d Hc Hdc Hc1 Hcd Hd2). unfold affords in Haff. lra.
Qed.

Lemma step_counts :
  canonical top -> (toQ (minLot e) <= toQ top)%Q ->
  exists lo hi, divDown (minLot e) (lotStep e) (Int 0) = Ok lo /\ divDown top (lotStep e) (Int 0) = Ok hi /\
    scale lo = 0 /\ scale hi = 0 /\ 0 <= unscaled lo /\ (inject_Z (unscaled hi) * toQ (lotStep e) <= toQ top)%Q /\
    (forall k, (toQ (minLot e) <= inject_Z k * toQ (lotStep e))%Q -> unscaled lo <= k) /\
    (forall k, (inject_Z k * toQ (lotStep e) <= toQ top)%Q -> k <= unscaled hi).
Proof using Hstep Hmin.
  intros Ht Hle. destruct Hmin as [Hm1 Hm2]. pose proof Hstep as [Hs1 Hs2].
  destruct (divDown_whole_total (minLot e) (lotStep e) Hm1 Hs1 Hs2) as [lo Hlo].
  destruct (divDown_whole_total top (lotStep e) Ht Hs1 Hs2) as [hi Hhi].
  destruct (divDown_whole (minLot e) (lotStep e) Hm1 Hs1 lo ltac:(lra) Hs2 Hlo) as (Hls & Hlu & Hll & _).
  destruct (divDown_whole top (lotStep e) Ht Hs1 hi ltac:(lra) Hs2 Hhi) as (Hhs & _ & Hhl & _).
  pose proof (divDown_next top (lotStep e) Ht Hs1 hi Hs2 Hhi) as Hnext.
  exists lo, hi. repeat (split; [done|]). split; intros k Hk.
  - apply step_count_le. lra.
  - enough (k < unscaled hi + 1) by lia. apply step_count_lt. lra.
Qed.
End largest.

Lemma capacity_canonical {Hev : Evidence} a al c :
  account_ok a -> pos (riskCapitalBase al) -> margin_capacity a al = Ok c -> canonical c.
Proof.
  intros [[Ha1 Ha2] Hf] [Hb1 Hb2] Hc. enough (sound (margin_capacity a al) canonical) as H by (by rewrite Hc in H).
  unfold margin_capacity. eapply sound_bind; [by apply (sound_const _ (mkED 50 0))|]. intros ? ->.
  eapply sound_bind; [by apply sound_lte|]. intros micro _.
  eapply sound_bind; [by apply (sound_const _ (mkED 8 1))|]. intros ? ->.
  eapply sound_bind; [by apply sound_min|]. intros least (_ & Hl & _).
  eapply sound_weaken; [apply sound_mul; [done|by destruct (_ && _)]|]. by intros d [? _].
Qed.

(** ** Samples *)

(** A demo account of ten thousand, of which 150 is free, a EURUSD quote, and a broker that asks
    1000 of margin per lot. *)
Definition sample_evidence : Evidence := {|
  acceptedSnapshot := Some (mkAccountView (Some "10000") (Some "10000") (Some "150") (Some "USD"));
  accountRow := None;
  riskProfile := Some (mkLimits "1" "5" "30" (Some "10"));
  connectionAccountType := Some "DEMO";
  executionQuote := Some (mkPrice "1.1000" "1.1002" "0.0002" (Some 1000));
  instrumentSpecification := Some (mkInstrument "0.01" "50" "0.01" "100000");
  fxConversionAvailable := true; cachedQuote := fun _ => None; conversionQuote := fun _ => None;
  evaluatedAt := 2000; quotedAt := 2000;
  requiredMargin := fun _ lot => d ← tryParse_text lot; m ← ok_opt (mulByPowerOfTen d (Int 3)); Some (text m) |}.

(** An allocation-aware PAPER order: risk alone would give 0.1 lots, the preferred lot lifts it
    to 0.2, and the free margin brings it down to 0.15. *)
Definition sample_params : SizeParams :=
  mkSizeParams "EURUSD" "BUY" MARKET_ENTRY None (Some "1.0977") "3"
    (Some (mkPaper "FULL_AUTO" (Some "5000") STRONG None (Some "0.5") (Some "10000") None)).

(** A broker that asks one unit of margin per lot. *)
Definition unit_margin : Evidence := {|
  acceptedSnapshot := None; accountRow := None; riskProfile := None; connectionAccountType := None; executionQuote := None;
  instrumentSpecification := None; fxConversionAvailable := false; cachedQuote := fun _ => None;
  conversionQuote := fun _ => None; evaluatedAt := 0; quotedAt := 0; requiredMargin := fun _ lot => Some lot |}.

Lemma unit_margin_priced e top :
  pos (minLot e) -> @priced unit_margin e top (fun d => d).
Proof.
  intros [_ Hm]. split; [|done]. intros n d Hd [Hlo _]. change (require (Sizing.positive (tryParse_text (text d))) REQUIRED_MARGIN_UNPROVABLE = Ok d).
  rewrite tryParse_text_text by done. cbn [Sizing.positive].
  by rewrite (proj2 (isPositive_Q d)) by lra.
Qed.

(** ** Claims *)

(** C16: a sized position is a positive whole number of the instrument's steps between its
    minimum and its maximum, at most the volume the caller asked for, and at most the profile's
    volume (or, for allocation-aware PAPER, four lots); what the stop would lose is within the
    profile's percent of the capital base, and within the effective percent when the volume was
    not lifted to the preferred lot; the notional stays strictly below the profile's leverage of
    the equity; and the committed capital is a margin the broker quoted for exactly this volume,
    within the free margin and the capital base, less the reserve of a small account. *)
Theorem sizing_bounded {Hev : Evidence} p s :
  sizePosition p = Ok s ->
  let e := geometry s in
  let volume := toQ (lots s) in
  let capital := toQ (riskCapitalBase (terms s)) in
  let rate := toQ (quotePerAccount (amounts s)) in
  let loss := (volume * (Qabs (toQ (riskReference e) - toQ (stopLoss e)) * toQ (contract e)))%Q in
  let budget percent := (capital * toQ percent * (1 # 100) * rate)%Q in
  (exists k, 0 < k /\ (volume == inject_Z k * toQ (lotStep e))%Q) /\
  (toQ (minLot e) <= volume <= toQ (maxLot e))%Q /\
  (exists asked, positive_text (sp_requestedLotUpperBound p) = Some asked /\ (volume <= toQ asked)%Q) /\
  (if aware (terms s) then volume <= 4 else volume <= toQ (profileMaxLots (limits s)))%Q /\
  (loss <= budget (riskPercent (limits s)))%Q /\
  (lifted s = false -> (loss <= budget (finalPercent (risk s)))%Q) /\
  (toQ (finalPercent (risk s)) <= toQ (riskPercent (limits s)))%Q /\
  (capital <= toQ (equity (account s)))%Q /\
  (volume * (toQ (entry e) * toQ (contract e)) < toQ (equity (account s)) * toQ (maxLeverageAllowed (limits s)) * rate)%Q /\
  (let margin := toQ (allocatedCapital s) in
   let share := margin_share (account s) (terms s) in
   quoted_margin (lots s) (allocatedCapital s) /\ (0 < margin <= share * toQ (freeMargin (account s)))%Q /\
   (margin <= share * capital)%Q).
Proof.
  intros Hs. pose proof (sizing_sound p) as H. rewrite Hs in H.
  destruct H as (Ha & Hl & Hal & [_ Hle] & He & Hr & Hv & Ht & Hb & (top & c & Hc & Haff) & Hlev).
  destruct Ht as ([Hp1 Hp2] & (k & Hk & Hkq) & Hm & (Hmax & _ & Hreq & Hprof & Hfour) & Hrisk).
  destruct Hr as ([Hq1 Hq2] & _ & _ & Hriskq & Hceilq). destruct Hv as (_ & Hper & _ & Hnot & _ & _ & Hasked & _).
  destruct Hal as (_ & _ & _ & Hcap & _). destruct He as (_ & _ & _ & _ & _ & _ & _ & [_ Hst] & Hdist).
  destruct Haff as (_ & _ & _ & _ & Hquote & [_ Hmpos] & Hmc). destruct Hc as (_ & Hc1 & Hc2).
  cbv zeta. setoid_rewrite <- Hdist. setoid_rewrite <- Hper. rewrite <- Hceilq, <- Hriskq.
  split.
  { exists k. split; [|done]. destruct (Z.eq_dec k 0) as [->|]; [|lia]. rewrite Hkq, Qmult_0_l in Hp2. by apply Qlt_irrefl in Hp2. }
  split; [done|]. split; [by eexists|]. split; [destruct (aware _); auto|].
  split; [done|]. split; [exact Hb|]. split; [done|]. split; [done|]. split.
  - apply Qle_lt_trans with (toQ (lots s) * toQ (notionalPerLot (volume s)) * toQ (quotePerAccount (amounts s)))%Q.
    + rewrite <- Qmult_assoc, !(Qmult_comm (toQ (lots s))). apply Qmult_le_compat_r; [done|lra].
    + by apply Qmult_lt_compat_r.
  - split; [done|]. split; [split; [done|]|]; lra.
Qed.

Lemma sizing_bounded_witness :
  exists s, @sizePosition sample_evidence sample_params = Ok s /\ lots s = mkED 15 2 /\ lifted s = true /\
    (toQ (allocatedCapital s) <= 150)%Q.
Proof.
  destruct (@sizePosition sample_evidence sample_params) as [s|] eqn:E; [|vm_compute in E; discriminate].
  pose proof (@sizing_bounded sample_evidence sample_params s E) as (_ & _ & _ & _ & _ & _ & _ & _ & _ & Hm).
  exists s. split; [reflexivity|]. vm_compute in E. injection E as <-. split; [reflexivity|]. split; [reflexivity|].
  destruct Hm as (_ & [_ Hm] & _). exact Hm.
Defined.

(** C29: sizing always ends with a position or a rejection: the binary search of the margin
    step-down never runs out of the iterations its bounds allow, and every step count it reads
    back as a [BigInt] is an integer's text. *)
Theorem sizing_terminates {Hev : Evidence} p :
  match sizePosition p with
  | Ok _ | Err (PositionSizingError _) | Err (ExactDecimalError _) => True
  | Err BigIntError | Err OutOfFuel => False
  end.
Proof. pose proof (sizing_sound p) as H. by destruct (sizePosition p) as [|[]]. Qed.

(** C23: given a broker whose required margin does not change between the queries and never
    falls as the volume grows, the margin step-down answers the largest volume of whole steps
    that the account can pay for, with its margin; and it refuses exactly when no volume from
    the broker's minimum upwards can be paid for. *)
Theorem step_down_exact {Hev : Evidence} a al e capacity top price :
  margin_capacity a al = Ok capacity -> account_ok a -> pos (riskCapitalBase al) -> pos (lotStep e) -> pos (minLot e) ->
  choosable e top top -> priced e top price ->
  match affordable_volume a al e top with
  | Ok (d, m) => choosable e top d /\ m = price d /\ affords capacity price d /\
      forall d', choosable e top d' -> affords capacity price d' -> (toQ d' <= toQ d)%Q
  | Err err => err = PositionSizingError BROKER_MINIMUM_MARGIN_UNAFFORDABLE /\
      forall d', choosable e top d' -> ~ affords capacity price d'
  end.
Proof.
  intros Hcap Ha Hbase Hstep Hmin Htop Hpriced. pose proof (capacity_canonical a al capacity Ha Hbase Hcap) as Hcc.
  unfold affordable_volume. rewrite Hcap. cbn [rbind]. pose proof Hpriced as [Hp _].
  pose proof Htop as (Ht1 & _ & Ht2 & Ht3). rewrite Hp by done. cbn [rbind].
  destruct (gt_spec (price top) capacity (price_canonical e top price Hpriced top Htop) Hcc) as (g & -> & Hg). cbn [dec rbind].
  destruct g; [|by split; [|split; [|split; [|intros d' (_ & _ & _ & ?)]]]].
  destruct (step_counts e top Hstep Hmin Ht1 Ht2) as (lo & hi & -> & -> & Hlo & Hhi & Hlu & Hable & Hbelow & Habove).
  cbn [dec rbind]. unfold to_bigint. rewrite Hlo, Hhi. cbn [Z.eqb rbind].
  destruct (step_down_largest e capacity top price Hcc Hstep Hmin Hpriced (S (Z.to_nat (unscaled hi - unscaled lo))) 1
              (unscaled lo) (unscaled hi) None) as (best & -> & Hch & Hbest); [done|lia|done|done| | |].
  - intros k d (_ & _ & Hd & _) Hk Hlt _. exfalso. rewrite Hk in Hd. specialize (Hbelow k Hd). lia.
  - intros k d (_ & _ & _ & Hd) Hk Hlt. exfalso. rewrite Hk in Hd. specialize (Habove k Hd). lia.
  - cbn [rbind]. destruct best as [[d m]|]; cbn [require].
    + destruct (Hch d m eq_refl) as (Hd & Hm & Haff). repeat (split; [done|]). intros d' Hd' Haff'.
      destruct (Hbest d' Hd' Haff') as (? & ? & [= <- <-] & ?). done.
    + split; [done|]. intros d' Hd' Haff'. by destruct (Hbest d' Hd' Haff') as (? & ? & ? & ?).
Qed.

Lemma step_down_exact_witness :
  exists a al e,
    @affordable_volume unit_margin a al e (mkED 7 0) = Ok (mkED 24 1, mkED 24 1) /\ toQ (minLot e) = 25 # 100 /\
    forall d, choosable e (mkED 7 0) d -> (toQ d <= 245 # 100)%Q -> (toQ d <= toQ (mkED 24 1))%Q.
Proof.
  exists (mkAccountState (mkED 1000 0) (mkED 900 0) "USD"), (mkAllocation false ONE ONE (mkED 245 2) false false),
    (mkEntry ONE ONE ONE ONE ONE (mkED 25 2) (mkED 7 0) (mkED 1 1)).
  pose proof (@step_down_exact unit_margin (mkAccountState (mkED 1000 0) (mkED 900 0) "USD")
    (mkAllocation false ONE ONE (mkED 245 2) false false) (mkEntry ONE ONE ONE ONE ONE (mkED 25 2) (mkED 7 0) (mkED 1 1))
    (mkED 245 2) (mkED 7 0) (fun d => d)) as H.
  assert (@affordable_volume unit_margin (mkAccountState (mkED 1000 0) (mkED 900 0) "USD")
    (mkAllocation false ONE ONE (mkED 245 2) false false) (mkEntry ONE ONE ONE ONE ONE (mkED 25 2) (mkED 7 0) (mkED 1 1))
    (mkED 7 0) = Ok (mkED 24 1, mkED 24 1)) as E by reflexivity.
  rewrite E in H. split; [exact E|]. split; [reflexivity|].
  destruct H as (_ & _ & _ & H); [reflexivity|repeat split; reflexivity..| | |exact H].
  - split; [reflexivity|]. split; [exists 70; split; [lia|reflexivity]|]. split; discriminate.
  - apply unit_margin_priced. split; reflexivity.
Defined.
