(* ===== verification/FxRates.v ===== *)
(** * What a currency conversion is proved by

    The rates the sizing and the risk engine convert with ([broker/broker-fx-conversion.service.ts]),
    specified without the code: a leg is read from a fresh quote of the pair, or of the inverse
    pair rounded down at twelve digits; a rate is a leg, or the product of two through USD when
    the pair is not quoted.  [resolveCachedBid] answers exactly that, and a conversion rate is
    that or the bid of a recent quote of the pair. *)

From S2P Require Import Prelude JsString Decimal DecimalSpecs Store Adapter Sizing SizingBounds.
From Stdlib Require Import QArith Lqa.
Open Scope string_scope.
Open Scope list_scope.
Open Scope Z_scope.

(** ** Specification *)

Section rates.
Context {market : Evidence}.

(** A cached quote of positive prices that are not crossed, from at most five seconds ahead to
    at most a minute ago. *)
Definition fresh_prices (quote : option BrokerPrice) (bid ask : ED) : Prop :=
  exists q t, quote = Some q /\ positive_text (q_bid q) = Some bid /\ positive_text (q_ask q) = Some ask /\
    (toQ bid <= toQ ask)%Q /\ q_timestamp q = Some t /\ -5000 <= evaluatedAt - t <= 60000.

Definition no_fresh (quote : option BrokerPrice) : Prop := forall bid ask, ~ fresh_prices quote bid ask.

(** The rate from one currency to another, and the instrument that proves it: the bid of the
    pair, or, when the pair has no fresh quote, one over the ask of the inverse pair, rounded
    down at twelve digits. *)
Inductive leg (from to : string) : ED -> string -> Prop :=
| leg_direct bid ask : fresh_prices (cachedQuote (from +:+ to)) bid ask -> leg from to bid (from +:+ to)
| leg_inverse bid ask rate q :
    no_fresh (cachedQuote (from +:+ to)) -> fresh_prices (cachedQuote (to +:+ from)) bid ask ->
    canonical rate -> (toQ rate == toQ (mkED q 12))%Q ->
    (toQ rate * toQ ask <= 1)%Q -> (1 < (toQ rate + (1 # 10 ^ 12)) * toQ ask)%Q -> leg from to rate (to +:+ from).

Definition unquoted (from to : string) : Prop :=
  no_fresh (cachedQuote (from +:+ to)) /\ no_fresh (cachedQuote (to +:+ from)).

(** The rate from the account's currency to the quote currency, and the path that proves it. *)
Inductive cached_rate (account quote : string) : ED -> list string -> Prop :=
| rate_same : account = quote -> cached_rate account quote ONE []
| rate_leg rate i : account <> quote -> leg account quote rate i -> cached_rate account quote rate [i]
| rate_cross r1 i1 r2 i2 rate :
    account <> quote -> unquoted account quote -> account <> "USD" -> quote <> "USD" ->
    leg account "USD" r1 i1 -> leg "USD" quote r2 i2 -> canonical rate -> (toQ rate == toQ r1 * toQ r2)%Q ->
    cached_rate account quote rate [i1; i2].

(** A rate the engine may convert with: a positive cached one, or, when there is none, the
    positive bid of a quote of the pair from at most five seconds ahead to at most a minute
    ago. *)
Definition positive_cached (account quote : string) (rate : ED) : Prop :=
  fxConversionAvailable = true /\ (0 < toQ rate)%Q /\ exists path, cached_rate account quote rate path.

Inductive market_rate (account quote : string) : ED -> Prop :=
| market_cached rate : positive_cached account quote rate -> market_rate account quote rate
| market_quoted q bid t :
    (forall rate, ~ positive_cached account quote rate) ->
    conversionQuote (account +:+ quote) = Some q -> positive_text (q_bid q) = Some bid ->
    q_timestamp q = Some t -> -5000 <= quotedAt - t <= 60000 -> market_rate account quote bid.

(** ** Legs *)

Lemma fresh_pos quote bid ask : fresh_prices quote bid ask -> pos bid /\ pos ask.
Proof. intros (q & t & _ & Hb & Ha & _). split; by eapply positive_text_pos. Qed.

Lemma fresh_unique quote bid ask bid' ask' :
  fresh_prices quote bid ask -> fresh_prices quote bid' ask' -> bid = bid' /\ ask = ask'.
Proof. intros (q & t & -> & Hb & Ha & _) (q' & t' & [= <-] & Hb' & Ha' & _). split; congruence. Qed.

Lemma isFreshQuote_spec quote b :
  isFreshQuote quote = Ok b ->
  if b then exists q bid ask, quote = Some q /\ positive_text (q_bid q) = Some bid /\ positive_text (q_ask q) = Some ask /\
              fresh_prices quote bid ask
  else no_fresh quote.
Proof.
  unfold isFreshQuote. destruct quote as [q|]; [|intros [= <-] bid ask (? & ? & ? & _); done].
  destruct (positive_text (q_bid q)) as [bid|] eqn:Hb;
    [|intros [= <-] bid' ask' (q' & t' & [= <-] & Hb' & _); congruence].
  destruct (positive_text (q_ask q)) as [ask|] eqn:Ha;
    [|intros [= <-] bid' ask' (q' & t' & [= <-] & _ & Ha' & _); congruence].
  destruct (lt_spec ask bid) as (c & -> & Hc); [by eapply positive_text_pos..|]. cbn [dec rbind]. intros [= <-].
  destruct c; cbn [negb andb].
  - intros bid' ask' (q' & t' & [= <-] & Hb' & Ha' & Hle & _). rewrite Hb in Hb'. rewrite Ha in Ha'. injection Hb' as <-.
    injection Ha' as <-. lra.
  - destruct (q_timestamp q) as [t|] eqn:Ht; [|intros bid' ask' (q' & t' & [= <-] & _ & _ & _ & Ht' & _); congruence].
    case_match eqn:Hw; unfold MAX_FUTURE_SKEW_MS, DEFAULT_MAX_AGE_MS in Hw; bool_to_prop.
    + exists q, bid, ask. repeat (split; [done|]). exists q, t. repeat (split; [done|]). lia.
    + intros bid' ask' (q' & t' & [= <-] & _ & _ & _ & Ht' & Hin). rewrite Ht in Ht'. injection Ht' as <-. lia.
Qed.

Lemma resolveLeg_spec from to o :
  resolveLeg from to = Ok o -> match o with Some (rate, i) => leg from to rate i | None => unquoted from to end.
Proof.
  unfold resolveLeg. intros (b & Hb%isFreshQuote_spec & H)%rbind_ok. destruct b.
  - destruct Hb as (q & bid & ask & Hq & Hbid & _ & Hf). rewrite Hq in H. cbn in H. rewrite Hbid in H. injection H as <-.
    by eapply leg_direct.
  - apply rbind_ok in H as (b & Hb'%isFreshQuote_spec & H). destruct b; [|by injection H as <-].
    destruct Hb' as (q & bid & ask & Hq & _ & Hask & Hf). rewrite Hq in H. cbn in H. rewrite Hask in H.
    apply rbind_ok in H as (rate & Hr & H). injection H as <-. destruct (fresh_pos _ _ _ Hf) as [_ [Ca Pa]].
    unfold dec in Hr. destruct (divDown ONE ask (Int 12)) as [r|] eqn:Hd; [injection Hr as <-|done].
    apply divDown_exact in Hd as (Cr & (n & _ & Hn) & Hle & Hlt); [|apply whole_canonical|done|unfold MAX_SCALE; lia|done|done].
    by eapply leg_inverse.
Qed.

Lemma rate_unique n n' (r r' : ED) (x : Q) :
  (toQ r == toQ (mkED n 12))%Q -> (toQ r' == toQ (mkED n' 12))%Q -> (0 < x)%Q ->
  (toQ r * x <= 1)%Q -> (1 < (toQ r + (1 # 10 ^ 12)) * x)%Q -> (toQ r' * x <= 1)%Q -> (1 < (toQ r' + (1 # 10 ^ 12)) * x)%Q -> n = n'.
Proof.
  intros -> -> Hx H1 H2 H3 H4.
  assert (forall i j, (toQ (mkED i 12) * x <= 1)%Q -> (1 < (toQ (mkED j 12) + (1 # 10 ^ 12)) * x)%Q -> i < j + 1) as Hij.
  { intros i j Hi Hj. destruct (Z.lt_ge_cases i (j + 1)) as [|Hge]; [done|exfalso].
    assert (toQ (mkED j 12) + (1 # 10 ^ 12) <= toQ (mkED i 12))%Q by (unfold toQ, Qle, Qplus; cbn; lia). nra. }
  pose proof (Hij n n' H1 H4). pose proof (Hij n' n H3 H2). lia.
Qed.

Lemma leg_unique from to r i r' i' : leg from to r i -> leg from to r' i' -> r = r' /\ i = i'.
Proof.
  intros [bid ask Hf|bid ask rate q Hn Hf Cr Hq Hle Hlt] [bid' ask' Hf'|bid' ask' rate' q' Hn' Hf' Cr' Hq' Hle' Hlt'].
  - by destruct (fresh_unique _ _ _ _ _ Hf Hf') as [-> _].
  - by destruct (Hn' _ _ Hf).
  - by destruct (Hn _ _ Hf').
  - destruct (fresh_unique _ _ _ _ _ Hf Hf') as [_ <-]. destruct (fresh_pos _ _ _ Hf) as [_ [_ Pa]].
    pose proof (rate_unique q q' rate rate' (toQ ask)) as E. rewrite E in Hq by done. split; [|done].
    apply canonical_unique; [done|done|]. by rewrite Hq, Hq'.
Qed.

Lemma leg_quoted from to r i : leg from to r i -> ~ unquoted from to.
Proof. intros [bid ask Hf|bid ask rate q Hn Hf _ _ _ _] [Hn1 Hn2]; [by apply (Hn1 _ _ Hf)|by apply (Hn2 _ _ Hf)]. Qed.

Lemma leg_canonical from to r i : leg from to r i -> canonical r.
Proof. intros [bid ask Hf|]; [by destruct (fresh_pos _ _ _ Hf) as [[? _] _]|done]. Qed.

(** ** Rates *)

Lemma cached_rate_unique account quote r p r' p' :
  cached_rate account quote r p -> cached_rate account quote r' p' -> r = r' /\ p = p'.
Proof.
  intros [Heq|rate i Hne Hl|r1 i1 r2 i2 rate Hne Hun Ha Hq Hl1 Hl2 Cr Er]
    [Heq'|rate' i' Hne' Hl'|r1' i1' r2' i2' rate' Hne' Hun' Ha' Hq' Hl1' Hl2' Cr' Er']; try done.
  - by destruct (leg_unique _ _ _ _ _ _ Hl Hl') as [-> ->].
  - by destruct (leg_quoted _ _ _ _ Hl).
  - by destruct (leg_quoted _ _ _ _ Hl').
  - destruct (leg_unique _ _ _ _ _ _ Hl1 Hl1') as [<- <-]. destruct (leg_unique _ _ _ _ _ _ Hl2 Hl2') as [<- <-].
    split; [|done]. apply canonical_unique; [done|done|]. by rewrite Er, Er'.
Qed.

Lemma upper_code n s : upper_word n s = true -> toUpperCase (string_of (trim (chars_of s))) = s.
Proof.
  unfold upper_word. intros [_ Hu]%andb_true_iff. rewrite forallb_forall in Hu.
  assert (avoids is_space (chars_of s)) as Hs.
  { apply Forall_forall. intros c Hc%list_elem_of_In%Hu. unfold is_upper, is_space in *. bool_to_prop.
    repeat match goal with |- context [?x <=? ?y] => destruct (Z.leb_spec x y) end;
    repeat match goal with |- context [?x =? ?y] => destruct (Z.eqb_spec x y) end; simpl; lia. }
  rewrite trim_avoids by done. unfold toUpperCase. rewrite chars_of_string_of.
  rewrite <- (string_of_chars_of s) at 2. f_equal. transitivity (map id (chars_of s)); [|apply map_id].
  apply map_ext_in. intros c Hc%Hu. unfold to_upper, is_lower, is_upper in *. bool_to_prop.
  repeat match goal with |- context [?x <=? ?y] => destruct (Z.leb_spec x y) end; simpl; solve [done|lia].
Qed.

(** What [resolveCachedBid] says of two currency codes. *)
Lemma resolve_spec account quote o :
  upper_word 3 account = true -> upper_word 3 quote = true -> resolveCachedBid account quote = Ok o ->
  match o with
  | Some (t, path) => exists rate, cached_rate account quote rate path /\ canonical rate /\ t = text rate
  | None => forall rate path, ~ cached_rate account quote rate path
  end.
Proof.
  intros Ha Hq. unfold resolveCachedBid. rewrite !(upper_code 3) by done. rewrite Ha, Hq. cbn [negb orb].
  case_bool_decide as Heq; [intros [= <-]; exists ONE; split; [by constructor|by split; [apply whole_canonical|]]|].
  intros (l & Hl%resolveLeg_spec & H)%rbind_ok. destruct l as [[rate i]|].
  { injection H as <-. exists rate. split; [by constructor|]. split; [by eapply leg_canonical|done]. }
  assert (forall rate path, cached_rate account quote rate path ->
            account <> "USD" /\ quote <> "USD" /\ exists r1 i1 r2 i2, leg account "USD" r1 i1 /\ leg "USD" quote r2 i2) as Hcross.
  { intros rate path [?|? ? _ Hleg|r1 i1 r2 i2 ? _ _ ? ? ? ? _ _]; [done|by destruct (leg_quoted _ _ _ _ Hleg)|].
    split; [done|]. split; [done|]. by exists r1, i1, r2, i2. }
  case_bool_decide as Hau; cbn [orb] in H; [injection H as <-; by intros rate path [? _]%Hcross|].
  case_bool_decide as Hqu; [injection H as <-; by intros rate path (_ & ? & _)%Hcross|].
  apply rbind_ok in H as (l1 & Hl1%resolveLeg_spec & H). destruct l1 as [[r1 i1]|].
  2: { injection H as <-. intros rate path (_ & _ & r1 & i1 & r2 & i2 & Hleg & _)%Hcross. by destruct (leg_quoted _ _ _ _ Hleg). }
  apply rbind_ok in H as (l2 & Hl2%resolveLeg_spec & H). destruct l2 as [[r2 i2]|].
  2: { injection H as <-. intros rate path (_ & _ & ? & ? & r2 & i2 & _ & Hleg)%Hcross. by destruct (leg_quoted _ _ _ _ Hleg). }
  apply rbind_ok in H as (rate & Hr & H). injection H as <-. unfold dec in Hr. destruct (mul r1 r2) as [m|] eqn:Hm; [injection Hr as ->|done].
  apply mul_ok in Hm as [Cm Qm]; [|by eapply leg_canonical..]. exists rate. split; [by eapply rate_cross|done].
Qed.
End rates.

(** ** Symbols *)

(** The base and the quote currency of a standard six-letter symbol. *)
Definition base_of (symbol : string) : string := string_of (take 3 (chars_of symbol)).
Definition quote_of (symbol : string) : string := string_of (take 3 (drop 3 (chars_of symbol))).

Lemma quote_of_word symbol : upper_word 6 symbol = true -> upper_word 3 (quote_of symbol) = true.
Proof.
  unfold upper_word, quote_of. intros [Hn%bool_decide_eq_true Hu]%andb_true_iff. rewrite chars_of_string_of.
  apply andb_true_iff. split; [apply bool_decide_eq_true; rewrite length_take, length_drop; lia|].
  rewrite forallb_forall in *. intros c Hc. apply Hu. apply list_elem_of_In, elem_of_take in Hc as (i & Hi & _).
  rewrite lookup_drop in Hi. apply list_elem_of_In, list_elem_of_lookup. eauto.
Qed.

(** ** Exactness *)

(** The prices of the cache are no finer than the conversion can multiply. *)
Definition prices_fit {market : Evidence} : Prop :=
  forall pair q bid, cachedQuote pair = Some q -> positive_text (q_bid q) = Some bid \/ positive_text (q_ask q) = Some bid -> scale bid <= 50.

Section exactness.
Context {market : Evidence}.

Lemma isFreshQuote_total quote : exists b, isFreshQuote quote = Ok b.
Proof.
  unfold isFreshQuote. destruct quote as [q|]; [|eauto].
  destruct (positive_text (q_bid q)) as [bid|] eqn:Hb; [|eauto]. destruct (positive_text (q_ask q)) as [ask|] eqn:Ha; [|eauto].
  destruct (lt_spec ask bid) as (c & -> & _); [by eapply positive_text_pos..|]. cbn. eauto.
Qed.

Lemma twelve_digits rate q : canonical rate -> (toQ rate == toQ (mkED q 12))%Q -> scale rate <= 12.
Proof.
  intros [Hs Hc]%canonical_iff Hq. destruct (Z.le_gt_cases (scale rate) 12) as [|Hgt]; [done|exfalso].
  destruct rate as [v s]. cbn [scale unscaled] in *. unfold toQ, Qeq in Hq. cbn [Qnum Qden scale unscaled] in Hq.
  pose proof (pow10_pos 12 ltac:(lia)). pose proof (pow10_pos s ltac:(lia)). rewrite !Z2Pos.id in Hq by done.
  replace s with (12 + (1 + (s - 13))) in Hq by lia. rewrite !Z.pow_add_r in Hq by lia.
  assert (v = 10 * (q * 10 ^ (s - 13))) as -> by nia.
  destruct Hc as [?|Hc]; [lia|]. apply Hc. rewrite Z.mul_comm. apply Z.rem_mul. lia.
Qed.

Lemma leg_scale from to r i : prices_fit -> leg from to r i -> scale r <= 50.
Proof.
  intros Hfit [bid ask (q & t & Hc & Hb & _)|bid ask rate q _ _ Cr Hq _ _]; [by eapply Hfit; eauto|].
  pose proof (twelve_digits rate q Cr Hq). lia.
Qed.

Lemma resolveLeg_total from to : prices_fit -> exists o, resolveLeg from to = Ok o.
Proof.
  intros Hfit. unfold resolveLeg. destruct (isFreshQuote_total (cachedQuote (from +:+ to))) as [b ->]. cbn [rbind].
  case_match; [eauto|]. destruct (isFreshQuote_total (cachedQuote (to +:+ from))) as [b' ->]. cbn [rbind].
  destruct b'; [|eauto]. destruct (cachedQuote (to +:+ from)) as [q|] eqn:Hc; [|cbn; eauto]. cbn.
  destruct (positive_text (q_ask q)) as [ask|] eqn:Ha; [|eauto]. destruct (positive_text_pos _ _ Ha) as [Ca Pa].
  pose proof (Hfit _ _ _ Hc (or_intror Ha)). assert (unscaled ask <> 0) by (unfold toQ, Qlt in Pa; cbn in Pa; lia).
  destruct (div_total ONE ask 12 DOWN (whole_canonical 1) Ca ltac:(unfold MAX_SCALE; lia)) as (d & Hd); [done|unfold MAX_SCALE; lia|].
  unfold divDown. rewrite Hd. cbn. eauto.
Qed.

(** C39: A cached conversion is exactly what the cache proves.  Of two currency codes, and
    provided the cached prices have at most fifty decimals, the service always answers: a text
    that reads as the one rate [cached_rate] specifies, with the path of instruments that prove
    it, or nothing exactly when there is no such rate.  The rate is one for a currency and
    itself; the bid of a quote of the pair that is fresh, from five seconds ahead to a minute
    ago, of positive prices that are not crossed; when there is none, one over the ask of a
    fresh quote of the inverse pair, rounded down at twelve digits; and when the pair is quoted
    neither way and neither currency is USD, the exact product of two such rates through USD. *)
Theorem resolveCachedBid_exact account quote :
  upper_word 3 account = true -> upper_word 3 quote = true -> prices_fit ->
  exists o, resolveCachedBid account quote = Ok o /\
    (forall t path, o = Some (t, path) <-> exists rate, cached_rate account quote rate path /\ t = text rate) /\
    (forall rate path, cached_rate account quote rate path -> tryParse_text (text rate) = Some rate).
Proof.
  intros Ha Hq Hfit. assert (exists o, resolveCachedBid account quote = Ok o) as [o Ho].
  { unfold resolveCachedBid. rewrite !(upper_code 3) by done. rewrite Ha, Hq. cbn [negb orb]. case_bool_decide; [eauto|].
    destruct (resolveLeg_total account quote Hfit) as [l ->]. cbn [rbind]. destruct l as [[??]|]; [eauto|]. case_match; [eauto|].
    destruct (resolveLeg_total account "USD" Hfit) as [l1 H1]. rewrite H1. cbn [rbind]. destruct l1 as [[r1 i1]|]; [|eauto].
    destruct (resolveLeg_total "USD" quote Hfit) as [l2 H2]. rewrite H2. cbn [rbind]. destruct l2 as [[r2 i2]|]; [|eauto].
    apply resolveLeg_spec in H1, H2. pose proof (leg_scale _ _ _ _ Hfit H1). pose proof (leg_scale _ _ _ _ Hfit H2).
    pose proof (canonical_scale _ (leg_canonical _ _ _ _ H1)). pose proof (canonical_scale _ (leg_canonical _ _ _ _ H2)).
    unfold mul. destruct (normalize_total (mkED (unscaled r1 * unscaled r2) (scale r1 + scale r2))) as (m & -> & _);
      [cbn; unfold MAX_SCALE; lia|]. cbn. eauto. }
  exists o. split; [done|]. apply resolve_spec in Ho; [|done..]. split.
  - intros t path. split.
    + intros ->. destruct Ho as (rate & Hr & _ & ->). eauto.
    + intros (rate & Hr & ->). destruct o as [[t p]|]; [|by destruct (Ho rate path)].
      destruct Ho as (rate' & Hr' & _ & ->). by destruct (cached_rate_unique _ _ _ _ _ _ Hr Hr') as [-> ->].
  - intros rate path Hr. apply tryParse_text_text. destruct Hr as [?|r i _ Hl|? ? ? ? ? _ _ _ _ _ _ ? _];
      [apply whole_canonical|by eapply leg_canonical|done].
Qed.
End exactness.

(** EUR to JPY through USD: the pair is not quoted, the first leg is direct, the second is the
    inverse of a quote of JPY in USD. *)
Definition crossed_market : Evidence :=
  {| acceptedSnapshot := None; accountRow := None; riskProfile := None; connectionAccountType := None; executionQuote := None;
     instrumentSpecification := None; fxConversionAvailable := true;
     cachedQuote := fun pair =>
       if bool_decide (pair = "EURUSD") then Some (mkPrice "1.1" "1.1002" "0.0002" (Some 99000))
       else if bool_decide (pair = "JPYUSD") then Some (mkPrice "0.0079" "0.008" "0.0001" (Some 99000)) else None;
     conversionQuote := fun _ => None; evaluatedAt := 100000; quotedAt := 100000; requiredMargin := fun _ _ => None |}.

Lemma crossed_fit : @prices_fit crossed_market.
Proof.
  intros pair q bid. cbn. repeat case_bool_decide; intros [= <-]; cbn [q_bid q_ask]; intros [Hp|Hp]; vm_compute in Hp;
    injection Hp as <-; cbn; lia.
Qed.

Lemma resolveCachedBid_exact_witness :
  upper_word 3 "EUR" = true /\ upper_word 3 "JPY" = true /\ @prices_fit crossed_market /\
  exists rate, @cached_rate crossed_market "EUR" "JPY" rate ["EURUSD"; "JPYUSD"] /\ "137.5" = text rate.
Proof.
  split; [reflexivity|]. split; [reflexivity|]. split; [apply crossed_fit|].
  destruct (@resolveCachedBid_exact crossed_market "EUR" "JPY" eq_refl eq_refl crossed_fit) as (o & Ho & Hs & _).
  apply Hs. vm_compute in Ho. injection Ho as <-. reflexivity.
Defined.
