(* ===== verification/Locks.v ===== *)
(** * Critical sections under advisory locks

    A service method that opens a transaction with [pg_advisory_xact_lock(key)]: statements
    before it, the statements of the transaction, which run while no other call is in a section
    of the same key, and what it does with the outcome.  Between any two statements of a
    section every statement of other calls may run, but those of sections of its key; the lock
    goes with the transaction, on commit and on error alike, and taking it may fail.  A section's last statement is its
    only write, so that nothing has to be undone when it throws; a commit whose
    acknowledgement is lost is one whose last statement was applied and answered the error.

    The file gives the step relation and a rely-guarantee rule for its runs: [rg] walks a
    program, each statement of which keeps the invariant, stays in its guarantee, and may rely
    on what other calls guarantee, sections of its own key excepted. *)

From S2P Require Import Prelude Prog.
From stdpp Require Import relations.

Section locks.
Context {S E A K : Type} (lost : E).

Record section := mkSection {
  sec_key : K; sec_body : prog S E A; sec_after : result E A -> prog S E A }.

Inductive thread :=
| Outside (p : prog S E (A + section))
| Inside (key : K) (p : prog S E A) (after : result E A -> prog S E A)
| After (p : prog S E A).

(** The lock a call holds. *)
Definition holding (t : thread) : option K :=
  match t with Inside key _ _ => Some key | _ => None end.

Definition outcome (p : prog S E A) : option (result E A) :=
  match p with Ret a => Some (Ok a) | Throw e => Some (Err e) | Op _ _ => None end.

Inductive step : S * list thread -> S * list thread -> Prop :=
| outside_runs s ts i d p s' p' :
    ts !! i = Some (Outside p) -> step1 lost d p s = (s', p') -> step (s, ts) (s', <[i := Outside p']> ts)
| outside_answers s ts i a :
    ts !! i = Some (Outside (Ret (inl a))) -> step (s, ts) (s, <[i := After (Ret a)]> ts)
| outside_throws s ts i e :
    ts !! i = Some (Outside (Throw e)) -> step (s, ts) (s, <[i := After (Throw e)]> ts)
| enters_section s ts i sec :
    ts !! i = Some (Outside (Ret (inr sec))) ->
    (forall j t, ts !! j = Some t -> holding t <> Some (sec_key sec)) ->
    step (s, ts) (s, <[i := Inside (sec_key sec) (sec_body sec) (sec_after sec)]> ts)
| lock_fails s ts i sec :
    ts !! i = Some (Outside (Ret (inr sec))) -> step (s, ts) (s, <[i := After (sec_after sec (Err lost))]> ts)
| inside_runs s ts i key p after d s' p' :
    ts !! i = Some (Inside key p after) -> step1 lost d p s = (s', p') ->
    step (s, ts) (s', <[i := Inside key p' after]> ts)
| leaves_section s ts i key p after r :
    ts !! i = Some (Inside key p after) -> outcome p = Some r -> step (s, ts) (s, <[i := After (after r)]> ts)
| after_runs s ts i d p s' p' :
    ts !! i = Some (After p) -> step1 lost d p s = (s', p') -> step (s, ts) (s', <[i := After p']> ts).

Abbreviation steps := (rtc step).

(** A schedule, executed: the thread named by each entry makes its next step, with what
    becomes of its statement; a thread whose lock is taken waits. *)
Definition advance `{!EqDecision K} (c : S * list thread) (e : nat * delivery) : S * list thread :=
  let '(s, ts) := c in
  let '(i, d) := e in
  match ts !! i with
  | Some (Outside (Ret (inl a))) => (s, <[i := After (Ret a)]> ts)
  | Some (Outside (Ret (inr sec))) =>
      if existsb (fun t => bool_decide (holding t = Some (sec_key sec))) ts then c
      else (s, <[i := Inside (sec_key sec) (sec_body sec) (sec_after sec)]> ts)
  | Some (Outside (Throw e)) => (s, <[i := After (Throw e)]> ts)
  | Some (Outside p) => let '(s', p') := step1 lost d p s in (s', <[i := Outside p']> ts)
  | Some (Inside key p after) =>
      match outcome p with
      | Some r => (s, <[i := After (after r)]> ts)
      | None => let '(s', p') := step1 lost d p s in (s', <[i := Inside key p' after]> ts)
      end
  | Some (After p) => let '(s', p') := step1 lost d p s in (s', <[i := After p']> ts)
  | None => c
  end.

Definition drive `{!EqDecision K} (sched : list (nat * delivery)) (c : S * list thread) : S * list thread :=
  foldl advance c sched.

Lemma advance_steps `{!EqDecision K} c e : steps c (advance c e).
Proof.
  destruct c as [s ts], e as [i d]. unfold advance.
  destruct (ts !! i) as [[[[a|sec]|e|X act k]|key p after|p]|] eqn:Hi; [..|done].
  - by apply rtc_once, outside_answers.
  - destruct (existsb _ ts) eqn:Hfree; [done|]. apply rtc_once, enters_section; [done|]. intros j t Hj Hh.
    assert (existsb (fun t => bool_decide (holding t = Some (sec_key sec))) ts = true) as Hx; [|congruence].
    apply existsb_exists. exists t. split; [by apply list_elem_of_In, (list_elem_of_lookup_2 _ j)|by apply bool_decide_eq_true].
  - by apply rtc_once, outside_throws.
  - destruct (step1 lost d (Op act k) s) as [s' p'] eqn:Hs. by eapply rtc_once, outside_runs.
  - destruct (outcome p) as [r|] eqn:Ho; [by eapply rtc_once, leaves_section|].
    destruct (step1 lost d p s) as [s' p'] eqn:Hs. by eapply rtc_once, inside_runs.
  - destruct (step1 lost d p s) as [s' p'] eqn:Hs. by eapply rtc_once, after_runs.
Qed.

Lemma drive_steps `{!EqDecision K} sched c : steps c (drive sched c).
Proof. revert c. induction sched as [|e sched IH]; intros c; [done|]. etransitivity; [apply advance_steps|apply IH]. Qed.

(** ** Rely and guarantee

    [G None] is what a statement outside sections may do, [G (Some key)] what one in a section
    of [key] may do. *)

Section logic.
Context (Inv : S -> Prop) (G : option K -> S -> S -> Prop) (says : A -> S -> Prop).

Definition others (me : option K) (who : option K) : Prop :=
  match me with Some key => who <> Some key | None => True end.

Definition kept (me : option K) (P : S -> Prop) : Prop :=
  forall who s s', others me who -> G who s s' -> P s -> P s'.

(** From a store with [P], every statement of [p] keeps the invariant within the guarantee, and
    the outcome is one [Q] allows. *)
Fixpoint rg {X} (me : option K) (Q : result E X -> S -> Prop) (P : S -> Prop) (p : prog S E X) : Prop :=
  match p with
  | Ret x => forall s, Inv s -> P s -> Q (Ok x) s
  | Throw e => forall s, Inv s -> P s -> Q (Err e) s
  | Op act k =>
      (forall s, Inv s -> P s ->
         Inv (fst (act s)) /\ G me s (fst (act s)) /\
         exists P', kept me P' /\ P' (fst (act s)) /\ rg me Q P' (k (snd (act s)))) /\
      rg me Q (fun _ => True) (k (Err lost))
  end.

(** What a call has to be at a store with [Inv]. *)
Definition answers (r : result E A) (s : S) : Prop := match r with Ok a => says a s | Err _ => True end.

Definition ready {X} (me : option K) (Q : result E X -> S -> Prop) (s : S) (p : prog S E X) : Prop :=
  exists P, kept me P /\ P s /\ rg me Q P p.

Definition leaves (after : result E A -> prog S E A) (r : result E A) (s : S) : Prop :=
  ready None answers s (after r).

Definition enters (r : result E (A + section)) (s : S) : Prop :=
  match r with
  | Ok (inl a) => says a s
  | Ok (inr sec) =>
      ready (Some (sec_key sec)) (leaves (sec_after sec)) s (sec_body sec) /\ leaves (sec_after sec) (Err lost) s
  | Err _ => True
  end.

Definition fine (s : S) (t : thread) : Prop :=
  match t with
  | Outside p => ready None enters s p
  | Inside key p after => ready (Some key) (leaves after) s p
  | After p => ready None answers s p
  end.

Record consistent (c : S * list thread) : Prop := {
  cs_inv : Inv (fst c);
  cs_fine : Forall (fine (fst c)) (snd c);
  cs_lock : forall i j t u key, snd c !! i = Some t -> snd c !! j = Some u ->
    holding t = Some key -> holding u = Some key -> i = j }.

Context (says_kept : forall a, kept None (says a)) (G_refl : forall who s, G who s s).

Lemma kept_true me : kept me (fun _ => True).
Proof. done. Qed.

Lemma ready_other {X} me who (Q : result E X -> S -> Prop) s s' p :
  others me who -> G who s s' -> ready me Q s p -> ready me Q s' p.
Proof. intros Ho HG (P & HP & Hs & Hp). exists P. split; [done|]. split; [by eapply HP|done]. Qed.

Lemma fine_other who s s' t : others (holding t) who -> G who s s' -> fine s t -> fine s' t.
Proof. destruct t as [p|key p after|p]; cbn; intros Ho HG; by apply (ready_other _ who). Qed.

(** One statement, whatever becomes of it. *)
Lemma step1_ready {X} me (Q : result E X -> S -> Prop) d p s s' p' :
  step1 lost d p s = (s', p') -> Inv s -> ready me Q s p -> Inv s' /\ G me s s' /\ ready me Q s' p'.
Proof.
  intros Hd Hi (P & HP & Hs & Hp). destruct p as [a|e|Y act k].
  1, 2: injection Hd as <- <-; split; [done|]; split; [done|]; by exists P.
  destruct Hp as [Ha Hl]. destruct (Ha s Hi Hs) as (Hi' & HG & P' & HP' & Hs' & Hk).
  assert (forall x, ready me Q x (k (Err lost))) as Hlost by (intros x; exists (fun _ => True); done).
  destruct d; cbn in Hd.
  - destruct (act s) as [s1 r]. injection Hd as <- <-. cbn in *. split; [done|]. split; [done|]. by exists P'.
  - injection Hd as <- <-. auto.
  - destruct (act s) as [s1 r]. injection Hd as <- <-. cbn in *. auto.
Qed.

(** A step of the thread [i] that becomes [t'] and moves the store as [who] may. *)
Lemma consistent_move s s' ts i t t' who :
  consistent (s, ts) -> ts !! i = Some t -> who = None \/ who = holding t ->
  Inv s' -> G who s s' -> fine s' t' ->
  (forall key, holding t' = Some key -> forall j u, ts !! j = Some u -> holding u = Some key -> i = j) ->
  consistent (s', <[i := t']> ts).
Proof.
  intros [Hi Hf Hl] Ht Hwho Hi' HG Hfine Hexcl. cbn [fst snd] in *.
  assert (i < length ts)%nat as Hlt by by apply lookup_lt_Some in Ht.
  split; cbn [fst snd]; [done| |].
  - apply Forall_lookup_2. intros j u Hj. destruct (decide (i = j)) as [<-|Hne].
    + rewrite list_lookup_insert_eq in Hj by done. by injection Hj as <-.
    + rewrite list_lookup_insert_ne in Hj by done. apply (fine_other who s); [|done|by apply (Forall_lookup_1 _ _ j u Hf)].
      destruct (holding u) as [key|] eqn:Hu; cbn; [|done]. destruct Hwho as [->| ->]; [done|].
      intros Heq. by apply Hne, (Hl i j t u key).
  - intros a b x y key Ha Hb Hx Hy.
    destruct (decide (i = a)) as [<-|Hna], (decide (i = b)) as [<-|Hnb]; [done| | |].
    + rewrite list_lookup_insert_eq in Ha by done. injection Ha as <-. rewrite list_lookup_insert_ne in Hb by done. eauto.
    + rewrite list_lookup_insert_eq in Hb by done. injection Hb as <-. rewrite list_lookup_insert_ne in Ha by done.
      symmetry. eauto.
    + rewrite list_lookup_insert_ne in Ha, Hb by done. eauto.
Qed.

Lemma step_consistent c c' : step c c' -> consistent c -> consistent c'.
Proof.
  intros Hstep Hc. pose proof Hc as [Hi Hf Hl]. destruct Hstep as [s ts i d p s' p' Hp Hd|s ts i a Hp|s ts i e Hp|
    s ts i sec Hp Hfree|s ts i sec Hp|s ts i key p after d s' p' Hp Hd|s ts i key p after r Hp Hr|s ts i d p s' p' Hp Hd];
    cbn [fst snd] in *; pose proof (Forall_lookup_1 _ _ _ _ Hf Hp) as Ht; cbn [fine] in Ht.
  - destruct (step1_ready _ _ _ _ _ _ _ Hd Hi Ht) as (? & ? & ?).
    by apply (consistent_move s s' ts i (Outside p) _ None); [| |left|..].
  - destruct Ht as (P & HP & Hs & Ha). apply (consistent_move s s ts i (Outside (Ret (inl a))) _ None); [done|done|by left|done|done| |done].
    exists (says a). split; [done|]. split; [by apply Ha|exact (fun _ _ H => H)].
  - apply (consistent_move s s ts i (Outside (Throw e)) _ None); [done|done|by left|done|done| |done].
    exists (fun _ => True). split; [done|]. split; [done|by intros ???].
  - destruct Ht as (P & HP & Hs & Ha). apply (consistent_move s s ts i (Outside (Ret (inr sec))) _ None);
      [done|done|by left|done|done|by apply Ha|].
    intros key [= <-] j u Hj Hu. by destruct (Hfree j u Hj).
  - destruct Ht as (P & HP & Hs & Ha).
    apply (consistent_move s s ts i (Outside (Ret (inr sec))) _ None); [done|done|by left|done|done|by apply Ha|done].
  - destruct (step1_ready _ _ _ _ _ _ _ Hd Hi Ht) as (? & ? & ?).
    apply (consistent_move s s' ts i (Inside key p after) _ (Some key)); [done|done|by right|done|done|done|].
    intros key' [= <-] j u Hj Hu. by apply (Hl i j (Inside key p after) u key).
  - destruct Ht as (P & HP & Hs & Ha). apply (consistent_move s s ts i (Inside key p after) _ None); [done|done|by left|done|done| |done].
    destruct p; cbn in Hr; [injection Hr as <-; by apply Ha..|done].
  - destruct (step1_ready _ _ _ _ _ _ _ Hd Hi Ht) as (? & ? & ?).
    by apply (consistent_move s s' ts i (After p) _ None); [| |left|..].
Qed.

(** In every reachable state the invariant holds and what was answered is true. *)
Theorem runs_consistent c c' : steps c c' -> consistent c -> consistent c'.
Proof. induction 1; eauto using step_consistent. Qed.

Lemma answered_true c i a : consistent c -> snd c !! i = Some (After (Ret a)) -> says a (fst c).
Proof.
  intros [Hi Hf _] Ha. destruct (Forall_lookup_1 _ _ _ _ Hf Ha) as (P & _ & Hs & Hp). by apply Hp.
Qed.

(** Calls that have not started. *)
Lemma consistent_start s (ps : list (prog S E (A + section))) :
  Inv s -> Forall (rg None enters (fun _ => True)) ps -> consistent (s, Outside <$> ps).
Proof.
  intros Hi Hp. split; cbn [fst snd]; [done| |].
  - apply Forall_fmap. eapply Forall_impl; [exact Hp|]. intros p Hr. by exists (fun _ => True).
  - intros i j t u key (p & -> & _)%list_lookup_fmap_Some. done.
Qed.

(** ** Composition *)

Section rules.
Context {X : Type} (me : option K) (Q : result E X -> S -> Prop) (Q_lost : forall e s, Inv s -> Q (Err e) s).

Lemma rg_weaken (P P' : S -> Prop) (p : prog S E X) : (forall s, P' s -> P s) -> rg me Q P p -> rg me Q P' p.
Proof. intros HP. destruct p as [x|e|Y act k]; cbn; [auto..|]. intros [Ha Hl]. auto. Qed.

Lemma rg_throw P e : rg me Q P (Throw e).
Proof. intros s Hi _. by apply Q_lost. Qed.

Lemma rg_op {Y} (P : S -> Prop) (act : S -> S * result E Y) (k : Y -> prog S E X) :
  (forall s, Inv s -> P s -> Inv (fst (act s)) /\ G me s (fst (act s)) /\
     forall y, snd (act s) = Ok y -> exists P', kept me P' /\ P' (fst (act s)) /\ rg me Q P' (k y)) ->
  rg me Q P (bind (op act) k).
Proof.
  intros Ha. split; [|apply rg_throw]. intros s Hi HP. destruct (Ha s Hi HP) as (Hi' & HG & Hk).
  destruct (act s) as [s' [y|e]]; cbn in *; (split; [done|]; split; [done|]); [by apply Hk|].
  exists (fun _ => True). split; [done|]. split; [done|apply rg_throw].
Qed.

Lemma rg_attempt {Y} (P : S -> Prop) (act : S -> S * result E Y) (k : result E Y -> prog S E X) :
  (forall s, Inv s -> P s -> Inv (fst (act s)) /\ G me s (fst (act s)) /\
     exists P', kept me P' /\ P' (fst (act s)) /\ rg me Q P' (k (snd (act s)))) ->
  rg me Q (fun _ => True) (k (Err lost)) -> rg me Q P (bind (attempt (op act)) k).
Proof.
  intros Ha Hl. split; [|done]. intros s Hi HP. destruct (Ha s Hi HP) as (Hi' & HG & P' & HP' & Hs' & Hk).
  split; [done|]. split; [done|]. exists P'. split; [done|]. split; [done|]. by destruct (act s) as [s' [y|e]].
Qed.

(** A read learns [P' y], which must be kept. *)
Lemma rg_read {Y} (P : S -> Prop) (f : S -> Y) (k : Y -> prog S E X) (P' : Y -> S -> Prop) :
  (forall y, kept me (P' y)) -> (forall s, Inv s -> P s -> P' (f s) s) -> (forall y, rg me Q (P' y) (k y)) ->
  rg me Q P (bind (read f) k).
Proof.
  intros HP' Hf Hk. apply rg_op. intros s Hi HP. cbn. split; [done|]. split; [done|]. intros y [= <-].
  exists (P' (f s)). auto.
Qed.

(** A part that says nothing of what it learned. *)
Lemma rg_guar {Y} (R : S -> S -> Prop) (P : S -> Prop) (p : prog S E Y) (k : Y -> prog S E X) :
  (forall s s', R s s' -> Inv s -> Inv s' /\ G me s s') -> guar R p ->
  (forall y, rg me Q (fun _ => True) (k y)) -> rg me Q P (bind p k).
Proof.
  intros HR Hp Hk. apply (rg_weaken (fun _ => True)); [done|]. induction p as [y|e|Y' act k' IH]; cbn in *; [apply Hk|apply rg_throw|].
  destruct Hp as [Ha Hp]. split; [|by apply IH]. intros s Hi _. destruct (HR _ _ (Ha s) Hi) as [Hi' HG].
  split; [done|]. split; [done|]. exists (fun _ => True). split; [done|]. split; [done|]. by apply IH.
Qed.

(** A read inside a method that is called. *)
Lemma rg_read_call {Y Z} (P : S -> Prop) (f : S -> Y) (g : Y -> prog S E Z) (k : Z -> prog S E X) (P' : Y -> S -> Prop) :
  (forall y, kept me (P' y)) -> (forall s, Inv s -> P s -> P' (f s) s) -> (forall y, rg me Q (P' y) (bind (g y) k)) ->
  rg me Q P (bind (bind (read f) g) k).
Proof.
  intros HP' Hf Hk. split; [|apply rg_throw]. intros s Hi HP. cbn. split; [done|]. split; [done|].
  exists (P' (f s)). split; [done|]. split; [by apply Hf|apply Hk].
Qed.

Lemma rg_read_any {Y} (P : S -> Prop) (f : S -> Y) (k : Y -> prog S E X) :
  kept me P -> (forall y, rg me Q P (k y)) -> rg me Q P (bind (read f) k).
Proof. intros HP Hk. by apply (rg_read P f k (fun _ => P)). Qed.
End rules.
End logic.
End locks.

Arguments section : clear implicits.
Arguments thread : clear implicits.
