(* ===== verification/Assured.v ===== *)
(** * Rely and guarantee

    The reasoning for calls that interleave freely and whose writes are sound only because of
    what the call has read: [assured inv R says K p] holds of a program [p] that, started where
    [K] is known, keeps the invariant [inv] of the store and the relation [R] with every
    statement, and answers only what [says] allows.  What a program knows has to survive the
    steps of the others ([stable]).  [exec_assured] is the conclusion for a pool under any
    schedule and any lost statements; the rules compose programs. *)

From S2P Require Import Prelude Prog.

Section assured.
Context {S E : Type} (lost : E) (inv : S -> Prop) (R : S -> S -> Prop) `{!PreOrder R}.

Fixpoint assured {A} (says : A -> S -> Prop) (K : S -> Prop) (p : prog S E A) : Prop :=
  match p with
  | Ret a => forall s, inv s -> K s -> says a s
  | Throw _ => True
  | Op act k =>
      (forall s, inv s -> K s ->
         inv (fst (act s)) /\ R s (fst (act s)) /\
         exists K', stable R K' /\ K' (fst (act s)) /\ assured says K' (k (snd (act s)))) /\
      assured says K (k (Err lost))
  end.

(** ** Pools *)

Section pool.
Context {A : Type} (says : A -> S -> Prop).

Definition certain (s : S) (p : prog S E A) : Prop := exists K, stable R K /\ K s /\ assured says K p.

Lemma certain_later s s' p : R s s' -> certain s p -> certain s' p.
Proof using. intros HR (K & Hst & HK & Hp). exists K. split; [done|]. split; [by apply (Hst s)|done]. Qed.

Lemma certain_forget s p : assured says (fun _ => True) p -> certain s p.
Proof using. intros Hp. by exists (fun _ => True). Qed.

Lemma step1_certain d p s :
  inv s -> certain s p ->
  inv (fst (step1 lost d p s)) /\ R s (fst (step1 lost d p s)) /\
  certain (fst (step1 lost d p s)) (snd (step1 lost d p s)).
Proof using PreOrder0.
  intros Hi Hc. destruct p as [a|e|X act k]; [done..|]. destruct Hc as (K & Hst & HK & Hs & Hl).
  destruct (Hs s Hi HK) as (Hi' & HR & K' & Hst' & HK' & Hk).
  destruct d; cbn [step1]; [|split; [done|]; split; [done|by exists K]|];
    destruct (act s) as [s' r]; cbn [fst snd] in *; (split; [done|]); (split; [done|]); [by exists K'|].
  exists K. split; [done|]. split; [by apply (Hst s)|done].
Qed.

Lemma exec_certain sched c :
  inv (fst c) -> Forall (certain (fst c)) (snd c) ->
  inv (fst (exec lost sched c)) /\ R (fst c) (fst (exec lost sched c)) /\
  Forall (certain (fst (exec lost sched c))) (snd (exec lost sched c)).
Proof using PreOrder0.
  revert c. induction sched as [|[i d] sched IH]; intros [s ps] Hi Hc; [done|]. cbn [exec].
  unfold step_at. cbn [fst snd] in *. destruct (ps !! i) as [p|] eqn:Hp; [|by apply (IH (s, ps))].
  pose proof (step1_certain d p s Hi (Forall_lookup_1 _ _ _ _ Hc Hp)) as (Hi' & HR & Hp').
  destruct (step1 lost d p s) as [s' p']. cbn [fst snd] in *.
  destruct (IH (s', <[i:=p']> ps)) as (? & HR' & ?); [done| |].
  - cbn [fst snd]. apply Forall_insert; [|done]. eapply Forall_impl; [exact Hc|]. intros q. by apply certain_later.
  - split; [done|]. split; [|done]. etransitivity; [exact HR|exact HR'].
Qed.

Lemma exec_assured sched c :
  inv (fst c) -> Forall (assured says (fun _ => True)) (snd c) ->
  inv (fst (exec lost sched c)) /\ R (fst c) (fst (exec lost sched c)) /\
  forall i a, snd (exec lost sched c) !! i = Some (Ret a) -> says a (fst (exec lost sched c)).
Proof using PreOrder0.
  intros Hi Hp. destruct (exec_certain sched c Hi) as (Hi' & HR & Hc).
  { eapply Forall_impl; [exact Hp|]. intros p. apply certain_forget. }
  split; [done|]. split; [done|]. intros i a Ha.
  destruct (Forall_lookup_1 _ _ _ _ Hc Ha) as (K & _ & HK & Hs). by apply Hs.
Qed.

(** Calls of which each one answers what is said of it. *)
Lemma exec_certain_each (each : nat -> A -> S -> Prop) sched c :
  inv (fst c) ->
  (forall i p, snd c !! i = Some p -> exists K, stable R K /\ K (fst c) /\ assured (each i) K p) ->
  inv (fst (exec lost sched c)) /\ R (fst c) (fst (exec lost sched c)) /\
  forall i p, snd (exec lost sched c) !! i = Some p ->
    exists K, stable R K /\ K (fst (exec lost sched c)) /\ assured (each i) K p.
Proof using PreOrder0.
  revert c. induction sched as [|[i d] sched IH]; intros [s ps] Hi Hc; [done|]. cbn [exec].
  unfold step_at. cbn [fst snd] in *. destruct (ps !! i) as [p|] eqn:Hp; [|by apply (IH (s, ps))].
  assert (inv (fst (step1 lost d p s)) /\ R s (fst (step1 lost d p s)) /\
    exists K, stable R K /\ K (fst (step1 lost d p s)) /\ assured (each i) K (snd (step1 lost d p s))) as (Hi' & HR & Hp').
  { specialize (Hc i p Hp). destruct p as [a|e|X act k]; [done..|]. destruct Hc as (K & Hst & HK & Hs & Hl).
    destruct (Hs s Hi HK) as (Hi' & HR & K' & Hst' & HK' & Hk).
    destruct d; cbn [step1]; [|split; [done|]; split; [done|by exists K]|];
      destruct (act s) as [s' r]; cbn [fst snd] in *; (split; [done|]); (split; [done|]); [by exists K'|].
    exists K. split; [done|]. split; [by apply (Hst s)|done]. }
  destruct (step1 lost d p s) as [s' p']. cbn [fst snd] in *.
  destruct (IH (s', <[i:=p']> ps)) as (? & HR' & ?); [done| |].
  - cbn [fst snd]. intros j q Hq. destruct (decide (i = j)) as [<-|Hne].
    + rewrite list_lookup_insert_eq in Hq by (by eapply lookup_lt_Some). by injection Hq as <-.
    + rewrite list_lookup_insert_ne in Hq by done. destruct (Hc j q Hq) as (K & Hst & HK & Hq'). exists K.
      split; [done|]. split; [by apply (Hst s)|done].
  - split; [done|]. split; [|done]. etransitivity; [exact HR|exact HR'].
Qed.

(** A call that runs alone. *)
Lemma run_assured p s s' r :
  inv s -> assured says (fun _ => True) p -> run p s = (s', r) ->
  inv s' /\ R s s' /\ forall a, r = Ok a -> says a s'.
Proof using PreOrder0.
  intros Hi Hp. assert (exists K, stable R K /\ K s /\ assured says K p) as Hc by by apply certain_forget.
  clear Hp. revert s Hi Hc. induction p as [a|e|X act k IH]; intros s Hi Hc; cbn [run].
  - intros [= <- <-]. destruct Hc as (K & _ & HK & Hs). split; [done|]. split; [done|]. intros x [= <-]. by apply Hs.
  - by intros [= <- <-].
  - destruct Hc as (K & Hst & HK & Hs & _). destruct (Hs s Hi HK) as (Hi' & HR & K' & Hst' & HK' & Hk).
    destruct (act s) as [s1 x]. cbn [fst snd] in *. intros Hr.
    destruct (IH x s1 Hi' ltac:(by exists K') Hr) as (? & HR' & ?). split; [done|]. split; [|done].
    etransitivity; [exact HR|exact HR'].
Qed.
End pool.

(** ** Rules *)

Lemma assured_weaken {A} (says : A -> S -> Prop) (K K' : S -> Prop) p :
  (forall s, inv s -> K' s -> K s) -> assured says K p -> assured says K' p.
Proof using. intros HK. induction p as [a|e|X act k IH]; simpl; [auto..|]. intros [Ha Hl]. auto. Qed.

Lemma assured_post {A} (says says' : A -> S -> Prop) (K : S -> Prop) p :
  (forall a s, inv s -> says a s -> says' a s) -> assured says K p -> assured says' K p.
Proof using.
  intros Hs. revert K. induction p as [a|e|X act k IH]; intros K; simpl; [auto..|]. intros [Ha Hl]. split; [|auto].
  intros s Hi HK. destruct (Ha s Hi HK) as (? & ? & K' & ? & ? & ?). split; [done|]. split; [done|]. exists K'. auto.
Qed.

Lemma assured_bind {A B} (mid : A -> S -> Prop) (says : B -> S -> Prop) K (p : prog S E A) f :
  assured mid K p -> (forall a, assured says (mid a) (f a)) -> assured says K (bind p f).
Proof using.
  intros Hp Hf. revert K Hp. induction p as [a|e|X act k IH]; intros K; simpl.
  - intros Hm. by apply (assured_weaken says (mid a)).
  - done.
  - intros [Ha Hl]. split; [|by apply IH]. intros s Hi HK. destruct (Ha s Hi HK) as (? & ? & K' & ? & ? & ?).
    split; [done|]. split; [done|]. exists K'. auto.
Qed.

Lemma assured_attempt {A} (mid : A -> S -> Prop) K (p : prog S E A) :
  assured mid K p -> assured (fun r => match r with Ok a => mid a | Err _ => fun _ => True end) K (attempt p).
Proof using.
  revert K. induction p as [a|e|X act k IH]; intros K; simpl; [done..|]. intros [Ha Hl]. split; [|by apply IH].
  intros s Hi HK. destruct (Ha s Hi HK) as (? & ? & K' & ? & ? & ?). split; [done|]. split; [done|]. exists K'. auto.
Qed.

Lemma assured_catch {A} (says : A -> S -> Prop) K (p : prog S E A) h :
  assured says K p -> (forall e, assured says (fun _ => True) (h e)) -> assured says K (catch p h).
Proof using.
  intros Hp Hh. revert K Hp. induction p as [a|e|X act k IH]; intros K; simpl; [done| |].
  - intros _. by apply (assured_weaken says (fun _ => True)).
  - intros [Ha Hl]. split; [|by apply IH]. intros s Hi HK. destruct (Ha s Hi HK) as (? & ? & K' & ? & ? & ?).
    split; [done|]. split; [done|]. exists K'. auto.
Qed.

(** One statement: what its answer says has to be stable. *)
Lemma assured_op {X} (mid : X -> S -> Prop) K (act : S -> S * result E X) :
  (forall x, stable R (mid x)) ->
  (forall s, inv s -> K s ->
     inv (fst (act s)) /\ R s (fst (act s)) /\ forall x, snd (act s) = Ok x -> mid x (fst (act s))) ->
  assured mid K (op act).
Proof using.
  intros Hst Ha. split; [|done]. intros s Hi HK. destruct (Ha s Hi HK) as (Hi' & HR & Hx).
  split; [done|]. split; [done|]. destruct (act s) as [s' [x|e]]; cbn [fst snd] in *.
  - exists (mid x). split; [done|]. split; [by apply Hx|]. by intros ???.
  - by exists (fun _ => True).
Qed.

(** The same, for an answer that is not needed. *)
Lemma assured_step {X A} (says : A -> S -> Prop) K (act : S -> S * result E X) (k : X -> prog S E A) :
  (forall s, inv s -> K s -> inv (fst (act s)) /\ R s (fst (act s))) -> (forall x, assured says (fun _ => True) (k x)) ->
  assured says K (bind (op act) k).
Proof using.
  intros Ha Hk. apply (assured_bind (fun _ _ => True)); [|done]. apply assured_op; [by intros ????|].
  intros s Hi HK. destruct (Ha s Hi HK). auto.
Qed.

Lemma assured_read {X} (mid : X -> S -> Prop) K (f : S -> X) :
  (forall x, stable R (mid x)) -> (forall s, inv s -> K s -> mid (f s) s) -> assured mid K (read f).
Proof using PreOrder0.
  intros Hst Hf. apply assured_op; [done|]. intros s Hi HK. cbn [fst snd]. split; [done|]. split; [done|].
  intros x [= <-]. by apply Hf.
Qed.

Lemma assured_of_result {X} (mid : X -> S -> Prop) K (r : result E X) :
  (forall x s, r = Ok x -> K s -> mid x s) -> assured mid K (of_result r).
Proof using. destruct r; simpl; [|done]. intros H s _ HK. by apply H. Qed.

(** A fact of what is known that is not about the store. *)
Lemma assured_pure {A} (says : A -> S -> Prop) (phi : Prop) K (p : prog S E A) :
  (phi -> assured says K p) -> assured says (fun s => phi /\ K s) p.
Proof using.
  induction p as [a|e|X act k IH]; simpl; [|done|].
  - intros H s Hi [Hphi HK]. by apply H.
  - intros H. split.
    + intros s Hi [Hphi HK]. by apply H.
    + apply IH. intros Hphi. by apply H.
Qed.

(** A part that only keeps [R], where [R] keeps the invariant. *)
Lemma assured_guar {A} K (p : prog S E A) :
  (forall s s', R s s' -> inv s -> inv s') -> stable R K -> guar R p -> assured (fun _ => K) K p.
Proof using.
  intros HR Hst. induction p as [a|e|X act k IH]; simpl; [auto..|]. intros [Ha Hk]. split; [|by apply IH].
  intros s Hi HK. split; [by apply (HR s)|]. split; [done|]. exists K. split; [done|]. split; [by apply (Hst s)|]. by apply IH.
Qed.
End assured.
