(* ===== verification/TradeIntents.v ===== *)
(** * Trade intents ([execution/services/trade-intent.service.ts])

    [TradeIntentService]: the durable, normalized form of one model decision.  An intent is
    recorded once per user and signal, expires, and leaves [CREATED] at most once.  The
    structured metadata of an intent is left out, and the message of a refusal. *)

From S2P Require Import Prelude Prog JsString Decimal DecimalSpecs Store RiskGrants.
Open Scope string_scope.
Open Scope list_scope.
Open Scope Z_scope.

(** ** Data *)

Definition INTENT_MAX_AGE_MS : Z := RISK_GRANT_TTL_MS + EXECUTION_CONFIRMATION_WINDOW_MS.

(** [created: true], or the existing row reused. *)
Record TradeIntentRegistration := mkRegistration { created : bool; intent : TradeIntent }.

Record TradeIntentFacts := mkFacts {
  tf_userId : string; tf_signalId : string; tf_signalGeneratedAt : Z; tf_brokerConnectionId : string;
  tf_logicalAccountKey : option string; tf_tradingSessionId : option string; tf_strategyCode : option string;
  tf_modelVersion : option string; tf_timeframe : option string; tf_instrument : string; tf_direction : string;
  tf_requestedLotSize : string; tf_requestedEntryPrice : option string; tf_stopLoss : option string;
  tf_takeProfit : option string; tf_trailingStopPips : option string; tf_rationale : option string;
  tf_authorityGeneration : Z; tf_tradingPolicyRevision : option Z; tf_providerVerificationRevision : option Z;
  tf_executionControlRevision : option Z }.

(** [!parsed || parsed.isZero() || !parsed.isPositive()], negated. *)
Definition usable_price (price : string) : bool :=
  match tryParse_text price with Some d => negb (isZero d) && isPositive d | None => false end.

Definition deriveEntryType (requestedEntryPrice : option string) : string :=
  match requestedEntryPrice with
  | None => "MARKET"
  | Some price => if usable_price price then "LIMIT" else "MARKET"
  end.

Definition normalizeRequestedPrice (requestedEntryPrice : option string) : option string :=
  match requestedEntryPrice with
  | None => None
  | Some price => if usable_price price then Some price else None
  end.

Definition intentKeyFor (userId signalId : string) : string := userId +:+ ":" +:+ signalId.

(** [intentRepo.create]. *)
Definition new_intent (newId : string) (f : TradeIntentFacts) : TradeIntent :=
  mkIntent newId (tf_userId f) (intentKeyFor (tf_userId f) (tf_signalId f)) (tf_signalId f) (tf_signalGeneratedAt f)
    (tf_brokerConnectionId f) (tf_logicalAccountKey f) (tf_tradingSessionId f) (tf_strategyCode f)
    (tf_modelVersion f) (tf_timeframe f) (tf_instrument f) (tf_direction f)
    (deriveEntryType (tf_requestedEntryPrice f)) (tf_requestedLotSize f)
    (normalizeRequestedPrice (tf_requestedEntryPrice f)) (tf_stopLoss f) (tf_takeProfit f) (tf_trailingStopPips f)
    (tf_signalGeneratedAt f + INTENT_MAX_AGE_MS) (tf_rationale f) (tf_authorityGeneration f)
    (tf_tradingPolicyRevision f) (tf_providerVerificationRevision f) (tf_executionControlRevision f)
    Intent.CREATED None.

Definition has_intent_key (userId key : string) (n : TradeIntent) : bool :=
  bool_decide (n_userId n = userId) && bool_decide (n_intentKey n = key).

(** [INSERT]: the primary key, then the unique index on (user, intent key). *)
Definition intent_insert_act (n : TradeIntent) (d : DB) : DB * result exn TradeIntent :=
  if bool_decide (is_Some (intents d !! n_id n)) then (d, Err (UniqueViolation "pk_trade_intents"))
  else if bool_decide (is_Some (find_row (has_intent_key (n_userId n) (n_intentKey n)) (intents d)))
  then (d, Err (UniqueViolation "uq_trade_intents_user_intent_key"))
  else (set_intents (<[n_id n := n]> (intents d)) d, Ok n).

(** ** The service *)

Section service.
Local Open Scope prog_scope.

Definition findByKey (userId key : string) : io (option TradeIntent) :=
  sel (fun d => find_row (has_intent_key userId key) (intents d)).

Definition recordOrReuseIntent (newId : string) (facts : TradeIntentFacts) : io TradeIntentRegistration :=
  let n := new_intent newId facts in
  let* saved := attempt (op (intent_insert_act n)) in
  match saved with
  | Ok n => Ret (mkRegistration true n)
  | Err err =>
      if negb (isUniqueViolation err) then Throw err
      else
        let* existing := findByKey (tf_userId facts) (n_intentKey n) in
        match existing with
        | Some existing => Ret (mkRegistration false existing)
        | None => Throw err
        end
  end.

Definition findBySignal (userId signalId : string) : io (option TradeIntent) :=
  findByKey userId (intentKeyFor userId signalId).

Definition with_intent_status (status : Intent.TradeIntentStatus) (tradeId : option string) (n : TradeIntent) : TradeIntent :=
  mkIntent (n_id n) (n_userId n) (n_intentKey n) (n_signalId n) (n_signalGeneratedAt n) (n_brokerConnectionId n)
    (n_logicalAccountKey n) (n_tradingSessionId n) (n_strategyCode n) (n_modelVersion n) (n_timeframe n)
    (n_instrument n) (n_direction n) (n_entryType n) (n_requestedLotSize n) (n_requestedEntryPrice n) (n_stopLoss n)
    (n_takeProfit n) (n_trailingStopPips n) (n_expiresAt n) (n_rationale n) (n_authorityGeneration n)
    (n_tradingPolicyRevision n) (n_providerVerificationRevision n) (n_executionControlRevision n) status
    (match tradeId with Some t => Some t | None => n_tradeId n end).

Definition intent_created (n : TradeIntent) : bool := bool_decide (n_status n = Intent.CREATED).

(** [UPDATE .. SET .. WHERE id AND status = 'CREATED']; the rows affected are not looked at. *)
Definition intent_cas (intentId : string) (status : Intent.TradeIntentStatus) (tradeId : option string) : io unit :=
  op (fun d => (set_intents (fst (update_row intent_created (with_intent_status status tradeId) intentId (intents d))) d, Ok tt)).

Definition markExecuted (intentId tradeId : string) : io unit := intent_cas intentId Intent.EXECUTED (Some tradeId).
Definition markRejected (intentId : string) : io unit := intent_cas intentId Intent.REJECTED None.
Definition markExpired (intentId : string) : io unit := intent_cas intentId Intent.EXPIRED None.

Definition assertIntentUsable (n : TradeIntent) : io TradeIntent :=
  if negb (intent_created n) then Throw (TradeIntentNotUsable (n_id n) (n_status n))
  else
    let* time := sel now in
    if n_expiresAt n <=? time then
      do! markExpired (n_id n) in Throw (TradeIntentNotUsable (n_id n) Intent.EXPIRED)
    else Ret n.

Definition resolveIntentForExecutionBySignal (userId signalId : string) : io TradeIntent :=
  let* found := findBySignal userId signalId in
  match found with
  | None => Throw (TradeIntentNotUsable signalId Intent.REJECTED)
  | Some n => assertIntentUsable n
  end.

Definition resolveIntentForExecution (intentId userId : string) : io TradeIntent :=
  let* found := sel (fun d => match intents d !! intentId with
                              | Some n => if bool_decide (n_userId n = userId) then Some n else None
                              | None => None
                              end) in
  match found with
  | None => Throw (TradeIntentNotUsable intentId Intent.REJECTED)
  | Some n => assertIntentUsable n
  end.

(** [for (const intent of expired) await this.markExpired(intent.id)]. *)
Fixpoint mark_all_expired (expired : list TradeIntent) : io unit :=
  match expired with
  | [] => Ret tt
  | n :: expired => do! markExpired (n_id n) in mark_all_expired expired
  end.

Definition created_intents (d : DB) : list TradeIntent :=
  List.filter intent_created (map snd (map_to_list (intents d))).

Definition expireStaleCreatedIntents (time : Z) : io (list string) :=
  let* created := sel created_intents in
  let expired := List.filter (fun n => n_expiresAt n <=? time) created in
  do! mark_all_expired expired in Ret (map n_id expired).
End service.

(** ** How intents evolve *)

(** The decision an intent records is immutable, and so is all of it once it left [CREATED]. *)
Record intent_evolves (n n' : TradeIntent) : Prop := {
  ne_decision : exists status tradeId, n' = with_intent_status status tradeId n;
  ne_settled : n_status n <> Intent.CREATED -> n' = n }.

#[export] Instance intent_evolves_preorder : PreOrder intent_evolves.
Proof.
  split.
  - intros n. split; [exists (n_status n), None; by destruct n|done].
  - intros x y z [(s & t & ->) H2] [(s' & t' & ->) G2]. split.
    + exists s', (match t' with Some _ => t' | None => t end). unfold with_intent_status. cbn. by destruct t', t.
    + intros Hx. rewrite G2; [by apply H2|]. by rewrite H2.
Qed.

(** Intents are under their id, one per user and key. *)
Definition intents_wf (d : DB) : Prop := indexed n_id (fun _ => true) (fun n => (n_userId n, n_intentKey n)) (intents d).

Record intent_rel (d d' : DB) : Prop := {
  nr_rows : rows_evolve intent_evolves (intents d) (intents d');
  nr_wf : intents_wf d -> intents_wf d' }.

#[export] Instance intent_rel_preorder : PreOrder intent_rel.
Proof.
  split; [split; [by intros id n Hn; exists n|done]|]. intros x y z [H1 H2] [G1 G2]. split; [|auto].
  intros id n Hn. destruct (H1 id n Hn) as (n1 & Hn1 & ?). destruct (G1 id n1 Hn1) as (n2 & ? & ?).
  exists n2. split; [done|by etransitivity].
Qed.

Lemma intent_cas_rel id status tradeId : guar intent_rel (intent_cas id status tradeId).
Proof.
  apply guar_op. intros d. cbn [fst].
  assert (forall n, intent_created n = true -> intent_evolves n (with_intent_status status tradeId n)) as Hev.
  { intros n Hn%bool_decide_eq_true. split; [by exists status, tradeId|done]. }
  destruct (update_row_evolve intent_evolves intent_created (with_intent_status status tradeId) id (intents d) Hev) as [H1 H2].
  split; [done|]. cbn. eapply indexed_evolve; [|exact H2]. intros n n' [(s & t & ->) _]. done.
Qed.

Lemma intent_insert_cases n d :
  (exists e, intent_insert_act n d = (d, Err e)) \/
  (intents d !! n_id n = None /\ find_row (has_intent_key (n_userId n) (n_intentKey n)) (intents d) = None /\
   intent_insert_act n d = (set_intents (<[n_id n := n]> (intents d)) d, Ok n)).
Proof.
  unfold intent_insert_act. case_bool_decide as Hid; [left; by eexists|]. case_bool_decide as Hk; [left; by eexists|].
  right. by rewrite <- eq_None_not_Some in Hid, Hk.
Qed.

Lemma has_intent_key_spec u k n : has_intent_key u k n = true <-> n_userId n = u /\ n_intentKey n = k.
Proof. unfold has_intent_key. by rewrite andb_true_iff, !bool_decide_eq_true. Qed.

Lemma intent_insert_rel n : guar intent_rel (op (intent_insert_act n)).
Proof.
  apply guar_op. intros d. destruct (intent_insert_cases n d) as [[e ->]|(Hid & Hk & ->)]; [done|]. split; cbn.
  - intros id x Hx. exists x. split; [|done]. rewrite lookup_insert_ne; [done|congruence].
  - intros Hwf. apply indexed_insert; [done| |done]. intros _ id x Hx _ Heq. rewrite find_row_none in Hk.
    specialize (Hk id x Hx). injection Heq as H1 H2. enough (has_intent_key (n_userId n) (n_intentKey n) x = true) by congruence.
    by apply has_intent_key_spec.
Qed.

(** ** Calls *)

Section calls.
Local Open Scope prog_scope.

Inductive intent_call :=
| IRecord (newId : string) (facts : TradeIntentFacts)
| IResolve (intentId userId : string)
| IResolveBySignal (userId signalId : string)
| IExecuted (intentId tradeId : string)
| IRejected (intentId : string)
| ISweep (time : Z).

(** A registration answers the registration, a resolution the intent. *)
Definition run_intent (c : intent_call) : io (option TradeIntentRegistration) :=
  match c with
  | IRecord newId f => let* r := recordOrReuseIntent newId f in Ret (Some r)
  | IResolve id u => let* n := resolveIntentForExecution id u in Ret (Some (mkRegistration false n))
  | IResolveBySignal u s => let* n := resolveIntentForExecutionBySignal u s in Ret (Some (mkRegistration false n))
  | IExecuted id t => do! markExecuted id t in Ret None
  | IRejected id => do! markRejected id in Ret None
  | ISweep t => do! expireStaleCreatedIntents t in Ret None
  end.
End calls.

Lemma guar_mark_all l : guar intent_rel (mark_all_expired l).
Proof. induction l as [|n l IH]; cbn [mark_all_expired]; [done|]. apply guar_bind; [apply intent_cas_rel|done]. Qed.

Lemma guar_assert n : guar intent_rel (assertIntentUsable n).
Proof. unfold assertIntentUsable. guar_walk. apply intent_cas_rel. Qed.

Lemma guar_intent c : guar intent_rel (run_intent c).
Proof.
  destruct c; cbn [run_intent]; unfold recordOrReuseIntent, findByKey, resolveIntentForExecution,
    resolveIntentForExecutionBySignal, findBySignal, findByKey, expireStaleCreatedIntents; guar_walk;
    first [apply intent_insert_rel|apply guar_assert|apply guar_mark_all|apply intent_cas_rel].
Qed.

(** What is answered is stored: the same decision. *)
Definition stands (n : TradeIntent) (d : DB) : Prop := exists id n', intents d !! id = Some n' /\ intent_evolves n n'.

Lemma stands_stable n : stable intent_rel (stands n).
Proof.
  intros d d' [Hd _] (id & x & Hx & He). destruct (Hd _ _ Hx) as (y & Hy & He'). exists id, y.
  split; [done|by etransitivity].
Qed.

Definition intent_answered (o : option TradeIntentRegistration) (d : DB) : Prop :=
  match o with Some r => stands (intent r) d | None => True end.

Abbreviation truthful := (knows DbUnavailable intent_rel).

Lemma find_stands u k d n : find_row (has_intent_key u k) (intents d) = Some n -> stands n d.
Proof. intros (id & Hid & _)%find_row_some. by exists id, n. Qed.

(** An answer of a row that was read. *)
Lemma truthful_read {B} (says : B -> DB -> Prop) (f : DB -> option TradeIntent) (k : option TradeIntent -> io B) :
  (forall d n, f d = Some n -> stands n d) ->
  (forall n, truthful says (stands n) (k (Some n))) -> truthful says (fun _ => True) (k None) ->
  truthful says (fun _ => True) (bind (sel f) k).
Proof.
  intros Hf Hs Hn. apply knows_op. intros d x _ [= <-]. cbn [fst]. destruct (f d) as [n|] eqn:E.
  - exists (stands n). split; [apply stands_stable|]. split; [by apply Hf|done].
  - exists (fun _ => True). done.
Qed.

Lemma knows_record newId f : truthful (fun r => stands (intent r)) (fun _ => True) (recordOrReuseIntent newId f).
Proof.
  unfold recordOrReuseIntent. apply knows_attempt_op.
  - intros d x _ Hx. destruct (intent_insert_cases (new_intent newId f) d) as [[e He]|(_ & _ & He)]; rewrite He in *; [done|].
    injection Hx as <-. exists (stands (new_intent newId f)). split; [apply stands_stable|]. split; [|by intros d' ?].
    eexists (n_id (new_intent newId f)), _. cbn. by rewrite lookup_insert_eq.
  - intros e. destruct (negb _); [done|]. apply truthful_read; [intros d n; apply find_stands|by intros n d ?|done].
Qed.

Lemma knows_usable n : truthful stands (stands n) (assertIntentUsable n).
Proof.
  unfold assertIntentUsable. destruct (negb _); [done|]. apply knows_op. intros d t Hn [= <-]. cbn [fst].
  destruct (_ <=? _); [|exists (stands n); split; [apply stands_stable|split; [done|by intros d' ?]]].
  exists (fun _ => True). split; [done|]. split; [done|]. by apply knows_bind_any.
Qed.

Lemma knows_resolve id u : truthful stands (fun _ => True) (resolveIntentForExecution id u).
Proof.
  unfold resolveIntentForExecution. apply truthful_read; [|apply knows_usable|done].
  intros d n. destruct (intents d !! id) as [x|] eqn:Hx; [|done]. case_bool_decide; [|done]. intros [= <-]. by exists id, x.
Qed.

Lemma knows_resolve_signal u s : truthful stands (fun _ => True) (resolveIntentForExecutionBySignal u s).
Proof.
  unfold resolveIntentForExecutionBySignal. apply truthful_read; [intros d n; apply find_stands|apply knows_usable|done].
Qed.

Lemma knows_intent c : truthful intent_answered (fun _ => True) (run_intent c).
Proof.
  destruct c; cbn [run_intent]; try by (apply knows_bind_any; intros []).
  - apply (knows_map _ _ intent_answered Some), knows_record.
  - apply (knows_map _ _ intent_answered (fun n => Some (mkRegistration false n))), knows_resolve.
  - apply (knows_map _ _ intent_answered (fun n => Some (mkRegistration false n))), knows_resolve_signal.
Qed.

(** ** The first registration *)

Section first.
Context (u key : string).

Definition recorded (d : DB) : bool := existsb (fun x => has_intent_key u key (snd x)) (map_to_list (intents d)).

Lemma recorded_spec d : recorded d = true <-> exists id n, intents d !! id = Some n /\ has_intent_key u key n = true.
Proof.
  unfold recorded. rewrite existsb_exists. split.
  - intros ([id n] & Hin & Hk). apply list_elem_of_In, elem_of_map_to_list in Hin. by exists id, n.
  - intros (id & n & Hn & Hk). exists (id, n). split; [by apply list_elem_of_In, elem_of_map_to_list|done].
Qed.

Lemma recorded_stays d d' : intent_rel d d' -> stays recorded d d'.
Proof.
  intros [Hd _] (id & n & Hn & Hk)%recorded_spec. apply recorded_spec. destruct (Hd _ _ Hn) as (n' & Hn' & [(s & t & ->) _]).
  by exists id, (with_intent_status s t n).
Qed.

(** A registration that created the intent of the key. *)
Definition creates (o : option TradeIntentRegistration) : bool :=
  match o with Some r => created r && has_intent_key u key (intent r) | None => false end.

Lemma needs_intent c : needs DbUnavailable recorded creates (run_intent c).
Proof.
  destruct c as [newId f| | | | |]; cbn [run_intent];
    [|try (by apply needs_bind_r; intros)..].
  apply (needs_map _ _ creates Some). unfold recordOrReuseIntent. cbn [op attempt bind].
  assert (forall e, needs DbUnavailable recorded (fun r => creates (Some r))
            (if negb (isUniqueViolation e) then Throw e
             else (let* x := findByKey (tf_userId f) (n_intentKey (new_intent newId f)) in
                   match x with Some x => Ret (mkRegistration false x) | None => Throw e end)%prog)) as Hretry.
  { intros e. destruct (negb _); [done|]. apply needs_bind_r. by intros [x|]. }
  split; [|exact (Hretry DbUnavailable)]. intros d. destruct (intent_insert_cases (new_intent newId f) d) as [[e ->]|(Hid & Hk & ->)].
  { right. exact (Hretry e). }
  destruct (has_intent_key u key (new_intent newId f)) eqn:Hmine; [left|right; cbn; exact Hmine].
  pose proof Hmine as [Hu Hky]%has_intent_key_spec. rewrite Hu, Hky in Hk. split.
  - destruct (recorded d) eqn:E; [|done]. apply recorded_spec in E as (id & n & Hn & Hx).
    rewrite find_row_none in Hk. specialize (Hk id n Hn). by rewrite Hx in Hk.
  - apply recorded_spec. exists (n_id (new_intent newId f)), (new_intent newId f). cbn. by rewrite lookup_insert_eq.
Qed.
End first.

(** ** Claims *)

(** one intent per decision.  Whatever registrations, resolutions, completions and sweeps run
    together, under any interleaving and any lost statements or acknowledgements: a stored
    intent keeps its decision, leaves [CREATED] at most once and never changes after that, the
    trade it is bound to included; two answers given to one user for one signal are of the same
    stored intent; and at most one registration created it, only when there was none before. *)
Theorem intent_once calls sched d :
  intents_wf d ->
  let c := exec DbUnavailable sched (d, run_intent <$> calls) in
  rows_evolve intent_evolves (intents d) (intents (fst c)) /\
  (forall i j a b, snd c !! i = Some (Ret (Some a)) -> snd c !! j = Some (Ret (Some b)) ->
     n_userId (intent a) = n_userId (intent b) -> n_intentKey (intent a) = n_intentKey (intent b) ->
     exists n, intents (fst c) !! n_id n = Some n /\ intent_evolves (intent a) n /\ intent_evolves (intent b) n) /\
  (forall u key i j, winner (creates u key) c i -> winner (creates u key) c j -> i = j /\ recorded u key d = false).
Proof.
  intros Hwf. cbv zeta. set (c := exec _ _ _).
  assert (Forall (guar intent_rel) (run_intent <$> calls)) as Hg by (apply Forall_fmap, Forall_true, guar_intent).
  pose proof (exec_guar DbUnavailable intent_rel sched (d, run_intent <$> calls) Hg) as [Hrows Hwf'].
  specialize (Hwf' Hwf). fold c in Hrows, Hwf'. cbn [fst] in Hrows, Hwf'.
  split; [done|]. split.
  - assert (forall i a, snd c !! i = Some (Ret (Some a)) -> stands (intent a) (fst c)) as Hs.
    { intros i a Hi. apply (answers_hold DbUnavailable intent_rel intent_answered sched (d, run_intent <$> calls) i (Some a) Hg); [|done].
      apply Forall_fmap, Forall_true, knows_intent. }
    intros i j a b (id & x & Hx & Hax)%Hs (id' & y & Hy & Hby)%Hs Hu Hk.
    assert (forall n n', intent_evolves n n' -> n_id n' = n_id n /\ n_userId n' = n_userId n /\ n_intentKey n' = n_intentKey n)
      as Hkeep by by intros n n' [(s & t & ->) _].
    pose proof (Hkeep _ _ Hax) as (_ & Hux & Hkx). pose proof (Hkeep _ _ Hby) as (_ & Huy & Hky).
    destruct Hwf' as [Hid Hslot]. assert (id = id') as <-.
    { apply (Hslot _ _ _ _ Hx Hy); [done|done|]. congruence. }
    rewrite Hx in Hy. injection Hy as <-. exists x. rewrite (Hid _ _ Hx). done.
  - intros u key i j Hi Hj.
    destruct (one_shot DbUnavailable (recorded u key) (creates u key) sched (d, run_intent <$> calls)) as [Hu Hk].
    + eapply Forall_impl; [exact Hg|]. intros p. apply guar_weaken, recorded_stays.
    + apply Forall_fmap, Forall_true, needs_intent.
    + split; [by apply Hu|by apply (Hk i)].
Qed.

(** The same signal delivered twice: the loser of the insert is given the winner's intent,
    which an execution then takes. *)
Definition sample_facts : TradeIntentFacts :=
  mkFacts "u1" "s1" 1000 "b1" (Some "acc1") (Some "ses1") (Some "trend") None None "EURUSD" "BUY" "0.5" (Some "0")
    None None None None 1 None None None.

Lemma intent_once_witness :
  let calls := [IRecord "n1" sample_facts; IRecord "n2" sample_facts; IExecuted "n1" "t1"] in
  let sched := [(0%nat, Exec); (1%nat, Exec); (2%nat, Exec); (1%nat, Exec)] in
  let c := exec DbUnavailable sched (empty_db 1000, run_intent <$> calls) in
  winner (creates "u1" "u1:s1") c 0 /\ ~ winner (creates "u1" "u1:s1") c 1 /\
  exists b n, snd c !! 1%nat = Some (Ret (Some b)) /\ created b = false /\ intents (fst c) !! n_id n = Some n /\
    intent_evolves (intent b) n /\ n_status n = Intent.EXECUTED /\ n_tradeId n = Some "t1".
Proof.
  intros calls sched c. assert (intents_wf (empty_db 1000)) as Hwf by by split.
  destruct (intent_once calls sched (empty_db 1000) Hwf) as (_ & Hsame & Hone).
  assert (winner (creates "u1" "u1:s1") c 0) as Hw by (eexists; split; vm_compute; reflexivity).
  split; [exact Hw|]. split; [intros H1; discriminate (proj1 (Hone _ _ _ _ Hw H1))|].
  destruct (Hsame 0%nat 1%nat (mkRegistration true (new_intent "n1" sample_facts))
              (mkRegistration false (with_intent_status Intent.EXECUTED (Some "t1") (new_intent "n1" sample_facts))))
    as (n & Hn & _ & Hb); [vm_compute; reflexivity..|].
  eexists _, n. split; [vm_compute; reflexivity|]. split; [done|]. split; [exact Hn|]. split; [exact Hb|].
  destruct Hb as [_ Hs]. rewrite (Hs ltac:(done)). done.
Defined.
