(* ===== verification/Sums.v ===== *)
(** * Sums over a table

    [SELECT SUM(f) FROM m] of integers: the sum of [f] over the rows of a finite map, how it
    moves when one row is inserted or updated, and when the rows are those of another table
    with smaller summands. *)

From S2P Require Import Prelude.

Section lists.
Context {A : Type}.

Definition lsum (f : A -> Z) (l : list A) : Z := foldr (fun x n => f x + n) 0 l.

Lemma lsum_app f l l' : lsum f (l ++ l') = lsum f l + lsum f l'.
Proof. induction l as [|x l IH]; simpl; lia. Qed.

#[global] Instance lsum_perm f : Proper ((≡ₚ) ==> eq) (lsum f).
Proof. induction 1; simpl; lia. Qed.

Lemma lsum_ext f g l : (forall x, x ∈ l -> f x = g x) -> lsum f l = lsum g l.
Proof.
  induction l as [|x l IH]; simpl; [done|]. intros H. rewrite (H x) by by left. rewrite IH; [done|].
  intros y Hy. apply H. by right.
Qed.

Lemma lsum_add f g l : lsum (fun x => f x + g x) l = lsum f l + lsum g l.
Proof. induction l as [|x l IH]; simpl; lia. Qed.

Lemma lsum_nonneg f l : (forall x, 0 <= f x) -> 0 <= lsum f l.
Proof. intros H. induction l as [|x l IH]; simpl; [done|]. specialize (H x). lia. Qed.

Lemma lsum_const c f l : (forall x, f x = c) -> lsum f l = c * Z.of_nat (length l).
Proof. intros H. induction l as [|x l IH]; simpl; [lia|]. rewrite H. lia. Qed.

Lemma lsum_scale c f l : lsum (fun x => c * f x) l = c * lsum f l.
Proof. induction l as [|x l IH]; simpl; lia. Qed.
End lists.

Lemma lsum_map {A B} (f : B -> Z) (g : A -> B) l : lsum f (map g l) = lsum (fun x => f (g x)) l.
Proof. induction l as [|x l IH]; simpl; lia. Qed.

Lemma lsum_flat_map {A B} (f : B -> Z) (g : A -> list B) l :
  lsum f (flat_map g l) = lsum (fun x => lsum f (g x)) l.
Proof. induction l as [|x l IH]; simpl; [done|]. rewrite lsum_app. lia. Qed.

Section tables.
Context {K : Type} `{!EqDecision K, !Countable K} {R : Type}.

Definition msum (f : R -> Z) (m : gmap K R) : Z := lsum (fun e => f (snd e)) (map_to_list m).

Lemma msum_empty f : msum f ∅ = 0.
Proof. unfold msum. by rewrite map_to_list_empty. Qed.

Lemma msum_insert f k r m : m !! k = None -> msum f (<[k := r]> m) = f r + msum f m.
Proof. intros Hk. unfold msum. by rewrite map_to_list_insert. Qed.

Lemma msum_delete f k r m : m !! k = Some r -> msum f m = f r + msum f (delete k m).
Proof. intros Hk. rewrite <- (insert_delete_id m k r) at 1 by done. apply msum_insert, lookup_delete_eq. Qed.

Lemma msum_nonneg f m : (forall k r, m !! k = Some r -> 0 <= f r) -> 0 <= msum f m.
Proof.
  induction m as [|k r m Hk IH] using map_ind; intros Hf; [by rewrite msum_empty|]. rewrite msum_insert by done.
  specialize (Hf k r ltac:(apply lookup_insert_eq)) as Hr. enough (0 <= msum f m) by lia. apply IH.
  intros k0 r0 H0. apply (Hf k0). rewrite lookup_insert_ne; [done|congruence].
Qed.

(** Every row of [m'] is one of [m] with a summand no smaller there. *)
Lemma msum_le f f' m m' :
  (forall k r, m !! k = Some r -> 0 <= f r) -> (forall k r', m' !! k = Some r' -> exists r, m !! k = Some r /\ f' r' <= f r) ->
  msum f' m' <= msum f m.
Proof.
  revert m. induction m' as [|k r' m' Hk IH] using map_ind; intros m Hf Hm.
  - rewrite msum_empty. by apply msum_nonneg.
  - rewrite msum_insert by done. destruct (Hm k r' ltac:(apply lookup_insert_eq)) as (r & Hr & Hle).
    rewrite (msum_delete f k r m Hr). enough (msum f' m' <= msum f (delete k m)) by lia.
    apply IH; [intros k0 r0 [_ H0]%lookup_delete_Some; by apply (Hf k0)|]. intros k0 r0 H0. assert (k <> k0) by congruence.
    destruct (Hm k0 r0) as (x & Hx & ?); [by rewrite lookup_insert_ne|]. exists x. by rewrite lookup_delete_ne.
Qed.

Lemma msum_ext f g m : (forall k r, m !! k = Some r -> f r = g r) -> msum f m = msum g m.
Proof. intros H. apply lsum_ext. intros [k r] Hin%elem_of_map_to_list. by apply (H k). Qed.

(** At least the summand of a row. *)
Lemma msum_ge f k r m : (forall k r, m !! k = Some r -> 0 <= f r) -> m !! k = Some r -> f r <= msum f m.
Proof.
  intros Hf Hr. rewrite (msum_delete f k r m Hr). enough (0 <= msum f (delete k m)) by lia. apply msum_nonneg.
  intros k0 r0 [_ H0]%lookup_delete_Some. by apply (Hf k0).
Qed.
End tables.
