(* ===== verification/Capital.v ===== *)
(** * Capital commitments ([execution/services/allocation.service.ts], the aggregate)

    [aggregateActiveAllocations]: the join of a scope's active allocations with their intents
    and trades, and the buckets of exact decimal text the service adds up from its rows;
    [numeric_column], what PostgreSQL stores of a decimal text.  The aggregate is proved to be
    the exact sums over the join, and [committed], their total, to be what the statements of
    other components can only lower. *)

From S2P Require Import Prelude Prog StateMachines JsString Decimal DecimalSpecs JsMap Store OrderService Sums.
From Stdlib Require Import QArith.
Open Scope string_scope.
Open Scope list_scope.
Open Scope Z_scope.

(** ** Decimals in columns *)

Definition exact {A} (r : edres A) : result exn A := match r with Ok a => Ok a | Err _ => Err MalformedDecimal end.

(** A decimal in units of [10^-sc], ties away from zero. *)
Definition to_units (sc : Z) (d : ED) : Z :=
  if scale d <=? sc then unscaled d * 10 ^ (sc - scale d) else quantizedDivide (unscaled d) (10 ^ (scale d - sc)) HALF_UP.

(** A decimal text entering a numeric(p,sc) column. *)
Definition numeric_column (p sc : Z) (raw : string) : result exn Z :=
  match tryParse_text raw with
  | None => Err MalformedDecimal
  | Some d => let v := to_units sc d in if Z.abs v <? 10 ^ p then Ok v else Err NumericOverflow
  end.

(** ** The join *)

(** One row of the [LEFT JOIN]s: an allocation, the status of its intent and of a trade. *)
Record Joined := mkJoined {
  j_allocation : CapitalAllocation; j_intent : option Intent.TradeIntentStatus; j_trade : option Trade.TradeStatus }.

Definition of_intent (intentId : string) (t : TradeRow) : bool := bool_decide (t_tradeIntentId t = Some intentId).

Definition trades_of (intentId : string) (d : DB) : list TradeRow :=
  List.filter (of_intent intentId) (map snd (map_to_list (trades d))).

Definition joined (d : DB) (a : CapitalAllocation) : list Joined :=
  let i := n_status <$> intents d !! ca_tradeIntentId a in
  match trades_of (ca_tradeIntentId a) d with
  | [] => [mkJoined a i None]
  | ts => map (fun t => mkJoined a i (Some (t_status t))) ts
  end.

Definition active_in (userId logicalAccountKey : string) (a : CapitalAllocation) : bool :=
  bool_decide (ca_userId a = userId) && bool_decide (ca_logicalAccountKey a = logicalAccountKey) && ca_active a.

Definition aggregate_rows (userId logicalAccountKey : string) (d : DB) : list Joined :=
  flat_map (fun e => if active_in userId logicalAccountKey (snd e) then joined d (snd e) else []) (map_to_list (allocations d)).

(** ** The buckets *)

Record AggregateBuckets := mkBuckets {
  inFlight : string; pendingOrders : string; openPositions : string;
  byInstrument : jsmap (string * string); byStrategy : jsmap string; byDirection : jsmap string }.

Definition EMPTY_BUCKET : string * string := ("0", "0").

Section results.
Local Open Scope result_scope.

(** [ExactDecimal.parse(a).add(ExactDecimal.parse(b)).toString()]. *)
Definition add_text (a b : string) : result exn string :=
  try! x := exact (parse_text a) in
  try! y := exact (parse_text b) in
  try! s := exact (add x y) in
  Ok (text s).

Definition addTo (m : jsmap string) (key value : string) : result exn (jsmap string) :=
  try! s := add_text (default "0" (jget key m)) value in Ok (jset key s m).

(** The bucket of a row, its new content; [None]: the row does not count. *)
Definition place (b : AggregateBuckets) (capital : string) (intent : option Intent.TradeIntentStatus)
    (trade : option Trade.TradeStatus) : result exn (option AggregateBuckets) :=
  match trade with
  | Some Trade.PENDING =>
      try! s := add_text (pendingOrders b) capital in
      Ok (Some (mkBuckets (inFlight b) s (openPositions b) (byInstrument b) (byStrategy b) (byDirection b)))
  | Some Trade.OPEN | Some Trade.RECONCILIATION_PENDING =>
      try! s := add_text (openPositions b) capital in
      Ok (Some (mkBuckets (inFlight b) (pendingOrders b) s (byInstrument b) (byStrategy b) (byDirection b)))
  | Some _ => Ok None
  | None =>
      if bool_decide (intent = Some Intent.CREATED) then
        try! s := add_text (inFlight b) capital in
        Ok (Some (mkBuckets s (pendingOrders b) (openPositions b) (byInstrument b) (byStrategy b) (byDirection b)))
      else Ok None
  end.

Definition add_row (b : AggregateBuckets) (j : Joined) : result exn AggregateBuckets :=
  let a := j_allocation j in
  let capital := numeric_out 8 (ca_allocatedCapital a) in
  let lots := numeric_out 4 (ca_allocatedLots a) in
  try! placed := place b capital (j_intent j) (j_trade j) in
  match placed with
  | None => Ok b
  | Some b =>
      let bucket := default EMPTY_BUCKET (jget (ca_instrument a) (byInstrument b)) in
      try! c := add_text bucket.1 capital in
      try! l := add_text bucket.2 lots in
      try! strategies := (match ca_strategyCode a with Some s => addTo (byStrategy b) s capital | None => Ok (byStrategy b) end) in
      try! directions := addTo (byDirection b) (ca_direction a) capital in
      Ok (mkBuckets (inFlight b) (pendingOrders b) (openPositions b) (jset (ca_instrument a) (c, l) (byInstrument b))
            strategies directions)
  end.

Fixpoint add_rows (b : AggregateBuckets) (rows : list Joined) : result exn AggregateBuckets :=
  match rows with
  | [] => Ok b
  | j :: rows => try! b := add_row b j in add_rows b rows
  end.

(** [{ committed, ...buckets }]. *)
Definition aggregate_of (rows : list Joined) : result exn (string * AggregateBuckets) :=
  try! b := add_rows (mkBuckets "0" "0" "0" [] [] []) rows in
  try! i := exact (parse_text (inFlight b)) in
  try! p := exact (parse_text (pendingOrders b)) in
  try! s := exact (add i p) in
  try! o := exact (parse_text (openPositions b)) in
  try! c := exact (add s o) in
  Ok (text c, b).
End results.

Definition aggregateActiveAllocations (userId logicalAccountKey : string) : io (string * AggregateBuckets) :=
  (let* rows := sel (aggregate_rows userId logicalAccountKey) in of_result (aggregate_of rows))%prog.

(** ** Exact decimals of column values *)

(** The decimal that [v] units of [10^-sc] denote. *)
Definition units (sc v : Z) : ED := match normalize (mkED v sc) with Ok d => d | Err _ => ZERO end.

Lemma exact_ok {A} (r : edres A) x : exact r = Ok x -> r = Ok x.
Proof. destruct r; [by intros [= ->]|done]. Qed.

Section units.
Context (sc : Z) (Hsc : 0 <= sc <= MAX_SCALE).

Lemma normalize_units v : normalize (mkED v sc) = Ok (units sc v).
Proof using Hsc. unfold units. by destruct (normalize_total (mkED v sc) Hsc) as (d & -> & _). Qed.

Lemma units_spec v : canonical (units sc v) /\ (toQ (units sc v) == toQ (mkED v sc))%Q.
Proof using Hsc. apply normalize_ok; [apply Hsc|apply normalize_units]. Qed.

Lemma parse_out v : parse_text (numeric_out sc v) = Ok (units sc v).
Proof using Hsc.
  unfold parse_text, numeric_out. rewrite chars_of_string_of. cbn [parse]. rewrite parse_toString by done.
  apply normalize_units.
Qed.

Lemma parse_units v : parse_text (text (units sc v)) = Ok (units sc v).
Proof using Hsc.
  unfold parse_text, text. rewrite chars_of_string_of. cbn [parse]. destruct (units_spec v) as [Hc _].
  rewrite parse_toString by by apply canonical_scale. by apply normalize_canonical.
Qed.

Lemma toQ_plus a b : (toQ (mkED a sc) + toQ (mkED b sc) == toQ (mkED (a + b) sc))%Q.
Proof. unfold toQ, Qeq. cbn. lia. Qed.

Lemma add_units a b : add (units sc a) (units sc b) = Ok (units sc (a + b)).
Proof using Hsc.
  destruct (units_spec a) as [Ca Qa], (units_spec b) as [Cb Qb], (units_spec (a + b)) as [Cs Qs].
  destruct (add_spec _ _ Ca Cb) as (s & -> & Hc & Hq). f_equal. apply canonical_unique; [done|done|].
  by rewrite Hq, Qs, Qa, Qb, toQ_plus.
Qed.

Lemma add_out a b : add_text (text (units sc a)) (numeric_out sc b) = Ok (text (units sc (a + b))).
Proof using Hsc. unfold add_text. rewrite parse_units, parse_out. cbn. by rewrite add_units. Qed.

Lemma units_zero : text (units sc 0) = "0".
Proof using Hsc.
  destruct (units_spec 0) as [Hc Hq]. assert (units sc 0 = ZERO) as ->; [|done].
  apply canonical_unique; [done|apply whole_canonical|]. rewrite Hq. unfold toQ, Qeq. cbn. lia.
Qed.
End units.

Abbreviation capital_text v := (text (units 8 v)).
Abbreviation lots_text v := (text (units 4 v)).

Lemma scale8 : 0 <= 8 <= MAX_SCALE.
Proof. unfold MAX_SCALE. lia. Qed.
Lemma scale4 : 0 <= 4 <= MAX_SCALE.
Proof. unfold MAX_SCALE. lia. Qed.

(** Rounding to a column keeps both sides of a column value. *)
Lemma to_units_between sc d x :
  0 <= sc -> 0 <= scale d ->
  ((toQ d <= toQ (mkED x sc))%Q -> to_units sc d <= x) /\ ((toQ (mkED x sc) <= toQ d)%Q -> x <= to_units sc d).
Proof.
  intros Hsc Hd. unfold to_units, toQ, Qle. cbn. rewrite !Z2Pos.id by auto with irex.
  destruct (Z.leb_spec (scale d) sc) as [Hle|Hgt].
  - rewrite (pow10_split (scale d) sc) by lia. set (p := 10 ^ scale d). set (q := 10 ^ (sc - scale d)).
    assert (0 < p) by (apply pow10_pos; lia). split; intros Hv; apply (Z.mul_le_mono_pos_r _ _ p); lia.
  - rewrite (pow10_split sc (scale d)) by lia. set (p := 10 ^ sc). set (q := 10 ^ (scale d - sc)).
    assert (0 < p) by (apply pow10_pos; lia). assert (0 < q) by (apply pow10_pos; lia).
    destruct (quantizedDivide_rounds (unscaled d) q HALF_UP ltac:(lia)) as [_ [Hn _]]. unfold nearest in Hn.
    set (v := quantizedDivide _ _ _) in *. rewrite (Z.abs_eq q) in Hn by lia.
    split; intros Hv.
    + assert (unscaled d <= x * q) as Hx by (apply (Z.mul_le_mono_pos_r _ _ p); lia). assert (2 * (v * q) <= 2 * (x * q) + q) by lia. nia.
    + assert (x * q <= unscaled d) as Hx by (apply (Z.mul_le_mono_pos_r _ _ p); lia). assert (2 * (x * q) <= 2 * (v * q) + q) by lia. nia.
Qed.

(** ** What the buckets hold *)

Definition in_flight (j : Joined) : bool := bool_decide (j_trade j = None) && bool_decide (j_intent j = Some Intent.CREATED).
Definition pending_order (j : Joined) : bool := bool_decide (j_trade j = Some Trade.PENDING).
Definition open_position (j : Joined) : bool :=
  bool_decide (j_trade j = Some Trade.OPEN) || bool_decide (j_trade j = Some Trade.RECONCILIATION_PENDING).
Definition counted (j : Joined) : bool := in_flight j || pending_order j || open_position j.

Definition capital_sum (p : Joined -> bool) : list Joined -> Z :=
  lsum (fun j => if p j then ca_allocatedCapital (j_allocation j) else 0).
Definition lots_sum (p : Joined -> bool) : list Joined -> Z :=
  lsum (fun j => if p j then ca_allocatedLots (j_allocation j) else 0).

(** The counted rows of one instrument, strategy or direction. *)
Definition keyed (key : CapitalAllocation -> option string) (s : string) (j : Joined) : bool :=
  counted j && bool_decide (key (j_allocation j) = Some s).
Definition instrument_key (a : CapitalAllocation) : option string := Some (ca_instrument a).
Definition direction_key (a : CapitalAllocation) : option string := Some (ca_direction a).

Lemma keyed_own key s j : counted j = true -> key (j_allocation j) = Some s -> keyed key s j = true.
Proof. intros Hc Hs. unfold keyed. by rewrite Hc, Hs, bool_decide_eq_true_2. Qed.

Lemma capital_sum_snoc p rows j :
  capital_sum p (rows ++ [j]) = capital_sum p rows + if p j then ca_allocatedCapital (j_allocation j) else 0.
Proof. unfold capital_sum. rewrite lsum_app. cbn. lia. Qed.

Lemma lots_sum_snoc p rows j :
  lots_sum p (rows ++ [j]) = lots_sum p rows + if p j then ca_allocatedLots (j_allocation j) else 0.
Proof. unfold lots_sum. rewrite lsum_app. cbn. lia. Qed.

Lemma sum_none (f : CapitalAllocation -> Z) (p : Joined -> bool) rows :
  existsb p rows = false -> lsum (fun j => if p j then f (j_allocation j) else 0) rows = 0.
Proof.
  intros Hp. rewrite (lsum_ext _ (fun _ => 0)); [by rewrite (lsum_const 0)|]. intros j Hj.
  destruct (p j) eqn:E; [|done]. assert (existsb p rows = true) as Hx; [|congruence].
  apply existsb_exists. exists j. split; [by apply list_elem_of_In|done].
Qed.

Lemma capital_sum_none p rows : existsb p rows = false -> capital_sum p rows = 0.
Proof. apply sum_none. Qed.

Lemma lots_sum_none p rows : existsb p rows = false -> lots_sum p rows = 0.
Proof. apply sum_none. Qed.

(** A map holding, per key, a value of its rows. *)
Section described.
Context {V : Type} (val : (Joined -> bool) -> list Joined -> V) (key : CapitalAllocation -> option string).

Definition described (m : jsmap V) (rows : list Joined) : Prop :=
  forall s, jget s m = if existsb (keyed key s) rows then Some (val (keyed key s) rows) else None.

Context (val_skip : forall p rows j, p j = false -> val p (rows ++ [j]) = val p rows).

Lemma described_keep m rows j :
  described m rows -> (forall s, keyed key s j = false) -> described m (rows ++ [j]).
Proof using val_skip. intros Hm Hj s. rewrite Hm, existsb_app. cbn. by rewrite Hj, orb_false_r, val_skip by apply Hj. Qed.

Lemma described_set m rows j s :
  described m rows -> counted j = true -> key (j_allocation j) = Some s ->
  described (jset s (val (keyed key s) (rows ++ [j])) m) (rows ++ [j]).
Proof using val_skip.
  intros Hm Hc Hs s'. rewrite jget_set, existsb_app. cbn. unfold keyed at 3. rewrite Hc, Hs, orb_false_r.
  case_bool_decide as Hss; [subst; by rewrite bool_decide_eq_true_2, orb_true_r|]. rewrite Hm.
  rewrite bool_decide_eq_false_2 by congruence. cbn. rewrite orb_false_r, val_skip; [done|].
  unfold keyed. rewrite Hs, Hc, bool_decide_eq_false_2 by congruence. done.
Qed.
End described.

Definition capital_value (p : Joined -> bool) (rows : list Joined) : string := capital_text (capital_sum p rows).
Definition instrument_value (p : Joined -> bool) (rows : list Joined) : string * string :=
  (capital_text (capital_sum p rows), lots_text (lots_sum p rows)).

Lemma capital_value_skip p rows j : p j = false -> capital_value p (rows ++ [j]) = capital_value p rows.
Proof. intros Hj. unfold capital_value. by rewrite capital_sum_snoc, Hj, Z.add_0_r. Qed.

Lemma instrument_value_skip p rows j : p j = false -> instrument_value p (rows ++ [j]) = instrument_value p rows.
Proof. intros Hj. unfold instrument_value. by rewrite capital_sum_snoc, lots_sum_snoc, Hj, !Z.add_0_r. Qed.

Record holds (b : AggregateBuckets) (rows : list Joined) : Prop := {
  hd_inFlight : inFlight b = capital_text (capital_sum in_flight rows);
  hd_pending : pendingOrders b = capital_text (capital_sum pending_order rows);
  hd_open : openPositions b = capital_text (capital_sum open_position rows);
  hd_instrument : described instrument_value instrument_key (byInstrument b) rows;
  hd_strategy : described capital_value ca_strategyCode (byStrategy b) rows;
  hd_direction : described capital_value direction_key (byDirection b) rows }.

Lemma holds_nothing : holds (mkBuckets "0" "0" "0" [] [] []) [].
Proof. by split; cbn; rewrite ?(units_zero 8 scale8). Qed.

Lemma addTo_described key m rows j s :
  described capital_value key m rows -> counted j = true -> key (j_allocation j) = Some s ->
  exists m', addTo m s (numeric_out 8 (ca_allocatedCapital (j_allocation j))) = Ok m' /\ described capital_value key m' (rows ++ [j]).
Proof.
  intros Hm Hc Hs. eexists. split; [|by apply (described_set capital_value key capital_value_skip m rows j s)].
  unfold addTo. assert (default "0" (jget s m) = capital_text (capital_sum (keyed key s) rows)) as ->.
  { rewrite Hm. destruct (existsb _ rows) eqn:E; [done|]. cbn. by rewrite capital_sum_none, (units_zero 8 scale8). }
  rewrite (add_out 8 scale8). cbn. do 3 f_equal. unfold capital_value. by rewrite capital_sum_snoc, keyed_own.
Qed.

(** One row. *)
Lemma uncounted_keyed key s j : counted j = false -> keyed key s j = false.
Proof. unfold keyed. by intros ->. Qed.

Lemma place_holds b rows j :
  holds b rows ->
  exists placed, place b (numeric_out 8 (ca_allocatedCapital (j_allocation j))) (j_intent j) (j_trade j) = Ok placed /\
    match placed with
    | None => counted j = false
    | Some b' =>
        counted j = true /\ byInstrument b' = byInstrument b /\ byStrategy b' = byStrategy b /\ byDirection b' = byDirection b /\
        inFlight b' = capital_text (capital_sum in_flight (rows ++ [j])) /\
        pendingOrders b' = capital_text (capital_sum pending_order (rows ++ [j])) /\
        openPositions b' = capital_text (capital_sum open_position (rows ++ [j]))
    end.
Proof.
  intros [Hi Hp Ho _ _ _]. rewrite !capital_sum_snoc. destruct j as [a i t]. cbn [j_allocation j_intent j_trade].
  unfold place, counted, in_flight, pending_order, open_position. cbn [j_intent j_trade].
  destruct t as [[]|]; [..|case_bool_decide as Hc]; rewrite ?Hi, ?Hp, ?Ho, ?(add_out 8 scale8); cbn;
    (eexists; split; [reflexivity|]); cbn; rewrite ?Hi, ?Hp, ?Ho, ?Z.add_0_r; try done.
Qed.

Lemma add_row_holds b rows j : holds b rows -> exists b', add_row b j = Ok b' /\ holds b' (rows ++ [j]).
Proof.
  intros Hh. pose proof Hh as [Hi Hp Ho HI HS HD]. unfold add_row.
  destruct (place_holds b rows j Hh) as ([b'|] & -> & Hb); cbn [rbind].
  2:{ exists b. split; [done|]. assert (in_flight j = false /\ pending_order j = false /\ open_position j = false) as (E1 & E2 & E3)
        by (unfold counted in Hb; bool_to_prop; done).
      split; rewrite ?capital_sum_snoc, ?E1, ?E2, ?E3, ?Z.add_0_r; try done; apply described_keep; try done;
        intros; by first [apply instrument_value_skip|apply capital_value_skip|apply uncounted_keyed]. }
  destruct Hb as (Hc & EI & ES & ED & Ei & Ep & Eo). rewrite EI, ES, ED.
  set (a := j_allocation j) in *.
  assert (default EMPTY_BUCKET (jget (ca_instrument a) (byInstrument b)) =
          instrument_value (keyed instrument_key (ca_instrument a)) rows) as ->.
  { rewrite HI. destruct (existsb _ rows) eqn:E; [done|]. cbn. unfold instrument_value.
    by rewrite capital_sum_none, lots_sum_none, (units_zero 8 scale8), (units_zero 4 scale4). }
  unfold instrument_value at 1 2. cbn [fst snd]. rewrite (add_out 8 scale8), (add_out 4 scale4). cbn [rbind].
  destruct (addTo_described direction_key (byDirection b) rows j (ca_direction a) HD Hc eq_refl) as (md & Emd & Hmd). fold a in Emd.
  assert (exists ms, (match ca_strategyCode a with Some s => addTo (byStrategy b) s (numeric_out 8 (ca_allocatedCapital a))
                      | None => Ok (byStrategy b) end) = Ok ms /\ described capital_value ca_strategyCode ms (rows ++ [j])) as (ms & Ems & Hms).
  { destruct (ca_strategyCode a) as [s|] eqn:Es.
    - by apply addTo_described.
    - exists (byStrategy b). split; [done|]. apply described_keep; [apply capital_value_skip|done|].
      intros s. unfold keyed. fold a. by rewrite Es, andb_false_r. }
  rewrite Ems. cbn [rbind]. rewrite Emd. cbn [rbind]. eexists. split; [reflexivity|].
  split; cbn; try done.
  pose proof (described_set instrument_value instrument_key instrument_value_skip _ rows j (ca_instrument a) HI Hc eq_refl) as Hx.
  unfold instrument_value in Hx at 2. by rewrite capital_sum_snoc, lots_sum_snoc, keyed_own in Hx.
Qed.

Lemma add_rows_holds b rows more : holds b rows -> exists b', add_rows b more = Ok b' /\ holds b' (rows ++ more).
Proof.
  revert b rows. induction more as [|j more IH]; intros b rows Hb.
  - exists b. by rewrite app_nil_r.
  - destruct (add_row_holds b rows j Hb) as (b1 & E & Hb1). cbn. rewrite E. cbn.
    destruct (IH b1 (rows ++ [j]) Hb1) as (b' & ? & ?). exists b'. by rewrite <- app_assoc in *.
Qed.

Lemma counted_total rows :
  capital_sum in_flight rows + capital_sum pending_order rows + capital_sum open_position rows = capital_sum counted rows.
Proof.
  unfold capital_sum. rewrite <- !lsum_add. apply lsum_ext. intros j _.
  unfold counted, in_flight, pending_order, open_position. destruct (j_trade j) as [[]|]; cbn; repeat case_bool_decide; cbn; done || lia.
Qed.

Lemma aggregate_holds rows :
  exists b, aggregate_of rows = Ok (capital_text (capital_sum counted rows), b) /\ holds b rows.
Proof.
  destruct (add_rows_holds _ [] rows holds_nothing) as (b & E & Hb). exists b. split; [|done]. unfold aggregate_of. rewrite E. cbn [rbind].
  rewrite (hd_inFlight _ _ Hb), (hd_pending _ _ Hb), (hd_open _ _ Hb), !(parse_units 8 scale8). cbn [exact rbind].
  rewrite (add_units 8 scale8). cbn [exact rbind]. rewrite (add_units 8 scale8). cbn [exact rbind]. by rewrite counted_total.
Qed.

(** ** The total, from the tables *)

(** How often an allocation counts. *)
Definition live (intentId : string) (t : TradeRow) : bool :=
  of_intent intentId t && negb (Trade.isTerminal (Known (t_status t))).

Definition weight (d : DB) (intentId : string) : Z :=
  if bool_decide (trades_of intentId d = []) then
    if bool_decide (n_status <$> intents d !! intentId = Some Intent.CREATED) then 1 else 0
  else msum (fun t => Z.b2z (live intentId t)) (trades d).

Definition commits (userId logicalAccountKey : string) (d : DB) (a : CapitalAllocation) : Z :=
  if active_in userId logicalAccountKey a then ca_allocatedCapital a * weight d (ca_tradeIntentId a) else 0.

Definition committed (userId logicalAccountKey : string) (d : DB) : Z :=
  msum (commits userId logicalAccountKey d) (allocations d).

Lemma filter_sum {A} (p : A -> bool) (f : A -> Z) l : lsum f (List.filter p l) = lsum (fun x => if p x then f x else 0) l.
Proof. unfold lsum. induction l as [|x l IH]; simpl; [done|]. destruct (p x); simpl; lia. Qed.

Lemma live_trades id d :
  lsum (fun t => Z.b2z (negb (Trade.isTerminal (Known (t_status t))))) (trades_of id d) = msum (fun t => Z.b2z (live id t)) (trades d).
Proof.
  unfold trades_of, msum. rewrite filter_sum, lsum_map. apply lsum_ext. intros [k t] _. cbn. unfold live.
  by destruct (of_intent id t).
Qed.

Lemma counted_trade a i s : counted (mkJoined a i (Some s)) = negb (Trade.isTerminal (Known s)).
Proof. by destruct s. Qed.

Lemma joined_sum d a : capital_sum counted (joined d a) = ca_allocatedCapital a * weight d (ca_tradeIntentId a).
Proof.
  unfold joined, weight. rewrite <- live_trades. destruct (trades_of _ d) as [|t ts] eqn:E.
  - unfold capital_sum. cbn [lsum foldr j_allocation]. unfold counted, in_flight, pending_order, open_position. cbn.
    rewrite !orb_false_r. case_bool_decide; lia.
  - rewrite bool_decide_eq_false_2 by done. generalize (t :: ts). intros l. unfold capital_sum.
    rewrite lsum_map, <- lsum_scale. apply lsum_ext. intros x _. rewrite counted_trade. cbn [j_allocation].
    destruct (negb _); cbn [Z.b2z]; lia.
Qed.

Lemma committed_rows u k d : capital_sum counted (aggregate_rows u k d) = committed u k d.
Proof.
  unfold capital_sum, aggregate_rows, committed, msum. rewrite lsum_flat_map. apply lsum_ext. intros [id a] _. cbn.
  unfold commits. destruct (active_in u k a); [apply joined_sum|done].
Qed.

(** ** Claims *)

(** the aggregate is exact.  On any tables the aggregation succeeds and answers the
    decimal text of exact sums over the join of the scope's active allocations: the total of the
    counted rows, which is the committed capital; the part in flight, pending and open; and per
    instrument, strategy and direction the capital, and the lots, of the rows of that key, with
    no entry for a key that has none. *)
Theorem aggregate_exact u k d :
  let rows := aggregate_rows u k d in
  exists b, run (aggregateActiveAllocations u k) d = (d, Ok (capital_text (committed u k d), b)) /\
    inFlight b = capital_text (capital_sum in_flight rows) /\
    pendingOrders b = capital_text (capital_sum pending_order rows) /\
    openPositions b = capital_text (capital_sum open_position rows) /\
    capital_sum in_flight rows + capital_sum pending_order rows + capital_sum open_position rows = committed u k d /\
    (forall s, jget s (byInstrument b) =
       if existsb (keyed instrument_key s) rows
       then Some (capital_text (capital_sum (keyed instrument_key s) rows), lots_text (lots_sum (keyed instrument_key s) rows)) else None) /\
    (forall s, jget s (byStrategy b) =
       if existsb (keyed ca_strategyCode s) rows then Some (capital_text (capital_sum (keyed ca_strategyCode s) rows)) else None) /\
    (forall s, jget s (byDirection b) =
       if existsb (keyed direction_key s) rows then Some (capital_text (capital_sum (keyed direction_key s) rows)) else None).
Proof.
  cbv zeta. destruct (aggregate_holds (aggregate_rows u k d)) as (b & E & [Hi Hp Ho HI HS HD]). exists b. split.
  - unfold aggregateActiveAllocations. run_simpl. by rewrite E, committed_rows.
  - rewrite counted_total, committed_rows. done.
Qed.
