(* ===== verification/Allocation.v ===== *)
(** * Capital allocation ([execution/services/allocation.service.ts], [execution/jobs/execution-expiry.job.ts])

    [AllocationService]: the reservation of capital for one decision and the user's budget,
    each a critical section under the advisory lock of its account; the views; the release of
    an allocation; and [ExecutionExpiryJob.process].  What the broker service answers
    ([findConnectionById], [getBrokerAccountState]) is an argument of the call, and so are the
    generated row ids; the sizing record stored with an allocation is left out.  The file
    states what the lock is for: no account's commitments exceed its budget. *)

From S2P Require Import Prelude Prog StateMachines JsString Decimal DecimalSpecs JsMap Store OrderService RiskGrants.
From S2P Require Import TradeCas Locks TradeIntents Sums Capital.
From Stdlib Require Import QArith.
Open Scope string_scope.
Open Scope list_scope.
Open Scope Z_scope.

(** ** Data *)

(** What the broker service answers of a connection and of its account. *)
Record ConnectionView := mkConnectionView { cv_id : string; cv_logicalAccountKey : option string }.
Record BrokerAccountState := mkBrokerAccount { ba_equity : option string; ba_currency : string }.

(** [Pick<TradeIntent, ..>]. *)
Record AllocationIntent := mkAllocationIntent {
  ai_id : string; ai_userId : string; ai_brokerConnectionId : string; ai_instrument : string; ai_direction : string;
  ai_strategyCode : option string; ai_logicalAccountKey : option string }.

Record AllocateParams := mkAllocate {
  ap_intent : AllocationIntent; ap_logicalAccountKey : option string;
  ap_lots : string; ap_allocatedCapital : string; ap_accountCurrency : string; (** of [sized] *)
  ap_executionMode : option ExecutionMode; ap_enforceConcentrationCaps : option bool }.

Record UserCapitalAllocationState := mkUserState {
  us_brokerConnectionId : string; us_logicalAccountKey : string; us_accountCurrency : string; us_brokerEquity : string;
  hasAllocation : bool; us_allocatedCapital : option string; committedCapital : string; inFlightCommitments : string;
  pendingOrderCommitments : string; openPositionCommitments : string; availableCapital : option string }.

Record AllocationAccountState := mkAccountState {
  as_accountCurrency : string; as_totalCapital : string; as_committedCapital : string; as_availableCapital : string;
  as_buckets : AggregateBuckets }.

(** What a call answers. *)
Inductive CapitalAnswer :=
| Allocated (allocation : CapitalAllocation)
| UserState (state : UserCapitalAllocationState)
| AccountState (state : AllocationAccountState)
| Done.

(** A non-empty text. *)
Definition truthy (s : option string) : option string :=
  match s with Some s => if bool_decide (s = "") then None else Some s | None => None end.

Definition failed (code : AllocationFailureCode) : exn := AllocationFailed code.

(** [equity?.isPositive()], [/^[A-Z]{3}$/.test(currency)]. *)
Definition authoritative (account : option BrokerAccountState) : option (ED * string) :=
  match account with
  | None => None
  | Some account =>
      let currency := toUpperCase (ba_currency account) in
      match truthy (ba_equity account) with
      | None => None
      | Some equity =>
          match tryParse_text equity with
          | Some equity => if isPositive equity && upper_word 3 currency then Some (equity, currency) else None
          | None => None
          end
      end
  end.

(** ** Sufficiency and concentration *)

Section checks.
Local Open Scope result_scope.

(** [if (total * percent / 100 < same + requested) throw]. *)
Definition concentration (total requested : ED) (percent : Z) (same : string) (code : AllocationFailureCode) : result exn unit :=
  try! p := exact (parse_text (numeric_out 2 percent)) in
  try! m := exact (mul total p) in
  try! cap := exact (divByPowerOfTen m (Int 2)) in
  try! s := exact (parse_text same) in
  try! after := exact (add s requested) in
  try! over := exact (gt after cap) in
  if over then Err (failed code) else Ok tt.

Definition enforceConcentrationCaps (p : AllocateParams) : bool :=
  default (negb (bool_decide (ap_executionMode p = Some PAPER_ONLY))) (ap_enforceConcentrationCaps p).

(** Steps 4 to 6: what the aggregate leaves of the budget, and the caps. *)
Definition sufficiency (p : AllocateParams) (equity : ED) (budget : CapitalBudget) (aggregate : string * AggregateBuckets)
    : result exn unit :=
  try! committed := exact (parse_text aggregate.1) in
  try! configuredTotal := exact (parse_text (numeric_out 8 (cb_totalCapital budget))) in
  try! total := exact (min configuredTotal equity) in
  try! requested := exact (parse_text (ap_allocatedCapital p)) in
  try! available := exact (sub total committed) in
  try! short := exact (gt requested available) in
  if short then Err (failed ALLOCATION_INSUFFICIENT_CAPITAL)
  else
    try! _ :=
      (match cb_maxInstrumentConcentration budget with
       | Some percent =>
           if enforceConcentrationCaps p then
             concentration total requested percent
               (default "0" (fst <$> jget (ai_instrument (ap_intent p)) (byInstrument aggregate.2))) ALLOCATION_INSTRUMENT_CONCENTRATION
           else Ok tt
       | None => Ok tt
       end) in
    match cb_maxStrategyConcentration budget, truthy (ai_strategyCode (ap_intent p)) with
    | Some percent, Some strategy =>
        if enforceConcentrationCaps p then
          concentration total requested percent (default "0" (jget strategy (byStrategy aggregate.2))) ALLOCATION_STRATEGY_CONCENTRATION
        else Ok tt
    | _, _ => Ok tt
    end.

(** The row of the [INSERT]: the numeric columns, then the checks of the table. *)
Definition new_allocation (newId key : string) (p : AllocateParams) : result exn CapitalAllocation :=
  let i := ap_intent p in
  try! lots := numeric_column 10 4 (ap_lots p) in
  try! capital := numeric_column 18 8 (ap_allocatedCapital p) in
  if (0 <? lots) && (0 <? capital) && (bool_decide (ai_direction i = "BUY") || bool_decide (ai_direction i = "SELL"))
  then Ok (mkCapital newId (ai_userId i) (ai_id i) (ai_brokerConnectionId i) key (ap_accountCurrency p) (ai_instrument i)
             (ai_direction i) (ai_strategyCode i) lots capital true None)
  else Err (CheckViolation "trading.capital_allocations").
End checks.

(** [INSERT INTO capital_allocations .. RETURNING *]. *)
Definition allocation_insert (newId key : string) (p : AllocateParams) (d : DB) : DB * result exn CapitalAllocation :=
  match new_allocation newId key p with
  | Err e => (d, Err e)
  | Ok a =>
      if bool_decide (is_Some (allocations d !! ca_tradeIntentId a)) then (d, Err (UniqueViolation "uq_capital_allocations_intent"))
      else (set_allocations (<[ca_tradeIntentId a := a]> (allocations d)) d, Ok a)
  end.

(** [INSERT INTO capital_budgets .. ON CONFLICT DO UPDATE]. *)
Definition budget_upsert (userId key currency amount : string) (d : DB) : DB * result exn unit :=
  match numeric_column 18 8 amount with
  | Err e => (d, Err e)
  | Ok total =>
      if (0 <? total) && upper_word 3 currency then
        let row := match budgets d !! (userId, key) with
                   | Some b => mkBudget currency total (cb_maxInstrumentConcentration b) (cb_maxStrategyConcentration b)
                   | None => mkBudget currency total (Some 5000) (Some 6000)
                   end in
        (set_budgets (<[(userId, key) := row]> (budgets d)) d, Ok tt)
      else (d, Err (CheckViolation "trading.capital_budgets"))
  end.

(** ** The service *)

Section service.
Local Open Scope prog_scope.

(** The first four bytes of a SHA-256 digest, as a big-endian integer. *)
Context (sha256_head : string -> Z).

Definition computeAccountLockKey (userId logicalAccountKey : string) : Z :=
  Z.land (sha256_head (userId +:+ ":" +:+ logicalAccountKey)) 0x7fffffff.

Abbreviation locked := (section DB exn CapitalAnswer Z).

Definition findAllocation (intentId : string) : io (option CapitalAllocation) := sel (fun d => allocations d !! intentId).

(** An allocation that exists is the answer, unless it was released. *)
Definition existing_answer (a : CapitalAllocation) : io CapitalAnswer :=
  if ca_active a then Ret (Allocated a) else Throw (failed ALLOCATION_ALREADY_RELEASED).

Definition resolveBudget (userId key : string) : io CapitalBudget :=
  let* found := sel (fun d => budgets d !! (userId, key)) in
  match found with Some b => Ret b | None => Throw (failed ALLOCATION_BUDGET_UNPROVABLE) end.

(** The critical section of [resolveOrAllocate]. *)
Definition reserve (newId : string) (p : AllocateParams) (key : string) (currentEquity : ED) : io CapitalAnswer :=
  let i := ap_intent p in
  let* raced := findAllocation (ai_id i) in
  match raced with
  | Some a => existing_answer a
  | None =>
      let* budget := resolveBudget (ai_userId i) key in
      if negb (bool_decide (cb_accountCurrency budget = ap_accountCurrency p)) then Throw (failed ALLOCATION_CURRENCY_MISMATCH)
      else
        let* aggregate := aggregateActiveAllocations (ai_userId i) key in
        do! of_result (sufficiency p currentEquity budget aggregate) in
        let* a := op (allocation_insert newId key p) in
        Ret (Allocated a)
  end.

(** [catch (err)] around it. *)
Definition reserved (p : AllocateParams) (r : result exn CapitalAnswer) : io CapitalAnswer :=
  match r with
  | Ok a => Ret a
  | Err err =>
      if isUniqueViolation err then
        let* winner := findAllocation (ai_id (ap_intent p)) in
        match winner with Some a => existing_answer a | None => Throw err end
      else Throw err
  end.

Definition resolveOrAllocate (newId : string) (p : AllocateParams) (account : option BrokerAccountState)
    : io (CapitalAnswer + locked) :=
  let i := ap_intent p in
  match truthy (match ap_logicalAccountKey p with Some k => Some k | None => ai_logicalAccountKey i end) with
  | None => Throw (failed ALLOCATION_BUDGET_UNPROVABLE)
  | Some key =>
      let* existing := findAllocation (ai_id i) in
      match existing with
      | Some a => let* a := existing_answer a in Ret (inl a)
      | None =>
          let* existingBudget := sel (fun d => budgets d !! (ai_userId i, key)) in
          match existingBudget, authoritative account with
          | Some _, Some (currentEquity, currentCurrency) =>
              if negb (bool_decide (currentCurrency = ap_accountCurrency p)) then Throw (failed ALLOCATION_CURRENCY_MISMATCH)
              else Ret (inr (mkSection (computeAccountLockKey (ai_userId i) key) (reserve newId p key currentEquity) (reserved p)))
          | _, _ => Throw (failed ALLOCATION_BUDGET_UNPROVABLE)
          end
      end
  end.

Definition getUserCapitalAllocationState (userId : string) (connection : ConnectionView) (account : option BrokerAccountState)
    : io UserCapitalAllocationState :=
  match truthy (cv_logicalAccountKey connection), authoritative account with
  | Some key, Some (equity, currency) =>
      let* budget := sel (fun d => budgets d !! (userId, key)) in
      match budget with
      | None =>
          Ret (mkUserState (cv_id connection) key currency (text equity) false None "0" "0" "0" "0" None)
      | Some budget =>
          if negb (bool_decide (cb_accountCurrency budget = currency)) then Throw (failed ALLOCATION_CURRENCY_MISMATCH)
          else
            let* aggregate := aggregateActiveAllocations userId key in
            of_result (
              try! configured := exact (parse_text (numeric_out 8 (cb_totalCapital budget))) in
              try! allocated := exact (min configured equity) in
              try! committed := exact (parse_text aggregate.1) in
              try! difference := exact (sub allocated committed) in
              try! remaining := exact (max difference ZERO) in
              Ok (mkUserState (cv_id connection) key currency (text equity) true (Some (text allocated)) (text committed)
                    (inFlight aggregate.2) (pendingOrders aggregate.2) (openPositions aggregate.2) (Some (text remaining))))%result
      end
  | _, _ => Throw (failed ALLOCATION_BUDGET_UNPROVABLE)
  end.

(** The critical section of [setUserCapitalBudget]. *)
Definition set_budget (userId key currency : string) (amount : ED) : io CapitalAnswer :=
  let* aggregate := aggregateActiveAllocations userId key in
  let* low := of_result (try! committed := exact (parse_text aggregate.1) in exact (lt amount committed))%result in
  if (low : bool) then Throw (failed ALLOCATION_INSUFFICIENT_CAPITAL)
  else do! op (budget_upsert userId key currency (text amount)) in Ret Done.

(** [later]: what the broker service answers the second time, for the state returned. *)
Definition setUserCapitalBudget (userId : string) (connection : ConnectionView) (amountInput : string)
    (account : option BrokerAccountState) (later : ConnectionView * option BrokerAccountState) : io (CapitalAnswer + locked) :=
  match truthy (cv_logicalAccountKey connection) with
  | None => Throw (failed ALLOCATION_BUDGET_UNPROVABLE)
  | Some key =>
      match tryParse_text amountInput with
      | Some amount =>
          if negb (isPositive amount) then Throw (failed ALLOCATION_INSUFFICIENT_CAPITAL)
          else
            match authoritative account with
            | None => Throw (failed ALLOCATION_BUDGET_UNPROVABLE)
            | Some (equity, currency) =>
                let* above := of_result (exact (gt amount equity)) in
                if (above : bool) then Throw (failed ALLOCATION_INSUFFICIENT_CAPITAL)
                else Ret (inr (mkSection (computeAccountLockKey userId key) (set_budget userId key currency amount)
                       (fun r => match r with
                                 | Ok _ => let* state := getUserCapitalAllocationState userId (fst later) (snd later) in Ret (UserState state)
                                 | Err e => Throw e
                                 end)))
            end
      | None => Throw (failed ALLOCATION_INSUFFICIENT_CAPITAL)
      end
  end.

Definition getAllocationAccountState (userId : string) (logicalAccountKey : option string) : io AllocationAccountState :=
  let key := default "unscoped" logicalAccountKey in
  let* budget := sel (fun d => budgets d !! (userId, key)) in
  match budget with
  | None => Throw (failed ALLOCATION_BUDGET_UNPROVABLE)
  | Some budget =>
      let* aggregate := aggregateActiveAllocations userId key in
      of_result (
        try! total := exact (parse_text (numeric_out 8 (cb_totalCapital budget))) in
        try! committed := exact (parse_text aggregate.1) in
        try! available := exact (sub total committed) in
        Ok (mkAccountState (cb_accountCurrency budget) (numeric_out 8 (cb_totalCapital budget)) aggregate.1
              (text available) aggregate.2))%result
  end.

Definition with_release (reason : string) (a : CapitalAllocation) : CapitalAllocation :=
  mkCapital (ca_id a) (ca_userId a) (ca_tradeIntentId a) (ca_brokerConnectionId a) (ca_logicalAccountKey a) (ca_accountCurrency a)
    (ca_instrument a) (ca_direction a) (ca_strategyCode a) (ca_allocatedLots a) (ca_allocatedCapital a) false
    (Some (string_of (take 60 (chars_of reason)))).

Definition releaseAllocationForIntent (intentId reason : string) : io unit :=
  op (fun d => (set_allocations (fst (update_row ca_active (with_release reason) intentId (allocations d))) d, Ok tt)).

(** ** The sweep *)

Record SweepResult := mkSweep { expiredIntents : Z; releasedAllocations : Z; expiredConfirmations : Z }.

(** The releases that did not fail. *)
Fixpoint release_all (intentIds : list string) : io Z :=
  match intentIds with
  | [] => Ret 0
  | id :: intentIds =>
      let* r := attempt (releaseAllocationForIntent id "INTENT_EXPIRED") in
      let* n := release_all intentIds in
      Ret (match r with Ok _ => n + 1 | Err _ => n end)
  end.

(** [time], [time']: the two readings of [new Date()]. *)
Definition process (time time' : Z) : io SweepResult :=
  let* expiredIntentIds := expireStaleCreatedIntents time in
  let* released := release_all expiredIntentIds in
  let* confirmations := expireStalePendingConfirmations time' in
  Ret (mkSweep (Z.of_nat (length expiredIntentIds)) released confirmations).
End service.
