(* ===== verification/CapitalBounds.v ===== *)
(** * Commitments stay within the budget

    What the advisory lock of [Allocation] is for.  [moves] is what every other statement does to
    the tables of the aggregate: it releases allocations, moves intents and trades along, and
    so never raises an account's commitments.  With the critical sections serialised per
    account, reservations and budget changes keep them within the budget, whatever runs
    together. *)

From S2P Require Import Prelude Prog StateMachines JsString Decimal DecimalSpecs JsMap Store OrderService RiskGrants.
From S2P Require Import TradeCas Locks TradeIntents Sums Capital Allocation.
From Stdlib Require Import QArith Lqa.
Open Scope string_scope.
Open Scope list_scope.
Open Scope Z_scope.

(** ** How the tables move *)

(** An allocation changes once, when it is released. *)
Definition capital_evolves (a a' : CapitalAllocation) : Prop :=
  a' = a \/ (ca_active a = true /\ exists reason, a' = with_release reason a).

#[export] Instance capital_evolves_preorder : PreOrder capital_evolves.
Proof.
  split; [by left|]. intros x y z [->|[Hx [r ->]]] [->|[Hy [r' ->]]]; [by left|right; eauto|right; eauto|done].
Qed.

Record moves (d d' : DB) : Prop := {
  mv_budgets : budgets d' = budgets d;
  mv_allocations : rows_evolve capital_evolves (allocations d) (allocations d');
  mv_only : rows_only capital_evolves (allocations d) (allocations d');
  mv_intents : rows_evolve intent_evolves (intents d) (intents d');
  mv_trades : trade_rel d d' }.

Lemma rows_refl {R} (evolves : R -> R -> Prop) `{!Reflexive evolves} m : rows_evolve evolves m m /\ rows_only evolves m m.
Proof. split; intros id r Hr; by exists r. Qed.

Lemma rows_trans {R} (evolves : R -> R -> Prop) `{!Transitive evolves} m1 m2 m3 :
  rows_evolve evolves m1 m2 -> rows_evolve evolves m2 m3 -> rows_evolve evolves m1 m3.
Proof.
  intros H1 H2 id r Hr. destruct (H1 _ _ Hr) as (r1 & Hr1 & ?). destruct (H2 _ _ Hr1) as (r2 & ? & ?).
  exists r2. split; [done|by etransitivity].
Qed.

Lemma only_trans {R} (evolves : R -> R -> Prop) `{!Transitive evolves} m1 m2 m3 :
  rows_only evolves m1 m2 -> rows_only evolves m2 m3 -> rows_only evolves m1 m3.
Proof.
  intros H1 H2 id r Hr. destruct (H2 _ _ Hr) as (r1 & Hr1 & ?). destruct (H1 _ _ Hr1) as (r2 & ? & ?).
  exists r2. split; [done|by etransitivity].
Qed.

#[export] Instance moves_preorder : PreOrder moves.
Proof.
  split.
  - intros d. split; [done|by apply (rows_refl _)..|reflexivity].
  - intros x y z [A1 B1 C1 D1 E1] [A2 B2 C2 D2 E2]. split; [congruence|exact (rows_trans _ _ _ _ B1 B2)|
      exact (only_trans _ _ _ _ C1 C2)|exact (rows_trans _ _ _ _ D1 D2)|by etransitivity].
Qed.

(** ** A well-formed ledger *)

(** Allocations are under their intent, which exists, and hold no negative capital; an intent
    has one trade at most. *)
Record ledger_wf (d : DB) : Prop := {
  lw_key : forall id a, allocations d !! id = Some a -> ca_tradeIntentId a = id /\ 0 <= ca_allocatedCapital a;
  lw_intent : forall id a, allocations d !! id = Some a -> is_Some (intents d !! id);
  lw_trade : forall t1 t2 x1 x2, trades d !! t1 = Some x1 -> trades d !! t2 = Some x2 ->
    is_Some (t_tradeIntentId x1) -> t_tradeIntentId x1 = t_tradeIntentId x2 -> t1 = t2 }.

Lemma trades_of_nil id d : trades_of id d = [] <-> forall k t, trades d !! k = Some t -> t_tradeIntentId t <> Some id.
Proof.
  unfold trades_of. split.
  - intros Hn k t Ht Hid. assert (In t (List.filter (of_intent id) (map snd (map_to_list (trades d))))) as Hin.
    { apply filter_In. split; [|by apply bool_decide_eq_true]. apply in_map_iff. exists (k, t). split; [done|].
      by apply list_elem_of_In, elem_of_map_to_list. }
    by rewrite Hn in Hin.
  - intros Hn. destruct (List.filter _ _) as [|t l] eqn:E; [done|]. exfalso.
    assert (In t (t :: l)) as Hin by by left. rewrite <- E in Hin. apply filter_In in Hin as [Hin Hid%bool_decide_eq_true].
    apply in_map_iff in Hin as ([k x] & <- & Hkx%list_elem_of_In%elem_of_map_to_list). by apply (Hn k x).
Qed.

Lemma live_nonneg id t : 0 <= Z.b2z (live id t).
Proof. destruct (live id t); cbn; lia. Qed.

Lemma weight_nonneg d id : 0 <= weight d id.
Proof. unfold weight. repeat case_bool_decide; [done..|]. apply msum_nonneg. intros k t _. apply live_nonneg. Qed.

(** At most one row of the join counts. *)
Lemma live_le_1 id (m : gmap string TradeRow) :
  (forall t1 t2 x1 x2, m !! t1 = Some x1 -> m !! t2 = Some x2 ->
     is_Some (t_tradeIntentId x1) -> t_tradeIntentId x1 = t_tradeIntentId x2 -> t1 = t2) ->
  msum (fun t => Z.b2z (live id t)) m <= 1.
Proof.
  induction m as [|k t m Hk IH] using map_ind; intros Hu; [by rewrite msum_empty|]. rewrite msum_insert by done.
  assert (msum (fun t => Z.b2z (live id t)) m <= 1) as Hm.
  { apply IH. intros t1 t2 x1 x2 H1 H2. apply Hu; rewrite lookup_insert_ne by congruence; done. }
  destruct (live id t) eqn:Hl; cbn; [|done].
  rewrite (msum_ext (fun t => Z.b2z (live id t)) (fun _ => 0) m).
  - unfold msum. rewrite (lsum_const 0) by done. lia.
  - intros k' t' H'. destruct (live id t') eqn:Hl'; [|done]. exfalso. assert (k = k') as ->; [|congruence].
    unfold live, of_intent in *. bool_to_prop.
    apply (Hu k k' t t'); rewrite ?lookup_insert_eq, ?lookup_insert_ne by congruence; [done|done|by eexists|congruence].
Qed.

Lemma weight_le_1 d id : ledger_wf d -> weight d id <= 1.
Proof. intros Hwf. unfold weight. repeat case_bool_decide; [done..|]. apply live_le_1, Hwf. Qed.

Lemma commits_nonneg u k d : ledger_wf d -> forall id a, allocations d !! id = Some a -> 0 <= commits u k d a.
Proof.
  intros Hwf id a Ha. unfold commits. destruct (active_in u k a); [|done]. destruct (lw_key d Hwf _ _ Ha) as [_ Hc].
  pose proof (weight_nonneg d (ca_tradeIntentId a)). nia.
Qed.

(** ** Moves lower the commitments *)

Lemma moves_weight d d' id :
  moves d d' -> is_Some (intents d !! id) -> weight d' id <= weight d id.
Proof.
  intros [_ _ _ Hi [He Ho]] [n Hn]. unfold weight.
  assert (trades_of id d' = [] <-> trades_of id d = []) as Hiff.
  { rewrite !trades_of_nil. split; intros H k t Ht.
    - destruct (He k t Ht) as (t' & Ht' & Hev). rewrite <- (te_intent _ _ Hev). by apply (H k).
    - destruct (Ho k t Ht) as (t' & Ht' & Hev). rewrite (te_intent _ _ Hev). by apply (H k). }
  rewrite (bool_decide_ext _ _ Hiff). case_bool_decide.
  - destruct (Hi _ _ Hn) as (n' & Hn' & [_ Hs]). rewrite Hn, Hn'. cbn.
    case_bool_decide as E; [|case_bool_decide; done]. destruct (decide (n_status n = Intent.CREATED)) as [->|Hne]; [done|].
    rewrite (Hs Hne) in E. congruence.
  - apply msum_le; [intros; apply live_nonneg|]. intros k t' Ht'. destruct (Ho k t' Ht') as (t & Ht & Hev). exists t. split; [done|].
    unfold live, of_intent. rewrite (te_intent _ _ Hev). case_bool_decide; [|done]. cbn [andb].
    destruct (terminal t) eqn:Et; [by rewrite (te_frozen _ _ Hev Et)|]. unfold terminal in Et. rewrite Et.
    destruct (Trade.isTerminal (Known (t_status t'))); done.
Qed.

Lemma moves_commits u k d d' a a' :
  moves d d' -> ledger_wf d -> allocations d !! ca_tradeIntentId a = Some a -> capital_evolves a a' ->
  commits u k d' a' <= commits u k d a.
Proof.
  intros Hm Hwf Ha [->|[_ [r ->]]]; unfold commits.
  - destruct (active_in u k a); [|done]. pose proof (moves_weight d d' _ Hm (lw_intent d Hwf _ _ Ha)).
    destruct (lw_key d Hwf _ _ Ha). nia.
  - unfold active_in at 1. cbn [ca_active with_release]. rewrite andb_false_r.
    by apply (commits_nonneg u k d Hwf _ a Ha).
Qed.

Lemma moves_committed u k d d' : moves d d' -> ledger_wf d -> committed u k d' <= committed u k d.
Proof.
  intros Hm Hwf. apply msum_le; [by apply commits_nonneg|]. intros id a' Ha'.
  destruct (mv_only _ _ Hm id a' Ha') as (a & Ha & Hev). exists a. split; [done|].
  apply (moves_commits u k d d'); [done|done| |done]. destruct (lw_key d Hwf _ _ Ha) as [-> _]. done.
Qed.

Lemma moves_wf d d' : moves d d' -> ledger_wf d -> ledger_wf d'.
Proof.
  intros [_ _ Ho Hi [Het Hot]] [Hk Hn Ht]. split.
  - intros id a' (a & Ha & [->|[_ [r ->]]])%Ho; exact (Hk _ _ Ha).
  - intros id a' (a & Ha & _)%Ho. destruct (Hn _ _ Ha) as [n Hin]. destruct (Hi _ _ Hin) as (n' & ? & _). by eexists.
  - intros t1 t2 x1 x2 (y1 & H1 & E1)%Hot (y2 & H2 & E2)%Hot. rewrite (te_intent _ _ E1), (te_intent _ _ E2). by apply Ht.
Qed.

(** ** What moves *)

Definition same_capital (d d' : DB) : Prop :=
  budgets d' = budgets d /\ allocations d' = allocations d /\ intents d' = intents d.

#[export] Instance same_capital_preorder : PreOrder same_capital.
Proof. split; [done|]. intros x y z (? & ? & ?) (? & ? & ?). repeat split; congruence. Qed.

Lemma moves_trades d d' : same_capital d d' -> trade_rel d d' -> moves d d'.
Proof. intros (Hb & Ha & Hi) Ht. split; [done|..|done]; rewrite ?Ha, ?Hi; by apply (rows_refl _). Qed.

Lemma moves_same d d' : same_capital d d' -> trades d' = trades d -> moves d d'.
Proof. intros Hs Ht. apply moves_trades; [done|by apply trade_rel_same]. Qed.

Lemma moves_set_intents d m : rows_evolve intent_evolves (intents d) m -> moves d (set_intents m d).
Proof. intros Hi. split; [done|by apply (rows_refl _)..|done|by apply trade_rel_same]. Qed.

Lemma guar_moves_intent_cas id s t : guar moves (intent_cas id s t).
Proof.
  apply guar_op. intros d. cbn [fst]. apply moves_set_intents. apply update_row_evolve; [typeclasses eauto|].
  intros n Hn%bool_decide_eq_true. split; [by exists s, t|done].
Qed.

Lemma guar_moves_mark l : guar moves (mark_all_expired l).
Proof. induction l as [|n l IH]; cbn [mark_all_expired]; [done|]. apply guar_bind; [apply guar_moves_intent_cas|done]. Qed.

Lemma guar_moves_sweep t : guar moves (expireStaleCreatedIntents t).
Proof. unfold expireStaleCreatedIntents. guar_walk. apply guar_moves_mark. Qed.

Lemma guar_moves_usable n : guar moves (assertIntentUsable n).
Proof. unfold assertIntentUsable. guar_walk. apply guar_moves_intent_cas. Qed.

Lemma guar_moves_insert n : guar moves (op (intent_insert_act n)).
Proof.
  apply guar_op. intros d. destruct (intent_insert_cases n d) as [[e ->]|(Hid & _ & ->)]; [done|].
  apply moves_set_intents. intros id x Hx. exists x. split; [|done]. rewrite lookup_insert_ne; [done|congruence].
Qed.

Lemma guar_moves_intent c : guar moves (run_intent c).
Proof.
  destruct c; cbn [run_intent]; unfold recordOrReuseIntent, findByKey, resolveIntentForExecution,
    resolveIntentForExecutionBySignal, findBySignal, findByKey; guar_walk;
    first [apply guar_moves_usable|apply guar_moves_sweep|apply guar_moves_intent_cas|apply guar_moves_insert].
Qed.

Lemma guar_moves_release id reason : guar moves (releaseAllocationForIntent id reason).
Proof.
  apply guar_op. intros d. cbn [fst].
  destruct (update_row_evolve capital_evolves ca_active (with_release reason) id (allocations d)) as [He Ho].
  { intros a Ha. right. eauto. }
  split; [done|done|done|by apply (rows_refl _)|by apply trade_rel_same].
Qed.

Lemma guar_same_cas params : guar same_capital (applyCasTransition params).
Proof.
  unfold applyCasTransition, converge, answer_applied, recordDiscrepancy, audit_log, find_trade, trade_update.
  guar_walk; try (apply guar_op; intros d; destruct (update_row _ _ _ _); done); by apply guar_modify.
Qed.

Lemma guar_moves_cas params : patch_sets_target params -> guar moves (run_cas params).
Proof.
  intros Hp. unfold run_cas. apply guar_bind; [|done].
  apply (guar_weaken (fun d d' => same_capital d d' /\ trade_rel d d')); [intros d d' [? ?]; by apply moves_trades|].
  apply guar_and; [apply guar_same_cas|by apply guar_cas].
Qed.

Lemma guar_moves_confirmations t : guar moves (expireStalePendingConfirmations t).
Proof.
  unfold expireStalePendingConfirmations. guar_walk. apply guar_each. intros c. guar_walk. apply guar_op. intros d.
  unfold confirmation_update. destruct (update_row _ _ _ _). by apply moves_same.
Qed.

Lemma guar_moves_release_all l : guar moves (release_all l).
Proof. induction l as [|id l IH]; cbn [release_all]; [done|]. guar_walk; [apply guar_moves_release|done]. Qed.

Lemma guar_moves_process t t' : guar moves (process t t').
Proof.
  unfold process. guar_walk; [apply guar_moves_sweep|apply guar_moves_release_all|apply guar_moves_confirmations].
Qed.

(** ** What sufficiency gives *)

Lemma toQ_minus a b sc : (toQ (mkED a sc) - toQ (mkED b sc) == toQ (mkED (a - b) sc))%Q.
Proof. unfold toQ, Qeq, Qminus. cbn. lia. Qed.

(** What is admitted fits between the commitments and the budget, in column units. *)
Lemma sufficiency_fits p equity b c bk v :
  canonical equity -> sufficiency p equity b (capital_text c, bk) = Ok tt ->
  numeric_column 18 8 (ap_allocatedCapital p) = Ok v -> c + v <= cb_totalCapital b.
Proof.
  intros He Hs Hv. unfold sufficiency in Hs. cbn [fst snd] in Hs. rewrite (parse_units 8 scale8), (parse_out 8 scale8) in Hs.
  cbn [exact rbind] in Hs. apply rbind_ok in Hs as (total & Hmin%exact_ok & Hs).
  apply rbind_ok in Hs as (r & Hr%exact_ok & Hs). apply rbind_ok in Hs as (avail & Hsub%exact_ok & Hs).
  apply rbind_ok in Hs as (short & Hgt%exact_ok & Hs). destruct short; [done|]. clear Hs.
  destruct (units_spec 8 scale8 c) as [Cc Qc], (units_spec 8 scale8 (cb_totalCapital b)) as [Cb Qb].
  destruct (min_ok _ _ Cb He _ Hmin) as (_ & Ct & Ht & _). destruct (sub_ok _ _ Ct Cc _ Hsub) as [Ca Qa].
  pose proof (parse_text_canonical _ _ Hr) as Cr. pose proof (gt_ok _ _ Cr Ca _ Hgt) as Hle. cbv iota in Hle.
  unfold numeric_column, tryParse_text, tryParse in Hv. unfold parse_text in Hr. rewrite Hr in Hv. cbn [ok_opt] in Hv.
  destruct (_ <? _); [|done]. injection Hv as <-.
  enough (to_units 8 r <= cb_totalCapital b - c) by lia.
  apply to_units_between; [done|by apply canonical_scale|]. rewrite <- toQ_minus. lra.
Qed.

(** What a budget has to cover when it is set. *)
Lemma amount_covers amount c total :
  canonical amount -> lt amount (units 8 c) = Ok false -> numeric_column 18 8 (text amount) = Ok total -> c <= total.
Proof.
  intros Ha Hlt Hv. destruct (units_spec 8 scale8 c) as [Cc Qc]. pose proof (lt_ok _ _ Ha Cc _ Hlt) as Hle. cbv iota in Hle.
  unfold numeric_column in Hv. rewrite (tryParse_text_text amount Ha) in Hv. destruct (_ <? _); [|done]. injection Hv as <-.
  apply to_units_between; [done|by apply canonical_scale|]. lra.
Qed.

(** ** The pool *)

Section pool.
Local Open Scope prog_scope.
Context (sha256_head : string -> Z).

Abbreviation lock_of := (computeAccountLockKey sha256_head).
Abbreviation locked := (section DB exn CapitalAnswer Z).

(** The calls that touch the ledger. *)
Inductive capital_call :=
| KAllocate (newId : string) (p : AllocateParams) (account : option BrokerAccountState)
| KSetBudget (userId : string) (connection : ConnectionView) (amountInput : string) (account : option BrokerAccountState)
    (later : ConnectionView * option BrokerAccountState)
| KUserState (userId : string) (connection : ConnectionView) (account : option BrokerAccountState)
| KAccountState (userId : string) (logicalAccountKey : option string)
| KRelease (intentId reason : string)
| KSweep (time time' : Z)
| KIntent (c : intent_call)
| KTrade (params : CasParams).

Definition plain {A} (f : A -> CapitalAnswer) (p : io A) : io (CapitalAnswer + locked) := let* a := p in Ret (inl (f a)).

Definition run_capital (c : capital_call) : io (CapitalAnswer + locked) :=
  match c with
  | KAllocate newId p account => resolveOrAllocate sha256_head newId p account
  | KSetBudget u conn amount account later => setUserCapitalBudget sha256_head u conn amount account later
  | KUserState u conn account => plain UserState (getUserCapitalAllocationState u conn account)
  | KAccountState u k => plain AccountState (getAllocationAccountState u k)
  | KRelease id reason => plain (fun _ => Done) (releaseAllocationForIntent id reason)
  | KSweep t t' => plain (fun _ => Done) (process t t')
  | KIntent c => plain (fun _ => Done) (run_intent c)
  | KTrade params => plain (fun _ => Done) (run_cas params)
  end.

(** A reservation is for an intent that is stored; a patch sets the status it announces. *)
Definition call_ok (d : DB) (c : capital_call) : Prop :=
  match c with
  | KAllocate _ p _ => is_Some (intents d !! ai_id (ap_intent p))
  | KTrade params => patch_sets_target params
  | _ => True
  end.

Context (start : DB).

Record within_budget (d : DB) : Prop := {
  wb_wf : ledger_wf d;
  wb_budget : forall u k b, budgets d !! (u, k) = Some b -> committed u k d <= cb_totalCapital b;
  wb_intents : forall id, is_Some (intents start !! id) -> is_Some (intents d !! id) }.

(** A statement touches the accounts whose lock it holds; the commitments of any other only fall. *)
Definition effect (who : option Z) (d d' : DB) : Prop :=
  rows_evolve capital_evolves (allocations d) (allocations d') /\
  forall u k, who <> Some (lock_of u k) -> budgets d' !! (u, k) = budgets d !! (u, k) /\ committed u k d' <= committed u k d.

Definition says (a : CapitalAnswer) (d : DB) : Prop :=
  match a with
  | Allocated a => exists row, allocations d !! ca_tradeIntentId a = Some row /\ capital_evolves a row
  | _ => True
  end.

Abbreviation admits := (rg DbUnavailable within_budget effect).
Abbreviation done_as := (leaves (K := Z) DbUnavailable within_budget effect says).
Abbreviation answered := (answers (E := exn) says).
Abbreviation entered := (enters (K := Z) DbUnavailable within_budget effect says).

Lemma effect_refl who d : effect who d d.
Proof. split; [by apply (rows_refl _)|done]. Qed.

Lemma says_kept me a : kept effect me (says a).
Proof.
  intros who d d' _ [He _]. destruct a as [a|st|st|]; cbn; try done. intros (row & Hr & Hev).
  destruct (He _ _ Hr) as (row' & ? & ?). exists row'. split; [done|by etransitivity].
Qed.

Lemma moves_step me d d' : moves d d' -> within_budget d -> within_budget d' /\ effect me d d'.
Proof.
  intros Hm [Hwf Hb Hi]. split.
  - split; [by eapply moves_wf| |].
    + intros u k b. rewrite (mv_budgets _ _ Hm). intros Hbu%Hb. pose proof (moves_committed u k d d' Hm Hwf). lia.
    + intros id Hid. destruct (Hi id Hid) as [n Hn]. destruct (mv_intents _ _ Hm _ _ Hn) as (n' & ? & _). by eexists.
  - split; [apply Hm|]. intros u k _. rewrite (mv_budgets _ _ Hm). split; [done|by apply moves_committed].
Qed.

(** Calls without a critical section. *)
Lemma admits_plain {A} (f : A -> CapitalAnswer) (p : io A) :
  (forall a d, says (f a) d) -> guar moves p -> admits None entered (fun _ => True) (plain f p).
Proof.
  intros Hf Hp. apply (rg_guar DbUnavailable within_budget effect None entered ltac:(done) moves); [apply moves_step|done|].
  intros a d _ _. apply Hf.
Qed.

(** A row that was read is a true answer. *)
Definition knows_row (id : string) (o : option CapitalAllocation) (d : DB) : Prop :=
  match o with Some a => says (Allocated a) d | None => is_Some (intents start !! id) end.

Lemma knows_row_kept me id o : kept effect me (knows_row id o).
Proof. destruct o as [a|]; [apply (says_kept me (Allocated a))|by intros ????]. Qed.

Lemma row_known id d : within_budget d -> is_Some (intents start !! id) -> knows_row id (allocations d !! id) d.
Proof.
  intros Hi Hid. unfold knows_row. destruct (allocations d !! id) as [a|] eqn:Ha; [|done]. exists a.
  destruct (lw_key d (wb_wf _ Hi) _ _ Ha) as [-> _]. by split.
Qed.

Lemma admits_existing me Q a :
  (forall d, within_budget d -> says (Allocated a) d -> Q (Ok (Allocated a)) d) -> (forall e d, within_budget d -> Q (Err e) d) ->
  admits me Q (says (Allocated a)) (existing_answer a).
Proof. intros Hok He. unfold existing_answer. destruct (ca_active a); cbn; auto. Qed.

Section reservation.
Context (newId key : string) (p : AllocateParams) (Hid : is_Some (intents start !! ai_id (ap_intent p))).

Lemma done_reserved r d : match r with Ok a => says a d | Err _ => True end -> done_as (reserved p) r d.
Proof using Hid.
  destruct r as [a|e]; cbn [reserved]; intros Hr.
  - exists (says a). split; [apply says_kept|]. split; [done|]. by intros d' _ ?.
  - exists (fun _ => True). split; [done|]. split; [done|]. unfold reserved. destruct (isUniqueViolation e); [|done].
    apply (rg_read DbUnavailable within_budget effect effect_refl None answered ltac:(done) _ _ _
             (knows_row (ai_id (ap_intent p)))); [intros; apply knows_row_kept|intros d' Hi _; by apply row_known|].
    intros [a|]; [|done]. by apply admits_existing.
Qed.

(** The [INSERT]: the new row is the only change, and counts once at most. *)
Lemma committed_insert u k d a :
  allocations d !! ca_tradeIntentId a = None ->
  committed u k (set_allocations (<[ca_tradeIntentId a := a]> (allocations d)) d) = commits u k d a + committed u k d.
Proof. intros Hn. unfold committed. cbn [allocations set_allocations]. rewrite msum_insert by done. done. Qed.

Lemma new_allocation_ok a :
  new_allocation newId key p = Ok a ->
  ca_userId a = ai_userId (ap_intent p) /\ ca_logicalAccountKey a = key /\ ca_tradeIntentId a = ai_id (ap_intent p) /\
  numeric_column 18 8 (ap_allocatedCapital p) = Ok (ca_allocatedCapital a) /\ 0 < ca_allocatedCapital a.
Proof.
  unfold new_allocation. intros (lots & _ & (capital & Hc & Ha)%rbind_ok)%rbind_ok.
  destruct (_ && _) eqn:E; [|done]. injection Ha as <-. bool_to_prop. cbn. rewrite Hc. repeat split. lia.
Qed.

Lemma insert_within d b c :
  within_budget d -> budgets d !! (ai_userId (ap_intent p), key) = Some b -> committed (ai_userId (ap_intent p)) key d <= c ->
  (forall v, numeric_column 18 8 (ap_allocatedCapital p) = Ok v -> c + v <= cb_totalCapital b) ->
  let d' := fst (allocation_insert newId key p d) in
  within_budget d' /\ effect (Some (lock_of (ai_userId (ap_intent p)) key)) d d' /\
  forall a, snd (allocation_insert newId key p d) = Ok a -> says (Allocated a) d'.
Proof using Hid.
  intros Hi Hb Hc Hfit. cbv zeta. unfold allocation_insert. destruct (new_allocation newId key p) as [a|e] eqn:Hnew;
    [|cbn; split; [done|split; [apply effect_refl|done]]].
  destruct (new_allocation_ok a Hnew) as (Hu & Hk & Hint & Hv & Hpos). case_bool_decide as Hex;
    [cbn; split; [done|split; [apply effect_refl|done]]|]. apply eq_None_not_Some in Hex. cbn [fst snd].
  pose proof Hi as [Hwf Hbud Hint0]. set (u := ai_userId (ap_intent p)) in *.
  assert (forall u' k', commits u' k' d a <= if bool_decide (u' = u /\ k' = key) then ca_allocatedCapital a else 0) as Hcom.
  { intros u' k'. unfold commits, active_in. pose proof (weight_le_1 d (ca_tradeIntentId a) Hwf).
    case_bool_decide as E1; [case_bool_decide as E2; [destruct (ca_active a); cbn|]|]; repeat case_bool_decide; cbn; try lia;
      try nia; exfalso; naive_solver congruence. }
  split; [split|split; [split|]].
  - destruct Hwf as [H1 H2 H3]. split; cbn [allocations set_allocations trades intents]; [..|done].
    + intros id x. rewrite lookup_insert_Some. intros [[<- <-]|[_ Hx]]; [split; [done|lia]|by apply H1].
    + intros id x. rewrite lookup_insert_Some. intros [[<- <-]|[_ Hx]]; [rewrite Hint; auto|by apply (H2 _ x)].
  - intros u' k' b' Hb'. rewrite committed_insert by done. specialize (Hcom u' k'). cbn [budgets set_allocations] in Hb'.
    pose proof (Hbud _ _ _ Hb'). case_bool_decide as E; [|lia]. destruct E as [-> ->]. rewrite Hb in Hb'. injection Hb' as <-.
    specialize (Hfit _ Hv). lia.
  - intros id Hsome. by apply Hint0.
  - intros id x Hx. exists x. split; [|by left]. cbn. rewrite lookup_insert_ne; [done|congruence].
  - intros u' k' Hne. split; [done|]. rewrite committed_insert by done. specialize (Hcom u' k').
    rewrite bool_decide_eq_false_2 in Hcom; [lia|]. intros [-> ->]. by apply Hne.
  - intros x [= <-]. exists a. split; [by apply lookup_insert_eq|by left].
Qed.

Abbreviation mine := (Some (lock_of (ai_userId (ap_intent p)) key)).
Abbreviation after := (done_as (reserved p)).

Lemma after_lost e d : within_budget d -> after (Err e) d.
Proof using Hid. intros _. by apply done_reserved. Qed.

(** What other calls may do leaves a locked account's budget, and only lowers its commitments. *)
Lemma budget_kept o : kept effect mine (fun d => budgets d !! (ai_userId (ap_intent p), key) = o).
Proof. intros who d d' Hwho [_ He] Hd. by rewrite (proj1 (He _ _ Hwho)). Qed.

Lemma committed_kept c : kept effect mine (fun d => committed (ai_userId (ap_intent p)) key d <= c).
Proof. intros who d d' Hwho [_ He] Hd. pose proof (proj2 (He _ _ Hwho)). lia. Qed.

Lemma admits_reserve equity : canonical equity -> admits mine after (fun _ => True) (reserve newId p key equity).
Proof using Hid.
  intros He. unfold reserve, findAllocation.
  apply (rg_read DbUnavailable within_budget effect effect_refl mine after after_lost _ _ _
           (knows_row (ai_id (ap_intent p)))); [intros; apply knows_row_kept|intros d Hi _; by apply row_known|].
  intros [a|].
  { apply admits_existing; [intros d _ Hs; by apply done_reserved|intros; by apply after_lost]. }
  unfold resolveBudget. eapply (rg_read_call DbUnavailable within_budget effect effect_refl mine after after_lost _ _ _ _
           (fun o d => budgets d !! (ai_userId (ap_intent p), key) = o)); [intros; apply budget_kept|done|].
  intros [b|]; [|by apply rg_throw, after_lost]. cbn [bind]. destruct (negb _); [by apply rg_throw, after_lost|].
  unfold aggregateActiveAllocations. eapply (rg_read_call DbUnavailable within_budget effect effect_refl mine after after_lost _ _ _ _
           (fun rows d => budgets d !! (ai_userId (ap_intent p), key) = Some b /\
                          committed (ai_userId (ap_intent p)) key d <= capital_sum counted rows)).
  { intros rows who d d' Hwho Hef [Hb Hc]. split; [by apply (budget_kept _ who d)|by apply (committed_kept _ who d)]. }
  { intros d _ Hb. split; [done|]. by rewrite committed_rows. }
  intros rows. destruct (aggregate_holds rows) as (bk & -> & _). cbn [of_result bind].
  destruct (sufficiency p equity b _) as [[]|e] eqn:Hs; cbn [of_result bind]; [|by apply rg_throw, after_lost].
  apply (rg_op DbUnavailable within_budget effect mine after after_lost). intros d Hi [Hb Hc].
  destruct (insert_within d b _ Hi Hb Hc (fun v => sufficiency_fits p equity b _ bk v He Hs)) as (Hi' & Hef & Hsay).
  split; [done|]. split; [done|]. intros a Ha. exists (says (Allocated a)). split; [apply says_kept|]. split; [by apply Hsay|].
  intros d' _ Hd'. by apply done_reserved.
Qed.
End reservation.

(** ** Setting a budget *)

Lemma guar_moves_state u conn account : guar moves (getUserCapitalAllocationState u conn account).
Proof. unfold getUserCapitalAllocationState, aggregateActiveAllocations. guar_walk. Qed.

Section budget.
Context (u key currency : string) (amount : ED) (Hamount : canonical amount).
Context (conn : ConnectionView) (account : option BrokerAccountState).

Definition then_state (r : result exn CapitalAnswer) : io CapitalAnswer :=
  match r with
  | Ok _ => let* state := getUserCapitalAllocationState u conn account in Ret (UserState state)
  | Err e => Throw e
  end.

Abbreviation mine := (Some (lock_of u key)).
Abbreviation after := (done_as then_state).

Lemma done_state r d : after r d.
Proof.
  exists (fun _ => True). split; [done|]. split; [done|]. destruct r as [a|e]; [|done].
  apply (rg_guar DbUnavailable within_budget effect None answered ltac:(done) moves); [apply moves_step|apply guar_moves_state|done].
Qed.

(** The upsert: the account's budget is the only change. *)
Lemma upsert_within d c :
  within_budget d -> committed u key d <= c -> (forall total, numeric_column 18 8 (text amount) = Ok total -> c <= total) ->
  let d' := fst (budget_upsert u key currency (text amount) d) in within_budget d' /\ effect mine d d'.
Proof.
  intros Hi Hc Hcov. cbv zeta. unfold budget_upsert. destruct (numeric_column 18 8 (text amount)) as [total|e];
    [|cbn; split; [done|apply effect_refl]].
  destruct (_ && _); [|cbn; split; [done|apply effect_refl]]. specialize (Hcov total eq_refl). cbn [fst].
  pose proof Hi as [Hwf Hb Hn]. split.
  - split; [by destruct Hwf|..|done]. intros u' k' b. cbn [budgets set_budgets]. rewrite lookup_insert_Some.
    intros [[[= <- <-] <-]|[_ Hx]]; [|by apply Hb].
    enough (committed u key d <= total) by by destruct (budgets d !! (u, key)). lia.
  - split; [by apply (rows_refl _)|]. intros u' k' Hne. split; [|done]. cbn. rewrite lookup_insert_ne; [done|].
    intros [= -> ->]. by apply Hne.
Qed.

Lemma admits_set_budget : admits mine after (fun _ => True) (set_budget u key currency amount).
Proof using Hamount.
  assert (forall e d, within_budget d -> after (Err e) d) as Hlost by (intros; apply done_state).
  unfold set_budget, aggregateActiveAllocations.
  eapply (rg_read_call DbUnavailable within_budget effect effect_refl mine after Hlost _ _ _ _
            (fun rows d => committed u key d <= capital_sum counted rows)).
  { intros rows who d d' Hwho [_ He] Hd. pose proof (proj2 (He _ _ Hwho)). lia. }
  { intros d _ _. by rewrite committed_rows. }
  intros rows. destruct (aggregate_holds rows) as (bk & -> & _). cbn [of_result bind fst].
  rewrite (parse_units 8 scale8). cbn [exact rbind]. destruct (lt amount _) as [[]|e] eqn:Hlt; cbn [exact of_result bind];
    [by apply rg_throw| |by apply rg_throw].
  apply (rg_op DbUnavailable within_budget effect mine after Hlost). intros d Hi Hc.
  destruct (upsert_within d _ Hi Hc (fun total => amount_covers amount _ total Hamount Hlt)) as [Hi' He].
  split; [done|]. split; [done|]. intros [] _. exists (fun _ => True). split; [done|]. split; [done|].
  intros d' _ _. apply done_state.
Qed.
End budget.

(** ** The calls *)

Lemma authoritative_canonical account equity currency : authoritative account = Some (equity, currency) -> canonical equity.
Proof.
  unfold authoritative. destruct account as [a|]; [|done]. destruct (truthy _) as [s|]; [|done].
  destruct (tryParse_text s) eqn:E; [|done]. destruct (_ && _); [|done]. intros [= <- _]. by eapply tryParse_canonical.
Qed.

Abbreviation started := (admits None entered (fun _ => True)).

Lemma admits_allocate newId p account :
  is_Some (intents start !! ai_id (ap_intent p)) -> started (resolveOrAllocate sha256_head newId p account).
Proof.
  intros Hid. unfold resolveOrAllocate, findAllocation. destruct (truthy _) as [key|]; [|done].
  apply (rg_read DbUnavailable within_budget effect effect_refl None entered ltac:(done) _ _ _
           (knows_row (ai_id (ap_intent p)))); [intros; apply knows_row_kept|intros d Hi _; by apply row_known|].
  intros [a|].
  { unfold existing_answer. destruct (ca_active a); cbn; [by intros d _ ?|done]. }
  apply (rg_read_any DbUnavailable within_budget effect effect_refl None entered ltac:(done)); [by intros ????|].
  intros [b|]; [|done]. destruct (authoritative account) as [[equity currency]|] eqn:Ha; [|done].
  destruct (negb _); [done|]. intros d _ _. split; [|by apply done_reserved].
  exists (fun _ => True). split; [done|]. split; [done|]. apply admits_reserve; [done|by eapply authoritative_canonical].
Qed.

Lemma admits_budget u conn amount account later : started (setUserCapitalBudget sha256_head u conn amount account later).
Proof.
  unfold setUserCapitalBudget. destruct (truthy _) as [key|]; [|done]. destruct (tryParse_text amount) as [v|] eqn:Hv; [|done].
  destruct (negb _); [done|]. destruct (authoritative account) as [[equity currency]|]; [|done].
  destruct (exact _) as [[]|e]; [done| |done]. intros d _ _. cbn [fst snd]. split.
  - exists (fun _ => True). split; [done|]. split; [done|].
    apply (admits_set_budget u key currency v (tryParse_canonical _ _ Hv) (fst later) (snd later)).
  - apply (done_state u (fst later) (snd later)).
Qed.

Lemma admits_call c : call_ok start c -> started (run_capital c).
Proof.
  destruct c; cbn [run_capital call_ok]; intros Hc; try apply admits_plain; try done.
  - by apply admits_allocate.
  - apply admits_budget.
  - apply guar_moves_state.
  - unfold getAllocationAccountState, aggregateActiveAllocations. guar_walk.
  - apply guar_moves_release.
  - apply guar_moves_process.
  - apply guar_moves_intent.
  - by apply guar_moves_cas.
Qed.
End pool.

(** ** Exact admission *)

Lemma normalize_scale d n : 0 <= scale d -> normalize d = Ok n -> 0 <= scale n <= scale d.
Proof.
  intros Hs. unfold normalize. pose proof (strip_spec (Z.to_nat (scale d)) (unscaled d) (scale d) ltac:(lia)) as H.
  destruct (strip _ _ _) as [v s]. destruct (isCanonical _ _); [|done]. intros [= <-]. cbn. destruct (v =? 0); lia.
Qed.

(** [total * percent / 100], a percent being in units of [10^-2]. *)
Definition cap_of (total : ED) (percent : Z) : Q := (toQ total * toQ (mkED percent 4))%Q.

Lemma gt_value a b x y : canonical a -> canonical b -> (toQ a == x)%Q -> (toQ b == y)%Q -> gt a b = Ok (negb (Qle_bool x y)).
Proof.
  intros Ha Hb Hx Hy. destruct (gt_spec a b Ha Hb) as (g & -> & Hg). f_equal. destruct g.
  - destruct (Qle_bool x y) eqn:E; [|done]. apply Qle_bool_iff in E. lra.
  - symmetry. apply negb_false_iff, Qle_bool_iff. lra.
Qed.

Lemma concentration_exact total requested percent same code :
  canonical total -> canonical requested -> scale total <= 90 ->
  concentration total requested percent (capital_text same) code =
    if Qle_bool (toQ (mkED same 8) + toQ requested) (cap_of total percent) then Ok tt else Err (failed code).
Proof.
  intros Ht Hr Hsc. unfold concentration. assert (0 <= 2 <= MAX_SCALE) as H2 by (unfold MAX_SCALE; lia).
  rewrite (parse_out 2 H2). cbn [exact rbind]. destruct (units_spec 2 H2 percent) as [Cp Qp].
  pose proof (normalize_scale (mkED percent 2) _ ltac:(cbn; lia) (normalize_units 2 H2 percent)) as Sp. cbn [scale] in Sp.
  pose proof (canonical_scale _ Ht).
  destruct (normalize_total (mkED (unscaled total * unscaled (units 2 percent)) (scale total + scale (units 2 percent))))
    as (m & Em & Cm & Qm); [cbn; unfold MAX_SCALE; lia|].
  unfold mul. rewrite Em. cbn [exact rbind]. assert (0 <= scale m <= scale total + scale (units 2 percent)) as Sm by (eapply normalize_scale in Em; cbn in *; lia).
  destruct (divByPowerOfTen m (Int 2)) as [cap|e] eqn:Ec.
  2:{ exfalso. unfold divByPowerOfTen, divPow10_nonneg in Ec. cbn [Z.ltb Z.compare] in Ec.
      destruct (_ >? _) eqn:Eg; [bool_to_prop; unfold MAX_SCALE in *; lia|].
      destruct (normalize_total (mkED (unscaled m) (scale m + 2))) as (x & Ex & _); [cbn; unfold MAX_SCALE; lia|]. congruence. }
  cbn [exact rbind]. destruct (percent_ok m cap Cm Ec) as [Cc Qc].
  rewrite (parse_units 8 scale8). cbn [exact rbind]. destruct (units_spec 8 scale8 same) as [Cs Qs].
  destruct (add_spec _ _ Cs Hr) as (s & -> & Csum & Qsum). cbn [exact rbind].
  rewrite (gt_value s cap (toQ (mkED same 8) + toQ requested) (cap_of total percent) Csum Cc); cbn [exact rbind].
  - by destruct (Qle_bool _ _).
  - by rewrite Qsum, Qs.
  - rewrite Qc, Qm, toQ_mul by lia. unfold cap_of. destruct total as [ut st]. cbn [unscaled scale].
    assert (toQ (mkED (unscaled (units 2 percent)) (scale (units 2 percent))) == toQ (mkED percent 2))%Q as ->
      by by destruct (units 2 percent).
    rewrite <- Qmult_assoc. apply Qmult_comp; [done|]. unfold toQ, Qeq. cbn. lia.
Qed.

(** The verdict on a request, in rational numbers. *)
Definition total_of (b : CapitalBudget) (equity : ED) : ED :=
  if Qle_bool (toQ (mkED (cb_totalCapital b) 8)) (toQ equity) then units 8 (cb_totalCapital b) else equity.

Definition capped (p : AllocateParams) (percent : option Z) (total requested : ED) (same : Z) : bool :=
  match percent with
  | Some percent => enforceConcentrationCaps p && negb (Qle_bool (toQ (mkED same 8) + toQ requested) (cap_of total percent))
  | None => false
  end.

Definition verdict (p : AllocateParams) (equity requested : ED) (b : CapitalBudget) (rows : list Joined) : result exn unit :=
  let total := total_of b equity in
  if negb (Qle_bool (toQ (mkED (capital_sum counted rows) 8) + toQ requested) (toQ total)) then Err (failed ALLOCATION_INSUFFICIENT_CAPITAL)
  else if capped p (cb_maxInstrumentConcentration b) total requested
            (capital_sum (keyed instrument_key (ai_instrument (ap_intent p))) rows)
  then Err (failed ALLOCATION_INSTRUMENT_CONCENTRATION)
  else match truthy (ai_strategyCode (ap_intent p)) with
       | Some strategy =>
           if capped p (cb_maxStrategyConcentration b) total requested (capital_sum (keyed ca_strategyCode strategy) rows)
           then Err (failed ALLOCATION_STRATEGY_CONCENTRATION) else Ok tt
       | None => Ok tt
       end.

Lemma min_total b equity : canonical equity -> min (units 8 (cb_totalCapital b)) equity = Ok (total_of b equity).
Proof.
  intros He. destruct (units_spec 8 scale8 (cb_totalCapital b)) as [Cb Qb]. unfold min, total_of.
  destruct (lte_spec _ _ Cb He) as (c & -> & Hc). cbn [rbind]. f_equal. destruct c.
  - assert (Qle_bool (toQ (mkED (cb_totalCapital b) 8)) (toQ equity) = true) as ->; [|done]. apply Qle_bool_iff. lra.
  - destruct (Qle_bool _ _) eqn:E; [|done]. apply Qle_bool_iff in E. lra.
Qed.

Lemma total_scale b equity : scale equity <= 90 -> canonical equity -> canonical (total_of b equity) /\ scale (total_of b equity) <= 90.
Proof.
  intros Hs He. unfold total_of. destruct (Qle_bool _ _); [|done]. split; [by apply units_spec, scale8|].
  pose proof (normalize_scale (mkED (cb_totalCapital b) 8) _ ltac:(cbn; lia) (normalize_units 8 scale8 _)) as H. cbn in H. lia.
Qed.

Lemma held_text (o : option string) p rows :
  o = (if existsb p rows then Some (capital_text (capital_sum p rows)) else None) -> default "0" o = capital_text (capital_sum p rows).
Proof. intros ->. destruct (existsb p rows) eqn:E; [done|]. cbn. by rewrite capital_sum_none, (units_zero 8 scale8). Qed.

(** The checks of the critical section are the verdict on the rows it read. *)
Lemma sufficiency_exact p equity requested b bk rows :
  canonical equity -> scale equity <= 90 -> parse_text (ap_allocatedCapital p) = Ok requested -> holds bk rows ->
  sufficiency p equity b (capital_text (capital_sum counted rows), bk) = verdict p equity requested b rows.
Proof.
  intros He Hsc Hr Hbk. pose proof (parse_text_canonical _ _ Hr) as Cr. destruct (total_scale b equity Hsc He) as [Ct St].
  unfold sufficiency, verdict. cbn [fst snd]. rewrite (parse_units 8 scale8), (parse_out 8 scale8). cbn [exact rbind].
  rewrite (min_total b equity He). cbn [exact rbind]. rewrite Hr. cbn [exact rbind].
  destruct (units_spec 8 scale8 (capital_sum counted rows)) as [Cc Qc].
  destruct (sub (total_of b equity) (units 8 (capital_sum counted rows))) as [avail|e] eqn:Hsub.
  2:{ exfalso. rewrite sub_add_neg in Hsub by done. destruct (add_spec _ _ Ct (neg_canonical _ Cc)) as (x & Hx & _). congruence. }
  destruct (sub_ok _ _ Ct Cc _ Hsub) as [Ca Qa]. cbn [exact rbind].
  rewrite (gt_value requested avail (toQ requested) (toQ (total_of b equity) - toQ (mkED (capital_sum counted rows) 8)) Cr Ca);
    [|done|by rewrite Qa, Qc]. cbn [exact rbind].
  assert (Qle_bool (toQ requested) (toQ (total_of b equity) - toQ (mkED (capital_sum counted rows) 8)) =
          Qle_bool (toQ (mkED (capital_sum counted rows) 8) + toQ requested) (toQ (total_of b equity))) as ->.
  { apply eq_true_iff_eq. rewrite !Qle_bool_iff. split; intros; lra. }
  destruct (negb _); [done|]. unfold capped. fold (total_of b equity).
  assert (default "0" (fst <$> jget (ai_instrument (ap_intent p)) (byInstrument bk)) =
          capital_text (capital_sum (keyed instrument_key (ai_instrument (ap_intent p))) rows)) as ->.
  { apply held_text. rewrite (hd_instrument _ _ Hbk). by destruct (existsb _ rows). }
  assert (forall s, default "0" (jget s (byStrategy bk)) = capital_text (capital_sum (keyed ca_strategyCode s) rows)) as Hst.
  { intros s. apply held_text, (hd_strategy _ _ Hbk). }
  destruct (cb_maxInstrumentConcentration b) as [ci|], (cb_maxStrategyConcentration b) as [cs|],
    (truthy _) as [s|], (enforceConcentrationCaps p); rewrite ?Hst, ?concentration_exact by done; cbn [rbind andb];
    repeat (destruct (Qle_bool _ _); cbn [rbind negb andb]); done.
Qed.

(** A call running alone. *)
Definition alone (p : io (CapitalAnswer + section DB exn CapitalAnswer Z)) : io CapitalAnswer :=
  (let* o := p in
   match o with
   | inl a => Ret a
   | inr sec => let* r := attempt (sec_body sec) in sec_after sec r
   end)%prog.

Lemma verdict_error p equity requested b rows e : verdict p equity requested b rows = Err e -> exists code, e = failed code.
Proof.
  unfold verdict. destruct (negb _); [intros [= <-]; eauto|]. destruct (capped _ _ _ _ _); [intros [= <-]; eauto|].
  destruct (truthy _); [|done]. destruct (capped _ _ _ _ _); [intros [= <-]; eauto|done].
Qed.

Lemma run_reserve newId key p d equity requested b a :
  allocations d !! ai_id (ap_intent p) = None -> budgets d !! (ai_userId (ap_intent p), key) = Some b ->
  cb_accountCurrency b = ap_accountCurrency p -> canonical equity -> scale equity <= 90 ->
  parse_text (ap_allocatedCapital p) = Ok requested -> new_allocation newId key p = Ok a ->
  run (reserve newId p key equity) d =
    match verdict p equity requested b (aggregate_rows (ai_userId (ap_intent p)) key d) with
    | Err e => (d, Err e)
    | Ok _ => (set_allocations (<[ai_id (ap_intent p) := a]> (allocations d)) d, Ok (Allocated a))
    end.
Proof.
  intros Hnone Hb Hcur He Hsc Hreq Hnew. unfold reserve, findAllocation, resolveBudget. run_simpl. rewrite Hnone. run_simpl.
  rewrite Hb. run_simpl. rewrite bool_decide_eq_true_2 by done. cbn [negb]. unfold aggregateActiveAllocations. run_simpl.
  destruct (aggregate_holds (aggregate_rows (ai_userId (ap_intent p)) key d)) as (bk & -> & Hbk). run_simpl.
  rewrite (sufficiency_exact p equity requested b bk _ He Hsc Hreq Hbk).
  destruct (verdict _ _ _ _ _) as [[]|e]; run_simpl; [|done]. unfold allocation_insert. rewrite Hnew.
  destruct (new_allocation_ok newId key p a Hnew) as (_ & _ & -> & _). rewrite Hnone. rewrite bool_decide_eq_false_2 by by intros [? ?].
  by run_simpl.
Qed.

Lemma pool_consistent sha256_head calls d c :
  within_budget d d -> Forall (call_ok d) calls ->
  rtc (step DbUnavailable) (d, Outside <$> (run_capital sha256_head <$> calls)) c ->
  consistent DbUnavailable (within_budget d) (effect sha256_head) says c.
Proof.
  intros Hd Hcalls Hrun. eapply runs_consistent; [intros; apply says_kept|apply effect_refl|exact Hrun|].
  apply consistent_start; [done|]. apply Forall_fmap. eapply Forall_impl; [exact Hcalls|]. intros x Hx. by apply admits_call.
Qed.

(** ** Claims *)

(** a reservation is decided by exact arithmetic.  For an intent without allocation, on an
    account with a budget in the currency of the request and of the broker, a reservation
    running alone compares the requested capital, plus what the account's rows commit, with the
    smaller of budget and equity; then, where caps apply, plus what the instrument's and the
    strategy's rows commit with that percentage of the same total.  The first comparison that
    fails is the error and nothing is stored; otherwise the row is inserted and answered. *)
Theorem allocate_exact sha256_head newId p account d key equity requested b a :
  let i := ap_intent p in
  let rows := aggregate_rows (ai_userId i) key d in
  truthy (match ap_logicalAccountKey p with Some k => Some k | None => ai_logicalAccountKey i end) = Some key ->
  allocations d !! ai_id i = None -> budgets d !! (ai_userId i, key) = Some b ->
  authoritative account = Some (equity, ap_accountCurrency p) -> cb_accountCurrency b = ap_accountCurrency p ->
  scale equity <= 90 -> parse_text (ap_allocatedCapital p) = Ok requested -> new_allocation newId key p = Ok a ->
  run (alone (resolveOrAllocate sha256_head newId p account)) d =
    match verdict p equity requested b rows with
    | Err e => (d, Err e)
    | Ok _ => (set_allocations (<[ai_id i := a]> (allocations d)) d, Ok (Allocated a))
    end.
Proof.
  intros i rows Hkey Hnone Hb Hacc Hcur Hsc Hreq Hnew. unfold alone, resolveOrAllocate, findAllocation. fold i. rewrite Hkey.
  run_simpl. rewrite Hnone. run_simpl. rewrite Hb, Hacc, bool_decide_eq_true_2 by done. cbn [negb sec_body sec_after]. run_simpl.
  cbn [sec_body]. rewrite (run_reserve newId key p d equity requested b a); try done; [|by eapply authoritative_canonical].
  fold i rows. destruct (verdict _ _ _ _ _) as [[]|e] eqn:Hv; run_simpl; [done|].
  destruct (verdict_error _ _ _ _ _ _ Hv) as [code ->]. done.
Qed.

(** C17: commitments stay within the budget.  On a ledger where they do, take any reservations
    for stored intents, budget changes, views, releases, expiry sweeps, intent transitions and
    trade transitions, interleaved statement by statement under the advisory locks, with
    statements and acknowledgements lost at will: at every moment the committed capital of every
    account is at most its budget. *)
Theorem allocations_within_budget sha256_head calls d c :
  within_budget d d -> Forall (call_ok d) calls ->
  rtc (step DbUnavailable) (d, Outside <$> (run_capital sha256_head <$> calls)) c ->
  forall u k b, budgets (fst c) !! (u, k) = Some b -> committed u k (fst c) <= cb_totalCapital b.
Proof.
  intros Hd Hcalls Hrun. apply (wb_budget d (fst c)), (cs_inv DbUnavailable _ _ _ c (pool_consistent sha256_head calls d c Hd Hcalls Hrun)).
Qed.

(** one allocation per decision.  In the same pools, two allocations answered for one intent,
    to whichever callers, are the same row, which is stored: its amounts never change, and it may
    since have been released, once. *)
Theorem allocation_once sha256_head calls d c i j a b :
  within_budget d d -> Forall (call_ok d) calls ->
  rtc (step DbUnavailable) (d, Outside <$> (run_capital sha256_head <$> calls)) c ->
  snd c !! i = Some (After (Ret (Allocated a))) -> snd c !! j = Some (After (Ret (Allocated b))) ->
  ca_tradeIntentId a = ca_tradeIntentId b ->
  exists row, allocations (fst c) !! ca_tradeIntentId a = Some row /\ capital_evolves a row /\ capital_evolves b row /\
    ca_id a = ca_id b /\ ca_allocatedCapital a = ca_allocatedCapital b.
Proof.
  intros Hd Hcalls Hrun Ha Hb Hab. pose proof (pool_consistent sha256_head calls d c Hd Hcalls Hrun) as Hc.
  destruct (answered_true DbUnavailable _ _ _ c i _ Hc Ha) as (row & Hrow & Hea).
  destruct (answered_true DbUnavailable _ _ _ c j _ Hc Hb) as (row' & Hrow' & Heb).
  rewrite <- Hab, Hrow in Hrow'. injection Hrow' as <-. exists row. split; [done|]. split; [done|]. split; [done|].
  assert (forall x y, capital_evolves x y -> ca_id y = ca_id x /\ ca_allocatedCapital y = ca_allocatedCapital x) as Hsame
    by by intros x y [->|[_ [r ->]]].
  destruct (Hsame _ _ Hea), (Hsame _ _ Heb). split; congruence.
Qed.

(** A pool of 100 USD, and decisions that ask for 60 each. *)
Definition sample_capital_intent (id : string) : AllocationIntent :=
  mkAllocationIntent id "u1" "b1" "EURUSD" "BUY" (Some "trend") (Some "acc1").
Definition sample_allocate (id : string) : AllocateParams :=
  mkAllocate (sample_capital_intent id) None "0.1" "60" "USD" (Some FULL_AUTO) None.
Definition sample_account : option BrokerAccountState := Some (mkBrokerAccount (Some "1000.5") "usd").
Definition sample_budget : CapitalBudget := mkBudget "USD" 10000000000 None (Some 6000).
Definition sample_intent (id : string) : TradeIntent :=
  new_intent id (mkFacts "u1" ("s-" +:+ id) 1000 "b1" (Some "acc1") None (Some "trend") None None "EURUSD" "BUY" "0.5" None
                   None None None None 1 None None None).
Definition sample_ledger : DB :=
  set_budgets {[("u1", "acc1") := sample_budget]}
    (set_intents {["n1" := sample_intent "n1"; "n2" := sample_intent "n2"]} (empty_db 1000)).

Lemma sample_within : within_budget sample_ledger sample_ledger.
Proof.
  split; [split|..]; try done. intros u k b Hb. assert (committed u k sample_ledger = 0) as -> by apply msum_empty.
  cbn in Hb. apply lookup_singleton_Some in Hb as [_ <-]. done.
Qed.

Definition steps_of (i : nat) (n : nat) : list (nat * delivery) := replicate n (i, Exec).

(** The second reservation waits for the lock and is refused. *)
Lemma allocations_within_budget_witness :
  let calls := [KAllocate "a1" (sample_allocate "n1") sample_account; KAllocate "a2" (sample_allocate "n2") sample_account] in
  let sched := steps_of 0 3 ++ steps_of 1 4 ++ steps_of 0 5 ++ steps_of 1 6 in
  let c := drive DbUnavailable sched (sample_ledger, Outside <$> (run_capital (fun _ => 7) <$> calls)) in
  committed "u1" "acc1" (fst c) = 6000000000 /\ committed "u1" "acc1" (fst c) <= 10000000000 /\
  snd c !! 1%nat = Some (After (Throw (failed ALLOCATION_INSUFFICIENT_CAPITAL))).
Proof.
  intros calls sched c. split; [vm_compute; reflexivity|]. split; [|vm_compute; reflexivity].
  apply (allocations_within_budget (fun _ => 7) calls sample_ledger c sample_within) with (b := sample_budget);
    [repeat constructor; by eexists|apply drive_steps|vm_compute; reflexivity].
Defined.

Lemma allocation_once_witness :
  let calls := [KAllocate "a1" (sample_allocate "n1") sample_account; KAllocate "a2" (sample_allocate "n1") sample_account;
                KRelease "n1" "RISK_REJECTED"] in
  let sched := steps_of 0 3 ++ steps_of 1 3 ++ steps_of 0 5 ++ steps_of 1 3 ++ steps_of 2 2 in
  let c := drive DbUnavailable sched (sample_ledger, Outside <$> (run_capital (fun _ => 7) <$> calls)) in
  exists a row, snd c !! 0%nat = Some (After (Ret (Allocated a))) /\ snd c !! 1%nat = Some (After (Ret (Allocated a))) /\
    allocations (fst c) !! "n1" = Some row /\ capital_evolves a row /\ ca_active row = false.
Proof.
  intros calls sched c.
  destruct (new_allocation "a1" "acc1" (sample_allocate "n1")) as [a|e] eqn:Ha; [|vm_compute in Ha; discriminate].
  assert (snd c !! 0%nat = Some (After (Ret (Allocated a)))) as H0 by (vm_compute in Ha; injection Ha as <-; vm_compute; reflexivity).
  assert (snd c !! 1%nat = Some (After (Ret (Allocated a)))) as H1 by (vm_compute in Ha; injection Ha as <-; vm_compute; reflexivity).
  destruct (allocation_once (fun _ => 7) calls sample_ledger c 0 1 a a sample_within) as (row & Hrow & Hev & _);
    [repeat constructor; by eexists|apply drive_steps|exact H0|exact H1|reflexivity|].
  exists a, row. vm_compute in Ha. injection Ha as <-. repeat (split; [done|]). vm_compute in Hrow. by injection Hrow as <-.
Defined.

Lemma allocate_exact_witness :
  run (alone (resolveOrAllocate (fun _ => 7) "a1" (sample_allocate "n1") sample_account)) sample_ledger =
    (set_allocations {["n1" := mkCapital "a1" "u1" "n1" "b1" "acc1" "USD" "EURUSD" "BUY" (Some "trend") 1000 6000000000 true None]}
       sample_ledger, Ok (Allocated (mkCapital "a1" "u1" "n1" "b1" "acc1" "USD" "EURUSD" "BUY" (Some "trend") 1000 6000000000 true None))).
Proof.
  rewrite (allocate_exact (fun _ => 7) "a1" (sample_allocate "n1") sample_account sample_ledger "acc1" (mkED 10005 1) (mkED 60 0)
             sample_budget (mkCapital "a1" "u1" "n1" "b1" "acc1" "USD" "EURUSD" "BUY" (Some "trend") 1000 6000000000 true None));
    [|reflexivity|reflexivity|reflexivity|vm_compute; reflexivity|reflexivity|cbn; lia|vm_compute; reflexivity|vm_compute; reflexivity].
  vm_compute. reflexivity.
Defined.
