(* ===== verification/TradeReservation.v ===== *)
(** * Trade reservations ([execution/execution.service.ts], [atomicallyReserveTradeSlot])

    The insert of the [PENDING] trade of one decision: a critical section under the advisory
    lock of its idempotency key.  The prices of the order and the grant's id are left out of the
    row, and the id the database generates is an argument.  The file states that a decision gets
    one trade, and how an expiry sweep between the intent check and the reservation takes an
    executed decision's capital out of the account's commitments. *)

From S2P Require Import Prelude Prog StateMachines JsString Decimal Store OrderService TradeCas Locks TradeIntents Sums.
From S2P Require Import Capital Allocation CapitalBounds.
Open Scope string_scope.
Open Scope list_scope.
Open Scope Z_scope.

(** What of a [RiskDecision] the reservation reads. *)
Record ReserveParams := mkReserve {
  rp_userId : string; rp_instrument : string; rp_direction : string; rp_signalId : string; rp_tradeIntentId : option string;
  rp_logicalAccountKey : option string; rp_accountCurrency : option string; rp_riskPeriodId : option string;
  rp_connectionId : string; rp_lotSize : string; rp_sessionId : option string }.

Inductive TradeReservation :=
| RESERVED_NEW (trade : TradeRow)
| DUPLICATE_EXISTING (trade : TradeRow).

Definition reserved_trade (r : TradeReservation) : TradeRow := match r with RESERVED_NEW t | DUPLICATE_EXISTING t => t end.

Definition has_key (key : string) (t : TradeRow) : bool := bool_decide (t_idempotencyKey t = key).

(** [INSERT .. 'PENDING' .. RETURNING *]. *)
Definition trade_insert (t : TradeRow) (d : DB) : DB * result exn TradeRow :=
  if bool_decide (is_Some (trades d !! t_id t)) then (d, Err (UniqueViolation "pk_trades"))
  else if bool_decide (is_Some (find_row (has_key (t_idempotencyKey t)) (trades d)))
  then (d, Err (UniqueViolation "uq_trades_idempotency_key"))
  else (set_trades (<[t_id t := t]> (trades d)) d, Ok t).

Section service.
Local Open Scope prog_scope.

(** SHA-256: the hexadecimal digest of a text, and its first four bytes as a big-endian integer. *)
Context (sha256_hex : string -> string) (sha256_head : string -> Z).

Definition generateIdempotencyKey (userId instrument direction signalId : string) : string :=
  sha256_hex (userId +:+ ":" +:+ instrument +:+ ":" +:+ direction +:+ ":" +:+ signalId).

Definition computeTradeReservationLockKey (userId idempotencyKey : string) : Z :=
  Z.land (sha256_head (userId +:+ ":" +:+ idempotencyKey)) 0x7fffffff.

Definition key_of (p : ReserveParams) : string :=
  generateIdempotencyKey (rp_userId p) (rp_instrument p) (rp_direction p) (rp_signalId p).

Definition new_trade (newId : string) (p : ReserveParams) : result exn TradeRow :=
  rmap (fun lots =>
    mkTrade newId (rp_userId p) (key_of p) (rp_tradeIntentId p) Trade.PENDING None None None None None (Some (rp_signalId p))
      (rp_logicalAccountKey p) (rp_accountCurrency p) (rp_riskPeriodId p) None (rp_connectionId p) (rp_sessionId p)
      (rp_instrument p) (rp_direction p) lots None None None None)
    (numeric_column 10 4 (rp_lotSize p)).

Definition insert_slot (newId : string) (p : ReserveParams) (d : DB) : DB * result exn TradeRow :=
  match new_trade newId p with Ok t => trade_insert t d | Err e => (d, Err e) end.

(** The transaction.  PostgreSQL aborts it on a unique violation, so the re-read of the [catch]
    is refused by the driver. *)
Definition reserve_slot (newId : string) (p : ReserveParams) : io TradeReservation :=
  let* existing := sel (fun d => find_row (has_key (key_of p)) (trades d)) in
  match existing with
  | Some t => Ret (DUPLICATE_EXISTING t)
  | None =>
      let* inserted := attempt (op (insert_slot newId p)) in
      match inserted with
      | Ok t => Ret (RESERVED_NEW t)
      | Err err => if isUniqueViolation err then Throw DbUnavailable else Throw err
      end
  end.

(** [tag] files the answer. *)
Definition atomicallyReserveTradeSlot {A} (tag : TradeReservation -> A) (newId : string) (p : ReserveParams)
    : io (A + section DB exn A Z) :=
  Ret (inr (mkSection (computeTradeReservationLockKey (rp_userId p) (key_of p))
              (let* r := reserve_slot newId p in Ret (tag r)) of_result)).
End service.

(** ** One trade per decision *)

Section pool.
Local Open Scope prog_scope.
Context (sha256_hex : string -> string) (sha256_head : string -> Z).

(** A reservation's answer is filed under the id generated for it; a transition answers nothing. *)
Abbreviation answer := (option (string * TradeReservation)).

Inductive trade_call :=
| TReserve (newId : string) (p : ReserveParams)
| TTransition (params : CasParams).

Definition run_trade (c : trade_call) : io (answer + section DB exn answer Z) :=
  match c with
  | TReserve newId p => atomicallyReserveTradeSlot sha256_hex sha256_head (fun r => Some (newId, r)) newId p
  | TTransition params => let* _ := run_cas params in Ret (inl None)
  end.

Definition trade_ok (c : trade_call) : Prop := match c with TReserve _ _ => True | TTransition params => patch_sets_target params end.

(** Trades are under their id, one per idempotency key. *)
Definition trades_wf (d : DB) : Prop := indexed t_id (fun _ => true) t_idempotencyKey (trades d).

(** What a statement does: trades evolve, or one is inserted. *)
Definition trade_effect (who : option Z) (d d' : DB) : Prop := rows_evolve trade_evolves (trades d) (trades d').

Definition trade_stands (t : TradeRow) (d : DB) : Prop := exists id t', trades d !! id = Some t' /\ trade_evolves t t'.

Definition filed (o : answer) (d : DB) : Prop :=
  match o with
  | Some (newId, r) =>
      trade_stands (reserved_trade r) d /\ match r with RESERVED_NEW t => t_id t = newId | DUPLICATE_EXISTING _ => True end
  | None => True
  end.

Abbreviation holds_for := (rg DbUnavailable trades_wf trade_effect).

Lemma effect_none who d : trade_effect who d d.
Proof. by apply (rows_refl _). Qed.

Lemma stands_kept me t : kept trade_effect me (trade_stands t).
Proof.
  intros who d d' _ He (id & x & Hx & Hev). destruct (He _ _ Hx) as (y & Hy & Hev'). exists id, y.
  split; [done|by etransitivity].
Qed.

Lemma filed_kept me o : kept trade_effect me (filed o).
Proof.
  destruct o as [[newId r]|]; [|done]. intros who d d' Ho He [Hs Hr]. split; [by apply (stands_kept me _ who d)|done].
Qed.

Lemma trade_rel_effect me d d' : trade_rel d d' -> trades_wf d -> trades_wf d' /\ trade_effect me d d'.
Proof.
  intros [H1 H2] Hwf. split; [|done]. eapply indexed_evolve; [|exact H2|exact Hwf]. intros t t' [? ? ? ? ? ?]. done.
Qed.

Abbreviation done_as := (leaves (K := Z) DbUnavailable trades_wf trade_effect filed of_result).
Abbreviation entered := (enters (K := Z) DbUnavailable trades_wf trade_effect filed).
Abbreviation started := (holds_for None entered (fun _ => True)).

Lemma done_filed r d : match r with Ok o => filed o d | Err _ => True end -> done_as r d.
Proof.
  destruct r as [o|e]; cbn; intros Hr.
  - exists (filed o). split; [apply filed_kept|]. split; [done|]. by intros d' _ ?.
  - by exists (fun _ => True).
Qed.

Lemma insert_effect me t d :
  trades_wf d -> let r := trade_insert t d in
  trades_wf (fst r) /\ trade_effect me d (fst r) /\ forall x, snd r = Ok x -> x = t /\ trade_stands t (fst r).
Proof.
  intros Hwf. cbv zeta. unfold trade_insert. case_bool_decide as H1; [cbn; split; [done|split; [apply effect_none|done]]|].
  case_bool_decide as H2; [cbn; split; [done|split; [apply effect_none|done]]|]. rewrite <- eq_None_not_Some in H1, H2.
  rewrite find_row_none in H2. cbn [fst snd]. split; [|split].
  - apply indexed_insert; [done| |done]. intros _ id x Hx _ Heq. specialize (H2 id x Hx). by apply bool_decide_eq_false in H2.
  - intros id x Hx. exists x. split; [|done]. cbn. rewrite lookup_insert_ne; [done|congruence].
  - intros x [= <-]. split; [done|]. exists (t_id t), t. split; [by apply lookup_insert_eq|done].
Qed.

Lemma slot_effect me newId p d :
  trades_wf d -> let r := insert_slot sha256_hex newId p d in
  trades_wf (fst r) /\ trade_effect me d (fst r) /\ forall x, snd r = Ok x -> t_id x = newId /\ trade_stands x (fst r).
Proof.
  intros Hwf. cbv zeta. unfold insert_slot. destruct (new_trade sha256_hex newId p) as [t|e] eqn:Ht; [|split; [done|by split; [apply effect_none|]]].
  apply rmap_ok in Ht as (lots & _ & ->). match goal with |- context [trade_insert ?t d] => pose proof (insert_effect me t d Hwf) as (H1 & H2 & H3) end.
  split; [done|]. split; [done|]. intros x Hx. by destruct (H3 x Hx) as [-> ?].
Qed.

Lemma admits_slot newId p :
  holds_for (Some (computeTradeReservationLockKey sha256_head (rp_userId p) (key_of sha256_hex p))) done_as (fun _ => True)
    (let* r := reserve_slot sha256_hex newId p in Ret (Some (newId, r))).
Proof.
  assert (forall e d, trades_wf d -> done_as (Err e) d) as Hlost by (intros; by apply done_filed).
  unfold reserve_slot. eapply (rg_read_call DbUnavailable trades_wf trade_effect effect_none _ done_as Hlost _ _ _ _
    (fun o d => match o with Some t => trade_stands t d | None => True end)).
  - intros [t|]; [apply stands_kept|done].
  - intros d _ _. destruct (find_row _ _) as [t|] eqn:E; [|done]. apply find_row_some in E as (id & Hid & _). by exists id, t.
  - intros [t|]; [by intros d _ Hs; apply done_filed|].
    split; [|by apply rg_throw]. intros d Hwf _.
    destruct (slot_effect (Some (computeTradeReservationLockKey sha256_head (rp_userId p) (key_of sha256_hex p)))
                newId p d Hwf) as (Hwf' & He & Hx).
    split; [done|]. split; [done|]. destruct (insert_slot _ newId p d) as [d' [t|e]]; cbn [fst snd] in *.
    + destruct (Hx t eq_refl) as [Hid Hs]. exists (trade_stands t). split; [apply stands_kept|].
      split; [done|]. intros d2 _ Hd2. by apply done_filed.
    + exists (fun _ => True). split; [done|]. split; [done|]. cbn. by destruct (isUniqueViolation e); cbn; intros; apply Hlost.
Qed.

Lemma admits_trade c : trade_ok c -> started (run_trade c).
Proof.
  destruct c as [newId p|params]; cbn [run_trade trade_ok]; intros Hc.
  - intros d _ _. split; [|by apply done_filed]. exists (fun _ => True). split; [done|]. split; [done|]. apply admits_slot.
  - apply (rg_guar DbUnavailable trades_wf trade_effect None entered ltac:(done) trade_rel); [apply trade_rel_effect| |done].
    unfold run_cas. apply guar_bind; [by apply guar_cas|done].
Qed.
End pool.

(** ** Claims *)

(** C20: one trade per decision.  Whatever reservations and trade transitions run together,
    interleaved statement by statement under the advisory locks, with statements and
    acknowledgements lost at will: two reservations of the same decision that are answered are
    answered the same stored trade, and of two that generated different ids at most one is told
    that it created it. *)
Theorem reservation_once sha256_hex sha256_head calls d c i j newId newId' r r' :
  trades_wf d -> Forall trade_ok calls ->
  rtc (step DbUnavailable) (d, Outside <$> (run_trade sha256_hex sha256_head <$> calls)) c ->
  snd c !! i = Some (After (Ret (Some (newId, r)))) -> snd c !! j = Some (After (Ret (Some (newId', r')))) ->
  t_idempotencyKey (reserved_trade r) = t_idempotencyKey (reserved_trade r') ->
  (exists t, trades (fst c) !! t_id t = Some t /\ trade_evolves (reserved_trade r) t /\ trade_evolves (reserved_trade r') t) /\
  (newId <> newId' -> ~ (exists t t', r = RESERVED_NEW t /\ r' = RESERVED_NEW t')).
Proof.
  intros Hwf Hcalls Hrun Hi Hj Hkey.
  assert (consistent DbUnavailable trades_wf trade_effect filed c) as Hc.
  { eapply runs_consistent; [intros; apply filed_kept|apply effect_none|exact Hrun|]. apply consistent_start; [done|].
    apply Forall_fmap. eapply Forall_impl; [exact Hcalls|]. intros x Hx. by apply admits_trade. }
  destruct (answered_true DbUnavailable _ _ _ c i _ Hc Hi) as [(id & t & Ht & He) Hr].
  destruct (answered_true DbUnavailable _ _ _ c j _ Hc Hj) as [(id' & t' & Ht' & He') Hr'].
  destruct (cs_inv _ _ _ _ _ Hc) as [Hid Hslot].
  assert (id = id') as <- by (apply (Hslot _ _ _ _ Ht Ht'); [done|done|rewrite (te_key _ _ He), (te_key _ _ He'); done]).
  rewrite Ht in Ht'. injection Ht' as <-. split; [exists t; by rewrite (Hid _ _ Ht)|].
  intros Hne (x & y & -> & ->). cbn [reserved_trade] in *. apply Hne.
  by rewrite <- Hr, <- Hr', <- (te_id _ _ He), <- (te_id _ _ He').
Qed.

(** Two deliveries of one decision. *)
Definition sample_reserve : ReserveParams := mkReserve "u1" "EURUSD" "BUY" "s1" (Some "n1") None None None "b1" "0.1" None.

Lemma reservation_once_witness :
  let calls := [TReserve "t1" sample_reserve; TReserve "t2" sample_reserve] in
  let sched := steps_of 0 2 ++ steps_of 1 1 ++ steps_of 0 2 ++ steps_of 1 3 in
  let c := drive DbUnavailable sched (empty_db 1000, Outside <$> (run_trade id (fun _ => 7) <$> calls)) in
  let t := mkTrade "t1" "u1" "u1:EURUSD:BUY:s1" (Some "n1") Trade.PENDING None None None None None (Some "s1") None None None
             None "b1" None "EURUSD" "BUY" 1000 None None None None in
  snd c !! 0%nat = Some (After (Ret (Some ("t1", RESERVED_NEW t)))) /\
  snd c !! 1%nat = Some (After (Ret (Some ("t2", DUPLICATE_EXISTING t)))) /\
  exists t', trades (fst c) !! t_id t' = Some t' /\ trade_evolves t t'.
Proof.
  intros calls sched c t.
  assert (snd c !! 0%nat = Some (After (Ret (Some ("t1", RESERVED_NEW t))))) as H0 by (vm_compute; reflexivity).
  assert (snd c !! 1%nat = Some (After (Ret (Some ("t2", DUPLICATE_EXISTING t))))) as H1 by (vm_compute; reflexivity).
  split; [exact H0|]. split; [exact H1|].
  destruct (reservation_once id (fun _ => 7) calls (empty_db 1000) c 0 1 _ _ _ _ ltac:(by split) ltac:(by repeat constructor)
              ltac:(apply drive_steps) H0 H1 eq_refl) as [(t' & Ht & He & _) _].
  by exists t'.
Defined.

(** ** Live margin outside the ledger *)

(** The capital of the decisions that have a live trade, released or not. *)
Definition live_margin (userId key : string) (d : DB) : Z :=
  msum (fun a => if bool_decide (ca_userId a = userId) && bool_decide (ca_logicalAccountKey a = key)
                 then ca_allocatedCapital a * msum (fun t => Z.b2z (live (ca_tradeIntentId a) t)) (trades d) else 0) (allocations d).

(** A reservation running alone. *)
Definition reserve_alone (newId : string) (p : ReserveParams) : io TradeReservation := transaction (reserve_slot id newId p).

Definition decision (id : string) (generatedAt : Z) : TradeIntent :=
  new_intent id (mkFacts "u1" ("s-" +:+ id) generatedAt "b1" (Some "acc1") None (Some "trend") None None "EURUSD" "BUY" "0.5" None
                   None None None None 1 None None None).
Definition two_decisions : DB :=
  set_budgets {[("u1", "acc1") := mkBudget "USD" 10000000000 None None]}
    (set_intents {["n1" := decision "n1" 1000; "n2" := decision "n2" 300000]} (empty_db 2000)).
Definition order_of (id : string) : ReserveParams := mkReserve "u1" "EURUSD" "BUY" ("s-" +:+ id) (Some id) None None None "b1" "0.5" None.
Definition after_run {A} (p : io A) (d : DB) : DB := fst (run p d).

(** the expiry sweep can take executed capital out of the ledger.  On an account of 100, a
    decision holding 60 passes the intent guard of the execution one millisecond before it
    expires; the sweep runs, expires the intent and releases its allocation; the execution then
    reserves its trade, which nothing refuses.  A second decision is now allocated 60 and
    reserves its trade: two pending trades hold a margin of 120, of which the ledger counts 60. *)
Theorem sweep_frees_live_margin :
  let d1 := set_now 360999 (after_run (alone (resolveOrAllocate (fun _ => 7) "a1" (sample_allocate "n1") sample_account)) two_decisions) in
  let d2 := set_now 361000 (after_run (resolveIntentForExecutionBySignal "u1" "s-n1") d1) in
  let d3 := after_run (process 361000 361000) d2 in
  let d4 := after_run (markExecuted "n1" "t1") (after_run (reserve_alone "t1" (order_of "n1")) d3) in
  let d5 := after_run (alone (resolveOrAllocate (fun _ => 7) "a2" (sample_allocate "n2") sample_account)) d4 in
  let d6 := after_run (reserve_alone "t2" (order_of "n2")) d5 in
  snd (run (resolveIntentForExecutionBySignal "u1" "s-n1") d1) = Ok (decision "n1" 1000) /\
  snd (run (process 361000 361000) d2) = Ok (mkSweep 1 1 0) /\
  snd (run (reserve_alone "t1" (order_of "n1")) d3) = rmap RESERVED_NEW (new_trade id "t1" (order_of "n1")) /\
  (t_status <$> trades d6 !! "t1") = Some Trade.PENDING /\ (t_status <$> trades d6 !! "t2") = Some Trade.PENDING /\
  (n_status <$> intents d6 !! "n1") = Some Intent.EXPIRED /\
  committed "u1" "acc1" d6 = 6000000000 /\ live_margin "u1" "acc1" d6 = 12000000000 /\
  (cb_totalCapital <$> budgets d6 !! ("u1", "acc1")) = Some 10000000000.
Proof. cbv zeta. repeat apply conj; vm_compute; reflexivity. Qed.
