(* ===== verification/AccountSnapshots.v ===== *)
(** * Account snapshots ([broker/services/broker-account-snapshot.service.ts])

    The versioned observations of a broker account: [acceptSnapshot] with its guarded insert
    and its one retry, [resolveFreshSnapshotForNewExposure], the projection into the legacy
    current view, and what [broker/broker.service.ts] makes of them ([recordAccountSnapshot],
    [observeAccountSnapshotNow], [getBrokerAccountState]).  The transaction of an insert holds
    one write, so its statements are left to interleave; the row lock and the in-process write
    lease only exclude schedules.  The [tx] argument, which no caller passes, is left out. *)

From S2P Require Import Prelude Prog StateMachines JsString Decimal DecimalSpecs Store OrderService Capital Boundary Adapter Sizing Assured.
Open Scope string_scope.
Open Scope list_scope.
Open Scope Z_scope.

Definition NEW_EXPOSURE_SNAPSHOT_MAX_AGE_MS : Z := 30000.

Record ProviderAccountObservation := mkObservation {
  po_connectionId : string; po_balance : option string; po_equity : option string; po_margin : option string;
  po_freeMargin : option string; po_marginLevel : option string; po_leverage : option Z;
  po_openPositionsCount : option Z; po_currency : option string; po_providerObservedAt : option Z;
  po_providerAccountIdentity : option string; po_source : string }.

Inductive SnapshotAcceptOutcome :=
| Accepted (snapshot : AccountSnapshot)
| STALE_GENERATION (currentGeneration : Z).

(** What the adapter's [getAccountInfo] answers. *)
Record AccountInfo := mkInfo {
  ai_balance : string; ai_equity : string; ai_margin : option string; ai_freeMargin : option string;
  ai_marginLevel : option string; ai_leverage : option Z; ai_currency : option string }.

(** ** Reads *)

(** [ORDER BY generation DESC LIMIT 1]. *)
Definition later (a b : AccountSnapshot) : AccountSnapshot := if sn_generation a <? sn_generation b then b else a.

Definition snapshots_of (connectionId : string) (d : DB) : list AccountSnapshot :=
  List.filter (fun s => bool_decide (sn_connectionId s = connectionId)) (map snd (map_to_list (snapshots d))).

Definition latest (connectionId : string) (d : DB) : option AccountSnapshot :=
  match snapshots_of connectionId d with
  | [] => None
  | s :: l => Some (fold_left later l s)
  end.

Definition observedAt (s : AccountSnapshot) : Z := default (sn_acceptedAt s) (sn_providerObservedAt s).

Definition snapshot_text (v : option Z) : option string := numeric_out 8 <$> v.

Definition not_fresh {A} (code : SnapshotFailureCode) : result exn A := Err (SnapshotNotFresh code).

(** The checks of [resolveFreshSnapshotForNewExposure], at the given clock. *)
Definition fresh_snapshot (t maxAgeMs : Z) (s : option AccountSnapshot) : result exn AccountSnapshot :=
  match s with
  | None => not_fresh SNAPSHOT_MISSING
  | Some s =>
      if t - observedAt s >? maxAgeMs then not_fresh SNAPSHOT_STALE
      else
        match sn_balance s, sn_equity s with
        | Some _, Some _ =>
            match sn_currency s with
            | Some c => if upper_word 3 c then Ok s else not_fresh SNAPSHOT_CURRENCY_UNKNOWN
            | None => not_fresh SNAPSHOT_CURRENCY_UNKNOWN
            end
        | _, _ => not_fresh SNAPSHOT_MALFORMED
        end
  end.

(** ** Statements *)

Definition decimal_fields (o : ProviderAccountObservation) : list (string * option string) :=
  [("balance", po_balance o); ("equity", po_equity o); ("margin", po_margin o); ("freeMargin", po_freeMargin o);
   ("marginLevel", po_marginLevel o)].

Definition well_formed (f : string * option string) : bool :=
  match f.2 with Some raw => bool_decide (is_Some (tryParse_text raw)) | None => true end.

Definition assertWellFormedDecimals (o : ProviderAccountObservation) : result exn unit :=
  match List.find (fun f => negb (well_formed f)) (decimal_fields o) with
  | Some f => Err (MalformedSnapshotField f.1)
  | None => Ok tt
  end.

Definition nullable_column (p sc : Z) (raw : option string) : result exn (option Z) :=
  match raw with Some raw => rmap Some (numeric_column p sc raw) | None => Ok None end.

Section rows.
Local Open Scope result_scope.

Definition snapshot_row (id : string) (generation t : Z) (o : ProviderAccountObservation) : result exn AccountSnapshot :=
  try! balance := nullable_column 20 8 (po_balance o) in
  try! equity := nullable_column 20 8 (po_equity o) in
  try! margin := nullable_column 20 8 (po_margin o) in
  try! freeMargin := nullable_column 20 8 (po_freeMargin o) in
  try! marginLevel := nullable_column 20 8 (po_marginLevel o) in
  Ok (mkSnapshot id (po_connectionId o) generation (po_providerObservedAt o) t balance equity margin freeMargin marginLevel
        (po_leverage o) (po_openPositionsCount o) (po_currency o) (po_source o) (po_providerAccountIdentity o)).

(** [INSERT INTO broker_account_snapshots ..]; the answer is the row read back. *)
Definition snapshot_insert (id : string) (generation : Z) (o : ProviderAccountObservation) (d : DB)
  : DB * result exn AccountSnapshot :=
  match snapshot_row id generation (now d) o with
  | Err e => (d, Err e)
  | Ok s =>
      if bool_decide (is_Some (snapshots d !! (po_connectionId o, generation)))
      then (d, Err (UniqueViolation "uq_broker_account_snapshot_connection_generation"))
      else (set_snapshots (<[(po_connectionId o, generation) := s]> (snapshots d)) d, Ok s)
  end.

(** The legacy columns of a snapshot. *)
Definition amount (v : option Z) : result exn (option Z) := nullable_column 18 8 (snapshot_text v).

Definition legacy_row (old : option BrokerAccount) (s : AccountSnapshot) : result exn BrokerAccount :=
  try! balance := amount (sn_balance s) in
  try! equity := amount (sn_equity s) in
  try! margin := amount (sn_margin s) in
  try! freeMargin := amount (sn_freeMargin s) in
  try! marginLevel := nullable_column 10 4 (snapshot_text (sn_marginLevel s)) in
  let keep {A} (v : option A) (column : BrokerAccount -> A) (zero : A) := default (default zero (column <$> old)) v in
  let keep_null {A} (v : option A) (column : BrokerAccount -> option A) :=
    match v with Some v => Some v | None => a ← old; column a end in
  Ok (mkAccount (keep balance ba_balance 0) (keep equity ba_equity 0) (keep margin ba_margin 0)
        (keep freeMargin ba_freeMargin 0) (keep marginLevel ba_marginLevel 0) (keep_null (sn_currency s) ba_currency)
        (keep_null (sn_leverage s) ba_leverage) (keep (sn_openPositionsCount s) ba_openPositionsCount 0)
        (sn_acceptedAt s) (Some (sn_generation s))).
End rows.

Definition legacy_insert (s : AccountSnapshot) (d : DB) : DB * result exn unit :=
  match legacy_row None s with
  | Err e => (d, Err e)
  | Ok a =>
      if bool_decide (is_Some (brokerAccounts d !! sn_connectionId s))
      then (d, Err (UniqueViolation "broker_accounts_broker_connection_id_key"))
      else (set_brokerAccounts (<[sn_connectionId s := a]> (brokerAccounts d)) d, Ok tt)
  end.

Definition older (generation : Z) (a : BrokerAccount) : bool :=
  match ba_lastSnapshotGeneration a with Some g => g <? generation | None => true end.

(** [UPDATE .. SET balance = COALESCE($1, balance) .. WHERE .. last_snapshot_generation < $10]. *)
Definition legacy_update (s : AccountSnapshot) (d : DB) : DB * result exn unit :=
  match brokerAccounts d !! sn_connectionId s with
  | Some old =>
      if older (sn_generation s) old then
        match legacy_row (Some old) s with
        | Ok a => (set_brokerAccounts (<[sn_connectionId s := a]> (brokerAccounts d)) d, Ok tt)
        | Err e => (d, Err e)
        end
      else (d, Ok tt)
  | None => (d, Ok tt)
  end.

(** ** The service *)

Section service.
Local Open Scope prog_scope.

Definition readLatestAcceptedSnapshot (connectionId : string) : io (option AccountSnapshot) := sel (latest connectionId).

Definition resolveFreshSnapshotForNewExposure (connectionId : string) : io AccountSnapshot :=
  op (fun d => (d, fresh_snapshot (now d) NEW_EXPOSURE_SNAPSHOT_MAX_AGE_MS (latest connectionId d))).

Definition readMaxGeneration (connectionId : string) : io Z :=
  sel (fun d => default 0 (sn_generation <$> latest connectionId d)).

Definition insertNextGeneration (id : string) (o : ProviderAccountObservation) : io AccountSnapshot :=
  let* currentMax := readMaxGeneration (po_connectionId o) in
  op (snapshot_insert id (currentMax + 1) o).

(** [id1] and [id2] are the uuids of the two attempts. *)
Definition acceptSnapshot (id1 id2 : string) (o : ProviderAccountObservation) : io SnapshotAcceptOutcome :=
  if bool_decide (trim (chars_of (po_connectionId o)) = []) then Throw (RiskEngineError "connectionId")
  else
    do! of_result (assertWellFormedDecimals o) in
    let* first := attempt (insertNextGeneration id1 o) in
    match first with
    | Ok s => Ret (Accepted s)
    | Err err =>
        if negb (isUniqueViolation err) then Throw err
        else
          let* second := attempt (insertNextGeneration id2 o) in
          match second with
          | Ok s => Ret (Accepted s)
          | Err err =>
              if negb (isUniqueViolation err) then Throw err
              else let* currentGeneration := readMaxGeneration (po_connectionId o) in Ret (STALE_GENERATION currentGeneration)
          end
    end.

Definition projectToLegacyAccount (s : AccountSnapshot) : io unit :=
  let* existing := sel (fun d => brokerAccounts d !! sn_connectionId s) in
  match existing with
  | None => op (legacy_insert s)
  | Some existing =>
      if default 0 (ba_lastSnapshotGeneration existing) >=? sn_generation s then Ret tt else op (legacy_update s)
  end.

Definition recordAccountSnapshot (id1 id2 : string) (connection : BrokerConnection) (info : AccountInfo) (source : string)
  : io unit :=
  let* outcome := acceptSnapshot id1 id2
    (mkObservation (b_id connection) (Some (ai_balance info)) (Some (ai_equity info)) (ai_margin info) (ai_freeMargin info)
       (ai_marginLevel info) (ai_leverage info) None (ai_currency info) None (b_accountId connection) source) in
  match outcome with
  | Accepted s => projectToLegacyAccount s
  | STALE_GENERATION _ => Ret tt
  end.

Definition direct_mt5 (b : BrokerConnection) : bool := bool_decide (b_brokerId b = "direct-mt5").

Definition no_credentials (b : BrokerConnection) : bool :=
  let absent o := bool_decide (default "" o = "") in
  absent (b_encryptedCredentials b) || absent (b_credentialIv b) || absent (b_credentialTag b).

(** [session] is what the reconnection, the environment fence and [getAccountInfo] of the
    connection's adapter answer. *)
Definition observeAccountSnapshotNow (session : BrokerConnection -> result exn AccountInfo) (id1 id2 userId connectionId : string)
  : io unit :=
  let* connection := op (fun d => (d, findConnectionById connectionId userId d)) in
  if negb (bool_decide (b_status connection = B_CONNECTED)) then Throw (RiskEngineError "not CONNECTED")
  else if negb (direct_mt5 connection) && no_credentials connection then Throw (RiskEngineError "no stored credentials")
  else if negb (direct_mt5 connection) && negb (Authorization.isUsable (b_credentialStatus connection))
  then Throw (ConflictException "credentials not usable")
  else
    let* info := of_result (session connection) in
    recordAccountSnapshot id1 id2 connection info "on-demand-risk-evaluation".

(** ** [getBrokerAccountState] over the tables *)

Definition snapshot_view (s : AccountSnapshot) : AccountView :=
  mkAccountView (snapshot_text (sn_balance s)) (snapshot_text (sn_equity s)) (snapshot_text (sn_freeMargin s)) (sn_currency s).

Definition account_view (a : BrokerAccount) : AccountView :=
  mkAccountView (Some (numeric_out 8 (ba_balance a))) (Some (numeric_out 8 (ba_equity a)))
    (Some (numeric_out 8 (ba_freeMargin a))) (ba_currency a).

(** The evidence of a sizing, its account read from the tables. *)
Definition with_account (ev : Evidence) (snapshot : option AccountView) (row : option AccountView) : Evidence :=
  {| acceptedSnapshot := snapshot; accountRow := row; riskProfile := riskProfile; connectionAccountType := connectionAccountType;
     executionQuote := executionQuote; instrumentSpecification := instrumentSpecification;
     fxConversionAvailable := fxConversionAvailable; cachedQuote := cachedQuote; conversionQuote := conversionQuote;
     evaluatedAt := evaluatedAt; quotedAt := quotedAt; requiredMargin := requiredMargin |}.

Definition read_account_state (ev : Evidence) (connectionId : string) : io (option (option string * option string * string)) :=
  let* snapshot := readLatestAcceptedSnapshot connectionId in
  match snapshot with
  | Some s => Ret (@getBrokerAccountState (with_account ev (Some (snapshot_view s)) None))
  | None =>
      let* row := sel (fun d => brokerAccounts d !! connectionId) in
      Ret (@getBrokerAccountState (with_account ev None (account_view <$> row)))
  end.
End service.

(** ** Well-formed tables *)

(** A row is under its key, and every generation before a stored one is stored. *)
Record snapshots_wf (d : DB) : Prop := {
  sw_key : forall c g s, snapshots d !! (c, g) = Some s -> sn_connectionId s = c /\ sn_generation s = g /\ 1 <= g;
  sw_gap : forall c g g', is_Some (snapshots d !! (c, g)) -> 1 <= g' <= g -> is_Some (snapshots d !! (c, g')) }.

Definition projected (d : DB) (c : string) : Z := default 0 (a ← brokerAccounts d !! c; ba_lastSnapshotGeneration a).

(** Snapshots are immutable, and the legacy view of a connection never moves back. *)
Record snapshots_rel (d d' : DB) : Prop := {
  sr_kept : snapshots d ⊆ snapshots d';
  sr_forward : forall c, projected d c <= projected d' c }.

#[export] Instance snapshots_rel_preorder : PreOrder snapshots_rel.
Proof.
  split; [by intros d; split|]. intros d1 d2 d3 [H1 H2] [H3 H4].
  split; [by etransitivity|]. intros c. specialize (H2 c). specialize (H4 c). lia.
Qed.

Lemma fold_later l s : (fold_left later l s) ∈ s :: l /\ forall x, x ∈ s :: l -> sn_generation x <= sn_generation (fold_left later l s).
Proof.
  revert s. induction l as [|y l IH]; intros s; cbn [fold_left].
  - split; [by left|]. intros x [->|Hx]%elem_of_cons; [done|by apply not_elem_of_nil in Hx].
  - destruct (IH (later s y)) as [Hin Hmax]. unfold later in *. destruct (Z.ltb_spec (sn_generation s) (sn_generation y)).
    + split; [right; done|]. intros x [->|Hx]%elem_of_cons; [|by apply Hmax].
      specialize (Hmax y ltac:(left)). lia.
    + split; [apply elem_of_cons in Hin as [->|Hin]; [left|right; by right]|]. intros x Hx.
      apply elem_of_cons in Hx as [->|[->|Hx]%elem_of_cons]; [apply Hmax; left| |apply Hmax; by right].
      specialize (Hmax s ltac:(left)). lia.
Qed.

Lemma elem_snapshots_of c d s : s ∈ snapshots_of c d <-> sn_connectionId s = c /\ exists k, snapshots d !! k = Some s.
Proof.
  unfold snapshots_of. rewrite list_elem_of_In, filter_In, <- list_elem_of_In, bool_decide_eq_true.
  split.
  - intros [Hin ->]. split; [done|]. apply list_elem_of_fmap in Hin as ([k x] & -> & Hk%elem_of_map_to_list). eauto.
  - intros [-> [k Hk]]. split; [|done]. apply list_elem_of_fmap. exists (k, s). split; [done|by apply elem_of_map_to_list].
Qed.

(** The latest snapshot is the stored one of the highest generation. *)
Lemma latest_spec c d :
  snapshots_wf d ->
  match latest c d with
  | Some s => snapshots d !! (c, sn_generation s) = Some s /\
              forall g x, snapshots d !! (c, g) = Some x -> g <= sn_generation s
  | None => forall g, snapshots d !! (c, g) = None
  end.
Proof.
  intros [Hkey _]. unfold latest. destruct (snapshots_of c d) as [|s l] eqn:E.
  - intros g. destruct (snapshots d !! (c, g)) as [x|] eqn:Hx; [|done]. exfalso.
    assert (x ∈ snapshots_of c d) as Hin by (apply elem_snapshots_of; split; [apply (Hkey c g x Hx)|by exists (c, g)]).
    rewrite E in Hin. by apply not_elem_of_nil in Hin.
  - destruct (fold_later l s) as [Hin Hmax]. rewrite <- E in *. set (x := fold_left later l s) in *.
    apply elem_snapshots_of in Hin as [Hc [[c' g'] Hx]]. destruct (Hkey _ _ _ Hx) as (Hc' & Hg' & _).
    split; [by rewrite Hg', <- Hc, Hc'|]. intros g y Hy. destruct (Hkey _ _ _ Hy) as (Hyc & <- & _).
    apply Hmax, elem_snapshots_of. split; [done|by exists (c, sn_generation y)].
Qed.

(** ** The statements keep them *)

Section calls.
Abbreviation sure := (assured DbUnavailable snapshots_wf snapshots_rel).

Definition known (c : string) (m : Z) (d : DB) : Prop := m = 0 \/ is_Some (snapshots d !! (c, m)).

Lemma known_stable c m : stable snapshots_rel (known c m).
Proof. intros d d' [Hk _] [->|[s Hs]]; [by left|right]. exists s. by eapply lookup_weaken. Qed.

Lemma sure_max c K : sure (known c) K (readMaxGeneration c).
Proof.
  apply assured_read; [apply _|apply known_stable|]. intros d Hwf _. pose proof (latest_spec c d Hwf) as Hl.
  destruct (latest c d) as [s|]; [right|by left]. cbn. destruct Hl as [-> _]. eauto.
Qed.

(** The answer of an insert. *)
Definition stored (ids : list string) (o : ProviderAccountObservation) (s : AccountSnapshot) (d : DB) : Prop :=
  snapshots d !! (po_connectionId o, sn_generation s) = Some s /\
  exists id t, id ∈ ids /\ snapshot_row id (sn_generation s) t o = Ok s.

Lemma stored_stable ids o s : stable snapshots_rel (stored ids o s).
Proof. intros d d' [Hk _] [Hs Hr]. split; [by eapply lookup_weaken|done]. Qed.

Lemma snapshot_row_key id g t o s : snapshot_row id g t o = Ok s -> sn_connectionId s = po_connectionId o /\ sn_generation s = g.
Proof.
  unfold snapshot_row. do 5 (intros (? & _ & H)%rbind_ok; revert H). by intros [= <-].
Qed.

Lemma insert_keeps id m o d :
  snapshots_wf d -> known (po_connectionId o) m d ->
  snapshots_wf (fst (snapshot_insert id (m + 1) o d)) /\ snapshots_rel d (fst (snapshot_insert id (m + 1) o d)) /\
  forall s, snd (snapshot_insert id (m + 1) o d) = Ok s -> stored [id] o s (fst (snapshot_insert id (m + 1) o d)).
Proof.
  intros Hwf Hm. unfold snapshot_insert. destruct (snapshot_row id (m + 1) (now d) o) as [s|e] eqn:Hrow; [|done].
  case_bool_decide as Hfree; [done|]. apply eq_None_not_Some in Hfree. cbn [fst snd].
  destruct (snapshot_row_key _ _ _ _ _ Hrow) as [Hc Hg]. destruct Hwf as [Hkey Hgap].
  split; [|split].
  - split; cbn.
    + intros c g x. rewrite lookup_insert_Some. intros [[[= <- <-] <-]|[_ Hx]]; [|by apply Hkey].
      split; [done|]. split; [done|]. destruct Hm as [->|[y Hy]]; [lia|]. destruct (Hkey _ _ _ Hy). lia.
    + intros c g g' Hs Hle. destruct (decide ((c, g') = (po_connectionId o, m + 1))) as [->|Hne];
        [rewrite lookup_insert_eq; eauto|]. rewrite lookup_insert_ne by congruence. destruct Hs as [x Hx].
      rewrite lookup_insert_Some in Hx. destruct Hx as [[[= <- <-] _]|[_ Hx]]; [|apply (Hgap c g); eauto].
      destruct Hm as [->|Hm]; [exfalso; apply Hne; f_equal; lia|]. apply (Hgap _ m); [done|].
      assert (g' <> m + 1) by (intros ->; done). lia.
  - split; [by apply insert_subseteq|done].
  - intros x [= <-]. split; [cbn; rewrite Hg; apply lookup_insert_eq|]. exists id, (now d). rewrite Hg. split; [by left|done].
Qed.

Lemma sure_insert id o K : sure (stored [id] o) K (insertNextGeneration id o).
Proof.
  apply (assured_bind _ _ _ (known (po_connectionId o))); [apply sure_max|]. intros m.
  apply assured_op; [apply stored_stable|]. intros d. apply insert_keeps.
Qed.

(** What the answer of [acceptSnapshot] promises. *)
Definition accepted (ids : list string) (o : ProviderAccountObservation) (a : SnapshotAcceptOutcome) (d : DB) : Prop :=
  match a with
  | Accepted s => stored ids o s d
  | STALE_GENERATION g => known (po_connectionId o) g d
  end.

Lemma stored_more ids ids' o s d : (forall i, i ∈ ids -> i ∈ ids') -> stored ids o s d -> stored ids' o s d.
Proof. intros Hi [Hs (id & t & Hid & Hr)]. split; [done|]. exists id, t. auto. Qed.

Lemma sure_accept id1 id2 o : sure (accepted [id1; id2] o) (fun _ => True) (acceptSnapshot id1 id2 o).
Proof.
  unfold acceptSnapshot. case_bool_decide; [done|]. apply (assured_bind _ _ _ (fun _ _ => True)); [by apply assured_of_result|].
  intros _. eapply assured_bind; [apply assured_attempt, sure_insert|]. intros [s|e].
  { intros d _ Hs. eapply stored_more; [|exact Hs]. intros i ->%list_elem_of_singleton. by left. }
  destruct (negb (isUniqueViolation e)); [done|]. eapply assured_bind; [apply assured_attempt, sure_insert|]. intros [s|e'].
  { intros d _ Hs. eapply stored_more; [|exact Hs]. intros i ->%list_elem_of_singleton. right. by left. }
  destruct (negb (isUniqueViolation e')); [done|]. eapply assured_bind; [apply sure_max|]. by intros g d _ Hg.
Qed.

Lemma legacy_row_generation old s a : legacy_row old s = Ok a -> ba_lastSnapshotGeneration a = Some (sn_generation s).
Proof. unfold legacy_row. do 5 (intros (? & _ & H)%rbind_ok; revert H). by intros [= <-]. Qed.

Lemma projected_insert d c a g :
  ba_lastSnapshotGeneration a = Some g -> projected d c <= g ->
  snapshots_rel d (set_brokerAccounts (<[c := a]> (brokerAccounts d)) d).
Proof.
  intros Ha Hle. split; [done|]. intros c'. unfold projected in *. cbn. destruct (decide (c = c')) as [->|Hne].
  - rewrite lookup_insert_eq. cbn. by rewrite Ha.
  - by rewrite lookup_insert_ne.
Qed.

Lemma accounts_wf m d : snapshots_wf d -> snapshots_wf (set_brokerAccounts m d).
Proof. intros [Hk Hg]. by split. Qed.

Lemma sure_project ids o s : sure (fun _ _ => True) (stored ids o s) (projectToLegacyAccount s).
Proof.
  apply (assured_bind _ _ _ (fun _ => stored ids o s)).
  { apply assured_read; [apply _|intros _; apply stored_stable|done]. }
  assert (forall d, snapshots_wf d -> stored ids o s d -> 0 <= sn_generation s) as Hpos.
  { intros d [Hk _] [Hs _]. destruct (Hk _ _ _ Hs). lia. }
  intros [existing|]; [case_match; [done|]|]; (apply assured_op; [by intros ???|]); intros d Hwf Hs;
    specialize (Hpos d Hwf Hs); [unfold legacy_update|unfold legacy_insert].
  - destruct (brokerAccounts d !! sn_connectionId s) as [old|] eqn:Hold; [|done].
    destruct (older (sn_generation s) old) eqn:Hn; [|done]. destruct (legacy_row (Some old) s) as [a|e] eqn:Hr; [|done].
    cbn [fst snd]. split; [by apply accounts_wf|]. split; [|done]. apply (projected_insert _ _ _ (sn_generation s)).
    + by eapply legacy_row_generation.
    + unfold projected. rewrite Hold. cbn. unfold older in Hn. destruct (ba_lastSnapshotGeneration old); cbn; bool_to_prop; lia.
  - destruct (legacy_row None s) as [a|e] eqn:Hr; [|done]. case_bool_decide as Hfree; [done|]. apply eq_None_not_Some in Hfree.
    cbn [fst snd]. split; [by apply accounts_wf|]. split; [|done]. apply (projected_insert _ _ _ (sn_generation s)).
    + by eapply legacy_row_generation.
    + unfold projected. by rewrite Hfree.
Qed.

Lemma sure_record id1 id2 b info source : sure (fun _ _ => True) (fun _ => True) (recordAccountSnapshot id1 id2 b info source).
Proof.
  eapply assured_bind; [apply sure_accept|]. intros [s|g]; [apply sure_project|done].
Qed.

(** The calls of a pool, and their answers. *)
Inductive scall :=
| SAccept (id1 id2 : string) (o : ProviderAccountObservation)
| SRecord (id1 id2 : string) (b : BrokerConnection) (info : AccountInfo) (source : string)
| SObserve (session : BrokerConnection -> result exn AccountInfo) (id1 id2 userId connectionId : string).

Definition run_scall (c : scall) : io (option (list string * ProviderAccountObservation * SnapshotAcceptOutcome)) :=
  match c with
  | SAccept id1 id2 o => bind (acceptSnapshot id1 id2 o) (fun a => Ret (Some ([id1; id2], o, a)))
  | SRecord id1 id2 b info source => bind (recordAccountSnapshot id1 id2 b info source) (fun _ => Ret None)
  | SObserve session id1 id2 u c => bind (observeAccountSnapshotNow session id1 id2 u c) (fun _ => Ret None)
  end.

Definition scall_says (a : option (list string * ProviderAccountObservation * SnapshotAcceptOutcome)) (d : DB) : Prop :=
  match a with Some (ids, o, a) => accepted ids o a d | None => True end.

Lemma sure_observe session id1 id2 u c : sure (fun _ _ => True) (fun _ => True) (observeAccountSnapshotNow session id1 id2 u c).
Proof.
  apply assured_step; [done|]. intros b. do 3 (case_match; [done|]).
  apply (assured_bind _ _ _ (fun _ _ => True)); [by apply assured_of_result|]. intros info. apply sure_record.
Qed.

Lemma sure_scall c : sure scall_says (fun _ => True) (run_scall c).
Proof.
  destruct c; cbn [run_scall]; (eapply assured_bind; [first [apply sure_accept|apply sure_record|apply sure_observe]|]).
  all: intros a; intros d _ Ha; done.
Qed.
End calls.

(** C40: account snapshots are versioned.  Whatever observations are accepted, recorded or refreshed
    together, under any interleaving and any lost statements: the generations of a connection
    stay without gaps, a stored snapshot never changes, the legacy view never moves to an older
    generation, and an accepted observation is stored, with its values, under a generation of
    its own. *)
Theorem snapshots_versioned calls sched d :
  snapshots_wf d ->
  let c := exec DbUnavailable sched (d, run_scall <$> calls) in
  snapshots_wf (fst c) /\ snapshots_rel d (fst c) /\
  (forall i ids o s, snd c !! i = Some (Ret (Some (ids, o, Accepted s))) -> stored ids o s (fst c)) /\
  (forall i j ids ids' o o' s s', snd c !! i = Some (Ret (Some (ids, o, Accepted s))) ->
     snd c !! j = Some (Ret (Some (ids', o', Accepted s'))) -> po_connectionId o = po_connectionId o' ->
     sn_generation s = sn_generation s' -> s = s').
Proof.
  intros Hwf c. edestruct (exec_assured DbUnavailable snapshots_wf snapshots_rel scall_says sched (d, run_scall <$> calls)) as (Hi & HR & Ha);
    [done|apply Forall_fmap, Forall_true, sure_scall|]. fold c in Hi, HR, Ha.
  split; [done|]. split; [done|]. split.
  - intros i ids o s Hs. exact (Ha i _ Hs).
  - intros i j ids ids' o o' s s' Hs Hs' Ho Hg. destruct (Ha i _ Hs) as [H _]. destruct (Ha j _ Hs') as [H' _].
    rewrite Ho, Hg in H. congruence.
Qed.

(** Two replicas record the same account at once: the loser of the first generation retries. *)
Definition sample_observation (equity : string) : ProviderAccountObservation :=
  mkObservation "b1" (Some "1000") (Some equity) None (Some equity) None None None (Some "USD") None None "provider:x".

Lemma snapshots_versioned_witness :
  let calls := [SAccept "i1" "i2" (sample_observation "1000"); SAccept "i3" "i4" (sample_observation "900.5")] in
  let sched := [(0, Exec); (1, Exec); (0, Exec); (1, Exec); (1, Exec); (1, Exec)]%nat in
  let c := exec DbUnavailable sched (empty_db 1000, run_scall <$> calls) in
  exists s, snd c !! 1%nat = Some (Ret (Some (["i3"; "i4"], sample_observation "900.5", Accepted s))) /\
    sn_id s = "i4" /\ sn_generation s = 2 /\ sn_equity s = Some 90050000000 /\ snapshots (fst c) !! ("b1", 2) = Some s.
Proof.
  intros calls sched c. eexists. split; [vm_compute; reflexivity|]. do 3 (split; [reflexivity|]).
  assert (snapshots_wf (empty_db 1000)) as Hwf by by split; intros ???; [|intros [? ?]].
  destruct (snapshots_versioned calls sched (empty_db 1000) Hwf) as (_ & _ & Hs & _).
  edestruct (Hs 1%nat) as [Hl _]; [vm_compute; reflexivity|]. exact Hl.
Defined.

(** an accepted observation may fail to refresh the account.  The margin level of a nearly
    unused margin does not fit the legacy column: the snapshot is stored, the projection throws,
    and the on-demand refresh of a LIVE evaluation fails although its snapshot was accepted. *)
Theorem projection_overflows :
  let info := mkInfo "100000" "100000" (Some "5") (Some "99995") (Some "2000000") None (Some "USD") in
  let d := set_connections {["b1" := sample_connection "direct-mt5" "LIVE"]} (empty_db 1000) in
  let '(d', r) := run (observeAccountSnapshotNow (fun _ => Ok info) "i1" "i2" "u1" "b1") d in
  r = Err NumericOverflow /\ brokerAccounts d' !! "b1" = None /\
  exists s, snapshots d' !! ("b1", 1) = Some s /\ fresh_snapshot 1000 NEW_EXPOSURE_SNAPSHOT_MAX_AGE_MS (latest "b1" d') = Ok s.
Proof. vm_compute. split; [done|]. split; [done|]. eexists. done. Qed.
