(* ===== verification/DailyRisk.v ===== *)
(** * Daily risk periods ([execution/services/daily-risk-period.service.ts])

    The loss budget of a logical account for a UTC day, created once from the first snapshot of
    the day and never reset; the exact realised profit and loss of the day's window; and the
    user's reset of that window.  A day is the first ten characters of its ISO text.  The
    table names the tests override and the branch for their database are left out. *)

From S2P Require Import Prelude Prog StateMachines JsString JsDate Decimal DecimalSpecs Store OrderService Capital Sums Assured.
From Stdlib Require Import QArith.
Open Scope string_scope.
Open Scope list_scope.
Open Scope Z_scope.

Record PeriodInput := mkPeriodInput {
  pi_userId : string; pi_brokerConnectionId : string; pi_logicalAccountKey : string; pi_accountCurrency : string;
  pi_snapshot : string * string * string; (** id, balance and equity *)
  pi_riskProfile : option (string * Z) (** id and revision *) }.

(** The account a loss is measured on. *)
Record LossScope := mkScope { ls_userId : string; ls_logicalAccountKey : string; ls_accountCurrency : string }.

Record ResetInput := mkResetInput { di_scope : LossScope; di_brokerConnectionId : string; di_sessionId : option string }.

(** ** Reads *)

Definition utcDayKey (t : Z) : string := string_of (take 10 (toISOString t)).
Definition day_start (t : Z) : Z := t - t mod MS_PER_DAY.

Definition period_key (i : PeriodInput) (t : Z) : string * string * string :=
  (pi_userId i, pi_logicalAccountKey i, utcDayKey t).

Definition reset_key (s : LossScope) (t : Z) : string * string * string * string :=
  (ls_userId s, ls_logicalAccountKey s, ls_accountCurrency s, utcDayKey t).

(** A closed trade of the user in the window with a realised result. *)
Definition realised_since (userId : string) (windowStart : Z) (t : TradeRow) : bool :=
  bool_decide (t_userId t = userId) && bool_decide (t_status t = Trade.CLOSED) &&
  match t_closedAt t with Some c => windowStart <=? c | None => false end &&
  bool_decide (is_Some (t_realisedPnl t)).

Definition in_scope (s : LossScope) (t : TradeRow) : bool :=
  bool_decide (t_logicalAccountKey t = Some (ls_logicalAccountKey s)) &&
  bool_decide (t_accountCurrency t = Some (ls_accountCurrency s)).

Definition pnl_in (s : LossScope) (windowStart : Z) (t : TradeRow) : Z :=
  if realised_since (ls_userId s) windowStart t && in_scope s t then default 0 (t_realisedPnl t) else 0.

(** Without provenance: the row could belong to any account of the user. *)
Definition legacy (userId : string) (windowStart : Z) (t : TradeRow) : bool :=
  realised_since userId windowStart t && negb (bool_decide (t_realisedPnl t = Some 0)) &&
  (bool_decide (t_logicalAccountKey t = None) || bool_decide (t_accountCurrency t = None)).

(** [CASE WHEN COALESCE(SUM(realised_pnl), 0) < 0 THEN .. ELSE 0 END]. *)
Definition net_loss (s : LossScope) (windowStart : Z) (d : DB) : Z := Z.min 0 (msum (pnl_in s windowStart) (trades d)).

Definition loss_text (v : Z) : string := if v <? 0 then numeric_out 8 v else "0".

Definition window_start (t : Z) (resetAt : option Z) : Z :=
  match resetAt with
  | Some r => if (day_start t <=? r) && (r <=? t) then r else day_start t
  | None => day_start t
  end.

Definition reset_at (s : LossScope) (t : Z) (d : DB) : option Z :=
  match lossResets d !! reset_key s t with Some r => Some (dr_resetAt r) | None => None end.

(** ** The service *)

Section service.
Local Open Scope prog_scope.

Definition untrusted {A} (guard : bool) (k : result exn A) : result exn A := if guard then Err DailyRiskPeriodBaseline else k.

Definition assertTrustworthyBaseline (i : PeriodInput) : result exn unit :=
  let '(id, balance, equity) := pi_snapshot i in
  untrusted (bool_decide (pi_userId i = "")) (untrusted (bool_decide (pi_logicalAccountKey i = ""))
    (untrusted (negb (upper_word 3 (pi_accountCurrency i))) (untrusted (bool_decide (id = ""))
      (untrusted (negb (bool_decide (is_Some (tryParse_text balance))))
         (untrusted (negb (bool_decide (is_Some (tryParse_text equity)))) (Ok tt)))))).

Definition assertCurrencyMatches (existing : DailyRiskPeriod) (requested : string) : io unit :=
  if negb (bool_decide (dp_accountCurrency existing = requested)) then Throw DailyRiskPeriodCurrencyMismatch else Ret tt.

Definition period_row (id : string) (i : PeriodInput) : result exn DailyRiskPeriod :=
  let '(snapshotId, balance, equity) := pi_snapshot i in
  rbind (numeric_column 20 8 balance) (fun b => rbind (numeric_column 20 8 equity) (fun e =>
    Ok (mkPeriod id (pi_brokerConnectionId i) (pi_accountCurrency i) b e snapshotId (pi_riskProfile i)))).

Definition period_insert (id : string) (key : string * string * string) (i : PeriodInput) (d : DB) : DB * result exn unit :=
  match period_row id i with
  | Err e => (d, Err e)
  | Ok p =>
      if bool_decide (is_Some (riskPeriods d !! key)) then (d, Err (UniqueViolation "uq_daily_risk_periods_scope"))
      else (set_riskPeriods (<[key := p]> (riskPeriods d)) d, Ok tt)
  end.

Definition findPeriod (key : string * string * string) : io (option DailyRiskPeriod) := sel (fun d => riskPeriods d !! key).

(** The [try] of a missing row. *)
Definition createPeriod (id : string) (key : string * string * string) (i : PeriodInput) : io DailyRiskPeriod :=
  do! op (period_insert id key i) in
  let* created := findPeriod key in
  match created with
  | Some p => do! assertCurrencyMatches p (pi_accountCurrency i) in Ret p
  | None => Throw (RiskEngineError "DailyRiskPeriod insert reported success but the row is unreadable")
  end.

(** The clock is read with the first statement. *)
Definition resolveDailyRiskPeriod (id : string) (i : PeriodInput) : io DailyRiskPeriod :=
  do! of_result (assertTrustworthyBaseline i) in
  let* found := sel (fun d => (period_key i (now d), riskPeriods d !! period_key i (now d))) in
  let '(key, existing) := found in
  match existing with
  | Some p => do! assertCurrencyMatches p (pi_accountCurrency i) in Ret p
  | None =>
      catch (createPeriod id key i)
        (fun err =>
           if negb (isUniqueViolation err) then Throw err
           else
             let* winner := findPeriod key in
             match winner with
             | Some p => do! assertCurrencyMatches p (pi_accountCurrency i) in Ret p
             | None => Throw err
             end)
  end.

(** The clock, and the reset of its day. *)
Definition getDailyLossResetAt (s : LossScope) : io (Z * option Z) :=
  sel (fun d => (now d, reset_at s (now d) d)).

(** The raw decimal text of the loss, and whether no row was left out of it. *)
Record RealisedLoss := mkLoss { total : string; complete : bool }.

Definition getTodayRealisedLossExact (s : LossScope) : io RealisedLoss :=
  let* reset := getDailyLossResetAt s in
  let windowStart := window_start reset.1 reset.2 in
  let* loss := sel (fun d => loss_text (net_loss s windowStart d)) in
  let* n := sel (fun d => length (List.filter (fun e => legacy (ls_userId s) windowStart (snd e)) (map_to_list (trades d)))) in
  Ret (mkLoss loss (bool_decide (n = 0%nat))).

(** [INSERT .. ON CONFLICT .. DO UPDATE ..]. *)
Definition reset_upsert (t : Z) (i : ResetInput) (d : DB) : DB * result exn unit :=
  let key := reset_key (di_scope i) t in
  let count := match lossResets d !! key with Some r => dr_resetCount r + 1 | None => 1 end in
  (set_lossResets (<[key := mkReset (di_brokerConnectionId i) t count (di_sessionId i)]> (lossResets d)) d, Ok tt).

(** The clock is read when the method is entered; the answer is the reset and the count. *)
Definition recordDailyLossReset (t : Z) (i : ResetInput) : io (Z * Z) :=
  let s := di_scope i in
  if bool_decide (ls_userId s = "") || bool_decide (di_brokerConnectionId i = "") || bool_decide (ls_logicalAccountKey s = "")
  then Throw (RiskEngineError "Daily-loss reset requires user, broker connection and logical account")
  else if negb (upper_word 3 (ls_accountCurrency s))
  then Throw (RiskEngineError "Daily-loss reset requires a 3-letter uppercase account currency")
  else
    let* row := transaction (do! op (reset_upsert t i) in sel (fun d => lossResets d !! reset_key s t)) in
    match row with
    | Some r => Ret (dr_resetAt r, dr_resetCount r)
    | None => Throw (RiskEngineError "Daily-loss reset write returned no row")
    end.
End service.

(** ** The budget of a day is singular *)

(** Periods are immutable. *)
Definition periods_rel (d d' : DB) : Prop := riskPeriods d ⊆ riskPeriods d'.

#[export] Instance periods_rel_preorder : PreOrder periods_rel.
Proof. split; unfold periods_rel; [by intros ?|]. intros ???. by apply transitivity. Qed.

(** What leaves the periods alone. *)
Definition no_period (d d' : DB) : Prop := now d' = now d /\ riskPeriods d' = riskPeriods d.

#[export] Instance no_period_preorder : PreOrder no_period.
Proof. split; unfold no_period; [by intros ?|]. intros ??? [] []. split; congruence. Qed.

Section calls.
(** The pool runs within an instant of the clock. *)
Context (t : Z).
Abbreviation sure := (assured DbUnavailable (fun d => now d = t) periods_rel).

Definition budget_at (i : PeriodInput) (p : DailyRiskPeriod) (d : DB) : Prop :=
  riskPeriods d !! period_key i t = Some p /\ dp_accountCurrency p = pi_accountCurrency i.

Definition row_at (i : PeriodInput) (p : option DailyRiskPeriod) (d : DB) : Prop :=
  forall x, p = Some x -> riskPeriods d !! period_key i t = Some x.

Lemma row_stable i p : stable periods_rel (row_at i p).
Proof. intros d d' Hk Hp x Hx. eapply lookup_weaken; [by apply Hp|done]. Qed.

Lemma sure_match i p K :
  (forall d, K d -> riskPeriods d !! period_key i t = Some p) ->
  sure (budget_at i) K (bind (assertCurrencyMatches p (pi_accountCurrency i)) (fun _ => Ret p)).
Proof.
  intros HK. unfold assertCurrencyMatches. case_bool_decide as Hc; cbn; [|done]. intros d _ Hd. split; [by apply HK|done].
Qed.

Lemma sure_find i K : sure (row_at i) K (findPeriod (period_key i t)).
Proof. apply assured_read; [apply _|apply row_stable|]. by intros d _ _ x. Qed.

Lemma period_insert_keeps id key i d :
  now (fst (period_insert id key i d)) = now d /\ periods_rel d (fst (period_insert id key i d)).
Proof.
  unfold period_insert. destruct (period_row id i); [|done]. case_bool_decide as Hf; [done|]. apply eq_None_not_Some in Hf.
  split; [done|]. by apply insert_subseteq.
Qed.

Lemma sure_create id i K : sure (budget_at i) K (createPeriod id (period_key i t) i).
Proof.
  apply (assured_weaken _ _ _ _ (fun _ => True)); [done|]. apply assured_step.
  - intros d Hn _. destruct (period_insert_keeps id (period_key i t) i d) as [-> ?]. done.
  - intros _. eapply assured_bind; [apply sure_find|]. intros [p|]; [|done]. apply sure_match. intros d Hd. by apply Hd.
Qed.

Lemma sure_resolve id i : sure (budget_at i) (fun _ => True) (resolveDailyRiskPeriod id i).
Proof.
  apply (assured_bind _ _ _ (fun _ _ => True)); [by apply assured_of_result|]. intros _.
  apply (assured_bind _ _ _ (fun found d => found.1 = period_key i t /\ row_at i found.2 d)).
  { apply assured_read; [apply _|intros x d d' Hk [Hx Hp]; split; [done|by eapply row_stable]|]. intros d Hn _. cbn [fst snd].
    rewrite Hn. split; [done|]. by intros x. }
  intros [key existing]. apply assured_pure. cbn [fst snd]. intros ->. destruct existing as [p|].
  { apply sure_match. intros d Hd. by apply Hd. }
  apply assured_catch; [apply sure_create|]. intros e. destruct (negb (isUniqueViolation e)); [done|].
  eapply assured_bind; [apply sure_find|]. intros [p|]; [|done]. apply sure_match. intros d Hd. by apply Hd.
Qed.

Lemma sure_quiet {A B} (f : A -> B) (p : io A) (says : B -> DB -> Prop) :
  guar no_period p -> (forall a d, says (f a) d) ->
  sure says (fun _ => True) (bind p (fun a => Ret (f a))).
Proof.
  intros Hg Hs. apply (assured_bind _ _ _ (fun _ _ => True)); [|by intros a d _ _].
  clear Hs. induction p as [a|e|X act k IH]; simpl in *; [done..|]. destruct Hg as [Ha Hk]. split; [|by apply IH].
  intros d Hn _. destruct (Ha d) as [Ht Hp]. split; [by rewrite Ht|]. split; [unfold periods_rel; by rewrite Hp|].
  exists (fun _ => True). split; [done|]. split; [done|]. by apply IH.
Qed.

(** The calls of a pool, and their answers. *)
Inductive pcall := PResolve (id : string) (i : PeriodInput) | PLoss (s : LossScope) | PReset (t : Z) (i : ResetInput).

Definition run_pcall (c : pcall) : io (option (PeriodInput * DailyRiskPeriod)) :=
  match c with
  | PResolve id i => bind (resolveDailyRiskPeriod id i) (fun p => Ret (Some (i, p)))
  | PLoss s => bind (getTodayRealisedLossExact s) (fun _ => Ret None)
  | PReset t i => bind (recordDailyLossReset t i) (fun _ => Ret None)
  end.

Definition pcall_says (a : option (PeriodInput * DailyRiskPeriod)) (d : DB) : Prop :=
  match a with Some (i, p) => budget_at i p d | None => True end.

Lemma sure_pcall c : sure pcall_says (fun _ => True) (run_pcall c).
Proof.
  destruct c as [id i|s|t' i]; cbn [run_pcall].
  - eapply assured_bind; [apply sure_resolve|]. by intros p d _ Hp.
  - apply (sure_quiet (fun _ => None)); [|done]. unfold getTodayRealisedLossExact, getDailyLossResetAt. guar_walk; try apply no_period_preorder; done.
  - apply (sure_quiet (fun _ => None)); [|done]. unfold recordDailyLossReset. guar_walk; try apply no_period_preorder.
    by apply guar_op.
Qed.
End calls.

(** C32: the loss budget of a day is created once and never reset.  Whatever resolutions, loss
    measurements and resets run together, under any interleaving and any lost statements: a
    stored period never changes, and every resolution of a logical account of a user, whatever
    snapshot, connection and session it came with, answers the one stored period of the day, in
    the account's currency. *)
Theorem daily_budget_singular calls sched d :
  let c := exec DbUnavailable sched (d, run_pcall <$> calls) in
  riskPeriods d ⊆ riskPeriods (fst c) /\
  (forall j i p, snd c !! j = Some (Ret (Some (i, p))) ->
     riskPeriods (fst c) !! period_key i (now d) = Some p /\ dp_accountCurrency p = pi_accountCurrency i) /\
  (forall j j' i i' p p', snd c !! j = Some (Ret (Some (i, p))) -> snd c !! j' = Some (Ret (Some (i', p'))) ->
     pi_userId i = pi_userId i' -> pi_logicalAccountKey i = pi_logicalAccountKey i' -> p = p').
Proof.
  intros c. destruct (exec_assured DbUnavailable (fun x => now x = now d) periods_rel (pcall_says (now d)) sched (d, run_pcall <$> calls))
    as (_ & HR & Ha); [done|apply Forall_fmap, Forall_true, sure_pcall|]. fold c in HR, Ha.
  split; [exact HR|]. split; [intros j i p Hj; apply (Ha j _ Hj)|].
  intros j j' i i' p p' Hj Hj' Hu Hk. destruct (Ha j _ Hj) as [H _]. destruct (Ha j' _ Hj') as [H' _].
  unfold period_key in *. rewrite Hu, Hk in H. congruence.
Qed.

(** ** The measurement *)

Lemma tryParse_loss v : v <= 0 -> exists d, tryParse_text (loss_text v) = Some d /\ canonical d /\ (toQ d == v # (10 ^ 8))%Q.
Proof.
  intros Hv. unfold loss_text. destruct (Z.ltb_spec v 0).
  - unfold numeric_out, tryParse_text, tryParse. rewrite chars_of_string_of. cbn [parse].
    rewrite parse_toString by (cbn; unfold MAX_SCALE; lia). destruct (normalize_total (mkED v 8)) as (x & -> & Hc & Hq); [cbn; unfold MAX_SCALE; lia|].
    exists x. split; [done|]. split; [done|]. by rewrite Hq.
  - assert (v = 0) as -> by lia. exists (mkED 0 0). split; [vm_compute; reflexivity|]. split; [vm_compute; reflexivity|done].
Qed.

Lemma msum_le_filter u w (d : DB) :
  length (List.filter (fun e => legacy u w (snd e)) (map_to_list (trades d))) = 0%nat <->
  forall id t, trades d !! id = Some t -> legacy u w t = false.
Proof.
  rewrite length_zero_iff_nil. split.
  - intros Hn id t Ht. destruct (legacy u w t) eqn:Hl; [exfalso|done].
    assert (In (id, t) (List.filter (fun e => legacy u w (snd e)) (map_to_list (trades d)))) as Hin
      by (apply filter_In; split; [by apply list_elem_of_In, elem_of_map_to_list|done]). by rewrite Hn in Hin.
  - intros Hall. destruct (List.filter _ _) as [|[id t] l] eqn:E; [done|exfalso].
    assert (In (id, t) ((id, t) :: l)) as Hin by by left. rewrite <- E in Hin. apply filter_In in Hin as [Hin Hl].
    apply list_elem_of_In, elem_of_map_to_list in Hin. cbn in Hl. by rewrite (Hall id t Hin) in Hl.
Qed.

Lemma today_loss s d :
  let w := window_start (now d) (reset_at s (now d) d) in
  exists r x, run (getTodayRealisedLossExact s) d = (d, Ok r) /\
    tryParse_text (total r) = Some x /\ (toQ x == Z.min 0 (msum (pnl_in s w) (trades d)) # (10 ^ 8))%Q /\
    (complete r = true <-> forall id t, trades d !! id = Some t -> legacy (ls_userId s) w t = false) /\
    day_start (now d) <= w <= now d.
Proof.
  intros w. unfold getTodayRealisedLossExact, getDailyLossResetAt. run_simpl. fold w.
  destruct (tryParse_loss (net_loss s w d)) as (x & Hx & _ & Hq); [unfold net_loss; lia|].
  do 2 eexists. split; [done|]. cbn [total complete]. split; [exact Hx|]. split; [exact Hq|].
  split; [by rewrite bool_decide_eq_true, msum_le_filter|].
  pose proof (Z.mod_pos_bound (now d) MS_PER_DAY ltac:(done)). unfold w, window_start, day_start in *.
  destruct (reset_at s (now d) d); [|lia]. case_match; bool_to_prop; lia.
Qed.

(** the day's loss is measured exactly.  The answer reads as the exact sum of the realised
    results of the account's trades closed since the later of midnight (UTC) and the user's
    reset of the day, or as zero when the sum is a gain; it is complete exactly when no trade
    closed in that window could belong to another account; and it changes nothing. *)
Theorem loss_measured_exactly s d :
  let w := window_start (now d) (reset_at s (now d) d) in
  exists r x, run (getTodayRealisedLossExact s) d = (d, Ok r) /\
    tryParse_text (total r) = Some x /\ (toQ x == Z.min 0 (msum (pnl_in s w) (trades d)) # (10 ^ 8))%Q /\
    (complete r = true <-> forall id t, trades d !! id = Some t -> legacy (ls_userId s) w t = false) /\
    day_start (now d) <= w <= now d.
Proof. apply today_loss. Qed.
