(* ===== verification/RiskProfiles.v ===== *)
(** * Risk profiles ([risk/risk.service.ts], profile management)

    [getOrCreateProfile], [updateProfile], [toggleKillSwitch] and the bump of the profile's
    revision with the user's authority.  [repository.save] of a loaded entity writes every
    column in which the entity differs from the row, so the row becomes the entity.  The
    numbers of an update are given as their [toFixed] values, in the units of the columns.
    A transaction is one step of the store: what holds under the schedules of the model may
    fail under more, and a failure shown here is one of the code. *)

From S2P Require Import Prelude Prog StateMachines Store OrderService RiskGrants Authority Boundary.
Open Scope string_scope.
Open Scope list_scope.
Open Scope Z_scope.

Record UpdateRiskProfileDto := mkDto {
  u_maxDailyLossPercent : option Z; u_maxDrawdownPercent : option Z; u_maxPositionSizeLot : option Z;
  u_minStopLossPips : option Z; u_allowedInstruments : option (option (list string)); u_maxVolatilityScore : option Z;
  u_rejectLowLiquidity : option bool; u_maxTradeRiskPercent : option Z; u_maxLeverageAllowed : option Z;
  u_allowedTradingModes : option ExecutionMode; u_riskAcknowledgementAccepted : option bool }.

(** The column defaults of a new row. *)
Definition default_profile (id userId : string) : RiskProfile :=
  mkProfile id userId false None 500 1000 40000 500 None 85 true false None 200 30 PAPER_ONLY 1.

(** The entity after the assignments of [updateProfile] at the clock [t]. *)
Definition edited (t : Z) (dto : UpdateRiskProfileDto) (p : RiskProfile) : RiskProfile :=
  mkProfile (rk_id p) (rk_userId p) (rk_killSwitchActive p) (rk_killSwitchReason p)
    (default (rk_maxDailyLossPercent p) (u_maxDailyLossPercent dto)) (default (rk_maxDrawdownPercent p) (u_maxDrawdownPercent dto))
    (default (rk_maxPositionSizeLot p) (u_maxPositionSizeLot dto)) (default (rk_minStopLossPips p) (u_minStopLossPips dto))
    (default (rk_allowedInstruments p) (u_allowedInstruments dto)) (default (rk_maxVolatilityScore p) (u_maxVolatilityScore dto))
    (default (rk_rejectLowLiquidity p) (u_rejectLowLiquidity dto))
    (default (rk_riskAcknowledgementAccepted p) (u_riskAcknowledgementAccepted dto))
    (if bool_decide (u_riskAcknowledgementAccepted dto = Some true) && negb (rk_riskAcknowledgementAccepted p)
     then Some t else rk_riskAcknowledgementAcceptedAt p)
    (default (rk_maxTradeRiskPercent p) (u_maxTradeRiskPercent dto)) (default (rk_maxLeverageAllowed p) (u_maxLeverageAllowed dto))
    (default (rk_allowedTradingModes p) (u_allowedTradingModes dto)) (rk_revision p).

Definition given {A} (o : option A) : bool := match o with Some _ => true | None => false end.

Definition materialChange (dto : UpdateRiskProfileDto) : bool :=
  given (u_maxDailyLossPercent dto) || given (u_maxDrawdownPercent dto) || given (u_maxPositionSizeLot dto)
  || given (u_allowedInstruments dto) || given (u_maxTradeRiskPercent dto) || given (u_maxLeverageAllowed dto)
  || given (u_allowedTradingModes dto) || given (u_riskAcknowledgementAccepted dto).

Definition with_kill_switch (active : bool) (reason : option string) (p : RiskProfile) : RiskProfile :=
  mkProfile (rk_id p) (rk_userId p) active reason (rk_maxDailyLossPercent p) (rk_maxDrawdownPercent p)
    (rk_maxPositionSizeLot p) (rk_minStopLossPips p) (rk_allowedInstruments p) (rk_maxVolatilityScore p)
    (rk_rejectLowLiquidity p) (rk_riskAcknowledgementAccepted p) (rk_riskAcknowledgementAcceptedAt p)
    (rk_maxTradeRiskPercent p) (rk_maxLeverageAllowed p) (rk_allowedTradingModes p) (rk_revision p).

Definition next_revision (p : RiskProfile) : RiskProfile :=
  mkProfile (rk_id p) (rk_userId p) (rk_killSwitchActive p) (rk_killSwitchReason p) (rk_maxDailyLossPercent p)
    (rk_maxDrawdownPercent p) (rk_maxPositionSizeLot p) (rk_minStopLossPips p) (rk_allowedInstruments p)
    (rk_maxVolatilityScore p) (rk_rejectLowLiquidity p) (rk_riskAcknowledgementAccepted p)
    (rk_riskAcknowledgementAcceptedAt p) (rk_maxTradeRiskPercent p) (rk_maxLeverageAllowed p)
    (rk_allowedTradingModes p) (rk_revision p + 1).

(** ** Statements *)

(** [save] of a new entity. *)
Definition profile_insert (p : RiskProfile) (d : DB) : DB * result exn RiskProfile :=
  if bool_decide (is_Some (profiles d !! rk_userId p)) then (d, Err (UniqueViolation "risk_profiles_user_id_key"))
  else (set_profiles (<[rk_userId p := p]> (profiles d)) d, Ok p).

(** [save] of a loaded entity. *)
Definition profile_save (p : RiskProfile) (d : DB) : DB * result exn RiskProfile :=
  (set_profiles (<[rk_userId p := p]> (profiles d)) d, Ok p).

Definition revision_bump (userId : string) (d : DB) : DB * result exn unit :=
  match profiles d !! userId with
  | Some p => if rk_revision p <? MAX_INT4
              then (set_profiles (<[userId := next_revision p]> (profiles d)) d, Ok tt) else (d, Err NumericOverflow)
  | None => (d, Ok tt)
  end.

(** ** The service *)

Section service.
Local Open Scope prog_scope.

Definition findProfile (userId : string) : io (option RiskProfile) := sel (fun d => profiles d !! userId).

Definition getOrCreateProfile (newId userId : string) : io RiskProfile :=
  let* existing := findProfile userId in
  match existing with
  | Some p => Ret p
  | None => op (profile_insert (default_profile newId userId))
  end.

(** The [updatedAt] it also sets is not modelled. *)
Definition bumpProfileRevisionAndAuthority (userId reason : string) : io unit :=
  do! op (revision_bump userId) in
  do! bumpGeneration userId reason in
  do! invalidateUserNewExposureAuthority userId reason in
  Ret tt.

Definition profile_audit (action : string) (p : RiskProfile) (code : string) : io unit :=
  audit_log (mkAudit (Some (rk_userId p)) action "RiskProfile" (rk_id p) code).

(** [t] is the clock of the assignments. *)
Definition updateProfile (newId : string) (t : Z) (userId : string) (dto : UpdateRiskProfileDto) : io RiskProfile :=
  let* loaded := getOrCreateProfile newId userId in
  let profile := edited t dto loaded in
  do! transaction
        (do! op (profile_save profile) in
         if materialChange dto then bumpProfileRevisionAndAuthority userId "RISK_PROFILE_MATERIAL_EDIT" else Ret tt) in
  do! profile_audit "RISK_PROFILE_UPDATED" profile "changes" in
  do! (if bool_decide (u_riskAcknowledgementAccepted dto = Some true) && negb (rk_riskAcknowledgementAccepted loaded)
       then profile_audit "RISK_ACKNOWLEDGEMENT_ACCEPTED" profile "accepted" else Ret tt) in
  Ret profile.

(** The transaction of a toggle. *)
Definition commitKillSwitch (newId userId : string) (active : bool) (reason : option string) : io RiskProfile :=
  transaction
    (let* found := findProfile userId in
     let row := with_kill_switch active reason (default (default_profile newId userId) found) in
     let* row := op (match found with Some _ => profile_save row | None => profile_insert row end) in
     do! bumpProfileRevisionAndAuthority userId "KILL_SWITCH_TOGGLED" in
     Ret row).

(** [flatten] is [requestDurableEmergencyFlatten] of the execution service. *)
Definition toggleKillSwitch (flatten : string -> string -> io unit) (newId userId : string) (active : bool) (reason : option string)
  : io RiskProfile :=
  let* profile := commitKillSwitch newId userId active reason in
  do! profile_audit (if active then "RISK_KILL_SWITCH_ACTIVATED" else "RISK_KILL_SWITCH_DEACTIVATED") profile (default "" reason) in
  do! (if active then catch (flatten userId "KILL_SWITCH_ACTIVATE") (fun _ => Ret tt) else Ret tt) in
  Ret profile.

Definition isKillSwitchActive (userId : string) : io bool :=
  let* profile := findProfile userId in
  Ret (match profile with Some p => rk_killSwitchActive p | None => false end).
End service.

(** ** What a bump does *)

Definition profiles_wf (d : DB) : Prop := forall u p, profiles d !! u = Some p -> rk_userId p = u.

Definition same_profiles (d d' : DB) : Prop := profiles d' = profiles d.

#[export] Instance same_profiles_preorder : PreOrder same_profiles.
Proof. split; unfold same_profiles; [by intros ?|]. intros ???. congruence. Qed.

(** A bump touches the generations and the audit log. *)
Lemma guar_bump_any (R : DB -> DB -> Prop) `{!PreOrder R} u r :
  (forall d m, R d (set_generations m d)) -> (forall d l, R d (set_audit l d)) -> guar R (bumpGeneration u r).
Proof.
  intros Hg Ha. unfold bumpGeneration. case_match; [done|]. apply guar_bind.
  - unfold bump_protocol, wrap, unless_unique. guar_walk; apply guar_op; intros d; unfold counter_bump, counter_seed; cbn;
      destruct (generations d !! u); cbn; try reflexivity; try apply Hg;
      case_match; cbn; first [apply Hg|reflexivity].
  - intros n. apply guar_bind; [|done]. unfold auditBump. apply guar_audit; [typeclasses eauto|]. intros d. apply Ha.
Qed.

Lemma same_profiles_bump u r : guar same_profiles (bumpGeneration u r).
Proof. by apply guar_bump_any; [apply _|..]. Qed.

Lemma same_profiles_invalidate u r : guar same_profiles (invalidateUserNewExposureAuthority u r).
Proof. unfold invalidateUserNewExposureAuthority, grants_update_where, confirmations_update_where. guar_walk; by apply guar_op. Qed.

Definition same_generations (d d' : DB) : Prop := generations d' = generations d.

#[export] Instance same_generations_preorder : PreOrder same_generations.
Proof. split; unfold same_generations; [by intros ?|]. intros ???. congruence. Qed.

Lemma same_generations_invalidate u r : guar same_generations (invalidateUserNewExposureAuthority u r).
Proof.
  unfold invalidateUserNewExposureAuthority, grants_update_where, confirmations_update_where. guar_walk; apply guar_op; done.
Qed.

Lemma pays_bumpGeneration u r : pays DbUnavailable (generation_of u) (fun _ => true) (bumpGeneration u r).
Proof.
  unfold bumpGeneration. case_match; [done|]. apply pays_bind_l, pays_bump_protocol, bump_raises_generation.
Qed.

(** What the invalidation of a user's authority leaves. *)
Record no_authority (u : string) (d : DB) : Prop := {
  na_grants : forall id g, grants d !! id = Some g -> g_userId g = u -> g_status g <> G_ACTIVE;
  na_confirmations : forall id c, confirmations d !! id = Some c -> c_userId c = u -> c_status c <> C_PENDING }.

Lemma bump_run u r d d' p :
  profiles d !! u = Some p -> run (bumpProfileRevisionAndAuthority u r) d = (d', Ok tt) ->
  profiles d' = <[u := next_revision p]> (profiles d) /\ generation_of u d < generation_of u d' /\ no_authority u d'.
Proof.
  intros Hp. unfold bumpProfileRevisionAndAuthority. run_simpl. unfold revision_bump. rewrite Hp.
  destruct (rk_revision p <? MAX_INT4); run_simpl; [|done]. set (d0 := set_profiles _ d).
  pose proof (guar_run same_profiles (bumpGeneration u r) d0 ltac:(typeclasses eauto) (same_profiles_bump u r)) as Hs.
  destruct (run (bumpGeneration u r) d0) as [d1 [n|e]] eqn:Hb; [|by run_simpl].
  assert (generation_of u d0 < generation_of u d1) as Hg.
  { eapply pays_run; [|apply (pays_bumpGeneration u r)|exact Hb].
    eapply guar_weaken; [|apply guar_bumpGeneration]. intros x y. apply rises_generation. }
  run_simpl. destruct (invalidate_user_complete u r d1) as (d2 & res & Hrun & Hng & Hnc & _).
  pose proof (guar_run same_profiles (invalidateUserNewExposureAuthority u r) d1 ltac:(typeclasses eauto) (same_profiles_invalidate u r)) as Hs2.
  pose proof (guar_run same_generations (invalidateUserNewExposureAuthority u r) d1 ltac:(typeclasses eauto) (same_generations_invalidate u r)) as Hs3.
  rewrite Hrun in *. run_simpl. intros [= <-]. cbn [fst] in *. unfold same_profiles, same_generations in *.
  split; [by rewrite Hs2, Hs|]. split; [|by split]. change (generation_of u d) with (generation_of u d0).
  unfold generation_of in *. by rewrite Hs3.
Qed.

Lemma commit_run newId u active reason d d' row :
  profiles_wf d -> run (commitKillSwitch newId u active reason) d = (d', Ok row) ->
  let old := default (default_profile newId u) (profiles d !! u) in
  profiles d' = <[u := next_revision (with_kill_switch active reason old)]> (profiles d) /\
  generation_of u d < generation_of u d' /\ no_authority u d'.
Proof.
  intros Hwf Hrun old. unfold commitKillSwitch, findProfile in Hrun. revert Hrun. run_simpl. fold old.
  assert (rk_userId (with_kill_switch active reason old) = u) as Hu.
  { unfold old. destruct (profiles d !! u) as [p|] eqn:Hp; [by apply (Hwf u p)|done]. }
  set (row0 := with_kill_switch active reason old) in *. set (d1 := set_profiles (<[u := row0]> (profiles d)) d).
  assert (match profiles d !! u with Some _ => profile_save row0 | None => profile_insert row0 end d = (d1, Ok row0)) as ->.
  { unfold profile_save, profile_insert. rewrite Hu. destruct (profiles d !! u) eqn:Hp; [by unfold d1|]. rewrite bool_decide_eq_false_2; [by unfold d1|]. intros [x Hx]; congruence. }
  run_simpl. destruct (run (bumpProfileRevisionAndAuthority u "KILL_SWITCH_TOGGLED") d1) as [d2 [[]|e]] eqn:Hb; run_simpl; [|done].
  intros [= <- _]. destruct (bump_run u _ d1 d2 row0 (lookup_insert_eq _ _ _) Hb) as (Hp & Hg & Hn).
  split; [|done]. rewrite Hp. cbn. apply insert_insert_eq.
Qed.

(** ** Properties *)

(** C7: a toggle of the kill switch fences everything decided before it.  A toggle, in either
    direction, that commits has stored the switch, advanced the user's profile revision by one
    and the authority generation, and left the user with no active grant and no pending
    confirmation; one that throws has changed nothing; and at any store that still has the new
    revision, no dispatch commits under a grant bound to an earlier one, even a grant that an
    evaluation under way at the time of the toggle issues after it. *)
Theorem kill_switch_fenced newId u active reason d d' r :
  profiles_wf d -> run (commitKillSwitch newId u active reason) d = (d', r) ->
  let before := default 1 (profileRevisions d !! u) in
  match r with
  | Err _ => d' = d
  | Ok _ =>
      (exists p, profiles d' !! u = Some p /\ rk_killSwitchActive p = active /\ rk_revision p = before + 1) /\
      generation_of u d < generation_of u d' /\ no_authority u d' /\
      (forall v, v <> u -> profiles d' !! v = profiles d !! v) /\
      forall x i g bound, authority_wf x -> orders_wf x -> profileRevisions x !! u = profileRevisions d' !! u ->
        ci_userId i = u -> grants x !! ci_grantId i = Some g -> g_killSwitchGeneration g = Some bound -> bound <= before ->
        exists x' why, run (commitProviderDispatch i) x = (x', Err (FinalDispatchBlocked why))
  end.
Proof.
  intros Hwf Hrun before. destruct r as [row|e].
  - destruct (commit_run _ _ _ _ _ _ _ Hwf Hrun) as (Hp & Hg & Hn). set (old := default (default_profile newId u) (profiles d !! u)) in *.
    assert (rk_revision old = before) as Hrev.
    { unfold before, old, profileRevisions. rewrite lookup_fmap. by destruct (profiles d !! u). }
    split; [eexists; rewrite Hp, lookup_insert_eq; split; [done|]; split; [done|]; cbn; by rewrite Hrev|].
    split; [done|]. split; [done|]. split; [intros v Hv; by rewrite Hp, lookup_insert_ne|].
    intros x i g bound Ha Ho Hx Hi Hgr Hk Hle. destruct (commit_runs i x Ha Ho) as [(g' & s & b & x' & Hok & _)|(x' & why & Hr & _)]; [|eauto].
    exfalso. pose proof (ck_grant _ _ _ _ _ Hok) as Hg'. rewrite Hgr in Hg'. injection Hg' as <-.
    pose proof (ck_kill_switch _ _ _ _ _ Hok bound (before + 1) Hk) as Hb. rewrite Hi, Hx in Hb.
    unfold profileRevisions in Hb. rewrite lookup_fmap, Hp, lookup_insert_eq in Hb. cbn in Hb. rewrite Hrev in Hb.
    specialize (Hb eq_refl). lia.
  - unfold commitKillSwitch in Hrun. rewrite run_transaction in Hrun. destruct (run _ d) as [d1 [a|e1]]; by simplify_eq.
Qed.

Definition kill_db : DB := set_profiles {["u1" := sample_profile 5]} (boundary_db FULL_AUTO "paper" "DEMO").

Lemma kill_switch_fenced_witness :
  exists d' row p, run (commitKillSwitch "n" "u1" true (Some "stop")) kill_db = (d', Ok row) /\
    profiles d' !! "u1" = Some p /\ rk_killSwitchActive p = true /\ rk_revision p = 6 /\ no_authority "u1" d'.
Proof.
  destruct (run (commitKillSwitch "n" "u1" true (Some "stop")) kill_db) as [d' r] eqn:Hr.
  assert (profiles_wf kill_db) as Hwf.
  { intros u p Hp. cbn [kill_db profiles set_profiles] in Hp. apply lookup_singleton_Some in Hp as [<- <-]. reflexivity. }
  pose proof (kill_switch_fenced _ _ _ _ _ _ _ Hwf Hr) as H. destruct r as [row|e].
  - cbn zeta iota in H. destruct H as ((p & Hp & Hk & Hv) & _ & Hn & _). exists d', row, p.
    split; [reflexivity|]. split; [exact Hp|]. split; [exact Hk|]. split; [|exact Hn]. rewrite Hv. reflexivity.
  - exfalso. apply (f_equal snd) in Hr. vm_compute in Hr. discriminate Hr.
Defined.

(** The limits a user edits while the kill switch is being pulled. *)
Definition edit_only_pips : UpdateRiskProfileDto :=
  mkDto None None None (Some 600) None None None None None None None.

Definition edit_lots : UpdateRiskProfileDto :=
  mkDto None None (Some 20000) None None None None None None None None.

(** an edit of the limits can turn the kill switch off.  [updateProfile] reads the profile
    before its transaction and saves the whole entity: when a kill switch is pulled in between,
    the edit, even of a display-only field, writes the switch back to off, and the revision of
    the pull is forgotten or taken again, although both calls succeed. *)
Theorem kill_switch_overwritten :
  let pulled := toggleKillSwitch (fun _ _ => Ret tt) "n" "u1" true (Some "stop") in
  let race dto := fst (exec DbUnavailable (((0, Exec) :: replicate 3 (1, Exec) ++ replicate 4 (0, Exec))%nat)
                         (kill_db, [updateProfile "n" 7 "u1" dto; pulled])) in
  let after d := (rk_killSwitchActive <$> profiles d !! "u1", profileRevisions d !! "u1") in
  after (fst (run pulled kill_db)) = (Some true, Some 6) /\
  after (race edit_lots) = (Some false, Some 6) /\ after (race edit_only_pips) = (Some false, Some 5).
Proof. vm_compute. split; [|split]; reflexivity. Qed.
