(* ===== verification/RiskSession.v ===== *)
(** * The session under risk ([risk/risk.service.ts], [execution/execution-session.resolution.ts])

    What the risk engine reads and writes of a trading session: the authority it resolves, the
    peak equity it maintains by a guarded update, and the suspension after a breach of a hard
    limit.  [peak_equity] is a numeric(15,2) column: the comparison of the guard is exact, the
    stored value is rounded. *)

From S2P Require Import Prelude Prog StateMachines JsString Decimal DecimalSpecs Store OrderService RiskGrants Capital Assured.
From Stdlib Require Import QArith Qabs Lqa.
Open Scope string_scope.
Open Scope list_scope.
Open Scope Z_scope.

Record ActiveSessionAuthority := mkAuthority {
  au_sessionId : string; au_sessionGeneration : Z; au_executionMode : ExecutionMode; au_brokerConnectionId : string }.

(** [ORDER BY .. DESC LIMIT 1]: [before a b] says [b] comes first. *)
Definition first_of {A} (before : A -> A -> bool) (l : list A) : option A :=
  match l with [] => None | x :: l => Some (fold_left (fun a b => if before a b then b else a) l x) end.

Definition session_active (s : TradingSession) : bool := bool_decide (s_status s = Session.ACTIVE).

Definition active_sessions (userId : string) (d : DB) : list TradingSession :=
  List.filter (fun s => bool_decide (s_userId s = userId) && session_active s) (map snd (map_to_list (sessions d))).

Definition by_start (a b : TradingSession) : bool := s_startedAt a <? s_startedAt b.
Definition by_generation (a b : TradingSession) : bool :=
  (s_authorityGeneration a <? s_authorityGeneration b)
  || (s_authorityGeneration a =? s_authorityGeneration b) && by_start a b.

Definition set_session_peak (v : Z) (s : TradingSession) : TradingSession :=
  session_patch (s_executionMode s) (s_authorityGeneration s) (s_status s) (Some v) (s_endedAt s) (s_closeAiPositionsOnStop s) s.

Definition suspend_patch (s : TradingSession) : TradingSession :=
  session_patch (s_executionMode s) (s_authorityGeneration s + 1) Session.SUSPENDED_RISK_LIMIT (s_peakEquity s) (s_endedAt s)
    (s_closeAiPositionsOnStop s) s.

(** [numeric <= numeric] of PostgreSQL, for units of 10^-2 against a decimal. *)
Definition cents_le (v : Z) (d : ED) : bool := v * 10 ^ scale d <=? unscaled d * 100.

Definition peak_guard (fresh : ED) (s : TradingSession) : bool :=
  match s_peakEquity s with Some p => cents_le p fresh | None => true end.

(** [UPDATE trading_sessions SET peak_equity = :fresh WHERE id = :id AND (..)]. *)
Definition peak_update (id : string) (fresh : ED) (d : DB) : DB * result exn Z :=
  let v := to_units 2 fresh in
  match sessions d !! id with
  | Some s =>
      if peak_guard fresh s then
        if Z.abs v <? 10 ^ 15 then (set_sessions (<[id := set_session_peak v s]> (sessions d)) d, Ok 1) else (d, Err NumericOverflow)
      else (d, Ok 0)
  | None => (d, Ok 0)
  end.

Definition suspend_update (id userId : string) (d : DB) : DB * result exn Z :=
  let '(m, n) := update_row (fun s => bool_decide (s_userId s = userId) && session_active s) suspend_patch id (sessions d) in
  (set_sessions m d, Ok n).

Section service.
Local Open Scope prog_scope.

Definition resolveActiveSessionAuthority (userId : string) : io ActiveSessionAuthority :=
  let* session := sel (fun d => first_of by_generation (active_sessions userId d)) in
  match session with
  | Some s => Ret (mkAuthority (s_id s) (s_authorityGeneration s) (s_executionMode s) (s_brokerConnectionId s))
  | None => Throw SessionAuthorityNotActive
  end.

Definition parseSessionDecimal (v : option Z) : option ED := v ← v; tryParse_text (numeric_out 2 v).

Definition maintainMonotonicPeak (sessionId : string) (freshEquity : ED) : io ED :=
  let* affected := op (peak_update sessionId freshEquity) in
  if affected >? 0 then Ret freshEquity
  else
    let* reloaded := sel (fun d => sessions d !! sessionId) in
    match (s ← reloaded; parseSessionDecimal (s_peakEquity s)) with
    | Some persisted =>
        let* above := of_result (exact (gte persisted freshEquity)) in
        Ret (if above then persisted else freshEquity)
    | None => Ret freshEquity
    end.

(** [code] is the name of the rejection. *)
Definition suspendSessionForRiskLimit (userId code : string) : io unit :=
  let* session := sel (fun d => first_of by_start (active_sessions userId d)) in
  match session with
  | None => Ret tt
  | Some session =>
      match Session.assert (Known (s_status session)) Session.SUSPENDED_RISK_LIMIT with
      | Err transition => Throw (InvalidSessionTransition transition)
      | Ok _ =>
          let* affected := op (suspend_update (s_id session) userId) in
          if affected =? 0 then Ret tt
          else
            do! invalidateGrantsForSession (s_id session) ("SESSION_SUSPENDED_RISK_LIMIT:" +:+ code) in
            audit_log (mkAudit (Some userId) "RISK_SESSION_SUSPENDED" "TradingSession" (s_id session) code)
      end
  end.
End service.

(** ** Reads *)

Lemma first_of_in {A} (before : A -> A -> bool) l x : first_of before l = Some x -> x ∈ l.
Proof.
  destruct l as [|y l]; [done|]. cbn. intros [= <-]. revert y. induction l as [|z l IH]; intros y; cbn; [by left|].
  destruct (before y z); [right; apply IH|]. specialize (IH y). set_solver.
Qed.

Lemma elem_of_sessions (p : TradingSession -> bool) d s :
  s ∈ List.filter p (map snd (map_to_list (sessions d))) <-> p s = true /\ exists id, sessions d !! id = Some s.
Proof.
  rewrite list_elem_of_In, filter_In, <- list_elem_of_In, list_elem_of_fmap. split.
  - intros [([id x] & -> & Hx%elem_of_map_to_list) Hp]. split; [done|]. by exists id.
  - intros [Hp [id Hx]]. split; [|done]. exists (id, s). split; [done|by apply elem_of_map_to_list].
Qed.

(** ** Evolution of sessions *)

Definition suspended_from (s s' : TradingSession) : Prop :=
  s_status s = Session.ACTIVE /\ s_status s' = Session.SUSPENDED_RISK_LIMIT /\
  s_authorityGeneration s' = s_authorityGeneration s + 1.

(** The peak never falls; the state changes once, together with the generation. *)
Record session_evolves (s s' : TradingSession) : Prop := {
  se_id : s_id s' = s_id s;
  se_user : s_userId s' = s_userId s;
  se_balance : s_openingBalance s' = s_openingBalance s;
  se_peak : forall p, s_peakEquity s = Some p -> exists p', s_peakEquity s' = Some p' /\ p <= p';
  se_state : s_status s' = s_status s /\ s_authorityGeneration s' = s_authorityGeneration s \/ suspended_from s s' }.

#[export] Instance session_evolves_preorder : PreOrder session_evolves.
Proof.
  split.
  - intros s. split; [done..| |by left]. intros p ->. exists p. split; [done|lia].
  - intros x y z [? ? ? Hp Hs] [? ? ? Hp' Hs']. split; [congruence..| |].
    + intros p Hx. destruct (Hp p Hx) as (q & Hq & Hle). destruct (Hp' q Hq) as (r & Hr & Hle'). exists r. split; [done|lia].
    + unfold suspended_from in *. destruct Hs as [[H1 H2]|(H1 & H2 & H3)], Hs' as [[H4 H5]|(H4 & H5 & H6)].
      * left. split; congruence.
      * right. split; [congruence|]. split; [done|]. by rewrite H6, H2.
      * right. split; [done|]. split; congruence.
      * congruence.
Qed.

(** Sessions are updated in place. *)
Definition sessions_rel (d d' : DB) : Prop :=
  forall id, option_relation session_evolves (fun _ => False) (fun _ => False) (sessions d !! id) (sessions d' !! id).

#[export] Instance sessions_rel_preorder : PreOrder sessions_rel.
Proof.
  split.
  - intros d id. destruct (sessions d !! id); simpl; [reflexivity|done].
  - intros x y z H H' id. specialize (H id). specialize (H' id). destruct (sessions x !! id), (sessions y !! id), (sessions z !! id); try done.
    simpl in *. by etransitivity.
Qed.

Lemma session_update_rel id s s' d :
  sessions d !! id = Some s -> session_evolves s s' -> sessions_rel d (set_sessions (<[id := s']> (sessions d)) d).
Proof.
  intros Hs He id'. cbn. destruct (decide (id = id')) as [<-|Hne]; [by rewrite Hs, lookup_insert_eq|].
  rewrite lookup_insert_ne by done. destruct (sessions d !! id'); simpl; [reflexivity|done].
Qed.

Lemma same_sessions_rel d d' : sessions d' = sessions d -> sessions_rel d d'.
Proof. intros E id. rewrite E. destruct (sessions d !! id); simpl; [reflexivity|done]. Qed.

(** ** The peak *)

Lemma cents_le_Q v d : canonical d -> cents_le v d = true <-> (toQ (mkED v 2) <= toQ d)%Q.
Proof.
  intros [Hs _]%canonical_scale. unfold cents_le, toQ, Qle. cbn [unscaled scale Qnum Qden]. rewrite !Z2Pos.id by auto with irex.
  rewrite Z.leb_le. change (10 ^ 2) with 100. lia.
Qed.

Lemma scale2 : 0 <= 2 <= MAX_SCALE.
Proof. unfold MAX_SCALE. lia. Qed.

Lemma parse_session v : parseSessionDecimal v = units 2 <$> v.
Proof. destruct v as [v|]; [|done]. change (ok_opt (parse_text (numeric_out 2 v)) = Some (units 2 v)). by rewrite (parse_out 2 scale2 v). Qed.

Section peak.
Context (id : string) (fresh : ED) (Hf : canonical fresh).

(** A stored peak that covers an equity up to the rounding of the column. *)
Definition covers (r : ED) (d : DB) : Prop :=
  forall s, sessions d !! id = Some s -> exists p, s_peakEquity s = Some p /\ (toQ r < toQ (mkED (p + 1) 2))%Q.

Lemma covers_stable r : stable sessions_rel (covers r).
Proof.
  intros d d' HR Hc s' Hs'. specialize (HR id). rewrite Hs' in HR. destruct (sessions d !! id) as [s|] eqn:Hs; [|done].
  simpl in HR. destruct (Hc s Hs) as (p & Hp & Hlt). destruct (se_peak _ _ HR p Hp) as (p' & Hp' & Hle). exists p'. split; [done|].
  eapply Qlt_le_trans; [exact Hlt|]. unfold toQ, Qle. cbn. lia.
Qed.

(** The guard failed: every stored peak is above. *)
Definition above (d : DB) : Prop :=
  forall s, sessions d !! id = Some s -> exists p, s_peakEquity s = Some p /\ (toQ fresh < toQ (mkED p 2))%Q.

Lemma above_stable : stable sessions_rel above.
Proof.
  intros d d' HR Hc s' Hs'. specialize (HR id). rewrite Hs' in HR. destruct (sessions d !! id) as [s|] eqn:Hs; [|done].
  simpl in HR. destruct (Hc s Hs) as (p & Hp & Hlt). destruct (se_peak _ _ HR p Hp) as (p' & Hp' & Hle). exists p'. split; [done|].
  eapply Qlt_le_trans; [exact Hlt|]. unfold toQ, Qle. cbn. lia.
Qed.

Lemma rounded_covers : (toQ fresh < toQ (mkED (to_units 2 fresh + 1) 2))%Q.
Proof using Hf.
  apply Qnot_le_lt. intros Hle. destruct (to_units_between 2 fresh (to_units 2 fresh + 1) ltac:(lia)) as [_ H];
    [by apply canonical_scale|]. specialize (H Hle). lia.
Qed.

Lemma peak_update_keeps d :
  sessions_rel d (fst (peak_update id fresh d)) /\
  forall n, snd (peak_update id fresh d) = Ok n -> if n >? 0 then covers fresh (fst (peak_update id fresh d)) else above d.
Proof using Hf.
  unfold peak_update. destruct (sessions d !! id) as [s|] eqn:Hs.
  2:{ split; [reflexivity|]. intros n [= <-] s Hs'. congruence. }
  destruct (peak_guard fresh s) eqn:Hg.
  - destruct (_ <? _); [|by split; [reflexivity|]]. cbn [fst snd]. split.
    + apply (session_update_rel id s); [done|]. split; [done..| |by left]. intros p Hp. unfold peak_guard in Hg. rewrite Hp in Hg.
      exists (to_units 2 fresh). split; [done|]. apply cents_le_Q in Hg; [|done].
      by apply to_units_between; [|apply canonical_scale|].
    + intros n [= <-] s'. cbn. rewrite lookup_insert_eq. intros [= <-]. eexists. split; [done|]. apply rounded_covers.
  - cbn [fst snd]. split; [reflexivity|]. intros n [= <-] s'. rewrite Hs. intros [= <-]. unfold peak_guard in Hg.
    destruct (s_peakEquity s) as [p|]; [|done]. exists p. split; [done|]. apply Qnot_le_lt. intros Hle%cents_le_Q; [|done]. congruence.
Qed.

(** The store the pool starts at, whose peak no answer is below. *)
Context (d0 : DB).

Definition floor (r : ED) : Prop :=
  forall s p, sessions d0 !! id = Some s -> s_peakEquity s = Some p -> (toQ (mkED p 2) <= toQ r)%Q.

Lemma floor_from d (r : ED) :
  sessions_rel d0 d -> (forall s p, sessions d !! id = Some s -> s_peakEquity s = Some p -> (toQ (mkED p 2) <= toQ r)%Q) -> floor r.
Proof.
  intros HR Hd s p Hs Hp. specialize (HR id). rewrite Hs in HR. destruct (sessions d !! id) as [x|] eqn:Hx; [|done].
  destruct (se_peak _ _ HR p Hp) as (q & Hq & Hle). eapply Qle_trans; [|by apply (Hd x q)]. unfold toQ, Qle. cbn. lia.
Qed.

Lemma floor_update d n : sessions_rel d0 d -> snd (peak_update id fresh d) = Ok n -> (n >? 0) = true -> floor fresh.
Proof using Hf.
  intros HR Hn Hpos. apply (floor_from d); [done|]. intros s p Hs Hp. unfold peak_update in Hn. rewrite Hs in Hn.
  unfold peak_guard in Hn. rewrite Hp in Hn. destruct (cents_le p fresh) eqn:Hle; [by apply cents_le_Q|]. injection Hn as <-. done.
Qed.

(** What the answer promises. *)
Definition peak_says (r : ED) (d : DB) : Prop := canonical r /\ (toQ fresh <= toQ r)%Q /\ floor r /\ covers r d.

Abbreviation sure := (assured DbUnavailable (sessions_rel d0) sessions_rel).

(** The reloaded row, against the row of now. *)
Definition reload_at (o : option TradingSession) (d : DB) : Prop :=
  (forall s', sessions d !! id = Some s' -> exists s p q, o = Some s /\ s_peakEquity s = Some p /\
     (toQ fresh < toQ (mkED p 2))%Q /\ s_peakEquity s' = Some q /\ p <= q) /\
  match o with Some s => forall p, s_peakEquity s = Some p -> floor (units 2 p) | None => sessions d0 !! id = None end.

Lemma reload_stable o : stable sessions_rel (reload_at o).
Proof.
  intros d d' HR [Hc Hfl]. split; [|done]. intros s' Hs'. specialize (HR id). rewrite Hs' in HR.
  destruct (sessions d !! id) as [x|] eqn:Hx; [|done]. simpl in HR. destruct (Hc x eq_refl) as (s & p & q & ? & ? & ? & Hq & Hle).
  destruct (se_peak _ _ HR q Hq) as (q' & Hq' & Hle'). exists s, p, q'. do 4 (split; [done|]). lia.
Qed.

Lemma sure_reload : sure reload_at above (read (fun d => sessions d !! id)).
Proof.
  apply assured_read; [apply _|apply reload_stable|]. intros d Hi Ha. split.
  - intros s Hs. destruct (Ha s Hs) as (p & Hp & Hlt). exists s, p, p. do 4 (split; [done|]). lia.
  - destruct (sessions d !! id) as [s|] eqn:Hs.
    + intros p Hp. apply (floor_from d); [done|]. intros x q Hx Hq. rewrite Hs in Hx. injection Hx as <-. rewrite Hp in Hq.
      injection Hq as <-. destruct (units_spec 2 scale2 p) as [_ ->]. apply Qle_refl.
    + specialize (Hi id). rewrite Hs in Hi. by destruct (sessions d0 !! id).
Qed.

Lemma sure_persisted s p :
  s_peakEquity s = Some p ->
  sure peak_says (reload_at (Some s))
    (bind (of_result (exact (gte (units 2 p) fresh))) (fun above => Ret (if above then units 2 p else fresh))).
Proof using Hf.
  intros Hp. destruct (units_spec 2 scale2 p) as [Hc Hq]. destruct (gte_spec _ _ Hc Hf) as (g & -> & Hg).
  cbn [exact of_result bind]. intros d _ [HK Hfl]. specialize (Hfl p Hp).
  assert (forall s', sessions d !! id = Some s' -> exists q, s_peakEquity s' = Some q /\ p <= q /\ (toQ fresh < toQ (mkED p 2))%Q) as Hnow.
  { intros s' Hs'. destruct (HK s' Hs') as (? & p' & q & [= <-] & Hp' & Hlt & Hq' & Hle). rewrite Hp in Hp'. injection Hp' as <-. eauto. }
  destruct g; (split; [done|]); (split; [first [done|apply Qle_refl]|]).
  - split; [done|]. intros s' Hs'. destruct (Hnow s' Hs') as (q & Hq' & Hle & _). exists q. split; [done|]. rewrite Hq.
    unfold toQ, Qlt. cbn. lia.
  - split; [intros x y Hx Hy; eapply Qle_trans; [by apply (Hfl x y)|lra]|]. intros s' Hs'.
    destruct (Hnow s' Hs') as (q & _ & _ & Hlt). rewrite Hq in Hg. lra.
Qed.

Lemma sure_peak : sure peak_says (fun _ => True) (maintainMonotonicPeak id fresh).
Proof using Hf.
  apply (assured_bind _ _ _ (fun n d => if n >? 0 then floor fresh /\ covers fresh d else above d)).
  { apply assured_op; [intros n; destruct (n >? 0); [intros x y HR [? ?]; split; [done|by eapply covers_stable]|apply above_stable]|].
    intros d Hi _. destruct (peak_update_keeps d) as [HR Hn]. split; [by etransitivity|]. split; [done|]. intros n E.
    specialize (Hn n E). destruct (n >? 0) eqn:Hpos; [|by apply (above_stable d)]. split; [by eapply floor_update|done]. }
  intros n. destruct (n >? 0); [intros d _ [? ?]; split; [done|]; split; [apply Qle_refl|done]|].
  eapply assured_bind; [apply sure_reload|]. intros [s|].
  - cbn [option_bind mbind]. rewrite parse_session. destruct (s_peakEquity s) as [p|] eqn:Hp; cbn [fmap option_fmap option_map];
      [by apply sure_persisted|].
    intros d Hi [HK _]. split; [done|]. split; [apply Qle_refl|]. split.
    + apply (floor_from d); [done|]. intros x q Hx _. destruct (HK x Hx) as (? & ? & ? & [= <-] & Hp' & _). congruence.
    + intros x Hx. destruct (HK x Hx) as (? & ? & ? & [= <-] & Hp' & _). congruence.
  - intros d _ [HK Hno]. split; [done|]. split; [apply Qle_refl|]. split; [intros x q Hx; congruence|].
    intros x Hx. destruct (HK x Hx) as (? & ? & ? & [=] & _).
Qed.
End peak.

(** ** The suspension *)

Lemma suspend_update_rel id u d : sessions_rel d (fst (suspend_update id u d)).
Proof.
  unfold suspend_update. destruct (update_row _ _ _ _) as [m n] eqn:E. apply update_row_cases in E as [(_ & -> & _)|(s & Hs & Hb & -> & _)].
  - by apply same_sessions_rel.
  - apply (session_update_rel id s); [done|]. split; [done..| |right].
    + intros p Hp. exists p. split; [done|lia].
    + unfold session_active in Hb. bool_to_prop. done.
Qed.

Lemma guar_suspend u code : guar sessions_rel (suspendSessionForRiskLimit u code).
Proof.
  unfold suspendSessionForRiskLimit, invalidateGrantsForSession, audit_log. guar_walk; try apply sessions_rel_preorder.
  - apply guar_op. intros d. apply suspend_update_rel.
  - apply guar_op. intros d. by apply same_sessions_rel.
  - apply guar_modify. intros d. by apply same_sessions_rel.
Qed.

(** ** Pools *)

Inductive kcall := KPeak (sessionId : string) (equity : ED) | KSuspend (userId code : string) | KResolve (userId : string).

Definition run_kcall (c : kcall) : io (option (string * ED * ED)) :=
  match c with
  | KPeak id e => bind (maintainMonotonicPeak id e) (fun r => Ret (Some (id, e, r)))
  | KSuspend u code => bind (suspendSessionForRiskLimit u code) (fun _ => Ret None)
  | KResolve u => bind (resolveActiveSessionAuthority u) (fun _ => Ret None)
  end.

Definition exact_equity (c : kcall) : Prop := match c with KPeak _ e => canonical e | _ => True end.

Definition kcall_says (d0 : DB) (a : option (string * ED * ED)) (d : DB) : Prop :=
  match a with Some (id, e, r) => peak_says id e d0 r d | None => True end.

Lemma sure_kcall d0 c :
  exact_equity c -> assured DbUnavailable (sessions_rel d0) sessions_rel (kcall_says d0) (fun _ => True) (run_kcall c).
Proof.
  assert (forall x y, sessions_rel x y -> sessions_rel d0 x -> sessions_rel d0 y) as Htrans by (intros ????; by etransitivity).
  destruct c as [id e|u code|u]; cbn [run_kcall exact_equity]; intros He.
  - eapply assured_bind; [by apply sure_peak|]. by intros r d _ Hr.
  - eapply assured_bind; [apply assured_guar; [exact Htrans|by intros ???|apply guar_suspend]|]. by intros ????.
  - eapply assured_bind; [apply assured_guar; [exact Htrans|by intros ???|]|by intros ????].
    unfold resolveActiveSessionAuthority. guar_walk; apply sessions_rel_preorder.
Qed.

(** the peak equity of a session never falls, and a session is suspended once.  Whatever peak
    updates and breach reactions run together, under any interleaving and any lost statements:
    stored peaks only rise; a session is left as it was or goes from ACTIVE to
    SUSPENDED_RISK_LIMIT with exactly one step of its generation, however many reactions; and
    the peak each evaluation measures its drawdown from is at least its own equity and any peak
    stored before, and is covered, to the cent, by the peak that stays stored. *)
Theorem peak_monotone calls sched d :
  Forall exact_equity calls ->
  let c := exec DbUnavailable sched (d, run_kcall <$> calls) in
  sessions_rel d (fst c) /\
  forall i id e r, snd c !! i = Some (Ret (Some (id, e, r))) ->
    (toQ e <= toQ r)%Q /\
    (forall s p, sessions d !! id = Some s -> s_peakEquity s = Some p -> (toQ (mkED p 2) <= toQ r)%Q) /\
    (forall s, sessions (fst c) !! id = Some s -> exists p, s_peakEquity s = Some p /\ (toQ r < toQ (mkED (p + 1) 2))%Q).
Proof.
  intros He c. destruct (exec_assured DbUnavailable (sessions_rel d) sessions_rel (kcall_says d) sched (d, run_kcall <$> calls))
    as (_ & HR & Ha); [reflexivity| |fold c in HR, Ha].
  - apply Forall_fmap. eapply Forall_impl; [exact He|]. apply sure_kcall.
  - split; [exact HR|]. intros i id e r Hi. destruct (Ha i _ Hi) as (_ & Hle & Hfl & Hc). auto.
Qed.

Definition peak_session (peak : option Z) : TradingSession :=
  mkSession "s1" "u1" "b1" FULL_AUTO 7 Session.ACTIVE 0 (Some 100000) peak None None None None false.

Definition peak_db (peak : option Z) : DB := set_sessions {["s1" := peak_session peak]} (empty_db 1000).

Definition equity_of (s : string) : ED := default ZERO (tryParse_text s).

Lemma peak_monotone_witness :
  let calls := [KPeak "s1" (equity_of "1200.005"); KPeak "s1" (equity_of "1100"); KSuspend "u1" "MAX_DRAWDOWN_REACHED"] in
  let sched := [(1, Exec); (0, Exec); (2, Exec); (2, Exec); (2, Exec); (2, Exec)]%nat in
  let c := exec DbUnavailable sched (peak_db (Some 110000), run_kcall <$> calls) in
  sessions_rel (peak_db (Some 110000)) (fst c) /\
  sessions (fst c) !! "s1" = Some (suspend_patch (peak_session (Some 120001))).
Proof.
  intros calls sched c. split; [|vm_compute; reflexivity].
  apply (peak_monotone calls sched (peak_db (Some 110000))). repeat constructor.
Defined.

Lemma first_of_single {A} (before : A -> A -> bool) x l : l <> [] -> (forall y, y ∈ l -> y = x) -> first_of before l = Some x.
Proof.
  intros Hne Hall. destruct l as [|y l]; [done|]. cbn. f_equal. rewrite (Hall y) in * by by left.
  assert (forall z, z ∈ l -> z = x) as Hl by (intros z Hz; apply Hall; by right). clear Hne Hall.
  induction l as [|z l IH]; cbn; [done|]. rewrite (Hl z) by by left.
  replace (if before x x then x else x) with x by (by destruct (before x x)). apply IH. intros w Hw. apply Hl. by right.
Qed.

Definition only_active (u : string) (s : TradingSession) (d : DB) : Prop :=
  sessions d !! s_id s = Some s /\ s_userId s = u /\ s_status s = Session.ACTIVE /\
  forall id x, sessions d !! id = Some x -> s_userId x = u -> s_status x = Session.ACTIVE -> x = s.

Lemma active_session_found u s d before : only_active u s d -> first_of before (active_sessions u d) = Some s.
Proof.
  intros (Hs & Hu & Ha & Hone). apply first_of_single.
  - intros Hnil. assert (s ∈ active_sessions u d) as Hin; [|rewrite Hnil in Hin; by apply not_elem_of_nil in Hin].
    unfold active_sessions, session_active. rewrite list_elem_of_In, filter_In, <- list_elem_of_In, Hu, Ha.
    split; [|by rewrite !bool_decide_eq_true_2]. apply list_elem_of_fmap. exists (s_id s, s). split; [done|by apply elem_of_map_to_list].
  - intros x. unfold active_sessions, session_active. rewrite list_elem_of_In, filter_In, <- list_elem_of_In. intros [Hin Hb].
    bool_to_prop. apply list_elem_of_fmap in Hin as ([id y] & -> & Hy%elem_of_map_to_list). by apply (Hone id).
Qed.

(** a breach of a hard limit alone ends the session's authority to open exposure.  When the
    user has one ACTIVE session, the reaction suspends it with a step of its generation, leaves
    it no active grant, touches no other session and no other grant, and does not fail; the
    confirmations pending under the session stay pending. *)
Theorem breach_suspends u code s d :
  only_active u s d ->
  exists d', run (suspendSessionForRiskLimit u code) d = (d', Ok tt) /\
    sessions d' = <[s_id s := suspend_patch s]> (sessions d) /\
    (forall id g, grants d' !! id = Some g -> g_sessionId g = s_id s -> g_status g <> G_ACTIVE) /\
    (forall id g, grants d !! id = Some g -> g_sessionId g <> s_id s \/ g_status g <> G_ACTIVE -> grants d' !! id = Some g) /\
    confirmations d' = confirmations d.
Proof.
  intros Hone. pose proof Hone as (Hs & Hu & Ha & _). unfold suspendSessionForRiskLimit. run_simpl.
  rewrite (active_session_found _ _ _ _ Hone), Ha.
  unfold Session.assert, assertTransition, canTransition, mem. rewrite bool_decide_eq_true_2 by set_solver. cbn [negb]. run_simpl. unfold suspend_update, update_row. rewrite Hs. unfold session_active. rewrite Hu, Ha, !bool_decide_eq_true_2 by done.
  cbn [andb]. run_simpl. counts. unfold invalidateGrantsForSession, audit_log. run_simpl. cbn. eexists. split; [done|]. cbn.
  split; [done|]. split; [|split; [|done]].
  - intros id g. rewrite lookup_fmap. destruct (grants d !! id) as [x|]; [|done]. simpl. intros [= <-] Hg.
    case_match eqn:Hb; [done|]. intros Hst. unfold grant_active in Hb. rewrite Hg, Hst, !bool_decide_eq_true_2 in Hb; done.
  - intros id g Hg Hn. rewrite lookup_fmap, Hg. simpl. case_match eqn:Hb; [|done]. exfalso.
    unfold grant_active in Hb. bool_to_prop. naive_solver.
Qed.

Lemma breach_suspends_witness :
  exists d', run (suspendSessionForRiskLimit "u1" "MAX_DRAWDOWN_REACHED") (peak_db None) = (d', Ok tt) /\
    s_status <$> sessions d' !! "s1" = Some Session.SUSPENDED_RISK_LIMIT.
Proof.
  assert (only_active "u1" (peak_session None) (peak_db None)) as H.
  { split; [reflexivity|]. split; [reflexivity|]. split; [reflexivity|]. intros id x Hx _ _.
    cbn [peak_db sessions set_sessions] in Hx. apply lookup_singleton_Some in Hx as [_ <-]. reflexivity. }
  destruct (breach_suspends "u1" "MAX_DRAWDOWN_REACHED" _ _ H) as (d' & Hr & Hs & _). exists d'. split; [exact Hr|].
  rewrite Hs. reflexivity.
Defined.
