(* ===== verification/RiskRules.v ===== *)
(** * Risk rules ([risk/risk.service.ts], [risk/risk-order-geometry.service.ts])

    The arithmetic rules of the risk engine, without its store: the binding of a proposed trade,
    the checks of its stop and target, the rebasing of a demo order on the fresh quote, and the
    per-trade controls on risk at stop and on effective leverage.  What they read of the market
    is the class [Evidence] of the sizing.  The texts of the rejections, and the risk score,
    which is for display, are left out; a JavaScript number is given as its [String(..)]. *)

From S2P Require Import Prelude JsString JsDate CanonicalJson Decimal DecimalSpecs Store OrderService RiskGrants Capital Adapter Sizing.
Open Scope string_scope.
Open Scope list_scope.
Open Scope Z_scope.

(** ** Data *)

Record ProposedTrade := mkProposed {
  pt_signalId : string; pt_instrument : string; pt_direction : string; pt_requestedLotSize : string;
  pt_entryPrice : string; pt_stopLoss : option string; pt_takeProfit : option string;
  pt_trailingStopPips : option string; pt_idempotencyKey : string; pt_strategyTimeframe : option string;
  pt_volatilityScore : option string; pt_regime : option string;
  pt_sessionId : option string; pt_sessionGeneration : option Z; pt_executionMode : option string;
  pt_brokerConnectionId : option string;
  pt_allocationAwarePaperSizing : bool; pt_paperMarketReferenceEntryPrice : option string }.

Record ValidatedOrder := mkValidated {
  vo_instrument : string; vo_direction : string; vo_lotSize : string; vo_entryPrice : string; vo_stopLoss : string;
  vo_takeProfit : string; vo_trailingStopPips : option string; vo_idempotencyKey : string;
  vo_strategyTimeframe : option string }.

(** The codes the engine gives. *)
Inductive RiskRejectionCode :=
| KILL_SWITCH_ACTIVE | SESSION_NOT_ACTIVE_CODE | BROKER_DISCONNECTED | EXECUTION_CONTROL_ACTIVE | LIVE_AUTHORIZATION_REQUIRED
| DAILY_LOSS_LIMIT_REACHED | MAX_DRAWDOWN_REACHED | INSUFFICIENT_MARGIN | MISSING_STOP_LOSS | MISSING_TAKE_PROFIT
| INVALID_SL_DISTANCE | INVALID_TP_DIRECTION | LEVERAGE_EXCEEDED | INSTRUMENT_NOT_ALLOWED | AUTHORITY_BINDING_REQUIRED
| SESSION_AUTHORITY_MISMATCH | SESSION_BASELINE_UNAVAILABLE | ACCOUNT_STATE_UNAVAILABLE | MAX_TRADE_RISK_EXCEEDED
| RISK_QUOTE_UNAVAILABLE | CONTRACT_SIZE_UNAVAILABLE | UNKNOWN_MARKET_REGIME | HIGH_VOLATILITY | LOW_LIQUIDITY_REGIME
| DUPLICATE_SIGNAL | RISK_ENGINE_ERROR | RISK_ENGINE_QUERY_FAILED.

#[export] Instance RiskRejectionCode_eq_dec : EqDecision RiskRejectionCode.
Proof. solve_decision. Defined.

Definition code_name (c : RiskRejectionCode) : string :=
  match c with
  | KILL_SWITCH_ACTIVE => "KILL_SWITCH_ACTIVE" | SESSION_NOT_ACTIVE_CODE => "SESSION_NOT_ACTIVE"
  | BROKER_DISCONNECTED => "BROKER_DISCONNECTED" | EXECUTION_CONTROL_ACTIVE => "EXECUTION_CONTROL_ACTIVE"
  | LIVE_AUTHORIZATION_REQUIRED => "LIVE_AUTHORIZATION_REQUIRED" | DAILY_LOSS_LIMIT_REACHED => "DAILY_LOSS_LIMIT_REACHED"
  | MAX_DRAWDOWN_REACHED => "MAX_DRAWDOWN_REACHED" | INSUFFICIENT_MARGIN => "INSUFFICIENT_MARGIN"
  | MISSING_STOP_LOSS => "MISSING_STOP_LOSS" | MISSING_TAKE_PROFIT => "MISSING_TAKE_PROFIT"
  | INVALID_SL_DISTANCE => "INVALID_SL_DISTANCE" | INVALID_TP_DIRECTION => "INVALID_TP_DIRECTION"
  | LEVERAGE_EXCEEDED => "LEVERAGE_EXCEEDED" | INSTRUMENT_NOT_ALLOWED => "INSTRUMENT_NOT_ALLOWED"
  | AUTHORITY_BINDING_REQUIRED => "AUTHORITY_BINDING_REQUIRED" | SESSION_AUTHORITY_MISMATCH => "SESSION_AUTHORITY_MISMATCH"
  | SESSION_BASELINE_UNAVAILABLE => "SESSION_BASELINE_UNAVAILABLE" | ACCOUNT_STATE_UNAVAILABLE => "ACCOUNT_STATE_UNAVAILABLE"
  | MAX_TRADE_RISK_EXCEEDED => "MAX_TRADE_RISK_EXCEEDED" | RISK_QUOTE_UNAVAILABLE => "RISK_QUOTE_UNAVAILABLE"
  | CONTRACT_SIZE_UNAVAILABLE => "CONTRACT_SIZE_UNAVAILABLE" | UNKNOWN_MARKET_REGIME => "UNKNOWN_MARKET_REGIME"
  | HIGH_VOLATILITY => "HIGH_VOLATILITY" | LOW_LIQUIDITY_REGIME => "LOW_LIQUIDITY_REGIME"
  | DUPLICATE_SIGNAL => "DUPLICATE_SIGNAL" | RISK_ENGINE_ERROR => "RISK_ENGINE_ERROR"
  | RISK_ENGINE_QUERY_FAILED => "RISK_ENGINE_QUERY_FAILED"
  end.

(** ** Texts *)

(** [!s] of an optional text. *)
Definition blank (s : option string) : bool := bool_decide (default "" s = "").

Definition isMarketEntryPrice (entryPrice : string) : bool :=
  bool_decide (entryPrice = "") ||
  (let trimmed := string_of (trim (chars_of entryPrice)) in bool_decide (trimmed = "") || bool_decide (trimmed = "0")).

Definition isKnownMarketRegime (regime : option string) : bool :=
  bool_decide (regime ∈ [Some "TRENDING"; Some "RANGING"; Some "LOW_LIQUIDITY"; Some "HIGH_VOLATILITY"]).

(** [s.includes(part)]. *)
Fixpoint includes (part s : chars) : bool :=
  bool_decide (take (length part) s = part) || match s with [] => false | _ :: s => includes part s end.

Definition MODES : list string := map mode_name [PAPER_ONLY; SEMI_AUTO; FULL_AUTO].

(** Whether the binding is incomplete. *)
Definition requireAuthorityBinding (t : ProposedTrade) : bool :=
  blank (pt_sessionId t) || bool_decide (pt_sessionGeneration t = None) || blank (pt_brokerConnectionId t)
  || blank (pt_executionMode t) || negb (bool_decide (default "" (pt_executionMode t) ∈ MODES)).

(** Whether the binding, or the resolved generation, is not that of the session. *)
Definition describeAuthorityMismatch (t : ProposedTrade) (s : TradingSession) (generation : Z) : bool :=
  negb (bool_decide (generation = s_authorityGeneration s))
  || negb (bool_decide (pt_sessionId t = Some (s_id s)))
  || negb (bool_decide (pt_sessionGeneration t = Some (s_authorityGeneration s)))
  || negb (bool_decide (pt_brokerConnectionId t = Some (s_brokerConnectionId s)))
  || negb (bool_decide (pt_executionMode t = Some (mode_name (s_executionMode s)))).

(** ** Decimals *)

Section rules.
Local Open Scope result_scope.

(** [parseOrderDecimal] and [parseProfileDecimal]. *)
Definition order_decimal (field value : string) : result exn ED :=
  match tryParse_text value with Some d => Ok d | None => Err (RiskEngineError field) end.

Definition profile_decimal (field : string) (sc v : Z) : result exn ED := order_decimal field (numeric_out sc v).

(** A part of the sizing that only reads or computes: its errors are of [ExactDecimal]. *)
Definition computed {A} (r : sres A) : result exn A :=
  match r with Ok a => Ok a | Err _ => Err MalformedDecimal end.

(** ** Stop and target *)

Definition DEFAULT_PIP_SIZE : string := "0.0001".
Definition JPY_PIP_SIZE : string := "0.01".

Definition pip_size (instrument : string) : string :=
  if includes (chars_of "JPY") (chars_of instrument) then JPY_PIP_SIZE else DEFAULT_PIP_SIZE.

(** The entry the checks measure from; [None]: there is none, and they are skipped. *)
Definition check_entry (t : ProposedTrade) (override : option ED) : result exn (option ED) :=
  match override with
  | Some e => Ok (Some e)
  | None => if bool_decide (pt_entryPrice t = "") then Ok None else rmap Some (order_decimal "entryPrice" (pt_entryPrice t))
  end.

(** Whether the stop is on the wrong side or too close. *)
Definition checkStopLossDistance (t : ProposedTrade) (minPips : Z) (override : option ED) : result exn bool :=
  if blank (pt_stopLoss t) then Ok false
  else
    try! entry := check_entry t override in
    match entry with
    | None => Ok false
    | Some entry =>
        try! sl := order_decimal "stopLoss" (default "" (pt_stopLoss t)) in
        try! minPips := profile_decimal "minStopLossPips" 2 minPips in
        try! notBelow := exact (gte sl entry) in
        try! notAbove := exact (lte sl entry) in
        if bool_decide (pt_direction t = "BUY") && notBelow then Ok true
        else if bool_decide (pt_direction t = "SELL") && notAbove then Ok true
        else
          try! pip := exact (parse_text (pip_size (pt_instrument t))) in
          try! difference := exact (sub entry sl) in
          try! pips := exact (div (abs difference) pip (Some (Int 6)) (Some HALF_UP)) in
          exact (lt pips minPips)
    end.

(** Whether the target is on the wrong side. *)
Definition checkTakeProfitDirection (t : ProposedTrade) (override : option ED) : result exn bool :=
  if blank (pt_takeProfit t) then Ok false
  else
    try! entry := check_entry t override in
    match entry with
    | None => Ok false
    | Some entry =>
        try! tp := order_decimal "takeProfit" (default "" (pt_takeProfit t)) in
        try! notAbove := exact (lte tp entry) in
        try! notBelow := exact (gte tp entry) in
        Ok (bool_decide (pt_direction t = "BUY") && notAbove || bool_decide (pt_direction t = "SELL") && notBelow)
    end.

(** ** Rebasing on the fresh quote *)

Definition with_geometry (stopLoss takeProfit : string) (t : ProposedTrade) : ProposedTrade :=
  mkProposed (pt_signalId t) (pt_instrument t) (pt_direction t) (pt_requestedLotSize t) (pt_entryPrice t) (Some stopLoss)
    (Some takeProfit) (pt_trailingStopPips t) (pt_idempotencyKey t) (pt_strategyTimeframe t) (pt_volatilityScore t)
    (pt_regime t) (pt_sessionId t) (pt_sessionGeneration t) (pt_executionMode t) (pt_brokerConnectionId t)
    (pt_allocationAwarePaperSizing t) (pt_paperMarketReferenceEntryPrice t).

(** The trade with its stop and target at the same distances from [entry]; [None]: it stays. *)
Definition rebased (t : ProposedTrade) (entry : ED) : result exn (option ProposedTrade) :=
  match positive_text (default "" (pt_paperMarketReferenceEntryPrice t)), positive_text (default "" (pt_stopLoss t)),
        positive_text (default "" (pt_takeProfit t)) with
  | Some reference, Some stop, Some take =>
      try! toStop := exact (sub reference stop) in
      try! toTarget := exact (sub take reference) in
      let stopDistance := abs toStop in
      let targetDistance := abs toTarget in
      let buy := bool_decide (pt_direction t = "BUY") in
      try! stopOk := exact (if buy then lt stop reference else gt stop reference) in
      try! takeOk := exact (if buy then gt take reference else lt take reference) in
      if stopOk && takeOk && isPositive stopDistance && isPositive targetDistance then
        try! newStop := exact (if buy then sub entry stopDistance else add entry stopDistance) in
        try! newTake := exact (if buy then add entry targetDistance else sub entry targetDistance) in
        Ok (Some (with_geometry (text newStop) (text newTake) t))
      else Ok None
  | _, _, _ => Ok None
  end.

(** ** Risk at stop and effective leverage *)

Section evidence.
Context `{!Evidence}.

(** What [resolveOrderGeometry] records of the quote it used. *)
Definition quoteRef (t : ProposedTrade) (freshQuote : option ED) : option js :=
  match freshQuote, executionQuote with
  | Some price, Some q =>
      match positive_text (q_bid q), positive_text (q_ask q), q_timestamp q with
      | Some bid, Some ask, Some observedAt =>
          Some (JObject
            [field "instrument" (jstr (pt_instrument t)); field "direction" (jstr (pt_direction t));
             field "price" (jstr (text price)); field "bid" (jstr (text bid)); field "ask" (jstr (text ask));
             field "observedAt" (JString (toISOString observedAt)); field "source" (jstr "broker-current-price")])
      | _, _, _ => None
      end
  | _, _ => None
  end.

Record Figures := mkFigures { riskAtStop : ED; notional : ED; conversion_rules : list string }.

Definition join_path (path : list string) : string := String.concat ">" path.

(** Both figures divided by the rate, rounded up. *)
Definition per_account (riskRate notionalRate riskQuote notionalQuote : ED) (rules : list string) : result exn (option Figures) :=
  try! risk := exact (divUp riskQuote riskRate (Int 12)) in
  try! notional := exact (divUp notionalQuote notionalRate (Int 12)) in
  Ok (Some (mkFigures risk notional rules)).

(** The risk at stop and the notional in the account's currency; [None]: the conversion is not
    provable. *)
Definition figures (accountCurrency baseCurrency quoteCurrency : string) (entry stop quantity contractSize : ED)
  : result exn (option Figures) :=
  try! distance := exact (sub entry stop) in
  try! r0 := exact (mul (abs distance) quantity) in
  try! riskQuote := exact (mul r0 contractSize) in
  try! n0 := exact (mul entry quantity) in
  try! notionalQuote := exact (mul n0 contractSize) in
  if bool_decide (accountCurrency = quoteCurrency) then Ok (Some (mkFigures riskQuote notionalQuote []))
  else if bool_decide (accountCurrency = baseCurrency) then per_account stop entry riskQuote notionalQuote []
  else
    try! cached := (if fxConversionAvailable then computed (resolveCachedBid accountCurrency quoteCurrency) else Ok None) in
    match (c ← cached; bid ← positive_text c.1; Some (bid, c.2)) with
    | Some (bid, path) =>
        per_account bid bid riskQuote notionalQuote
          ["MAX_TRADE_RISK:CURRENCY_CONVERTED:" +:+ join_path path +:+ ":BROKER_NATIVE_CACHE"]
    | None =>
        match quoted_bid (accountCurrency +:+ quoteCurrency) with
        | Some bid =>
            per_account bid bid riskQuote notionalQuote
              ["MAX_TRADE_RISK:CURRENCY_CONVERTED:" +:+ accountCurrency +:+ quoteCurrency]
        | None => Ok None
        end
    end.

(** [riskAtStop / equity * 100 > maxTradeRiskPercent]. *)
Definition risk_exceeded (f : Figures) (equity maxTradeRiskPercent : ED) : result exn bool :=
  try! fraction := exact (divUp (riskAtStop f) equity (Int 8)) in
  try! percent := exact (mulByPowerOfTen fraction (Int 2)) in
  exact (gt percent maxTradeRiskPercent).

(** [notional / equity >= maxLeverageAllowed]. *)
Definition leverage_reached (f : Figures) (equity maxLeverage : ED) : result exn bool :=
  try! effective := exact (divUp (notional f) equity (Int 8)) in
  exact (gte effective maxLeverage).
End evidence.
End rules.
