(* ===== verification/RiskEngine.v ===== *)
(** * The risk engine ([risk/risk.service.ts])

    [validateProposedTrade] with its whole pipeline: the authority binding, the emergency
    controls, the kill switch, the session and its exact connection, the account state, the
    LIVE snapshot and daily-risk period, the account limits, the order rules, the per-trade
    controls, the duplicate check and the issuance of the grant.  An evaluation is an [eval]:
    it carries the list of applied rules and leaves early with a decision.

    The market and the broker answer through [Evidence] and [Broker]; [Ids] are the uuids an
    evaluation draws; the clock the evaluation is stamped with is an argument.  The save of a
    violation is not awaited: it is the first statement of a rejection here.  The context
    stored with it, log lines, metrics and published events are left out.  A rebasing rewrites
    the stop and target of the trade that is evaluated further; that the caller's object is
    the same one is not modelled. *)

From S2P Require Import Prelude Prog StateMachines JsString CanonicalJson Decimal DecimalSpecs Store OrderService RiskGrants.
From S2P Require Import Authority Boundary Capital Adapter Sizing AccountSnapshots DailyRisk RiskProfiles RiskSession RiskRules.
Open Scope string_scope.
Open Scope list_scope.
Open Scope Z_scope.

Record RiskApprovalResult := mkApproval {
  ra_signalId : string; ra_validatedOrder : ValidatedOrder; ra_appliedRules : list string; ra_evaluatedAt : Z;
  ra_grantId : string; ra_sessionId : string; ra_sessionGeneration : Z; ra_executionMode : ExecutionMode;
  ra_brokerConnectionId : string; ra_logicalAccountKey : option string; ra_accountCurrency : option string;
  ra_riskPeriodId : option string }.

(** A rejection is REJECTED, or SUSPENDED when a hard limit is reached. *)
Inductive RiskDecision :=
| APPROVED (approval : RiskApprovalResult)
| REJECTED (signalId : string) (code : RiskRejectionCode)
| SUSPENDED (signalId : string) (code : RiskRejectionCode).

(** What the connection's adapter answers. *)
Record Broker := mkBroker {
  x_session : BrokerConnection -> result exn AccountInfo; (** a reconnection and [getAccountInfo] *)
  x_requiredMargin : string -> result exn (option string) (** [getRequiredMargin] of a lot size *) }.

Record Ids := mkIds {
  id_profile : string; id_snapshot1 : string; id_snapshot2 : string; id_period : string;
  id_grants : nat -> string; id_confirmations : nat -> string }.

(** ** Evaluations *)

Definition eval (A : Type) : Type := list string -> io (RiskDecision + A * list string).

Definition pass {A} (a : A) : eval A := fun rules => Ret (inr (a, rules)).
Definition leave {A} (p : io RiskDecision) : eval A := fun _ => bind p (fun d => Ret (inl d)).
Definition await {A} (p : io A) : eval A := fun rules => bind p (fun a => Ret (inr (a, rules))).
Definition compute {A} (r : result exn A) : eval A := await (of_result r).
Definition applied (rule : string) : eval unit := fun rules => Ret (inr (tt, rules ++ [rule])).
(** [try { await p } catch { .. }]: the caller sees the error. *)
Definition trying {A} (p : io A) : eval (result exn A) := await (attempt p).

Definition chain {A B} (m : eval A) (f : A -> eval B) : eval B :=
  fun rules => bind (m rules) (fun r => match r with inl d => Ret (inl d) | inr (a, rules) => f a rules end).

Declare Scope eval_scope.
Delimit Scope eval_scope with eval.
Notation "'get' x ':=' m 'in' k" := (chain m%eval (fun x => k%eval))
  (at level 10, x binder, m at level 100, k at level 200) : eval_scope.
Notation "'then!' m 'in' k" := (chain m%eval (fun _ => k%eval))
  (at level 10, m at level 100, k at level 200) : eval_scope.

(** ** Rejections *)

Definition hard_limit (code : RiskRejectionCode) : bool :=
  bool_decide (code = DAILY_LOSS_LIMIT_REACHED) || bool_decide (code = MAX_DRAWDOWN_REACHED).

Definition violation_insert (v : RiskViolation) (d : DB) : DB * result exn unit :=
  (set_violations (violations d ++ [v]) d, Ok tt).

Section rejections.
Local Open Scope prog_scope.

Definition rejectAndRecord (userId signalId : string) (code : RiskRejectionCode) : io RiskDecision :=
  do! catch (op (violation_insert (mkViolation userId signalId (code_name code)))) (fun _ => Ret tt) in
  if hard_limit code then
    do! catch (suspendSessionForRiskLimit userId (code_name code)) (fun _ => Ret tt) in
    Ret (SUSPENDED signalId code)
  else Ret (REJECTED signalId code).

Definition buildRejection (signalId : string) (code : RiskRejectionCode) : RiskDecision := REJECTED signalId code.

Definition findTradeBySignalId (signalId userId : string) : io (option TradeRow) :=
  sel (fun d => find_row (fun t => bool_decide (t_signalId t = Some signalId) && bool_decide (t_userId t = userId)) (trades d)).
End rejections.

(** ** The evidence of an evaluation *)

Definition at_clock (t : Z) (ev : Evidence) : Evidence :=
  {| acceptedSnapshot := acceptedSnapshot; accountRow := accountRow; riskProfile := riskProfile;
     connectionAccountType := connectionAccountType; executionQuote := executionQuote;
     instrumentSpecification := instrumentSpecification; fxConversionAvailable := fxConversionAvailable;
     cachedQuote := cachedQuote; conversionQuote := conversionQuote; evaluatedAt := t; quotedAt := quotedAt;
     requiredMargin := requiredMargin |}.

Section pipeline.
Context (sha256 : chars -> string) (ev : Evidence) (broker : Broker) (ids : Ids) (userId : string) (time : Z).
Local Open Scope eval_scope.

#[local] Instance evidence : Evidence := at_clock time ev.

(** [return this.rejectAndRecord(.., code, ..)]. *)
Definition reject {A} (t : ProposedTrade) (code : RiskRejectionCode) : eval A :=
  leave (rejectAndRecord userId (pt_signalId t) code).

(** [if (guard) return this.rejectAndRecord(..)]. *)
Definition reject_if (guard : bool) (t : ProposedTrade) (code : RiskRejectionCode) : eval unit :=
  if guard then reject t code else pass tt.

Definition needed {A} (o : option A) (t : ProposedTrade) (code : RiskRejectionCode) : eval A :=
  match o with Some a => pass a | None => reject t code end.

(** *** Steps 0 and 1: authority *)

Definition evaluateControlGate (brokerId brokerConnectionId : option string) (t : ProposedTrade) : eval unit :=
  get permission := await (checkExecutionPermission userId brokerId brokerConnectionId) in
  if allowed permission then pass tt
  else
    then! await (audit_log (mkAudit (Some userId) "EXECUTION_CONTROL_BLOCKED" "AiSignal" (pt_signalId t) "blocked")) in
    reject t EXECUTION_CONTROL_ACTIVE.

Definition load_profile (t : ProposedTrade) : eval RiskProfile :=
  get profile := await (getOrCreateProfile (id_profile ids) userId) in
  then! reject_if (rk_killSwitchActive profile) t KILL_SWITCH_ACTIVE in
  then! applied "KILL_SWITCH:OK" in
  pass profile.

Definition owned_session (sessionId : string) (d : DB) : option TradingSession :=
  match sessions d !! sessionId with
  | Some s => if bool_decide (s_userId s = userId) then Some s else None
  | None => None
  end.

Definition load_session (t : ProposedTrade) : eval TradingSession :=
  get resolved := trying (resolveActiveSessionAuthority userId) in
  match resolved with
  | Err SessionAuthorityNotActive => reject t SESSION_NOT_ACTIVE_CODE
  | Err err => compute (Err err)
  | Ok authority =>
      get session := await (sel (owned_session (au_sessionId authority))) in
      match session with
      | None => leave (Ret (buildRejection (pt_signalId t) RISK_ENGINE_ERROR))
      | Some s =>
          then! reject_if (describeAuthorityMismatch t s (au_sessionGeneration authority)) t SESSION_AUTHORITY_MISMATCH in
          then! applied "SESSION_AUTHORITY:OK" in
          pass s
      end
  end.

Definition is_live (b : BrokerConnection) : bool := bool_decide (b_accountType b = "LIVE").
Definition is_demo (b : BrokerConnection) : bool := bool_decide (b_accountType b = "DEMO").

Definition load_connection (t : ProposedTrade) (s : TradingSession) : eval BrokerConnection :=
  get found := trying (op (fun d => (d, findConnectionById (s_brokerConnectionId s) userId d))) in
  match found with
  | Err _ => reject t BROKER_DISCONNECTED
  | Ok b =>
      then! reject_if (negb (bool_decide (b_status b = B_CONNECTED))) t BROKER_DISCONNECTED in
      then! applied "BROKER_CONNECTION:OK" in
      then! evaluateControlGate (Some (b_brokerId b)) (Some (b_id b)) t in
      then! applied "EXECUTION_CONTROL_FULL_CONTEXT:OK" in
      then! reject_if (is_live b && negb (Authorization.isExecutable (b_authorizationStatus b))) t LIVE_AUTHORIZATION_REQUIRED in
      then! applied "LIVE_AUTHORIZATION:OK" in
      pass b
  end.

(** *** Step 2: the account *)

(** [parseBrokerDecimal]. *)
Definition parseBrokerDecimal (v : option string) : option ED := v ← v; tryParse_text v.

(** The equity, the text of the free margin, the currency. *)
Definition load_account (t : ProposedTrade) (b : BrokerConnection) : eval (ED * option string * string) :=
  get read := trying (read_account_state evidence (b_id b)) in
  match read with
  | Err _ => reject t RISK_ENGINE_QUERY_FAILED
  | Ok None => reject t ACCOUNT_STATE_UNAVAILABLE
  | Ok (Some (equity, freeMargin, currency)) =>
      get equity := needed (parseBrokerDecimal equity) t ACCOUNT_STATE_UNAVAILABLE in
      pass (equity, freeMargin, currency)
  end.

Record LiveBinding := mkLive {
  lb_snapshot : AccountSnapshot; lb_currency : string; lb_logicalAccountKey : string; lb_periodId : string; lb_loss : RealisedLoss }.

Definition refreshable (e : exn) : bool :=
  bool_decide (e = SnapshotNotFresh SNAPSHOT_STALE) || bool_decide (e = SnapshotNotFresh SNAPSHOT_MISSING).

Definition fresh_or_observed (connectionId : string) : io AccountSnapshot :=
  catch (resolveFreshSnapshotForNewExposure connectionId)
    (fun err =>
       if refreshable err then
         do! observeAccountSnapshotNow (x_session broker) (id_snapshot1 ids) (id_snapshot2 ids) userId connectionId in
         resolveFreshSnapshotForNewExposure connectionId
       else Throw err)%prog.

(** [if (!x) throw]. *)
Definition truthy_or_throw (o : option string) : io string :=
  match o with Some s => if bool_decide (s = "") then Throw (RiskEngineError "LIVE authority") else Ret s
             | None => Throw (RiskEngineError "LIVE authority") end.

Definition live_authority (profile : RiskProfile) (b : BrokerConnection) : io LiveBinding :=
  (let* s := fresh_or_observed (b_id b) in
   let* key := truthy_or_throw (b_logicalAccountKey b) in
   let* currency := truthy_or_throw (sn_currency s) in
   let* balance := truthy_or_throw (snapshot_text (sn_balance s)) in
   let* equity := truthy_or_throw (snapshot_text (sn_equity s)) in
   let* period := resolveDailyRiskPeriod (id_period ids)
     (mkPeriodInput userId (b_id b) key currency (sn_id s, balance, equity) (Some (rk_id profile, rk_revision profile))) in
   let* loss := getTodayRealisedLossExact (mkScope userId key currency) in
   Ret (mkLive s currency key (dp_id period) loss))%prog.

Definition load_live (t : ProposedTrade) (profile : RiskProfile) (b : BrokerConnection) : eval (option LiveBinding) :=
  if is_live b then
    get read := trying (live_authority profile b) in
    match read with Ok l => pass (Some l) | Err _ => reject t ACCOUNT_STATE_UNAVAILABLE end
  else pass None.

(** *** Step 3: account limits *)

(** [s?.trim() || null]. *)
Definition trimmed_or_null (s : option string) : option string :=
  match s with
  | Some s => let s := string_of (trim (chars_of s)) in if bool_decide (s = "") then None else Some s
  | None => None
  end.

(** What the day's loss is read from; [None]: it cannot be scoped or proven complete. *)
Definition todays_loss (live : option LiveBinding) (b : BrokerConnection) (currency : string) : io (option string) :=
  (match live with
   | Some l => Ret (if complete (lb_loss l) then Some (total (lb_loss l)) else None)
   | None =>
       match trimmed_or_null (b_logicalAccountKey b), trimmed_or_null (Some currency) with
       | Some key, Some currency =>
           let* loss := getTodayRealisedLossExact (mkScope userId key currency) in
           Ret (if complete loss then Some (total loss) else None)
       | _, _ => Ret None
       end
   end)%prog.

Definition daily_loss_reached (profile : RiskProfile) (openingBalance loss : ED) : result exn bool :=
  if isNegative loss then
    rbind (exact (percentOf (InString (chars_of (numeric_out 2 (rk_maxDailyLossPercent profile)))) (InString (chars_of (text openingBalance)))))
      (fun limit => exact (gte (abs loss) limit))
  else Ok false.

Definition check_daily_loss (t : ProposedTrade) (profile : RiskProfile) (s : TradingSession) (b : BrokerConnection)
    (live : option LiveBinding) (currency : string) : eval unit :=
  get openingBalance := needed (positive (parseSessionDecimal (s_openingBalance s))) t SESSION_BASELINE_UNAVAILABLE in
  get read := trying (todays_loss live b currency) in
  get loss := needed (match read with Ok (Some loss) => tryParse_text loss | _ => None end) t RISK_ENGINE_QUERY_FAILED in
  get reached := compute (daily_loss_reached profile openingBalance loss) in
  then! reject_if reached t DAILY_LOSS_LIMIT_REACHED in
  applied "DAILY_LOSS_LIMIT:OK".

Definition drawdown_reached (profile : RiskProfile) (peak equity : ED) : result exn bool :=
  rbind (exact (sub peak equity)) (fun amount => rbind (exact (divUp amount peak (Int 8))) (fun fraction =>
    rbind (exact (mulByPowerOfTen fraction (Int 2))) (fun percent =>
      rbind (profile_decimal "maxDrawdownPercent" 2 (rk_maxDrawdownPercent profile)) (fun limit => exact (gte percent limit))))).

Definition check_drawdown (t : ProposedTrade) (profile : RiskProfile) (s : TradingSession) (equity : ED) : eval unit :=
  get peak := await (maintainMonotonicPeak (s_id s) equity) in
  then! reject_if (negb (isPositive peak)) t SESSION_BASELINE_UNAVAILABLE in
  get reached := compute (drawdown_reached profile peak equity) in
  then! reject_if reached t MAX_DRAWDOWN_REACHED in
  applied "MAX_DRAWDOWN:OK".

Definition check_margin (t : ProposedTrade) (freeMargin : option string) : eval unit :=
  get free := needed (parseBrokerDecimal freeMargin) t INSUFFICIENT_MARGIN in
  get answer := trying (of_result (x_requiredMargin broker (pt_requestedLotSize t))) in
  get required := needed (match answer with Ok r => parseBrokerDecimal r | Err _ => None end) t INSUFFICIENT_MARGIN in
  get exceeds := compute (exact (gt required free)) in
  then! reject_if exceeds t INSUFFICIENT_MARGIN in
  applied "MARGIN_CHECK:OK".

(** *** Step 4: position limits *)

Definition allocationAwareDemoSizing (t : ProposedTrade) (b : BrokerConnection) : bool :=
  pt_allocationAwarePaperSizing t && is_demo b.

(** The effective lot size, and the quantity it reads as. *)
Definition check_size (t : ProposedTrade) (profile : RiskProfile) (s : TradingSession) (b : BrokerConnection) : eval (string * ED) :=
  then! applied "CONCURRENT_POSITION_COUNT:UNBOUNDED" in
  then! applied "DAILY_TRADE_COUNT:UNBOUNDED" in
  get requestedLots := compute (order_decimal "requestedLotSize" (pt_requestedLotSize t)) in
  get maxLots := compute (profile_decimal "maxPositionSizeLot" 4 (rk_maxPositionSizeLot profile)) in
  get over := compute (exact (gt requestedLots maxLots)) in
  get lotSize :=
    (if over && negb (allocationAwareDemoSizing t b) then
       then! applied ("POSITION_SIZE:REDUCED_" +:+ text requestedLots +:+ "_TO_" +:+ text maxLots) in
       then! await (audit_log (mkAudit (Some userId) "RISK_POSITION_SIZE_REDUCED" "" (pt_signalId t) (pt_instrument t))) in
       pass (numeric_out 4 (rk_maxPositionSizeLot profile))
     else
       then! applied (if allocationAwareDemoSizing t b
                      then (if bool_decide (s_executionMode s = PAPER_ONLY) then "POSITION_SIZE:ALLOCATION_AWARE_PAPER"
                            else "POSITION_SIZE:ALLOCATION_AWARE_DEMO")
                      else "POSITION_SIZE:OK") in
       pass (pt_requestedLotSize t)) in
  get quantity := compute (order_decimal "effectiveLotSize" lotSize) in
  let whitelisted := match rk_allowedInstruments profile with
                     | Some (i :: l) => bool_decide (pt_instrument t ∈ i :: l)
                     | _ => true
                     end in
  then! reject_if (negb whitelisted) t INSTRUMENT_NOT_ALLOWED in
  then! applied "INSTRUMENT_WHITELIST:OK" in
  pass (lotSize, quantity).

(** *** Steps 5 and 6: the order and the market *)

Definition missing (price : option string) : bool := blank price || bool_decide (price = Some "0").

(** Stop and target against the entry given, or against the requested price. *)
Definition check_geometry (t : ProposedTrade) (profile : RiskProfile) (entry : option ED) (stopRule targetRule : string) : eval unit :=
  get close := compute (checkStopLossDistance t (rk_minStopLossPips profile) entry) in
  then! reject_if close t INVALID_SL_DISTANCE in
  then! applied stopRule in
  get wrong := compute (checkTakeProfitDirection t entry) in
  then! reject_if wrong t INVALID_TP_DIRECTION in
  applied targetRule.

Definition check_order (t : ProposedTrade) (profile : RiskProfile) : eval unit :=
  then! reject_if (missing (pt_stopLoss t)) t MISSING_STOP_LOSS in
  then! applied "MANDATORY_SL:OK" in
  then! reject_if (missing (pt_takeProfit t)) t MISSING_TAKE_PROFIT in
  then! applied "MANDATORY_TP:OK" in
  if isMarketEntryPrice (pt_entryPrice t) then
    then! applied "SL_DISTANCE:DEFERRED_MARKET_QUOTE" in
    applied "TP_DIRECTION:DEFERRED_MARKET_QUOTE"
  else check_geometry t profile None "SL_DISTANCE:OK" "TP_DIRECTION:OK".

Definition check_market (t : ProposedTrade) (profile : RiskProfile) : eval unit :=
  then! match pt_volatilityScore t with
        | None => pass tt
        | Some score =>
            get maxVol := compute (profile_decimal "maxVolatilityScore" 2 (rk_maxVolatilityScore profile)) in
            get score := needed (tryParse_text score) t RISK_ENGINE_ERROR in
            get above := compute (exact (gt score maxVol)) in
            then! reject_if above t HIGH_VOLATILITY in
            applied "VOLATILITY:OK"
        end in
  then! reject_if (bool_decide (pt_regime t = Some "LOW_LIQUIDITY") && rk_rejectLowLiquidity profile) t LOW_LIQUIDITY_REGIME in
  then! reject_if (rk_rejectLowLiquidity profile && negb (isKnownMarketRegime (pt_regime t))) t UNKNOWN_MARKET_REGIME in
  applied "REGIME:OK".

(** *** Step 6c: per-trade controls *)

(** The rebased trade of an allocation-aware demo order. *)
Definition rebase (t : ProposedTrade) (s : TradingSession) (b : BrokerConnection) (entry : ED) : eval ProposedTrade :=
  if is_demo b && pt_allocationAwarePaperSizing t && negb (blank (pt_paperMarketReferenceEntryPrice t)) then
    get moved := compute (rebased t entry) in
    match moved with
    | Some t' =>
        then! applied (if bool_decide (s_executionMode s = PAPER_ONLY) then "PAPER_MARKET_GEOMETRY:REBASED"
                       else "DEMO_MARKET_GEOMETRY:REBASED") in
        pass t'
    | None => pass t
    end
  else pass t.

Definition liveNewExposure (s : TradingSession) (b : BrokerConnection) : bool :=
  is_live b && negb (bool_decide (s_executionMode s = PAPER_ONLY)).

(** The entry of the geometry; [None]: unverified, on a paper or demo account. *)
Definition geometry_entry (t : ProposedTrade) (s : TradingSession) (b : BrokerConnection) (g : Geometry) : eval (option ED) :=
  if isMarketEntryPrice (pt_entryPrice t) then
    match freshQuote g with
    | Some quote => pass (Some quote)
    | None => if liveNewExposure s b then reject t RISK_QUOTE_UNAVAILABLE else pass None
    end
  else compute (rmap Some (order_decimal "entryPrice" (pt_entryPrice t))).

(** Risk at stop and effective leverage against the equity. *)
Definition check_exposure (t : ProposedTrade) (profile : RiskProfile) (equity quantity entry contractSize : ED)
    (accountCurrency : string) : eval unit :=
  get stop := compute (order_decimal "stopLoss" (default "" (pt_stopLoss t))) in
  let instrument := toUpperCase (string_of (trim (chars_of (pt_instrument t)))) in
  then! reject_if (negb (upper_word 6 instrument) || negb (upper_word 3 accountCurrency)) t ACCOUNT_STATE_UNAVAILABLE in
  let baseCurrency := string_of (take 3 (chars_of instrument)) in
  let quoteCurrency := string_of (take 3 (drop 3 (chars_of instrument))) in
  get priced := compute (figures accountCurrency baseCurrency quoteCurrency entry stop quantity contractSize) in
  get f := needed priced t ACCOUNT_STATE_UNAVAILABLE in
  then! (fun rules => Ret (inr (tt, rules ++ conversion_rules f))) in
  get maxTradeRiskPercent := compute (profile_decimal "maxTradeRiskPercent" 2 (rk_maxTradeRiskPercent profile)) in
  then! reject_if (negb (isPositive equity)) t ACCOUNT_STATE_UNAVAILABLE in
  get exceeded := compute (risk_exceeded f equity maxTradeRiskPercent) in
  then! reject_if exceeded t MAX_TRADE_RISK_EXCEEDED in
  then! applied "MAX_TRADE_RISK:OK" in
  get maxLeverage := compute (order_decimal "maxLeverageAllowed" (string_of (bigint_text (rk_maxLeverageAllowed profile)))) in
  get reached := compute (leverage_reached f equity maxLeverage) in
  then! reject_if reached t LEVERAGE_EXCEEDED in
  applied "LEVERAGE:OK".

Definition unverified : eval unit :=
  then! applied "MAX_TRADE_RISK:GEOMETRY_UNVERIFIED" in
  applied "LEVERAGE:GEOMETRY_UNVERIFIED".

(** The trade, rebased or not, and the quote it was checked against. *)
Definition enforcePerTradeControls (t : ProposedTrade) (profile : RiskProfile) (s : TradingSession) (b : BrokerConnection)
    (equity quantity : ED) (accountCurrency : string) : eval (ProposedTrade * option js) :=
  get g := compute (computed (resolveOrderGeometry (pt_direction t) (isMarketEntryPrice (pt_entryPrice t)))) in
  get entry := geometry_entry t s b g in
  get t :=
    (match (if isMarketEntryPrice (pt_entryPrice t) then entry else None) with
     | Some quote =>
         get t := rebase t s b quote in
         then! check_geometry t profile (Some quote) "SL_DISTANCE:MARKET_QUOTE_OK" "TP_DIRECTION:MARKET_QUOTE_OK" in
         pass t
     | None => pass t
     end) in
  then! match contractSize g, entry with
        | None, _ => if liveNewExposure s b then reject t CONTRACT_SIZE_UNAVAILABLE else unverified
        | Some _, None => unverified
        | Some size, Some entry => check_exposure t profile equity quantity entry size accountCurrency
        end in
  pass (t, quoteRef t (freshQuote g)).

(** *** Step 7: duplicates *)

Definition check_duplicate (t : ProposedTrade) : eval unit :=
  get read := trying (findTradeBySignalId (pt_signalId t) userId) in
  match read with
  | Err _ => reject t RISK_ENGINE_ERROR
  | Ok (Some _) => reject t DUPLICATE_SIGNAL
  | Ok None => applied "IDEMPOTENCY:OK"
  end.

(** *** Step 8: the grant *)

Definition digest (payload : js) : io string :=
  match digestCanonicalPayload sha256 payload with Ok d => Ret d | Err e => Throw (CanonicalJsonError e) end.

Definition norm (v : option string) : option string := string_of <$> normalizeDecimalStringForDigest (chars_of <$> v).
Definition jnorm (v : option string) : js := jopt jstr (norm v).
Definition jnumeric (sc v : Z) : js := jnorm (Some (numeric_out sc v)).

Definition signal_digest_payload (t : ProposedTrade) (s : TradingSession) : js :=
  JObject
    [field "instrument" (jstr (pt_instrument t)); field "direction" (jstr (pt_direction t));
     field "requestedLotSize" (jnorm (Some (pt_requestedLotSize t)));
     field "entryPrice" (jnorm (Some (pt_entryPrice t)));
     field "stopLoss" (jnorm (pt_stopLoss t)); field "takeProfit" (jnorm (pt_takeProfit t));
     field "marketRegime" (jopt jstr (pt_regime t)); field "strategyTimeframe" (jopt jstr (pt_strategyTimeframe t));
     field "sessionId" (jstr (s_id s)); field "brokerConnectionId" (jstr (s_brokerConnectionId s))].

Definition order_payload (t : ProposedTrade) (v : ValidatedOrder) : OrderPayload :=
  mkPayload (vo_instrument v) (vo_direction v) (default (vo_lotSize v) (norm (Some (vo_lotSize v)))) "MARKET"
    (if isMarketEntryPrice (vo_entryPrice v) then None else norm (Some (vo_entryPrice v)))
    (norm (Some (vo_stopLoss v))) (norm (Some (vo_takeProfit v))) (pt_regime t) (vo_strategyTimeframe v).

Definition order_digest_payload (p : OrderPayload) (v : ValidatedOrder) : js :=
  JObject
    [field "instrument" (jstr (p_instrument p)); field "direction" (jstr (p_direction p));
     field "quantity" (jstr (p_quantity p)); field "entryPrice" (jopt jstr (p_requestedPrice p));
     field "stopLoss" (jopt jstr (p_stopLoss p)); field "takeProfit" (jopt jstr (p_takeProfit p));
     field "trailingStopPips" (jnorm (vo_trailingStopPips v)); field "idempotencyKey" (jstr (vo_idempotencyKey v));
     field "marketRegime" (jopt jstr (p_marketRegime p)); field "strategyTimeframe" (jopt jstr (p_strategyTimeframe p))].

Definition profile_digest_payload (p : RiskProfile) : js :=
  JObject
    [field "maxDailyLossPercent" (jnumeric 2 (rk_maxDailyLossPercent p));
     field "maxDrawdownPercent" (jnumeric 2 (rk_maxDrawdownPercent p));
     field "maxPositionSizeLot" (jnumeric 4 (rk_maxPositionSizeLot p));
     field "minStopLossPips" (jnumeric 2 (rk_minStopLossPips p));
     field "allowedInstruments" (jopt (fun l => JArray (map jstr l)) (rk_allowedInstruments p));
     field "maxVolatilityScore" (jnumeric 2 (rk_maxVolatilityScore p));
     field "rejectLowLiquidity" (JBool (rk_rejectLowLiquidity p));
     field "maxTradeRiskPercent" (jnumeric 2 (rk_maxTradeRiskPercent p));
     field "maxLeverageAllowed" (jint (rk_maxLeverageAllowed p));
     field "allowedTradingModes" (jstr (mode_name (rk_allowedTradingModes p)));
     field "killSwitchActive" (JBool (rk_killSwitchActive p))].

Definition issueAuthorityGrant (t : ProposedTrade) (profile : RiskProfile) (s : TradingSession) (b : BrokerConnection)
    (v : ValidatedOrder) (quote : option js) (live : option LiveBinding) (rebindConfirmationId : option string) : io string :=
  (let* signalPayloadDigest := digest (signal_digest_payload t s) in
   let* orderPayloadDigest := digest (order_digest_payload (order_payload t v) v) in
   let* riskProfileHash := digest (profile_digest_payload profile) in
   let* authorityGeneration := getCurrentGeneration userId in
   let* revisions :=
     catch (let* policy := getCurrentTradingPolicyRevision in
            let* provider := getCurrentProviderVerificationRevision in
            let* control := getCurrentExecutionControlRevision in
            Ret (policy, provider, control))
       (fun _ => Throw (RiskEngineError "Shared control-plane revision read failed")) in
   let '(policy, provider, control) := revisions in
   let snapshot := lb_snapshot <$> live in
   let* issued := issueGrant sha256 (id_grants ids) (id_confirmations ids)
     (mkIssuance userId (pt_signalId t) signalPayloadDigest (s_id s) (s_authorityGeneration s) (s_executionMode s)
        (s_brokerConnectionId s) (b_providerBrokerIdentity b) None (Some (rk_id profile)) (Some (rk_revision profile))
        (Some riskProfileHash) (sn_id <$> snapshot) (sn_generation <$> snapshot)
        ((fun x => default (sn_acceptedAt x) (sn_providerObservedAt x)) <$> snapshot)
        authorityGeneration (Some (rk_revision profile)) (Some control) (Some policy) (Some provider)
        (Some (b_credentialGeneration b)) orderPayloadDigest (order_payload t v) quote time rebindConfirmationId) in
   Ret (g_id (rr_grant issued)))%prog.

(** *** The pipeline *)

Definition rules_applied : eval (list string) := fun rules => Ret (inr (rules, rules)).

(** What the display score computes with decimals; the rest of it are JavaScript numbers. *)
Definition score_ratio (t : ProposedTrade) (profile : RiskProfile) : result exn ED :=
  rbind (profile_decimal "maxPositionSizeLot" 4 (rk_maxPositionSizeLot profile)) (fun maxLots =>
    rbind (order_decimal "requestedLotSize" (pt_requestedLotSize t)) (fun requested =>
      if isZero maxLots then Ok ZERO else exact (divDown requested maxLots (Int 6)))).

Definition validated (t : ProposedTrade) (lotSize : string) : ValidatedOrder :=
  mkValidated (pt_instrument t) (pt_direction t) lotSize (pt_entryPrice t) (default "" (pt_stopLoss t))
    (default "" (pt_takeProfit t)) (pt_trailingStopPips t) (pt_idempotencyKey t) (pt_strategyTimeframe t).

Definition approve (t : ProposedTrade) (profile : RiskProfile) (s : TradingSession) (b : BrokerConnection) (lotSize : string)
    (quote : option js) (live : option LiveBinding) (currency : string) (rebindConfirmationId : option string)
  : eval RiskDecision :=
  let v := validated t lotSize in
  get issued := trying (issueAuthorityGrant t profile s b v quote live rebindConfirmationId) in
  match issued with
  | Err _ => reject t RISK_ENGINE_ERROR
  | Ok grantId =>
      get rules := rules_applied in
      then! compute (score_ratio t profile) in
      pass (APPROVED (mkApproval (pt_signalId t) v rules time grantId (s_id s) (s_authorityGeneration s) (s_executionMode s)
              (s_brokerConnectionId s)
              (match live with Some l => Some (lb_logicalAccountKey l) | None => b_logicalAccountKey b end)
              (Some (match live with Some l => lb_currency l | None => currency end))
              (lb_periodId <$> live)))
  end.

Definition pipeline (t : ProposedTrade) (rebindConfirmationId : option string) : eval RiskDecision :=
  then! reject_if (requireAuthorityBinding t) t AUTHORITY_BINDING_REQUIRED in
  then! applied "AUTHORITY_BINDING:OK" in
  then! evaluateControlGate None None t in
  then! applied "EXECUTION_CONTROL:OK" in
  get profile := load_profile t in
  get session := load_session t in
  get connection := load_connection t session in
  get account := load_account t connection in
  let '(equity, freeMargin, currency) := account in
  get live := load_live t profile connection in
  then! check_daily_loss t profile session connection live currency in
  then! check_drawdown t profile session equity in
  then! check_margin t freeMargin in
  get sized := check_size t profile session connection in
  let '(lotSize, quantity) := sized in
  then! check_order t profile in
  then! check_market t profile in
  get controlled := enforcePerTradeControls t profile session connection equity quantity
                      (toUpperCase (string_of (trim (chars_of currency)))) in
  let '(t, quote) := controlled in
  then! check_duplicate t in
  approve t profile session connection lotSize quote live currency rebindConfirmationId.

Definition runValidationPipeline (t : ProposedTrade) (rebindConfirmationId : option string) : io RiskDecision :=
  bind (pipeline t rebindConfirmationId []) (fun r => Ret (match r with inl d => d | inr (d, _) => d end)).

(** [options?.rebindConfirmationId]. *)
Definition validateProposedTrade (t : ProposedTrade) (rebindConfirmationId : option string) : io RiskDecision :=
  catch (runValidationPipeline t rebindConfirmationId) (fun _ => Ret (buildRejection (pt_signalId t) RISK_ENGINE_ERROR)).

(** ** [hasDailyLossLimitBreached] *)

Definition hasDailyLossLimitBreached : io bool :=
  catch
    (let* profile := getOrCreateProfile (id_profile ids) userId in
     let* authority := resolveActiveSessionAuthority userId in
     let* session := sel (owned_session (au_sessionId authority)) in
     match session with
     | None => Ret false
     | Some session =>
         match positive (parseSessionDecimal (s_openingBalance session)) with
         | None => Ret false
         | Some openingBalance =>
             let* connection := op (fun d => (d, findConnectionById (s_brokerConnectionId session) userId d)) in
             if negb (bool_decide (b_status connection = B_CONNECTED)) then Ret false
             else
               let* account := read_account_state evidence (b_id connection) in
               match trimmed_or_null (b_logicalAccountKey connection), trimmed_or_null (snd <$> account) with
               | Some key, Some currency =>
                   let* loss := getTodayRealisedLossExact (mkScope userId key currency) in
                   if negb (complete loss) then Ret false
                   else match tryParse_text (total loss) with
                        | None => Ret false
                        | Some today => of_result (daily_loss_reached profile openingBalance today)
                        end
               | _, _ => Ret false
               end
         end
     end)%prog
    (fun _ => Ret false).
End pipeline.
