(* ===== verification/RiskApproval.v ===== *)
(** * What an approval of the risk engine guarantees under concurrency

    The engine is walked once with the rules of [Assured]: what an evaluation yields, what it
    keeps and what it knows of the store when it approves.  [approval_backed] concludes that an
    approval carries a grant that is in the store, whatever runs together and whatever
    statements are lost.  The sample evaluation the witnesses run is here too. *)

From S2P Require Import Prelude Prog StateMachines JsString CanonicalJson Decimal DecimalSpecs Store OrderService RiskGrants.
From S2P Require Import Authority Boundary Capital Adapter Sizing SizingBounds Assured AccountSnapshots DailyRisk RiskProfiles.
From S2P Require Import RiskSession RiskRules RiskEngine.
From Stdlib Require Import QArith Qabs Lqa.
Open Scope string_scope.
Open Scope list_scope.
Open Scope Z_scope.

(** ** Evaluations that go on *)

(** [m] runs alone from [d] to [a] and [d']. *)
Definition yields {A} (m : eval A) (rules : list string) (d : DB) (a : A) (rules' : list string) (d' : DB) : Prop :=
  run (m rules) d = (d', Ok (inr (a, rules'))).

Section yields.
Context {A B : Type}.
Implicit Types (rules : list string) (d : DB).

Lemma chain_yields (m : eval A) (f : A -> eval B) rules d b rules' d' :
  yields (chain m f) rules d b rules' d' ->
  exists a rules1 d1, yields m rules d a rules1 d1 /\ yields (f a) rules1 d1 b rules' d'.
Proof.
  unfold yields, chain. rewrite run_bind. destruct (run (m rules) d) as [d1 [[r|[a rules1]]|e]]; cbn [run]; [done| |done].
  intros H. by exists a, rules1, d1.
Qed.

Lemma pass_yields (a b : A) rules d rules' d' : yields (pass a) rules d b rules' d' -> a = b /\ rules = rules' /\ d = d'.
Proof. by intros [= -> -> ->]. Qed.

Lemma await_yields (p : io A) rules d a rules' d' :
  yields (await p) rules d a rules' d' -> run p d = (d', Ok a) /\ rules = rules'.
Proof. unfold yields, await. rewrite run_bind. destruct (run p d) as [d1 [x|e]]; [|done]. by intros [= -> -> ->]. Qed.

Lemma compute_yields (r : result exn A) rules d a rules' d' :
  yields (compute r) rules d a rules' d' -> r = Ok a /\ rules = rules' /\ d = d'.
Proof. unfold yields, compute, await. rewrite run_bind. destruct r; [|done]. by intros [= -> -> ->]. Qed.

Lemma trying_yields (p : io A) rules d r rules' d' :
  yields (trying p) rules d r rules' d' -> run p d = (d', r) /\ rules = rules'.
Proof.
  unfold yields, trying, await. rewrite run_bind, run_attempt. destruct (run p d) as [d1 x]. by intros [= -> -> ->].
Qed.

Lemma applied_yields rule rules d u rules' d' : yields (applied rule) rules d u rules' d' -> d = d'.
Proof. by intros [= ???]. Qed.

Lemma leave_yields (p : io RiskDecision) rules d a rules' d' : ~ yields (A := A) (leave p) rules d a rules' d'.
Proof. unfold yields, leave. rewrite run_bind. by destruct (run p d) as [d1 [x|e]]. Qed.

Lemma reject_yields u t code rules d a rules' d' : ~ yields (A := A) (reject u t code) rules d a rules' d'.
Proof. apply leave_yields. Qed.

End yields.

Lemma reject_if_yields u guard t code rules d x rules' d' :
  yields (reject_if u guard t code) rules d x rules' d' -> guard = false /\ d = d'.
Proof. destruct guard; [by intros ?%leave_yields|]. by intros (_ & _ & ?)%pass_yields. Qed.

Lemma needed_yields {A} u (o : option A) t code rules d a rules' d' :
  yields (needed u o t code) rules d a rules' d' -> o = Some a /\ d = d'.
Proof. destruct o; [|by intros ?%leave_yields]. by intros (-> & _ & ?)%pass_yields. Qed.

(** What an evaluation that went on has computed, part by part. *)
Ltac yielded :=
  repeat match goal with
  | H : yields (chain _ _) _ _ _ _ _ |- _ => apply chain_yields in H as (? & ? & ? & ? & H)
  | H : yields (pass _) _ _ _ _ _ |- _ => apply pass_yields in H as (? & ? & ?); simplify_eq
  | H : yields (compute _) _ _ _ _ _ |- _ => apply compute_yields in H as (? & ? & ?); simplify_eq
  | H : yields (trying _) _ _ _ _ _ |- _ => apply trying_yields in H as (? & ?); simplify_eq
  | H : yields (await _) _ _ _ _ _ |- _ => apply await_yields in H as (? & ?); simplify_eq
  | H : yields (applied _) _ _ _ _ _ |- _ => apply applied_yields in H; simplify_eq
  | H : yields (leave _) _ _ _ _ _ |- _ => by apply leave_yields in H
  | H : yields (reject _ _ _) _ _ _ _ _ |- _ => by apply leave_yields in H
  | H : yields (reject_if _ _ _ _) _ _ _ _ _ |- _ => apply reject_if_yields in H as (? & ?); simplify_eq
  | H : yields (needed _ _ _ _) _ _ _ _ _ |- _ => apply needed_yields in H as (? & ?); simplify_eq
  end.

(** ** Evaluations that leave *)

(** Whatever the statements answer, [p] returns what [P] allows. *)
Fixpoint returns {A} (P : A -> Prop) (p : io A) : Prop :=
  match p with
  | Ret a => P a
  | Throw _ => True
  | Op act k => forall r, returns P (k r)
  end.

Lemma returns_bind {A B} (P : B -> Prop) (p : io A) (f : A -> io B) : (forall a, returns P (f a)) -> returns P (bind p f).
Proof. intros Hf. induction p as [a|e|X act k IH]; simpl; auto. Qed.

Lemma returns_post {A B} (Q : A -> Prop) (P : B -> Prop) (p : io A) (f : A -> io B) :
  returns Q p -> (forall a, Q a -> returns P (f a)) -> returns P (bind p f).
Proof. intros Hp Hf. induction p as [a|e|X act k IH]; simpl in *; auto. Qed.

Lemma returns_run {A} (P : A -> Prop) (p : io A) d d' a : returns P p -> run p d = (d', Ok a) -> P a.
Proof.
  revert d. induction p as [x|e|X act k IH]; intros d; simpl; [by intros ? [= _ ->]|done|].
  intros H. destruct (act d) as [d1 r]. by apply IH.
Qed.

Definition approving (r : RiskDecision) : bool := match r with APPROVED _ => true | _ => false end.

(** It never leaves with an approval, and goes on only with what [Q] allows. *)
Definition keeps {A} (Q : A -> Prop) (m : eval A) : Prop :=
  forall rules, returns (fun r => match r with inl d => approving d = false | inr (a, _) => Q a end) (m rules).

Definition refuses {A} (m : eval A) : Prop := keeps (fun _ => True) m.

Lemma refuses_chain {A B} (m : eval A) (f : A -> eval B) : refuses m -> (forall a, refuses (f a)) -> refuses (chain m f).
Proof.
  intros Hm Hf rules. eapply returns_post; [apply Hm|]. intros [r|[a rules']]; [done|]. intros _. apply Hf.
Qed.

Lemma refuses_await {A} (p : io A) : refuses (await p).
Proof. intros rules. by apply returns_bind. Qed.

Lemma refuses_reject {A} u t code : refuses (A := A) (reject u t code).
Proof.
  intros rules. apply (returns_post (fun r => approving r = false)); [|done]. unfold rejectAndRecord.
  apply returns_bind. intros _. destruct (hard_limit code); [by apply returns_bind|done].
Qed.

Lemma refuses_reject_if u guard t code : refuses (reject_if u guard t code).
Proof. destruct guard; [apply refuses_reject|done]. Qed.

Lemma refuses_needed {A} u (o : option A) t code : refuses (needed u o t code).
Proof. destruct o; [done|apply refuses_reject]. Qed.

#[export] Hint Resolve refuses_await refuses_reject refuses_reject_if refuses_needed : irex.

Ltac refusing :=
  repeat first
    [ progress intros
    | match goal with
      | |- refuses (chain _ _) => apply refuses_chain
      | |- refuses (match ?x with _ => _ end) => destruct x eqn:?
      end
    | by eauto with irex
    | done ].

Section pipeline.
Context (sha256 : chars -> string) (ev : Evidence) (broker : Broker) (ids : Ids) (u : string) (time : Z).

Lemma refuses_gate b c t : refuses (evaluateControlGate u b c t).
Proof. unfold evaluateControlGate. refusing. Qed.

Lemma refuses_profile t : refuses (load_profile ids u t).
Proof. unfold load_profile. refusing. Qed.

Lemma refuses_session t : refuses (load_session u t).
Proof. unfold load_session, compute. refusing. Qed.

Lemma refuses_connection t s : refuses (load_connection u t s).
Proof. pose proof refuses_gate. unfold load_connection. refusing. Qed.

Lemma refuses_pipeline t rb : refuses (pipeline sha256 ev broker ids u time t rb).
Proof.
  pose proof refuses_gate. pose proof refuses_profile. pose proof refuses_session. pose proof refuses_connection.
  unfold pipeline, load_account, load_live, check_daily_loss, check_drawdown, check_margin, check_size, check_order,
    check_market, enforcePerTradeControls, geometry_entry, rebase, check_geometry, check_exposure, unverified, compute, trying,
    check_duplicate, approve.
  refusing.
Qed.
End pipeline.

(** ** What an evaluation writes *)

(** The writes of an evaluation before its grant, respected by [R]. *)
Class Respects (R : DB -> DB -> Prop) := {
  rs_preorder :: PreOrder R;
  rs_audit m d : R d (set_audit m d);
  rs_profiles m d : R d (set_profiles m d);
  rs_peak id e d : canonical e -> R d (fst (peak_update id e d));
  rs_suspend id u d : R d (fst (suspend_update id u d));
  rs_snapshots m d : R d (set_snapshots m d);
  rs_accounts m d : R d (set_brokerAccounts m d);
  rs_periods m d : R d (set_riskPeriods m d);
  rs_violations m d : R d (set_violations m d);
  rs_invalidate s r : guar R (invalidateGrantsForSession s r) }.

Definition eguar {A} (R : DB -> DB -> Prop) (m : eval A) : Prop := forall rules, guar R (m rules).

Section writes.
Context (R : DB -> DB -> Prop) `{!Respects R}.

Lemma eguar_chain {A B} (m : eval A) (f : A -> eval B) : eguar R m -> (forall a, eguar R (f a)) -> eguar R (chain m f).
Proof. intros Hm Hf rules. apply guar_bind; [apply Hm|]. intros [r|[a rules']]; [done|apply Hf]. Qed.

Lemma eguar_await {A} (p : io A) : guar R p -> eguar R (await p).
Proof. intros Hp rules. by apply guar_bind. Qed.

Lemma eguar_compute {A} (r : result exn A) : eguar R (compute r).
Proof. apply eguar_await. destruct r; done. Qed.

Lemma eguar_trying {A} (p : io A) : guar R p -> eguar R (trying p).
Proof. intros Hp. apply eguar_await. by apply guar_attempt. Qed.

Lemma guar_writes {X} (act : DB -> DB * result exn X) : (forall d, R d (fst (act d))) -> guar R (op act).
Proof. apply guar_op. Qed.

Lemma guar_log e : guar R (audit_log e).
Proof. apply guar_audit; [apply _|]. intros d. apply rs_audit. Qed.

Lemma guar_suspension u code : guar R (suspendSessionForRiskLimit u code).
Proof.
  unfold suspendSessionForRiskLimit. guar_walk; [|apply rs_invalidate|apply guar_log]. apply guar_op. intros d.
  apply rs_suspend.
Qed.

Lemma guar_rejection u signalId code : guar R (rejectAndRecord u signalId code).
Proof.
  unfold rejectAndRecord. guar_walk; [|apply guar_suspension]. apply guar_op. intros d. apply rs_violations.
Qed.

Lemma eguar_leave {A} (p : io RiskDecision) : guar R p -> eguar R (leave (A := A) p).
Proof. intros Hp rules. by apply guar_bind. Qed.

Lemma eguar_reject {A} u t code : eguar R (reject (A := A) u t code).
Proof. apply eguar_leave, guar_rejection. Qed.

Lemma eguar_reject_if u guard t code : eguar R (reject_if u guard t code).
Proof. destruct guard; [apply eguar_reject|done]. Qed.

Lemma eguar_needed {A} u (o : option A) t code : eguar R (needed u o t code).
Proof. destruct o; [done|apply eguar_reject]. Qed.

Lemma guar_profile id u : guar R (getOrCreateProfile id u).
Proof.
  unfold getOrCreateProfile, findProfile. guar_walk. apply guar_op. intros d. unfold profile_insert.
  case_bool_decide; [reflexivity|apply rs_profiles].
Qed.

Lemma guar_observe x id1 id2 u c : guar R (observeAccountSnapshotNow x id1 id2 u c).
Proof.
  unfold observeAccountSnapshotNow, recordAccountSnapshot, acceptSnapshot, projectToLegacyAccount, insertNextGeneration,
    readMaxGeneration.
  guar_walk; apply guar_op; intros d; try reflexivity; unfold snapshot_insert, legacy_insert, legacy_update;
    repeat case_match; try reflexivity; solve [apply rs_snapshots | apply rs_accounts].
Qed.

Lemma guar_period id i : guar R (resolveDailyRiskPeriod id i).
Proof.
  unfold resolveDailyRiskPeriod, createPeriod, findPeriod, assertCurrencyMatches. guar_walk. apply guar_op. intros d.
  unfold period_insert. repeat case_match; try reflexivity. apply rs_periods.
Qed.

Lemma guar_peak id e : canonical e -> guar R (maintainMonotonicPeak id e).
Proof.
  intros He.
  unfold maintainMonotonicPeak. guar_walk. apply guar_op. intros d. by apply rs_peak.
Qed.

Lemma guar_live broker ids u p b : guar R (live_authority broker ids u p b).
Proof.
  unfold live_authority, fresh_or_observed, resolveFreshSnapshotForNewExposure, truthy_or_throw, getTodayRealisedLossExact,
    getDailyLossResetAt.
  guar_walk; solve [apply guar_op; intros d; reflexivity | apply guar_observe | apply guar_period].
Qed.
End writes.
#[export] Hint Resolve eguar_compute eguar_reject eguar_reject_if eguar_needed guar_log guar_profile guar_live guar_peak
  guar_rejection : irex.

Ltac writing :=
  repeat first
    [ progress intros
    | match goal with
      | |- eguar _ (chain _ _) => apply eguar_chain
      | |- eguar _ (await _) => apply eguar_await
      | |- eguar _ (trying _) => apply eguar_trying
      | |- eguar _ (leave _) => apply eguar_leave
      | |- eguar _ (match ?x with _ => _ end) => destruct x eqn:?
      end
    | by eauto with irex
    | done ].

Section stages.
Context (sha256 : chars -> string) (ev : Evidence) (broker : Broker) (ids : Ids) (u : string) (time : Z).
Context (R : DB -> DB -> Prop) `{!Respects R}.

Lemma eguar_gate b c t : eguar R (evaluateControlGate u b c t).
Proof.
  unfold evaluateControlGate, checkExecutionPermission, findActiveControls. writing. guar_walk.
Qed.

Lemma eguar_load_profile t : eguar R (load_profile ids u t).
Proof. unfold load_profile. writing. Qed.

Lemma eguar_load_session t : eguar R (load_session u t).
Proof. unfold load_session, resolveActiveSessionAuthority. writing; guar_walk. Qed.

Lemma eguar_load_connection t s : eguar R (load_connection u t s).
Proof.
  pose proof eguar_gate. unfold load_connection. writing. apply guar_op. intros d. reflexivity.
Qed.

Lemma eguar_load_account t b : eguar R (load_account ev u time t b).
Proof. unfold load_account, read_account_state, readLatestAcceptedSnapshot. writing. guar_walk. Qed.

Lemma eguar_load_live t p b : eguar R (load_live broker ids u t p b).
Proof. unfold load_live. writing. Qed.

Lemma eguar_daily_loss t p s b l c : eguar R (check_daily_loss u t p s b l c).
Proof.
  unfold check_daily_loss, todays_loss, getTodayRealisedLossExact, getDailyLossResetAt. writing. guar_walk.
Qed.

Lemma eguar_drawdown t p s e : canonical e -> eguar R (check_drawdown u t p s e).
Proof. intros He. unfold check_drawdown. writing. Qed.

Lemma eguar_margin t free : eguar R (check_margin broker u t free).
Proof. unfold check_margin. writing. Qed.

Lemma eguar_size t p s b : eguar R (check_size u t p s b).
Proof. unfold check_size. writing. Qed.

Lemma eguar_order t p : eguar R (check_order u t p).
Proof. unfold check_order, check_geometry. writing. Qed.

Lemma eguar_market t p : eguar R (check_market u t p).
Proof. unfold check_market. writing. Qed.

Lemma eguar_controls t p s b e q c : eguar R (enforcePerTradeControls ev u time t p s b e q c).
Proof. unfold enforcePerTradeControls, geometry_entry, rebase, check_geometry, check_exposure, unverified. writing. Qed.

Lemma eguar_duplicate t : eguar R (check_duplicate u t).
Proof. unfold check_duplicate, findTradeBySignalId. writing. guar_walk. Qed.
End stages.

(** ** Approvals are backed by a grant *)

(** What an evaluation that only respects [R] answers. *)
Lemma assured_returns {A} (R : DB -> DB -> Prop) `{!PreOrder R} (inv : DB -> Prop) (Q : A -> Prop) (p : io A) :
  (forall d d', R d d' -> inv d -> inv d') -> guar R p -> returns Q p ->
  assured DbUnavailable inv R (fun a _ => Q a) (fun _ => True) p.
Proof.
  intros Hi. induction p as [a|e|X act k IH]; simpl; [auto..|]. intros [Ha Hk] Hq. split; [|by apply IH].
  intros d Hd _. split; [eapply Hi; [apply Ha|done]|]. split; [apply Ha|]. exists (fun _ => True). split; [done|]. split; [done|]. by apply IH.
Qed.

#[export] Instance authority_respects : Respects authority_rel.
Proof.
  split; [apply _|try (intros; apply authority_rel_same; reflexivity)..|].
  - intros id e d _. unfold peak_update. repeat case_match; try reflexivity. by apply authority_rel_same.
  - intros id u d. unfold suspend_update. destruct (update_row _ _ _ _). by apply authority_rel_same.
  - intros s r. apply guar_op. intros d.
  apply grants_update_where_rel. intros x g [_ ?]%andb_true_iff. eauto with irex.
Qed.

(** The grant of the store an approval was issued under. *)
Record backed (sha256 : chars -> string) (u : string) (t : ProposedTrade) (a : RiskApprovalResult) (d : DB) : Prop := mkBacked {
  bk_backed : exists g i digest orderDigest,
    grants d !! ra_grantId a = Some g /\ g_userId g = u /\ g_signalId g = pt_signalId t /\
    g_authorityBindingDigest g = Some digest /\ digestCanonicalPayload sha256 (authority_payload i) = Ok digest /\
    ri_userId i = u /\ ri_signalId i = pt_signalId t /\ ri_sessionId i = ra_sessionId a /\
    ri_sessionGeneration i = ra_sessionGeneration a /\ ri_executionMode i = ra_executionMode a /\
    ri_brokerConnectionId i = ra_brokerConnectionId a /\ ri_orderPayloadDigest i = orderDigest /\
    digestCanonicalPayload sha256 (order_digest_payload (order_payload t (ra_validatedOrder a)) (ra_validatedOrder a)) = Ok orderDigest }.

Abbreviation sure := (assured DbUnavailable authority_wf authority_rel).

Lemma wf_kept d d' : authority_rel d d' -> authority_wf d -> authority_wf d'.
Proof. by intros []. Qed.

(** A grant of this user, signal and digest is stored under the id. *)
Definition granted (i : RiskGrantIssuanceInput) (digest id : string) (d : DB) : Prop :=
  exists g, grants d !! id = Some g /\ g_userId g = ri_userId i /\ g_signalId g = ri_signalId i /\ g_authorityBindingDigest g = Some digest.

Lemma granted_stable i dg id : stable authority_rel (granted i dg id).
Proof.
  intros d d' [Hg _ _] (g & Hl & Hf). destruct (Hg id g Hl) as (g' & Hl' & He). exists g'. split; [done|].
  destruct He as [-> _ _ _]. done.
Qed.

(** The row an issuance reads. *)
Definition read_active (i : RiskGrantIssuanceInput) (o : option RiskGrant) (d : DB) : Prop :=
  forall g, o = Some g -> forall dg, g_authorityBindingDigest g = Some dg -> granted i dg (g_id g) d.

Lemma sure_find_active i :
  sure (read_active i) (fun _ => True) (findActiveGrantForSignal (ri_userId i) (ri_signalId i)).
Proof.
  apply assured_read; [apply _| |].
  - intros o d d' HR Ho g Hg dg Hd. eapply granted_stable; [exact HR|]. by apply Ho.
  - intros d [[Hk _] _] _ g Hg dg Hd. apply find_row_some in Hg as (id & Hl & Hs). rewrite (Hk id g Hl).
    unfold slot_of_grant in Hs. apply andb_true_iff in Hs as [[?%bool_decide_eq_true ?%bool_decide_eq_true]%andb_true_iff _].
    by exists g.
Qed.

Definition issues (i : RiskGrantIssuanceInput) (dg : string) (r : RiskGrantIssuanceResult) (d : DB) : Prop :=
  granted i dg (g_id (rr_grant r)) d.

Lemma issues_stable i dg r : stable authority_rel (issues i dg r).
Proof. apply granted_stable. Qed.

Lemma sure_rest {A B} (says : A -> DB -> Prop) K (p : io B) (a : A) :
  guar authority_rel p -> stable authority_rel K -> (forall d, K d -> says a d) -> sure says K (bind p (fun _ => Ret a)).
Proof.
  intros Hp HK Ha. apply (assured_bind _ _ _ (fun _ => K)); [by apply assured_guar; [apply wf_kept|..]|].
  intros _ d _. apply Ha.
Qed.

Lemma sure_reuse i dg g :
  sure (issues i dg) (granted i dg (g_id g))
    (bind (match ri_rebindConfirmationId i with
           | Some c => rebindPendingConfirmation c g (ri_userId i) (ri_signalId i)
           | None => Ret tt
           end) (fun _ => Ret (mkIssued g true))).
Proof.
  apply sure_rest; [|apply granted_stable|done]. destruct (ri_rebindConfirmationId i); [apply guar_rebind|done].
Qed.

Lemma sure_grant_insert id i dg :
  sure (fun g => granted i dg (g_id g)) (fun _ => True) (op (grant_insert (new_grant id dg i))).
Proof.
  apply assured_op; [intros g; apply granted_stable|]. intros d Hi _.
  pose proof (grant_insert_rel (new_grant id dg i) d) as HR. split; [by eapply wf_kept|]. split; [done|].
  unfold grant_insert. case_bool_decide; [done|]. case_match; [done|]. cbn [fst snd]. intros g [= <-].
  exists (new_grant id dg i). split; [apply lookup_insert_eq|done].
Qed.

Lemma guar_bind_confirmation id g i : guar authority_rel (bind_confirmation id g i).
Proof.
  unfold bind_confirmation, createPendingConfirmation. guar_walk; [apply guar_rebind|].
  apply guar_op. intros d. apply confirmation_insert_rel.
Qed.

Lemma sure_issue_loop n grantIds confIds dg i :
  sure (issues i dg) (fun _ => True) (issue_loop n grantIds confIds dg i).
Proof.
  induction n as [|n IH]; [done|]. cbn [issue_loop]. eapply assured_bind; [apply sure_find_active|]. intros [g|].
  - case_bool_decide as Hd.
    + apply (assured_weaken _ _ _ _ (granted i dg (g_id g))); [intros d _ Hg; by apply (Hg g)|]. apply sure_reuse.
    + apply (assured_bind _ _ _ (fun _ _ => True)).
      { apply (assured_weaken _ _ _ _ (fun _ => True)); [done|]. apply assured_guar; [apply wf_kept|done|].
        unfold casInvalidateGrant. guar_walk. apply guar_op. intros d. apply grant_update_rel. eauto with irex. }
      intros _. apply (assured_bind _ _ _ (fun _ _ => True)); [|by intros].
      apply assured_guar; [apply wf_kept|done|]. destruct (ri_rebindConfirmationId i); [done|apply guar_revoke].
  - apply (assured_weaken _ _ _ _ (fun _ => True)); [done|]. apply assured_catch.
    + eapply assured_bind; [apply sure_grant_insert|]. intros g. eapply (assured_bind _ _ _ (fun _ => granted i dg (g_id g))).
      { apply assured_guar; [apply wf_kept|apply granted_stable|apply guar_bind_confirmation]. }
      intros _. apply sure_rest; [apply guar_log; apply _|apply granted_stable|done].
    + intros e. destruct (isUniqueViolation e); done.
Qed.

Section evaluation.
Context (sha256 : chars -> string) (ev : Evidence) (broker : Broker) (ids : Ids) (u : string) (time : Z).

(** The input an approval's grant is issued with. *)
Definition issued_with (t : ProposedTrade) (s : TradingSession) (v : ValidatedOrder) (id : string) (d : DB) : Prop :=
  exists i dg od,
    granted i dg id d /\ digestCanonicalPayload sha256 (authority_payload i) = Ok dg /\
    ri_userId i = u /\ ri_signalId i = pt_signalId t /\ ri_sessionId i = s_id s /\
    ri_sessionGeneration i = s_authorityGeneration s /\ ri_executionMode i = s_executionMode s /\
    ri_brokerConnectionId i = s_brokerConnectionId s /\ ri_orderPayloadDigest i = od /\
    digestCanonicalPayload sha256 (order_digest_payload (order_payload t v) v) = Ok od.

Lemma issued_with_stable t s v id : stable authority_rel (issued_with t s v id).
Proof. intros d d' HR (i & dg & od & Hg & H). exists i, dg, od. split; [by eapply granted_stable|done]. Qed.

Lemma guar_generation : guar authority_rel (getCurrentGeneration u).
Proof.
  unfold getCurrentGeneration, wrap. guar_walk. apply guar_op. intros d. unfold counter_seed. case_match; [reflexivity|].
  by apply authority_rel_same.
Qed.

(** A part whose answer says nothing of the store. *)
Lemma sure_any {A B} (says : B -> DB -> Prop) (p : io A) (f : A -> io B) :
  guar authority_rel p -> (forall a, sure says (fun _ => True) (f a)) -> sure says (fun _ => True) (bind p f).
Proof. intros Hp Hf. apply (assured_bind _ _ _ (fun _ _ => True)); [|done]. by apply assured_guar; [apply wf_kept|..]. Qed.

Lemma sure_digest {A} (says : A -> DB -> Prop) payload (f : string -> io A) :
  (forall x, digestCanonicalPayload sha256 payload = Ok x -> sure says (fun _ => True) (f x)) ->
  sure says (fun _ => True) (bind (digest sha256 payload) f).
Proof. intros Hf. unfold digest. destruct (digestCanonicalPayload sha256 payload) as [x|e]; cbn [bind]; [by apply Hf|done]. Qed.

Lemma sure_grant t p s b v quote live rb :
  sure (issued_with t s v) (fun _ => True) (issueAuthorityGrant sha256 ids u time t p s b v quote live rb).
Proof.
  unfold issueAuthorityGrant. apply sure_digest. intros sd _. apply sure_digest. intros od Hod. apply sure_digest. intros ph _.
  apply sure_any; [apply guar_generation|]. intros n. apply sure_any.
  { unfold getCurrentTradingPolicyRevision, getCurrentProviderVerificationRevision, getCurrentExecutionControlRevision,
      readSingletonRevision, wrap. guar_walk. }
  intros [[policy provider] control]. cbv zeta. set (i := mkIssuance _ _ _ _ _ _ _ _ _ _ _ _ _ _ _ _ _ _ _ _ _ _ _ _ _ _).
  unfold issueGrant, computeAuthorityBindingDigest.
  destruct (digestCanonicalPayload sha256 (authority_payload i)) as [dg|e] eqn:Hdg; cbn [bind]; [|done].
  eapply assured_bind; [apply sure_issue_loop|]. intros r d _ Hr. by exists i, dg, od.
Qed.
End evaluation.

(** ** The trade that is approved *)

(** A rebasing moves the stop and the target only. *)
Definition same_trade (t t' : ProposedTrade) : Prop :=
  exists sl tp, t' = with_geometry sl tp t \/ t' = t.

Lemma keeps_chain {A B} (P : A -> Prop) (Q : B -> Prop) (m : eval A) (f : A -> eval B) :
  keeps P m -> (forall a, P a -> keeps Q (f a)) -> keeps Q (chain m f).
Proof. intros Hm Hf rules. eapply returns_post; [apply Hm|]. intros [r|[a rules']]; [done|]. intros Ha. by apply Hf. Qed.

Lemma keeps_after {A B} (Q : B -> Prop) (m : eval A) (f : A -> eval B) :
  refuses m -> (forall a, keeps Q (f a)) -> keeps Q (chain m f).
Proof. intros Hm Hf. apply (keeps_chain (fun _ => True)); auto. Qed.

Lemma keeps_pass {A} (Q : A -> Prop) (a : A) : Q a -> keeps Q (pass a).
Proof. by intros Ha rules. Qed.

Lemma keeps_compute {A} (Q : A -> Prop) (r : result exn A) : (forall a, r = Ok a -> Q a) -> keeps Q (compute r).
Proof. intros Hr rules. destruct r; [by apply Hr|done]. Qed.

Lemma rebased_same t e o : rebased t e = Ok (Some o) -> same_trade t o.
Proof.
  unfold rebased. do 3 (case_match; [|done]). cbv zeta. do 4 (intros (? & _ & Hr)%rbind_ok; revert Hr).
  case_match; [|done]. do 2 (intros (? & _ & Hr)%rbind_ok; revert Hr). intros [= <-]. eexists _, _. by left.
Qed.

Section approval.
Context (sha256 : chars -> string) (ev : Evidence) (broker : Broker) (ids : Ids) (u : string) (time : Z).

Lemma keeps_rebase t s b e : keeps (same_trade t) (rebase t s b e).
Proof.
  assert (same_trade t t) by (exists "", ""; by right).
  unfold rebase. case_match; [|by apply keeps_pass]. apply (keeps_chain (fun o => forall t', o = Some t' -> same_trade t t')).
  - apply keeps_compute. intros [o|] Ho; [|done]. intros t' [= ->]. by eapply rebased_same.
  - intros [t'|] Ht; [|by apply keeps_pass]. apply keeps_after; [done|]. intros _. apply keeps_pass. by apply Ht.
Qed.

Lemma keeps_controls t p s b e q c : keeps (fun r => same_trade t r.1) (enforcePerTradeControls ev u time t p s b e q c).
Proof.
  assert (same_trade t t) by (exists "", ""; by right).
  unfold enforcePerTradeControls, compute. apply keeps_after; [eauto with irex|]. intros g. apply keeps_after.
  { unfold geometry_entry, compute. refusing. }
  intros entry. apply (keeps_chain (same_trade t)).
  - case_match; [|by apply keeps_pass]. apply (keeps_chain (same_trade t)); [apply keeps_rebase|]. intros t' Ht.
    apply keeps_after; [|intros _; by apply keeps_pass]. unfold check_geometry, compute. refusing.
  - intros t' Ht. apply keeps_after; [unfold check_exposure, unverified, compute; refusing|]. intros _. by apply keeps_pass.
Qed.

Lemma keeps_needed {A} (Q : A -> Prop) (o : option A) t' code : (forall a, o = Some a -> Q a) -> keeps Q (needed u o t' code).
Proof.
  intros Ho. destruct o as [a|]; [by apply keeps_pass, Ho|]. intros rules.
  apply (returns_post (fun r => approving r = false)); [|done]. unfold rejectAndRecord.
  apply returns_bind. intros _. destruct (hard_limit code); [by apply returns_bind|done].
Qed.

Lemma keeps_account t b : keeps (fun x => canonical x.1.1) (load_account ev u time t b).
Proof.
  unfold load_account, trying. apply keeps_after; [apply refuses_await|]. intros [[[[e f] c]|]|err].
  2,3: apply (keeps_needed _ None); done.
  apply (keeps_chain canonical); [|intros d Hd; by apply keeps_pass].
  apply keeps_needed. intros d Hd. unfold parseBrokerDecimal in Hd. destruct e; [|done]. by eapply tryParse_canonical.
Qed.

(** What is known of an evaluation's result. *)
Definition outcome (t : ProposedTrade) (r : RiskDecision + RiskDecision * list string) (d : DB) : Prop :=
  match r with
  | inl x => approving x = false
  | inr (APPROVED a, _) => backed sha256 u t a d
  | inr _ => True
  end.

Lemma sure_chain {A} t (m : eval A) (f : A -> eval RiskDecision) rules (Q : A -> Prop) :
  eguar authority_rel m -> keeps Q m ->
  (forall a rules', Q a -> sure (outcome t) (fun _ => True) (f a rules')) ->
  sure (outcome t) (fun _ => True) (chain m f rules).
Proof.
  intros Hm Hq Hf. unfold chain.
  apply (assured_bind _ _ _ (fun r _ => match r with inl d => approving d = false | inr (a, _) => Q a end)).
  - apply assured_returns; [apply _|apply wf_kept|apply Hm|apply Hq].
  - intros [x|[a rules']]; [by intros d _|].
    apply (assured_weaken _ _ _ _ (fun _ : DB => Q a /\ True)); [done|]. apply assured_pure. intros Ha. by apply Hf.
Qed.

(** The same, for a part whose answer does not matter. *)
Lemma sure_stage {A} t (m : eval A) (f : A -> eval RiskDecision) rules :
  eguar authority_rel m -> refuses m ->
  (forall a rules', sure (outcome t) (fun _ => True) (f a rules')) -> sure (outcome t) (fun _ => True) (chain m f rules).
Proof. intros Hm Hr Hf. apply (sure_chain t m f rules (fun _ => True)); auto. Qed.

Lemma sure_reject t t' code rules : sure (outcome t) (fun _ => True) (reject (A := RiskDecision) u t' code rules).
Proof.
  pose proof (eguar_reject (A := RiskDecision) authority_rel u t' code rules) as Hg.
  apply (assured_post _ _ _ (fun r _ => match r with inl x => approving x = false | inr _ => False end)).
  { intros [x|[x y]] d _ H; [done|by destruct H]. }
  apply assured_returns; [apply _|apply wf_kept|done|]. unfold reject, leave.
  apply (returns_post (fun r => approving r = false)); [|done]. unfold rejectAndRecord.
  apply returns_bind. intros _. destruct (hard_limit code); [by apply returns_bind|done].
Qed.

Lemma backed_approval t t' s lot id rules key currency period d :
  same_trade t t' -> issued_with sha256 u t' s (validated t' lot) id d ->
  backed sha256 u t (mkApproval (pt_signalId t') (validated t' lot) rules time id (s_id s) (s_authorityGeneration s)
    (s_executionMode s) (s_brokerConnectionId s) key currency period) d.
Proof.
  intros (sl & tp & Ht) (i & dg & od & (g & Hl & Hu & Hs & Hd) & Hdg & Hiu & His & Hrest). split.
  assert (pt_signalId t' = pt_signalId t /\ order_payload t' (validated t' lot) = order_payload t (validated t' lot)) as [E1 E2].
  { by destruct Ht as [->| ->]. }
  rewrite E1, E2 in *. exists g, i, dg, od. repeat split; try tauto; congruence.
Qed.

Lemma sure_approve t t' p s b lot quote live currency rb rules :
  same_trade t t' ->
  sure (outcome t) (fun _ => True) (approve sha256 ids u time t' p s b lot quote live currency rb rules).
Proof.
  intros Ht. unfold approve, chain at 1, trying, await.
  apply (assured_bind _ _ _ (fun r d => match r with
    | inr (Ok id, _) => issued_with sha256 u t' s (validated t' lot) id d
    | inr (Err _, _) => True
    | inl _ => False end)).
  - eapply assured_bind; [apply assured_attempt; apply sure_grant|]. intros [id|e] d _ H; [exact H|done].
  - intros [x|[[id|e] rules']]; [intros d _ []|..].
    + unfold compute, await, chain, rules_applied. cbn [bind]. destruct (score_ratio t' p); cbn [of_result bind]; [|done].
      intros d _ H. by apply backed_approval.
    + apply (assured_weaken _ _ _ _ (fun _ => True)); [done|]. apply sure_reject.
Qed.

Lemma sure_pipeline t rb : sure (outcome t) (fun _ => True) (pipeline sha256 ev broker ids u time t rb []).
Proof.
  unfold pipeline. apply sure_stage; [apply eguar_reject_if; apply _|apply refuses_reject_if|]. intros _ r1.
  apply sure_stage; [done|done|]. intros _ r2. apply sure_stage; [apply eguar_gate; apply _|apply refuses_gate|]. intros _ r3.
  apply sure_stage; [done|done|]. intros _ r4. apply sure_stage; [apply eguar_load_profile; apply _|apply refuses_profile|]. intros p r5.
  apply sure_stage; [apply eguar_load_session; apply _|apply refuses_session|]. intros s r6.
  apply sure_stage; [apply eguar_load_connection; apply _|apply refuses_connection|]. intros b r7.
  eapply sure_chain; [apply eguar_load_account; apply _|apply keeps_account|]. intros [[e f] c] r8 He.
  apply sure_stage; [apply eguar_load_live; apply _|unfold load_live, trying; refusing|]. intros l r9.
  apply sure_stage; [apply eguar_daily_loss; apply _|unfold check_daily_loss, trying, compute; refusing|]. intros _ r10.
  apply sure_stage; [by apply eguar_drawdown; [apply _|]|unfold check_drawdown, compute; refusing|]. intros _ r11.
  apply sure_stage; [apply eguar_margin; apply _|unfold check_margin, trying, compute; refusing|]. intros _ r12.
  apply sure_stage; [apply eguar_size; apply _|unfold check_size, compute; refusing|]. intros [lot q] r13.
  apply sure_stage; [apply eguar_order; apply _|unfold check_order, check_geometry, compute; refusing|]. intros _ r14.
  apply sure_stage; [apply eguar_market; apply _|unfold check_market, compute; refusing|]. intros _ r15.
  eapply sure_chain; [apply eguar_controls; apply _|apply keeps_controls|]. intros [t' quote] r16 Ht.
  apply sure_stage; [apply eguar_duplicate; apply _|unfold check_duplicate, trying; refusing|]. intros _ r17.
  by apply sure_approve.
Qed.
End approval.

(** ** Pools of evaluations *)

(** An evaluation, with what its market, its broker and its uuids answer. *)
Record evaluation := mkEvaluation {
  e_evidence : Evidence; e_broker : Broker; e_ids : Ids; e_user : string; e_time : Z;
  e_trade : ProposedTrade; e_rebind : option string }.

(** Evaluations, and the other calls on grants and confirmations. *)
Inductive vcall := VEvaluate (e : evaluation) | VGrants (c : gcall).

Definition evaluate (sha256 : chars -> string) (e : evaluation) : io RiskDecision :=
  validateProposedTrade sha256 (e_evidence e) (e_broker e) (e_ids e) (e_user e) (e_time e) (e_trade e) (e_rebind e).

Definition run_vcall (sha256 : chars -> string) (c : vcall) : io (option (evaluation * RiskDecision)) :=
  match c with
  | VEvaluate e => bind (evaluate sha256 e) (fun r => Ret (Some (e, r)))
  | VGrants c => bind (run_gcall sha256 c) (fun _ => Ret None)
  end.

Definition vcall_says (sha256 : chars -> string) (r : option (evaluation * RiskDecision)) (d : DB) : Prop :=
  match r with
  | Some (e, APPROVED a) => backed sha256 (e_user e) (e_trade e) a d
  | _ => True
  end.

Lemma sure_vcall sha256 c : sure (vcall_says sha256) (fun _ => True) (run_vcall sha256 c).
Proof.
  destruct c as [e|c]; cbn [run_vcall].
  - unfold evaluate, validateProposedTrade, runValidationPipeline.
    apply (assured_bind _ _ _ (fun r d => forall a, r = APPROVED a -> backed sha256 (e_user e) (e_trade e) a d)).
    + apply assured_catch; [|by intros].
      eapply assured_bind; [apply sure_pipeline|]. intros [x|[x rules]] d _ Ho a; [by intros ->|]. intros ->. exact Ho.
    + intros [a|s c|s c] d _ Hr; [|done..]. by apply Hr.
  - apply sure_any; [apply guar_gcall|]. done.
Qed.

(** ** A sample *)

(** An account of ten thousand dollars, a EURUSD quote of 1.0999 to 1.1000, a broker that asks
    one unit of margin per lot, and reports [equity] when it is asked. *)
Definition sample_market : Evidence := {|
  acceptedSnapshot := None; accountRow := None; riskProfile := None; connectionAccountType := None;
  executionQuote := Some (mkPrice "1.0999" "1.1000" "0.0001" (Some 100000));
  instrumentSpecification := Some (mkInstrument "0.01" "50" "0.01" "100000");
  fxConversionAvailable := false; cachedQuote := fun _ => None; conversionQuote := fun _ => None;
  evaluatedAt := 0; quotedAt := 0; requiredMargin := fun _ lot => Some lot |}.

Definition sample_broker (equity : string) : Broker :=
  mkBroker (fun _ => Ok (mkInfo equity equity (Some "0") (Some equity) None None (Some "USD"))) (fun lot => Ok (Some lot)).

Definition sample_ids : Ids := mkIds "rp2" "sn1" "sn2" "dp1" (fresh_ids "grant-") (fresh_ids "conf-").

Definition sample_trade (stop lots : string) : ProposedTrade :=
  mkProposed "sig9" "EURUSD" "BUY" lots "0" (Some stop) (Some "1.1100") None "key9" None None (Some "TRENDING")
    (Some "s1") (Some 7) (Some "FULL_AUTO") (Some "b1") false None.

Definition sample_evaluation (equity stop lots : string) : evaluation :=
  mkEvaluation sample_market (sample_broker equity) sample_ids "u1" 100000 (sample_trade stop lots) None.

(** The snapshot of the account, of ten thousand, accepted at [t]. *)
Definition sample_accepted (t : Z) (currency : string) : AccountSnapshot :=
  mkSnapshot "sn0" "b1" 1 (Some t) t (Some 1000000000000) (Some 1000000000000) (Some 0) (Some 1000000000000) None None None
    (Some currency) "sync" None.

Definition risk_session : TradingSession :=
  mkSession "s1" "u1" "b1" FULL_AUTO 7 Session.ACTIVE 0 (Some 1000000) (Some 1000000) None None None None false.

Definition risk_db (accountType : string) (t : Z) (currency : string) : DB :=
  set_snapshots {[("b1", 1) := sample_accepted t currency]}
    (set_sessions {["s1" := risk_session]}
       (set_connections {["b1" := mkConnection "b1" "u1" "direct-mt5" None (Some "acct") None accountType B_CONNECTED
                           (Known Authorization.ACTIVE) (Known Authorization.VERIFIED) 2 None None None None]}
          (set_now 100000 (boundary_db FULL_AUTO "direct-mt5" accountType)))).

Lemma risk_db_wf accountType t currency : authority_wf (risk_db accountType t currency).
Proof. destruct (boundary_db_wf FULL_AUTO "direct-mt5" accountType) as [[Hg Hc] _]. by split. Qed.

(** C2: An approval is backed by the store: however evaluations and the other calls on grants
    interleave, and whatever statements are lost, each approval that was returned names a grant
    that is stored, of the user and the signal that were evaluated, whose binding digest is that
    of an issuance for exactly the session, the generation, the mode, the connection and the
    validated order of the approval.  The store keeps one active grant per user and signal
    throughout. *)
Theorem approval_backed sha256 (calls : list vcall) sched d :
  authority_wf d ->
  let c := exec DbUnavailable sched (d, run_vcall sha256 <$> calls) in
  authority_wf (fst c) /\
  forall i e a, snd c !! i = Some (Ret (Some (e, APPROVED a))) -> backed sha256 (e_user e) (e_trade e) a (fst c).
Proof.
  intros Hwf c.
  destruct (exec_assured DbUnavailable authority_wf authority_rel (vcall_says sha256) sched (d, run_vcall sha256 <$> calls))
    as (Hi & _ & Hs); [done|apply Forall_fmap, Forall_true; intros x; apply sure_vcall|].
  split; [exact Hi|]. intros i e a Hr. exact (Hs i _ Hr).
Qed.

(** Two evaluations of a signal and an invalidation: the first approval's grant is stored. *)
Lemma approval_backed_witness :
  let e := sample_evaluation "10000" "1.0950" "0.1" in
  let calls := [VEvaluate e; VGrants (GInvalidateUser "u2" "r")] in
  let d := risk_db "LIVE" 90000 "USD" in
  let c := exec DbUnavailable ([(0%nat, Exec); (1%nat, Exec); (1%nat, Down)] ++ replicate 40 (0%nat, Exec)) (d, run_vcall hash_id <$> calls) in
  authority_wf d /\
  exists a, snd c !! 0%nat = Some (Ret (Some (e, APPROVED a))) /\ backed hash_id "u1" (e_trade e) a (fst c).
Proof.
  intros e calls d c. assert (authority_wf d) as Hd by apply risk_db_wf. split; [exact Hd|].
  destruct (snd c !! 0%nat) as [[[[e' [a|s k|s k]]|]|err|X act k]|] eqn:Hc; try (exfalso; vm_compute in Hc; discriminate Hc).
  assert (e' = e) as -> by (vm_compute in Hc; injection Hc; intros; subst; reflexivity).
  exists a. split; [reflexivity|].
  exact (proj2 (approval_backed hash_id calls ([(0%nat, Exec); (1%nat, Exec); (1%nat, Down)] ++ replicate 40 (0%nat, Exec)) d Hd) 0%nat e a Hc).
Defined.
