(* ===== verification/RiskLimits.v ===== *)
(** * The limits an approval of the risk engine was given under

    What holds of the store, of the account and of the order when an evaluation that runs alone
    approves: the authority of the session, the daily loss, the drawdown and the margin of the
    account, and the risk at stop and the leverage of the order, in exact arithmetic. *)

From S2P Require Import Prelude Prog StateMachines JsString CanonicalJson Decimal DecimalSpecs Store OrderService RiskGrants.
From S2P Require Import Authority Boundary Sums Capital Adapter Sizing SizingBounds FxRates Assured AccountSnapshots DailyRisk.
From S2P Require Import RiskProfiles RiskSession RiskRules RiskEngine RiskApproval.
From Stdlib Require Import QArith Qabs Lqa.
Open Scope string_scope.
Open Scope list_scope.
Open Scope Z_scope.

(** Orders and the clock, which no evaluation moves. *)
Definition same_trades (d d' : DB) : Prop := trades d' = trades d /\ now d' = now d /\ lossResets d' = lossResets d.

Definition steady (d d' : DB) : Prop := same_trades d d' /\ sessions_rel d d'.

#[export] Instance steady_preorder : PreOrder steady.
Proof.
  split; [intros d; split; [done|reflexivity]|]. intros x y z [(? & ? & ?) ?] [(? & ? & ?) ?].
  split; [|by etransitivity]. split; [congruence|]. split; congruence.
Qed.

Lemma steady_same d d' : same_trades d d' -> sessions d' = sessions d -> steady d d'.
Proof. intros Ht Hs. split; [done|]. by apply same_sessions_rel. Qed.

#[export] Instance steady_respects : Respects steady.
Proof.
  split; [apply _|try (intros; by apply steady_same)..|].
  - intros id e d He. split; [unfold peak_update; by repeat case_match|]. by apply peak_update_keeps.
  - intros id u d. split; [unfold suspend_update; by destruct (update_row _ _ _ _)|]. apply suspend_update_rel.
  - intros s r. apply guar_op. intros d. apply steady_same; unfold grants_update_where; by destruct (update_where _ _ _).
Qed.

Lemma run_bind_ok {A B} (p : io A) (f : A -> io B) d d' b :
  run (bind p f) d = (d', Ok b) -> exists a d1, run p d = (d1, Ok a) /\ run (f a) d1 = (d', Ok b).
Proof. rewrite run_bind. destruct (run p d) as [d1 [a|e]]; [|done]. intros H. by exists a, d1. Qed.

(** ** Decimals *)

Lemma profile_decimal_ok field sc v d : 0 <= sc <= MAX_SCALE -> profile_decimal field sc v = Ok d -> d = units sc v.
Proof.
  intros Hsc. unfold profile_decimal, order_decimal, tryParse_text, tryParse. pose proof (parse_out sc Hsc v) as H. unfold parse_text in H.
  rewrite H. cbn. by intros [= ->].
Qed.

Lemma hundredfold_ok a d : canonical a -> mulByPowerOfTen a (Int 2) = Ok d -> canonical d /\ (toQ d == toQ a * 100)%Q.
Proof.
  intros Ha. pose proof (canonical_scale a Ha). unfold mulByPowerOfTen, mulPow10_nonneg. cbn [Z.geb Z.compare].
  destruct (scale a >=? 2) eqn:Hs; bool_to_prop.
  - intros [Hc Hq]%normalize_ok; [|cbn [scale]; lia]. split; [done|]. rewrite Hq. destruct a as [v s]. cbn [unscaled scale] in *.
    replace s with (s - 2 + 2) at 2 by lia. unfold toQ, Qeq. cbn [unscaled scale Qnum Qden Qmult].
    rewrite Z.pow_add_r by lia. pose proof (pow10_pos (s - 2) ltac:(lia)). rewrite Z2Pos.inj_mul by lia. lia.
  - destruct (pow10 (2 - scale a)) as [x|] eqn:Hp; [|done]. intros [= <-]. split; [apply whole_canonical|].
    destruct a as [v s]. cbn [unscaled scale] in *. assert (s = 0 \/ s = 1) as [->| ->] by lia; injection Hp as <-; unfold toQ, Qeq; cbn; lia.
Qed.

(** ** The account *)

Section account.
Context (u : string).

Lemma limit_ok pct base d :
  canonical base ->
  exact (percentOf (InString (chars_of (numeric_out 2 pct))) (InString (chars_of (text base)))) = Ok d ->
  canonical d /\ (toQ d == toQ base * toQ (mkED pct 2) * (1 # 100))%Q.
Proof.
  intros Hb. unfold percentOf. pose proof (parse_out 2 scale2 pct) as Hp. unfold parse_text in Hp. rewrite Hp.
  destruct (units_spec 2 scale2 pct) as [Cp Qp]. pose proof (tryParse_text_text base Hb) as Ht. unfold tryParse_text, tryParse in Ht.
  destruct (parse (InString (chars_of (text base)))) as [x|]; [injection Ht as ->|done]. cbn [rbind]. intros H%exact_ok.
  apply rbind_ok in H as (m & Hm & H). apply mul_ok in Hm as [Cm Qm]; [|done|done].
  apply percent_ok in H as [Cd Qd]; [|done]. split; [done|]. by rewrite Qd, Qm, Qp.
Qed.

(** Whether a loss reaches the limit, in exact arithmetic. *)
Lemma daily_loss_ok p ob loss :
  canonical ob -> canonical loss -> daily_loss_reached p ob loss = Ok false -> (toQ loss < 0)%Q ->
  (- toQ loss < toQ ob * toQ (mkED (rk_maxDailyLossPercent p) 2) * (1 # 100))%Q.
Proof.
  intros Ho Hl. unfold daily_loss_reached. intros H Hn. destruct (isNegative loss) eqn:Hneg.
  - apply rbind_ok in H as (limit & Hlim & Hg%exact_ok). apply limit_ok in Hlim as [Cl Ql]; [|done]. destruct (abs_ok loss Hl) as [Ca Qa].
    apply gte_ok in Hg; [|done|done]. rewrite Qa, Ql in Hg. rewrite Qabs_neg in Hg by lra. exact Hg.
  - exfalso. unfold isNegative in Hneg. unfold toQ, Qlt in Hn. cbn in Hn. lia.
Qed.

(** Where the loss was read. *)
Definition loss_scope (b : BrokerConnection) (live : option LiveBinding) (currency : string) (s : LossScope) : Prop :=
  ls_userId s = u /\
  match live with
  | Some l => ls_logicalAccountKey s = lb_logicalAccountKey l /\ ls_accountCurrency s = lb_currency l
  | None => trimmed_or_null (b_logicalAccountKey b) = Some (ls_logicalAccountKey s) /\
            trimmed_or_null (Some currency) = Some (ls_accountCurrency s)
  end.

(** The binding of a LIVE evaluation was read with the store's trades. *)
Definition live_read (live : option LiveBinding) (d : DB) : Prop :=
  forall l, live = Some l -> exists dl, same_trades d dl /\
    run (getTodayRealisedLossExact (mkScope u (lb_logicalAccountKey l) (lb_currency l))) dl = (dl, Ok (lb_loss l)).

Lemma loss_yields t p s b live currency rules d x rules' d' :
  yields (check_daily_loss u t p s b live currency) rules d x rules' d' -> live_read live d ->
  d = d' /\ exists ob scope r loss dl, Sizing.positive (parseSessionDecimal (s_openingBalance s)) = Some ob /\ loss_scope b live currency scope /\
    same_trades d dl /\ run (getTodayRealisedLossExact scope) dl = (dl, Ok r) /\ complete r = true /\ tryParse_text (total r) = Some loss /\
    daily_loss_reached p ob loss = Ok false.
Proof.
  unfold check_daily_loss. intros H Hlive. apply chain_yields in H as (ob & r1 & d1 & [Hob ->]%needed_yields & H).
  apply chain_yields in H as (read & r2 & d2 & [Hr ->]%trying_yields & H). yielded.
  match goal with H : match read with _ => _ end = Some ?y |- _ => rename H into Hl; rename y into loss end.
  destruct read as [[text|]|e]; [|done..]. unfold todays_loss in Hr. destruct live as [l|].
  - destruct (complete (lb_loss l)) eqn:Hc; injection Hr as <- Hr; [subst text|done]. destruct (Hlive l eq_refl) as (dl & Hs & Hrun).
    split; [done|]. exists ob, (mkScope u (lb_logicalAccountKey l) (lb_currency l)), (lb_loss l), loss, dl. done.
  - destruct (trimmed_or_null (b_logicalAccountKey b)) as [key|] eqn:Hk; [|by injection Hr].
    destruct (trimmed_or_null (Some currency)) as [c|] eqn:Hcur; [|by injection Hr]. rewrite run_bind in Hr.
    destruct (today_loss (mkScope u key c) d1) as (r & y & Hrun & _). rewrite Hrun in Hr.
    destruct (complete r) eqn:Hc; injection Hr as <- Hr; [subst text|done]. split; [done|].
    exists ob, (mkScope u key c), r, loss, d1. done.
Qed.

(** The drawdown against a peak that no stored peak exceeds. *)
Lemma drawdown_ok p peak e :
  canonical peak -> canonical e -> (0 < toQ peak)%Q -> (toQ e <= toQ peak)%Q -> drawdown_reached p peak e = Ok false ->
  ((toQ peak - toQ e) * 100 < toQ (mkED (rk_maxDrawdownPercent p) 2) * toQ peak)%Q.
Proof.
  intros Hp He Hpos Hle. unfold drawdown_reached. intros (a & Ha%exact_ok & H)%rbind_ok.
  apply sub_ok in Ha as [Ca Qa]; [|done|done]. apply rbind_ok in H as (f & Hf%exact_ok & H).
  apply divUp_ok in Hf as [Cf Qf]; [|done|done|unfold MAX_SCALE; lia|lra|done].
  apply rbind_ok in H as (pc & Hpc%exact_ok & H). apply hundredfold_ok in Hpc as [Cc Qc]; [|done].
  apply rbind_ok in H as (limit & Hl & Hg%exact_ok). apply profile_decimal_ok in Hl as ->; [|apply scale2].
  destruct (units_spec 2 scale2 (rk_maxDrawdownPercent p)) as [Cu Qu]. apply gte_ok in Hg; [|done|done]. cbv iota in Hg.
  rewrite Qu, Qc in Hg. rewrite Qa in Qf. nra.
Qed.

Lemma drawdown_yields t p s e rules d x rules' d' :
  canonical e -> yields (check_drawdown u t p s e) rules d x rules' d' ->
  exists peak, canonical peak /\ (0 < toQ peak)%Q /\ (toQ e <= toQ peak)%Q /\
    (forall s0 q, sessions d !! s_id s = Some s0 -> s_peakEquity s0 = Some q -> (toQ (mkED q 2) <= toQ peak)%Q) /\
    ((toQ peak - toQ e) * 100 < toQ (mkED (rk_maxDrawdownPercent p) 2) * toQ peak)%Q.
Proof.
  intros He. unfold check_drawdown. intros (peak & r1 & d1 & [Hr ->]%await_yields & H)%chain_yields. yielded.
  destruct (run_assured DbUnavailable (sessions_rel d) sessions_rel (peak_says (s_id s) e d) (maintainMonotonicPeak (s_id s) e) d d' (Ok peak))
    as (_ & _ & Hs); [reflexivity|by apply sure_peak|done|]. destruct (Hs peak eq_refl) as (Cp & Hle & Hfl & _).
  match goal with H : negb (isPositive peak) = false |- _ => apply negb_false_iff, isPositive_Q in H end.
  exists peak. do 4 (split; [done|]). by apply drawdown_ok.
Qed.

Lemma margin_yields broker t free rules d x rules' d' :
  yields (check_margin broker u t free) rules d x rules' d' ->
  d = d' /\ exists f m r, parseBrokerDecimal free = Some f /\ x_requiredMargin broker (pt_requestedLotSize t) = Ok m /\
    parseBrokerDecimal m = Some r /\ (toQ r <= toQ f)%Q.
Proof.
  unfold check_margin. intros (f & r1 & d1 & [Hf ->]%needed_yields & H)%chain_yields.
  apply chain_yields in H as (answer & r2 & d2 & [Ha ->]%trying_yields & H).
  assert (d2 = d1 /\ answer = x_requiredMargin broker (pt_requestedLotSize t)) as [-> ->]
    by (destruct (x_requiredMargin broker (pt_requestedLotSize t)); by injection Ha).
  yielded. destruct (x_requiredMargin broker (pt_requestedLotSize t)) as [m|] eqn:Hm; [|done].
  match goal with H : exact (gt ?y _) = _ |- _ => rename H into Hg; rename y into r end. split; [done|].
  exists f, m, r. do 3 (split; [done|]). apply exact_ok, gt_ok in Hg; [done|..].
  - unfold parseBrokerDecimal in *. destruct m; [|done]. by eapply tryParse_canonical.
  - unfold parseBrokerDecimal in *. destruct free; [|done]. by eapply tryParse_canonical.
Qed.

Lemma truthy_ok o s d d' : run (truthy_or_throw o) d = (d', Ok s) -> d' = d /\ o = Some s.
Proof. unfold truthy_or_throw. destruct o as [x|]; [case_bool_decide; [done|]|done]. by intros [= <- <-]. Qed.

(** The currency is that of a snapshot fresh enough for new exposure: the newest of the
    connection, in the store of [d], or observed anew when that one is too old. *)
Definition fresh_currency (broker : Broker) (ids : Ids) (connectionId : string) (d : DB) (currency : string) : Prop :=
  exists d1 sn, run (fresh_or_observed broker ids u connectionId) d = (d1, Ok sn) /\ latest connectionId d1 = Some sn /\
    sn_currency sn = Some currency.

Lemma fresh_latest broker ids connectionId d d1 sn :
  run (fresh_or_observed broker ids u connectionId) d = (d1, Ok sn) -> latest connectionId d1 = Some sn.
Proof.
  assert (forall x y, run (resolveFreshSnapshotForNewExposure connectionId) x = (y, Ok sn) -> latest connectionId y = Some sn) as Hl.
  { intros x y. unfold resolveFreshSnapshotForNewExposure. rewrite run_op. unfold fresh_snapshot. intros [= <- H].
    destruct (latest connectionId x) as [s|]; [|done]. repeat case_match; try done; by injection H as ->. }
  unfold fresh_or_observed. rewrite run_catch.
  destruct (run (resolveFreshSnapshotForNewExposure connectionId) d) as [x [s|e]] eqn:Hr.
  - intros [= <- <-]. by eapply Hl.
  - case_match; [|done]. intros (? & ? & _ & Hagain)%run_bind_ok. by eapply Hl.
Qed.

Lemma live_yields broker ids t p b rules d live rules' d' :
  yields (load_live broker ids u t p b) rules d live rules' d' ->
  live_read live d' /\ (is_Some live <-> is_live b = true) /\
  forall l, live = Some l -> b_logicalAccountKey b = Some (lb_logicalAccountKey l) /\ fresh_currency broker ids (b_id b) d (lb_currency l).
Proof.
  unfold load_live. destruct (is_live b) eqn:Hb; [|intros (<- & _ & <-)%pass_yields; by split; [intros l|split; [split; [by intros []|done]|]]].
  intros (r & r1 & d1 & [Hr ->]%trying_yields & H)%chain_yields. destruct r as [l|e]; yielded. unfold live_authority in Hr.
  apply run_bind_ok in Hr as (s & d1 & Hs & Hr). apply run_bind_ok in Hr as (key & d2 & Hkey & Hr).
  apply run_bind_ok in Hr as (c & d3 & Hcur & Hr). apply run_bind_ok in Hr as (bal & d4 & _ & Hr).
  apply run_bind_ok in Hr as (eq & d5 & _ & Hr). apply run_bind_ok in Hr as (period & d6 & _ & Hr).
  apply run_bind_ok in Hr as (loss & d7 & Hl & Hr). injection Hr as <- <-. cbn [lb_loss lb_logicalAccountKey lb_currency].
  destruct (today_loss (mkScope u key c) d6) as (r & x & Hrun & _). rewrite Hrun in Hl. injection Hl as <- <-.
  split; [intros l [= <-]; by exists d6|]. split; [done|]. intros l [= <-]. cbn [lb_logicalAccountKey lb_currency].
  apply truthy_ok in Hkey as [_ Hkey]. apply truthy_ok in Hcur as [_ Hcur]. split; [done|].
  exists d1, s. split; [done|]. split; [by eapply fresh_latest|done].
Qed.
End account.

Section limits.
Context (sha256 : chars -> string) (ev : Evidence) (broker : Broker) (ids : Ids) (u : string) (time : Z).

(** [m] goes on from [d] with [a]. *)
Definition goes {A} (m : eval A) (d : DB) (a : A) (d' : DB) : Prop := exists rules rules', yields m rules d a rules' d'.

(** The stages of an evaluation that approves. *)
Record passed (t : ProposedTrade) (rb : option string) (d : DB) (a : RiskApprovalResult) (d' : DB)
    (p : RiskProfile) (s : TradingSession) (b : BrokerConnection) (equity : ED) (free : option string) (currency : string)
    (live : option LiveBinding) (lot : string) (q : ED) (t' : ProposedTrade) (quote : option js) (d1 d2 d3 d4 d5 : DB) : Prop := mkPassed {
  ps_bound : requireAuthorityBinding t = false;
  ps_profile : goes (load_profile ids u t) d p d1;
  ps_session : goes (load_session u t) d1 s d1;
  ps_connection : goes (load_connection u t s) d1 b d1;
  ps_account : goes (load_account ev u time t b) d1 (equity, free, currency) d1;
  ps_live : goes (load_live broker ids u t p b) d1 live d2;
  ps_loss : goes (check_daily_loss u t p s b live currency) d2 tt d2;
  ps_drawdown : goes (check_drawdown u t p s equity) d2 tt d3;
  ps_margin : goes (check_margin broker u t free) d3 tt d3;
  ps_size : goes (check_size u t p s b) d3 (lot, q) d4;
  ps_controls : exists da db,
    goes (enforcePerTradeControls ev u time t p s b equity q (toUpperCase (string_of (trim (chars_of currency))))) da (t', quote) db;
  ps_duplicate : goes (check_duplicate u t') d5 tt d5;
  ps_steady : steady d d1 /\ steady d d2 /\ steady d d5;
  ps_live_read : live_read u live d2;
  ps_approve : goes (approve sha256 ids u time t' p s b lot quote live currency rb) d5 (APPROVED a) d';
  ps_market : exists da db, goes (check_market u t p) da tt db }.

Lemma approved_yields t rb d a d' :
  run (validateProposedTrade sha256 ev broker ids u time t rb) d = (d', Ok (APPROVED a)) ->
  exists rules, yields (pipeline sha256 ev broker ids u time t rb) [] d (APPROVED a) rules d'.
Proof.
  unfold validateProposedTrade, runValidationPipeline. rewrite run_catch, run_bind.
  destruct (run (pipeline _ _ _ _ _ _ _ _ []) d) as [d1 [[x|[x rules]]|e]] eqn:Hr; cbn [run]; [|by intros [= -> ->]; exists rules|done].
  intros [= -> ->]. pose proof (returns_run _ _ _ _ _ (refuses_pipeline sha256 ev broker ids u time t rb []) Hr). done.
Qed.

(** ** The parts that only read *)

Lemma gate_yields bid cid t rules d x rules' d' :
  yields (evaluateControlGate u bid cid t) rules d x rules' d' ->
  d = d' /\ allowed (cascade (now d) (List.filter (isEffectivelyActive (now d)) (controls d)) u bid cid) = true.
Proof.
  unfold evaluateControlGate. intros (permission & r1 & d1 & [Hp ->]%await_yields & H)%chain_yields.
  unfold checkExecutionPermission, findActiveControls in Hp. rewrite run_bind, run_attempt, run_read in Hp. injection Hp as <- <-.
  case_match; yielded. done.
Qed.

Lemma profile_yields t rules d p rules' d' :
  yields (load_profile ids u t) rules d p rules' d' ->
  rk_killSwitchActive p = false /\ exists m, d' = set_profiles m d /\ m = <[u := p]> (profiles d) /\
  (profiles d !! u = Some p \/ profiles d !! u = None /\ p = default_profile (id_profile ids) u).
Proof.
  unfold load_profile. intros H. yielded. split; [done|].
  unfold getOrCreateProfile, findProfile in *. match goal with H : run _ _ = _ |- _ => rename H into Hr end.
  rewrite run_bind, run_read in Hr. destruct (profiles d !! u) as [p0|] eqn:Hp.
  - injection Hr as <- <-. exists (profiles d). split; [by destruct d|]. split; [by rewrite insert_id|by left].
  - rewrite run_op in Hr. unfold profile_insert in Hr. case_bool_decide; [done|]. injection Hr as <- <-.
    eexists. split; [reflexivity|]. split; [done|by right].
Qed.

Lemma session_yields t rules d s rules' d' :
  yields (load_session u t) rules d s rules' d' ->
  d = d' /\ exists x, first_of by_generation (active_sessions u d) = Some x /\ sessions d !! s_id x = Some s /\ s_userId s = u /\
    describeAuthorityMismatch t s (s_authorityGeneration x) = false.
Proof.
  unfold load_session. intros (resolved & r1 & d1 & [Hr ->]%trying_yields & H)%chain_yields.
  unfold resolveActiveSessionAuthority in Hr. rewrite run_bind, run_read in Hr.
  destruct (first_of by_generation (active_sessions u d)) as [x|] eqn:Hx; injection Hr as <- <-; [|yielded].
  apply chain_yields in H as (o & r2 & d2 & [Ho ->]%await_yields & H). rewrite run_read in Ho. injection Ho as <- <-.
  unfold owned_session in H. cbn [au_sessionId au_sessionGeneration] in H.
  destruct (sessions d !! s_id x) as [s0|] eqn:Hs; [case_bool_decide|]; yielded. split; [done|]. by exists x.
Qed.

Lemma connection_yields t s rules d b rules' d' :
  yields (load_connection u t s) rules d b rules' d' ->
  d = d' /\ findConnectionById (s_brokerConnectionId s) u d = Ok b /\ b_status b = B_CONNECTED /\
  (is_live b = true -> Authorization.isExecutable (b_authorizationStatus b) = true) /\
  allowed (cascade (now d) (List.filter (isEffectivelyActive (now d)) (controls d)) u (Some (b_brokerId b)) (Some (b_id b))) = true.
Proof.
  unfold load_connection. intros (found & r1 & d1 & [Hr ->]%trying_yields & H)%chain_yields. rewrite run_op in Hr.
  injection Hr as <- Hf. destruct found as [b0|e]; [|yielded].
  apply chain_yields in H as (? & ? & ? & [Hs ->]%reject_if_yields & H). apply negb_false_iff, bool_decide_eq_true in Hs.
  apply chain_yields in H as (? & ? & ? & ->%applied_yields & H). apply chain_yields in H as (? & ? & ? & [-> Ha]%gate_yields & H).
  yielded. split; [done|]. split; [done|]. split; [done|]. split; [|done]. intros Hl.
  match goal with H : _ && _ = false |- _ => rewrite Hl in H; by apply negb_false_iff in H end.
Qed.

Lemma account_yields t b rules d x rules' d' :
  yields (load_account ev u time t b) rules d x rules' d' ->
  d = d' /\ exists e, run (read_account_state (at_clock time ev) (b_id b)) d = (d, Ok (Some (e, x.1.2, x.2))) /\
    parseBrokerDecimal e = Some x.1.1.
Proof.
  unfold load_account. intros (read & r1 & d1 & [Hr ->]%trying_yields & H)%chain_yields.
  assert (d1 = d) as ->.
  { unfold read_account_state, readLatestAcceptedSnapshot in Hr. rewrite run_bind, run_read in Hr.
    destruct (latest (b_id b) d); [|rewrite run_bind, run_read in Hr]; by injection Hr as <- _. }
  destruct read as [[[[e f] c]|]|e]; yielded. split; [done|]. by exists e.
Qed.

Lemma duplicate_yields t rules d x rules' d' :
  yields (check_duplicate u t) rules d x rules' d' ->
  d = d' /\ forall id r, trades d !! id = Some r -> t_signalId r = Some (pt_signalId t) -> t_userId r <> u.
Proof.
  unfold check_duplicate. intros (read & r1 & d1 & [Hr ->]%trying_yields & H)%chain_yields.
  unfold findTradeBySignalId in Hr. rewrite run_read in Hr. injection Hr as <- <-.
  destruct (find_row _ (trades d)) as [x0|] eqn:Hf; yielded. split; [done|]. intros id r Hr Hs Hu. rewrite find_row_none in Hf.
  specialize (Hf id r Hr). by rewrite !bool_decide_eq_true_2 in Hf.
Qed.

Lemma yields_respects {A} (R : DB -> DB -> Prop) `{!Respects R} (m : eval A) rules d a rules' d' :
  eguar R m -> yields m rules d a rules' d' -> R d d'.
Proof.
  intros Hm Hy. pose proof (guar_run R (m rules) d ltac:(typeclasses eauto) (Hm rules)) as H. by rewrite Hy in H.
Qed.

Lemma yields_goes {A} (m : eval A) rules d a rules' d' : yields m rules d a rules' d' -> goes m d a d'.
Proof. intros H. by exists rules, rules'. Qed.

Lemma approved_passed t rb d a d' :
  run (validateProposedTrade sha256 ev broker ids u time t rb) d = (d', Ok (APPROVED a)) ->
  exists p s b e f c live lot q t' quote d1 d2 d3 d4 d5, passed t rb d a d' p s b e f c live lot q t' quote d1 d2 d3 d4 d5.
Proof.
  intros (rules & H)%approved_yields. unfold pipeline in H.
  apply chain_yields in H as (? & ? & ? & [Hb ->]%reject_if_yields & H).
  apply chain_yields in H as (? & ? & ? & ->%applied_yields & H).
  apply chain_yields in H as (? & ? & ? & [-> _]%gate_yields & H).
  apply chain_yields in H as (? & ? & ? & ->%applied_yields & H).
  apply chain_yields in H as (p & ? & d1 & H1 & H). apply chain_yields in H as (s & ? & ? & H2 & H).
  pose proof (session_yields _ _ _ _ _ _ H2) as [<- _].
  apply chain_yields in H as (b & ? & ? & H3 & H). pose proof (connection_yields _ _ _ _ _ _ _ H3) as [<- _].
  apply chain_yields in H as ([[e f] c] & ? & ? & H4 & H). pose proof (account_yields _ _ _ _ _ _ _ H4) as (<- & e0 & _ & He).
  assert (canonical e) as Ce by (unfold parseBrokerDecimal in He; destruct e0; [by eapply tryParse_canonical|done]).
  apply chain_yields in H as (live & ? & d2 & H5 & H). pose proof (live_yields _ _ _ _ _ _ _ _ _ _ _ H5) as [Hlive _].
  apply chain_yields in H as ([] & ? & d2' & H6 & H). pose proof (loss_yields _ _ _ _ _ _ _ _ _ _ _ _ H6 Hlive) as [<- _].
  apply chain_yields in H as ([] & ? & d3 & H7 & H). apply chain_yields in H as ([] & ? & d3' & H8 & H).
  pose proof (margin_yields _ _ _ _ _ _ _ _ _ H8) as [<- _].
  apply chain_yields in H as ([lot q] & ? & d4 & H9 & H). apply chain_yields in H as (? & ? & d4a & H10 & H).
  apply chain_yields in H as ([] & ? & d4b & H11 & H). apply chain_yields in H as ([t' quote] & ? & d5 & H12 & H).
  apply chain_yields in H as ([] & ? & d6 & H13 & H). pose proof (duplicate_yields _ _ _ _ _ _ H13) as [<- _].
  pose proof (yields_respects steady _ _ _ _ _ _ (eguar_load_profile ids u steady t) H1) as S1.
  pose proof (yields_respects steady _ _ _ _ _ _ (eguar_load_live broker ids u steady t p b) H5) as S2.
  pose proof (yields_respects steady _ _ _ _ _ _ (eguar_drawdown u steady t p s e Ce) H7) as S3.
  pose proof (yields_respects steady _ _ _ _ _ _ (eguar_size u steady t p s b) H9) as S4.
  pose proof (yields_respects steady _ _ _ _ _ _ (eguar_order u steady t p) H10) as S5.
  pose proof (yields_respects steady _ _ _ _ _ _ (eguar_market u steady t p) H11) as S6.
  pose proof (yields_respects steady _ _ _ _ _ _ (eguar_controls ev u time steady t p s b e q _) H12) as S7.
  exists p, s, b, e, f, c, live, lot, q, t', quote, d1, d2, d3, d4, d5.
  split; [done|by eapply yields_goes..|by exists d4b, d5; eapply yields_goes| | | | |].
  - by eapply yields_goes.
  - split; [done|]. split; [by etransitivity|]. do 2 (etransitivity; [eassumption|]). do 3 (etransitivity; [eassumption|]). by etransitivity.
  - done.
  - by eapply yields_goes.
  - exists d4a, d4b. by eapply yields_goes.
Qed.
End limits.

(** ** The order *)

(** Quote currency per unit of the account's currency, for the risk and for the notional: one,
    for an account in the quote currency; the stop and the entry, for an account in the base
    currency; for any other account, a rate the market proves. *)
Inductive converted {market : Evidence} (account base quote : string) (stop entry : ED) : ED -> ED -> Prop :=
| converted_quote : account = quote -> converted account base quote stop entry ONE ONE
| converted_base : account <> quote -> account = base -> converted account base quote stop entry stop entry
| converted_market rate :
    account <> quote -> account <> base -> market_rate account quote rate -> (0 < toQ rate)%Q ->
    converted account base quote stop entry rate rate.

Section order.
Context {market : Evidence}.
Context (entry stop q size : ED) (He : canonical entry) (Hs : canonical stop) (Hq : canonical q) (Hz : canonical size).

Definition risk_quote : Q := (Qabs (toQ entry - toQ stop) * toQ q * toQ size)%Q.
Definition notional_quote : Q := (toQ entry * toQ q * toQ size)%Q.

(** What the figures are in the quote currency, when nothing in them is negative. *)
Definition figured (f : Figures) (rr nr : ED) : Prop :=
  canonical (riskAtStop f) /\ canonical (notional f) /\ (risk_quote <= toQ (riskAtStop f) * toQ rr)%Q /\
  (notional_quote <= toQ (notional f) * toQ nr)%Q.

Lemma quoted_market account quote bid :
  (forall rate, ~ positive_cached account quote rate) -> quoted_bid (account +:+ quote) = Some bid ->
  pos bid /\ market_rate account quote bid.
Proof.
  intros Hn. unfold quoted_bid. destruct (conversionQuote _) as [x|] eqn:Hx; [|done]. cbn.
  destruct (positive_text (q_bid x)) as [y|] eqn:Hy; [|done]. cbn.
  destruct (q_timestamp x) as [t|] eqn:Ht; [|done]. cbn. case_match eqn:Hw; [done|]. intros [= <-].
  split; [by eapply positive_text_pos|]. eapply market_quoted; [done..|]. bool_to_prop. lia.
Qed.

(** The cached rate, as it is read. *)
Lemma cached_market account quote cached :
  upper_word 3 account = true -> upper_word 3 quote = true ->
  (if fxConversionAvailable then computed (resolveCachedBid account quote) else Ok None) = Ok cached ->
  match (c ← cached; bid ← positive_text c.1; Some (bid, c.2)) with
  | Some (bid, _) => pos bid /\ market_rate account quote bid
  | None => forall rate, ~ positive_cached account quote rate
  end.
Proof.
  intros Ua Uq. destruct fxConversionAvailable eqn:Hav.
  2: { intros [= <-] rate [Hf _]. congruence. }
  unfold computed. destruct (resolveCachedBid account quote) as [o|] eqn:Hr; [|done]. intros [= <-].
  apply resolve_spec in Hr; [|done..]. destruct o as [[t path]|]; cbn.
  - destruct Hr as (rate & Hr & Cr & ->). unfold positive_text. rewrite tryParse_text_text by done. cbn.
    destruct (isPositive rate) eqn:Hp; cbn.
    + apply isPositive_Q in Hp. split; [done|]. apply market_cached. split; [done|]. split; [done|]. by exists path.
    + apply not_positive_Q in Hp. intros rate' (_ & Hp' & path' & Hr'). destruct (cached_rate_unique _ _ _ _ _ _ Hr Hr') as [<- _]. lra.
  - intros rate (_ & _ & path & Hc). by apply (Hr rate path).
Qed.

Lemma per_account_ok rr nr rq nq rules f :
  canonical rr -> canonical nr -> canonical rq -> canonical nq -> (toQ rq == risk_quote)%Q -> (toQ nq == notional_quote)%Q ->
  (0 <= risk_quote)%Q -> (0 <= notional_quote)%Q -> (0 < toQ rr)%Q -> (0 < toQ nr)%Q ->
  per_account rr nr rq nq rules = Ok (Some f) -> figured f rr nr.
Proof.
  intros Cr Cn Cq Cnq Er En Hr Hn Pr Pn. unfold per_account. intros (x & Hx%exact_ok & H)%rbind_ok.
  apply rbind_ok in H as (y & Hy%exact_ok & H). injection H as <-.
  apply divUp_ok in Hx as [Cx Qx]; [|done|done|unfold MAX_SCALE; lia|lra|done].
  apply divUp_ok in Hy as [Cy Qy]; [|done|done|unfold MAX_SCALE; lia|lra|done].
  rewrite Er in Qx. rewrite En in Qy. done.
Qed.

Lemma figures_ok acc base quote f :
  upper_word 3 acc = true -> upper_word 3 quote = true ->
  figures acc base quote entry stop q size = Ok (Some f) ->
  exists rr nr, converted acc base quote stop entry rr nr /\
    ((0 <= toQ q)%Q -> (0 <= toQ size)%Q -> (0 < toQ entry)%Q -> (0 < toQ rr)%Q -> figured f rr nr).
Proof.
  intros Ua Uq. unfold figures. intros (d & Hd%exact_ok & H)%rbind_ok. apply sub_ok in Hd as [Cd Qd]; [|done|done].
  destruct (abs_ok d Cd) as [Ca Qa]. apply rbind_ok in H as (r0 & Hr0%exact_ok & H). apply mul_ok in Hr0 as [C0 Q0]; [|done|done].
  apply rbind_ok in H as (rq & Hrq%exact_ok & H). apply mul_ok in Hrq as [Crq Qrq]; [|done|done].
  apply rbind_ok in H as (n0 & Hn0%exact_ok & H). apply mul_ok in Hn0 as [Cn0 Qn0]; [|done|done].
  apply rbind_ok in H as (nq & Hnq%exact_ok & H). apply mul_ok in Hnq as [Cnq Qnq]; [|done|done].
  assert (toQ rq == risk_quote)%Q as Er by (unfold risk_quote; rewrite Qrq, Q0, Qa, Qd; reflexivity).
  assert (toQ nq == notional_quote)%Q as En by (unfold notional_quote; rewrite Qnq, Qn0; reflexivity).
  assert ((0 <= toQ q)%Q -> (0 <= toQ size)%Q -> (0 < toQ entry)%Q -> (0 <= risk_quote)%Q /\ (0 <= notional_quote)%Q) as Hpos.
  { intros ???. unfold risk_quote, notional_quote. pose proof (Qabs_nonneg (toQ entry - toQ stop)).
    split; repeat apply Qmult_le_0_compat; lra. }
  case_bool_decide as Hcase.
  { injection H as <-. exists ONE, ONE. split; [by constructor|]. intros _ _ _ _. split; [done|]. split; [done|]. cbn [riskAtStop notional].
    change (toQ ONE) with (1 # 1)%Q. rewrite Er, En. split; lra. }
  case_bool_decide as Hcase'.
  { exists stop, entry. split; [by constructor|]. intros ????. destruct Hpos as [??]; [done..|]. by eapply (per_account_ok stop entry rq nq). }
  assert (forall bid rules, pos bid /\ market_rate acc quote bid -> per_account bid bid rq nq rules = Ok (Some f) ->
            exists rr nr, converted acc base quote stop entry rr nr /\
              ((0 <= toQ q)%Q -> (0 <= toQ size)%Q -> (0 < toQ entry)%Q -> (0 < toQ rr)%Q -> figured f rr nr)) as Hbid.
  { intros bid rules [[Cb Pb] Hm] Hf. exists bid, bid. split; [by constructor|]. intros ????. destruct Hpos as [??]; [done..|].
    by eapply (per_account_ok bid bid rq nq). }
  apply rbind_ok in H as (cached & Hc%cached_market & H); [|done..].
  destruct (cached ≫= _) as [[bid path]|]; [by eapply Hbid|].
  destruct (quoted_bid (acc +:+ quote)) as [bid|] eqn:Hb; [|done]. apply quoted_market in Hb; [|done]. by eapply Hbid.
Qed.
End order.

Lemma order_decimal_ok field v d : order_decimal field v = Ok d -> tryParse_text v = Some d /\ canonical d.
Proof.
  unfold order_decimal. destruct (tryParse_text v) as [x|] eqn:Hx; [|done]. intros [= ->]. split; [done|]. by eapply tryParse_canonical.
Qed.

Lemma integer_decimal field n d : order_decimal field (string_of (bigint_text n)) = Ok d -> d = mkED n 0.
Proof.
  intros [H _]%order_decimal_ok. assert (bigint_text n = toString (mkED n 0)) as E.
  { unfold bigint_text, toString. cbn [unscaled scale]. destruct (n <? 0); [|done]. cbn. done. }
  pose proof (tryParse_text_text (mkED n 0) (whole_canonical n)) as Ht. unfold text in Ht. rewrite <- E, H in Ht. by injection Ht.
Qed.

(** The bounds on an order of [q] at [entry] with its stop, for an account of [equity]. *)
Definition bounded (p : RiskProfile) (equity q entry size stop rr nr : ED) : Prop :=
  (risk_quote entry stop q size * 100 <= toQ (mkED (rk_maxTradeRiskPercent p) 2) * toQ equity * toQ rr)%Q /\
  (notional_quote entry q size < inject_Z (rk_maxLeverageAllowed p) * toQ equity * toQ nr)%Q.

Lemma figures_bounded p f equity q entry size stop rr nr :
  canonical equity -> (0 < toQ equity)%Q -> (0 < toQ rr)%Q -> (0 < toQ nr)%Q -> (0 <= toQ (riskAtStop f))%Q -> (0 <= toQ (notional f))%Q ->
  figured entry stop q size f rr nr ->
  risk_exceeded f equity (units 2 (rk_maxTradeRiskPercent p)) = Ok false -> leverage_reached f equity (mkED (rk_maxLeverageAllowed p) 0) = Ok false ->
  bounded p equity q entry size stop rr nr.
Proof.
  intros Ce Pe Pr Pn Hr0 Hn0 (Cr & Cn & Hr & Hn). unfold risk_exceeded, leverage_reached.
  intros (fr & Hfr%exact_ok & H)%rbind_ok. apply divUp_ok in Hfr as [Cf Qf]; [|done|done|unfold MAX_SCALE; lia|lra|done].
  apply rbind_ok in H as (pc & Hpc%exact_ok & Hg%exact_ok). apply hundredfold_ok in Hpc as [Cpc Qpc]; [|done].
  destruct (units_spec 2 scale2 (rk_maxTradeRiskPercent p)) as [Cu Qu]. apply gt_ok in Hg; [|done|done]. cbv iota in Hg.
  intros (lv & Hlv%exact_ok & Hl%exact_ok)%rbind_ok. apply divUp_ok in Hlv as [Cl Ql]; [|done|done|unfold MAX_SCALE; lia|lra|done].
  apply gte_ok in Hl; [|done|apply whole_canonical]. cbv iota in Hl. rewrite whole_Q in Hl. rewrite Qpc, Qu in Hg. split.
  - assert (toQ (riskAtStop f) * 100 <= toQ (mkED (rk_maxTradeRiskPercent p) 2) * toQ equity)%Q as Hb by nra. nra.
  - assert (toQ (notional f) < inject_Z (rk_maxLeverageAllowed p) * toQ equity)%Q as Hb by nra. nra.
Qed.

Lemma risk_quote_pos entry stop q size : (0 <= toQ q)%Q -> (0 <= toQ size)%Q -> (0 <= risk_quote entry stop q size)%Q.
Proof.
  intros. unfold risk_quote. pose proof (Qabs_nonneg (toQ entry - toQ stop)). repeat apply Qmult_le_0_compat; lra.
Qed.

Lemma notional_quote_pos entry q size : (0 < toQ entry)%Q -> (0 <= toQ q)%Q -> (0 <= toQ size)%Q -> (0 <= notional_quote entry q size)%Q.
Proof. intros. unfold notional_quote. repeat apply Qmult_le_0_compat; lra. Qed.

(** The per-trade controls of an order of the instrument whose entry and contract size are
    known, on an account in the currency. *)
Definition order_bounded {market : Evidence} (p : RiskProfile) (equity q entry size stop : ED) (currency instrument : string) : Prop :=
  let account := toUpperCase (string_of (trim (chars_of currency))) in
  let symbol := toUpperCase (string_of (trim (chars_of instrument))) in
  upper_word 3 account = true /\ upper_word 6 symbol = true /\
  (0 < toQ equity)%Q /\ exists rr nr, converted account (base_of symbol) (quote_of symbol) stop entry rr nr /\
    ((0 <= toQ q)%Q -> (0 < toQ entry)%Q -> (0 < toQ rr)%Q -> bounded p equity q entry size stop rr nr).

Lemma exposure_yields ev u time t p equity q entry size currency rules d x rules' d' :
  canonical equity -> canonical q -> canonical entry -> pos size ->
  yields (check_exposure ev u time t p equity q entry size (toUpperCase (string_of (trim (chars_of currency))))) rules d x rules' d' ->
  exists stop, tryParse_text (default "" (pt_stopLoss t)) = Some stop /\
    @order_bounded (at_clock time ev) p equity q entry size stop currency (pt_instrument t).
Proof.
  intros Ce Cq Cn [Cz Pz]. unfold check_exposure. intros (stop & r1 & d1 & (Hs & _ & ->)%compute_yields & H)%chain_yields.
  apply order_decimal_ok in Hs as [Hs Cs]. apply chain_yields in H as (? & ? & ? & [[Hi%negb_false_iff Ha%negb_false_iff]%orb_false_iff ->]%reject_if_yields & H).
  apply chain_yields in H as (o & ? & ? & (Hf & _ & ->)%compute_yields & H). apply chain_yields in H as (f & ? & ? & [-> ->]%needed_yields & H).
  apply chain_yields in H as (? & ? & ? & _ & H). apply chain_yields in H as (mtr & ? & ? & (Hm & _ & ->)%compute_yields & H).
  apply profile_decimal_ok in Hm as ->; [|apply scale2]. apply chain_yields in H as (? & ? & ? & [Pe%negb_false_iff%isPositive_Q ->]%reject_if_yields & H).
  apply chain_yields in H as (ex & ? & ? & (He & _ & ->)%compute_yields & H). apply chain_yields in H as (? & ? & ? & [-> ->]%reject_if_yields & H).
  apply chain_yields in H as (? & ? & ? & _ & H). apply chain_yields in H as (ml & ? & ? & (Hml & _ & ->)%compute_yields & H).
  apply integer_decimal in Hml as ->. apply chain_yields in H as (lv & ? & ? & (Hl & _ & ->)%compute_yields & H).
  apply chain_yields in H as (? & ? & ? & [-> _]%reject_if_yields & _).
  exists stop. split; [done|]. do 3 (split; [done|]).
  apply figures_ok in Hf as (rr & nr & Hp & Hf); [|done..|by apply quote_of_word]. exists rr, nr. split; [done|].
  intros Pq Pn Pr. specialize (Hf Pq (Qlt_le_weak _ _ Pz) Pn Pr). pose proof Hf as (_ & _ & Hr & Hn).
  pose proof (risk_quote_pos entry stop q size Pq (Qlt_le_weak _ _ Pz)).
  pose proof (notional_quote_pos entry q size Pn Pq (Qlt_le_weak _ _ Pz)).
  assert (0 < toQ nr)%Q as Pnr by (destruct Hp; [reflexivity|done|done]).
  eapply figures_bounded; [done..| | |done|done|done]; [apply (Qmult_le_r _ _ (toQ rr))|apply (Qmult_le_r _ _ (toQ nr))]; try done; lra.
Qed.

(** What the controls of an approved order establish: the entry it was checked at, unless the
    account is not LIVE and the entry or the contract size is unknown. *)
Definition controlled (ev : Evidence) (time : Z) (t t' : ProposedTrade) (p : RiskProfile) (s : TradingSession) (b : BrokerConnection)
    (equity q : ED) (currency : string) : Prop :=
  exists g entry, @resolveOrderGeometry (at_clock time ev) (pt_direction t) (isMarketEntryPrice (pt_entryPrice t)) = Ok g /\
    (if isMarketEntryPrice (pt_entryPrice t) then entry = freshQuote g else entry = tryParse_text (pt_entryPrice t) /\ is_Some entry) /\
    (liveNewExposure s b = true -> is_Some entry /\ is_Some (contractSize g)) /\
    forall en size, entry = Some en -> contractSize g = Some size ->
      exists stop, tryParse_text (default "" (pt_stopLoss t')) = Some stop /\
        @order_bounded (at_clock time ev) p equity q en size stop currency (pt_instrument t').

Lemma entry_yields u t s b g rules d entry rules' d' :
  yields (geometry_entry u t s b g) rules d entry rules' d' ->
  (if isMarketEntryPrice (pt_entryPrice t) then entry = freshQuote g else entry = tryParse_text (pt_entryPrice t) /\ is_Some entry) /\
  (liveNewExposure s b = true -> is_Some entry).
Proof.
  unfold geometry_entry. destruct (isMarketEntryPrice _).
  - destruct (freshQuote g) as [x|]; [by intros (<- & _)%pass_yields|]. destruct (liveNewExposure s b); [by intros ?%leave_yields|].
    by intros (<- & _)%pass_yields.
  - intros (He & _)%compute_yields. destruct (order_decimal _ _) as [x|] eqn:Ho; [|done]. injection He as <-.
    apply order_decimal_ok in Ho as [-> _]. done.
Qed.

Lemma size_pos ev direction need g size :
  @resolveOrderGeometry ev direction need = Ok g -> contractSize g = Some size -> pos size.
Proof.
  unfold resolveOrderGeometry. intros (quote & _ & H)%rbind_ok. destruct instrumentSpecification as [spec|]; injection H as <-; [|done].
  cbn [contractSize]. case_bool_decide; [done|]. apply positive_text_pos.
Qed.

Lemma controls_yields ev time u t p s b equity q currency rules d t' quote rules' d' :
  canonical equity -> canonical q ->
  yields (enforcePerTradeControls ev u time t p s b equity q (toUpperCase (string_of (trim (chars_of currency))))) rules d (t', quote) rules' d' ->
  controlled ev time t t' p s b equity q currency.
Proof.
  intros Ce Cq. unfold enforcePerTradeControls. intros (g & ? & ? & (Hg & _ & ->)%compute_yields & H)%chain_yields.
  assert (@resolveOrderGeometry (at_clock time ev) (pt_direction t) (isMarketEntryPrice (pt_entryPrice t)) = Ok g) as Hgeo.
  { unfold evidence, computed in Hg. destruct (@resolveOrderGeometry (at_clock time ev) _ _) as [y|y]; [by injection Hg as ->|done]. }
  apply chain_yields in H as (entry & ? & ? & [He Hlive]%entry_yields & H).
  pose proof (@geometry_sound (at_clock time ev) (pt_direction t) (isMarketEntryPrice (pt_entryPrice t))) as Hq. rewrite Hgeo in Hq.
  destruct Hq as [Hq _]. assert (forall en, entry = Some en -> canonical en) as Cen.
  { intros en ->. destruct (isMarketEntryPrice _); [by apply Hq|]. destruct He as [He _]. by eapply tryParse_canonical. }
  apply chain_yields in H as (t1 & ? & ? & _ & H). apply chain_yields in H as (? & ? & ? & Hx & H).
  apply pass_yields in H as ([= -> _] & _). exists g, entry. split; [done|]. split; [done|]. split.
  - intros Hl. split; [by apply Hlive|]. rewrite Hl in Hx. destruct (contractSize g); [done|]. by apply leave_yields in Hx.
  - intros en size -> Hsize. rewrite Hsize in Hx. eapply exposure_yields; [done|done|by apply Cen|by eapply size_pos|done].
Qed.

Lemma size_yields u t p s b rules d lot q rules' d' :
  yields (check_size u t p s b) rules d (lot, q) rules' d' ->
  tryParse_text lot = Some q /\ canonical q /\
  (allocationAwareDemoSizing t b = false -> (toQ q <= toQ (mkED (rk_maxPositionSizeLot p) 4))%Q).
Proof.
  unfold check_size. intros (? & ? & ? & _ & H)%chain_yields. apply chain_yields in H as (? & ? & ? & _ & H).
  apply chain_yields in H as (req & ? & ? & (Hreq & _ & _)%compute_yields & H). apply order_decimal_ok in Hreq as [Hreq Creq].
  apply chain_yields in H as (mx & ? & ? & (Hmx & _ & _)%compute_yields & H). apply profile_decimal_ok in Hmx as ->; [|unfold MAX_SCALE; lia].
  apply chain_yields in H as (over & ? & ? & (Hov & _ & _)%compute_yields & H). apply exact_ok in Hov.
  destruct (units_spec 4 ltac:(unfold MAX_SCALE; lia) (rk_maxPositionSizeLot p)) as [Cu Qu]. apply gt_ok in Hov; [|done..].
  apply chain_yields in H as (l & ? & ? & Hlot & H). apply chain_yields in H as (q' & ? & ? & (Hq & _ & _)%compute_yields & H).
  apply order_decimal_ok in Hq as [Hq Cq]. apply chain_yields in H as (? & ? & ? & _ & H). apply chain_yields in H as (? & ? & ? & _ & H).
  apply pass_yields in H as ([= -> ->] & _). split; [done|]. split; [done|]. intros Ha. rewrite Ha in Hlot. rewrite <- Qu.
  destruct over; cbn [negb andb] in Hlot.
  - apply chain_yields in Hlot as (? & ? & ? & _ & Hlot). apply chain_yields in Hlot as (? & ? & ? & _ & Hlot).
    apply pass_yields in Hlot as (<- & _). pose proof (parse_out 4 ltac:(unfold MAX_SCALE; lia) (rk_maxPositionSizeLot p)) as Hp.
    unfold tryParse_text, tryParse in Hq. unfold parse_text in Hp. rewrite Hp in Hq. injection Hq as <-. apply Qle_refl.
  - apply chain_yields in Hlot as (? & ? & ? & _ & Hlot). apply pass_yields in Hlot as (<- & _). rewrite Hreq in Hq. by injection Hq as <-.
Qed.

Lemma approve_yields sha256 ids u time t p s b lot quote live currency rb rules d a rules' d' :
  yields (approve sha256 ids u time t p s b lot quote live currency rb) rules d (APPROVED a) rules' d' ->
  ra_sessionId a = s_id s /\ ra_sessionGeneration a = s_authorityGeneration s /\ ra_executionMode a = s_executionMode s /\
  ra_validatedOrder a = validated t lot /\ ra_evaluatedAt a = time /\ ra_riskPeriodId a = lb_periodId <$> live.
Proof.
  unfold approve. intros (issued & ? & ? & _ & H)%chain_yields. destruct issued as [id|e]; [|by apply leave_yields in H].
  apply chain_yields in H as (rs & ? & ? & _ & H). apply chain_yields in H as (? & ? & ? & _ & H).
  by apply pass_yields in H as ([= <-] & _).
Qed.

Lemma keeps_yields {A} (Q : A -> Prop) (m : eval A) rules d a rules' d' : keeps Q m -> yields m rules d a rules' d' -> Q a.
Proof. intros Hm Hy. exact (returns_run _ _ _ _ _ (Hm rules) Hy). Qed.

Lemma same_trade_signal t t' : same_trade t t' -> pt_signalId t' = pt_signalId t.
Proof. by intros (sl & tp & [->| ->]). Qed.

Definition keyed (d : DB) : Prop := forall k s, sessions d !! k = Some s -> s_id s = k.

(** The session an evaluation goes on with. *)
Record current (u : string) (t : ProposedTrade) (d : DB) (s : TradingSession) : Prop := {
  cu_row : sessions d !! s_id s = Some s;
  cu_user : s_userId s = u;
  cu_active : s_status s = Session.ACTIVE;
  cu_session : pt_sessionId t = Some (s_id s);
  cu_generation : pt_sessionGeneration t = Some (s_authorityGeneration s);
  cu_connection : pt_brokerConnectionId t = Some (s_brokerConnectionId s);
  cu_mode : pt_executionMode t = Some (mode_name (s_executionMode s)) }.

Lemma current_session u t rules d s rules' d' : keyed d -> yields (load_session u t) rules d s rules' d' -> current u t d s.
Proof.
  intros Hkey (_ & se & Hx & Hs & Hu & Hm)%session_yields.
  apply first_of_in, elem_of_sessions in Hx as (Hact & k & Hin).
  pose proof (Hkey _ _ Hin) as Ek. rewrite Ek in Hs. rewrite Hin in Hs. injection Hs as ->. rewrite <- Ek in Hin.
  apply andb_true_iff in Hact as [_ Hact%bool_decide_eq_true]. unfold describeAuthorityMismatch in Hm. bool_to_prop. by split.
Qed.

Lemma account_profiles ev c m d : snd (run (read_account_state ev c) (set_profiles m d)) = snd (run (read_account_state ev c) d).
Proof.
  unfold read_account_state, readLatestAcceptedSnapshot. rewrite !run_bind, !run_read.
  change (latest c (set_profiles m d)) with (latest c d). destruct (latest c d); [done|]. by rewrite !run_bind, !run_read.
Qed.

(** The loss that was read, of the trades of [d]. *)
Lemma loss_exact u p s b live currency d d2 :
  same_trades d d2 ->
  (exists ob scope r loss dl, Sizing.positive (parseSessionDecimal (s_openingBalance s)) = Some ob /\ loss_scope u b live currency scope /\
     same_trades d2 dl /\ run (getTodayRealisedLossExact scope) dl = (dl, Ok r) /\ complete r = true /\ tryParse_text (total r) = Some loss /\
     daily_loss_reached p ob loss = Ok false) ->
  exists ob scope, s_openingBalance s = Some ob /\ 0 < ob /\ loss_scope u b live currency scope /\
    let w := window_start (now d) (reset_at scope (now d) d) in
    let loss := Z.min 0 (msum (pnl_in scope w) (trades d)) in
    (forall id r, trades d !! id = Some r -> legacy u w r = false) /\
    (loss < 0 -> (toQ (mkED (- loss) 8) < toQ (mkED ob 2) * toQ (mkED (rk_maxDailyLossPercent p) 2) * (1 # 100))%Q).
Proof.
  intros (Et & En & El) (od & scope & r & loss & dl & Ho & Hscope & (Et' & En' & El') & Hrun & Hc & Hl & Hd).
  rewrite parse_session in Ho. destruct (s_openingBalance s) as [ob|] eqn:Hob; [|done]. cbn in Ho.
  destruct (units_spec 2 scale2 ob) as [Cu Qu]. destruct (isPositive (units 2 ob)) eqn:Hpos; [|done]. injection Ho as <-.
  apply isPositive_Q in Hpos. rewrite Qu in Hpos. exists ob, scope. split; [done|]. split; [unfold toQ, Qlt in Hpos; cbn in Hpos; lia|].
  split; [done|]. destruct (today_loss scope dl) as (r' & x & Hrun' & Hx & Qx & Hcomp & _). rewrite Hrun in Hrun'. injection Hrun' as <-.
  assert (reset_at scope (now dl) dl = reset_at scope (now d) d) as Er by (unfold reset_at; by rewrite El', El, En', En).
  rewrite Er, Et', Et, En', En in *. split; [rewrite <- (proj1 Hscope); by apply Hcomp|]. intros Hneg. rewrite Hl in Hx. injection Hx as <-.
  apply daily_loss_ok in Hd; [|done|by eapply tryParse_canonical|].
  - rewrite Qu, Qx in Hd. exact Hd.
  - rewrite Qx. unfold Qlt. cbn. lia.
Qed.

(** ** The sample *)

Lemma risk_db_keyed accountType t currency : keyed (risk_db accountType t currency).
Proof.
  intros k s Hs. change (({["s1" := risk_session]} : gmap string TradingSession) !! k = Some s) in Hs.
  by apply lookup_singleton_Some in Hs as [<- <-].
Qed.

(** ** What an approval says *)

(** C24: An approval is given under the current authority.  When an evaluation that runs alone
    approves, the kill switch of the user's profile is off; the session it names is stored, is
    the user's and is active, at exactly the generation, the connection and the mode the signal
    was bound to; that connection is the user's, connected, and, when LIVE, authorised; no
    emergency control blocks the user, the provider or the connection; and no trade of the user
    was made of the signal. *)
Theorem approved_under_authority sha256 e d d' a :
  (forall k s, sessions d !! k = Some s -> s_id s = k) ->
  run (evaluate sha256 e) d = (d', Ok (APPROVED a)) ->
  let t := e_trade e in
  exists p s b,
    ((profiles d !! e_user e = Some p \/ profiles d !! e_user e = None /\ p = default_profile (id_profile (e_ids e)) (e_user e)) /\
     rk_killSwitchActive p = false) /\
    (sessions d !! ra_sessionId a = Some s /\ s_userId s = e_user e /\ s_status s = Session.ACTIVE /\
     pt_sessionId t = Some (ra_sessionId a) /\ pt_sessionGeneration t = Some (s_authorityGeneration s) /\
     pt_brokerConnectionId t = Some (s_brokerConnectionId s) /\ pt_executionMode t = Some (mode_name (s_executionMode s)) /\
     ra_sessionGeneration a = s_authorityGeneration s) /\
    (findConnectionById (s_brokerConnectionId s) (e_user e) d = Ok b /\ b_status b = B_CONNECTED /\
     (b_accountType b = "LIVE" -> Authorization.isExecutable (b_authorizationStatus b) = true)) /\
    allowed (cascade (now d) (List.filter (isEffectivelyActive (now d)) (controls d)) (e_user e) (Some (b_brokerId b)) (Some (b_id b))) = true /\
    forall id r, trades d !! id = Some r -> t_signalId r = Some (pt_signalId t) -> t_userId r <> e_user e.
Proof.
  intros Hkey Hrun t. apply approved_passed in Hrun as (p & s & b & eq & f & c & live & lot & q & t' & quote & d1 & d2 & d3 & d4 & d5 & H).
  destruct H as [_ (? & ? & Hp) (? & ? & Hs) (? & ? & Hb) _ _ _ _ _ _ (da & db & ? & ? & Hc) (? & ? & Hdup) (_ & _ & Hst) _ (? & ? & Happ)].
  apply profile_yields in Hp as (Hks & m & -> & _ & Hp). apply current_session in Hs; [|exact Hkey].
  destruct Hs as [Hrow Hu Hact Hsid Hgen Hconn Hmode]. change (sessions (set_profiles m d)) with (sessions d) in Hrow.
  apply connection_yields in Hb as (_ & Hb & Hc1 & Hlive & Hgate). apply duplicate_yields in Hdup as [_ Hdup].
  pose proof (keeps_yields _ _ _ _ _ _ _ (keeps_controls _ _ _ _ _ _ _ _ _ _) Hc) as Ht. cbn [fst] in Ht.
  rewrite (same_trade_signal _ _ Ht) in Hdup. destruct Hst as [(Etr & _) _]. rewrite Etr in Hdup.
  apply approve_yields in Happ as (Ea & Eg & _). exists p, s, b. rewrite Ea, Eg.
  split; [done|]. split; [done|]. split; [|done]. split; [done|]. split; [done|]. intros Hl. apply Hlive. by apply bool_decide_eq_true.
Qed.

Lemma approved_under_authority_witness :
  let e := sample_evaluation "10000" "1.0950" "0.1" in
  let d := risk_db "LIVE" 90000 "USD" in
  keyed d /\ exists d' a, run (evaluate hash_id e) d = (d', Ok (APPROVED a)) /\
    exists s, sessions d !! ra_sessionId a = Some s /\ s_status s = Session.ACTIVE.
Proof.
  intros e d. split; [apply risk_db_keyed|].
  destruct (run (evaluate hash_id e) d) as [d' [[a|s k|s k]|err]] eqn:Hr; try (exfalso; vm_compute in Hr; discriminate Hr).
  exists d', a. split; [reflexivity|].
  destruct (approved_under_authority hash_id e d d' a (risk_db_keyed _ _ _) Hr) as (p & s & b & _ & (Hs & _ & Ha & _) & _).
  exists s. exact (conj Hs Ha).
Defined.

(** The account whose loss of the day counts: the one of the session's connection, in the
    currency of the account, which is that of the account state that was read or, when the
    account is LIVE, that of a snapshot fresh enough for new exposure. *)
Definition measured_account (e : evaluation) (p : RiskProfile) (b : BrokerConnection) (currency : string) (d : DB) (s : LossScope) : Prop :=
  ls_userId s = e_user e /\
  if is_live b then
    b_logicalAccountKey b = Some (ls_logicalAccountKey s) /\
    fresh_currency (e_user e) (e_broker e) (e_ids e) (b_id b) (set_profiles (<[e_user e := p]> (profiles d)) d) (ls_accountCurrency s)
  else
    trimmed_or_null (b_logicalAccountKey b) = Some (ls_logicalAccountKey s) /\
    trimmed_or_null (Some currency) = Some (ls_accountCurrency s).

Lemma measured_scope e p b currency live d rules rules' d' s :
  yields (load_live (e_broker e) (e_ids e) (e_user e) (e_trade e) p b) rules (set_profiles (<[e_user e := p]> (profiles d)) d) live rules' d' ->
  loss_scope (e_user e) b live currency s -> measured_account e p b currency d s.
Proof.
  intros (_ & Hl & Hc)%live_yields [Hu Hs]. split; [done|]. destruct live as [l|].
  - rewrite (proj1 Hl) by done. destruct Hs as [-> ->]. by apply Hc.
  - destruct (is_live b); [by destruct (proj2 Hl eq_refl)|done].
Qed.

(** C3: An approval is given within the limits of the account, in exact arithmetic.  When an
    evaluation that runs alone approves: the day's trades of the user can all be attributed to
    an account; the loss of the trades of exactly the account the session's connection names,
    in that account's currency, closed since midnight or the day's reset, when there is one, is
    below the percentage of the session's opening balance the profile allows; the equity is
    below the highest peak of the session, whichever is recorded, by less than the maximal
    drawdown of that peak; and the margin the broker requires is covered by the free margin.
    The currency of a LIVE account is that of its newest snapshot, observed anew when it is
    too old; of another account, that of the account state that was read. *)
Theorem approved_within_limits sha256 e d d' a :
  keyed d -> run (evaluate sha256 e) d = (d', Ok (APPROVED a)) ->
  exists p s b equity free currency et f,
    (profiles d !! e_user e = Some p \/ profiles d !! e_user e = None /\ p = default_profile (id_profile (e_ids e)) (e_user e)) /\
    sessions d !! ra_sessionId a = Some s /\ findConnectionById (s_brokerConnectionId s) (e_user e) d = Ok b /\
    (snd (run (read_account_state (at_clock (e_time e) (e_evidence e)) (b_id b)) d) = Ok (Some (et, free, currency)) /\
     parseBrokerDecimal et = Some equity /\ parseBrokerDecimal free = Some f) /\
    (exists ob scope, s_openingBalance s = Some ob /\ 0 < ob /\ measured_account e p b currency d scope /\
       let w := window_start (now d) (reset_at scope (now d) d) in
       let loss := Z.min 0 (msum (pnl_in scope w) (trades d)) in
       (forall id r, trades d !! id = Some r -> legacy (e_user e) w r = false) /\
       (loss < 0 -> (toQ (mkED (- loss) 8) < toQ (mkED ob 2) * toQ (mkED (rk_maxDailyLossPercent p) 2) * (1 # 100))%Q)) /\
    (exists peak, (0 < toQ peak)%Q /\ (toQ equity <= toQ peak)%Q /\
       (forall q, s_peakEquity s = Some q -> (toQ (mkED q 2) <= toQ peak)%Q) /\
       ((toQ peak - toQ equity) * 100 < toQ (mkED (rk_maxDrawdownPercent p) 2) * toQ peak)%Q) /\
    exists m r, x_requiredMargin (e_broker e) (pt_requestedLotSize (e_trade e)) = Ok m /\ parseBrokerDecimal m = Some r /\ (toQ r <= toQ f)%Q.
Proof.
  intros Hkey Hrun. apply approved_passed in Hrun as (p & s & b & eq & free & c & live & lot & q & t' & quote & d1 & d2 & d3 & d4 & d5 & H).
  destruct H as [_ (? & ? & Hp) (? & ? & Hs) (? & ? & Hb) (? & ? & Ha) (? & ? & Hlive) (? & ? & Hloss) (? & ? & Hdd) (? & ? & Hm) _ _ _
    (_ & [St2 Se2] & _) Hread (? & ? & Happ)].
  apply profile_yields in Hp as (_ & m & -> & -> & Hp). apply current_session in Hs; [|exact Hkey]. destruct Hs as [Hrow _ _ _ _ _ _].
  apply connection_yields in Hb as (_ & Hb & _). apply account_yields in Ha as (_ & et & Ha & Heq). cbn [fst snd] in Ha, Heq.
  apply approve_yields in Happ as (Ea & _). apply margin_yields in Hm as (_ & f & mg & r & Hf & Hmg & Hr & Hle).
  assert (canonical eq) as Ceq by (unfold parseBrokerDecimal in Heq; destruct et; [by eapply tryParse_canonical|done]).
  apply drawdown_yields in Hdd as (peak & Cp & Pp & Hep & Hpk & Hlim); [|done].
  apply loss_yields in Hloss as (_ & Hl); [|done].
  exists p, s, b, eq, free, c, et, f. rewrite Ea. split; [done|]. split; [exact Hrow|]. split; [done|]. split.
  { split; [|done]. by rewrite <- (account_profiles _ _ (<[e_user e := p]> (profiles d))), Ha. }
  split.
  { eapply loss_exact in Hl as (ob & scope & Hob & Hpos & Hscope & Hl); [|done]. exists ob, scope. do 2 (split; [done|]).
    split; [by eapply measured_scope|exact Hl]. }
  split; [|by exists mg, r].
  exists peak. do 2 (split; [done|]). split; [|done]. intros q0 Hq0. change (sessions (set_profiles _ d)) with (sessions d) in Hrow.
  specialize (Se2 (s_id s)). rewrite Hrow in Se2. destruct (sessions d2 !! s_id s) as [s2|] eqn:Hs2; [|done].
  destruct (se_peak _ _ Se2 q0 Hq0) as (q1 & Hq1 & Hle1). eapply Qle_trans; [|by apply (Hpk s2 q1)]. unfold toQ, Qle. cbn. lia.
Qed.

(** The sample's day with a trade of the account that lost [loss], in units of 10^-8. *)
Definition losing_trade (loss : Z) : TradeRow :=
  mkTrade "t0" "u1" "k0" None Trade.CLOSED None None (Some 80000) None None None (Some "acct") (Some "USD") None (Some (- loss))
    "b1" None "EURUSD" "BUY" 1000 None None None None.

Definition losing_db (loss : Z) : DB := set_trades {["t0" := losing_trade loss]} (risk_db "LIVE" 90000 "USD").

Lemma losing_db_keyed loss : keyed (losing_db loss).
Proof.
  intros k s Hs. change (({["s1" := risk_session]} : gmap string TradingSession) !! k = Some s) in Hs.
  by apply lookup_singleton_Some in Hs as [<- <-].
Qed.

(** Five percent of ten thousand is allowed: a day that lost four hundred is approved, and one
    that lost five hundred is not. *)
Lemma approved_within_limits_witness :
  let e := sample_evaluation "10000" "1.0950" "0.1" in
  let d := losing_db (400 * 10 ^ 8) in
  keyed d /\ (exists d' a, run (evaluate hash_id e) d = (d', Ok (APPROVED a)) /\
    exists p s b currency scope peak equity, sessions d !! ra_sessionId a = Some s /\ measured_account e p b currency d scope /\
      (toQ equity <= toQ peak)%Q) /\
  exists d', run (evaluate hash_id e) (losing_db (500 * 10 ^ 8)) = (d', Ok (SUSPENDED "sig9" DAILY_LOSS_LIMIT_REACHED)).
Proof.
  intros e d. split; [apply losing_db_keyed|]. split; [|eexists; vm_compute; reflexivity].
  destruct (run (evaluate hash_id e) d) as [d' [[a|s k|s k]|err]] eqn:Hr; try (exfalso; vm_compute in Hr; discriminate Hr).
  exists d', a. split; [reflexivity|].
  destruct (approved_within_limits hash_id e d d' a (losing_db_keyed _) Hr)
    as (p & s & b & equity & free & c & et & f & _ & Hs & _ & _ & (ob & scope & _ & _ & Hm & _) & (peak & _ & Hle & _) & _).
  exists p, s, b, c, scope, peak, equity. exact (conj Hs (conj Hm Hle)).
Defined.

(** C18: An approved order is bounded, in exact arithmetic.  When an evaluation that runs alone
    approves, the quantity is no larger than the profile allows, unless an allocation-aware demo
    order was sized elsewhere; and, where the entry and the contract size are known, which they
    are on every LIVE account that dispatches, the loss at the approved stop is at most the
    percentage of the equity the profile allows, and the notional is below the allowed multiple
    of the equity.  Amounts in the quote currency of the order's instrument are converted at one
    when the account is in that currency; when it is in the base currency, at the stop for the
    loss and at the entry for the notional; and otherwise at the rate the market proves: the
    cached one ([cached_rate]: the bid of a fresh quote, one over the ask of the inverse pair,
    or the product of two through USD), or, when there is none, the bid of a quote of the pair
    of the last minute.  The bound holds of a quantity that is not negative, a positive entry
    and, for an account in the base currency, a positive stop. *)
Theorem approved_exposure_bounded sha256 e d d' a :
  keyed d -> run (evaluate sha256 e) d = (d', Ok (APPROVED a)) ->
  exists p s b equity et q free currency t',
    (profiles d !! e_user e = Some p \/ profiles d !! e_user e = None /\ p = default_profile (id_profile (e_ids e)) (e_user e)) /\
    sessions d !! ra_sessionId a = Some s /\ findConnectionById (s_brokerConnectionId s) (e_user e) d = Ok b /\
    (snd (run (read_account_state (at_clock (e_time e) (e_evidence e)) (b_id b)) d) = Ok (Some (et, free, currency)) /\
     parseBrokerDecimal et = Some equity) /\
    (tryParse_text (vo_lotSize (ra_validatedOrder a)) = Some q /\
     (allocationAwareDemoSizing (e_trade e) b = false -> (toQ q <= toQ (mkED (rk_maxPositionSizeLot p) 4))%Q)) /\
    vo_stopLoss (ra_validatedOrder a) = default "" (pt_stopLoss t') /\ vo_instrument (ra_validatedOrder a) = pt_instrument t' /\
    controlled (e_evidence e) (e_time e) (e_trade e) t' p s b equity q currency.
Proof.
  intros Hkey Hrun. apply approved_passed in Hrun as (p & s & b & eq & free & c & live & lot & q & t' & quote & d1 & d2 & d3 & d4 & d5 & H).
  destruct H as [_ (? & ? & Hp) (? & ? & Hs) (? & ? & Hb) (? & ? & Ha) _ _ _ _ (? & ? & Hz) (? & ? & ? & ? & Hc) _ _ _ (? & ? & Happ)].
  apply profile_yields in Hp as (_ & m & -> & _ & Hp). apply current_session in Hs; [|exact Hkey]. destruct Hs as [Hrow _ _ _ _ _ _].
  apply connection_yields in Hb as (_ & Hb & _). apply account_yields in Ha as (_ & et & Ha & Heq). cbn [fst snd] in Ha, Heq.
  apply approve_yields in Happ as (Ea & _ & _ & -> & _). apply size_yields in Hz as (Hq & Cq & Hmax).
  assert (canonical eq) as Ceq by (unfold parseBrokerDecimal in Heq; destruct et; [by eapply tryParse_canonical|done]).
  exists p, s, b, eq, et, q, free, c, t'. rewrite Ea. split; [done|]. split; [exact Hrow|]. split; [done|].
  split; [split; [by rewrite <- (account_profiles _ _ m), Ha|done]|]. do 3 (split; [done|]). by eapply controls_yields.
Qed.

Lemma approved_exposure_bounded_witness :
  let e := sample_evaluation "10000" "1.0950" "0.1" in
  let d := risk_db "LIVE" 90000 "USD" in
  keyed d /\ exists d' a, run (evaluate hash_id e) d = (d', Ok (APPROVED a)) /\
    exists p s b equity q currency t', controlled (e_evidence e) (e_time e) (e_trade e) t' p s b equity q currency.
Proof.
  intros e d. split; [apply risk_db_keyed|].
  destruct (run (evaluate hash_id e) d) as [d' [[a|s k|s k]|err]] eqn:Hr; try (exfalso; vm_compute in Hr; discriminate Hr).
  exists d', a. split; [reflexivity|].
  destruct (approved_exposure_bounded hash_id e d d' a (risk_db_keyed _ _ _) Hr)
    as (p & s & b & equity & et & q & free & c & t' & _ & _ & _ & _ & _ & _ & _ & Hc).
  exists p, s, b, equity, q, c, t'. exact Hc.
Defined.

(** ** What the limits are measured with *)

(** The loss at the stop of the sample's order of [lots], in cents. *)
Definition loss_at_stop (lots stop : ED) : Q := ((toQ (mkED 11000 4) - toQ stop) * toQ lots * 100000)%Q.

(** The limits of a LIVE order can be measured with an equity the approval's own snapshot
    contradicts.  The equity and the free margin are read from the latest snapshot however old
    it is; when that one is too old for new exposure, a fresh one is observed, and the grant is
    bound to it, but the equity is not read again.  Here the old snapshot says ten thousand, the
    fresh one says one thousand, and an order is approved whose loss at the stop is fifteen
    percent of the account, on an account that has lost nine tenths of its peak, where the
    profile allows two and ten percent. *)
Theorem stale_equity_trusted :
  exists d' a g s,
    run (evaluate hash_id (sample_evaluation "1000" "1.0950" "0.3")) (risk_db "LIVE" 60000 "USD") = (d', Ok (APPROVED a)) /\
    snapshots d' !! ("b1", 2) = Some s /\ sn_equity s = Some (1000 * 10 ^ 8) /\
    grants d' !! ra_grantId a = Some g /\ g_accountSnapshotId g = Some (sn_id s) /\
    vo_lotSize (ra_validatedOrder a) = "0.3" /\ vo_stopLoss (ra_validatedOrder a) = "1.0950" /\
    (loss_at_stop (mkED 3 1) (mkED 1095 3) == 15 * (1 # 100) * toQ (mkED 1000 0))%Q /\
    (rk_maxTradeRiskPercent <$> profiles d' !! "u1") = Some 200 /\ (rk_maxDrawdownPercent <$> profiles d' !! "u1") = Some 1000 /\
    (s_peakEquity <$> sessions d' !! "s1") = Some (Some 1000000).
Proof.
  eexists _, _, _, _. split; [vm_compute; reflexivity|]. repeat (split; [vm_compute; reflexivity|]). vm_compute. reflexivity.
Qed.

(** The per-trade controls do not look at signs, and admit a risk equal to the limit.  An
    account in the base currency converts the risk at the stop: with a negative stop the risk
    is negative, and an order that would lose far more than the account is approved; so is an
    order of a negative quantity; and an order that risks exactly the percentage the profile
    allows. *)
Theorem per_trade_controls_admit :
  (exists d' a, run (evaluate hash_id (sample_evaluation "10000" "-1" "1")) (risk_db "DEMO" 90000 "EUR") = (d', Ok (APPROVED a)) /\
     vo_stopLoss (ra_validatedOrder a) = "-1" /\ (loss_at_stop (mkED 1 0) (mkED (-1) 0) == 21 * toQ (mkED 10000 0))%Q) /\
  (exists d' a, run (evaluate hash_id (sample_evaluation "10000" "1.0950" "-1")) (risk_db "LIVE" 90000 "USD") = (d', Ok (APPROVED a)) /\
     vo_lotSize (ra_validatedOrder a) = "-1") /\
  (exists d' a, run (evaluate hash_id (sample_evaluation "10000" "1.0950" "0.4")) (risk_db "LIVE" 90000 "USD") = (d', Ok (APPROVED a)) /\
     vo_lotSize (ra_validatedOrder a) = "0.4" /\ (loss_at_stop (mkED 4 1) (mkED 1095 3) == 2 * (1 # 100) * toQ (mkED 10000 0))%Q).
Proof. split; [|split]; vm_compute; do 2 eexists; (split; [reflexivity|]); repeat split. Qed.
