(* ===== verification/Sessions.v ===== *)
(** * Trading sessions ([execution/execution.service.ts], session management)

    [startSession], [changeExecutionMode], [resumeRiskSuspendedSession], [endSession], the reads
    of the current session and the invalidation of the authority bound to a generation.  A
    session's state is changed by conditional updates on the observed status and generation; the
    partial unique index [uq_trading_sessions_one_active_per_user] is checked by the [INSERT] and
    by the [UPDATE] that activates.  The risk-profile snapshot of a session, [updatedAt] and the
    pauses between re-reads are left out.

    The theorems: what interleaved control calls leave of a session, that a stop and a change of
    mode fence every grant given before them, what each call does alone; and how a start that
    races a suspension, or a restart, gets around the suspension. *)

From S2P Require Import Prelude Prog StateMachines JsString Decimal Store OrderService RiskGrants Authority Boundary Capital.
From S2P Require Import Assured RiskSession.
Open Scope string_scope.
Open Scope list_scope.
Open Scope Z_scope.

(** ** Reads *)

Definition current_statuses : list Session.TradingSessionStatus :=
  [Session.ACTIVE; Session.PAUSED; Session.SUSPENDED_RISK_LIMIT; Session.SUSPENDED_BROKER].

Definition current_sessions (userId : string) (d : DB) : list TradingSession :=
  List.filter (fun s => bool_decide (s_userId s = userId) && mem (s_status s) current_statuses) (map snd (map_to_list (sessions d))).

(** [findOne({ where: { id, userId } })]. *)
Definition owned (sessionId userId : string) (d : DB) : option TradingSession :=
  match sessions d !! sessionId with Some s => if bool_decide (s_userId s = userId) then Some s else None | None => None end.

(** ** Statements *)

Record OpeningBinding := mkOpening {
  ob_accountCurrency : string; ob_openingSnapshotId : string; ob_openingSnapshotGeneration : Z; ob_initialPeakEquity : string }.

(** The row [startSession] inserts, at [t]. *)
Definition session_row (id userId brokerConnectionId openingBalance : string) (mode : ExecutionMode) (binding : option OpeningBinding)
    (t : Z) : result exn TradingSession :=
  (try! balance := numeric_column 15 2 openingBalance in
   try! peak := numeric_column 15 2 (from_option ob_initialPeakEquity openingBalance binding) in
   Ok (mkSession id userId brokerConnectionId mode 1 Session.ACTIVE t (Some balance) (Some peak)
         (ob_accountCurrency <$> binding) (ob_openingSnapshotId <$> binding) (ob_openingSnapshotGeneration <$> binding) None false))%result.

(** Another session of the user is ACTIVE. *)
Definition another_active (id userId : string) (d : DB) : bool :=
  existsb (fun '(id', s) => negb (bool_decide (id' = id)) && bool_decide (s_userId s = userId) && session_active s)
    (map_to_list (sessions d)).

Definition one_active_index : exn := UniqueViolation "uq_trading_sessions_one_active_per_user".

Definition session_insert (row : Z -> result exn TradingSession) (d : DB) : DB * result exn unit :=
  match row (now d) with
  | Err e => (d, Err e)
  | Ok s =>
      if bool_decide (is_Some (sessions d !! s_id s)) then (d, Err (UniqueViolation "trading_sessions_pkey"))
      else if another_active (s_id s) (s_userId s) d then (d, Err one_active_index)
      else (set_sessions (<[s_id s := s]> (sessions d)) d, Ok tt)
  end.

(** [UPDATE .. SET authority_generation = authority_generation + 1, .. WHERE id AND user_id AND
    status AND authority_generation]; [set] is given the clock. *)
Definition session_cas (id userId : string) (status : Session.TradingSessionStatus) (observed : Z)
    (set : Z -> TradingSession -> result exn TradingSession) (d : DB) : DB * result exn Z :=
  match sessions d !! id with
  | Some s =>
      if bool_decide (s_userId s = userId) && bool_decide (s_status s = status) && (s_authorityGeneration s =? observed) then
        match set (now d) s with
        | Err e => (d, Err e)
        | Ok s' =>
            if negb (observed <? MAX_INT4) then (d, Err NumericOverflow)
            else if session_active s' && another_active id userId d then (d, Err one_active_index)
            else (set_sessions (<[id := s']> (sessions d)) d, Ok 1)
        end
      else (d, Ok 0)
  | None => (d, Ok 0)
  end.

Definition mode_patch (mode : ExecutionMode) (_ : Z) (s : TradingSession) : result exn TradingSession :=
  Ok (session_patch mode (s_authorityGeneration s + 1) (s_status s) (s_peakEquity s) (s_endedAt s) (s_closeAiPositionsOnStop s) s).

(** A blank text is no reset: [options.resetPeakEquityTo ? ..]. *)
Definition resume_patch (resetPeakEquityTo : option string) (_ : Z) (s : TradingSession) : result exn TradingSession :=
  (try! peak := match resetPeakEquityTo with
                | Some raw => if bool_decide (raw = "") then Ok (s_peakEquity s) else rmap Some (numeric_column 15 2 raw)
                | None => Ok (s_peakEquity s)
                end in
   Ok (session_patch (s_executionMode s) (s_authorityGeneration s + 1) Session.ACTIVE peak (s_endedAt s)
         (s_closeAiPositionsOnStop s) s))%result.

Definition end_patch (status : Session.TradingSessionStatus) (close : bool) (endedAt : option Z) (t : Z) (s : TradingSession)
    : result exn TradingSession :=
  Ok (session_patch (s_executionMode s) (s_authorityGeneration s + 1) status (s_peakEquity s)
        (if bool_decide (status = Session.ENDED) then Some t else endedAt) (close || s_closeAiPositionsOnStop s) s).

(** [sessionRepo.update({ id, userId }, { closeAiPositionsOnStop: true })]. *)
Definition mark_close (id userId : string) (d : DB) : DB * result exn Z :=
  let '(m, n) := update_row (fun s => bool_decide (s_userId s = userId))
    (fun s => session_patch (s_executionMode s) (s_authorityGeneration s) (s_status s) (s_peakEquity s) (s_endedAt s) true s)
    id (sessions d) in
  (set_sessions m d, Ok n).

(** The authority bound to a session at a generation. *)
Definition grant_bound (sessionId : string) (observed : Z) (g : RiskGrant) : bool :=
  bool_decide (g_sessionId g = sessionId) && grant_active g && (g_sessionGeneration g =? observed).
Definition confirmation_bound (sessionId : string) (observed : Z) (c : Confirmation) : bool :=
  bool_decide (c_sessionId c = sessionId) && pending c && (c_sessionGeneration c =? observed).

(** ** The service *)

Definition SESSION_AUTHORITY_GENERATION_CHANGED : string := "SESSION_AUTHORITY_GENERATION_CHANGED".

Section service.
Local Open Scope prog_scope.

Definition findCurrentSessionOrdered (userId : string) : io (option TradingSession) :=
  sel (fun d => first_of by_generation (current_sessions userId d)).

Definition findActiveSessionOrdered (userId : string) : io (option TradingSession) :=
  sel (fun d => first_of by_generation (active_sessions userId d)).

Definition getActiveSession : string -> io (option TradingSession) := findActiveSessionOrdered.

(** [status != 'ENDED'], of all columns. *)
Definition getActiveSessionForClient (userId : string) : io (option TradingSession) :=
  sel (fun d => first_of by_generation
                  (List.filter (fun s => bool_decide (s_userId s = userId) && negb (bool_decide (s_status s = Session.ENDED)))
                     (map snd (map_to_list (sessions d))))).

Definition findSessionById (sessionId : string) : io (option TradingSession) := sel (fun d => sessions d !! sessionId).

(** [attempts] reads at most. *)
Fixpoint findActiveSessionOrderedWithRetry (attempts : nat) (userId : string) : io (option TradingSession) :=
  match attempts with
  | O => Ret None
  | S attempts =>
      let* session := findActiveSessionOrdered userId in
      match session with
      | Some s => Ret (Some s)
      | None => findActiveSessionOrderedWithRetry attempts userId
      end
  end.

Definition assertStartMatchesExistingAuthority (existing : TradingSession) (connectionId : string) (mode : ExecutionMode) : io unit :=
  if negb (bool_decide (s_brokerConnectionId existing = connectionId)) || negb (bool_decide (s_executionMode existing = mode))
  then Throw (SessionError ACTIVE_SESSION_CONFLICT)
  else Ret tt.

Definition invalidateOutstandingAuthority (sessionId : string) (observed : Z) (reason : string) : io (Z * Z) :=
  let* grants := op (grants_update_where (grant_bound sessionId observed) (invalidate_patch reason)) in
  let* confirmations := op (confirmations_update_where (confirmation_bound sessionId observed) revoke_patch) in
  Ret (grants, confirmations).

(** The connection a session may be started on. *)
Definition eligible_connection (userId brokerConnectionId : string) : io BrokerConnection :=
  let* found := sel (fun d => connections d !! brokerConnectionId) in
  match found with
  | None => Throw (NotFoundException "Broker connection not found")
  | Some b =>
      if negb (bool_decide (b_userId b = userId)) then Throw (SessionError BROKER_CONNECTION_NOT_OWNED)
      else if negb (bool_decide (b_status b = B_CONNECTED)) then Throw (SessionError BROKER_CONNECTION_NOT_CONNECTED)
      else if negb (Authorization.isExecutable (b_authorizationStatus b)) then Throw (SessionError BROKER_CONNECTION_NOT_EXECUTABLE)
      else Ret b
  end.

(** The [INSERT] and its read back; [sessionId] is the drawn uuid. *)
Definition createSession (sessionId userId brokerConnectionId openingBalance : string) (mode : ExecutionMode)
    (binding : option OpeningBinding) : io TradingSession :=
  catch
    (do! op (session_insert (session_row sessionId userId brokerConnectionId openingBalance mode binding)) in
     let* created := findSessionById sessionId in
     match created with Some s => Ret s | None => Throw (PlainError "Trading session vanished right after insertion") end)
    (fun err =>
       if isUniqueViolation err then
         let* winner := findActiveSessionOrderedWithRetry 3 userId in
         match winner with
         | Some s => do! assertStartMatchesExistingAuthority s brokerConnectionId mode in Ret s
         | None => Throw err
         end
       else Throw err).

Definition startSession (sessionId userId brokerConnectionId openingBalance : string) (mode : ExecutionMode)
    (binding : option OpeningBinding) : io TradingSession :=
  do! eligible_connection userId brokerConnectionId in
  let* existing := findCurrentSessionOrdered userId in
  match existing with
  | Some s =>
      if negb (session_active s) then Throw (SessionError SESSION_SUSPENDED)
      else do! assertStartMatchesExistingAuthority s brokerConnectionId mode in Ret s
  | None => createSession sessionId userId brokerConnectionId openingBalance mode binding
  end.

(** The conflict reports the reloaded row. *)
Definition generation_conflict {A} (sessionId userId : string) : io A :=
  do! sel (owned sessionId userId) in Throw (SessionError SESSION_AUTHORITY_GENERATION_CONFLICT).

Definition found {A} (o : option A) : io A := match o with Some a => Ret a | None => Throw (NotFoundException "Trading session not found") end.

Definition changeExecutionMode (userId sessionId : string) (newMode : ExecutionMode) : io TradingSession :=
  let* session := sel (owned sessionId userId) in
  let* session := found session in
  if negb (session_active session) then Throw SessionAuthorityNotActive
  else
    let observed := s_authorityGeneration session in
    let* affected := op (session_cas sessionId userId Session.ACTIVE observed (mode_patch newMode)) in
    if affected =? 0 then generation_conflict sessionId userId
    else
      do! invalidateOutstandingAuthority sessionId observed SESSION_AUTHORITY_GENERATION_CHANGED in
      do! audit_log (mkAudit (Some userId) "TRADING_SESSION_MODE_CHANGED" "TradingSession" sessionId
                       SESSION_AUTHORITY_GENERATION_CHANGED) in
      let* reloaded := findSessionById sessionId in
      found reloaded.

Definition resumeRiskSuspendedSession (userId sessionId : string) (resetPeakEquityTo : option string) : io TradingSession :=
  let* session := sel (owned sessionId userId) in
  let* session := found session in
  if negb (bool_decide (s_status session = Session.SUSPENDED_RISK_LIMIT))
  then Throw (ConflictException "only SUSPENDED_RISK_LIMIT may be resumed by this action")
  else
    match Session.assert (Known (s_status session)) Session.ACTIVE with
    | Err transition => Throw (InvalidSessionTransition transition)
    | Ok _ =>
        let observed := s_authorityGeneration session in
        let* affected := op (session_cas sessionId userId Session.SUSPENDED_RISK_LIMIT observed (resume_patch resetPeakEquityTo)) in
        if affected =? 0 then generation_conflict sessionId userId
        else
          do! invalidateOutstandingAuthority sessionId observed SESSION_AUTHORITY_GENERATION_CHANGED in
          let* reloaded := sel (owned sessionId userId) in
          found reloaded
    end.

(** The mark a stop leaves on a session that ended meanwhile. *)
Definition mark_ended (close : bool) (sessionId userId : string) : io unit :=
  if close then do! op (mark_close sessionId userId) in Ret tt else Ret tt.

(** [attempts] is what is left of [maxAttempts]. *)
Fixpoint end_attempts (attempts : nat) (userId : string) (status : Session.TradingSessionStatus) (close : bool)
    (expectedSessionId : option string) : io unit :=
  match attempts with
  | O => Ret tt
  | S attempts =>
      let* session := findCurrentSessionOrdered userId in
      match session with
      | None => mark_ended (close && present expectedSessionId) (default "" expectedSessionId) userId
      | Some session =>
          if present expectedSessionId && negb (bool_decide (expectedSessionId = Some (s_id session)))
          then Throw (ConflictException "Trading session changed while stopping")
          else
            match Session.assert (Known (s_status session)) status with
            | Err transition => Throw (InvalidSessionTransition transition)
            | Ok _ =>
                let observed := s_authorityGeneration session in
                let* affected := op (session_cas (s_id session) userId (s_status session) observed
                                       (end_patch status close (s_endedAt session))) in
                if negb (affected =? 0) then
                  do! invalidateOutstandingAuthority (s_id session) observed SESSION_AUTHORITY_GENERATION_CHANGED in Ret tt
                else
                  let* current := sel (owned (s_id session) userId) in
                  match current with
                  | None => Ret tt
                  | Some current =>
                      if bool_decide (s_status current = Session.ENDED) then mark_ended close (s_id current) userId
                      else if bool_decide (attempts = O)
                           then Throw (ConflictException "Trading session authority changed repeatedly while stopping")
                           else end_attempts attempts userId status close expectedSessionId
                  end
            end
      end
  end.

Definition endSession (userId : string) (status : Session.TradingSessionStatus) (close : bool) (expectedSessionId : option string)
    : io unit := end_attempts 4 userId status close expectedSessionId.
End service.

(** ** What a start comes to, alone

    The connection is the user's and executable; the current session is the one requested, or
    there is none ([Ok None]). *)
Definition start_verdict (userId brokerConnectionId : string) (mode : ExecutionMode) (d : DB) : result exn (option TradingSession) :=
  match connections d !! brokerConnectionId with
  | None => Err (NotFoundException "Broker connection not found")
  | Some b =>
      if negb (bool_decide (b_userId b = userId)) then Err (SessionError BROKER_CONNECTION_NOT_OWNED)
      else if negb (bool_decide (b_status b = B_CONNECTED)) then Err (SessionError BROKER_CONNECTION_NOT_CONNECTED)
      else if negb (Authorization.isExecutable (b_authorizationStatus b)) then Err (SessionError BROKER_CONNECTION_NOT_EXECUTABLE)
      else match first_of by_generation (current_sessions userId d) with
           | None => Ok None
           | Some s =>
               if negb (session_active s) then Err (SessionError SESSION_SUSPENDED)
               else if bool_decide (s_brokerConnectionId s = brokerConnectionId) && bool_decide (s_executionMode s = mode) then Ok (Some s)
               else Err (SessionError ACTIVE_SESSION_CONFLICT)
           end
  end.

(** ** Calls *)

Inductive scall :=
| SStart (sessionId userId brokerConnectionId openingBalance : string) (mode : ExecutionMode) (binding : option OpeningBinding)
| SChange (userId sessionId : string) (mode : ExecutionMode)
| SResume (userId sessionId : string) (resetPeakEquityTo : option string)
| SEnd (userId : string) (status : Session.TradingSessionStatus) (close : bool) (expectedSessionId : option string)
| SSuspend (userId code : string)
| SPeak (sessionId : string) (equity : ED)
| SRead (userId : string).

(** A call with its answer, if it answers a session. *)
Definition run_scall (c : scall) : io (scall * option TradingSession) :=
  match c with
  | SStart id u b balance mode binding => bind (startSession id u b balance mode binding) (fun s => Ret (c, Some s))
  | SChange u id mode => bind (changeExecutionMode u id mode) (fun s => Ret (c, Some s))
  | SResume u id reset => bind (resumeRiskSuspendedSession u id reset) (fun s => Ret (c, Some s))
  | SEnd u status close expected => bind (endSession u status close expected) (fun _ => Ret (c, None))
  | SSuspend u code => bind (suspendSessionForRiskLimit u code) (fun _ => Ret (c, None))
  | SPeak id e => bind (maintainMonotonicPeak id e) (fun _ => Ret (c, None))
  | SRead u => bind (getActiveSessionForClient u) (fun s => Ret (c, s))
  end.

(** ** Evolution of sessions

    What a session is of never changes; its status moves along the table, and only with the
    generation, as does its mode; within a generation its peak never falls.  [ENDED] is final. *)

Record session_follows (s s' : TradingSession) : Prop := {
  sf_id : s_id s' = s_id s;
  sf_user : s_userId s' = s_userId s;
  sf_connection : s_brokerConnectionId s' = s_brokerConnectionId s;
  sf_opening : s_startedAt s' = s_startedAt s /\ s_openingBalance s' = s_openingBalance s /\ s_accountCurrency s' = s_accountCurrency s /\
    s_openingSnapshotId s' = s_openingSnapshotId s /\ s_openingSnapshotGeneration s' = s_openingSnapshotGeneration s;
  sf_status : reach Session.ALLOWED_SESSION_TRANSITIONS (s_status s) (s_status s');
  sf_generation : s_authorityGeneration s <= s_authorityGeneration s';
  sf_same : s_authorityGeneration s' = s_authorityGeneration s ->
    s_status s' = s_status s /\ s_executionMode s' = s_executionMode s /\ s_endedAt s' = s_endedAt s /\
    forall p, s_peakEquity s = Some p -> exists p', s_peakEquity s' = Some p' /\ p <= p';
  sf_close : s_closeAiPositionsOnStop s = true -> s_closeAiPositionsOnStop s' = true }.

#[export] Instance session_follows_preorder : PreOrder session_follows.
Proof.
  split.
  - intros s. split; try done. intros _. do 3 (split; [done|]). intros p Hp. exists p. split; [done|lia].
  - intros x y z Hxy Hyz. destruct Hxy as [? ? ? H1 ? Hg Hs Hc], Hyz as [? ? ? H2 ? Hg' Hs' Hc']. split; [congruence..| | | | |auto].
    + destruct H1 as (? & ? & ? & ? & ?), H2 as (? & ? & ? & ? & ?). repeat split; congruence.
    + by etransitivity.
    + lia.
    + intros E. destruct Hs as (? & ? & ? & Hp); [lia|]. destruct Hs' as (? & ? & ? & Hp'); [lia|].
      do 3 (split; [congruence|]). intros p Hx. destruct (Hp p Hx) as (q & Hq & Hle). destruct (Hp' q Hq) as (r & Hr & Hle').
      exists r. split; [done|lia].
Qed.

(** An update that raises the generation. *)
Lemma follows_raised mode status peak ended close s :
  step Session.ALLOWED_SESSION_TRANSITIONS (s_status s) status \/ status = s_status s ->
  (s_closeAiPositionsOnStop s = true -> close = true) ->
  session_follows s (session_patch mode (s_authorityGeneration s + 1) status peak ended close s).
Proof.
  intros Hst Hc. split; cbn; try done; try lia. destruct Hst as [Hst| ->]; [by apply rtc_once|by apply rtc_refl].
Qed.

Definition session_wf (d : DB) : Prop := indexed s_id session_active s_userId (sessions d).
Definition session_rel (d d' : DB) : Prop := rows_evolve session_follows (sessions d) (sessions d').

#[export] Instance session_rel_preorder : PreOrder session_rel.
Proof.
  split.
  - intros d id s Hs. exists s. split; [done|reflexivity].
  - intros x y z H H' id s Hs. destruct (H id s Hs) as (t & Ht & Hf). destruct (H' id t Ht) as (u & Hu & Hf'). exists u.
    split; [done|by etransitivity].
Qed.

(** What a statement on the sessions keeps. *)
Definition keeps (d d' : DB) : Prop := (session_wf d -> session_wf d') /\ session_rel d d'.

#[export] Instance keeps_preorder : PreOrder keeps.
Proof.
  split; [intros d; by split|]. intros x y z [? ?] [? ?]. split; [auto|by etransitivity].
Qed.

Lemma same_keeps d d' : sessions d' = sessions d -> keeps d d'.
Proof. intros E. unfold keeps, session_wf, session_rel. rewrite E. split; [done|]. intros id s Hs. exists s. split; [done|reflexivity]. Qed.

Lemma put_keeps id s s' d :
  sessions d !! id = Some s -> session_follows s s' ->
  (session_active s' = true -> session_active s = true \/ another_active id (s_userId s) d = false) ->
  keeps d (set_sessions (<[id := s']> (sessions d)) d).
Proof.
  intros Hs Hf Ha. split; [|intros i x Hx; by apply (rows_insert_evolve session_follows id s s')].
  intros [Hid Hslot]. assert (forall i x, i <> id -> sessions d !! i = Some x -> session_active x = true ->
    session_active s' = true -> s_userId x <> s_userId s') as Hfree.
  { intros i x Hne Hx Hax Has Hu. rewrite (sf_user _ _ Hf) in Hu. destruct (Ha Has) as [Hact|Hno].
    - apply Hne. by apply (Hslot i id x s).
    - unfold another_active in Hno. assert (existsb (fun '(id', s0) => negb (bool_decide (id' = id)) &&
        bool_decide (s_userId s0 = s_userId s) && session_active s0) (map_to_list (sessions d)) = true) as Hyes; [|congruence].
      apply existsb_exists. exists (i, x). rewrite <- list_elem_of_In, elem_of_map_to_list. split; [done|].
      by rewrite bool_decide_eq_false_2, bool_decide_eq_true_2, Hax. }
  split; cbn.
  - intros i x. rewrite lookup_insert_Some. intros [[<- <-]|[_ Hx]]; [|by apply Hid]. rewrite (sf_id _ _ Hf). by apply Hid.
  - intros i j x y. rewrite !lookup_insert_Some. intros [[<- <-]|[Hi Hx]] [[<- <-]|[Hj Hy]] Lx Ly Heq; [done| | |by eapply Hslot];
      exfalso; [by apply (Hfree j y)|by apply (Hfree i x)].
Qed.

Lemma new_keeps s d :
  sessions d !! s_id s = None -> another_active (s_id s) (s_userId s) d = false -> keeps d (set_sessions (<[s_id s := s]> (sessions d)) d).
Proof.
  intros Hn Hno. split.
  - apply indexed_insert; [done|]. intros _ i x Hx Hax Hu. unfold another_active in Hno.
    apply not_true_iff_false in Hno. apply Hno, existsb_exists. exists (i, x). rewrite <- list_elem_of_In, elem_of_map_to_list.
    split; [done|]. rewrite bool_decide_eq_false_2, bool_decide_eq_true_2, Hax; [done|done|]. intros ->. congruence.
  - intros i x Hx. exists x. cbn. rewrite lookup_insert_ne by congruence. split; [done|reflexivity].
Qed.

(** ** Statements *)

Lemma session_row_opens id u b balance mode binding t s :
  session_row id u b balance mode binding t = Ok s ->
  s_id s = id /\ s_userId s = u /\ s_brokerConnectionId s = b /\ s_executionMode s = mode /\ s_status s = Session.ACTIVE.
Proof. unfold session_row. intros (x & _ & H)%rbind_ok. apply rbind_ok in H as (y & _ & H). by injection H as <-. Qed.

Lemma session_insert_cases row d :
  (fst (session_insert row d) = d /\ forall x, snd (session_insert row d) <> Ok x) \/
  exists s, row (now d) = Ok s /\ sessions d !! s_id s = None /\ another_active (s_id s) (s_userId s) d = false /\
    session_insert row d = (set_sessions (<[s_id s := s]> (sessions d)) d, Ok tt).
Proof.
  unfold session_insert. destruct (row (now d)) as [s|e]; [|by left]. case_bool_decide as Hs; [by left|].
  destruct (another_active _ _ d) eqn:Ha; [by left|]. right. exists s. split; [done|]. split; [|done].
  destruct (sessions d !! s_id s); [|done]. exfalso. apply Hs. eauto.
Qed.

Lemma session_insert_keeps row d : keeps d (fst (session_insert row d)).
Proof.
  destruct (session_insert_cases row d) as [[-> _]|(s & _ & Hn & Ha & ->)]; [reflexivity|]. by apply new_keeps.
Qed.

(** What an update writes over an observed row. *)
Definition raises (status : Session.TradingSessionStatus) (set : Z -> TradingSession -> result exn TradingSession) : Prop :=
  forall t s s', s_status s = status -> set t s = Ok s' ->
    session_follows s s' /\ s_authorityGeneration s' = s_authorityGeneration s + 1.

Lemma session_cas_cases id u status observed set d :
  let c := session_cas id u status observed set d in
  (fst c = d /\ forall n, snd c = Ok n -> n = 0) \/
  exists s s', sessions d !! id = Some s /\ s_userId s = u /\ s_status s = status /\ s_authorityGeneration s = observed /\
    set (now d) s = Ok s' /\ (session_active s' = true -> another_active id u d = false) /\
    c = (set_sessions (<[id := s']> (sessions d)) d, Ok 1).
Proof.
  intros c. unfold c, session_cas. destruct (sessions d !! id) as [s|] eqn:Hs; [|left; split; [done|]; by intros n [= <-]].
  destruct (_ && _) eqn:Hb; [|left; split; [done|]; by intros n [= <-]]. destruct (set (now d) s) as [s'|e] eqn:Hset; [|by left].
  destruct (observed <? MAX_INT4); cbn [negb]; [|by left]. destruct (session_active s' && _) eqn:Ha; [by left|]. right. exists s, s'.
  bool_to_prop. do 5 (split; [done|]). split; [|done]. intros E. by rewrite E in Ha.
Qed.

Lemma session_cas_keeps id u status observed set d :
  raises status set -> keeps d (fst (session_cas id u status observed set d)).
Proof.
  intros Hr. destruct (session_cas_cases id u status observed set d) as [[-> _]|(s & s' & Hs & <- & Hst & _ & Hset & Ha & ->)]; [reflexivity|].
  destruct (Hr _ _ _ Hst Hset) as [Hf _]. apply (put_keeps id s); [done..|]. intros E. right. by apply Ha.
Qed.

Lemma mode_raises mode status : raises status (mode_patch mode).
Proof. intros t s s' _ [= <-]. split; [|done]. apply follows_raised; [by right|done]. Qed.

Lemma resume_raises reset : raises Session.SUSPENDED_RISK_LIMIT (resume_patch reset).
Proof.
  intros t s s' Hst (peak & _ & H)%rbind_ok. injection H as <-. split; [|done]. apply follows_raised; [|done].
  left. by rewrite Hst.
Qed.

Lemma end_raises from to close ended :
  Session.assert (Known from) to = Ok tt -> raises from (end_patch to close ended).
Proof.
  unfold Session.assert, assertTransition. destruct (canTransition _ _ _) eqn:Hc; [|done]. intros _ t s s' <- [= <-].
  split; [|done]. apply follows_raised; [by left|]. intros ->. apply orb_true_r.
Qed.

Lemma mark_close_keeps id u d : keeps d (fst (mark_close id u d)).
Proof.
  unfold mark_close. destruct (update_row _ _ _ _) as [m n] eqn:E. apply update_row_cases in E as [(_ & -> & _)|(s & Hs & Hb & -> & _)].
  - by apply same_keeps.
  - apply (put_keeps id s); [done| |by left]. split; try done. intros _. do 3 (split; [done|]). intros p Hp. exists p. split; [done|lia].
Qed.

Lemma suspend_update_keeps id u d : keeps d (fst (suspend_update id u d)).
Proof.
  unfold suspend_update. destruct (update_row _ _ _ _) as [m n] eqn:E. apply update_row_cases in E as [(_ & -> & _)|(s & Hs & Hb & -> & _)].
  - by apply same_keeps.
  - apply (put_keeps id s); [done| |done]. apply follows_raised; [|done]. left. unfold session_active in Hb. bool_to_prop.
    by match goal with H : s_status s = _ |- _ => rewrite H end.
Qed.

Lemma peak_update_follows id fresh d : canonical fresh -> keeps d (fst (peak_update id fresh d)).
Proof.
  intros Hf. unfold peak_update. destruct (sessions d !! id) as [s|] eqn:Hs; [|reflexivity].
  destruct (peak_guard fresh s) eqn:Hg; [|reflexivity]. destruct (_ <? _); [|reflexivity]. apply (put_keeps id s); [done| |by left].
  split; try done. intros _. do 3 (split; [done|]). intros p Hp. unfold peak_guard in Hg. rewrite Hp in Hg.
  exists (to_units 2 fresh). split; [done|]. apply cents_le_Q in Hg; [|done]. by apply to_units_between; [|apply canonical_scale|].
Qed.

Lemma guar_outstanding id observed reason : guar keeps (invalidateOutstandingAuthority id observed reason).
Proof.
  unfold invalidateOutstandingAuthority. guar_walk; try apply keeps_preorder; apply guar_op; intros d; by apply same_keeps.
Qed.

Lemma guar_mark_ended close id u : guar keeps (mark_ended close id u).
Proof. unfold mark_ended. guar_walk; try apply keeps_preorder. apply guar_op. intros d. apply mark_close_keeps. Qed.

Lemma guar_session_log e : guar keeps (audit_log e).
Proof. unfold audit_log. guar_walk. apply guar_modify. intros d. by apply same_keeps. Qed.

Lemma guar_session_suspend u code : guar keeps (suspendSessionForRiskLimit u code).
Proof.
  unfold suspendSessionForRiskLimit, invalidateGrantsForSession. guar_walk; try apply keeps_preorder; [| |apply guar_session_log].
  - apply guar_op. intros d. apply suspend_update_keeps.
  - apply guar_op. intros d. by apply same_keeps.
Qed.

Lemma guar_session_peak id fresh : canonical fresh -> guar keeps (maintainMonotonicPeak id fresh).
Proof.
  intros Hf. unfold maintainMonotonicPeak. guar_walk; try apply keeps_preorder. apply guar_op. intros d. by apply peak_update_follows.
Qed.

(** ** What the calls answer

    A pool started at [d0]: what a call knows of the sessions, against those. *)

Section answers.
Context (d0 : DB).

Definition ground (d : DB) : Prop := session_wf d /\ session_rel d0 d.

Lemma ground_kept d d' : keeps d d' -> ground d -> ground d'.
Proof using. intros [Hw HR] [? ?]. split; [auto|by etransitivity]. Qed.

Abbreviation sure := (assured DbUnavailable ground keeps).

Lemma sure_kept {A} K (p : io A) : stable keeps K -> guar keeps p -> sure (fun _ => K) K p.
Proof using. apply assured_guar. apply ground_kept. Qed.

Lemma sure_write {X} (mid : X -> DB -> Prop) K (act : DB -> DB * result exn X) :
  (forall x, stable keeps (mid x)) -> (forall d, keeps d (fst (act d))) ->
  (forall d x, ground d -> K d -> snd (act d) = Ok x -> mid x (fst (act d))) -> sure mid K (op act).
Proof using.
  intros Hst Hk Hm. apply assured_op; [done|]. intros d Hi HK. split; [by apply (ground_kept d)|]. split; [done|]. intros x Hx. by apply Hm.
Qed.

Lemma any_stable : stable keeps (fun _ => True).
Proof using. by intros ???. Qed.

(** The row of a session, and what it became. *)
Definition stored_from (s : TradingSession) (d : DB) : Prop :=
  exists s', sessions d !! s_id s = Some s' /\ session_follows s s'.

Lemma stored_from_stable s : stable keeps (stored_from s).
Proof using.
  intros d d' [_ HR] (x & Hx & Hf). destruct (HR _ _ Hx) as (y & Hy & Hf'). exists y. split; [done|by etransitivity].
Qed.

(** *** Start *)

Definition starts (u b : string) (mode : ExecutionMode) (s : TradingSession) : Prop :=
  s_userId s = u /\ s_brokerConnectionId s = b /\ s_executionMode s = mode /\ s_status s = Session.ACTIVE.

(** The answered session is one the request asked for, or what became of it. *)
Definition start_says (u b : string) (mode : ExecutionMode) (s : TradingSession) (d : DB) : Prop :=
  stored_from s d /\ exists s1, starts u b mode s1 /\ session_follows s1 s.

Definition active_of (u : string) (o : option TradingSession) (d : DB) : Prop :=
  forall s, o = Some s -> stored_from s d /\ s_userId s = u /\ s_status s = Session.ACTIVE.

Lemma active_of_stable u o : stable keeps (active_of u o).
Proof using. intros d d' HR H s Hs. destruct (H s Hs) as (? & ? & ?). split; [by eapply stored_from_stable|done]. Qed.

Lemma session_stored id d s : ground d -> sessions d !! id = Some s -> stored_from s d.
Proof using. intros [[Hid _] _] Hs. exists s. rewrite (Hid id s Hs). split; [done|reflexivity]. Qed.

Lemma sure_active u K : sure (active_of u) K (findActiveSessionOrdered u).
Proof using.
  apply assured_read; [apply _|apply active_of_stable|]. intros d Hi _ s Hs%first_of_in. apply elem_of_sessions in Hs as (Hb & id & Hid).
  unfold session_active in Hb. bool_to_prop. split; [by eapply session_stored|done].
Qed.

Lemma sure_retry n u K : sure (active_of u) K (findActiveSessionOrderedWithRetry n u).
Proof using.
  revert K. induction n as [|n IH]; intros K; cbn [findActiveSessionOrderedWithRetry]; [by intros d _ _ s|].
  eapply assured_bind; [apply sure_active|]. intros [s|]; [by intros d _ H|apply IH].
Qed.

Lemma sure_session_match u b mode s :
  sure (start_says u b mode) (active_of u (Some s)) (bind (assertStartMatchesExistingAuthority s b mode) (fun _ => Ret s)).
Proof using.
  unfold assertStartMatchesExistingAuthority. destruct (_ || _) eqn:Hm; [done|]. intros d _ Ha. destruct (Ha s eq_refl) as (? & ? & ?).
  bool_to_prop. split; [done|]. exists s. split; [done|reflexivity].
Qed.

Lemma sure_session_create id u b balance mode binding K : sure (start_says u b mode) K (createSession id u b balance mode binding).
Proof using.
  unfold createSession. apply assured_catch.
  - eapply (assured_bind _ _ _ (fun _ d => exists s1, starts u b mode s1 /\ s_id s1 = id /\ stored_from s1 d)).
    + apply sure_write; [|apply session_insert_keeps|].
      * intros _ d d' HR (s1 & ? & ? & ?). exists s1. do 2 (split; [done|]). by eapply stored_from_stable.
      * intros d x [[Hid _] _] _ Hx.
        destruct (session_insert_cases (session_row id u b balance mode binding) d) as [[_ Hno]|(s & Hrow & _ & _ & E)]; [by destruct (Hno x)|].
        apply session_row_opens in Hrow as (? & ? & ? & ? & ?). exists s. split; [by split|]. split; [done|]. rewrite E. exists s.
        cbn. rewrite lookup_insert_eq. split; [done|reflexivity].
    + intros _. eapply (assured_bind _ _ _ (fun o d => forall s, o = Some s -> start_says u b mode s d)).
      * apply assured_read; [apply _| |].
        -- intros o d d' HR H s Hs. destruct (H s Hs) as [? ?]. split; [by eapply stored_from_stable|done].
        -- intros d Hi (s1 & ? & <- & (s' & Hs' & Hf)) s Hs. rewrite Hs' in Hs. injection Hs as <-. split; [by eapply session_stored|]. by exists s1.
      * intros [s|]; [|done]. intros d _ H. by apply H.
  - intros e. destruct (isUniqueViolation e); [|done]. eapply assured_bind; [apply sure_retry|]. intros [s|]; [apply sure_session_match|done].
Qed.

Lemma sure_start id u b balance mode binding K : sure (start_says u b mode) K (startSession id u b balance mode binding).
Proof using.
  unfold startSession. apply (assured_bind _ _ _ (fun _ _ => True)).
  { eapply assured_weaken; [|apply sure_kept; [apply any_stable|]]; [done|]. unfold eligible_connection. guar_walk; apply keeps_preorder. }
  intros _. eapply (assured_bind _ _ _ (fun o d => forall s, o = Some s -> session_active s = true -> active_of u (Some s) d)).
  - apply assured_read; [apply _| |].
    + intros o d d' HR H s Hs Ha x Hx. destruct (H s Hs Ha x Hx) as (? & ? & ?). split; [by eapply stored_from_stable|done].
    + intros d Hi _ s Hs%first_of_in Ha x [= <-]. apply elem_of_sessions in Hs as (Hb & k & Hk). unfold session_active in Ha. bool_to_prop.
      split; [by eapply session_stored|done].
  - intros [s|]; [|apply sure_session_create]. destruct (session_active s) eqn:Ha; cbn [negb]; [|done].
    eapply assured_weaken; [|apply sure_session_match]. intros d _ H. by apply H.
Qed.

(** *** Changes of mode and resumptions *)

(** The generation has moved past the one the session had at [d0]. *)
Definition raised (id : string) (d : DB) : Prop :=
  forall s0, sessions d0 !! id = Some s0 ->
    exists s, sessions d !! id = Some s /\ s_authorityGeneration s0 < s_authorityGeneration s.

Lemma raised_stable id : stable keeps (raised id).
Proof using.
  intros d d' [_ HR] H s0 Hs0. destruct (H s0 Hs0) as (s & Hs & Hlt). destruct (HR _ _ Hs) as (s' & Hs' & Hf). exists s'.
  split; [done|]. pose proof (sf_generation _ _ Hf). lia.
Qed.

Lemma cas_raised id u status observed set d n :
  raises status set -> ground d -> snd (session_cas id u status observed set d) = Ok n -> n <> 0 ->
  raised id (fst (session_cas id u status observed set d)).
Proof using.
  intros Hset [_ HR] Hn Hne s0 Hs0. destruct (session_cas_cases id u status observed set d) as [[_ Hz]|(s & s' & Hs & _ & Hst & _ & Hp & _ & ->)].
  { by destruct Hne; apply Hz. }
  destruct (Hset _ _ _ Hst Hp) as [_ Hg]. destruct (HR _ _ Hs0) as (x & Hx & Hf). rewrite Hs in Hx. injection Hx as <-.
  exists s'. cbn. rewrite lookup_insert_eq. split; [done|]. pose proof (sf_generation _ _ Hf). lia.
Qed.

(** The body of a conditional update: the generation is raised, or the call throws. *)
Lemma sure_cas {A} id u status observed set (rest : io A) (refuse : io A) K :
  raises status set -> (forall P, stable keeps P -> sure (fun _ => P) P rest) -> sure (fun _ => raised id) (fun _ => True) refuse ->
  sure (fun _ => raised id) K
    (bind (op (session_cas id u status observed set)) (fun affected => if affected =? 0 then refuse else rest)).
Proof using.
  intros Hset Hrest Hno. eapply (assured_bind _ _ _ (fun n d => n <> 0 -> raised id d)).
  - apply sure_write; [|intros d; by apply session_cas_keeps|].
    + intros n d d' HR H Hne. eapply raised_stable; eauto.
    + intros d n Hi _ Hn Hne. by eapply cas_raised.
  - intros n. destruct (Z.eqb_spec n 0) as [->|Hne]; [by eapply assured_weaken; [|exact Hno]|].
    eapply assured_weaken; [|apply Hrest, raised_stable]. auto.
Qed.

Lemma sure_conflict {A} id u (P : A -> DB -> Prop) K : sure P K (generation_conflict id u).
Proof using.
  unfold generation_conflict. apply (assured_bind _ _ _ (fun _ _ => True)); [|by intros ?].
  apply assured_read; [apply _|by intros ????|done].
Qed.

Lemma sure_change u id mode K : sure (fun _ => raised id) K (changeExecutionMode u id mode).
Proof using.
  unfold changeExecutionMode. apply (assured_bind _ _ _ (fun _ _ => True)); [apply assured_read; [apply _|by intros ????|done]|].
  intros [s|]; [|done]. cbn [found bind]. destruct (negb _); [done|].
  apply sure_cas; [apply mode_raises| |apply sure_conflict]. intros P HP.
  eapply assured_bind; [apply sure_kept; [exact HP|apply guar_outstanding]|]. intros ?.
  eapply assured_bind; [apply sure_kept; [exact HP|apply guar_session_log]|]. intros ?.
  apply sure_kept; [exact HP|]. unfold findSessionById, found. guar_walk; apply keeps_preorder.
Qed.

Lemma sure_resume u id reset K : sure (fun _ => raised id) K (resumeRiskSuspendedSession u id reset).
Proof using.
  unfold resumeRiskSuspendedSession. apply (assured_bind _ _ _ (fun _ _ => True)); [apply assured_read; [apply _|by intros ????|done]|].
  intros [s|]; [|done]. cbn [found bind]. destruct (negb _); [done|]. destruct (Session.assert _ _); [|done].
  apply sure_cas; [apply resume_raises| |apply sure_conflict]. intros P HP.
  eapply assured_bind; [apply sure_kept; [exact HP|apply guar_outstanding]|]. intros ?.
  apply sure_kept; [exact HP|]. unfold found. guar_walk; apply keeps_preorder.
Qed.

(** *** Stops *)

Definition ended (id : string) (d : DB) : Prop := exists s, sessions d !! id = Some s /\ s_status s = Session.ENDED.

Lemma ended_final s s' : session_follows s s' -> s_status s = Session.ENDED -> s_status s' = Session.ENDED.
Proof using.
  intros Hf Hs. apply (closed_reach Session.ALLOWED_SESSION_TRANSITIONS (fun x => x = Session.ENDED) (s_status s)); [|apply Hf|done].
  intros x y -> Hxy. by destruct y.
Qed.

Lemma ended_stable id : stable keeps (ended id).
Proof using.
  intros d d' [_ HR] (s & Hs & He). destruct (HR _ _ Hs) as (s' & Hs' & Hf). exists s'. split; [done|by eapply ended_final].
Qed.

Section stop.
Context (u id : string) (s0 : TradingSession) (H0 : sessions d0 !! id = Some s0) (Hu : s_userId s0 = u) (Hid : id <> "").

(** The session is there, under its user. *)
Lemma still_there d : ground d -> exists s, sessions d !! id = Some s /\ s_id s = id /\ s_userId s = u.
Proof using H0 Hu.
  intros [[Hx _] HR]. destruct (HR _ _ H0) as (s & Hs & Hf). exists s. split; [done|]. split; [by apply Hx|].
  by rewrite (sf_user _ _ Hf).
Qed.

Lemma not_current d : ground d -> first_of by_generation (current_sessions u d) = None -> ended id d.
Proof using H0 Hu Hid.
  intros Hi Hn. destruct (still_there d Hi) as (s & Hs & _ & Hsu). exists s. split; [done|].
  assert (s ∉ current_sessions u d) as Hno.
  { destruct (current_sessions u d); [apply not_elem_of_nil|done]. }
  destruct (s_status s) eqn:Hst; [exfalso; apply Hno, elem_of_sessions; split; [|by exists id]..|done];
    unfold mem; rewrite Hst, !bool_decide_eq_true_2; first [done|set_solver].
Qed.

Lemma sure_mark close i v : sure (fun _ => ended id) (ended id) (mark_ended close i v).
Proof using. apply sure_kept; [apply ended_stable|apply guar_mark_ended]. Qed.

Lemma sure_one_attempt n close :
  (n <> O -> sure (fun _ => ended id) (fun _ => True) (end_attempts n u Session.ENDED close (Some id))) ->
  sure (fun _ => ended id) (fun _ => True) (end_attempts (S n) u Session.ENDED close (Some id)).
Proof using H0 Hu Hid.
  intros IH. cbn [end_attempts]. eapply (assured_bind _ _ _ (fun o d => o = None -> ended id d)).
  { apply assured_read; [apply _|intros o d d' HR H E; by eapply ended_stable; eauto|intros d Hi _; by apply not_current]. }
  intros [x|]; [|eapply assured_weaken; [|apply sure_mark]; auto].
  destruct (_ && negb _) eqn:Hsame; [done|]. destruct (Session.assert _ _) as [[]|] eqn:Hst; [|done].
  assert (s_id x = id) as Ex.
  { cbn [present] in Hsame. rewrite bool_decide_eq_false_2 in Hsame by done. cbn [negb andb] in Hsame. bool_to_prop. by simplify_eq. }
  clear Hsame. rewrite Ex. eapply (assured_bind _ _ _ (fun m d => m <> 0 -> ended id d)).
  { apply sure_write; [intros m d d' HR H E; by eapply ended_stable; eauto|intros d; by apply session_cas_keeps, end_raises|].
    intros d m _ _ Hm Hne. edestruct session_cas_cases as [[_ Hz]|(s & s' & _ & _ & _ & _ & Hp & _ & ->)]; [by destruct Hne; eapply Hz|].
    injection Hp as <-. eexists. cbn. rewrite lookup_insert_eq. done. }
  intros m. destruct (Z.eqb_spec m 0) as [->|Hne]; cbn [negb].
  2:{ eapply assured_weaken; [intros d _ H; exact (H Hne)|]. eapply assured_bind; [apply (sure_kept (ended id)); [apply ended_stable|apply guar_outstanding]|].
      by intros ? d _ H. }
  eapply (assured_bind _ _ _ (fun o d => match o with Some s => s_status s = Session.ENDED -> ended id d | None => False end)).
  { apply assured_read; [apply _|intros [s|] d d' HR H; [intros E; eapply ended_stable; eauto|done]|].
    intros d Hi _. destruct (still_there d Hi) as (s & Hs & _ & Hsu). unfold owned. rewrite Hs, bool_decide_eq_true_2 by done.
    intros E. by exists s. }
  intros [c|]; [|by intros d _ []]. case_bool_decide; [eapply assured_weaken; [|apply sure_mark]; auto|].
  case_bool_decide; [done|]. eapply assured_weaken; [|by apply IH]. done.
Qed.

Lemma sure_stop n close : n <> O -> sure (fun _ => ended id) (fun _ => True) (end_attempts n u Session.ENDED close (Some id)).
Proof using H0 Hu Hid. induction n as [|n IH]; [done|]. intros _. by apply sure_one_attempt. Qed.
End stop.
End answers.

(** ** Pools *)

Lemma guar_end u status close expected : guar keeps (endSession u status close expected).
Proof.
  unfold endSession. generalize 4%nat as n. induction n as [|n IH]; cbn [end_attempts]; [done|].
  unfold findCurrentSessionOrdered. guar_walk; try apply keeps_preorder; try apply guar_mark_ended; try apply guar_outstanding; try exact IH.
  all: apply guar_op. intros d. apply session_cas_keeps. match goal with x : unit |- _ => destruct x end. by apply end_raises.
Qed.

Definition well_posed (c : scall) : Prop := match c with SPeak _ e => canonical e | _ => True end.

(** The calls that move a session's generation, and those that stop a session. *)
Definition moves_generation (c : scall) (id : string) : Prop :=
  match c with SChange _ i _ | SResume _ i _ => i = id | _ => False end.

Definition stops (c : scall) (u id : string) : Prop := exists close, c = SEnd u Session.ENDED close (Some id).

Definition scall_says (d0 : DB) (r : scall * option TradingSession) (d : DB) : Prop :=
  (forall id, moves_generation (fst r) id -> raised d0 id d) /\
  (forall u id s0, stops (fst r) u id -> id <> "" -> sessions d0 !! id = Some s0 -> s_userId s0 = u -> ended id d) /\
  (forall i u b bal mode o s, r = (SStart i u b bal mode o, Some s) -> start_says u b mode s d).

Abbreviation sure d0 := (assured DbUnavailable (ground d0) keeps).

Lemma says_nothing d0 (c : scall) o d :
  match c with SSuspend _ _ | SPeak _ _ | SRead _ => True | _ => False end -> scall_says d0 (c, o) d.
Proof. intros Hc. split; [|split]; [by destruct c|intros u id s0 [close E]; cbn in E; by rewrite E in Hc|]. intros i u b bal mode ob s [= -> _]. done. Qed.

Lemma sure_session_call d0 c : well_posed c -> sure d0 (scall_says d0) (fun _ => True) (run_scall c).
Proof.
  intros Hc. destruct c as [i u b bal mode o|u i mode|u i reset|u status close expected|u code|i e|u]; cbn [run_scall].
  - eapply assured_bind; [apply sure_start|]. intros s d _ Hs. split; [done|]. split; [by intros ??? [? [=]]|].
    intros ? ? ? ? ? ? ? [= <- <- <- <- <- <- <-]. done.
  - eapply assured_bind; [apply sure_change|]. intros s d _ Hs. split; [by intros ? <-|]. split; [by intros ??? [? [=]]|done].
  - eapply assured_bind; [apply sure_resume|]. intros s d _ Hs. split; [by intros ? <-|]. split; [by intros ??? [? [=]]|done].
  - eapply (assured_bind _ _ _ (fun _ d => forall v id s0, stops (SEnd u status close expected) v id -> id <> "" ->
      sessions d0 !! id = Some s0 -> s_userId s0 = v -> ended id d)).
    2:{ intros ? d _ Hs. split; [done|]. split; [exact Hs|done]. }
    destruct (decide (status = Session.ENDED)) as [->|Hst].
    2:{ eapply assured_post; [|apply sure_kept; [apply any_stable|apply guar_end]]. intros ? d _ _ v id s0 [? [=]]. done. }
    destruct expected as [x|].
    2:{ eapply assured_post; [|apply sure_kept; [apply any_stable|apply guar_end]]. intros ? d _ _ v id s0 [? [=]]. }
    destruct (sessions d0 !! x) as [s0|] eqn:Hs0.
    2:{ eapply assured_post; [|apply sure_kept; [apply any_stable|apply guar_end]]. intros ? d _ _ v id y [? [= _ _ <-]]. congruence. }
    destruct (decide (s_userId s0 = u /\ x <> "")) as [[Hu Hx]|Hno].
    + eapply assured_post; [|by apply (sure_stop d0 u x s0)]. intros ? d _ He v id y [? [= _ _ <-]] _ _ _. exact He.
    + eapply assured_post; [|apply sure_kept; [apply any_stable|apply guar_end]].
      intros ? d _ _ v id y [? [= <- _ <-]] Hne Hy Hv. rewrite Hs0 in Hy. injection Hy as <-. by destruct Hno.
  - eapply assured_bind; [apply sure_kept; [apply any_stable|apply guar_session_suspend]|]. intros ? d _ _. by apply says_nothing.
  - eapply assured_bind; [apply sure_kept; [apply any_stable|by apply guar_session_peak]|]. intros ? d _ _. by apply says_nothing.
  - eapply (assured_bind _ _ _ (fun _ _ => True)); [apply assured_read; [apply _|by intros ????|done]|]. intros ? d _ _. by apply says_nothing.
Qed.

Lemma pool_says calls sched d :
  session_wf d -> Forall well_posed calls ->
  let c := exec DbUnavailable sched (d, run_scall <$> calls) in
  session_wf (fst c) /\ session_rel d (fst c) /\ forall i r, snd c !! i = Some (Ret r) -> scall_says d r (fst c).
Proof.
  intros Hwf Hc c. destruct (exec_assured DbUnavailable (ground d) keeps (scall_says d) sched (d, run_scall <$> calls))
    as ([Hw HR] & _ & Ha); [by split| |fold c in Hw, HR, Ha; auto].
  apply Forall_fmap. eapply Forall_impl; [exact Hc|]. apply sure_session_call.
Qed.

(** Control calls and commitments in one pool. *)
Inductive control_call := Control (c : scall) | Commit (i : CommitInput).

Definition run_control (c : control_call) : io (scall * option TradingSession + FinalDispatchAuthorization) :=
  match c with
  | Control c => bind (run_scall c) (fun r => Ret (inl r))
  | Commit i => bind (commitProviderDispatch i) (fun a => Ret (inr a))
  end.

Definition well_posed_call (c : control_call) : Prop := match c with Control c => well_posed c | Commit _ => True end.

Definition control_says (d0 : DB) (r : scall * option TradingSession + FinalDispatchAuthorization) (d : DB) : Prop :=
  match r with inl r => scall_says d0 r d | inr _ => True end.

(** What a commitment writes is not a session. *)
Lemma still_op {X} (act : DB -> DB * result exn X) : (forall d, sessions (fst (act d)) = sessions d) -> guar keeps (op act).
Proof. intros Ha. apply guar_op. intros d. by apply same_keeps. Qed.

Lemma still_blocked {A} input reason gid : guar keeps (blocked (A := A) input reason gid).
Proof. unfold blocked, audit_log. guar_walk; apply guar_modify; intros d; by apply same_keeps. Qed.

Lemma still_refuse b input reason gid : guar keeps (refuse_if b input reason gid).
Proof. destruct b; [apply still_blocked|done]. Qed.

#[local] Hint Resolve still_blocked still_refuse : irex.

Ltac still := guar_walk; eauto with irex; try (apply still_op; intros ?; cbn; repeat case_match; done).

Lemma still_grant i : guar keeps (commit_grant i).
Proof. unfold commit_grant. still. Qed.

Lemma still_authority i g : guar keeps (commit_authority i g).
Proof.
  unfold commit_authority, read_revisions, getCurrentGeneration, getCurrentTradingPolicyRevision, getCurrentProviderVerificationRevision,
    getCurrentExecutionControlRevision, readSingletonRevision, wrap. guar_walk; eauto with irex.
  all: apply still_op; intros ?; unfold counter_seed; cbn; repeat case_match; done.
Qed.

Lemma still_connection i g : guar keeps (commit_connection i g).
Proof. unfold commit_connection. still. Qed.

Lemma still_commitment i g t : guar keeps (commitment i g t).
Proof.
  unfold commitment, commitment_body, order_update. guar_walk; eauto with irex.
  all: apply still_op; intros ?; unfold grant_update, confirmation_update, order_update_act; cbn; repeat case_match; done.
Qed.

Lemma sure_quietly {A} d0 (p : io A) K : guar keeps p -> sure d0 (fun _ _ => True) K p.
Proof.
  intros Hp. apply (assured_weaken _ _ _ _ (fun _ => True)); [done|]. by apply sure_kept; [apply any_stable|].
Qed.

Lemma sure_blocked {A} d0 says input reason gid K : sure d0 says K (blocked (A := A) input reason gid).
Proof.
  unfold blocked. apply (assured_bind _ _ _ (fun _ _ => True)); [|done]. apply sure_quietly.
  unfold audit_log. guar_walk; apply guar_modify; intros d; by apply same_keeps.
Qed.

(** A commitment for a session that has ended is refused at its session check. *)
Lemma sure_late_commit d0 id i : sure d0 (fun a _ => x_sessionId (fa_context a) <> id) (ended id) (commitProviderDispatch i).
Proof.
  unfold commitProviderDispatch.
  apply (assured_bind _ _ _ (fun _ => ended id)); [apply sure_kept; [apply ended_stable|apply still_grant]|]. intros g.
  apply (assured_bind _ _ _ (fun _ => ended id)); [apply sure_kept; [apply ended_stable|apply still_authority]|]. intros _.
  apply (assured_bind _ _ _ (fun s _ => s_id s <> id)).
  - unfold commit_session. apply (assured_bind _ _ _ (fun found _ => forall s, found = Some s -> s_status s = Session.ACTIVE -> s_id s <> id)).
    + apply assured_read; [apply _|by intros ? ???|]. intros d [[Hk _] _] (s & Hs & He) s' Hs' Hact Heq.
      pose proof (Hk _ _ Hs') as Hid. congruence.
    + intros [s|]; [|apply sure_blocked]. unfold session_refusal.
      destruct (negb (bool_decide (s_status s = Session.ACTIVE))) eqn:Hact;
        [apply sure_blocked|].
      apply negb_false_iff, bool_decide_eq_true in Hact.
      repeat (case_match; [apply sure_blocked|]). intros d _ Hs. by apply Hs.
  - intros s. apply (assured_bind _ _ _ (fun _ _ => s_id s <> id)); [apply sure_kept; [by intros ???|apply still_connection]|]. intros b.
    apply (assured_bind _ _ _ (fun _ _ => s_id s <> id)); [apply sure_kept; [by intros ???|apply still_commitment]|]. intros _ d _ H. exact H.
Qed.

Lemma sure_control d0 c : well_posed_call c -> sure d0 (control_says d0) (fun _ => True) (run_control c).
Proof.
  destruct c as [c|i]; cbn [run_control well_posed_call].
  - intros Hc. eapply assured_bind; [by apply sure_session_call|]. intros r d _ Hr. exact Hr.
  - intros _. eapply (assured_bind _ _ _ (fun _ _ => True)); [|by intros a d _ _].
    apply sure_quietly. unfold commitProviderDispatch. apply guar_bind; [apply still_grant|]. intros g.
    apply guar_bind; [apply still_authority|]. intros _. apply guar_bind; [unfold commit_session; still|]. intros s.
    apply guar_bind; [apply still_connection|]. intros b. by apply guar_bind; [apply still_commitment|].
Qed.

Lemma sure_after_stop d0 id c : well_posed_call c ->
  sure d0 (fun r d => control_says d0 r d /\ forall a, r = inr a -> x_sessionId (fa_context a) <> id) (ended id) (run_control c).
Proof.
  destruct c as [c|i]; intros Hc.
  - apply (assured_weaken _ _ _ _ (fun _ => True)); [done|]. eapply assured_bind; [by apply sure_session_call|].
    intros r d _ Hr. split; [exact Hr|done].
  - eapply assured_bind; [apply sure_late_commit|]. intros a d _ Ha. split; [done|]. by intros ? [= <-].
Qed.

Lemma exec_length {A} sched (c : DB * list (io A)) : length (snd (exec DbUnavailable sched c)) = length (snd c).
Proof.
  revert c. induction sched as [|[i e] sched IH]; intros [d ps]; [done|]. cbn [exec]. rewrite IH. unfold step_at. cbn [fst snd].
  destruct (ps !! i); [|done]. destruct (step1 _ _ _ _). cbn. apply length_insert.
Qed.

(** A dispatch under a grant its session has left behind does not commit. *)
Lemma commit_fenced x i g :
  authority_wf x -> orders_wf x -> grants x !! ci_grantId i = Some g ->
  (forall s, sessions x !! g_sessionId g = Some s -> s_status s = Session.ACTIVE -> s_authorityGeneration s <> g_sessionGeneration g) ->
  exists x' why, run (commitProviderDispatch i) x = (x', Err (FinalDispatchBlocked why)).
Proof.
  intros Ha Ho Hg Hs. destruct (commit_runs i x Ha Ho) as [(g' & s & b & x' & Hok & _)|(x' & why & Hr & _)]; [|eauto]. exfalso.
  pose proof (ck_grant _ _ _ _ _ Hok) as Hg'. rewrite Hg in Hg'. injection Hg' as <-.
  destruct (ck_session_state _ _ _ _ _ Hok) as (Hact & Hgen & _). by apply (Hs s (ck_session _ _ _ _ _ Hok)).
Qed.

(** ** Properties *)

(** C27: sessions only evolve forward.  Whatever starts, changes of mode, resumptions, stops,
    suspensions and peak updates run together, under any interleaving and any lost statements:
    a user never has two ACTIVE sessions; no session disappears, changes hands or changes its
    connection or opening state; its status moves along the transition table and, like its mode,
    only with its generation; within a generation its peak never falls.  A start answers a
    session of the user on the connection and in the mode asked for, or what became of it. *)
Theorem sessions_follow calls sched d :
  session_wf d -> Forall well_posed calls ->
  let c := exec DbUnavailable sched (d, run_scall <$> calls) in
  session_wf (fst c) /\ session_rel d (fst c) /\
  forall i id u b balance mode binding s,
    snd c !! i = Some (Ret (SStart id u b balance mode binding, Some s)) -> start_says u b mode s (fst c).
Proof.
  intros Hwf Hc c. destruct (pool_says calls sched d Hwf Hc) as (Hw & HR & Ha). split; [done|]. split; [done|].
  intros i id u b balance mode binding s Hi. destruct (Ha _ _ Hi) as (_ & _ & Hs). by eapply Hs.
Qed.

(** C8: a stop is final.  Control calls and dispatch commitments run together, under any
    interleaving and any lost statements or acknowledgements, and a stop of an existing session
    of the user is answered.  Then, whatever is still under way and whatever is called later,
    however all of it interleaves and fails: the session is ENDED for good, and no commitment
    that begins after the answer goes through for it, under whatever grant.  A commitment that
    had passed its session check before the stop is not in question here: the stop fences it
    by invalidating the session's grants. *)
Theorem stop_is_final calls sched d i u id close o s0 :
  session_wf d -> Forall well_posed_call calls ->
  let c := exec DbUnavailable sched (d, run_control <$> calls) in
  id <> "" -> sessions d !! id = Some s0 -> s_userId s0 = u ->
  snd c !! i = Some (Ret (inl (SEnd u Session.ENDED close (Some id), o))) ->
  forall later sched', Forall well_posed_call later ->
    let c' := exec DbUnavailable sched' (fst c, snd c ++ (run_control <$> later)) in
    (exists s, sessions (fst c') !! id = Some s /\ s_status s = Session.ENDED) /\
    forall k a, (length calls <= k)%nat -> snd c' !! k = Some (Ret (inr a)) -> x_sessionId (fa_context a) <> id.
Proof.
  intros Hwf Hc c Hid Hs0 Hu Hi later sched' Hl c'.
  destruct (exec_certain DbUnavailable (ground d) keeps (control_says d) sched (d, run_control <$> calls)) as ((Hw & HR) & _ & Hcert);
    [by split|cbn [fst snd]; apply Forall_fmap; eapply Forall_impl; [exact Hc|]; intros x Hx; by apply certain_forget, sure_control|].
  fold c in Hw, HR, Hcert.
  assert (ended id (fst c)) as He.
  { destruct (Forall_lookup_1 _ _ _ _ Hcert Hi) as (K & _ & HK & Hs). destruct (Hs (fst c)) as (_ & Hstop & _); [by split|done|].
    apply (Hstop u id s0); [by exists close|done..]. }
  assert (length (snd c) = length calls) as Hlen by (unfold c; rewrite exec_length; cbn [snd]; by rewrite length_fmap).
  destruct (exec_certain_each DbUnavailable (ground d) keeps
    (fun k r x => control_says d r x /\ ((length calls <= k)%nat -> forall a, r = inr a -> x_sessionId (fa_context a) <> id))
    sched' (fst c, snd c ++ (run_control <$> later))) as ((Hw' & _) & HR' & Heach); [by split| |].
  - intros k p Hk. cbn [fst snd] in *. apply lookup_app_Some in Hk as [Hk|[Hge Hk]].
    + pose proof (lookup_lt_Some _ _ _ Hk). destruct (Forall_lookup_1 _ _ _ _ Hcert Hk) as (K & Hst & HK & Hs). exists K.
      split; [done|]. split; [done|]. eapply assured_post; [|exact Hs]. intros r x _ Hr. split; [done|]. intros; lia.
    + rewrite list_lookup_fmap in Hk. apply fmap_Some in Hk as (q & Hq & ->). exists (ended id). split; [apply ended_stable|].
      split; [done|]. eapply assured_post; [|apply (sure_after_stop d id q); by eapply Forall_lookup_1].
      intros r x _ [Hr Ha]. by split.
  - split; [apply (ended_stable id (fst c) _ HR' He)|]. intros k a Hk Ha. destruct (Heach k _ Ha) as (K & _ & HK & Hs).
    destruct (Hs (fst c')) as [_ Hno]; [|done|by apply Hno]. split; [exact Hw'|]. etransitivity; [exact HR|apply HR'].
Qed.

(** a change of mode and a resumption fence what was decided before.  When one was answered,
    under any interleaving and any loss, the session's generation has moved past the one it had
    when the calls began, and in every later store no dispatch commits under a grant bound to
    that generation or an earlier one. *)
Theorem mode_change_fences calls sched d i r id s0 :
  session_wf d -> Forall well_posed calls ->
  let c := exec DbUnavailable sched (d, run_scall <$> calls) in
  sessions d !! id = Some s0 -> snd c !! i = Some (Ret r) -> moves_generation (fst r) id ->
  forall x, session_rel (fst c) x ->
    raised d id x /\
    forall j g, authority_wf x -> orders_wf x -> grants x !! ci_grantId j = Some g -> g_sessionId g = id ->
      g_sessionGeneration g <= s_authorityGeneration s0 ->
      exists x' why, run (commitProviderDispatch j) x = (x', Err (FinalDispatchBlocked why)).
Proof.
  intros Hwf Hc c Hs0 Hi Hm x HR. destruct (pool_says calls sched d Hwf Hc) as (_ & _ & Ha).
  destruct (Ha _ _ Hi) as (Hr & _). destruct (Hr id Hm s0 Hs0) as (s & Hs & Hlt).
  destruct (HR _ _ Hs) as (s' & Hs' & Hf). pose proof (sf_generation _ _ Hf) as Hle. split.
  - intros y Hy. rewrite Hs0 in Hy. injection Hy as <-. exists s'. split; [done|lia].
  - intros j g Haw Ho Hg Hgs Hgg. apply (commit_fenced x j g); [done..|]. rewrite Hgs, Hs'. intros y [= <-] _. lia.
Qed.

(** ** Alone *)

Lemma no_current_inactive u d id : first_of by_generation (current_sessions u d) = None -> another_active id u d = false.
Proof.
  intros Hn. apply not_true_iff_false. intros Hyes. apply existsb_exists in Hyes as ([k s] & Hin & Hb).
  rewrite <- list_elem_of_In, elem_of_map_to_list in Hin. unfold session_active in Hb. bool_to_prop.
  assert (s ∈ current_sessions u d) as Hs.
  { apply elem_of_sessions. split; [|by exists k]. unfold mem. rewrite !bool_decide_eq_true_2; [done| |done].
    match goal with H : s_status s = _ |- _ => rewrite H end. by left. }
  destruct (current_sessions u d); [by apply not_elem_of_nil in Hs|done].
Qed.

Lemma session_row_id id u b balance mode binding t s : session_row id u b balance mode binding t = Ok s -> s_id s = id /\ s_userId s = u.
Proof. by intros (? & ? & _)%session_row_opens. Qed.

(** a start alone does what it says.  It is refused, and nothing is stored, unless the
    connection exists, is the user's, connected and authorised; a current session is answered
    when it is ACTIVE on the same connection and in the same mode and refuses the start
    otherwise; with no current session a new one is stored, ACTIVE at generation one with the
    opening amounts rounded to the cent, and answered. *)
Theorem start_exact id u b balance mode binding d :
  session_wf d -> sessions d !! id = None ->
  run (startSession id u b balance mode binding) d =
    match start_verdict u b mode d with
    | Err e => (d, Err e)
    | Ok (Some s) => (d, Ok s)
    | Ok None =>
        match session_row id u b balance mode binding (now d) with
        | Ok s => (set_sessions (<[id := s]> (sessions d)) d, Ok s)
        | Err e => (d, Err e)
        end
    end.
Proof.
  intros Hwf Hfree. unfold startSession, eligible_connection, start_verdict, findCurrentSessionOrdered. run_simpl.
  destruct (connections d !! b) as [c|]; run_simpl; [|done]. destruct (negb (bool_decide (b_userId c = u))); run_simpl; [done|].
  destruct (negb (bool_decide (b_status c = B_CONNECTED))); run_simpl; [done|]. destruct (negb (Authorization.isExecutable _)); run_simpl; [done|].
  destruct (first_of by_generation (current_sessions u d)) as [s|] eqn:Hcur.
  - destruct (negb (session_active s)); [done|]. unfold assertStartMatchesExistingAuthority.
    rewrite <- negb_andb. destruct (_ && _); cbn [negb]; by run_simpl.
  - unfold createSession, findSessionById. run_simpl. unfold session_insert.
    destruct (session_row id u b balance mode binding (now d)) as [s|e] eqn:Hrow.
    + destruct (session_row_id _ _ _ _ _ _ _ _ Hrow) as [-> ->]. rewrite Hfree, bool_decide_eq_false_2 by (by intros []).
      rewrite (no_current_inactive u d id Hcur). run_simpl. cbn. by rewrite lookup_insert_eq.
    + run_simpl. destruct (isUniqueViolation e) eqn:He; [|by run_simpl]. exfalso. revert Hrow He. unfold session_row, numeric_column.
      repeat case_match; cbn [rbind]; try done; intros [= <-]; done.
Qed.

(** What a stop leaves of the session and of the authority bound to its generation. *)
Definition ended_row (close : bool) (t : Z) (s : TradingSession) : TradingSession :=
  session_patch (s_executionMode s) (s_authorityGeneration s + 1) Session.ENDED (s_peakEquity s) (Some t)
    (close || s_closeAiPositionsOnStop s) s.

Lemma current_found u d s :
  session_wf d -> first_of by_generation (current_sessions u d) = Some s ->
  sessions d !! s_id s = Some s /\ s_userId s = u /\ s_status s ∈ current_statuses.
Proof.
  intros [Hid _] Hs%first_of_in. apply elem_of_sessions in Hs as (Hb & k & Hk). unfold mem in Hb. bool_to_prop.
  by rewrite (Hid k s Hk).
Qed.

(** a stop alone ends the current session at the first attempt, whatever its status: it is
    stored ENDED with the next generation and the time of the stop; the active grants and the
    pending confirmations of the generation it ends, and nothing else, are invalidated and
    revoked; other sessions are left alone. *)
Theorem end_exact u close expected s d :
  session_wf d -> first_of by_generation (current_sessions u d) = Some s -> s_authorityGeneration s < MAX_INT4 ->
  expected = None \/ expected = Some (s_id s) ->
  exists d', run (endSession u Session.ENDED close expected) d = (d', Ok tt) /\
    sessions d' = <[s_id s := ended_row close (now d) s]> (sessions d) /\
    grants d' = (fun g => if grant_bound (s_id s) (s_authorityGeneration s) g
                          then invalidate_patch SESSION_AUTHORITY_GENERATION_CHANGED (now d) g else g) <$> grants d /\
    confirmations d' = (fun c => if confirmation_bound (s_id s) (s_authorityGeneration s) c then revoke_patch (now d) c else c)
                       <$> confirmations d /\
    orders d' = orders d /\ audit d' = audit d.
Proof.
  intros Hwf Hcur Hlt Hexp. destruct (current_found u d s Hwf Hcur) as (Hs & Hu & Hst).
  unfold endSession. cbn [end_attempts]. unfold findCurrentSessionOrdered. run_simpl. rewrite Hcur.
  replace (present expected && negb (bool_decide (expected = Some (s_id s)))) with false.
  2:{ destruct Hexp as [-> | ->]; [done|]. rewrite bool_decide_eq_true_2 by done. by rewrite andb_false_r. }
  assert (Session.assert (Known (s_status s)) Session.ENDED = Ok tt) as ->.
  { unfold current_statuses in Hst. destruct (s_status s); [reflexivity..|]. set_solver. }
  run_simpl. unfold session_cas. rewrite Hs, Hu, !bool_decide_eq_true_2, Z.eqb_refl by done. cbn [andb end_patch].
  rewrite (proj2 (Z.ltb_lt _ _) Hlt). cbn [negb session_active s_status session_patch]. rewrite bool_decide_eq_true_2 by done.
  rewrite bool_decide_eq_false_2 by done. cbn [andb]. run_simpl. unfold invalidateOutstandingAuthority, grants_update_where, confirmations_update_where.
  run_simpl. eexists. split; [reflexivity|]. done.
Qed.

(** ** Executions *)

Definition session_connection : BrokerConnection :=
  mkConnection "b1" "u1" "paper" None (Some "acct") None "DEMO" B_CONNECTED (Known Authorization.ACTIVE)
    (Known Authorization.VERIFIED) 2 None None None None.

Definition session_db : DB := set_connections {["b1" := session_connection]} (empty_db 1000).

Definition sample_start (id balance : string) : scall := SStart id "u1" "b1" balance FULL_AUTO None.

(** Each session's status, generation and peak. *)
Definition states (d : DB) : list (string * Session.TradingSessionStatus * Z * option Z) :=
  map (fun '(id, s) => (id, s_status s, s_authorityGeneration s, s_peakEquity s)) (map_to_list (sessions d)).

(** a suspension can be got around.  A start that had found no session when another start
    ran, and the risk engine suspended the new session on a drawdown, still inserts its own:
    the user trades on under a fresh baseline, beside the suspended session, which can no longer
    be resumed.  And without any race, stopping the suspended session and starting again gives
    an ACTIVE session measured from the equity of the restart. *)
Theorem suspension_bypassed :
  let calls := [sample_start "s1" "10000"; sample_start "s2" "8500"; SSuspend "u1" "MAX_DRAWDOWN_REACHED"] in
  let race := [(1, Exec); (1, Exec); (0, Exec); (0, Exec); (0, Exec); (0, Exec); (2, Exec); (2, Exec); (2, Exec); (2, Exec);
               (1, Exec); (1, Exec)]%nat in
  let c := exec DbUnavailable race (session_db, run_scall <$> calls) in
  states (fst c) = [("s1", Session.SUSPENDED_RISK_LIMIT, 2, Some 1000000); ("s2", Session.ACTIVE, 1, Some 850000)] /\
  snd (run (resumeRiskSuspendedSession "u1" "s1" None) (fst c)) = Err one_active_index /\
  let alone := [run_scall (sample_start "s1" "10000"); run_scall (SSuspend "u1" "MAX_DRAWDOWN_REACHED")] in
  let suspended := fold_left (fun d p => fst (run p d)) alone session_db in
  snd (run (run_scall (sample_start "s2" "8500")) suspended) = Err (SessionError SESSION_SUSPENDED) /\
  let stopped := fst (run (endSession "u1" Session.ENDED true (Some "s1")) suspended) in
  states (fst (run (run_scall (sample_start "s2" "8500")) stopped)) =
    [("s1", Session.ENDED, 3, Some 1000000); ("s2", Session.ACTIVE, 1, Some 850000)].
Proof. vm_compute. repeat split; reflexivity. Qed.

(** ** Witnesses *)

Definition trading_db : DB := boundary_db SEMI_AUTO "oanda" "DEMO".

Lemma trading_db_wf : session_wf trading_db.
Proof. apply (singleton_indexed s_id session_active s_userId (sample_session SEMI_AUTO)). Qed.

Lemma session_db_wf : session_wf session_db.
Proof. split; cbn; [intros i s Hs|intros i j x y Hx]; by rewrite lookup_empty in *. Qed.

(** The grant and the confirmation of before, with the sessions of after. *)
Definition late_evaluation (after : DB) : DB := set_sessions (sessions after) trading_db.

Lemma late_rel after : session_rel after (late_evaluation after).
Proof. exact (reflexivity (R := session_rel) after). Qed.

Lemma late_wf after : authority_wf (late_evaluation after) /\ orders_wf (late_evaluation after).
Proof. destruct (boundary_db_wf SEMI_AUTO "oanda" "DEMO") as [[Hg Hc] Ho]. split; [split; [exact Hg|exact Hc]|exact Ho]. Qed.

Definition sample_dispatch : CommitInput := mkCommit "u1" "g1" (Some "c1") "o1" USER_CONFIRMATION.

Lemma sessions_follow_witness :
  let calls := [sample_start "s1" "10000"; sample_start "s2" "8500"] in
  let race := [(0, Exec); (1, Exec); (0, Exec); (1, Exec); (1, Exec); (0, Exec); (1, Exec); (0, Exec)]%nat in
  let c := exec DbUnavailable race (session_db, run_scall <$> calls) in
  states (fst c) = [("s2", Session.ACTIVE, 1, Some 850000)] /\
  exists s, snd c !! 0%nat = Some (Ret (sample_start "s1" "10000", Some s)) /\ s_id s = "s2" /\ start_says "u1" "b1" FULL_AUTO s (fst c).
Proof.
  intros calls race c. split; [vm_compute; reflexivity|].
  destruct (sessions_follow calls race session_db session_db_wf) as (_ & _ & Hs); [repeat constructor|].
  destruct (snd c !! 0%nat) as [[[q [s|]]|e|X act k]|] eqn:Hc; try (exfalso; vm_compute in Hc; discriminate Hc).
  assert (q = sample_start "s1" "10000") as -> by (vm_compute in Hc; injection Hc; intros _ <-; reflexivity).
  exists s. split; [reflexivity|]. split; [vm_compute in Hc; injection Hc; intros <-; reflexivity|].
  exact (Hs 0%nat "s1" "u1" "b1" "10000" FULL_AUTO None s Hc).
Defined.

(** A stop that races a change of mode and loses statements; a commitment that begins after its
    answer. *)
Lemma stop_is_final_witness :
  let stop := SEnd "u1" Session.ENDED true (Some "s1") in
  let sched := [(1, Exec); (0, Exec); (1, Exec); (0, Exec); (1, Exec); (1, Exec); (1, Down); (1, Exec); (0, Exec); (0, Exec); (0, Exec); (0, Exec); (0, Exec)]%nat in
  let c := exec DbUnavailable sched (trading_db, run_control <$> [Control stop; Control (SChange "u1" "s1" FULL_AUTO)]) in
  snd c !! 0%nat = Some (Ret (inl (stop, None))) /\
  let c' := exec DbUnavailable (replicate 20 (2%nat, Exec)) (fst c, snd c ++ (run_control <$> [Commit sample_dispatch])) in
  (exists s, sessions (fst c') !! "s1" = Some s /\ s_status s = Session.ENDED) /\
  (forall a, snd c' !! 2%nat = Some (Ret (inr a)) -> x_sessionId (fa_context a) <> "s1") /\
  match snd c' !! 2%nat with Some (Throw (FinalDispatchBlocked _)) => True | _ => False end.
Proof.
  intros stop sched c. assert (snd c !! 0%nat = Some (Ret (inl (stop, None)))) as Hc by (vm_compute; reflexivity). split; [exact Hc|].
  destruct (stop_is_final [Control stop; Control (SChange "u1" "s1" FULL_AUTO)] sched trading_db 0%nat "u1" "s1" true None
    (sample_session SEMI_AUTO) trading_db_wf ltac:(repeat constructor) ltac:(discriminate) ltac:(reflexivity) ltac:(reflexivity) Hc
    [Commit sample_dispatch] (replicate 20 (2%nat, Exec)) ltac:(repeat constructor)) as [He Hno].
  split; [exact He|]. split; [intros a Ha; apply (Hno 2%nat a); [repeat constructor|exact Ha]|]. vm_compute. exact I.
Defined.

Lemma mode_change_fences_witness :
  let c := exec DbUnavailable (replicate 8 (0%nat, Exec)) (trading_db, run_scall <$> [SChange "u1" "s1" SEMI_AUTO]) in
  raised trading_db "s1" (fst c) /\
  exists x' why, run (commitProviderDispatch sample_dispatch) (late_evaluation (fst c)) = (x', Err (FinalDispatchBlocked why)).
Proof.
  intros c. destruct (snd c !! 0%nat) as [[r|e|X act k]|] eqn:Hc; try (exfalso; vm_compute in Hc; discriminate Hc).
  assert (moves_generation (fst r) "s1") as Hm by (vm_compute in Hc; injection Hc; intros <-; reflexivity).
  pose proof (mode_change_fences [SChange "u1" "s1" SEMI_AUTO] (replicate 8 (0%nat, Exec)) trading_db 0%nat r "s1" (sample_session SEMI_AUTO)
    trading_db_wf ltac:(repeat constructor) ltac:(reflexivity) Hc Hm) as H.
  split; [apply (H (fst c)); reflexivity|]. destruct (late_wf (fst c)) as [Ha Ho].
  eapply (proj2 (H (late_evaluation (fst c)) (late_rel _)) sample_dispatch (sample_grant SEMI_AUTO));
    [exact Ha|exact Ho|reflexivity|reflexivity|]. cbn. lia.
Defined.

Lemma start_exact_witness :
  exists s, run (startSession "s1" "u1" "b1" "10000.005" FULL_AUTO None) session_db =
    (set_sessions (<["s1" := s]> (sessions session_db)) session_db, Ok s) /\ s_openingBalance s = Some 1000001.
Proof.
  eexists. split; [rewrite (start_exact "s1" "u1" "b1" "10000.005" FULL_AUTO None session_db session_db_wf ltac:(reflexivity)); vm_compute; reflexivity|].
  reflexivity.
Defined.

Lemma end_exact_witness :
  exists d', run (endSession "u1" Session.ENDED true (Some "s1")) trading_db = (d', Ok tt) /\
    sessions d' = <["s1" := ended_row true 1000 (sample_session SEMI_AUTO)]> (sessions trading_db) /\
    (g_status <$> grants d' !! "g1") = Some G_INVALIDATED /\ (c_status <$> confirmations d' !! "c1") = Some C_REVOKED.
Proof.
  destruct (end_exact "u1" true (Some "s1") (sample_session SEMI_AUTO) trading_db trading_db_wf) as (d' & Hr & Hs & Hg & Hc & _);
    [reflexivity|reflexivity|by right|].
  exists d'. split; [exact Hr|]. split; [exact Hs|]. rewrite Hg, Hc. split; reflexivity.
Defined.
