(* ===== verification/Execution.v ===== *)
(** * The execution service ([execution/execution.service.ts])

    [executeTrade]: an approved risk decision becomes a reserved trade, one provider dispatch
    and a settled trade.  [closeTrade] and the sweeps over it: closing one position, the AI
    positions of a user who stops the AI, all the positions of a user under the kill switch.
    The sessions of the service are in [Sessions], the reservation of a trade in
    [TradeReservation], the dispatch in [Orchestrator].

    [dispatchOrder] stands here without the account lease, which only narrows the schedules.
    The reservation transaction is one operation: [TradeReservation] interleaves it.  Where the
    code reads its clock the model reads the store's, in a statement of its own before the
    update it is for: a lost read is a lost update.  The in-memory [trade] is the row that was
    returned, then what [Object.assign] makes of it.  Events, messages, audit metadata but for
    one code, and the columns of a trade's rejection reason, commission and swap are left out. *)

From S2P Require Import Prelude Prog JsString CanonicalJson StateMachines Store OrderService RiskGrants Authority Boundary.
From S2P Require Import JsMap AdapterRegistry Adapter MarketSafety Orchestrator TradeCas TradeIntents RiskRules Sessions.
From S2P Require Provider RiskEngine TradeReservation Capital.
Import Provider.Operation.
Open Scope string_scope.
Open Scope list_scope.
Open Scope Z_scope.

(** ** Trades in memory *)

(** [hydrateTradeRow] of the raw row: [order_id] is not among the columns it maps. *)
Definition with_order (orderId : option string) (t : TradeRow) : TradeRow :=
  mkTrade (t_id t) (t_userId t) (t_idempotencyKey t) (t_tradeIntentId t) (t_status t) (t_externalOrderId t) (t_fillPrice t)
    (t_closedAt t) (t_closeReason t) (t_dispatchCertainty t) (t_signalId t) (t_logicalAccountKey t) (t_accountCurrency t)
    (t_riskPeriodId t) (t_realisedPnl t) (t_brokerConnectionId t) (t_tradingSessionId t) (t_instrument t) (t_direction t)
    (t_lotSize t) (t_externalPositionId t) (t_exitPrice t) orderId (t_openedAt t).

Definition hydrateTradeRow (row : TradeRow) : TradeRow := with_order None row.

Definition external_patch (externalOrderId : option string) : TradePatch :=
  mkTradePatch None (Some externalOrderId) None None None None None None None.

(** The row a transition answers with: [outcome.trade]. *)
Definition outcome_trade (o : TradeCasOutcome) : option TradeRow :=
  match o with
  | APPLIED t | ALREADY_AT_TARGET t | PRESERVED_NEWER_TRUTH t => Some t
  | STATE_CONFLICT t _ _ => t
  end.

(** [trade.status = outcome.trade?.status ?? target]. *)
Definition with_status (o : TradeCasOutcome) (target : Trade.TradeStatus) (t : TradeRow) : TradeRow :=
  apply_patch (status_patch (default target (t_status <$> outcome_trade o))) t.

(** [Object.assign(trade, outcome.trade ?? {})]. *)
Definition assign (o : TradeCasOutcome) (t : TradeRow) : TradeRow := default t (outcome_trade o).

Definition settled_as (o : TradeCasOutcome) : bool :=
  match o with APPLIED _ | ALREADY_AT_TARGET _ => true | _ => false end.

(** What the provider's outcome makes of the trade that was reserved for it. *)
Definition settle_patch (status : Trade.TradeStatus) (certainty : option ProviderDispatchCertainty) : TradePatch :=
  mkTradePatch (Some status) None None None None (Some <$> (certainty_text <$> certainty)) None None None.

(** [if (value)] on an optional text. *)
Definition truthy (s : option string) : option string :=
  match s with Some s => if bool_decide (s = "") then None else Some s | None => None end.

Definition truthful (s : option string) : bool := match truthy s with Some _ => true | None => false end.

(** [quoteRef?.['price']], when it is a text. *)
Definition quoted_price (quote : option js) : option string :=
  match quote with
  | Some (JObject fields) =>
      match List.find (fun f => bool_decide (f.1 = chars_of "price")) fields with
      | Some (_, JString s) => Some (string_of s)
      | _ => None
      end
  | _ => None
  end.

Definition resolveMarketReferencePrice (order : ValidatedOrder) (grant : RiskGrant) : string :=
  let entry := string_of (trim (chars_of (vo_entryPrice order))) in
  if negb (bool_decide (entry = "") || bool_decide (entry = "0")) then vo_entryPrice order
  else match quoted_price (g_quoteRef grant) with
       | Some price => if bool_decide (trim (chars_of price) = []) || bool_decide (price = "0") then vo_entryPrice order else price
       | None => vo_entryPrice order
       end.

Section execution.
Context {A P : Type} `{!EqDecision A, !BrokerAdapter A P, !PgNumeric}.
Context (sha256 : chars -> string) (date_parses : chars -> bool)
        (catalog : list Provider.Live.BrokerDefinition) (isSupported : string -> bool)
        (decrypt : option string -> option string -> option string -> option string -> result BrokerAdapterError DecryptedBrokerCredentials)
        (message_of : dexn -> string) (code_text : FinalDispatchBlockedReason -> string).
Local Open Scope prog_scope.

Abbreviation wio := (wio (A := A) (P := P)).
Abbreviation dispatchOrder := (dispatchOrderUnderLease (A := A) (P := P) sha256 decrypt message_of code_text).

Definition note (userId action resourceType resourceId code : string) : wio unit :=
  db (audit_log (mkAudit (Some userId) action resourceType resourceId code)).

Definition cas (userId tradeId : string) (from to : Trade.TradeStatus) (patch : TradePatch) (source : string)
  : wio TradeCasOutcome := db (applyCasTransition (mkCas tradeId (inl from) to patch userId source)).

(** ** [executeTrade]: before the reservation *)

(** The grant, as it stands before the commitment, and the clock it is compared with. *)
Definition pre_commitment_grant (userId grantId : string) : wio RiskGrant :=
  let* found := db (sel (fun d => (owned_grant userId grantId d, now d))) in
  match found with
  | (Some g, t) =>
      if negb (bool_decide (g_status g = G_ACTIVE)) || (g_expiresAt g <=? t)
      then forbidden "The risk grant is not currently usable" else Ret g
  | (None, _) => forbidden "The risk grant is not currently usable"
  end.

Definition usable_intent (userId signalId : string) : wio TradeIntent :=
  catch (db (resolveIntentForExecutionBySignal userId signalId))
    (fun err =>
       match err with
       | Platform (TradeIntentNotUsable intentId _) =>
           do! note userId "EXECUTION_AUTHORITY_BLOCKED" "TradeIntent" intentId "TRADE_INTENT_NOT_USABLE" in
           forbidden "Trade blocked: the AI decision is not usable"
       | _ => Throw err
       end).

Definition origin_of (confirmationId : option string) : FinalDispatchOrigin :=
  match truthy confirmationId with Some _ => USER_CONFIRMATION | None => PIPELINE end.

(** What the execution of an approval goes on with. *)
Record Authorised := mkAuthorised { az_grant : RiskGrant; az_intent : TradeIntent; az_connection : BrokerConnection }.

Definition authorise_execution (userId : string) (a : RiskEngine.RiskApprovalResult) (confirmationId : option string)
  : wio Authorised :=
  if bool_decide (RiskEngine.ra_grantId a = "") then
    do! note userId "EXECUTION_AUTHORITY_BLOCKED" "RiskGrant" "not-issued" "GRANT_REQUIRED" in
    forbidden "Risk approval carried no server-issued grant"
  else
    let* grant := pre_commitment_grant userId (RiskEngine.ra_grantId a) in
    let* intent := usable_intent userId (RiskEngine.ra_signalId a) in
    let* authorization := db (authorizeNewExposureDispatch sha256 date_parses catalog isSupported userId
                                (RiskEngine.ra_grantId a) confirmationId (Some (origin_of confirmationId)) None) in
    let connection := fa_connection authorization in
    do! assertDispatchable userId connection (Some NEW_EXPOSURE) in
    Ret (mkAuthorised grant intent connection).

Definition reserve_params (userId : string) (a : RiskEngine.RiskApprovalResult) (z : Authorised) : TradeReservation.ReserveParams :=
  let order := RiskEngine.ra_validatedOrder a in
  TradeReservation.mkReserve userId (vo_instrument order) (vo_direction order) (RiskEngine.ra_signalId a)
    (Some (n_id (az_intent z))) (RiskEngine.ra_logicalAccountKey a) (RiskEngine.ra_accountCurrency a)
    (RiskEngine.ra_riskPeriodId a) (b_id (az_connection z)) (vo_lotSize order) (Some (RiskEngine.ra_sessionId a)).

(** ** [executeTrade]: the dispatch and its outcome *)

Definition entry_intent (userId : string) (a : RiskEngine.RiskApprovalResult) (z : Authorised) (tradeId : string) : ExecutionIntent :=
  let order := RiskEngine.ra_validatedOrder a in
  Orchestrator.mkIntent userId (b_id (az_connection z)) ("sig-" +:+ RiskEngine.ra_signalId a) (Some tradeId)
    (Some (RiskEngine.ra_signalId a)) MARKET GTC (vo_instrument order) (vo_direction order) (vo_lotSize order) None None
    (Some (resolveMarketReferencePrice order (az_grant z))) (vo_stopLoss order) (vo_takeProfit order)
    (Some (vo_idempotencyKey order)) (vo_strategyTimeframe order) (Some PLACE) None.

(** [tradeRepo.update(trade.id, { orderId }).catch(log)]. *)
Definition link_order (tradeId orderId : string) : wio unit :=
  db (catch (let* _ := trade_update (fun _ => true) (with_order (Some orderId)) tradeId in Ret tt) (fun _ => Ret tt)).

Definition order_id_of (d : ProviderDispatchOutcome) : string :=
  match d with
  | D_FILLED o _ _ _ _ _ _ | D_WORKING o _ | D_REJECTED o _ | D_UNKNOWN o _ _ | D_DUPLICATE o => o_id o
  end.

(** A dispatch the gates refused: it provably was not sent. *)
Definition reject_unsent (userId : string) (z : Authorised) (trade : TradeRow) (source code : string) : wio TradeRow :=
  let* outcome := cas userId (t_id trade) Trade.PENDING Trade.REJECTED
                    (settle_patch Trade.REJECTED (Some DEFINITELY_NOT_SENT)) source in
  let trade := with_status outcome Trade.REJECTED trade in
  do! db (catch (markRejected (n_id (az_intent z))) (fun _ => Ret tt)) in
  do! note userId "TRADE_REJECTED" "Trade" (t_id trade) code in
  Ret trade.

(** The [catch] around the dispatch. *)
Definition dispatch_failed (userId : string) (z : Authorised) (trade : TradeRow) (err : dexn) : wio TradeRow :=
  match err with
  | MarketSafetyError code => reject_unsent userId z trade "executeTrade:market-safety-rejection" (failure_text code)
  | Platform (FinalDispatchBlocked code) =>
      reject_unsent userId z trade "executeTrade:final-dispatch-boundary-blocked" (code_text code)
  | _ =>
      let* outcome := cas userId (t_id trade) Trade.PENDING Trade.RECONCILIATION_PENDING
                        (settle_patch Trade.RECONCILIATION_PENDING (Some MAY_HAVE_REACHED_PROVIDER))
                        "executeTrade:orchestration-error" in
      let trade := with_status outcome Trade.RECONCILIATION_PENDING trade in
      do! note userId "TRADE_SUBMITTED" "Trade" (t_id trade) "MAY_HAVE_REACHED_PROVIDER" in
      Ret trade
  end.

Definition settle_filled (userId : string) (trade : TradeRow) (providerOrderId avgFillPrice : string) : wio TradeRow :=
  let* openedAt := db (sel now) in
  let* outcome := cas userId (t_id trade) Trade.PENDING Trade.OPEN
                    (mkTradePatch (Some Trade.OPEN) (Some (Some providerOrderId)) (Some (Some avgFillPrice)) None None None
                       (Some (Some openedAt)) None None) "executeTrade:FILLED" in
  let trade := assign outcome trade in
  do! (if settled_as outcome then note userId "TRADE_OPENED" "Trade" (t_id trade) "opened" else Ret tt) in
  Ret trade.

(** The one update of a provider-bound trade that is no compare-and-swap. *)
Definition settle_working (trade : TradeRow) (providerOrderId : string) : wio TradeRow :=
  let* _ := db (trade_update (fun _ => true) (apply_patch (external_patch (Some providerOrderId))) (t_id trade)) in
  Ret (apply_patch (external_patch (Some providerOrderId)) trade).

Definition settle_rejected (userId : string) (trade : TradeRow) : wio TradeRow :=
  let* outcome := cas userId (t_id trade) Trade.PENDING Trade.REJECTED (settle_patch Trade.REJECTED None) "executeTrade:REJECTED" in
  let trade := assign outcome trade in
  do! note userId "TRADE_REJECTED" "Trade" (t_id trade) "rejected" in
  Ret trade.

Definition settle_uncertain (userId : string) (trade : TradeRow) (certainty : ProviderDispatchCertainty) (source : string) : wio TradeRow :=
  let* outcome := cas userId (t_id trade) Trade.PENDING Trade.RECONCILIATION_PENDING
                    (settle_patch Trade.RECONCILIATION_PENDING (Some certainty)) source in
  let trade := assign outcome trade in
  do! note userId "TRADE_SUBMITTED" "Trade" (t_id trade) (certainty_text certainty) in
  Ret trade.

(** Step 6: the dispatch outcome onto the trade. *)
Definition settle_trade (userId : string) (trade : TradeRow) (d : ProviderDispatchOutcome) : wio TradeRow :=
  match d with
  | D_FILLED _ providerOrderId _ avgFillPrice _ _ _ => settle_filled userId trade providerOrderId avgFillPrice
  | D_WORKING _ providerOrderId => settle_working trade providerOrderId
  | D_REJECTED _ _ => settle_rejected userId trade
  | D_UNKNOWN _ _ certainty => settle_uncertain userId trade certainty "executeTrade:UNKNOWN"
  | D_DUPLICATE _ => settle_uncertain userId trade MAY_HAVE_REACHED_PROVIDER "executeTrade:DUPLICATE"
  end.

(** From the new reservation on: [newOrderId] is drawn for the order. *)
Definition execute_reserved (newOrderId userId : string) (a : RiskEngine.RiskApprovalResult) (z : Authorised)
    (confirmationId : option string) (trade : TradeRow) : wio TradeRow :=
  do! db (markExecuted (n_id (az_intent z)) (t_id trade)) in
  do! note userId "TRADE_PREPARED" "Trade" (t_id trade) "prepared" in
  let* dispatched := attempt
    (let* d := dispatchOrder newOrderId (entry_intent userId a z (t_id trade)) (az_connection z)
                 (Some (mkCommitment (g_id (az_grant z)) confirmationId (Some (origin_of confirmationId)))) in
     do! (if bool_decide (order_id_of d = "") then Ret tt else link_order (t_id trade) (order_id_of d)) in
     Ret d) in
  match dispatched with
  | Ok d =>
      let trade := if bool_decide (order_id_of d = "") then trade else with_order (Some (order_id_of d)) trade in
      settle_trade userId trade d
  | Err err => dispatch_failed userId z trade err
  end.

Definition executeTrade (newTradeId newOrderId userId : string) (decision : RiskEngine.RiskDecision)
    (confirmationId : option string) : wio TradeRow :=
  match decision with
  | RiskEngine.APPROVED a =>
      let* z := authorise_execution userId a confirmationId in
      let* reservation := db (transaction (TradeReservation.reserve_slot (hash_text sha256) newTradeId (reserve_params userId a z))) in
      match reservation with
      | TradeReservation.DUPLICATE_EXISTING row =>
          let trade := hydrateTradeRow row in
          do! note userId "TRADE_DUPLICATE_SUPPRESSED" "Trade" (t_id trade) "duplicate" in
          do! db (markExecuted (n_id (az_intent z)) (t_id trade)) in
          Ret trade
      | TradeReservation.RESERVED_NEW row => execute_reserved newOrderId userId a z confirmationId (hydrateTradeRow row)
      end
  | _ => forbidden "Trade blocked: Execution requires APPROVED status."
  end.

(** ** [closeTrade] *)

Definition owned_trade (tradeId userId : string) (d : DB) : option TradeRow :=
  match trades d !! tradeId with
  | Some t => if bool_decide (t_userId t = userId) then Some t else None
  | None => None
  end.

(** [externalPositionId ?? externalOrderId], when it is not empty. *)
Definition provider_reference (t : TradeRow) : option string :=
  truthy (match t_externalPositionId t with Some p => Some p | None => t_externalOrderId t end).

Definition closes (tradeId : string) (o : Order) : bool :=
  bool_decide (o_tradeId o = Some tradeId) && String.prefix "close-" (o_clientOrderId o).

(** [SELECT COUNT( * ) .. WHERE trade_id = .. AND client_order_id LIKE 'close-%']. *)
Definition countCloseAttempts (tradeId : string) (d : DB) : Z :=
  Z.of_nat (length (List.filter (fun row => closes tradeId row.2) (map_to_list (orders d)))).

Definition close_order_id (tradeId : string) (attempt : Z) : string :=
  "close-" +:+ tradeId +:+ (if 1 <? attempt then "-" +:+ string_of (bigint_text attempt) else "").

Definition close_intent (userId : string) (trade : TradeRow) (connection : BrokerConnection) (attempt : Z) (reference : string)
  : ExecutionIntent :=
  Orchestrator.mkIntent userId (b_id connection) (close_order_id (t_id trade) attempt) (Some (t_id trade)) (t_signalId trade)
    MARKET GTC (t_instrument trade) (if bool_decide (t_direction trade = "BUY") then "SELL" else "BUY")
    (numeric_out 4 (t_lotSize trade)) None None None "0" "0" None None (Some CLOSE) (Some reference).

(** The P&L a fill reports, for its numeric(18,8) column; [None] leaves the column alone. *)
Definition reported_pnl (pnl : option string) : result exn (option (option Z)) :=
  match pnl with Some raw => rmap (fun v => Some (Some v)) (Capital.numeric_column 18 8 raw) | None => Ok None end.

Definition close_filled (userId reason : string) (trade : TradeRow) (avgFillPrice : string) (pnl : option string) : wio TradeRow :=
  let* closedAt := db (sel now) in
  let* pnl := db (of_result (reported_pnl pnl)) in
  let* outcome := cas userId (t_id trade) Trade.OPEN Trade.CLOSED
                    (mkTradePatch (Some Trade.CLOSED) None None (Some (Some closedAt)) (Some (Some reason)) None None
                       (Some (Some avgFillPrice)) pnl) "closeTrade:FILLED" in
  let trade := assign outcome trade in
  do! note userId "TRADE_CLOSED" "Trade" (t_id trade) reason in
  Ret trade.

Definition close_unresolved (userId reason : string) (trade : TradeRow) (certainty : ProviderDispatchCertainty) (source : string)
  : wio TradeRow :=
  let* outcome := cas userId (t_id trade) Trade.OPEN Trade.RECONCILIATION_PENDING
                    (mkTradePatch (Some Trade.RECONCILIATION_PENDING) None None None (Some (Some reason))
                       (Some (Some (certainty_text certainty))) None None None) source in
  let trade := assign outcome trade in
  do! note userId "TRADE_SUBMITTED" "Trade" (t_id trade) (certainty_text certainty) in
  Ret trade.

Definition settle_close (userId reason : string) (trade : TradeRow) (d : ProviderDispatchOutcome) : wio TradeRow :=
  match d with
  | D_FILLED _ _ _ avgFillPrice pnl _ _ => close_filled userId reason trade avgFillPrice pnl
  | D_REJECTED _ _ => Throw (Platform (ConflictException "Broker refused to close position. The trade remains OPEN."))
  | D_DUPLICATE _ => Ret trade
  | D_WORKING _ _ => close_unresolved userId reason trade MAY_HAVE_REACHED_PROVIDER "closeTrade:WORKING"
  | D_UNKNOWN _ _ certainty => close_unresolved userId reason trade certainty "closeTrade:UNKNOWN"
  end.

Definition closeTrade (newOrderId tradeId userId reason : string) : wio TradeRow :=
  let* found := db (sel (owned_trade tradeId userId)) in
  match found with
  | None => forbidden "Trade not found or does not belong to user"
  | Some trade =>
      if negb (bool_decide (t_status trade = Trade.OPEN)) then forbidden "Trade is not OPEN"
      else
        match provider_reference trade with
        | None => forbidden "Trade has no provider position reference"
        | Some reference =>
            let* connection := find_connection (t_brokerConnectionId trade) userId in
            do! assertDispatchable userId connection (Some CLOSE_POSITION) in
            let* attempts := db (sel (countCloseAttempts (t_id trade))) in
            let* d := dispatchOrder newOrderId (close_intent userId trade connection (attempts + 1) reference) connection None in
            settle_close userId reason trade d
        end
  end.

(** ** Sweeps *)

(** [openedAt ASC]: PostgreSQL puts the rows that were never opened last. *)
Definition opened_le (t t' : TradeRow) : Prop :=
  match t_openedAt t, t_openedAt t' with
  | Some x, Some y => x <= y
  | Some _, None => True
  | None, None => True
  | None, Some _ => False
  end.

#[local] Instance opened_le_dec : RelDecision opened_le.
Proof. intros t t'. unfold opened_le. destruct (t_openedAt t), (t_openedAt t'); apply _. Defined.

(** [find({ where: { userId, status: OPEN, .. }, order: { openedAt: 'ASC' } })]. *)
Definition open_trades (userId : string) (where_ : TradeRow -> bool) (d : DB) : list TradeRow :=
  merge_sort opened_le
    (List.filter (fun t => bool_decide (t_userId t = userId) && bool_decide (t_status t = Trade.OPEN) && where_ t)
       (map snd (map_to_list (trades d)))).

Definition ai_proven (t : TradeRow) : bool :=
  truthful (t_tradingSessionId t) || truthful (t_tradeIntentId t) || truthful (t_signalId t).

Record CloseResult := mkClosed { cl_tradeId : string; cl_closed : bool; cl_status : Trade.TradeStatus; cl_detail : option string }.

Definition close_answer (tradeId : string) (closed : TradeRow) : CloseResult :=
  let now_closed := bool_decide (t_status closed = Trade.CLOSED) in
  mkClosed tradeId now_closed (t_status closed)
    (if now_closed then None else Some ("close dispatched — trade now " +:+ trade_status_text (t_status closed))).

(** The [catch] of one AI close: what the row says now. *)
Definition failed_close (userId : string) (trade : TradeRow) (err : dexn) : wio CloseResult :=
  let* current := db (catch (sel (owned_trade (t_id trade) userId)) (fun _ => Ret None)) in
  match current with
  | Some t => if bool_decide (t_status t = Trade.CLOSED) then Ret (mkClosed (t_id trade) true Trade.CLOSED None)
              else Ret (mkClosed (t_id trade) false (t_status t) (Some (message_of err)))
  | None => Ret (mkClosed (t_id trade) false (t_status trade) (Some (message_of err)))
  end.

(** [for (const trade of trades) try { closeTrade } catch { .. }], the order ids in turn. *)
Fixpoint close_each (ids : nat -> string) (userId reason : string) (failed : TradeRow -> dexn -> wio CloseResult)
    (trades : list TradeRow) : wio (list CloseResult) :=
  match trades with
  | [] => Ret []
  | trade :: rest =>
      let* r := attempt (closeTrade (ids (length rest)) (t_id trade) userId reason) in
      let* result := match r with Ok closed => Ret (close_answer (t_id trade) closed) | Err err => failed trade err end in
      let* results := close_each ids userId reason failed rest in
      Ret (result :: results)
  end.

Definition closeAiTrades (ids : nat -> string) (userId reason : string) (trades : list TradeRow) : wio (list CloseResult) :=
  close_each ids userId reason (failed_close userId) trades.

(** [Promise.all(..)]: every update is sent; the first failure is thrown. *)
Fixpoint mark_sessions (userId : string) (sessionIds : list string) : wio unit :=
  match sessionIds with
  | [] => Ret tt
  | id :: rest =>
      let* r := attempt (db (op (mark_close id userId))) in
      do! mark_sessions userId rest in
      match r with Ok _ => Ret tt | Err err => Throw err end
  end.

Definition linked_sessions (trades : list TradeRow) : list string :=
  rev (remove_dups (rev (omap (fun t => truthy (t_tradingSessionId t)) trades))).

Definition closeAllAiOpenPositions (ids : nat -> string) (userId reason : string) : wio (list CloseResult) :=
  let* aiOpenTrades := db (sel (open_trades userId ai_proven)) in
  do! mark_sessions userId (linked_sessions aiOpenTrades) in
  closeAiTrades ids userId reason aiOpenTrades.

(** The sessions the user asked to be flattened, on a connection. *)
Definition stop_requested (userId brokerConnectionId : string) (d : DB) : list string :=
  map s_id (List.filter (fun s => bool_decide (s_userId s = userId) && bool_decide (s_brokerConnectionId s = brokerConnectionId)
                                  && s_closeAiPositionsOnStop s) (map snd (map_to_list (sessions d)))).

Definition late_position (brokerConnectionId : string) (sessionIds : list string) (t : TradeRow) : bool :=
  bool_decide (t_brokerConnectionId t = brokerConnectionId) && ai_proven t &&
  match truthy (t_tradingSessionId t) with Some s => bool_decide (s ∈ sessionIds) | None => false end.

Definition closeStopRequestedAiPositions (ids : nat -> string) (userId brokerConnectionId : string) : wio (list CloseResult) :=
  let* requested := db (sel (stop_requested userId brokerConnectionId)) in
  if bool_decide (requested = []) then Ret []
  else
    let* late := db (sel (open_trades userId (late_position brokerConnectionId requested))) in
    closeAiTrades ids userId "MANUAL_CLOSE" late.

(** The [catch] of one emergency close: the row it had read. *)
Definition failed_emergency (trade : TradeRow) (err : dexn) : wio CloseResult :=
  Ret (mkClosed (t_id trade) false (t_status trade) (Some (message_of err))).

Definition emergencyCloseAllOpenPositions (ids : nat -> string) (userId reason : string) : wio (list CloseResult) :=
  let* openTrades := db (sel (open_trades userId (fun _ => true))) in
  if bool_decide (openTrades = []) then Ret []
  else
    let* results := close_each ids userId reason failed_emergency openTrades in
    do! note userId "RISK_KILL_SWITCH_ACTIVATED" "Trade" userId
          (if forallb cl_closed results then "WARNING" else "CRITICAL") in
    Ret results.

(** [enqueue] is the durable job's queue; the fast path runs whatever it answers. *)
Definition requestDurableEmergencyFlatten (enqueue : wio unit) (ids : nat -> string) (userId : string) : wio unit :=
  do! catch enqueue (fun _ => Ret tt) in
  catch (let* _ := emergencyCloseAllOpenPositions ids userId "KILL_SWITCH_FORCE_CLOSE" in Ret tt) (fun _ => Ret tt).
End execution.
