(* ===== verification/Confirmations.v ===== *)
(** * Confirmations ([execution/execution-confirmation.service.ts])

    A user on a semi-automatic session lists the pending confirmations and confirms one: a full
    risk evaluation of the proposal as it stands now, re-bound to the confirmation, a check that
    it changed nothing the user saw, and its execution.  The numeric columns of a confirmation
    are the texts PostgreSQL returns for them. *)

From S2P Require Import Prelude Prog JsString CanonicalJson StateMachines Store OrderService RiskGrants Authority Boundary.
From S2P Require Import JsMap AdapterRegistry Adapter MarketSafety Orchestrator RiskRules RiskEngine Execution.
From S2P Require Provider Sizing.
Open Scope string_scope.
Open Scope list_scope.
Open Scope Z_scope.

(** ** Listing *)

(** The columns of the view that are not the confirmation's own. *)
Record PendingView := mkView {
  pv_confirmation : Confirmation;
  pv_order : option (string * option string * option string) (** type, requested price, regime *);
  pv_executionMode : option ExecutionMode }.

Definition toView (c : Confirmation) (grant : option RiskGrant) : PendingView :=
  mkView c ((fun g => let p := g_orderPayload g in (p_orderType p, p_requestedPrice p, p_marketRegime p)) <$> grant)
    (g_executionMode <$> grant).

Definition pending_of (userId : string) (d : DB) (c : Confirmation) : bool :=
  bool_decide (c_userId c = userId) && bool_decide (c_status c = C_PENDING) && (now d <? c_expiresAt c).

Definition created_le (c c' : Confirmation) : Prop := c_createdAt c <= c_createdAt c'.
#[local] Instance created_le_dec : RelDecision created_le := fun c c' => Z_le_dec (c_createdAt c) (c_createdAt c').

Definition pending_confirmations (userId : string) (d : DB) : list Confirmation :=
  merge_sort created_le (List.filter (pending_of userId d) (map snd (map_to_list (confirmations d)))).

(** The grants of the signals, of any user: [find({ where: { signalId: In(..) } })]. *)
Definition grants_of_signals (signalIds : list string) (d : DB) : list RiskGrant :=
  List.filter (fun g => bool_decide (g_signalId g ∈ signalIds)) (map snd (map_to_list (grants d))).

(** The loop over the grants: the latest of a signal. *)
Fixpoint latest_of (signalId : string) (grants : list RiskGrant) (found : option RiskGrant) : option RiskGrant :=
  match grants with
  | [] => found
  | g :: rest =>
      latest_of signalId rest
        (if bool_decide (g_signalId g = signalId) then
           match found with Some x => if g_issuedAt x <? g_issuedAt g then Some g else found | None => Some g end
         else found)
  end.

Section confirmations.
Local Open Scope prog_scope.

Definition listPending (userId : string) : io (list PendingView) :=
  let* confirmations := sel (pending_confirmations userId) in
  if bool_decide (confirmations = []) then Ret []
  else
    let* grants := sel (grants_of_signals (map c_signalId confirmations)) in
    Ret (map (fun c => toView c (latest_of (c_signalId c) grants None)) confirmations).
End confirmations.

(** ** Confirming *)

Record ConfirmationResult := mkConfirmed { cf_confirmationId : string; cf_tradeId : string; cf_tradeStatus : Trade.TradeStatus }.

(** [findOne({ where: { id, userId, status: PENDING } })]. *)
Definition pending_confirmation (userId confirmationId : string) (d : DB) : option Confirmation :=
  match owned_confirmation userId confirmationId d with
  | Some c => if bool_decide (c_status c = C_PENDING) then Some c else None
  | None => None
  end.

(** The proposal the user confirmed, as a MARKET instruction. *)
Definition confirmed_trade (userId : string) (c : Confirmation) : ProposedTrade :=
  mkProposed (c_signalId c) (c_instrument c) (c_direction c) (c_quantity c) "0" (c_stopLoss c) (c_takeProfit c) None
    (userId +:+ ":" +:+ c_signalId c) None None None (Some (c_sessionId c)) (Some (c_sessionGeneration c)) (Some "SEMI_AUTO")
    (Some (c_brokerConnectionId c)) false None.

Definition changed (confirmed : option string) (fresh : string) : bool :=
  match confirmed with Some x => negb (bool_decide (fresh = x)) | None => false end.

Definition materialChange (c : Confirmation) (v : ValidatedOrder) : bool :=
  negb (bool_decide (vo_instrument v = c_instrument c)) || negb (bool_decide (vo_direction v = c_direction c))
  || negb (bool_decide (vo_lotSize v = c_quantity c)) || changed (c_stopLoss c) (vo_stopLoss v)
  || changed (c_takeProfit c) (vo_takeProfit v).

Section confirm.
Context {A P : Type} `{!EqDecision A, !BrokerAdapter A P, !PgNumeric}.
Context (sha256 : chars -> string) (date_parses : chars -> bool)
        (catalog : list Provider.Live.BrokerDefinition) (isSupported : string -> bool)
        (decrypt : option string -> option string -> option string -> option string -> result BrokerAdapterError DecryptedBrokerCredentials)
        (message_of : dexn -> string) (code_text : FinalDispatchBlockedReason -> string).
Local Open Scope prog_scope.

Abbreviation wio := (wio (A := A) (P := P)).

Definition conflict {X} (message : string) : wio X := Throw (Platform (ConflictException message)).

(** The market, the broker, the uuids and the clock of the evaluation are those of [validateProposedTrade]. *)
Definition confirm (ev : Sizing.Evidence) (broker : Broker) (ids : Ids) (time : Z) (newTradeId newOrderId userId confirmationId : string)
  : wio ConfirmationResult :=
  let* found := db (sel (fun d => (pending_confirmation userId confirmationId d, now d))) in
  match found with
  | (None, _) => conflict "No PENDING confirmation found for this id and user"
  | (Some c, t) =>
      if c_expiresAt c <=? t then conflict "This confirmation window has expired"
      else
        let* decision := db (validateProposedTrade sha256 ev broker ids userId time (confirmed_trade userId c) (Some (c_id c))) in
        match decision with
        | APPROVED a =>
            if materialChange c (ra_validatedOrder a) then Throw (Platform ReconfirmationRequired)
            else
              let* trade := executeTrade sha256 date_parses catalog isSupported decrypt message_of code_text newTradeId newOrderId
                              userId decision (Some confirmationId) in
              Ret (mkConfirmed confirmationId (t_id trade) (t_status trade))
        | _ => conflict "Current risk evaluation rejected this order"
        end
  end.
End confirm.
