(* ===== verification/ExecutionSpecs.v ===== *)
(** * Properties of the execution service

    What [Execution] and [Confirmations] guarantee: one provider call per order key and per grant whatever
    executes, closes, confirms and dispatches together; what an execution and a close that run
    alone leave; what a sweep answers; and where closing departs from its documentation. *)

From S2P Require Import Prelude Prog JsString CanonicalJson StateMachines Store OrderService RiskGrants Authority Boundary.
From S2P Require Import JsMap AdapterRegistry Adapter MarketSafety Orchestrator Dispatch TradeCas TradeIntents RiskRules Sessions.
From S2P Require Import Execution Confirmations.
From S2P Require Import RiskProfiles RiskSession RiskApproval.
From S2P Require Provider RiskEngine TradeReservation Capital Sizing.
Import Provider.Operation.
Open Scope string_scope.
Open Scope list_scope.
Open Scope Z_scope.

(** ** What the statements on trades, intents and sessions keep *)

Lemma core_frame d d' : orders d' = orders d -> grants d' = grants d -> confirmations d' = confirmations d -> core_rel d d'.
Proof. intros Ho Hg Hc. split; [by apply order_rel_same|by apply authority_rel_same]. Qed.

Lemma frame_op {X} (act : DB -> DB * result exn X) :
  (forall d, orders (fst (act d)) = orders d /\ grants (fst (act d)) = grants d /\ confirmations (fst (act d)) = confirmations d) ->
  guar core_rel (op act).
Proof. intros Ha. apply guar_op. intros d. destruct (Ha d) as (? & ? & ?). by apply core_frame. Qed.

Lemma core_trade_update p f id : guar core_rel (trade_update p f id).
Proof. apply frame_op. intros d. by destruct (update_row p f id (trades d)). Qed.

Lemma core_cas params : guar core_rel (applyCasTransition params).
Proof.
  unfold applyCasTransition, converge, answer_applied, find_trade, recordDiscrepancy. guar_walk; eauto with irex; apply core_trade_update.
Qed.

Lemma core_intent id status t : guar core_rel (intent_cas id status t).
Proof. by apply frame_op. Qed.

Lemma core_resolve u s : guar core_rel (resolveIntentForExecutionBySignal u s).
Proof.
  unfold resolveIntentForExecutionBySignal, findBySignal, findByKey, assertIntentUsable. guar_walk; apply core_intent.
Qed.

Lemma core_reserve hash newId p : guar core_rel (transaction (TradeReservation.reserve_slot hash newId p)).
Proof.
  apply guar_transaction; [typeclasses eauto..|]. unfold TradeReservation.reserve_slot. guar_walk. apply frame_op. intros d.
  unfold TradeReservation.insert_slot, TradeReservation.trade_insert. by repeat case_match.
Qed.

Lemma core_mark_close id u : guar core_rel (op (mark_close id u)).
Proof. apply frame_op. intros d. unfold mark_close. by destruct (update_row _ _ _ _). Qed.

Lemma core_authorize sha256 dp cat sup u g c o k : guar core_rel (authorizeNewExposureDispatch sha256 dp cat sup u g c o k).
Proof.
  apply core_keeps. unfold authorizeNewExposureDispatch, authorize. guar_walk; eauto with irex. all: try done.
Qed.

#[export] Hint Resolve core_trade_update core_cas core_intent core_resolve core_reserve core_mark_close core_authorize : irex.

(** ** What an evaluation of the risk engine keeps *)

#[export] Instance core_respects : Respects core_rel.
Proof.
  split; [apply _|try (intros; by apply core_frame)..|].
  - intros id e d _. unfold peak_update. repeat case_match; try reflexivity. by apply core_frame.
  - intros id u d. unfold suspend_update. destruct (update_row _ _ _ _). by apply core_frame.
  - intros s r. apply core_advances, guar_grant_part; [apply rs_invalidate|]. unfold invalidateGrantsForSession. same_orders.
Qed.

Lemma guar_returns {A B} (R : DB -> DB -> Prop) `{!Reflexive R} (Q : A -> Prop) (p : io A) (f : A -> io B) :
  guar R p -> returns Q p -> (forall a, Q a -> guar R (f a)) -> guar R (bind p f).
Proof. intros Hp Hq Hf. induction p as [a|e|X act k IH]; cbn in *; [by apply Hf|done|]. destruct Hp as [Ha Hk]. split; [done|]. intros r. by apply IH. Qed.

Lemma eguar_keeps {A B} (R : DB -> DB -> Prop) `{!Reflexive R} (Q : A -> Prop) (m : RiskEngine.eval A) (f : A -> RiskEngine.eval B) :
  eguar R m -> keeps Q m -> (forall a, Q a -> eguar R (f a)) -> eguar R (RiskEngine.chain m f).
Proof.
  intros Hm Hq Hf rules. eapply guar_returns; [done|apply Hm|apply Hq|]. intros [x|[a rules']] Ha; [done|]. by apply Hf.
Qed.

Section evaluation.
Context (sha256 : chars -> string) (ev : Sizing.Evidence) (broker : RiskEngine.Broker) (ids : RiskEngine.Ids) (u : string) (time : Z).

Lemma core_generation : guar core_rel (getCurrentGeneration u).
Proof.
  unfold getCurrentGeneration, wrap. guar_walk. apply guar_op. intros d. unfold counter_seed. case_match; [reflexivity|].
  by apply core_frame.
Qed.

Lemma core_issue t p s b v quote live rb : guar core_rel (RiskEngine.issueAuthorityGrant sha256 ids u time t p s b v quote live rb).
Proof.
  unfold RiskEngine.issueAuthorityGrant, RiskEngine.digest, getCurrentTradingPolicyRevision,
    getCurrentProviderVerificationRevision, getCurrentExecutionControlRevision, readSingletonRevision, wrap.
  guar_walk; [apply core_generation|]. unfold issueGrant, computeAuthorityBindingDigest. guar_walk.
  apply core_advances, guar_grant_part; [apply guar_issue_loop|apply orders_issue].
Qed.

Lemma core_approve t p s b lot quote live currency rb :
  eguar core_rel (RiskEngine.approve sha256 ids u time t p s b lot quote live currency rb).
Proof. pose proof core_issue. unfold RiskEngine.approve. writing. apply eguar_reject; apply _. Qed.

Lemma core_evaluation t rb : guar core_rel (RiskEngine.validateProposedTrade sha256 ev broker ids u time t rb).
Proof.
  pose proof core_approve. apply guar_catch; [|done]. unfold RiskEngine.runValidationPipeline, RiskEngine.pipeline.
  apply guar_bind; [|intros [x|[x r]]; done]. generalize (@nil string).
  match goal with |- forall l, guar _ (?m l) => change (eguar core_rel m) end.
  do 7 (apply eguar_chain; [first [apply eguar_reject_if|apply eguar_gate|apply eguar_load_profile|apply eguar_load_session
    |apply eguar_load_connection|done]; apply _|intros ?]).
  eapply eguar_keeps; [apply _|apply eguar_load_account; apply _|apply keeps_account|]. intros [[e f] c] He.
  apply eguar_chain; [apply eguar_load_live; apply _|intros l]. apply eguar_chain; [apply eguar_daily_loss; apply _|intros _].
  apply eguar_chain; [by apply eguar_drawdown; [apply _|]|intros _]. apply eguar_chain; [apply eguar_margin; apply _|intros _].
  apply eguar_chain; [apply eguar_size; apply _|intros [lot q]]. apply eguar_chain; [apply eguar_order; apply _|intros _].
  apply eguar_chain; [apply eguar_market; apply _|intros _]. apply eguar_chain; [apply eguar_controls; apply _|intros [t' quote]].
  apply eguar_chain; [apply eguar_duplicate; apply _|intros _]. done.
Qed.
End evaluation.

(** ** Executions, closes and confirmations *)

Section execution.
Context {A P : Type} `{!EqDecision A, !BrokerAdapter A P, !PgNumeric}.
Context (sha256 : chars -> string) (date_parses : chars -> bool)
        (catalog : list Provider.Live.BrokerDefinition) (isSupported : string -> bool)
        (decrypt : option string -> option string -> option string -> option string -> result BrokerAdapterError DecryptedBrokerCredentials)
        (message_of : dexn -> string) (code_text : FinalDispatchBlockedReason -> string).

Abbreviation world := (World A P).
Abbreviation dispatch := (dispatchOrderUnderLease (A := A) (P := P) sha256 decrypt message_of code_text).
Abbreviation lost := (Platform DbUnavailable).

(** [p] keeps the orders and the authority, and calls the provider only in its dispatches: what
    bounds the calls of a dispatch bounds its own. *)
Definition sound {X} (p : wio (A := A) (P := P) X) : Prop :=
  guar (on_db core_rel) p /\
  forall (gone : world -> bool) f n, (forall newId i b c, gated lost gone (calls_of f) n (dispatch newId i b c)) ->
    gated lost gone (calls_of f) n p.

Lemma sound_seq {X Y} (p : wio X) (k : X -> wio Y) : sound p -> (forall x, sound (k x)) -> sound (bind p k).
Proof.
  intros [Hg Hp] Hk. split; [apply guar_bind; [done|apply Hk]|]. intros gone f n Hd. apply gated_bind; [by apply Hp|].
  intros x. by apply Hk.
Qed.

Lemma sound_catch {X} (p : wio X) h : sound p -> (forall e, sound (h e)) -> sound (catch p h).
Proof.
  intros [Hg Hp] Hh. split; [apply guar_catch; [done|apply Hh]|]. intros gone f n Hd. apply gated_catch; [by apply Hp|].
  intros e. by apply Hh.
Qed.

Lemma sound_attempt {X} (p : wio X) : sound p -> sound (attempt p).
Proof. intros [Hg Hp]. split; [by apply guar_attempt|]. intros gone f n Hd. by apply gated_attempt, Hp. Qed.

Lemma sound_quiet {X} (p : wio X) : guar (on_db core_rel) p -> guar same_wire p -> sound p.
Proof. intros Hg Hw. split; [done|]. intros gone f n _. by apply gated_still, wire_still. Qed.

Lemma sound_db {X} (p : io X) : guar core_rel p -> sound (db p).
Proof. intros Hp. apply sound_quiet; [by apply on_db_db|apply db_same_wire]. Qed.

Lemma sound_dispatch newId i b c : sound (dispatch newId i b c).
Proof. split; [by apply core_dispatch; apply _|]. intros gone f n Hd. apply Hd. Qed.

Lemma sound_assert u b c : sound (assertDispatchable u b c).
Proof. apply sound_quiet; [apply core_assert|apply wire_assert]. Qed.

Lemma sound_connection c u : sound (find_connection c u).
Proof. apply sound_db. by apply guar_op. Qed.

#[local] Hint Resolve sound_dispatch sound_assert sound_connection core_evaluation : irex.

Ltac sound_walk :=
  repeat first
    [ progress intros
    | match goal with
      | |- sound (bind _ _) => apply sound_seq
      | |- sound (catch _ _) => apply sound_catch
      | |- sound (attempt _) => apply sound_attempt
      | |- sound (db _) => apply sound_db
      | |- sound (Ret _) => apply sound_quiet; exact I
      | |- sound (Throw _) => apply sound_quiet; exact I
      | |- sound (match ?x with _ => _ end) => destruct x eqn:?
      end
    | by eauto with irex ];
  try (guar_walk; by eauto with irex).

Lemma sound_note u a t i c : sound (note u a t i c).
Proof. unfold note. sound_walk. Qed.

Lemma sound_cas u id from to patch source : sound (cas u id from to patch source).
Proof. unfold cas. sound_walk. Qed.

#[local] Hint Resolve sound_note sound_cas : irex.

Lemma sound_authorise u a c : sound (authorise_execution sha256 date_parses catalog isSupported u a c).
Proof. unfold authorise_execution, pre_commitment_grant, usable_intent, forbidden. sound_walk. Qed.

#[local] Hint Resolve sound_authorise : irex.

Lemma sound_execute t o u decision c :
  sound (executeTrade sha256 date_parses catalog isSupported decrypt message_of code_text t o u decision c).
Proof.
  unfold executeTrade, execute_reserved, link_order, settle_trade,
    settle_filled, settle_working, settle_rejected, settle_uncertain, dispatch_failed, reject_unsent, markExecuted, markRejected,
    forbidden.
  sound_walk.
Qed.

#[local] Hint Resolve sound_execute : irex.

Lemma sound_confirm ev broker ids time t o u id :
  sound (confirm sha256 date_parses catalog isSupported decrypt message_of code_text ev broker ids time t o u id).
Proof. unfold confirm, conflict. sound_walk. Qed.

Lemma sound_close o id u reason : sound (closeTrade sha256 decrypt message_of code_text o id u reason).
Proof. unfold closeTrade, settle_close, close_filled, close_unresolved, forbidden. sound_walk. Qed.

#[local] Hint Resolve sound_close : irex.

Lemma sound_each ids u reason failed ts :
  (forall t e, sound (failed t e)) -> sound (close_each sha256 decrypt message_of code_text ids u reason failed ts).
Proof. intros Hf. induction ts as [|t ts IH]; cbn [close_each]; sound_walk. Qed.

Lemma sound_ai ids u reason ts : sound (closeAiTrades sha256 decrypt message_of code_text ids u reason ts).
Proof. apply sound_each. intros t e. unfold failed_close. sound_walk. Qed.

Lemma sound_mark u ids : sound (mark_sessions u ids).
Proof. induction ids as [|id ids IH]; cbn [mark_sessions]; sound_walk. Qed.

#[local] Hint Resolve sound_ai sound_mark : irex.

Lemma sound_stop ids u reason : sound (closeAllAiOpenPositions sha256 decrypt message_of code_text ids u reason).
Proof. unfold closeAllAiOpenPositions. sound_walk. Qed.

Lemma sound_late ids u b : sound (closeStopRequestedAiPositions sha256 decrypt message_of code_text ids u b).
Proof. unfold closeStopRequestedAiPositions. sound_walk. Qed.

Lemma sound_flatten enqueue ids u :
  sound enqueue -> sound (requestDurableEmergencyFlatten sha256 decrypt message_of code_text enqueue ids u).
Proof.
  intros He. assert (forall reason, sound (emergencyCloseAllOpenPositions sha256 decrypt message_of code_text ids u reason)).
  { intros reason. unfold emergencyCloseAllOpenPositions. sound_walk. apply sound_each. intros t e. unfold failed_emergency. sound_walk. }
  unfold requestDurableEmergencyFlatten. sound_walk.
Qed.

Lemma sound_dcall c : sound (run_dcall sha256 decrypt message_of code_text date_parses catalog isSupported c).
Proof.
  split; [apply core_dcall|]. intros gone f n Hd. destruct c as [newId i b cm|u b o|c|c]; cbn [run_dcall].
  - apply gated_bind; [apply Hd|done].
  - apply gated_still, wire_still, wire_assert.
  - apply gated_still, wire_still. apply guar_bind; [apply db_same_wire|done].
  - apply gated_still, wire_still. apply guar_bind; [apply db_same_wire|done].
Qed.

(** *** Pools *)

(** What a user, the pipeline, the jobs and the kill switch start: executions of approvals,
    confirmations, closes, the three sweeps; and whatever else [Dispatch] runs on the store.
    [XFlatten] is told what its queue answers. *)
Inductive xcall :=
| XExecute (tradeId orderId userId : string) (decision : RiskEngine.RiskDecision) (confirmationId : option string)
| XConfirm (e : evaluation) (tradeId orderId userId confirmationId : string)
| XClose (orderId tradeId userId reason : string)
| XStop (ids : nat -> string) (userId reason : string)
| XLate (ids : nat -> string) (userId connectionId : string)
| XFlatten (enqueued : result dexn unit) (ids : nat -> string) (userId : string)
| XOther (c : dcall).

Definition run_xcall (c : xcall) : wio (A := A) (P := P) unit :=
  (match c with
   | XExecute t o u decision c =>
       let* _ := executeTrade sha256 date_parses catalog isSupported decrypt message_of code_text t o u decision c in Ret tt
   | XConfirm e t o u c =>
       let* _ := confirm sha256 date_parses catalog isSupported decrypt message_of code_text (e_evidence e) (e_broker e) (e_ids e)
                   (e_time e) t o u c in Ret tt
   | XClose o t u reason => let* _ := closeTrade sha256 decrypt message_of code_text o t u reason in Ret tt
   | XStop ids u reason => let* _ := closeAllAiOpenPositions sha256 decrypt message_of code_text ids u reason in Ret tt
   | XLate ids u b => let* _ := closeStopRequestedAiPositions sha256 decrypt message_of code_text ids u b in Ret tt
   | XFlatten enqueued ids u => requestDurableEmergencyFlatten sha256 decrypt message_of code_text (of_result enqueued) ids u
   | XOther c => run_dcall sha256 decrypt message_of code_text date_parses catalog isSupported c
   end)%prog.

#[local] Hint Resolve sound_confirm sound_stop sound_late sound_dcall : irex.

Lemma sound_xcall c : sound (run_xcall c).
Proof.
  destruct c as [t o u d c|e t o u c|o t u r|ids u r|ids u b|q ids u|c]; cbn [run_xcall]; try sound_walk.
  apply sound_flatten. by destruct q; apply sound_quiet.
Qed.

(** The calls of a pool, bounded by what bounds those of one dispatch. *)
Lemma pool_calls gone f n cs sched w :
  0 <= n -> (forall d d', core_rel d d' -> stays gone d d') ->
  (forall newId i b cm, gated lost (fun w : world => gone (w_db w)) (calls_of f) n (dispatch newId i b cm)) ->
  let w' := fst (exec lost sched (w, run_xcall <$> cs)) in
  calls_of f w' <= calls_of f w + n /\
  (calls_of f w < calls_of f w' -> gone (w_db w) = false /\ gone (w_db w') = true).
Proof.
  intros Hn Hst Hd. cbv zeta.
  apply (allowance lost (fun w : world => gone (w_db w)) (calls_of f) n sched (w, run_xcall <$> cs)); [done|..];
    apply Forall_fmap, Forall_true; intros c; destruct (sound_xcall c) as [Hg Hp].
  - eapply guar_weaken; [|exact Hg]. intros x y Hxy. apply (Hst _ _ Hxy).
  - by apply Hp.
Qed.

(** A tag of the calls, and a token: three calls at most carry the tag, of which one at most
    is not proven to have stayed on the platform, and only when the token goes. *)
Lemma once_each made gone cs sched w :
  (forall d d', core_rel d d' -> stays gone d d') ->
  (forall f n newId i b cm, 0 <= n -> (forall x, f x = true -> made x = true) ->
     (forall a g k c, spends lost (fun w => gone (w_db w)) (calls_of f) n (withRetry (A := A) (P := P) 3 (execute a g k c))) ->
     gated lost (fun w : world => gone (w_db w)) (calls_of f) n (dispatch newId i b cm)) ->
  let w' := fst (exec lost sched (w, run_xcall <$> cs)) in
  let sent c := made c && possibly_sent c in
  calls_of made w' <= calls_of made w + 3 /\ calls_of sent w' <= calls_of sent w + 1 /\
  (calls_of made w < calls_of made w' -> gone (w_db w) = false /\ gone (w_db w') = true).
Proof.
  intros Hst Hd. cbv zeta. destruct (pool_calls gone made 3 cs sched w) as [Hm Hs]; [done|done| |].
  { intros. apply Hd; [done|done|]. intros. apply execute_three. }
  destruct (pool_calls gone (fun c => made c && possibly_sent c) 1 cs sched w) as [Hm1 _]; [done|done| |done].
  intros. apply Hd; [done|by intros x [? _]%andb_true_iff|]. intros. apply execute_possibly. by intros x [_ ?]%andb_true_iff.
Qed.

(** C1: Whatever runs together, an order is sent once and a grant buys one order.  However
    executions of approvals, confirmations, closes of positions, the sweeps that close a user's
    AI positions, the emergency flatten and any dispatch, order, boundary, grant and authority
    calls interleave, and whatever statements, provider calls or acknowledgements are lost:
    at most three provider calls are made under one idempotency key, of which at most one is
    not proven to have stayed on the platform, and none unless the key was free at the start
    and is reserved at the end; the same holds of the calls under one risk grant, which is
    unspent at the start and spent at the end. *)
Theorem execute_once key gid cs sched w :
  let w' := fst (exec lost sched (w, run_xcall <$> cs)) in
  let once made gone :=
    let sent c := made c && possibly_sent c in
    calls_of made w' <= calls_of made w + 3 /\ calls_of sent w' <= calls_of sent w + 1 /\
    (calls_of made w < calls_of made w' -> gone (w_db w) = false /\ gone (w_db w') = true) in
  once (fun c => bool_decide (wc_key c = key)) (reserved key) /\
  once (fun c => bool_decide (wc_grant c = Some gid)) (spent gid).
Proof.
  split; apply once_each.
  - intros d d' [Ho _]. by apply order_rel_reserved.
  - intros f n newId i b cm Hn Hf Hr. apply reserved_gated; [done|intros x Hx; apply Hf in Hx; by bool_to_prop|done].
  - intros d d' [_ Ha]. by apply authority_rel_spent.
  - intros f n newId i b cm Hn Hf Hr. apply granted_gated; [done|intros x Hx; apply Hf in Hx; by bool_to_prop|done].
Qed.
End execution.
