(* ===== verification/ExecutionRuns.v ===== *)
(** * Executions and closes that run alone

    What [Execution] leaves when nothing else runs: the trade an execution or a close answers is
    the stored one, and its status is what the order it dispatched came to. *)

From S2P Require Import Prelude Prog JsString CanonicalJson StateMachines Store OrderService RiskGrants Authority Boundary.
From S2P Require Import JsMap AdapterRegistry Adapter MarketSafety Orchestrator Dispatch TradeCas TradeIntents RiskRules Sessions.
From S2P Require Import Execution ExecutionSpecs.
From S2P Require Provider RiskEngine TradeReservation Capital.
Import Provider.Operation Provider.Response.
Open Scope string_scope.
Open Scope list_scope.
Open Scope Z_scope.

(** ** What leaves the trades alone *)

Definition same_ledger (d d' : DB) : Prop := trades d' = trades d.

#[export] Instance same_ledger_preorder : PreOrder same_ledger.
Proof. split; [done|]. intros x y z. unfold same_ledger. congruence. Qed.

Lemma ledger_audit e : guar same_ledger (audit_log e).
Proof. by apply guar_audit; [apply _|]. Qed.

Lemma ledger_blocked {X} input r g : guar same_ledger (blocked (A := X) input r g).
Proof. unfold blocked. guar_walk. apply ledger_audit. Qed.

Lemma ledger_refuse c input r g : guar same_ledger (refuse_if c input r g).
Proof. unfold refuse_if. case_match; [apply ledger_blocked|done]. Qed.

Lemma ledger_generation u : guar same_ledger (getCurrentGeneration u).
Proof.
  unfold getCurrentGeneration, wrap. guar_walk. apply guar_op. intros d. unfold counter_seed. by case_match.
Qed.

#[export] Hint Resolve ledger_audit ledger_blocked ledger_refuse ledger_generation : irex.

(** The walk to the statements that write, none of them to the trades. *)
Ltac ledger :=
  guar_walk; eauto with irex; try (apply guar_op; intros ?; unfold same_ledger, order_update_act, order_insert_act, grant_update,
    confirmation_update; repeat case_match; done).

#[export] Instance ledger_dispatchable `{!PgNumeric} : Dispatchable same_ledger.
Proof.
  split; [apply _|intros..].
  - unfold applyTransition, findOrderById, order_update. ledger.
  - unfold applyFill, findOrderById, order_update. ledger.
  - unfold submitOrder. ledger.
  - ledger.
  - unfold checkExecutionPermission, findActiveControls. ledger.
  - unfold commitProviderDispatch, commit_grant, commit_authority, read_revisions, commit_session, commit_connection, commitment,
      commitment_body, getCurrentTradingPolicyRevision, getCurrentProviderVerificationRevision,
      getCurrentExecutionControlRevision, readSingletonRevision, wrap, applyTransition, findOrderById, order_update.
    ledger.
Qed.

Lemma ledger_intent id status t : guar same_ledger (intent_cas id status t).
Proof. by apply guar_op. Qed.

Lemma ledger_resolve u s : guar same_ledger (resolveIntentForExecutionBySignal u s).
Proof. unfold resolveIntentForExecutionBySignal, findBySignal, findByKey, assertIntentUsable. ledger; apply ledger_intent. Qed.

Lemma ledger_authorize sha256 dp cat sup u g c o k : guar same_ledger (authorizeNewExposureDispatch sha256 dp cat sup u g c o k).
Proof.
  unfold authorizeNewExposureDispatch, authorize, load_confirmation, load_grant, load_session, load_connection, mode_gates,
    live_gate, control_gate, checkExecutionPermission, findActiveControls.
  ledger. done.
Qed.

#[export] Hint Resolve ledger_intent ledger_resolve ledger_authorize : irex.

(** ** Programs that leave the trades and the wire alone *)

Section runs.
Context {A P : Type} `{!EqDecision A, !BrokerAdapter A P, !PgNumeric}.
Context (sha256 : chars -> string) (date_parses : chars -> bool)
        (catalog : list Provider.Live.BrokerDefinition) (isSupported : string -> bool)
        (decrypt : option string -> option string -> option string -> option string -> result BrokerAdapterError DecryptedBrokerCredentials)
        (message_of : dexn -> string) (code_text : FinalDispatchBlockedReason -> string).

Abbreviation world := (World A P).
Abbreviation dispatch := (dispatchOrderUnderLease (A := A) (P := P) sha256 decrypt message_of code_text).

Definition quiet_run (w w' : world) : Prop := trades (w_db w') = trades (w_db w) /\ w_wire w' = w_wire w.

Definition quiet {X} (p : wio (A := A) (P := P) X) : Prop := guar (on_db same_ledger) p /\ guar same_wire p.

Lemma quiet_step {X} (p : wio X) w w' r : quiet p -> run p w = (w', r) -> quiet_run w w'.
Proof.
  intros [Hl Hw] Hr. split.
  - pose proof (guar_run (on_db same_ledger) p w ltac:(typeclasses eauto) Hl) as Hq. by rewrite Hr in Hq.
  - pose proof (guar_run same_wire p w ltac:(typeclasses eauto) Hw) as Hq. by rewrite Hr in Hq.
Qed.

Lemma quiet_bind {X Y} (p : wio X) (k : X -> wio Y) : quiet p -> (forall x, quiet (k x)) -> quiet (bind p k).
Proof. intros [H1 H2] Hk. split; apply guar_bind; try done; apply Hk. Qed.

Lemma quiet_catch {X} (p : wio X) h : quiet p -> (forall e, quiet (h e)) -> quiet (catch p h).
Proof. intros [H1 H2] Hh. split; apply guar_catch; try done; apply Hh. Qed.

Lemma quiet_db {X} (p : io X) : guar same_ledger p -> quiet (db p).
Proof. intros Hp. split; [by apply on_db_db|apply db_same_wire]. Qed.

Lemma quiet_assert u b c : quiet (assertDispatchable u b c).
Proof. split; [apply core_assert|apply wire_assert]. Qed.

#[local] Hint Resolve quiet_assert : irex.

Ltac quiet_walk :=
  repeat first
    [ progress intros
    | match goal with
      | |- quiet (bind _ _) => apply quiet_bind
      | |- quiet (catch _ _) => apply quiet_catch
      | |- quiet (db _) => apply quiet_db
      | |- quiet (Ret _) => split; exact I
      | |- quiet (Throw _) => split; exact I
      | |- quiet (match ?x with _ => _ end) => destruct x eqn:?
      end
    | by eauto with irex ];
  try (guar_walk; by eauto with irex).

Lemma quiet_note u a t i c : quiet (note u a t i c).
Proof. unfold note. quiet_walk. Qed.

#[local] Hint Resolve quiet_note : irex.

Lemma quiet_authorise u a c : quiet (authorise_execution sha256 date_parses catalog isSupported u a c).
Proof. unfold authorise_execution, pre_commitment_grant, usable_intent, forbidden. quiet_walk. Qed.

(** *** Running the parts of an execution *)

Lemma run_sel {X} (f : DB -> X) (w : world) : run (db (sel f)) w = (w, Ok (f (w_db w))).
Proof. rewrite run_db. by destruct w. Qed.

Lemma run_note u a t i c (w : world) : exists l, run (note u a t i c) w = (put_db (set_audit l (w_db w)) w, Ok tt).
Proof. unfold note, audit_log. rewrite run_db. run_simpl. by eexists. Qed.

(** A transition of a trade that is still in the expected status. *)
Lemma run_cas u id from to patch source t (w : world) :
  trades (w_db w) !! id = Some t -> t_status t = from -> Trade.can (Known from) to = true ->
  run (cas u id from to patch source) w =
    (put_db (set_trades (<[id := apply_patch patch t]> (trades (w_db w))) (w_db w)) w, Ok (APPLIED (apply_patch patch t))).
Proof.
  intros Ht Hs Hc. unfold cas. set (params := mkCas id (inl from) to patch u source).
  unfold applyCasTransition. rewrite run_db, run_bind.
  assert (from ∈ legal_of params) as Hl.
  { unfold legal_of. apply list_elem_of_filter. split; [exact Hc|left]. }
  rewrite bool_decide_eq_false_2; [|intros Hn; rewrite Hn in Hl; by apply not_elem_of_nil in Hl]. cbn [run].
  rewrite (run_matching params _ t) by (done || by apply bool_decide_eq_true_2; rewrite Hs). done.
Qed.

(** What the outcome of a dispatch makes of the pending trade, [time] being the clock. *)
Definition settlement (time : Z) (d : ProviderDispatchOutcome) : TradePatch :=
  match d with
  | D_FILLED _ providerOrderId _ avgFillPrice _ _ _ =>
      mkTradePatch (Some Trade.OPEN) (Some (Some providerOrderId)) (Some (Some avgFillPrice)) None None None
        (Some (Some time)) None None
  | D_WORKING _ providerOrderId => external_patch (Some providerOrderId)
  | D_REJECTED _ _ => settle_patch Trade.REJECTED None
  | D_UNKNOWN _ _ certainty => settle_patch Trade.RECONCILIATION_PENDING (Some certainty)
  | D_DUPLICATE _ => settle_patch Trade.RECONCILIATION_PENDING (Some MAY_HAVE_REACHED_PROVIDER)
  end.

(** The stored trade [id] became [row], the orders and the wire are what they were. *)
Definition trade_moved (id : string) (row : TradeRow) (w w' : world) : Prop :=
  trades (w_db w') = <[id := row]> (trades (w_db w)) /\ orders (w_db w') = orders (w_db w) /\ w_wire w' = w_wire w.

(** A transition that applies, then an audit entry. *)
Lemma run_moved u id from to patch source t (k : TradeCasOutcome -> wio TradeRow) action rid code x status (w : world) :
  trades (w_db w) !! id = Some t -> t_status t = from -> Trade.can (Known from) to = true ->
  k (APPLIED (apply_patch patch t)) = (do! note u action "Trade" rid code in Ret x)%prog -> t_status x = status -> t_id x = id ->
  exists w' x, run (bind (cas u id from to patch source) k) w = (w', Ok x) /\ trade_moved id (apply_patch patch t) w w' /\
    t_status x = status /\ t_id x = id.
Proof.
  intros Ht Hs Hc Hk Hx Hi. rewrite run_bind, (run_cas _ _ _ _ _ _ t) by done. rewrite Hk, run_bind.
  match goal with |- context [run (note _ _ _ _ _) ?w1] => destruct (run_note u action "Trade" rid code w1) as [l ->] end.
  eexists _, _. split; [reflexivity|]. done.
Qed.

Lemma settle_exact u trade row d (w : world) :
  trades (w_db w) !! t_id trade = Some row -> t_status row = Trade.PENDING -> t_id row = t_id trade -> t_status trade = Trade.PENDING ->
  let row' := apply_patch (settlement (now (w_db w)) d) row in
  exists w' t, run (settle_trade u trade d) w = (w', Ok t) /\
    trade_moved (t_id trade) row' w w' /\ t_status t = t_status row' /\ t_id t = t_id trade.
Proof.
  intros Hrow Hs Hid Ht. cbv zeta. destruct d as [o pid q avg pnl com sw|o pid|o r|o r c|o]; cbn [settle_trade settlement].
  2:{ unfold settle_working. rewrite run_bind, run_db, run_trade_update. unfold update_row. rewrite Hrow. cbn [run inject].
      eexists _, _. split; [reflexivity|]. split; [by repeat split|]. split; [cbn; congruence|done]. }
  1: unfold settle_filled; rewrite run_bind, run_sel.
  all: eapply run_moved; [exact Hrow|done|done|cbn [settled_as]; reflexivity|done|done].
Qed.

(** What a dispatch that threw makes of the pending trade. *)
Definition failure_patch (err : dexn) : TradePatch :=
  match err with
  | MarketSafetyError _ | Platform (FinalDispatchBlocked _) => settle_patch Trade.REJECTED (Some DEFINITELY_NOT_SENT)
  | _ => settle_patch Trade.RECONCILIATION_PENDING (Some MAY_HAVE_REACHED_PROVIDER)
  end.

Lemma reject_exact u z trade row source code (w : world) :
  trades (w_db w) !! t_id trade = Some row -> t_status row = Trade.PENDING -> t_id row = t_id trade ->
  exists w' t, run (reject_unsent u z trade source code) w = (w', Ok t) /\
    trade_moved (t_id trade) (apply_patch (settle_patch Trade.REJECTED (Some DEFINITELY_NOT_SENT)) row) w w' /\
    t_status t = Trade.REJECTED /\ t_id t = t_id trade.
Proof.
  intros Hrow Hs Hid. unfold reject_unsent. rewrite run_bind, (run_cas _ _ _ _ _ _ row) by done.
  rewrite run_bind, run_db, run_catch. unfold markRejected, intent_cas. rewrite run_op. cbn [inject]. rewrite run_bind.
  match goal with |- context [run (note _ _ _ ?a ?c) ?w1] => destruct (run_note u "TRADE_REJECTED" "Trade" a c w1) as [l ->] end.
  eexists _, _. split; [reflexivity|]. by repeat split.
Qed.

Lemma failed_exact u z trade row err (w : world) :
  trades (w_db w) !! t_id trade = Some row -> t_status row = Trade.PENDING -> t_id row = t_id trade ->
  let row' := apply_patch (failure_patch err) row in
  exists w' t, run (dispatch_failed (A := A) (P := P) code_text u z trade err) w = (w', Ok t) /\
    trade_moved (t_id trade) row' w w' /\ t_status t = t_status row' /\ t_id t = t_id trade.
Proof.
  intros Hrow Hs Hid. cbv zeta.
  destruct err as [e| | | |]; cbn [dispatch_failed failure_patch]; [destruct e| | | |];
    lazymatch goal with
    | |- context [reject_unsent] => by apply reject_exact
    | |- _ => eapply run_moved; [exact Hrow|done|done|reflexivity|done|done]
    end.
Qed.

(** *** The dispatch of a reserved trade *)

(** What a trade is about. *)
Definition same_terms (t t' : TradeRow) : Prop :=
  (t_id t', t_userId t', t_idempotencyKey t', t_tradeIntentId t', t_signalId t', t_brokerConnectionId t', t_tradingSessionId t',
   t_instrument t', t_direction t', t_lotSize t') =
  (t_id t, t_userId t, t_idempotencyKey t, t_tradeIntentId t, t_signalId t, t_brokerConnectionId t, t_tradingSessionId t,
   t_instrument t, t_direction t, t_lotSize t).

(** What the order [newOrderId] came to is what the trade it was sent for says. *)
Definition came_to (newOrderId : string) (row : TradeRow) (w w' : world) : Prop :=
  let ordered P := exists o, stored_row o w' /\ o_id o = newOrderId /\ t_orderId row = Some newOrderId /\ P o in
  match t_status row with
  | Trade.OPEN => ordered (fun o => o_status o = Order.FILLED \/ o_status o = Order.PARTIALLY_FILLED) /\
      t_openedAt row <> None /\ t_fillPrice row <> None
  | Trade.PENDING => ordered (fun o => o_status o = Order.ACKNOWLEDGED /\ o_providerOrderId o = t_externalOrderId row)
  | Trade.REJECTED => ordered (fun o => o_status o = Order.REJECTED) \/
      (w_wire w' = w_wire w /\ t_dispatchCertainty row = Some (certainty_text DEFINITELY_NOT_SENT))
  | Trade.RECONCILIATION_PENDING => ordered (fun o => o_status o = Order.RECONCILIATION_PENDING) \/ w_wire w' = w_wire w
  | _ => False
  end.

Lemma came_outcome newOrderId time d row w w' :
  Dispatch.recorded d w' -> match d with D_DUPLICATE _ => w_wire w' = w_wire w | _ => o_id (order_of d) = newOrderId end ->
  t_status row = Trade.PENDING ->
  (match d with D_DUPLICATE _ => True | _ => t_orderId row = Some newOrderId end) ->
  came_to newOrderId (apply_patch (settlement time d) row) w w'.
Proof.
  intros Hrec Hid Hs Ho. unfold came_to. destruct d as [o pid q avg pnl com sw|o pid|o r|o r c|o]; cbn in *.
  - destruct Hrec as [Hst Hf]. split; [by exists o|done].
  - destruct Hrec as (Hst & Hf & Hp). rewrite Hs. exists o. cbn. by rewrite Hp.
  - destruct Hrec as (Hst & Hf & _). left. by exists o.
  - destruct Hrec as [Hst Hf]. left. by exists o.
  - by right.
Qed.

Lemma came_failure newOrderId err row w w' : w_wire w' = w_wire w -> came_to newOrderId (apply_patch (failure_patch err) row) w w'.
Proof. intros Hw. unfold came_to. destruct err as [e| | | |]; cbn; [destruct e; cbn|..]; auto. Qed.

Abbreviation execute_reserved := (execute_reserved (A := A) (P := P) sha256 decrypt message_of code_text).

Lemma run_link id orderId row (w : world) :
  trades (w_db w) !! id = Some row ->
  run (link_order id orderId) w = (put_db (set_trades (<[id := with_order (Some orderId) row]> (trades (w_db w))) (w_db w)) w, Ok tt).
Proof.
  intros Hrow. unfold link_order. rewrite run_db, run_catch, run_bind, run_trade_update. unfold update_row. by rewrite Hrow.
Qed.

(** The dispatch that answered [d], then the link to its order. *)
Lemma linked_exact u d trade row o (w : world) :
  trades (w_db w) !! t_id trade = Some row -> t_id row = t_id trade -> t_status row = Trade.PENDING -> t_status trade = Trade.PENDING ->
  o <> "" -> match d with D_DUPLICATE _ => True | _ => order_id_of d = o end ->
  exists w' t row',
    run (do! (if bool_decide (order_id_of d = "") then Ret tt else link_order (t_id trade) (order_id_of d)) in
         settle_trade u (if bool_decide (order_id_of d = "") then trade else with_order (Some (order_id_of d)) trade) d)%prog w
      = (w', Ok t) /\
    trade_moved (t_id trade) row' w w' /\ t_status t = t_status row' /\ t_id t = t_id trade /\
    exists lrow time, row' = apply_patch (settlement time d) lrow /\ same_terms row lrow /\ t_status lrow = Trade.PENDING /\
      match d with D_DUPLICATE _ => True | _ => t_orderId lrow = Some o end.
Proof.
  intros Hrow Hid Hs Hst Ho Hd. rewrite run_bind. case_bool_decide as He.
  - destruct (settle_exact u trade row d w Hrow) as (w' & t & Hr & Hm & Hts & Hti); [done..|]. cbn [run].
    eexists w', t, _. split; [exact Hr|]. split; [exact Hm|]. split; [done|]. split; [done|]. exists row. eexists. split; [done|].
    split; [done|]. split; [done|]. destruct d; try done; cbn in He, Hd; congruence.
  - rewrite (run_link _ _ row) by done. set (lrow := with_order _ row). set (ltrade := with_order _ trade).
    match goal with |- context [run _ ?w1] => destruct (settle_exact u ltrade lrow d w1) as (w' & t & Hr & (Hm1 & Hm2 & Hm3) & Hts & Hti) end.
    1: cbn; by rewrite lookup_insert_eq. 1-3: done.
    eexists w', t, _. split; [exact Hr|]. split; [split; [rewrite Hm1; apply insert_insert_eq|done]|]. split; [done|]. split; [done|].
    exists lrow. eexists. split; [done|]. split; [done|]. split; [done|]. destruct d; try done; cbn in Hd |- *; by rewrite Hd.
Qed.

Lemma reserved_exact o u a z c trade row (w : world) :
  orders_wf (w_db w) -> o <> "" -> trades (w_db w) !! t_id trade = Some row -> t_id row = t_id trade ->
  t_status row = Trade.PENDING -> t_status trade = Trade.PENDING ->
  exists w' t row', run (execute_reserved o u a z c trade) w = (w', Ok t) /\
    trades (w_db w') = <[t_id trade := row']> (trades (w_db w)) /\ t_status t = t_status row' /\ t_id t = t_id trade /\
    same_terms row row' /\ came_to o row' w w'.
Proof.
  intros Hwf Ho Hrow Hid Hs Hst. unfold execute_reserved. rewrite run_bind, run_db. unfold markExecuted, intent_cas. rewrite run_op.
  cbn [inject]. rewrite run_bind.
  match goal with |- context [run (note ?u ?a ?r ?i ?c) ?w1] => destruct (run_note u a r i c w1) as [l ->] end.
  match goal with |- context [put_db (set_audit l ?d) ?w1] => set (w1' := put_db (set_audit l d) w1) end.
  assert (orders_wf (w_db w1')) as Hwf1 by exact Hwf.
  assert (trades (w_db w1') = trades (w_db w)) as Ht1 by done. assert (w_wire w1' = w_wire w) as Hw1 by done.
  assert (orders (w_db w1') = orders (w_db w)) as Ho1 by done. clearbody w1'.
  rewrite run_bind, run_attempt, run_bind.
  destruct (run (dispatch _ _ _ _) w1') as [w2 r] eqn:Hd.
  pose proof (dispatch_outcome _ _ _ _ _ _ _ _ _ _ _ Hwf1 Hd) as Hleft.
  assert (trades (w_db w2) = trades (w_db w)) as Ht2.
  { pose proof (guar_run (on_db same_ledger) _ w1' ltac:(typeclasses eauto) (core_dispatch sha256 decrypt message_of code_text o
      (entry_intent u a z (t_id trade)) (az_connection z) (Some (mkCommitment (g_id (az_grant z)) c (Some (origin_of c)))))) as Hq.
    rewrite Hd in Hq. unfold on_db, same_ledger in Hq. cbn [fst] in Hq. congruence. }
  rewrite <- Ht2 in Hrow. destruct r as [d|err].
  - destruct Hleft as [Hrec Hout].
    destruct (linked_exact u d trade row o w2) as (w' & t & row' & Hr & (Hm1 & Hm2 & Hm3) & Hts & Hti & lrow & time & -> & Hsame & Hls & Hlo);
      [done..|by destruct d|].
    exists w', t, (apply_patch (settlement time d) lrow). split.
    { revert Hr. rewrite run_bind, run_bind. match goal with |- context [run ?p w2] => by destruct (run p w2) as [w3 [[]|e]] end. }
    split; [congruence|]. split; [done|]. split; [done|]. split; [done|]. apply came_outcome; [| |done|done].
    + assert (orders (w_db w') = orders (w_db w2)) as Ho2 by congruence. unfold Dispatch.recorded, stored_row in *. by rewrite Ho2.
    + destruct d; try done. destruct Hout. congruence.
  - destruct Hleft as [Hw _]. cbn [run]. destruct (failed_exact u z trade row err w2 Hrow Hs Hid) as (w' & t & Hr & (Hm1 & Hm2 & Hm3) & Hts & Hti).
    exists w', t, (apply_patch (failure_patch err) row). split; [exact Hr|]. split; [congruence|]. split; [done|]. split; [done|].
    split; [done|]. apply came_failure. congruence.
Qed.

(** *** The reservation *)

Definition trades_keyed (d : DB) : Prop := forall id t, trades d !! id = Some t -> t_id t = id.

Lemma reserve_exact hash newId p d :
  trades_keyed d ->
  match run (transaction (TradeReservation.reserve_slot hash newId p)) d with
  | (d', Ok (TradeReservation.DUPLICATE_EXISTING t)) =>
      d' = d /\ trades d !! t_id t = Some t /\ TradeReservation.has_key (TradeReservation.key_of hash p) t = true
  | (d', Ok (TradeReservation.RESERVED_NEW t)) =>
      TradeReservation.new_trade hash newId p = Ok t /\ trades d !! newId = None /\ d' = set_trades (<[newId := t]> (trades d)) d
  | (d', Err _) => d' = d
  end.
Proof.
  intros Hwf. rewrite run_transaction. unfold TradeReservation.reserve_slot. run_simpl. destruct (find_row _ _) as [t|] eqn:Hf.
  - cbn [run]. apply find_row_some in Hf as (id & Hid & Hk). by rewrite (Hwf _ _ Hid).
  - rewrite run_bind, run_attempt, run_op. unfold TradeReservation.insert_slot.
    destruct (TradeReservation.new_trade hash newId p) as [t|e] eqn:Ht; [|by destruct (isUniqueViolation e)].
    unfold TradeReservation.trade_insert. apply rmap_ok in Ht as (lots & Hl & ->).
    case_bool_decide as H1; [done|]. case_bool_decide as H2; [done|]. cbn [run].
    split; [done|]. split; [|done]. by apply eq_None_not_Some in H1.
Qed.

(** *** An execution *)

(** The trade [row] is for the order that was approved for [u]. *)
Definition approved_terms (u : string) (a : RiskEngine.RiskApprovalResult) (row : TradeRow) : Prop :=
  let order := RiskEngine.ra_validatedOrder a in
  t_userId row = u /\ t_signalId row = Some (RiskEngine.ra_signalId a) /\ t_tradingSessionId row = Some (RiskEngine.ra_sessionId a) /\
  t_instrument row = vo_instrument order /\ t_direction row = vo_direction order /\
  Capital.numeric_column 10 4 (vo_lotSize order) = Ok (t_lotSize row).

Lemma new_terms hash t u a z row lrow :
  TradeReservation.new_trade hash t (reserve_params u a z) = Ok row -> same_terms row lrow -> approved_terms u a lrow.
Proof.
  intros Hn Hs. apply rmap_ok in Hn as (lots & Hl & ->). unfold same_terms in Hs. cbn in Hs. unfold approved_terms.
  injection Hs as ????????? Hlots. repeat split; try congruence. by rewrite Hlots.
Qed.

(** C4: An execution that runs alone answers the stored trade, and the trade says what its order
    came to.  When it throws, it changed no trade and called no provider.  When it answers,
    the answer has the status of the stored row, which is either the trade that this decision
    was executed as before, with no trade changed and no provider call; or a new trade, the only
    one that changed, for the approved instrument, direction and size, which is: OPEN with its
    fill exactly when the order it is linked to was filled, wholly or in part; PENDING under the
    provider's id when the order was acknowledged; REJECTED when the order was, or when the
    dispatch was refused before any provider call; RECONCILIATION_PENDING when the order is, or
    when no provider call was made at all. *)
Theorem execute_settles t o u a c w w' r :
  orders_wf (w_db w) -> trades_keyed (w_db w) -> o <> "" ->
  run (executeTrade (A := A) (P := P) sha256 date_parses catalog isSupported decrypt message_of code_text t o u (RiskEngine.APPROVED a) c) w
    = (w', r) ->
  match r with
  | Err _ => trades (w_db w') = trades (w_db w) /\ w_wire w' = w_wire w
  | Ok trade => exists row,
      trades (w_db w') !! t_id trade = Some row /\ t_status trade = t_status row /\
      ((trades (w_db w') = trades (w_db w) /\ w_wire w' = w_wire w /\
        t_idempotencyKey row = TradeReservation.generateIdempotencyKey (hash_text sha256) u
          (vo_instrument (RiskEngine.ra_validatedOrder a)) (vo_direction (RiskEngine.ra_validatedOrder a)) (RiskEngine.ra_signalId a)) \/
       (trades (w_db w) !! t = None /\ t_id trade = t /\ trades (w_db w') = <[t := row]> (trades (w_db w)) /\
        approved_terms u a row /\ came_to o row w w'))
  end.
Proof.
  intros Hwf Hkeyed Ho. cbn [executeTrade]. rewrite run_bind.
  destruct (run (authorise_execution _ _ _ _ u a c) w) as [w1 [z|e]] eqn:Hz.
  2:{ intros [= <- <-]. eapply quiet_step; [apply quiet_authorise|exact Hz]. }
  pose proof (quiet_step _ _ _ _ (quiet_authorise u a c) Hz) as [Ht1 Hw1].
  assert (orders_wf (w_db w1)) as Hwf1.
  { pose proof (wf_run (authorise_execution sha256 date_parses catalog isSupported u a c) w) as Hq. rewrite Hz in Hq. apply Hq; [|done]. apply (sound_authorise sha256 date_parses catalog isSupported decrypt message_of code_text). }
  assert (trades_keyed (w_db w1)) as Hk1 by (unfold trades_keyed; by rewrite Ht1).
  rewrite run_bind, run_db. pose proof (reserve_exact (hash_text sha256) t (reserve_params u a z) (w_db w1) Hk1) as Hres.
  destruct (run (transaction _) (w_db w1)) as [d [[row|row]|e]]; cbn [inject].
  - destruct Hres as (Hnew & Hfree & ->). set (w2 := put_db _ w1).
    assert (t_id row = t /\ t_status row = Trade.PENDING) as [Hid Hs] by (by apply rmap_ok in Hnew as (lots & _ & ->)).
    destruct (reserved_exact o u a z c (hydrateTradeRow row) row w2) as (w3 & tr & row' & -> & Ht3 & Hst & Hti & Hsame & Hcame);
      [done|done|cbn; by rewrite Hid, lookup_insert_eq|done..|].
    intros [= <- <-]. cbn [t_id hydrateTradeRow with_order] in Ht3, Hti. rewrite Hid in Ht3, Hti. exists row'.
    assert (trades (w_db w3) = <[t := row']> (trades (w_db w))) as Ht' by (rewrite Ht3; cbn; rewrite insert_insert_eq; congruence).
    rewrite Hti, Ht', lookup_insert_eq. split; [done|]. split; [done|]. right. split; [congruence|]. split; [done|]. split; [done|].
    split; [by eapply new_terms|]. revert Hcame. unfold came_to. change (w_wire w2) with (w_wire w1). by rewrite Hw1.
  - destruct Hres as (-> & Hrow & Hk). rewrite run_bind.
    match goal with |- context [run (note ?u ?a ?r ?i ?c) ?w2] => destruct (run_note u a r i c w2) as [l ->] end.
    rewrite run_bind, run_db. unfold markExecuted, intent_cas. rewrite run_op. cbn [inject run]. intros [= <- <-].
    exists row. split; [exact Hrow|]. split; [done|]. left. split; [exact Ht1|]. split; [exact Hw1|]. by apply bool_decide_eq_true in Hk.
  - subst d. intros [= <- <-]. done.
Qed.

End runs.

(** ** A close *)

Section closes.
Context {A P : Type} `{!EqDecision A, !BrokerAdapter A P, !PgNumeric}.
Context (sha256 : chars -> string)
        (decrypt : option string -> option string -> option string -> option string -> result BrokerAdapterError DecryptedBrokerCredentials)
        (message_of : dexn -> string) (code_text : FinalDispatchBlockedReason -> string).

Abbreviation world := (World A P).
Abbreviation dispatch := (dispatchOrderUnderLease (A := A) (P := P) sha256 decrypt message_of code_text).

Abbreviation closeTrade := (closeTrade (A := A) (P := P) sha256 decrypt message_of code_text).

(** What the outcome of a close makes of the open trade. *)
Definition close_settlement (time : Z) (reason : string) (pnl : option (option Z)) (d : ProviderDispatchOutcome) : TradePatch :=
  let unresolved certainty :=
    mkTradePatch (Some Trade.RECONCILIATION_PENDING) None None None (Some (Some reason)) (Some (Some (certainty_text certainty)))
      None None None in
  match d with
  | D_FILLED _ _ _ avgFillPrice _ _ _ =>
      mkTradePatch (Some Trade.CLOSED) None None (Some (Some time)) (Some (Some reason)) None None (Some (Some avgFillPrice)) pnl
  | D_UNKNOWN _ _ certainty => unresolved certainty
  | _ => unresolved MAY_HAVE_REACHED_PROVIDER
  end.

(** What settling the outcome [d] of a close of [trade], stored as [row], leaves. *)
Definition close_left (trade row : TradeRow) (reason : string) (d : ProviderDispatchOutcome) (w w' : world) (r : result dexn TradeRow) : Prop :=
  match r with
  | Err e => w' = w /\
      ((exists o text, d = D_REJECTED o text) \/
       (exists o pid q avg pnl com sw e, d = D_FILLED o pid q avg (Some pnl) com sw /\ Capital.numeric_column 18 8 pnl = Err e))
  | Ok t => t_id t = t_id trade /\
      ((exists o, d = D_DUPLICATE o /\ t = trade /\ w' = w) \/
       (exists time pnl, trade_moved (t_id trade) (apply_patch (close_settlement time reason pnl d) row) w w' /\
          t_status t = t_status (apply_patch (close_settlement time reason pnl d) row) /\
          match d with D_DUPLICATE _ | D_REJECTED _ _ => False | _ => True end))
  end.

Lemma close_exact u reason trade row d (w w' : world) r :
  trades (w_db w) !! t_id trade = Some row -> t_status row = Trade.OPEN -> t_id row = t_id trade ->
  run (settle_close u reason trade d) w = (w', r) -> close_left trade row reason d w w' r.
Proof.
  intros Hrow Hs Hid.
  assert (forall to patch source action code (k : TradeCasOutcome -> wio TradeRow),
    Trade.can (Known Trade.OPEN) to = true -> t_status (apply_patch patch row) = to ->
    k (APPLIED (apply_patch patch row)) = (do! note u action "Trade" (t_id row) code in Ret (apply_patch patch row))%prog ->
    exists w' t, run (bind (cas u (t_id trade) Trade.OPEN to patch source) k) w = (w', Ok t) /\
      trade_moved (t_id trade) (apply_patch patch row) w w' /\ t_status t = to /\ t_id t = t_id trade) as Hmove.
  { intros to patch source action code k Hc Ht Hk. by eapply run_moved; [..|exact Hk|exact Ht|exact Hid]. }
  destruct d as [o pid q avg pnl com sw|o pid|o text|o text c|o]; cbn [settle_close]; unfold close_left.
  - unfold close_filled. rewrite run_bind, run_sel, run_bind, run_db. destruct (reported_pnl pnl) as [v|e] eqn:Hp; cbn [of_result run inject].
    2:{ intros [= <- <-]. split; [by destruct w|right]. unfold reported_pnl in Hp. destruct pnl as [raw|]; [|done].
        destruct (Capital.numeric_column 18 8 raw) as [x|e'] eqn:Hn; [done|]. by do 8 eexists. }
    assert (put_db (w_db w) w = w) as -> by by destruct w. edestruct Hmove as (w1 & t & Hr & Hm & Ht & Hi); [| | |rewrite Hr]; try reflexivity.
    intros [= <- <-]. split; [done|]. right. by exists (now (w_db w)), v.
  - edestruct Hmove as (w1 & t & Hr & Hm & Ht & Hi); [| | |unfold close_unresolved; rewrite Hr]; try reflexivity.
    intros [= <- <-]. split; [done|]. right. by exists 0, None.
  - intros [= <- <-]. split; [done|]. left. by exists o, text.
  - edestruct Hmove as (w1 & t & Hr & Hm & Ht & Hi); [| | |unfold close_unresolved; rewrite Hr]; try reflexivity.
    intros [= <- <-]. split; [done|]. right. by exists 0, None.
  - intros [= <- <-]. split; [done|]. left. by exists o.
Qed.

(** What a trade that was open says after a close, and what its close order came to. *)
Definition close_came_to (newOrderId reason : string) (row row' : TradeRow) (w w' : world) : Prop :=
  let ordered P := exists o, stored_row o w' /\ o_id o = newOrderId /\ P o in
  match t_status row' with
  | Trade.CLOSED => ordered (fun o => o_status o = Order.FILLED \/ o_status o = Order.PARTIALLY_FILLED) /\
      t_closedAt row' <> None /\ t_closeReason row' = Some reason /\ t_exitPrice row' <> None
  | Trade.RECONCILIATION_PENDING =>
      ordered (fun o => o_status o = Order.ACKNOWLEDGED \/ o_status o = Order.RECONCILIATION_PENDING) /\
      t_closeReason row' = Some reason /\ t_dispatchCertainty row' <> None
  | Trade.OPEN => row' = row /\ w_wire w' = w_wire w
  | _ => False
  end.

Lemma close_outcome newOrderId reason row time pnl d w w' :
  Dispatch.recorded d w' -> order_id_of d = newOrderId -> match d with D_DUPLICATE _ | D_REJECTED _ _ => False | _ => True end ->
  close_came_to newOrderId reason row (apply_patch (close_settlement time reason pnl d) row) w w'.
Proof.
  intros Hrec Hid Hd. unfold close_came_to. destruct d as [o pid q avg p com sw|o pid|o text|o text c|o]; cbn in *; [| |done| |done].
  - destruct Hrec as [Hst Hf]. split; [by exists o|done].
  - destruct Hrec as (Hst & Hf & _). split; [exists o; tauto|done].
  - destruct Hrec as [Hst Hf]. split; [exists o; tauto|done].
Qed.

(** The dispatch of a close, and what follows it. *)
Lemma dispatched_close o u reason trade b n reference (w w' : world) r :
  orders_wf (w_db w) -> trades (w_db w) !! t_id trade = Some trade -> t_status trade = Trade.OPEN ->
  run (let* d := dispatch o (close_intent u trade b n reference) b None in settle_close u reason trade d)%prog w = (w', r) ->
  match r with
  | Err e => trades (w_db w') = trades (w_db w) /\
      (w_wire w' = w_wire w \/ exists ord, stored_row ord w' /\ o_id ord = o /\
         (o_status ord = Order.REJECTED \/ o_status ord = Order.FILLED \/ o_status ord = Order.PARTIALLY_FILLED))
  | Ok t => t_id t = t_id trade /\ exists row',
      trades (w_db w') = <[t_id trade := row']> (trades (w_db w)) /\ t_status t = t_status row' /\ same_terms trade row' /\
      close_came_to o reason trade row' w w'
  end.
Proof.
  intros Hwf Hrow Hs. rewrite run_bind. destruct (run (dispatch _ _ _ _) w) as [w1 [d|e]] eqn:Hd;
    pose proof (dispatch_outcome _ _ _ _ _ _ _ _ _ _ _ Hwf Hd) as Hleft.
  all: assert (trades (w_db w1) = trades (w_db w)) as Ht1
    by (pose proof (guar_run (on_db same_ledger) _ w ltac:(typeclasses eauto) (core_dispatch sha256 decrypt message_of code_text o
          (close_intent u trade b n reference) b None)) as Hq; by rewrite Hd in Hq).
  2:{ intros [= <- <-]. split; [done|]. left. apply Hleft. }
  destruct Hleft as [Hrec Hout]. rewrite <- Ht1 in Hrow. intros Hr. apply (close_exact u reason trade trade) in Hr; [|done..].
  destruct r as [t|e].
  - destruct Hr as [Hti [(o' & -> & -> & ->)|(time & pnl & (Hm1 & Hm2 & Hm3) & Hts & Hnd)]]; (split; [done|]).
    + exists trade. split; [by rewrite <- Ht1, insert_id|]. split; [done|]. split; [done|]. unfold close_came_to. rewrite Hs.
      by destruct Hout.
    + eexists. split; [by rewrite Hm1, Ht1|]. split; [done|]. split; [done|]. apply close_outcome; [|by destruct d|done].
      unfold Dispatch.recorded, stored_row in *. by rewrite Hm2.
  - destruct Hr as [-> [(o' & text & ->)|(o' & pid & q & avg & pnl & com & sw & e' & -> & Hn)]].
    + split; [done|]. right. destruct Hrec as (Hst & Hf & _). by exists o'; tauto.
    + split; [done|]. right. destruct Hrec as (Hst & Hf). by exists o'; tauto.
Qed.

(** What a close that ran alone from [w] leaves. *)
Definition closed_alone (o id u reason : string) (w w' : world) (r : result dexn TradeRow) : Prop :=
  match r with
  | Err e => trades (w_db w') = trades (w_db w) /\
      (w_wire w' = w_wire w \/ exists ord, stored_row ord w' /\ o_id ord = o /\
         (o_status ord = Order.REJECTED \/ o_status ord = Order.FILLED \/ o_status ord = Order.PARTIALLY_FILLED))
  | Ok t => t_id t = id /\ exists row row',
      trades (w_db w) !! id = Some row /\ t_userId row = u /\ t_status row = Trade.OPEN /\
      trades (w_db w') = <[id := row']> (trades (w_db w)) /\ t_status t = t_status row' /\ same_terms row row' /\
      close_came_to o reason row row' w w'
  end.

Lemma close_alone o id u reason w w' r :
  orders_wf (w_db w) -> trades_keyed (w_db w) -> run (closeTrade o id u reason) w = (w', r) -> closed_alone o id u reason w w' r.
Proof.
  intros Hwf Hk. unfold closed_alone, closeTrade. rewrite run_bind, run_sel. unfold owned_trade.
  destruct (trades (w_db w) !! id) as [row|] eqn:Hrow; [|intros [= <- <-]; auto].
  pose proof (Hk _ _ Hrow) as Hid. case_bool_decide as Hu; [|intros [= <- <-]; auto].
  case_bool_decide as Hs; [|intros [= <- <-]; auto]. cbn [negb]. destruct (provider_reference row) as [reference|]; [|intros [= <- <-]; auto].
  unfold find_connection. rewrite run_bind, run_db, run_op.
  destruct (findConnectionById _ _ _) as [b|e]; cbn [inject]; [|intros [= <- <-]; by destruct w; auto].
  assert (put_db (w_db w) w = w) as -> by by destruct w. rewrite run_bind.
  destruct (run (assertDispatchable _ _ _) w) as [w1 [[]|e]] eqn:Ha; pose proof (quiet_step _ _ _ _ (quiet_assert _ _ _) Ha) as [Ht1 Hw1].
  2:{ intros [= <- <-]. by split; [|left]. }
  assert (orders_wf (w_db w1)) as Hwf1.
  { pose proof (wf_run (assertDispatchable u b (Some CLOSE_POSITION)) w (core_assert _ _ _) Hwf) as Hq. by rewrite Ha in Hq. }
  rewrite run_bind, run_sel. intros Hr. rewrite <- Hid, <- Ht1 in Hrow. apply dispatched_close in Hr; [|done..].
  rewrite <- Hw1, <- Ht1, <- Hid. destruct r as [t|e]; [|exact Hr]. destruct Hr as (Hti & row' & Hm & Hts & Hsame & Hc).
  split; [done|]. exists row, row'. repeat (split; [done|]). revert Hc. unfold close_came_to. by rewrite Hw1.
Qed.
(** C5: A close that runs alone answers the stored trade, and the trade says what the close
    came to.  Only an OPEN trade of the caller is closed, and it is the only trade that
    changes, in its status and its settlement only.  It is CLOSED, with the time, the reason
    and the exit price, when the close order was filled, wholly or in part; it is
    RECONCILIATION_PENDING, under the requested reason, when the order rests or its outcome is
    unknown; it is still OPEN, with no provider call, when the attempt was a duplicate.  When
    the close throws no trade changed, and a provider call was made only if the order was
    rejected, or if it was filled and its P&L is not one the column takes. *)
Theorem close_settles o id u reason w w' r :
  orders_wf (w_db w) -> trades_keyed (w_db w) -> run (closeTrade o id u reason) w = (w', r) ->
  match r with
  | Err e => trades (w_db w') = trades (w_db w) /\
      (w_wire w' = w_wire w \/ exists ord, stored_row ord w' /\ o_id ord = o /\
         (o_status ord = Order.REJECTED \/ o_status ord = Order.FILLED \/ o_status ord = Order.PARTIALLY_FILLED))
  | Ok t => t_id t = id /\ exists row row',
      trades (w_db w) !! id = Some row /\ t_userId row = u /\ t_status row = Trade.OPEN /\
      trades (w_db w') = <[id := row']> (trades (w_db w)) /\ t_status t = t_status row' /\ same_terms row row' /\
      close_came_to o reason row row' w w'
  end.
Proof. apply close_alone. Qed.

(** *** The emergency sweep *)

(** A close alone moves its own trade only, and keeps the tables well formed. *)
Lemma close_frame o id u reason (w w' : world) r :
  orders_wf (w_db w) -> trades_keyed (w_db w) -> run (closeTrade o id u reason) w = (w', r) ->
  orders_wf (w_db w') /\ trades_keyed (w_db w') /\ forall i, i <> id -> trades (w_db w') !! i = trades (w_db w) !! i.
Proof.
  intros Hwf Hk Hr. split.
  { pose proof (wf_run (closeTrade o id u reason) w (proj1 (sound_close sha256 decrypt message_of code_text o id u reason)) Hwf) as Hq.
    by rewrite Hr in Hq. }
  apply close_alone in Hr; [|done..]. unfold closed_alone in Hr. destruct r as [t|e].
  - destruct Hr as (Hi & row & row' & Hrow & Hu & Hs & Ht & _ & Hsame & Hc). unfold trades_keyed. rewrite Ht. split.
    + intros i x. rewrite lookup_insert. case_decide as He; [|apply Hk]. intros [= <-]. injection Hsame. intros.
      pose proof (Hk _ _ Hrow). congruence.
    + intros i Hi'. by rewrite lookup_insert_ne.
  - destruct Hr as [Ht _]. unfold trades_keyed. by rewrite Ht.
Qed.

(** The answer of the sweep for [t] is what the store says of it. *)
Definition reported (w : world) (t : TradeRow) (c : CloseResult) : Prop :=
  cl_tradeId c = t_id t /\ exists row, trades (w_db w) !! t_id t = Some row /\ cl_status c = t_status row /\
    cl_closed c = bool_decide (t_status row = Trade.CLOSED).

Lemma sweep_reports ids u reason ts (w : world) :
  orders_wf (w_db w) -> trades_keyed (w_db w) -> NoDup (map t_id ts) ->
  Forall (fun t => trades (w_db w) !! t_id t = Some t /\ t_status t = Trade.OPEN) ts ->
  exists w' results,
    run (close_each sha256 decrypt message_of code_text ids u reason (failed_emergency message_of) ts) w = (w', Ok results) /\
    Forall2 (reported w') ts results /\ forall i, i ∉ map t_id ts -> trades (w_db w') !! i = trades (w_db w) !! i.
Proof.
  revert w. induction ts as [|t ts IH]; intros w Hwf Hk Hnd Hts.
  { exists w, []. by split. }
  cbn [map] in Hnd. apply NoDup_cons in Hnd as [Hnot Hnd]. apply Forall_cons in Hts as [[Hrow Hs] Hts].
  cbn [close_each]. rewrite run_bind, run_attempt. destruct (run (closeTrade _ _ _ _) w) as [w1 r] eqn:Hr.
  pose proof (close_frame _ _ _ _ _ _ _ Hwf Hk Hr) as (Hwf1 & Hk1 & Hframe). apply close_alone in Hr; [|done..].
  destruct (IH w1 Hwf1 Hk1 Hnd) as (w2 & results & Hrun & Hrep & Hframe2).
  { rewrite Forall_forall in Hts |- *. intros x Hx. destruct (Hts x Hx) as [<- ?]. split; [|done]. apply Hframe. intros He.
    apply Hnot. rewrite <- He. by apply list_elem_of_fmap_2. }
  assert (exists c, run (match r with Ok closed => Ret (close_answer (t_id t) closed) | Err err => failed_emergency message_of t err end) w1
      = (w1, Ok c) /\ reported w1 t c) as (c & Hc & Hrc).
  { destruct r as [t'|e]; (eexists; split; [reflexivity|]); (split; [done|]).
    - destruct Hr as (Hi & row & row' & _ & _ & _ & Ht & Hst & _). exists row'. rewrite Ht, lookup_insert_eq. cbn. by rewrite Hst.
    - destruct Hr as [Ht _]. exists t. rewrite Ht. by rewrite Hs. }
  rewrite run_bind, Hc, run_bind, Hrun. exists w2, (c :: results). split; [done|]. split.
  - constructor; [|done]. destruct Hrc as (Hid & row & Hl & Hrest). split; [done|]. exists row. by rewrite Hframe2.
  - intros i [Hi Hi']%not_elem_of_cons. rewrite Hframe2 by done. by apply Hframe.
Qed.

#[local] Instance opened_le_total : Total opened_le.
Proof. intros t t'. unfold opened_le. destruct (t_openedAt t), (t_openedAt t'); (lia || tauto). Qed.

(** What [open_trades] lists: the OPEN trades of the user, once each. *)
Lemma open_listed u where_ d t :
  t ∈ open_trades u where_ d <-> exists id, trades d !! id = Some t /\ t_userId t = u /\ t_status t = Trade.OPEN /\ where_ t = true.
Proof.
  unfold open_trades. rewrite merge_sort_Permutation, list_elem_of_In, filter_In, <- list_elem_of_In, list_elem_of_fmap.
  rewrite !andb_true_iff, !bool_decide_eq_true. split.
  - intros [([id x] & -> & Hx%elem_of_map_to_list) [[? ?] ?]]. by exists id.
  - intros (id & Hid & ? & ? & ?). split; [|done]. exists (id, t). split; [done|]. by apply elem_of_map_to_list.
Qed.

Lemma open_distinct u where_ d : trades_keyed d -> NoDup (map t_id (open_trades u where_ d)).
Proof.
  intros Hk. unfold open_trades. rewrite merge_sort_Permutation.
  assert (NoDup (map t_id (map snd (map_to_list (trades d))))) as Hnd.
  { rewrite map_map. rewrite (map_ext_in _ fst); [apply NoDup_fst_map_to_list|]. intros [id t] Hin. cbn. apply Hk.
    by apply elem_of_map_to_list, list_elem_of_In. }
  revert Hnd. generalize (map snd (map_to_list (trades d))). intros l. induction l as [|t l IH]; [done|]. cbn [map List.filter].
  intros [Hn Hl]%NoDup_cons. destruct (_ && _); [|by apply IH]. cbn [map]. constructor; [|by apply IH].
  intros Hin. apply Hn. apply list_elem_of_In, in_map_iff in Hin as (x & He & Hx%filter_In). rewrite <- He.
  apply list_elem_of_In, in_map_iff. exists x. by destruct Hx.
Qed.

(** C12: The emergency sweep tells the truth.  Alone, it never throws; it answers for exactly the
    OPEN trades of the user, one by one, oldest first, whatever became of each of them; for
    every trade the status it answers is the one that is stored, and it says closed exactly
    when the trade is CLOSED; and no other trade is touched. *)
Theorem flatten_reports ids u reason w w' r :
  orders_wf (w_db w) -> trades_keyed (w_db w) ->
  run (emergencyCloseAllOpenPositions sha256 decrypt message_of code_text ids u reason) w = (w', r) ->
  let targets := open_trades u (fun _ => true) (w_db w) in
  Sorted opened_le targets /\ NoDup (map t_id targets) /\
  (forall t, t ∈ targets <-> exists id, trades (w_db w) !! id = Some t /\ t_userId t = u /\ t_status t = Trade.OPEN) /\
  (exists results, r = Ok results /\ Forall2 (reported w') targets results) /\
  forall i, i ∉ map t_id targets -> trades (w_db w') !! i = trades (w_db w) !! i.
Proof.
  intros Hwf Hk Hr. cbv zeta. set (targets := open_trades u _ _).
  assert (forall t, t ∈ targets <-> exists id, trades (w_db w) !! id = Some t /\ t_userId t = u /\ t_status t = Trade.OPEN) as Hin.
  { intros t. unfold targets. rewrite open_listed. split; intros (id & ? & ? & ?); exists id; tauto. }
  split; [apply Sorted_merge_sort; apply _|]. split; [by apply open_distinct|]. split; [exact Hin|].
  revert Hr. unfold emergencyCloseAllOpenPositions. rewrite run_bind, run_sel. fold targets. case_bool_decide as He.
  - intros [= <- <-]. rewrite He. split; [by exists []|done].
  - destruct (sweep_reports ids u reason targets w Hwf Hk) as (w1 & results & Hrun & Hrep & Hframe); [by apply open_distinct| |].
    { apply Forall_forall. intros t (id & Hid & _ & Hs)%Hin. by rewrite (Hk _ _ Hid). }
    rewrite run_bind, Hrun, run_bind.
    match goal with |- context [run (note ?u ?a ?r ?i ?c) ?w2] => destruct (run_note u a r i c w2) as [l ->] end.
    intros [= <- <-]. split; [by exists results|exact Hframe].
Qed.

(** A close that is filled in part closes the trade.  When a close that ran alone called the
    provider and answered a trade, and its order is stored PARTIALLY_FILLED, the trade is
    stored CLOSED, although the rest of the position is still open at the provider. *)
Theorem partial_close_closed o id u reason w w' t ord :
  orders_wf (w_db w) -> trades_keyed (w_db w) -> run (closeTrade o id u reason) w = (w', Ok t) -> w_wire w' <> w_wire w ->
  orders (w_db w') !! o = Some ord -> o_status ord = Order.PARTIALLY_FILLED ->
  t_status t = Trade.CLOSED /\ exists row, trades (w_db w') !! id = Some row /\ t_status row = Trade.CLOSED.
Proof.
  intros Hwf Hk Hr Hw Ho Hp. apply close_alone in Hr; [|done..].
  destruct Hr as (_ & row & row' & _ & _ & _ & Ht & Hst & _ & Hc). assert (t_status row' = Trade.CLOSED) as Hs.
  { revert Hc. unfold close_came_to, stored_row. destruct (t_status row') eqn:E; try done.
    - by intros [_ ?].
    - intros [(x & Hx & Hid & Hor) _]. rewrite Hid, Ho in Hx. injection Hx as ->. destruct Hor; congruence. }
  split; [congruence|]. exists row'. by rewrite Ht, lookup_insert_eq.
Qed.
End closes.

(** ** Samples *)

Definition sample_approval : RiskEngine.RiskApprovalResult :=
  RiskEngine.mkApproval "sig1" (mkValidated "EURUSD" "BUY" "0.1" "1.1001" "1.09" "1.12" None "key9" None) [] 1000 "g1" "s1" 7
    FULL_AUTO "b1" None None None.

Definition usable_decision : TradeIntent :=
  Store.mkIntent "n1" "u1" "u1:sig1" "sig1" 900 "b1" None (Some "s1") None None None "EURUSD" "BUY" "MARKET" "0.1" None
    (Some "1.09") (Some "1.12") None 5000 None 3 (Some 1) (Some 1) (Some 4) Intent.CREATED None.

Definition open_trade (id : string) (openedAt : Z) : TradeRow :=
  mkTrade id "u1" ("key-" +:+ id) None Trade.OPEN (Some ("p-" +:+ id)) (Some "1.1001") None None None (Some ("sig-" +:+ id)) None
    None None None "b1" (Some "s1") "EURUSD" "BUY" 1000 None None None (Some openedAt).

(** The dispatch sample's store, with the user's decision and these trades. *)
Definition trading_world (open : list TradeRow) (script : Script) : World (string * bool) Script :=
  mkWorld (set_intents {["n1" := usable_decision]}
             (set_trades (list_to_map ((fun t => (t_id t, t)) <$> open)) (boundary_db FULL_AUTO "oanda" "DEMO")))
    sample_registry script [].

Abbreviation sample_execute :=
  (executeTrade string_of (fun _ => true) Provider.Live.BROKER_CATALOG (fun _ => true) sample_decrypt (fun _ => "failed") (fun _ => "CODE")).
Abbreviation sample_close := (Execution.closeTrade string_of sample_decrypt (fun _ => "failed") (fun _ => "CODE")).
Abbreviation sample_sweep := (emergencyCloseAllOpenPositions string_of sample_decrypt (fun _ => "failed") (fun _ => "CODE")).

Definition half_filled : BrokerOrderResult :=
  mkResult true FILLED (Some "p1") (Some "1.1001") (Some "0.05") None None None None.

Lemma trading_wf open script :
  orders_wf (w_db (trading_world open script)) /\ trades_keyed (w_db (trading_world open script)).
Proof.
  split; [exact (proj2 (boundary_db_wf FULL_AUTO "oanda" "DEMO"))|]. intros id t Ht. cbn in Ht.
  apply elem_of_list_to_map_2, list_elem_of_fmap in Ht as (x & [= -> ->] & _). done.
Qed.

(** An approval that is filled. *)
Lemma execute_settles_witness :
  let w := trading_world [] [Ok filled_reply] in
  let r := run (sample_execute "t2" "o2" "u1" (RiskEngine.APPROVED sample_approval) None) w in
  exists trade row, snd r = Ok trade /\ t_status trade = Trade.OPEN /\ trades (w_db (fst r)) !! "t2" = Some row /\
    approved_terms "u1" sample_approval row /\ came_to "o2" row w (fst r).
Proof.
  intros w r. destruct (trading_wf [] [Ok filled_reply]) as [Hwf Hk].
  assert (exists trade, snd r = Ok trade /\ t_status trade = Trade.OPEN /\ t_id trade = "t2") as (trade & Hr & Hs & Hid)
    by (vm_compute; eexists; repeat split; reflexivity).
  pose proof (execute_settles string_of (fun _ => true) Provider.Live.BROKER_CATALOG (fun _ => true) sample_decrypt (fun _ => "failed")
    (fun _ => "CODE") "t2" "o2" "u1" sample_approval None w (fst r) (snd r) Hwf Hk ltac:(discriminate) (surjective_pairing r)) as H.
  rewrite Hr in H. destruct H as (row & Hrow & _ & [(Hsame & _)|(_ & _ & _ & Hterms & Hcame)]).
  - exfalso. rewrite Hid, Hsame in Hrow. vm_compute in Hrow. discriminate Hrow.
  - rewrite Hid in Hrow. exists trade, row. auto.
Defined.

(** A close that the broker refuses. *)
Lemma close_settles_witness :
  let w := trading_world [open_trade "t1" 500] [Ok (refused "market closed")] in
  let r := run (sample_close "o2" "t1" "u1" "MANUAL_CLOSE") w in
  (exists e, snd r = Err e) /\ trades (w_db (fst r)) = trades (w_db w) /\
  exists ord, stored_row ord (fst r) /\ o_id ord = "o2".
Proof.
  intros w r. destruct (trading_wf [open_trade "t1" 500] [Ok (refused "market closed")]) as [Hwf Hk].
  assert (exists e, snd r = Err e) as [e He] by (vm_compute; eexists; reflexivity).
  pose proof (close_settles string_of sample_decrypt (fun _ => "failed") (fun _ => "CODE") "o2" "t1" "u1" "MANUAL_CLOSE" w (fst r) (snd r)
    Hwf Hk (surjective_pairing r)) as H.
  rewrite He in H |- *. destruct H as [Ht [Hw|(ord & Hst & Hid & _)]].
  - exfalso. vm_compute in Hw. discriminate Hw.
  - split; [exists e; reflexivity|]. split; [exact Ht|]. exists ord. split; [exact Hst|exact Hid].
Defined.

(** Two positions, of which the broker closes the older one. *)
Lemma flatten_reports_witness :
  let w := trading_world [open_trade "t2" 700; open_trade "t1" 500] [Ok filled_reply; Ok (refused "market closed")] in
  let r := run (sample_sweep (fun n => if bool_decide (n = O) then "o3" else "o2") "u1" "KILL_SWITCH_FORCE_CLOSE") w in
  exists results, snd r = Ok results /\ map cl_tradeId results = ["t1"; "t2"] /\ map cl_closed results = [true; false] /\
    Forall2 (reported (fst r)) [open_trade "t1" 500; open_trade "t2" 700] results.
Proof.
  intros w r. destruct (trading_wf [open_trade "t2" 700; open_trade "t1" 500] [Ok filled_reply; Ok (refused "market closed")]) as [Hwf Hk].
  destruct (flatten_reports string_of sample_decrypt (fun _ => "failed") (fun _ => "CODE") (fun n => if bool_decide (n = O) then "o3" else "o2")
    "u1" "KILL_SWITCH_FORCE_CLOSE" w (fst r) (snd r) Hwf Hk (surjective_pairing r)) as (_ & _ & _ & (results & Hr & Hrep) & _).
  exists results. split; [exact Hr|]. assert (snd r = Ok results) as Hr' by exact Hr.
  vm_compute in Hr'. injection Hr' as <-. split; [reflexivity|]. split; [reflexivity|]. exact Hrep.
Defined.

Lemma partial_close_closed_witness :
  let w := trading_world [open_trade "t1" 500] [Ok half_filled] in
  let r := run (sample_close "o2" "t1" "u1" "MANUAL_CLOSE") w in
  exists t ord row, snd r = Ok t /\ orders (w_db (fst r)) !! "o2" = Some ord /\ o_requested ord = 1000 /\ o_filled ord = 500 /\
    trades (w_db (fst r)) !! "t1" = Some row /\ t_status row = Trade.CLOSED.
Proof.
  intros w r. destruct (trading_wf [open_trade "t1" 500] [Ok half_filled]) as [Hwf Hk].
  assert (exists t ord, snd r = Ok t /\ orders (w_db (fst r)) !! "o2" = Some ord /\ o_requested ord = 1000 /\ o_filled ord = 500 /\
            o_status ord = Order.PARTIALLY_FILLED) as (t & ord & Hr & Ho & H1 & H2 & Hp)
    by (vm_compute; do 2 eexists; repeat split; reflexivity).
  destruct (partial_close_closed string_of sample_decrypt (fun _ => "failed") (fun _ => "CODE") "o2" "t1" "u1" "MANUAL_CLOSE" w (fst r) t ord
    Hwf Hk) as [_ (row & Hrow & Hs)].
  - rewrite <- Hr. exact (surjective_pairing r).
  - intros Hw. vm_compute in Hw. discriminate Hw.
  - exact Ho.
  - exact Hp.
  - exists t, ord, row. split; [exact Hr|]. split; [exact Ho|]. split; [exact H1|]. split; [exact H2|]. split; [exact Hrow|exact Hs].
Defined.

(** Closes of one trade that run together can both be sent: in this run, where no statement is
    lost, the second close read the trade while it was open, counts the first one's order as an
    earlier attempt, takes the next close id, which is free, and sends a second close of the same
    position for its whole size; and each of the two answers that the trade is CLOSED. *)
Lemma closes_sent_twice :
  let w := trading_world [open_trade "t1" 500] [Ok filled_reply; Ok filled_reply] in
  exists sched, Forall (fun s => s.2 = Exec) sched /\
    let c := exec (Platform DbUnavailable) sched
               (w, [sample_close "o2" "t1" "u1" "MANUAL_CLOSE"; sample_close "o3" "t1" "u1" "KILL_SWITCH_FORCE_CLOSE"]) in
    map wc_call (w_wire (fst c)) = [CloseOrder "p-t1" "0.1000"; CloseOrder "p-t1" "0.1000"] /\
    map wc_key (w_wire (fst c)) = ["u1:close-t1"; "u1:close-t1-2"] /\
    Forall (fun call => possibly_sent call = true) (w_wire (fst c)) /\
    exists t, snd c = [Ret t; Ret t] /\ t_status t = Trade.CLOSED.
Proof.
  intros w. exists ([(1%nat, Exec)] ++ replicate 40 (0%nat, Exec) ++ replicate 40 (1%nat, Exec)). split.
  { repeat (apply Forall_app; split); [by constructor|apply Forall_replicate; reflexivity..]. }
  cbv zeta. split; [vm_compute; reflexivity|]. split; [vm_compute; reflexivity|].
  split; [vm_compute; repeat constructor|vm_compute]. eexists. split; reflexivity.
Qed.
