(* ===== verification/ConfirmationSpecs.v ===== *)
(** * Properties of confirmations

    What [Confirmations] guarantees: a confirmation that runs alone sends exactly what the user
    confirmed; what is listed; and where confirming departs from its documentation: the
    re-evaluation is given neither the regime nor the timeframe of the proposal. *)

From S2P Require Import Prelude Prog JsString CanonicalJson StateMachines Store OrderService RiskGrants Authority Boundary.
From S2P Require Import JsMap AdapterRegistry Adapter MarketSafety Orchestrator Dispatch TradeCas TradeIntents RiskProfiles RiskRules.
From S2P Require Import RiskEngine RiskApproval RiskLimits Sessions Execution Confirmations ExecutionSpecs ExecutionRuns.
From S2P Require Provider TradeReservation Capital Sizing.
Import Provider.Operation Provider.Response.
Open Scope string_scope.
Open Scope list_scope.
Open Scope Z_scope.

(** ** What is sent *)

Section calls.
Context {A P : Type} `{!EqDecision A, !BrokerAdapter A P, !PgNumeric}.
Context (sha256 : chars -> string) (date_parses : chars -> bool)
        (catalog : list Provider.Live.BrokerDefinition) (isSupported : string -> bool)
        (decrypt : option string -> option string -> option string -> option string -> result BrokerAdapterError DecryptedBrokerCredentials)
        (message_of : dexn -> string) (code_text : FinalDispatchBlockedReason -> string).

Abbreviation world := (World A P).
Abbreviation dispatch := (dispatchOrderUnderLease (A := A) (P := P) sha256 decrypt message_of code_text).

(** The provider calls are those made before, and others that satisfy [Q]. *)
Definition sends (Q : WireCall -> Prop) (w w' : world) : Prop :=
  exists calls, w_wire w' = w_wire w ++ calls /\ Forall Q calls.

#[export] Instance sends_preorder Q : PreOrder (sends Q).
Proof.
  split; [intros w; exists []; by rewrite app_nil_r|]. intros x y z (l & Hl & Ql) (m & Hm & Qm). exists (l ++ m).
  rewrite Hm, Hl, app_assoc. split; [done|by apply Forall_app].
Qed.

Lemma sends_wire {X} Q (p : wio (A := A) (P := P) X) : guar same_wire p -> guar (sends Q) p.
Proof. apply guar_weaken. intros w w' Hw. exists []. by rewrite app_nil_r. Qed.

(** The call is the one that the intent is routed to. *)
Definition routed (i : ExecutionIntent) (c : WireCall) : Prop :=
  exists reference, routed_call i (key_of sha256 i) reference = Ok (wc_call c) /\ wc_key c = key_of sha256 i.

Lemma sends_retry Q n (p : wio BrokerOrderResult) : guar (sends Q) p -> guar (sends Q) (withRetry (A := A) (P := P) n p).
Proof. intros Hp. induction n as [|n IH]; [done|]. cbn [withRetry]. guar_walk; [done|apply IH]. Qed.

Lemma sends_provider i b g : guar (sends (routed i)) (dispatchToProvider (A := A) (P := P) sha256 decrypt i b g).
Proof.
  unfold dispatchToProvider. destruct (credentials_of _ _ _) as [cr|e]; [|done].
  apply guar_bind; [apply sends_wire; unfold connect_session; world_walk|]. intros [a answer]. case_match; [done|].
  apply sends_retry. unfold execute. destruct (routed_call _ _ _) as [call|e] eqn:Hc; [|done]. apply guar_op. intros w.
  unfold call_act. cbn [fst]; destruct (perform a call (w_provider w)) as [p r]. exists [mkWire (key_of sha256 i) g call r].
  split; [done|]. constructor; [|done]. by exists (accountId cr).
Qed.

Lemma sends_dispatch newId i b c : guar (sends (routed i)) (dispatch newId i b c).
Proof.
  unfold dispatchOrderUnderLease. apply guar_bind; [apply sends_wire, db_same_wire|]. intros [o|o].
  - apply guar_bind; [apply sends_wire, wire_prepare|]. intros r. unfold guarded.
    apply guar_bind; [apply guar_attempt, sends_provider|]. intros [x|e]; apply sends_wire; [apply wire_record|apply wire_settle].
  - apply sends_wire. unfold audit. world_walk.
Qed.

(** [p] sends nothing but what [Q] allows. *)
Definition sending Q {X} (p : wio (A := A) (P := P) X) : Prop := guar (sends Q) p.

(** The order of an approval: a MARKET order on its instrument, direction, size, stop and target. *)
Definition approved_call (u : string) (a : RiskApprovalResult) (c : WireCall) : Prop :=
  let order := ra_validatedOrder a in
  exists request, wc_call c = PlaceOrder request /\
    wc_key c = generateIdempotencyKey (hash_text sha256) u ("sig-" +:+ ra_signalId a) /\ br_idempotencyKey request = wc_key c /\
    br_instrument request = vo_instrument order /\ br_direction request = vo_direction order /\
    br_lotSize request = vo_lotSize order /\ br_stopLoss request = vo_stopLoss order /\ br_takeProfit request = vo_takeProfit order /\
    br_orderKind request = Some MARKET /\ br_limitPrice request = None /\ br_stopPrice request = None.

Lemma routed_approval u a z t c : routed (entry_intent u a z t) c -> approved_call u a c.
Proof. intros (reference & Hc & Hk). injection Hc as Hc. eexists. split; [by rewrite <- Hc|]. split; [exact Hk|]. by split. Qed.

Lemma sends_execute t o u a c :
  guar (sends (approved_call u a))
    (executeTrade (A := A) (P := P) sha256 date_parses catalog isSupported decrypt message_of code_text t o u (APPROVED a) c).
Proof.
  cbn [executeTrade]. apply guar_bind; [apply sends_wire, quiet_authorise|]. intros z.
  apply guar_bind; [apply sends_wire, db_same_wire|]. intros [row|row].
  2:{ apply sends_wire. unfold note. world_walk. }
  unfold execute_reserved. apply guar_bind; [apply sends_wire, db_same_wire|]. intros _.
  apply guar_bind; [apply sends_wire, db_same_wire|]. intros _. apply guar_bind.
  - apply guar_attempt, guar_bind.
    + eapply guar_weaken; [|apply sends_dispatch]. intros w w' (l & Hl & Hq). exists l. split; [done|].
      eapply Forall_impl; [exact Hq|]. apply routed_approval.
    + intros d. apply sends_wire. unfold link_order. world_walk.
  - intros [d|e]; apply sends_wire.
    + unfold settle_trade, settle_filled, settle_working, settle_rejected, settle_uncertain, cas, note. world_walk.
    + unfold dispatch_failed, reject_unsent, cas, note. world_walk.
Qed.
End calls.

(** ** Confirming *)

Section confirming.
Context {A P : Type} `{!EqDecision A, !BrokerAdapter A P, !PgNumeric}.
Context (sha256 : chars -> string) (date_parses : chars -> bool)
        (catalog : list Provider.Live.BrokerDefinition) (isSupported : string -> bool)
        (decrypt : option string -> option string -> option string -> option string -> result BrokerAdapterError DecryptedBrokerCredentials)
        (message_of : dexn -> string) (code_text : FinalDispatchBlockedReason -> string).
Context (ev : Sizing.Evidence) (broker : Broker) (ids : Ids) (time : Z).

Abbreviation world := (World A P).
Abbreviation confirm := (confirm (A := A) (P := P) sha256 date_parses catalog isSupported decrypt message_of code_text ev broker ids time).
Abbreviation execute := (executeTrade (A := A) (P := P) sha256 date_parses catalog isSupported decrypt message_of code_text).
Abbreviation evaluates u c := (validateProposedTrade sha256 ev broker ids u time (confirmed_trade u c) (Some (c_id c))).

(** The confirmation the user may still act on. *)
Definition confirmable (u id : string) (d : DB) (c : Confirmation) : Prop :=
  confirmations d !! id = Some c /\ c_userId c = u /\ c_status c = C_PENDING /\ now d < c_expiresAt c.

Lemma pending_some u id d c : pending_confirmation u id d = Some c -> confirmations d !! id = Some c /\ c_userId c = u /\ c_status c = C_PENDING.
Proof.
  unfold pending_confirmation, owned_confirmation. destruct (confirmations d !! id) as [x|]; [|done].
  do 2 (case_bool_decide; [|done]). by intros [= <-].
Qed.

(** A confirmation that is not refused is an evaluation of what was confirmed, approved without
    a material change, then its execution. *)
Lemma run_confirm t o u id (w w' : world) r :
  run (confirm t o u id) w = (w', r) ->
  (w_wire w' = w_wire w /\ is_ok r = false) \/
  exists c a d, confirmable u id (w_db w) c /\ run (evaluates u c) (w_db w) = (d, Ok (APPROVED a)) /\
    materialChange c (ra_validatedOrder a) = false /\
    exists r', run (execute t o u (APPROVED a) (Some id)) (put_db d w) = (w', r') /\
      r = match r' with Ok trade => Ok (mkConfirmed id (t_id trade) (t_status trade)) | Err e => Err e end.
Proof.
  unfold Confirmations.confirm. rewrite run_bind, run_sel. destruct (pending_confirmation _ _ _) as [c|] eqn:Hc; [|intros [= <- <-]; by left].
  apply pending_some in Hc as (Hid & Hu & Hs). destruct (c_expiresAt c <=? now (w_db w)) eqn:Ht; [intros [= <- <-]; by left|].
  rewrite run_bind, run_db. destruct (run (validateProposedTrade _ _ _ _ _ _ _ _) (w_db w)) as [d [[a|s k|s k]|e]] eqn:Hv; cbn [inject];
    [|intros [= <- <-]; by left..].
  destruct (materialChange c (ra_validatedOrder a)) eqn:Hm; [intros [= <- <-]; by left|]. rewrite run_bind.
  destruct (run (executeTrade _ _ _ _ _ _ _ _ _ _ _ _) (put_db d w)) as [w1 [trade|e]] eqn:He; intros [= <- <-]; right;
    exists c, a, d; (split; [split; [done|]; split; [done|]; split; [done|lia]|]); (split; [done|]); (split; [done|]); by eexists.
Qed.

(** The call asks for exactly what the user saw. *)
Definition confirmed_call (c : Confirmation) (call : WireCall) : Prop :=
  exists request, wc_call call = PlaceOrder request /\ br_orderKind request = Some MARKET /\
    br_instrument request = c_instrument c /\ br_direction request = c_direction c /\ br_lotSize request = c_quantity c /\
    (forall s, c_stopLoss c = Some s -> br_stopLoss request = s) /\ (forall s, c_takeProfit c = Some s -> br_takeProfit request = s) /\
    br_limitPrice request = None /\ br_stopPrice request = None.

Lemma unchanged_call u c a call :
  materialChange c (ra_validatedOrder a) = false -> approved_call sha256 u a call -> confirmed_call c call.
Proof.
  unfold materialChange, changed. intros Hm (request & Hc & _ & _ & Hi & Hd & Hl & Hs & Ht & Hk & Hp & Hq).
  repeat (apply orb_false_iff in Hm as [Hm ?]). exists request. bool_to_prop.
  split; [exact Hc|]. split; [exact Hk|]. split; [congruence|]. split; [congruence|]. split; [congruence|].
  split; [|split; [|done]]; intros x Hx; rewrite Hx in *; bool_to_prop; congruence.
Qed.

(** C11: A confirmation sends what the user confirmed.  When a confirmation runs alone, every
    state-changing provider call it makes is a MARKET order for the instrument, the direction,
    the quantity, the stop and the target of a confirmation that is pending, unexpired and the
    caller's, whatever the fresh evaluation came to; and it makes one only if the fresh
    evaluation approved the proposal. *)
Theorem confirm_sends t o u id w w' r :
  run (confirm t o u id) w = (w', r) ->
  exists calls, w_wire w' = w_wire w ++ calls /\
    (calls = [] \/ exists c a d, confirmable u id (w_db w) c /\ run (evaluates u c) (w_db w) = (d, Ok (APPROVED a)) /\
                     Forall (confirmed_call c) calls).
Proof.
  intros [[Hw _]|(c & a & d & Hc & Hv & Hm & r' & Hr & _)]%run_confirm; [exists []; rewrite app_nil_r; auto|].
  pose proof (guar_run (sends (approved_call sha256 u a)) _ (put_db d w) ltac:(typeclasses eauto)
    (sends_execute sha256 date_parses catalog isSupported decrypt message_of code_text t o u a (Some id))) as (calls & Hw & Hq).
  rewrite Hr in Hw. exists calls. split; [exact Hw|]. right. exists c, a, d. split; [done|]. split; [done|].
  eapply Forall_impl; [exact Hq|]. intros x. by apply unchanged_call.
Qed.

(** The default profile refuses every confirmation.  The re-evaluation is not given the
    regime of the proposal, and a profile that rejects low liquidity, as the default one does,
    rejects a proposal whose regime is unknown: unless the user has stored a profile with that
    check turned off, every confirmation throws and calls no provider. *)
Theorem confirm_regime_rejected t o u id w w' r :
  (forall p, profiles (w_db w) !! u = Some p -> rk_rejectLowLiquidity p = true) ->
  run (confirm t o u id) w = (w', r) -> is_ok r = false /\ w_wire w' = w_wire w.
Proof.
  intros Hp [[Hw Hr]|(c & a & d & Hc & Hv & _)]%run_confirm; [done|exfalso].
  apply approved_passed in Hv as (p & s & b & e & f & cu & live & lot & q & t' & quote & d1 & d2 & d3 & d4 & d5 & Hpass).
  destruct Hpass as [_ (r1 & r2 & Hy) _ _ _ _ _ _ _ _ _ _ _ _ _ (da & db & r3 & r4 & Hm)].
  apply profile_yields in Hy as (_ & m & _ & _ & Hprof). assert (rk_rejectLowLiquidity p = true) as Hrej.
  { destruct Hprof as [Hx|[_ ->]]; [by apply Hp|done]. }
  unfold check_market in Hm. cbn [confirmed_trade pt_volatilityScore pt_regime] in Hm.
  apply chain_yields in Hm as (? & ? & ? & _ & Hm). apply chain_yields in Hm as (? & ? & ? & _ & Hm).
  apply chain_yields in Hm as (? & ? & ? & [Hno _]%reject_if_yields & _). by rewrite Hrej in Hno.
Qed.
End confirming.

(** ** Listing *)

#[local] Instance created_le_total : Total created_le.
Proof. intros c c'. unfold created_le. lia. Qed.

Lemma latest_of_spec signalId gs found :
  (forall g, found = Some g -> g_signalId g = signalId) ->
  let r := latest_of signalId gs found in
  (forall g, r = Some g -> g_signalId g = signalId /\ (g ∈ gs \/ found = Some g)) /\
  (forall x, (x ∈ gs /\ g_signalId x = signalId) \/ found = Some x -> exists g, r = Some g /\ g_issuedAt x <= g_issuedAt g).
Proof.
  revert found. induction gs as [|y gs IH]; intros found Hf; cbv zeta.
  { split; [intros g Hg; split; [by apply Hf|by right]|]. intros x [[Hx _]|Hx]; [by apply not_elem_of_nil in Hx|]. by exists x. }
  cbn [latest_of]. set (next := if bool_decide _ then _ else found).
  assert ((next = found /\ (g_signalId y = signalId -> exists f, found = Some f /\ g_issuedAt y <= g_issuedAt f)) \/
          (next = Some y /\ g_signalId y = signalId /\ forall f, found = Some f -> g_issuedAt f < g_issuedAt y)) as Hn.
  { unfold next. case_bool_decide as Hy; [|by left]. destruct found as [f|]; [|right; split; [done|]; split; [done|]; by intros].
    destruct (g_issuedAt f <? g_issuedAt y) eqn:Hlt; [right|left]; (split; [done|]).
    - split; [done|]. intros g [= <-]. lia.
    - intros _. exists f. split; [done|lia]. }
  destruct (IH next) as [H1 H2].
  { intros g Hg. destruct Hn as [[He _]|(He & Hs & _)]; [apply Hf; congruence|congruence]. }
  split.
  - intros g Hg. destruct (H1 g Hg) as [Hs [Hin|Hnx]]; (split; [done|]); [left; by right|].
    destruct Hn as [[He _]|(He & _)]; [right; congruence|]. left. rewrite He in Hnx. injection Hnx as ->. left.
  - intros x Hx. assert (exists z, ((z ∈ gs /\ g_signalId z = signalId) \/ next = Some z) /\ g_issuedAt x <= g_issuedAt z) as (z & Hz & Hle).
    { destruct Hn as [[He Hy]|(He & Hs & Hy)].
      - destruct Hx as [[[->|Hx]%elem_of_cons Hsx]|Hx].
        + destruct (Hy Hsx) as (f & Hff & ?). exists f. split; [right; congruence|done].
        + exists x. split; [by left|lia].
        + exists x. split; [right; congruence|lia].
      - destruct Hx as [[[->|Hx]%elem_of_cons Hsx]|Hx].
        + exists y. split; [by right|lia].
        + exists x. split; [by left|lia].
        + exists y. split; [by right|]. specialize (Hy _ Hx). lia. }
    destruct (H2 z Hz) as (g & Hg & ?). exists g. split; [done|lia].
Qed.

(** What is shown beside a confirmation: the grant of its signal that was issued last. *)
Definition latest_grant (c : Confirmation) (d : DB) (grant : option RiskGrant) : Prop :=
  let of_signal g := exists id, grants d !! id = Some g /\ g_signalId g = c_signalId c in
  match grant with
  | Some g => of_signal g /\ forall x, of_signal x -> g_issuedAt x <= g_issuedAt g
  | None => forall x, ~ of_signal x
  end.

Lemma signal_grants signalIds d g :
  g ∈ grants_of_signals signalIds d <-> exists id, grants d !! id = Some g /\ g_signalId g ∈ signalIds.
Proof.
  unfold grants_of_signals. rewrite list_elem_of_In, filter_In, <- list_elem_of_In, list_elem_of_fmap, bool_decide_eq_true. split.
  - intros [([id x] & -> & Hx%elem_of_map_to_list) Hs]. by exists id.
  - intros (id & Hid & Hs). split; [|done]. exists (id, g). split; [done|]. by apply elem_of_map_to_list.
Qed.

(** C28: What is listed.  Listing writes nothing and answers exactly the confirmations of the user
    that are pending and unexpired, each once, oldest first, each with the terms of the latest
    grant that was issued for its signal: to whichever user, and whether or not it is the one
    the confirmation is bound to. *)
Theorem pending_listed u d :
  let r := run (listPending u) d in
  fst r = d /\ exists views, snd r = Ok views /\ Sorted created_le (map pv_confirmation views) /\
    (forall c, c ∈ map pv_confirmation views <->
       exists id, confirmations d !! id = Some c /\ c_userId c = u /\ c_status c = C_PENDING /\ now d < c_expiresAt c) /\
    length views = length (List.filter (pending_of u d) (map snd (map_to_list (confirmations d)))) /\
    Forall (fun v => exists grant, v = toView (pv_confirmation v) grant /\ latest_grant (pv_confirmation v) d grant) views.
Proof.
  cbv zeta. set (cs := pending_confirmations u d).
  assert (forall c, c ∈ cs <-> exists id, confirmations d !! id = Some c /\ c_userId c = u /\ c_status c = C_PENDING /\ now d < c_expiresAt c) as Hin.
  { intros c. unfold cs, pending_confirmations. rewrite merge_sort_Permutation, list_elem_of_In, filter_In, <- list_elem_of_In, list_elem_of_fmap.
    unfold pending_of. rewrite !andb_true_iff, !bool_decide_eq_true, Z.ltb_lt. split.
    - intros [([id x] & -> & Hx%elem_of_map_to_list) [[? ?] ?]]. by exists id.
    - intros (id & Hid & ? & ? & ?). split; [|done]. exists (id, c). split; [done|]. by apply elem_of_map_to_list. }
  assert (length cs = length (List.filter (pending_of u d) (map snd (map_to_list (confirmations d))))) as Hlen
    by (unfold cs, pending_confirmations; by rewrite merge_sort_Permutation).
  assert (Sorted created_le cs) as Hsort by (apply Sorted_merge_sort; apply _).
  unfold listPending. rewrite run_bind, run_read. fold cs. case_bool_decide as Hnil.
  { rewrite Hnil in *. split; [done|]. exists []. split; [done|]. split; [constructor|]. split; [exact Hin|]. split; [exact Hlen|constructor]. }
  rewrite run_bind, run_read. cbn [run fst snd]. split; [done|]. eexists. split; [reflexivity|].
  rewrite map_map. cbn [pv_confirmation toView]. rewrite map_id. split; [done|]. split; [done|]. split; [by rewrite length_map|].
  apply Forall_forall. intros v Hv. apply list_elem_of_fmap in Hv as (c & -> & Hc). cbn [pv_confirmation toView].
  eexists. split; [reflexivity|]. set (gs := grants_of_signals _ d).
  assert (forall x, x ∈ gs /\ g_signalId x = c_signalId c <-> exists id, grants d !! id = Some x /\ g_signalId x = c_signalId c) as Hgs.
  { intros x. unfold gs. rewrite signal_grants. split; [intros [(id & ? & _) ?]; by exists id|]. intros (id & ? & Hs). split; [|done].
    exists id. split; [done|]. rewrite Hs. by apply list_elem_of_fmap_2. }
  destruct (latest_of_spec (c_signalId c) gs None ltac:(done)) as [H1 H2]. unfold latest_grant. destruct (latest_of _ _ _) as [g|].
  - destruct (H1 g eq_refl) as [Hs [Hg|?]]; [|done]. split; [by apply Hgs|]. intros x Hx%Hgs.
    destruct (H2 x ltac:(by left)) as (g' & [= <-] & ?). done.
  - intros x Hx%Hgs. by destruct (H2 x ltac:(by left)) as (g' & ? & _).
Qed.

(** ** Samples *)

(** The market at [t]: a EURUSD quote of 1.0999 to 1.1000 and one unit of margin per lot. *)
Definition market_at (t : Z) : Sizing.Evidence := {|
  Sizing.acceptedSnapshot := None; Sizing.accountRow := None; Sizing.riskProfile := None; Sizing.connectionAccountType := None;
  Sizing.executionQuote := Some (mkPrice "1.0999" "1.1000" "0.0001" (Some t));
  Sizing.instrumentSpecification := Some (Sizing.mkInstrument "0.01" "50" "0.01" "100000");
  Sizing.fxConversionAvailable := false; Sizing.cachedQuote := fun _ => None; Sizing.conversionQuote := fun _ => None;
  Sizing.evaluatedAt := 0; Sizing.quotedAt := 0; Sizing.requiredMargin := fun _ lot => Some lot |}.

(** The store of a semi-automatic session on a demo account; [reject] is [rejectLowLiquidity]. *)
Definition confirm_db (reject : bool) : DB :=
  set_snapshots {[("b1", 1) := sample_accepted 900 "USD"]} (set_confirmations ∅ (set_grants ∅
    (set_profiles {["u1" := mkProfile "rp1" "u1" false None 500 1000 40000 500 None 85 reject true None 200 30 PAPER_ONLY 5]}
    (set_sessions {["s1" := mkSession "s1" "u1" "b1" SEMI_AUTO 7 Session.ACTIVE 0 (Some 1000000) (Some 1000000) None None None None false]}
    (set_intents {["n1" := Store.mkIntent "n1" "u1" "u1:sig9" "sig9" 900 "b1" None (Some "s1") None None None "EURUSD" "BUY" "MARKET"
                             "0.1" None (Some "1.095") (Some "1.11") None 50000 None 3 (Some 1) (Some 1) (Some 4) Intent.CREATED None]}
    (set_connections {["b1" := mkConnection "b1" "u1" "oanda" None (Some "acct") None "DEMO" B_CONNECTED
                                 (Known Authorization.ACTIVE) (Known Authorization.VERIFIED) 2 (Some "ct") (Some "iv") (Some "tag") (Some "k1")]}
       (boundary_db SEMI_AUTO "oanda" "DEMO"))))))).

(** What the pipeline proposes. *)
Definition proposal (timeframe regime : option string) : ProposedTrade :=
  mkProposed "sig9" "EURUSD" "BUY" "0.1" "0" (Some "1.095") (Some "1.11") None "u1:sig9" timeframe None regime
    (Some "s1") (Some 7) (Some "SEMI_AUTO") (Some "b1") false None.

Definition proposed (reject : bool) (timeframe regime : option string) : DB * result exn RiskDecision :=
  run (evaluate string_of (mkEvaluation (market_at 1000) (sample_broker "10000") sample_ids "u1" 1000 (proposal timeframe regime) None))
    (confirm_db reject).

(** The store the proposal leaves, at [t]. *)
Definition proposed_world (reject : bool) (timeframe regime : option string) (t : Z) : World (string * bool) Script :=
  mkWorld (set_now t (fst (proposed reject timeframe regime))) sample_registry [Ok filled_reply] [].

Abbreviation sample_confirm t :=
  (confirm string_of (fun _ => true) Provider.Live.BROKER_CATALOG (fun _ => true) sample_decrypt (fun _ => "failed") (fun _ => "CODE")
     (market_at t) (sample_broker "10000") (mkIds "rp3" "sn3" "sn4" "dp3" (fresh_ids "fresh-") (fresh_ids "fconf-")) t "t2" "o2" "u1" "conf-2").

Lemma confirm_sends_witness :
  let w := proposed_world false None None 2000 in
  let r := run (sample_confirm 2000) w in
  exists c call, confirmable "u1" "conf-2" (w_db w) c /\ w_wire (fst r) = [call] /\ confirmed_call c call.
Proof.
  intros w r. pose proof (confirm_sends string_of (fun _ => true) Provider.Live.BROKER_CATALOG (fun _ => true) sample_decrypt (fun _ => "failed")
    (fun _ => "CODE") (market_at 2000) (sample_broker "10000") (mkIds "rp3" "sn3" "sn4" "dp3" (fresh_ids "fresh-") (fresh_ids "fconf-")) 2000
    "t2" "o2" "u1" "conf-2" w (fst r) (snd r)) as Hsends.
  assert (forall X Y (p : X * Y), p = (fst p, snd p)) as Hpair by (intros X Y []; reflexivity).
  specialize (Hsends ltac:(unfold r; apply Hpair)). destruct Hsends as (calls & Hw & Hcase).
  assert (exists call, w_wire (fst r) = [call]) as [call Hcall] by (vm_compute; eexists; reflexivity).
  assert (w_wire w = []) as Hnone by reflexivity. rewrite Hnone in Hw. cbn [app] in Hw. rewrite Hcall in Hw. subst calls.
  destruct Hcase as [Hcase|(c & a & d & Hc & _ & Hq)]; [discriminate Hcase|]. exists c, call. split; [exact Hc|]. split; [exact Hcall|].
  inversion Hq. assumption.
Defined.

Lemma confirm_regime_rejected_witness :
  let w := proposed_world true None (Some "TRENDING") 2000 in
  let r := run (sample_confirm 2000) w in
  (exists a, snd (proposed true None (Some "TRENDING")) = Ok (APPROVED a)) /\
  (exists c, confirmable "u1" "conf-2" (w_db w) c) /\ is_ok (snd r) = false /\ w_wire (fst r) = [].
Proof.
  intros w r. split; [vm_compute; eexists; reflexivity|]. split.
  { assert (exists c, confirmations (w_db w) !! "conf-2" = Some c /\ c_userId c = "u1" /\ c_status c = C_PENDING /\ (now (w_db w) <? c_expiresAt c) = true)
      as (c & H1 & H2 & H3 & H4) by (vm_compute; eexists; repeat split; reflexivity).
    exists c. apply Z.ltb_lt in H4. split; [exact H1|]. split; [exact H2|]. split; [exact H3|exact H4]. }
  destruct (confirm_regime_rejected string_of (fun _ => true) Provider.Live.BROKER_CATALOG (fun _ => true) sample_decrypt (fun _ => "failed")
    (fun _ => "CODE") (market_at 2000) (sample_broker "10000") (mkIds "rp3" "sn3" "sn4" "dp3" (fresh_ids "fresh-") (fresh_ids "fconf-")) 2000
    "t2" "o2" "u1" "conf-2" w (fst r) (snd r)) as [Hr Hw].
  - assert (exists p, profiles (w_db w) !! "u1" = Some p /\ rk_rejectLowLiquidity p = true) as (p & Hp & Hrej)
      by (vm_compute; eexists; split; reflexivity).
    intros q Hq. assert (Some p = Some q) as [= <-] by (etransitivity; [symmetry; exact Hp|exact Hq]). exact Hrej.
  - unfold r. apply surjective_pairing.
  - split; [exact Hr|]. exact Hw.
Defined.

(** A confirmation of a proposal that named its timeframe or its regime is refused.  The
    digest a confirmation is bound to covers both; confirming re-evaluates the proposal without
    them, so the fresh grant has another digest and the boundary refuses the dispatch as a
    digest mismatch.  Of one proposal, approved each time and confirmed a second later with
    nothing else changed: without either it is executed; with either one it is refused and
    the confirmation is still pending. *)
Theorem confirmation_drifts :
  let answer timeframe regime := run (sample_confirm 2000) (proposed_world false timeframe regime 2000) in
  let approved timeframe regime := exists a, snd (proposed false timeframe regime) = Ok (APPROVED a) in
  let refused timeframe regime :=
    approved timeframe regime /\
    snd (answer timeframe regime) = Err (Platform (FinalDispatchBlocked CONFIRMATION_DIGEST_MISMATCH)) /\
    w_wire (fst (answer timeframe regime)) = [] /\
    c_status <$> (confirmations (w_db (fst (answer timeframe regime))) !! "conf-2") = Some C_PENDING in
  approved None None /\ snd (answer None None) = Ok (mkConfirmed "conf-2" "t2" Trade.OPEN) /\
  refused (Some "M15") None /\ refused None (Some "TRENDING") /\ refused (Some "M15") (Some "TRENDING").
Proof.
  vm_compute. repeat split; try (eexists; reflexivity); reflexivity.
Qed.

(** A confirmation whose dispatch is refused before the commitment is answered as consumed, and
    is still pending. *)
Theorem confirmed_still_pending :
  let r := run (sample_confirm 40000) (proposed_world false None None 40000) in
  snd r = Ok (mkConfirmed "conf-2" "t2" Trade.REJECTED) /\ w_wire (fst r) = [] /\
  c_status <$> (confirmations (w_db (fst r)) !! "conf-2") = Some C_PENDING.
Proof. vm_compute. repeat split; reflexivity. Qed.
