(* ===== verification/FeeRates.v ===== *)
(** * Fee rates ([performance-fees/services/performance-fee-calculation.ts])

    The fee formula: a percentage read from its numeric(7,4) column with [Number.parseFloat], hence
    a binary64 number, scaled by ten thousand, rounded, and applied to an integer profit.

    [Double] is a finite binary64 number as mantissa and exponent; [round_double] rounds a
    fraction to the nearest one, ties to even, which is what parsing a decimal text and
    multiplying do in the range of the percentages (no overflow, nothing subnormal).  The
    theorem is that the detour through floating point loses nothing: the scaled percentage is
    the column's own integer, so the fee is the exact fraction of the profit, rounded down. *)

From S2P Require Import Prelude StateMachines Store.
Open Scope string_scope.
Open Scope Z_scope.

(** ** Binary64 *)

Record Double := mkDouble { mantissa : Z; exponent : Z }.

(** The integer nearest to [num / den], ties to even. *)
Definition half_even (num den : Z) : Z :=
  let q := num / den in
  let r := num mod den in
  if 2 * r <? den then q else if den <? 2 * r then q + 1 else if Z.even q then q else q + 1.

(** The exponent that leaves 53 bits of [n / d], both positive. *)
Definition exponent_of (n d : Z) : Z :=
  let e := Z.log2 n - Z.log2 d - 53 in
  if 2 ^ 53 * (d * 2 ^ Z.max 0 e) <=? n * 2 ^ Z.max 0 (- e) then e + 1 else e.

(** The double nearest to [n / d]. *)
Definition round_double (n d : Z) : Double :=
  if n =? 0 then mkDouble 0 0
  else
    let e := exponent_of (Z.abs n) d in
    mkDouble (Z.sgn n * half_even (Z.abs n * 2 ^ Z.max 0 (- e)) (d * 2 ^ Z.max 0 e)) e.

(** [x * k] of a double and an integer that is one. *)
Definition times (x : Double) (k : Z) : Double :=
  round_double (mantissa x * k * 2 ^ Z.max 0 (exponent x)) (2 ^ Z.max 0 (- exponent x)).

(** [x < k] and [x > k]. *)
Definition below (x : Double) (k : Z) : bool :=
  mantissa x * 2 ^ Z.max 0 (exponent x) <? k * 2 ^ Z.max 0 (- exponent x).

Definition above (x : Double) (k : Z) : bool :=
  k * 2 ^ Z.max 0 (- exponent x) <? mantissa x * 2 ^ Z.max 0 (exponent x).

(** [Math.round]: the nearest integer, ties upwards. *)
Definition math_round (x : Double) : Z :=
  (2 * mantissa x * 2 ^ Z.max 0 (exponent x) + 2 ^ Z.max 0 (- exponent x)) / (2 * 2 ^ Z.max 0 (- exponent x)).

(** ** The formula *)

(** [Number.parseFloat] of the text of a numeric(_,4) column holding [units] ten-thousandths. *)
Definition parse_percent (units : Z) : Double := round_double units 10000.

(** Money is in minor units, BigInt in the source; a BigInt quotient truncates. *)
Definition computeFeeAmount (profit feePercent : Z) : result exn Z :=
  if profit <=? 0 then Ok 0
  else
    let percent := parse_percent feePercent in
    if below percent 0 || above percent 100 then Err (PlainError "Invalid performance fee percentage")
    else
      let feePercentScaled := math_round (times percent 10000) in
      Ok (Z.quot (profit * feePercentScaled) 1000000).

Record HighWaterMarkCalculation := mkCalculation { hc_realisedProfitForFee : Z; hc_feeAmount : Z }.

Definition calculateHighWaterMarkFee (cumulativeRealised startingHighWaterMark feePercent : Z)
  : result exn HighWaterMarkCalculation :=
  let delta := cumulativeRealised - startingHighWaterMark in
  let realisedProfitForFee := if 0 <? delta then delta else 0 in
  rmap (mkCalculation realisedProfitForFee) (computeFeeAmount realisedProfitForFee feePercent).

(** ** Rounding *)

Lemma half_even_near num den : 0 < den -> 0 <= num -> 2 * Z.abs (num - den * half_even num den) <= den /\ 0 <= half_even num den.
Proof.
  intros Hd Hn. unfold half_even. pose proof (Z.div_mod num den ltac:(lia)). pose proof (Z.mod_pos_bound num den Hd).
  pose proof (Z.div_pos num den Hn Hd).
  repeat case_match; bool_to_prop; split; nia.
Qed.

(** The exponent of a fraction below [2 ^ k]. *)
Lemma exponent_small n d k : 0 < n -> 0 < d -> 0 <= k -> n < d * 2 ^ k -> exponent_of n d <= k - 51.
Proof.
  intros Hn Hd Hk Hlt. unfold exponent_of.
  assert (Z.log2 n <= Z.log2 d + 1 + k) as Hl.
  { assert (Z.log2 n <= Z.log2 (d * 2 ^ k)) by (apply Z.log2_le_mono; lia).
    rewrite Z.log2_mul_pow2 in H by lia. lia. }
  cbv zeta. case_match; lia.
Qed.

(** Rounding a positive fraction below [2 ^ k] keeps it to [2 ^ (51 - k)] parts. *)
Lemma round_double_near n d k :
  0 < n -> 0 < d -> 0 <= k < 51 -> n < d * 2 ^ k ->
  exists m j, round_double n d = mkDouble m (- j) /\ 51 - k <= j /\ 0 <= m /\ 2 * Z.abs (n * 2 ^ j - d * m) <= d.
Proof.
  intros Hn Hd Hk Hlt. pose proof (exponent_small n d k Hn Hd ltac:(lia) Hlt) as He.
  unfold round_double. destruct (n =? 0) eqn:H0; [lia|]. rewrite Z.abs_eq, Z.sgn_pos by lia.
  rewrite (Z.max_r 0 (- exponent_of n d)), (Z.max_l 0 (exponent_of n d)) by lia.
  change (2 ^ 0) with 1. rewrite !Z.mul_1_r, Z.mul_1_l.
  assert (0 < 2 ^ (- exponent_of n d)) by (apply Z.pow_pos_nonneg; lia).
  destruct (half_even_near (n * 2 ^ (- exponent_of n d)) d Hd ltac:(nia)) as [Hm Hpos].
  eexists _, (- exponent_of n d). split; [by rewrite Z.opp_involutive|]. split; [lia|]. by split.
Qed.

Lemma math_round_near m j x : 0 < j -> 2 * Z.abs (m - x * 2 ^ j) < 2 ^ j -> math_round (mkDouble m (- j)) = x.
Proof.
  intros Hj Hx. unfold math_round. cbn [mantissa exponent]. rewrite (Z.max_l 0 (- j)), Z.opp_involutive, (Z.max_r 0 j) by lia.
  change (2 ^ 0) with 1. assert (0 < 2 ^ j) by (apply Z.pow_pos_nonneg; lia).
  symmetry. apply Z.div_unique with (r := 2 * m * 1 + 2 ^ j - 2 * 2 ^ j * x); [lia|ring].
Qed.

(** The scaled percentage is the integer of the column. *)
Lemma percent_exact units : 0 < units < 10000000 -> math_round (times (parse_percent units) 10000) = units.
Proof.
  intros Hu. unfold parse_percent.
  destruct (round_double_near units 10000 10) as (m & j & -> & Hj & Hm & Hnear); [lia..| |].
  { change (2 ^ 10) with 1024. lia. }
  assert (2 ^ 41 <= 2 ^ j) as Hbig by (apply Z.pow_le_mono_r; lia). change (2 ^ 41) with 2199023255552 in Hbig.
  unfold times. cbn [mantissa exponent]. rewrite (Z.max_l 0 (- j)), Z.opp_involutive, (Z.max_r 0 j), Z.mul_1_r by lia.
  destruct (round_double_near (m * 10000) (2 ^ j) 24) as (m2 & j2 & -> & Hj2 & Hm2 & Hnear2); [nia|lia|lia| |].
  { change (2 ^ 24) with 16777216. nia. }
  assert (2 ^ 27 <= 2 ^ j2) as Hbig2 by (apply Z.pow_le_mono_r; lia). change (2 ^ 27) with 134217728 in Hbig2.
  apply math_round_near; [lia|]. nia.
Qed.

Lemma above_exact units k : 0 < units < 10000000 -> 0 <= k <= 1000 -> above (parse_percent units) k = (10000 * k <? units).
Proof.
  intros Hu Hk. unfold parse_percent.
  destruct (round_double_near units 10000 10) as (m & j & -> & Hj & Hm & Hnear); [lia..| |].
  { change (2 ^ 10) with 1024. lia. }
  assert (2 ^ 41 <= 2 ^ j) as Hbig by (apply Z.pow_le_mono_r; lia). change (2 ^ 41) with 2199023255552 in Hbig.
  unfold above. cbn [mantissa exponent]. rewrite (Z.max_l 0 (- j)), Z.opp_involutive, (Z.max_r 0 j), Z.mul_1_r by lia.
  destruct (10000 * k <? units) eqn:Hc; bool_to_prop; [apply Z.ltb_lt|apply Z.ltb_ge]; nia.
Qed.

Lemma below_zero units : 0 < units < 10000000 -> below (parse_percent units) 0 = false.
Proof.
  intros Hu. unfold parse_percent.
  destruct (round_double_near units 10000 10) as (m & j & -> & Hj & Hm & Hnear); [lia..| |].
  { change (2 ^ 10) with 1024. lia. }
  unfold below. cbn [mantissa exponent]. rewrite (Z.max_l 0 (- j)) by lia. apply Z.ltb_ge. lia.
Qed.

Lemma negative_below units : units < 0 -> -10000000 < units -> below (parse_percent units) 0 = true.
Proof.
  intros Hu Hl. unfold parse_percent, round_double. destruct (units =? 0) eqn:H0; [lia|]. rewrite Z.sgn_neg by lia.
  pose proof (exponent_small (Z.abs units) 10000 10 ltac:(lia) ltac:(lia) ltac:(lia) ltac:(change (2 ^ 10) with 1024; lia)) as He.
  set (e := exponent_of (Z.abs units) 10000) in *. rewrite (Z.max_r 0 (- e)), (Z.max_l 0 e) by lia.
  assert (2 ^ 41 <= 2 ^ (- e)) as Hbig by (apply Z.pow_le_mono_r; lia). change (2 ^ 41) with 2199023255552 in Hbig.
  change (2 ^ 0) with 1. rewrite Z.mul_1_r.
  destruct (half_even_near (Z.abs units * 2 ^ (- e)) 10000) as [Hm Hpos]; [lia|nia|].
  unfold below. cbn [mantissa exponent]. rewrite (Z.max_l 0 e), (Z.max_r 0 (- e)) by lia. apply Z.ltb_lt.
  change (2 ^ 0) with 1. nia.
Qed.

(** ** The fee *)

(** A percentage the column can hold, and one the formula accepts. *)
Definition storable (units : Z) : Prop := Z.abs units < 10000000.
Definition valid_percent (units : Z) : bool := (0 <=? units) && (units <=? 1000000).

Lemma fee_value profit units : storable units ->
  computeFeeAmount profit units =
    if profit <=? 0 then Ok 0
    else if valid_percent units then Ok (profit * units / 1000000)
    else Err (PlainError "Invalid performance fee percentage").
Proof.
  unfold storable, computeFeeAmount, valid_percent. intros Hu. destruct (profit <=? 0) eqn:Hp; [done|]. bool_to_prop. cbv zeta.
  assert (units < 0 \/ units = 0 \/ 0 < units) as [Hn|[->|Hpos]] by lia.
  - rewrite negative_below by lia. rewrite (proj2 (Z.leb_gt 0 units)) by done. done.
  - vm_compute (below _ _). vm_compute (above _ _). vm_compute (math_round _). by rewrite Z.mul_0_r.
  - rewrite below_zero, above_exact, percent_exact by lia. change (10000 * 100) with 1000000.
    rewrite (proj2 (Z.leb_le 0 units)) by lia. cbn [orb andb]. rewrite Z.quot_div_nonneg by nia.
    destruct (1000000 <? units) eqn:Hc, (units <=? 1000000) eqn:Hd; bool_to_prop; done || lia.
Qed.

Definition calculated (profit units : Z) : result exn HighWaterMarkCalculation :=
  if (profit =? 0) || valid_percent units then Ok (mkCalculation profit (profit * units / 1000000))
  else Err (PlainError "Invalid performance fee percentage").

Lemma calculation_value cumulative mark units : storable units ->
  calculateHighWaterMarkFee cumulative mark units = calculated (Z.max 0 (cumulative - mark)) units.
Proof.
  intros Hu. unfold calculateHighWaterMarkFee, calculated. rewrite fee_value by done.
  destruct (0 <? cumulative - mark) eqn:Hd; bool_to_prop.
  - rewrite Z.max_r by lia. rewrite (proj2 (Z.leb_gt _ 0)), (proj2 (Z.eqb_neq _ 0)) by lia. cbn [orb]. by destruct (valid_percent units).
  - rewrite Z.max_l by lia. done.
Qed.

Lemma calculation_fee profit units c :
  calculated profit units = Ok c ->
  hc_realisedProfitForFee c = profit /\ hc_feeAmount c = profit * units / 1000000 /\ (profit = 0 \/ 0 <= units <= 1000000).
Proof.
  unfold calculated, valid_percent. destruct (_ || _) eqn:Hc; [|done]. intros [= <-]. cbn. split; [done|]. split; [done|].
  apply orb_true_iff in Hc as [Hc|Hc]; bool_to_prop; auto.
Qed.

(** C30: The fee is the exact share of the profit above the mark.  For every percentage the column
    can hold, and whatever floating point does on the way, the calculation refuses a percentage
    outside 0 to 100 (when there is a profit to charge) and otherwise charges exactly that share
    of what the cumulative result exceeds the mark by, rounded down: nothing at or below the
    mark, never more than the profit, never less than its whole minor units, and no more for a
    lower result, a lower percentage or a higher mark. *)
Theorem fee_exact cumulative mark units : storable units ->
  let profit := Z.max 0 (cumulative - mark) in
  calculateHighWaterMarkFee cumulative mark units = calculated profit units /\
  forall c, calculateHighWaterMarkFee cumulative mark units = Ok c ->
    0 <= hc_feeAmount c <= hc_realisedProfitForFee c /\
    hc_feeAmount c * 1000000 <= profit * Z.max 0 units < (hc_feeAmount c + 1) * 1000000 /\
    forall cumulative' mark' units' c', storable units' -> cumulative' <= cumulative -> mark <= mark' -> units' <= units ->
      calculateHighWaterMarkFee cumulative' mark' units' = Ok c' -> hc_feeAmount c' <= hc_feeAmount c.
Proof.
  intros Hu. cbv zeta. set (profit := Z.max 0 (cumulative - mark)). rewrite calculation_value by done. fold profit. split; [done|].
  intros c Hc. pose proof (calculation_fee _ _ _ Hc) as (Hp & Hf & Hv). fold profit in Hp, Hf, Hv.
  pose proof (Z.div_mod (profit * units) 1000000 ltac:(lia)). pose proof (Z.mod_pos_bound (profit * units) 1000000 ltac:(lia)).
  rewrite Hp, Hf. split; [destruct Hv as [->|Hv]; nia|]. split; [destruct Hv as [->|Hv]; nia|].
  intros cumulative' mark' units' c' Hu' Hcum Hmark Hle Hc'. rewrite calculation_value in Hc' by done.
  apply calculation_fee in Hc' as (_ & Hf' & Hv'). rewrite Hf'. apply Z.div_le_mono; [lia|].
  destruct Hv' as [->|Hv'], Hv as [Hz|Hv]; nia.
Qed.

(** 20.0001% of 1,000,000.99 above a mark of 0.99. *)
Lemma fee_exact_witness :
  storable 200001 /\ calculateHighWaterMarkFee 100000099 99 200001 = Ok (mkCalculation 100000000 20000100).
Proof.
  assert (storable 200001) as Hs by (unfold storable; lia). split; [exact Hs|].
  destruct (fee_exact 100000099 99 200001 Hs) as [Hf _]. exact Hf.
Defined.
