(* ===== verification/ClosedTrades.v ===== *)
(** * Closed trades in minor units ([broker-reconciliation/services])

    currency-minor-units.ts and closed-trade-normalizer.service.ts: the exponents of the
    currencies, the conversion of a broker's decimal text to an integer of minor units, and the
    normalisation of what a broker reports.  The metadata summary of a trade is left out.

    The theorems: the conversion is the value of the text, cut towards zero at the currency's
    exponent, on exactly the texts that are decimals; and a batch is normalised trade by trade,
    each one either dropped or carried over with its net result. *)

From S2P Require Import Prelude JsString Store.
Open Scope string_scope.
Open Scope list_scope.
Open Scope Z_scope.

(** ** Currencies *)

Definition CURRENCY_MINOR_UNIT_DIGITS : gmap string nat := list_to_map
  (((fun c => (c, 2%nat)) <$>
    ["USD"; "EUR"; "GBP"; "CHF"; "CAD"; "AUD"; "NZD"; "CNY"; "HKD"; "SGD"; "INR"; "BRL"; "MXN"; "PLN"; "SEK"; "NOK"; "DKK";
     "CZK"; "HUF"; "TRY"; "RUB"; "ZAR"; "NGN"; "GHS"; "KES"; "EGP"; "MAD"; "AED"; "SAR"; "QAR"; "THB"; "MYR"; "PHP"; "IDR"; "ILS"]) ++
   ((fun c => (c, 0%nat)) <$> ["JPY"; "KRW"; "VND"; "CLP"; "ISK"; "XOF"; "XAF"; "UGX"; "RWF"]) ++
   ((fun c => (c, 3%nat)) <$> ["KWD"; "BHD"; "OMR"; "JOD"; "TND"])).

Definition isSupportedCurrency (currency : string) : bool :=
  bool_decide (is_Some (CURRENCY_MINOR_UNIT_DIGITS !! toUpperCase currency)).

Definition getMinorUnitDigits (currency : string) : result exn nat :=
  match CURRENCY_MINOR_UNIT_DIGITS !! toUpperCase currency with
  | Some digits => Ok digits
  | None => Err (PlainError "Unsupported currency minor-unit mapping")
  end.

(** ** Minor units *)

(** [/^\d+$/.test(s)]. *)
Definition digits_only (l : chars) : bool := negb (bool_decide (l = [])) && forallb is_digit l.

(** [s.slice(0, n).padEnd(n, '0')]. *)
Definition fraction_digits (n : nat) (l : chars) : chars :=
  let cut := take n l in cut ++ replicate (n - length cut) "0"%char.

(** The text before and after the first dot. *)
Definition split_dot (l : chars) : chars * chars :=
  match find_index (ascii_eqb "."%char) l with
  | None => (l, [])
  | Some i => (take i l, drop (S i) l)
  end.

(** The text [null] is refused with every other text that is no number. *)
Definition majorToMinorUnits (majorStr : string) (digits : nat) : option Z :=
  let trimmed := trim (chars_of majorStr) in
  if bool_decide (trimmed = []) then None
  else
    let negative := starts_with "-"%char trimmed in
    let '(intPart, decPart) := split_dot (if negative then drop 1 trimmed else trimmed) in
    let intPart := if bool_decide (intPart = []) then ["0"%char] else intPart in
    if negb (digits_only intPart) then None
    else if negb (bool_decide (decPart = [])) && negb (digits_only decPart) then None
    else
      let minor := digits_val intPart * 10 ^ Z.of_nat digits + digits_val (fraction_digits digits decPart) in
      Some (if negative then - minor else minor).

(** ** Normalisation *)

(** What a broker reports; any of it may be missing at run time. *)
Record BrokerClosedTrade := mkClosed {
  k_externalOrderId : option string; k_instrument : option string; k_direction : string; k_lotSize : option string;
  k_openPrice : option string; k_closePrice : option string; k_realisedPnl : option string; k_commission : option string;
  k_swap : option string; k_openedAt : option Z; k_closedAt : option Z }.

Record NormalizedClosedTrade := mkNormalized {
  nt_brokerTradeId : string; nt_instrument : string; nt_direction : string; nt_volume : string; nt_openedAt : option Z;
  nt_closedAt : Z; nt_entryPrice : option string; nt_exitPrice : option string; nt_grossRealisedPnl : Z; nt_commission : Z;
  nt_swap : Z; nt_netRealisedPnl : Z; nt_currency : string }.

(** [s?.trim()], when that is not empty. *)
Definition trimmed_text (s : option string) : option string :=
  match s with
  | Some s => let t := trim (chars_of s) in if bool_decide (t = []) then None else Some (string_of t)
  | None => None
  end.

(** [None]: skipped. *)
Definition normalizeOne (currency : string) (digits : nat) (now : Z) (raw : BrokerClosedTrade) : option NormalizedClosedTrade :=
  match trimmed_text (k_externalOrderId raw), k_closedAt raw with
  | Some brokerTradeId, Some closedAt =>
      if now <? closedAt then None
      else
        match majorToMinorUnits (default "0" (k_realisedPnl raw)) digits, majorToMinorUnits (default "0" (k_commission raw)) digits,
              majorToMinorUnits (default "0" (k_swap raw)) digits with
        | Some gross, Some commission, Some swap =>
            if negb (bool_decide (k_direction raw = "BUY") || bool_decide (k_direction raw = "SELL")) then None
            else
              match trimmed_text (k_instrument raw) with
              | Some instrument =>
                  Some (mkNormalized brokerTradeId instrument (k_direction raw) (default "0" (k_lotSize raw)) (k_openedAt raw)
                          closedAt (k_openPrice raw) (k_closePrice raw) gross commission swap (gross + commission + swap) currency)
              | None => None
              end
        | _, _, _ => None
        end
  | _, _ => None
  end.

(** The valid trades, and how many were skipped. *)
Definition normalize (rawTrades : list BrokerClosedTrade) (currency : string) (now : Z)
  : result exn (list NormalizedClosedTrade * nat) :=
  rmap (fun digits =>
          let valid := omap (normalizeOne currency digits now) rawTrades in
          (valid, (length rawTrades - length valid)%nat))
    (getMinorUnitDigits currency).

(** ** The conversion *)

Lemma digits_only_iff l : digits_only l = true <-> all_digits l /\ l <> [].
Proof.
  unfold digits_only, all_digits. rewrite andb_true_iff, negb_true_iff, bool_decide_eq_false, forallb_forall, Forall_forall.
  setoid_rewrite <- list_elem_of_In. tauto.
Qed.

Lemma fraction_value n l : all_digits l -> digits_val (fraction_digits n l) = digits_val l * 10 ^ Z.of_nat n / 10 ^ Z.of_nat (length l).
Proof.
  intros Hl. unfold fraction_digits. rewrite digits_val_app, digits_val_zeros, length_replicate, Z.add_0_r.
  pose proof (pow10_pos (Z.of_nat (length l)) ltac:(lia)) as Hp.
  destruct (decide (length l <= n)%nat) as [Hn|Hn].
  - rewrite take_ge by lia. apply Z.div_unique_exact; [lia|].
    replace (Z.of_nat n) with (Z.of_nat (n - length l) + Z.of_nat (length l)) at 1 by lia.
    rewrite pow10_add by lia. ring.
  - assert (l = take n l ++ drop n l) as Hs by by rewrite take_drop.
    assert (length (take n l) = n) as Hlen by (rewrite length_take; lia).
    assert (length (drop n l) = (length l - n)%nat) as Hld by apply length_drop.
    assert (all_digits (drop n l)) as Hd by (rewrite Hs in Hl; by apply all_digits_app in Hl as [_ ?]).
    rewrite Hlen, Nat.sub_diag. cbn [Z.of_nat]. rewrite Z.mul_1_r.
    pose proof (digits_val_bounds _ Hd) as Hb. rewrite Hld in Hb.
    rewrite Hs at 2. rewrite digits_val_app, Hld.
    replace (Z.of_nat (length l)) with (Z.of_nat (length l - n) + Z.of_nat n) by lia. rewrite pow10_add by lia.
    rewrite Z.div_mul_cancel_r by (apply Z.pow_nonzero; lia).
    apply Z.div_unique with (r := digits_val (drop n l)); [lia|ring].
Qed.

Definition sign (negative : bool) : chars := if negative then ["-"%char] else [].

(** A decimal text: a sign, digits, and digits after a dot; one of the two runs of digits may be
    empty, and so may both after a sign or a dot. *)
Definition decimal_text (l : chars) (negative : bool) (int frac : chars) : Prop :=
  l <> [] /\ all_digits int /\ all_digits frac /\ (l = sign negative ++ int ++ "."%char :: frac \/ (frac = [] /\ l = sign negative ++ int)).

Definition minor_value (negative : bool) (int frac : chars) (digits : nat) : Z :=
  let v := digits_val (int ++ frac) * 10 ^ Z.of_nat digits / 10 ^ Z.of_nat (length frac) in if negative then - v else v.

Lemma minor_split int frac n :
  all_digits int -> all_digits frac ->
  digits_val (int ++ frac) * 10 ^ Z.of_nat n / 10 ^ Z.of_nat (length frac) =
  digits_val int * 10 ^ Z.of_nat n + digits_val (fraction_digits n frac).
Proof.
  intros Hi Hf. rewrite fraction_value, digits_val_app by done. pose proof (pow10_pos (Z.of_nat (length frac)) ltac:(lia)).
  replace ((_ + _) * 10 ^ Z.of_nat n) with (digits_val frac * 10 ^ Z.of_nat n + digits_val int * 10 ^ Z.of_nat n * 10 ^ Z.of_nat (length frac)) by ring.
  rewrite Z.div_add by lia. lia.
Qed.

Lemma split_dot_dot int frac : all_digits int -> split_dot (int ++ "."%char :: frac) = (int, frac).
Proof.
  intros Hi. unfold split_dot. rewrite find_index_hit; [|eapply digits_avoid; [|exact Hi]; intros c Hc; by apply digit_not_char|done].
  rewrite take_app_length. f_equal. change ("."%char :: frac) with (["."%char] ++ frac). rewrite app_assoc.
  apply drop_app_length'. rewrite length_app. cbn. lia.
Qed.

Lemma split_dot_digits int : all_digits int -> split_dot int = (int, []).
Proof.
  intros Hi. unfold split_dot. rewrite find_index_avoids; [done|]. eapply digits_avoid; [|exact Hi]. intros c Hc. by apply digit_not_char.
Qed.

Lemma split_dot_inv l int frac :
  split_dot l = (int, frac) -> (l = int ++ "."%char :: frac) \/ (frac = [] /\ l = int).
Proof.
  unfold split_dot. destruct (find_index _ l) as [i|] eqn:Hi; intros [= <- <-]; [|by right]. left.
  revert i Hi. induction l as [|c l IH]; intros i; [done|]. cbn [find_index]. destruct (ascii_eqb "." c) eqn:Hc.
  - apply bool_decide_eq_true in Hc as <-. by intros [= <-].
  - destruct (find_index _ l) as [j|]; [|done]. cbn. intros [= <-]. cbn [take drop app]. f_equal. by apply IH.
Qed.

Lemma sign_split l : l = sign (starts_with "-"%char l) ++ (if starts_with "-"%char l then drop 1 l else l).
Proof. destruct l as [|c l]; [done|]. cbn [starts_with]. destruct (ascii_eqb "-" c) eqn:Hc; [|done]. by apply bool_decide_eq_true in Hc as <-. Qed.

Lemma starts_sign negative l :
  starts_with "-"%char l = false ->
  starts_with "-"%char (sign negative ++ l) = negative /\ (if negative then drop 1 (sign negative ++ l) else sign negative ++ l) = l.
Proof. destruct negative; cbn; [done|]. done. Qed.

Lemma digits_start int l : all_digits int -> (int = [] -> starts_with "-"%char l = false) -> starts_with "-"%char (int ++ l) = false.
Proof.
  intros Hi Hl. destruct Hi as [|c int Hc Hi]; [by apply Hl|]. cbn. by apply digit_not_char.
Qed.

Lemma minor_units_sound s digits v :
  majorToMinorUnits s digits = Some v ->
  exists negative int frac, decimal_text (trim (chars_of s)) negative int frac /\ v = minor_value negative int frac digits.
Proof.
  unfold majorToMinorUnits, decimal_text, minor_value. set (l := trim (chars_of s)). cbv zeta.
  case_bool_decide as Hl; [done|]. destruct (split_dot _) as [int frac] eqn:Hs. apply split_dot_inv in Hs.
  destruct (digits_only _) eqn:Hi; [|done]. cbn [negb]. destruct (_ && _) eqn:Hf; [done|]. intros [= <-].
  assert (all_digits frac) as Hfrac.
  { apply andb_false_iff in Hf as [Hf|Hf]; apply negb_false_iff in Hf; [apply bool_decide_eq_true in Hf as ->; constructor|].
    by apply digits_only_iff in Hf as [? _]. }
  assert (all_digits int /\ digits_val (if bool_decide (int = []) then ["0"%char] else int) = digits_val int) as [Hint ->].
  { apply digits_only_iff in Hi as [Hi _]. destruct (bool_decide (int = [])) eqn:Hz; bool_to_prop; [rewrite Hz; split; [constructor|done]|done]. }
  exists (starts_with "-" l), int, frac. rewrite minor_split by done. split; [|done].
  split; [done|]. split; [done|]. split; [done|]. pose proof (sign_split l) as Hsign.
  destruct Hs as [Hs|[-> Hs]]; rewrite Hs in Hsign; [by left|by right].
Qed.

(** What an amount of a currency is in minor units. *)
Definition worth (currency text : string) (v : Z) : Prop :=
  exists digits negative int frac, CURRENCY_MINOR_UNIT_DIGITS !! toUpperCase currency = Some digits /\
    decimal_text (trim (chars_of text)) negative int frac /\ v = minor_value negative int frac digits.

(** What a reported trade is carried over as. *)
Record carried (currency : string) (raw : BrokerClosedTrade) (n : NormalizedClosedTrade) : Prop := {
  ca_id : exists id, k_externalOrderId raw = Some id /\ chars_of (nt_brokerTradeId n) = trim (chars_of id);
  ca_closed : k_closedAt raw = Some (nt_closedAt n);
  ca_gross : worth currency (default "0" (k_realisedPnl raw)) (nt_grossRealisedPnl n);
  ca_commission : worth currency (default "0" (k_commission raw)) (nt_commission n);
  ca_swap : worth currency (default "0" (k_swap raw)) (nt_swap n);
  ca_net : nt_netRealisedPnl n = nt_grossRealisedPnl n + nt_commission n + nt_swap n }.

Lemma normalize_carried raws currency now valid skipped n :
  normalize raws currency now = Ok (valid, skipped) -> n ∈ valid -> exists raw, raw ∈ raws /\ carried currency raw n.
Proof.
  intros (digits & Hd & [= -> _])%rmap_ok Hn. apply list_elem_of_omap in Hn as (raw & Hraw & Hn). exists raw. split; [done|].
  unfold getMinorUnitDigits in Hd. destruct (CURRENCY_MINOR_UNIT_DIGITS !! toUpperCase currency) as [k|] eqn:Hk; [|done]. injection Hd as ->.
  assert (forall text v, majorToMinorUnits text digits = Some v -> worth currency text v) as Hw
    by (intros text v (neg & int & frac & ? & ?)%minor_units_sound; by exists digits, neg, int, frac).
  revert Hn. unfold normalizeOne, trimmed_text. destruct (k_externalOrderId raw) as [id|] eqn:Hid; [|done]. cbv zeta.
  case_bool_decide; [done|]. destruct (k_closedAt raw) as [at_|] eqn:Hat; [|done]. destruct (now <? at_); [done|].
  destruct (majorToMinorUnits (default "0" (k_realisedPnl raw)) digits) as [g|] eqn:Hg; [|done].
  destruct (majorToMinorUnits (default "0" (k_commission raw)) digits) as [c|] eqn:Hc; [|done].
  destruct (majorToMinorUnits (default "0" (k_swap raw)) digits) as [w|] eqn:Hs; [|done].
  destruct (negb _); [done|]. destruct (match k_instrument raw with Some _ => _ | None => _ end); [|done]. intros [= <-].
  split; cbn; [by exists id; rewrite chars_of_string_of|done|by apply Hw..|done].
Qed.

(** C31: Broker amounts become minor units exactly.  A text is converted if and only if, but for
    surrounding white space, it is an optional minus sign, digits, and at most one dot with
    digits on either side; and the result is its value at the currency's exponent, cut towards
    zero: extra fraction digits are dropped, missing ones are zero, and a currency without
    subunits keeps the integer part.  No floating point is involved. *)
Theorem minor_units_exact s digits v :
  majorToMinorUnits s digits = Some v <->
  exists negative int frac, decimal_text (trim (chars_of s)) negative int frac /\ v = minor_value negative int frac digits.
Proof.
  split.
  - apply minor_units_sound.
  - unfold majorToMinorUnits, decimal_text, minor_value. set (l := trim (chars_of s)). cbv zeta.
    intros (negative & int & frac & (Hl & Hi & Hf & Hcase) & ->). rewrite bool_decide_eq_false_2 by done. rewrite minor_split by done.
    assert (exists rest, l = sign negative ++ rest /\ starts_with "-"%char rest = false /\ split_dot rest = (int, frac)) as (rest & -> & Hr & Hsplit).
    { destruct Hcase as [Hc|[-> Hc]]; eexists; (split; [exact Hc|]); (split; [|by apply split_dot_dot || by apply split_dot_digits]).
      - by apply digits_start.
      - rewrite <- (app_nil_r int). by apply digits_start. }
    destruct (starts_sign negative rest Hr) as [-> ->]. rewrite Hsplit.
    assert (digits_only (if bool_decide (int = []) then ["0"%char] else int) = true /\
            digits_val (if bool_decide (int = []) then ["0"%char] else int) = digits_val int) as [-> ->].
    { destruct (bool_decide (int = [])) eqn:Hz; bool_to_prop; [by rewrite Hz|]. split; [by apply digits_only_iff|done]. }
    cbn [negb]. destruct (_ && _) eqn:Hx; [|done]. exfalso. apply andb_true_iff in Hx as [Hne Hd].
    apply negb_true_iff, bool_decide_eq_false in Hne. apply negb_true_iff in Hd.
    by rewrite (proj2 (digits_only_iff frac) (conj Hf Hne)) in Hd.
Qed.
