(* ===== verification/FeeBooks.v ===== *)
(** * The books of the fees

    The tables of performance fees, payments, billing cycles and broker trade reconciliation
    ([performance-fees/entities], [payments/entities], [performance-billing/entities],
    [broker-reconciliation/entities]), with the unique indexes of the migrations, and the
    statements on them.  Money is integers of minor units in bigint columns, a percentage is an
    integer at the scale 4 of its numeric(7,4) column, times are milliseconds.  Left out:
    creation and update times, descriptive columns (names, metadata, instruments' prices,
    provider payloads), and the columns nothing writes (deposits, withdrawals, equity).

    A store of its own: what the fees read of broker connections is [LiveAccount], of users their
    country, and the sessions the payment providers have opened are kept beside the tables. *)

From S2P Require Import Prelude Prog JsString Store.
Open Scope string_scope.
Open Scope list_scope.
Open Scope Z_scope.

(** ** Rows *)

Record Policy := mkPolicy { fp_id : string; fp_planId : option string; fp_feePercent : Z; fp_isActive : bool }.

(** One user's account: a broker connection, or none. *)
Abbreviation Scope := (string * option string)%type.

Record Performance := mkPerformance {
  tp_id : string; tp_scope : Scope; tp_currency : string; tp_currentHighWaterMark : Z; tp_lastRealisedBalance : option Z;
  tp_totalRealisedProfit : Z; tp_totalFeesCharged : Z; tp_lastCalculationAt : option Z }.

Inductive AssessmentStatus := A_DRAFT | A_ASSESSED | A_INVOICED | A_WAIVED | A_PAID | A_CANCELLED.

#[global] Instance AssessmentStatus_eq_dec : EqDecision AssessmentStatus.
Proof. solve_decision. Defined.

Record Assessment := mkAssessment {
  as_id : string; as_scope : Scope; as_invoiceId : option string; as_currency : string; as_periodStart : Z; as_periodEnd : Z;
  as_startingHighWaterMark : Z; as_endingRealisedBalance : Z; as_depositsExcluded : Z; as_withdrawalsAdjusted : Z;
  as_realisedProfitForFee : Z; as_feePercent : Z; as_feeAmount : Z; as_status : AssessmentStatus }.

Inductive LedgerEntryType := DEPOSIT | WITHDRAWAL | REALISED_TRADE_PROFIT | REALISED_TRADE_LOSS | FEE_ASSESSED | FEE_PAID | ADJUSTMENT.

#[global] Instance LedgerEntryType_eq_dec : EqDecision LedgerEntryType.
Proof. solve_decision. Defined.

Record LedgerEntry := mkEntry {
  le_id : string; le_scope : Scope; le_assessmentId : option string; le_entryType : LedgerEntryType; le_currency : string;
  le_amount : Z; le_sourceReference : option string; le_occurredAt : Z }.

Inductive InvoiceStatus := I_DRAFT | I_ISSUED | I_PAID | I_VOID | I_OVERDUE | I_CANCELLED.

#[global] Instance InvoiceStatus_eq_dec : EqDecision InvoiceStatus.
Proof. solve_decision. Defined.

Record Invoice := mkInvoice {
  iv_id : string; iv_userId : string; iv_invoiceNumber : string; iv_status : InvoiceStatus; iv_currency : string;
  iv_totalAmount : Z; iv_dueDate : option Z; iv_paidAt : option Z; iv_type : option string }.

Inductive PaymentPurpose := SUBSCRIPTION_INITIAL | SUBSCRIPTION_RENEWAL | PERFORMANCE_FEE | MANUAL_ADJUSTMENT.

#[global] Instance PaymentPurpose_eq_dec : EqDecision PaymentPurpose.
Proof. solve_decision. Defined.

Inductive PaymentTransactionStatus := P_PENDING | P_PROCESSING | P_SUCCEEDED | P_FAILED | P_CANCELLED | P_REFUNDED.

#[global] Instance PaymentTransactionStatus_eq_dec : EqDecision PaymentTransactionStatus.
Proof. solve_decision. Defined.

Record PaymentTransaction := mkPayment {
  py_id : string; py_userId : string; py_invoiceId : option string; py_provider : string;
  py_providerTransactionReference : option string; py_purpose : PaymentPurpose; py_status : PaymentTransactionStatus;
  py_currency : string; py_amountMinor : Z; py_createdAt : Z }.

Record WebhookEvent := mkWebhook {
  wh_id : string; wh_provider : string; wh_providerEventId : string; wh_processed : bool; wh_processingError : option string }.

Inductive BillingCycleStatus :=
  B_DRAFT | B_RECONCILING | B_RECONCILED | B_ASSESSING | B_ASSESSED | B_INVOICED | B_NO_FEE_DUE | B_FAILED | B_CANCELLED.

#[global] Instance BillingCycleStatus_eq_dec : EqDecision BillingCycleStatus.
Proof. solve_decision. Defined.

Record BillingCycle := mkCycle {
  bc_id : string; bc_scope : Scope; bc_periodStart : Z; bc_periodEnd : Z; bc_currency : string; bc_status : BillingCycleStatus;
  bc_reconciliationRunId : option string; bc_assessmentId : option string; bc_invoiceId : option string;
  bc_totalLedgerEntriesCreated : Z; bc_totalRealisedProfit : Z; bc_feeAmount : Z; bc_errorSummary : option string;
  bc_completedAt : option Z }.

Inductive ReconciliationRunStatus := R_PENDING | R_RUNNING | R_COMPLETED | R_COMPLETED_WITH_WARNINGS | R_FAILED.

#[global] Instance ReconciliationRunStatus_eq_dec : EqDecision ReconciliationRunStatus.
Proof. solve_decision. Defined.

Record ReconciliationRun := mkRun {
  rn_id : string; rn_userId : string; rn_brokerConnectionId : string; rn_status : ReconciliationRunStatus; rn_fromTime : Z;
  rn_toTime : Z; rn_startedAt : option Z; rn_completedAt : option Z; rn_totalBrokerTradesSeen : Z; rn_newLedgerEntriesCreated : Z;
  rn_duplicateTradesSkipped : Z; rn_failedTrades : Z; rn_errorSummary : option string }.

Record ReconciledTrade := mkReconciled {
  rt_id : string; rt_userId : string; rt_brokerConnectionId : string; rt_brokerTradeId : string; rt_closedAt : Z;
  rt_realisedPnl : Z; rt_commission : Z; rt_swap : Z; rt_netRealisedPnl : Z; rt_currency : string;
  rt_reconciliationRunId : option string; rt_ledgerEntryId : option string }.

(** What the fees read of a broker connection. *)
Record LiveAccount := mkLiveAccount { la_userId : string; la_live : bool; la_accountCurrency : option string; la_brokerId : string }.

(** The payment providers a country enables. *)
Record CountryConfig := mkCountry { cc_isBlocked : bool; cc_enabledPaymentProviders : list string }.

(** A checkout session a provider has opened, for a transaction. *)
Record CheckoutSession := mkSession { cs_provider : string; cs_transactionId : string; cs_amountMinor : Z; cs_reference : string }.

(** An audit entry: its action and resource. *)
Abbreviation FeeNote := (string * string)%type.

Record Books := mkBooks {
  policies : gmap string Policy;
  performances : gmap string Performance;
  assessments : gmap string Assessment;
  ledger : gmap string LedgerEntry;
  invoices : gmap string Invoice;
  payments : gmap string PaymentTransaction;
  webhooks : gmap string WebhookEvent;
  cycles : gmap string BillingCycle;
  runs : gmap string ReconciliationRun;
  reconciled : gmap string ReconciledTrade;
  accounts : gmap string LiveAccount; owners : gmap string (option string);
  countries : gmap string CountryConfig; sessions : list CheckoutSession; clock : Z; notes : list FeeNote }.

Definition set_policies (m : gmap string Policy) (b : Books) : Books :=
  mkBooks m (performances b) (assessments b) (ledger b) (invoices b) (payments b) (webhooks b) (cycles b) (runs b) (reconciled b) (accounts b) (owners b) (countries b) (sessions b) (clock b) (notes b).
Definition set_performances (m : gmap string Performance) (b : Books) : Books :=
  mkBooks (policies b) m (assessments b) (ledger b) (invoices b) (payments b) (webhooks b) (cycles b) (runs b) (reconciled b) (accounts b) (owners b) (countries b) (sessions b) (clock b) (notes b).
Definition set_assessments (m : gmap string Assessment) (b : Books) : Books :=
  mkBooks (policies b) (performances b) m (ledger b) (invoices b) (payments b) (webhooks b) (cycles b) (runs b) (reconciled b) (accounts b) (owners b) (countries b) (sessions b) (clock b) (notes b).
Definition set_ledger (m : gmap string LedgerEntry) (b : Books) : Books :=
  mkBooks (policies b) (performances b) (assessments b) m (invoices b) (payments b) (webhooks b) (cycles b) (runs b) (reconciled b) (accounts b) (owners b) (countries b) (sessions b) (clock b) (notes b).
Definition set_invoices (m : gmap string Invoice) (b : Books) : Books :=
  mkBooks (policies b) (performances b) (assessments b) (ledger b) m (payments b) (webhooks b) (cycles b) (runs b) (reconciled b) (accounts b) (owners b) (countries b) (sessions b) (clock b) (notes b).
Definition set_payments (m : gmap string PaymentTransaction) (b : Books) : Books :=
  mkBooks (policies b) (performances b) (assessments b) (ledger b) (invoices b) m (webhooks b) (cycles b) (runs b) (reconciled b) (accounts b) (owners b) (countries b) (sessions b) (clock b) (notes b).
Definition set_webhooks (m : gmap string WebhookEvent) (b : Books) : Books :=
  mkBooks (policies b) (performances b) (assessments b) (ledger b) (invoices b) (payments b) m (cycles b) (runs b) (reconciled b) (accounts b) (owners b) (countries b) (sessions b) (clock b) (notes b).
Definition set_cycles (m : gmap string BillingCycle) (b : Books) : Books :=
  mkBooks (policies b) (performances b) (assessments b) (ledger b) (invoices b) (payments b) (webhooks b) m (runs b) (reconciled b) (accounts b) (owners b) (countries b) (sessions b) (clock b) (notes b).
Definition set_runs (m : gmap string ReconciliationRun) (b : Books) : Books :=
  mkBooks (policies b) (performances b) (assessments b) (ledger b) (invoices b) (payments b) (webhooks b) (cycles b) m (reconciled b) (accounts b) (owners b) (countries b) (sessions b) (clock b) (notes b).
Definition set_reconciled (m : gmap string ReconciledTrade) (b : Books) : Books :=
  mkBooks (policies b) (performances b) (assessments b) (ledger b) (invoices b) (payments b) (webhooks b) (cycles b) (runs b) m (accounts b) (owners b) (countries b) (sessions b) (clock b) (notes b).
Definition set_notes (l : list FeeNote) (b : Books) : Books :=
  mkBooks (policies b) (performances b) (assessments b) (ledger b) (invoices b) (payments b) (webhooks b) (cycles b) (runs b) (reconciled b) (accounts b) (owners b) (countries b) (sessions b) (clock b) l.
Definition set_sessions (l : list CheckoutSession) (b : Books) : Books :=
  mkBooks (policies b) (performances b) (assessments b) (ledger b) (invoices b) (payments b) (webhooks b) (cycles b) (runs b) (reconciled b) (accounts b) (owners b) (countries b) l (clock b) (notes b).

Abbreviation fio := (prog Books exn).

(** ** Statements *)

Abbreviation look := (read (S := Books) (E := exn)).

(** [auditService.log], which never throws. *)
Definition fee_note (action resourceId : string) : fio unit :=
  catch (modify (fun b => set_notes (notes b ++ [(action, resourceId)]) b)) (fun _ => Ret tt).

(** Values for bigint columns. *)
Definition bigints (l : list Z) : result exn unit :=
  if forallb (fun v => (- 2 ^ 63 <=? v) && (v <? 2 ^ 63)) l then Ok tt else Err NumericOverflow.

(** [INSERT] under a primary key and one unique index: [clashes] are the rows that hold the slot. *)
Definition insert_row {R} (pkey index : string) (clashes : R -> bool) (id : string) (r : R) (m : gmap string R)
  : result exn (gmap string R) :=
  if bool_decide (is_Some (m !! id)) then Err (UniqueViolation pkey)
  else match find_row clashes m with
       | Some _ => Err (UniqueViolation index)
       | None => Ok (<[id := r]> m)
       end.

Definition no_index {R} (r : R) : bool := false.

(** A statement on one table. *)
Definition on_table {R} (get : Books -> gmap string R) (set : gmap string R -> Books -> Books)
    (act : Books -> result exn (gmap string R)) (b : Books) : Books * result exn unit :=
  match act b with Ok m => (set m b, Ok tt) | Err e => (b, Err e) end.

(** [repository.update(id, patch)], and [save] of a row that was loaded: every column is written. *)
Definition patch_row {R} (f : R -> R) (id : string) (m : gmap string R) : gmap string R := fst (update_row (fun _ => true) f id m).

Definition policy_save (p : Policy) : fio unit := op (on_table policies set_policies (fun b => Ok (<[fp_id p := p]> (policies b)))).

Definition performance_insert (p : Performance) : fio unit :=
  op (on_table performances set_performances
        (fun b => insert_row "trading_account_performances_pkey" "" no_index (tp_id p) p (performances b))).

Definition performance_update (id : string) (f : Performance -> Performance) (values : list Z) : fio unit :=
  op (on_table performances set_performances (fun b => rmap (fun _ => patch_row f id (performances b)) (bigints values))).

(** The slot of the partial unique indexes on a scope and a period. *)
Definition same_period (a a' : Assessment) : bool :=
  bool_decide (as_scope a' = as_scope a) && (as_periodStart a' =? as_periodStart a) && (as_periodEnd a' =? as_periodEnd a).

Definition assessment_insert (a : Assessment) : fio unit :=
  op (on_table assessments set_assessments (fun b =>
        rbind (bigints [as_startingHighWaterMark a; as_endingRealisedBalance a; as_depositsExcluded a; as_withdrawalsAdjusted a;
                        as_realisedProfitForFee a; as_feeAmount a]) (fun _ =>
        insert_row "performance_fee_assessments_pkey"
          (match snd (as_scope a) with Some _ => "idx_pfa_unique_period_with_broker" | None => "idx_pfa_unique_period_no_broker" end)
          (same_period a) (as_id a) a (assessments b)))).

Definition assessment_update (id : string) (f : Assessment -> Assessment) : fio unit :=
  op (on_table assessments set_assessments (fun b => Ok (patch_row f id (assessments b)))).

Definition ledger_insert (e : LedgerEntry) : fio unit :=
  op (on_table ledger set_ledger (fun b =>
        rbind (bigints [le_amount e]) (fun _ => insert_row "performance_fee_ledger_entries_pkey" "" no_index (le_id e) e (ledger b)))).

Definition invoice_insert (i : Invoice) : fio unit :=
  op (on_table invoices set_invoices (fun b =>
        insert_row "invoices_pkey" "invoices_invoice_number_key"
          (fun i' => bool_decide (iv_invoiceNumber i' = iv_invoiceNumber i)) (iv_id i) i (invoices b))).

Definition invoice_update (id : string) (f : Invoice -> Invoice) : fio unit :=
  op (on_table invoices set_invoices (fun b => Ok (patch_row f id (invoices b)))).

(** The partial unique index on provider references. *)
Definition same_reference (p p' : PaymentTransaction) : bool :=
  bool_decide (py_provider p' = py_provider p) &&
  match py_providerTransactionReference p, py_providerTransactionReference p' with Some r, Some r' => bool_decide (r' = r) && negb (bool_decide (r = "")) | _, _ => false end.

Definition payment_insert (p : PaymentTransaction) : fio unit :=
  op (on_table payments set_payments (fun b =>
        insert_row "payment_transactions_pkey" "ux_payment_transactions_provider_reference" (same_reference p) (py_id p) p (payments b))).

(** [UPDATE .. WHERE id = .. AND p]: the rows affected. *)
Definition payment_cas (p : PaymentTransaction -> bool) (f : PaymentTransaction -> PaymentTransaction) (id : string) : fio Z :=
  op (fun b =>
        match payments b !! id with
        | Some r =>
            if negb (p r) then (b, Ok 0)
            else if bool_decide (is_Some (find_row (fun r' => negb (bool_decide (py_id r' = id)) && same_reference (f r) r') (payments b)))
            then (b, Err (UniqueViolation "ux_payment_transactions_provider_reference"))
            else (set_payments (<[id := f r]> (payments b)) b, Ok 1)
        | None => (b, Ok 0)
        end).

Definition payment_update (id : string) (f : PaymentTransaction -> PaymentTransaction) : fio unit :=
  bind (payment_cas (fun _ => true) f id) (fun _ => Ret tt).

Definition webhook_insert (w : WebhookEvent) : fio unit :=
  op (on_table webhooks set_webhooks (fun b =>
        insert_row "payment_webhook_events_pkey" "uq_webhook_provider_event"
          (fun w' => bool_decide (wh_provider w' = wh_provider w) && bool_decide (wh_providerEventId w' = wh_providerEventId w))
          (wh_id w) w (webhooks b))).

Definition webhook_update (id : string) (f : WebhookEvent -> WebhookEvent) : fio unit :=
  op (on_table webhooks set_webhooks (fun b => Ok (patch_row f id (webhooks b)))).

Definition same_cycle (c c' : BillingCycle) : bool :=
  bool_decide (bc_scope c' = bc_scope c) && (bc_periodStart c' =? bc_periodStart c) && (bc_periodEnd c' =? bc_periodEnd c).

Definition cycle_insert (c : BillingCycle) : fio unit :=
  op (on_table cycles set_cycles (fun b =>
        insert_row "performance_fee_billing_cycles_pkey"
          (match snd (bc_scope c) with Some _ => "idx_pfbc_unique_cycle_with_broker" | None => "idx_pfbc_unique_cycle_no_broker" end)
          (same_cycle c) (bc_id c) c (cycles b))).

Definition cycle_update (id : string) (f : BillingCycle -> BillingCycle) : fio unit :=
  op (on_table cycles set_cycles (fun b => Ok (patch_row f id (cycles b)))).

Definition run_insert (r : ReconciliationRun) : fio unit :=
  op (on_table runs set_runs (fun b => insert_row "broker_trade_reconciliation_runs_pkey" "" no_index (rn_id r) r (runs b))).

Definition run_update (id : string) (f : ReconciliationRun -> ReconciliationRun) : fio unit :=
  op (on_table runs set_runs (fun b => Ok (patch_row f id (runs b)))).

Definition same_trade (t t' : ReconciledTrade) : bool :=
  bool_decide (rt_userId t' = rt_userId t) && bool_decide (rt_brokerConnectionId t' = rt_brokerConnectionId t) &&
  bool_decide (rt_brokerTradeId t' = rt_brokerTradeId t).

Definition reconciled_insert (t : ReconciledTrade) : fio unit :=
  op (on_table reconciled set_reconciled (fun b =>
        rbind (bigints [rt_realisedPnl t; rt_commission t; rt_swap t; rt_netRealisedPnl t]) (fun _ =>
        insert_row "broker_reconciled_trades_pkey" "idx_brt_unique_trade" (same_trade t) (rt_id t) t (reconciled b)))).

Definition reconciled_update (id : string) (f : ReconciledTrade -> ReconciledTrade) : fio unit :=
  op (on_table reconciled set_reconciled (fun b => Ok (patch_row f id (reconciled b)))).

(** ** Lemmas *)

Lemma insert_row_ok {R} pkey index (clashes : R -> bool) id r m m' :
  insert_row pkey index clashes id r m = Ok m' ->
  m' = <[id := r]> m /\ m !! id = None /\ forall id' r', m !! id' = Some r' -> clashes r' = false.
Proof.
  unfold insert_row. case_bool_decide as Hid; [done|]. destruct (find_row clashes m) eqn:Hf; [done|]. intros [= <-].
  split; [done|]. split; [|by apply find_row_none]. destruct (m !! id) eqn:Hx; [|done]. exfalso. apply Hid. by eexists.
Qed.

Lemma patch_row_lookup {R} (f : R -> R) id m id' :
  patch_row f id m !! id' = (if decide (id = id') then f <$> m !! id' else m !! id').
Proof.
  unfold patch_row, update_row. destruct (m !! id) as [r|] eqn:Hr; cbn [fst].
  - destruct (decide (id = id')) as [<-|Hne]; [by rewrite lookup_insert_eq, Hr|by rewrite lookup_insert_ne].
  - destruct (decide (id = id')) as [<-|Hne]; [by rewrite Hr|done].
Qed.

Lemma on_table_cases {R} (get : Books -> gmap string R) set act b :
  (fst (on_table get set act b) = b /\ exists e, snd (on_table get set act b) = Err e /\ act b = Err e) \/
  exists m, act b = Ok m /\ on_table get set act b = (set m b, Ok tt).
Proof. unfold on_table. destruct (act b) as [m|e]; [right|left]; eauto. Qed.
