(* ===== verification/TradeLedger.v ===== *)
(** * Broker trades into the ledger ([broker-reconciliation/services/broker-trade-reconciliation.service.ts])

    [runReconciliation]: the closed trades a broker reports for a LIVE account become immutable
    reconciled trades, each with one realised-profit or realised-loss entry in the fee ledger.
    A trade is processed in one transaction under an advisory lock on its identity; with the
    unique index on that identity no other statement can come between its own that matters here,
    and it is one step of the model.  What the broker answers is an argument, as are the uuids. *)

From S2P Require Import Prelude Prog JsString Store ClosedTrades FeeBooks.
Open Scope string_scope.
Open Scope list_scope.
Open Scope Z_scope.

Section service.
(** [brokerService.getClosedTradesForConnection], as it answers to a run. *)
Context (closedTrades : string -> string -> Z -> Z -> result exn (list BrokerClosedTrade)).
Local Open Scope prog_scope.

(** ** Checks *)

Definition DAY_MS : Z := 24 * 60 * 60 * 1000.
Definition MAX_WINDOW_DAYS : Z := 90.

Definition validateTimeRange (now fromTime toTime : Z) : result exn unit :=
  if toTime <=? fromTime then Err (BadRequestException "fromTime must be before toTime")
  else if now <? toTime then Err (BadRequestException "toTime must not be in the future")
  else if MAX_WINDOW_DAYS * DAY_MS <? toTime - fromTime then Err (BadRequestException "Reconciliation window exceeds maximum")
  else Ok tt.

Definition validateAccountCurrency (raw : option string) : result exn string :=
  match raw with
  | None => Err (BadRequestException "Broker connection has no account currency configured")
  | Some raw =>
      let trimmed := string_of (trim (chars_of raw)) in
      if bool_decide (trimmed = "") then Err (BadRequestException "Broker connection account currency is empty")
      else if negb (isSupportedCurrency trimmed) then Err (BadRequestException "Unsupported account currency")
      else Ok (toUpperCase trimmed)
  end.

(** [brokerService.findConnectionById]. *)
Definition findConnectionById (connectionId userId : string) : fio LiveAccount :=
  let* found := look (fun b => accounts b !! connectionId) in
  match found with
  | Some a => if bool_decide (la_userId a = userId) then Ret a else Throw (NotFoundException "Broker connection not found")
  | None => Throw (NotFoundException "Broker connection not found")
  end.

(** ** One trade *)

Definition realised_type (net : Z) : LedgerEntryType := if 0 <? net then REALISED_TRADE_PROFIT else REALISED_TRADE_LOSS.

Definition realised_entry (ledgerId : string) (t : ReconciledTrade) : LedgerEntry :=
  mkEntry ledgerId (rt_userId t, Some (rt_brokerConnectionId t)) None (realised_type (rt_netRealisedPnl t)) (rt_currency t)
    (rt_netRealisedPnl t) (Some (rt_brokerTradeId t)) (rt_closedAt t).

Definition with_ledger_entry (ledgerId : string) (t : ReconciledTrade) : ReconciledTrade :=
  mkReconciled (rt_id t) (rt_userId t) (rt_brokerConnectionId t) (rt_brokerTradeId t) (rt_closedAt t) (rt_realisedPnl t) (rt_commission t)
    (rt_swap t) (rt_netRealisedPnl t) (rt_currency t) (rt_reconciliationRunId t) (Some ledgerId).

(** [LEDGER_BACKFILLED] is the entry of a trade that was stored without one. *)
Inductive TradeOutcome := DUPLICATE | LEDGER_LINKED (ledgerId : string) | LEDGER_BACKFILLED | LEDGER_CREATED | NO_LEDGER_ENTRY.

(** The entries a trade may already have. *)
Definition candidate_entries (t : ReconciledTrade) (b : Books) : list LedgerEntry :=
  List.filter (fun e => bool_decide (le_scope e = (rt_userId t, Some (rt_brokerConnectionId t))) &&
                        bool_decide (le_sourceReference e = Some (rt_brokerTradeId t)))
    (map snd (map_to_list (ledger b))).

Definition enter_trade (ledgerId : string) (t : ReconciledTrade) : fio unit :=
  do! ledger_insert (realised_entry ledgerId t) in
  reconciled_update (rt_id t) (with_ledger_entry ledgerId).

Definition process_existing (ledgerId currency : string) (existing : ReconciledTrade) : fio TradeOutcome :=
  if negb (bool_decide (rt_currency existing = currency)) then Throw (BadRequestException "Existing reconciled trade currency does not match")
  else if rt_netRealisedPnl existing =? 0 then Ret DUPLICATE
  else
    match rt_ledgerEntryId existing with
    | Some _ => Ret DUPLICATE
    | None =>
        let* candidates := look (candidate_entries existing) in
        match candidates with
        | [] => do! enter_trade ledgerId existing in Ret LEDGER_BACKFILLED
        | [e] =>
            if bool_decide (le_entryType e = realised_type (rt_netRealisedPnl existing)) && bool_decide (le_currency e = currency)
               && (le_amount e =? rt_netRealisedPnl existing)
            then do! reconciled_update (rt_id existing) (with_ledger_entry (le_id e)) in Ret (LEDGER_LINKED (le_id e))
            else Throw (BadRequestException "Existing ledger does not match the expected realised P&L")
        | _ => Throw (BadRequestException "Ambiguous realised-P&L ledger state")
        end
    end.

Definition reconciled_row (tradeId userId connectionId runId currency : string) (n : NormalizedClosedTrade) : ReconciledTrade :=
  mkReconciled tradeId userId connectionId (nt_brokerTradeId n) (nt_closedAt n) (nt_grossRealisedPnl n) (nt_commission n) (nt_swap n)
    (nt_netRealisedPnl n) currency (Some runId) None.

Definition same_identity (userId connectionId brokerTradeId : string) (t : ReconciledTrade) : bool :=
  bool_decide (rt_userId t = userId) && bool_decide (rt_brokerConnectionId t = connectionId) && bool_decide (rt_brokerTradeId t = brokerTradeId).

Definition process_trade (tradeId ledgerId userId connectionId runId currency : string) (n : NormalizedClosedTrade) : fio TradeOutcome :=
  let* existing := look (fun b => find_row (same_identity userId connectionId (nt_brokerTradeId n)) (reconciled b)) in
  match existing with
  | Some existing => process_existing ledgerId currency existing
  | None =>
      let row := reconciled_row tradeId userId connectionId runId currency n in
      do! reconciled_insert row in
      if nt_netRealisedPnl n =? 0 then Ret NO_LEDGER_ENTRY else do! enter_trade ledgerId row in Ret LEDGER_CREATED
  end.

(** The audits follow the commit. *)
Definition processTradeAtomically (tradeId ledgerId userId connectionId runId currency : string) (n : NormalizedClosedTrade) : fio TradeOutcome :=
  let* outcome := transaction (process_trade tradeId ledgerId userId connectionId runId currency n) in
  do! (match outcome with
       | DUPLICATE => fee_note "BROKER_TRADE_RECONCILIATION_SKIPPED" (userId +:+ "/" +:+ connectionId +:+ "/" +:+ nt_brokerTradeId n)
       | LEDGER_LINKED existing => fee_note "PERFORMANCE_FEE_LEDGER_ENTRY_CREATED_FROM_BROKER_TRADE" existing
       | LEDGER_BACKFILLED => fee_note "PERFORMANCE_FEE_LEDGER_ENTRY_CREATED_FROM_BROKER_TRADE" ledgerId
       | NO_LEDGER_ENTRY => fee_note "BROKER_TRADE_RECONCILED" tradeId
       | LEDGER_CREATED =>
           do! fee_note "BROKER_TRADE_RECONCILED" tradeId in
           fee_note "PERFORMANCE_FEE_LEDGER_ENTRY_CREATED_FROM_BROKER_TRADE" ledgerId
       end) in
  Ret outcome.

(** ** A run *)

Record RunCounts := mkCounts { rc_created : Z; rc_duplicates : Z; rc_failed : Z }.

Definition count_outcome (c : RunCounts) (r : result exn TradeOutcome) : RunCounts :=
  match r with
  | Ok DUPLICATE => mkCounts (rc_created c) (rc_duplicates c + 1) (rc_failed c)
  | Ok LEDGER_CREATED | Ok LEDGER_BACKFILLED => mkCounts (rc_created c + 1) (rc_duplicates c) (rc_failed c)
  | Ok _ => c
  | Err _ => mkCounts (rc_created c) (rc_duplicates c) (rc_failed c + 1)
  end.

(** The loop over the normalised trades; [ids] are the uuids drawn for the [k]-th one. *)
Fixpoint process_trades (ids : nat -> string * string) (k : nat) (userId connectionId runId currency : string)
    (l : list NormalizedClosedTrade) (c : RunCounts) : fio RunCounts :=
  match l with
  | [] => Ret c
  | n :: l =>
      let* r := attempt (processTradeAtomically (fst (ids k)) (snd (ids k)) userId connectionId runId currency n) in
      process_trades ids (S k) userId connectionId runId currency l (count_outcome c r)
  end.

Definition with_run_status (status : ReconciliationRunStatus) (startedAt : option Z) (r : ReconciliationRun) : ReconciliationRun :=
  mkRun (rn_id r) (rn_userId r) (rn_brokerConnectionId r) status (rn_fromTime r) (rn_toTime r) startedAt (rn_completedAt r)
    (rn_totalBrokerTradesSeen r) (rn_newLedgerEntriesCreated r) (rn_duplicateTradesSkipped r) (rn_failedTrades r) (rn_errorSummary r).

Definition finalised (status : ReconciliationRunStatus) (at_ : Z) (seen : Z) (c : RunCounts) (error : option string) (r : ReconciliationRun)
  : ReconciliationRun :=
  mkRun (rn_id r) (rn_userId r) (rn_brokerConnectionId r) status (rn_fromTime r) (rn_toTime r) (rn_startedAt r) (Some at_)
    seen (rc_created c) (rc_duplicates c) (rc_failed c) error.

Definition finaliseRun (runId : string) (status : ReconciliationRunStatus) (seen : Z) (c : RunCounts) (error : option string) : fio unit :=
  let* at_ := look clock in run_update runId (finalised status at_ seen c error).

(** [runRepo.findOne({ where: { id } })], answered as it is. *)
Definition run_of (runId : string) : fio (option ReconciliationRun) := look (fun b => runs b !! runId).

Definition no_counts : RunCounts := mkCounts 0 0 0.

Definition finished_status (skipped : nat) (c : RunCounts) : ReconciliationRunStatus :=
  if (0 <? rc_failed c) || (0 <? Z.of_nat skipped) then R_COMPLETED_WITH_WARNINGS else R_COMPLETED.

Definition runReconciliation (runId : string) (ids : nat -> string * string) (userId connectionId : string) (fromTime toTime : Z)
  : fio (option ReconciliationRun) :=
  let* now := look clock in
  do! of_result (validateTimeRange now fromTime toTime) in
  let* connection := findConnectionById connectionId userId in
  if negb (la_live connection) then Throw (BadRequestException "Broker connection is not a LIVE account")
  else
    let* currency := of_result (validateAccountCurrency (la_accountCurrency connection)) in
    do! run_insert (mkRun runId userId connectionId R_PENDING fromTime toTime None None 0 0 0 0 None) in
    do! fee_note "BROKER_RECONCILIATION_STARTED" runId in
    let* started := look clock in
    do! run_update runId (with_run_status R_RUNNING (Some started)) in
    match closedTrades runId connectionId fromTime toTime with
    | Err e =>
        do! finaliseRun runId R_FAILED 0 no_counts (Some "Adapter error") in
        do! fee_note "BROKER_RECONCILIATION_FAILED" runId in
        run_of runId
    | Ok rawTrades =>
        let* at_ := look clock in
        let* normalised := of_result (normalize rawTrades currency at_) in
        let '(valid, skipped) := normalised in
        let* c := process_trades ids 0 userId connectionId runId currency valid no_counts in
        do! finaliseRun runId (finished_status skipped c) (Z.of_nat (length rawTrades)) c None in
        do! fee_note "BROKER_RECONCILIATION_COMPLETED" runId in
        run_of runId
    end.
End service.
