(* ===== verification/FeeAssessments.v ===== *)
(** * Assessments and invoices ([performance-fees/services/performance-fee.service.ts])

    Policies, the calculation of an assessment from the ledger against the account's high-water
    mark, its invoice, and manual ledger entries.  Each awaited statement is one step, so that
    racing calls and lost statements are visible.  The two sums the calculation only records
    (deposits and withdrawals) are computed as the source does; the listing queries are left
    out. *)

From S2P Require Import Prelude Prog JsString Store Capital FeeRates ClosedTrades FeeBooks.
Open Scope string_scope.
Open Scope list_scope.
Open Scope Z_scope.
Local Open Scope prog_scope.

(** ** Policies *)

Definition active_global (p : Policy) : bool := fp_isActive p && bool_decide (fp_planId p = None).

Definition active_policies (b : Books) : list Policy := List.filter active_global (map snd (map_to_list (policies b))).

Definition findActiveGlobalPolicy : fio Policy :=
  let* found := look active_policies in
  match found with
  | [] => Throw (BadRequestException "No active global performance fee policy configured")
  | [p] => Ret p
  | _ => Throw (BadRequestException "Multiple active global performance fee policies found")
  end.

(** The creation under its advisory lock; the percentage is the text of the DTO's number. *)
Definition create_policy (newId feePercent : string) : fio Policy :=
  transaction
    (let* existing := look active_policies in
     match existing with
     | _ :: _ => Throw (BadRequestException "An active global performance fee policy already exists")
     | [] =>
         let* percent := of_result (numeric_column 7 4 feePercent) in
         let policy := mkPolicy newId None percent true in
         do! policy_save policy in Ret policy
     end).

Definition createPolicy (newId : string) (planId : option string) (feePercent : string) : fio Policy :=
  match planId with
  | Some _ => Throw (BadRequestException "Subscription-plan-linked performance fee policies are retired")
  | None =>
      let* saved := create_policy newId feePercent in
      do! fee_note "PERFORMANCE_FEE_POLICY_CREATED" (fp_id saved) in
      Ret saved
  end.

Definition deactivatePolicy (policyId : string) : fio Policy :=
  let* found := look (fun b => policies b !! policyId) in
  match found with
  | None => Throw (NotFoundException "Performance fee policy not found")
  | Some policy =>
      if negb (fp_isActive policy) then Ret policy
      else
        let saved := mkPolicy (fp_id policy) (fp_planId policy) (fp_feePercent policy) false in
        do! policy_save saved in
        do! fee_note "PERFORMANCE_FEE_POLICY_DEACTIVATED" (fp_id saved) in
        Ret saved
  end.

(** ** The calculation *)

Definition validateAndNormalizeCurrency (currency : option string) : result exn string :=
  match currency with
  | None => Err (BadRequestException "Currency is required for a performance-fee assessment.")
  | Some currency =>
      let trimmed := string_of (trim (chars_of currency)) in
      if bool_decide (trimmed = "") then Err (BadRequestException "Currency is required (empty value rejected).")
      else
        let upper := toUpperCase trimmed in
        if negb (isSupportedCurrency upper) then Err (BadRequestException "Unsupported currency for performance-fee assessment.")
        else Ok upper
  end.

Definition of_scope (s : Scope) (p : Performance) : bool := bool_decide (tp_scope p = s).

Definition findExistingAssessment (s : Scope) (periodStart periodEnd : Z) (b : Books) : option Assessment :=
  find_row (fun a => bool_decide (as_scope a = s) && (as_periodStart a =? periodStart) && (as_periodEnd a =? periodEnd)) (assessments b).

Definition outstanding (a : Assessment) : bool :=
  bool_decide (as_status a = A_ASSESSED) || bool_decide (as_status a = A_INVOICED).

Definition findOutstandingAssessment (s : Scope) (b : Books) : option Assessment :=
  find_row (fun a => bool_decide (as_scope a = s) && outstanding a) (assessments b).

Definition getOrCreatePerformance (newId : string) (s : Scope) (currency : string) : fio Performance :=
  let* existing := look (fun b => find_row (of_scope s) (performances b)) in
  match existing with
  | Some p => Ret p
  | None => let p := mkPerformance newId s currency 0 None 0 0 None in do! performance_insert p in Ret p
  end.

(** [occurredAt: Between(periodStart, periodEnd)], both ends included; the sums do not depend on
    the order. *)
Definition in_period (s : Scope) (periodStart periodEnd : Z) (e : LedgerEntry) : bool :=
  bool_decide (le_scope e = s) && (periodStart <=? le_occurredAt e) && (le_occurredAt e <=? periodEnd).

Definition period_entries (s : Scope) (periodStart periodEnd : Z) (b : Books) : list LedgerEntry :=
  List.filter (in_period s periodStart periodEnd) (map snd (map_to_list (ledger b))).

Record PeriodSums := mkSums { ps_realised : Z; ps_deposits : Z; ps_withdrawals : Z }.

Definition add_entry (sums : PeriodSums) (e : LedgerEntry) : PeriodSums :=
  match le_entryType e with
  | REALISED_TRADE_PROFIT | REALISED_TRADE_LOSS => mkSums (ps_realised sums + le_amount e) (ps_deposits sums) (ps_withdrawals sums)
  | DEPOSIT => mkSums (ps_realised sums) (ps_deposits sums + le_amount e) (ps_withdrawals sums)
  | WITHDRAWAL => mkSums (ps_realised sums) (ps_deposits sums) (ps_withdrawals sums + le_amount e)
  | _ => sums
  end.

Definition period_sums (entries : list LedgerEntry) : PeriodSums := foldl add_entry (mkSums 0 0 0) entries.

Definition assessment_row (newId : string) (s : Scope) (currency : string) (periodStart periodEnd : Z) (policy : Policy) (perf : Performance)
    (sums : PeriodSums) (c : HighWaterMarkCalculation) : Assessment :=
  mkAssessment newId s None currency periodStart periodEnd (tp_currentHighWaterMark perf) (tp_totalRealisedProfit perf + ps_realised sums)
    (ps_deposits sums) (ps_withdrawals sums) (hc_realisedProfitForFee c) (fp_feePercent policy) (hc_feeAmount c)
    (if 0 <? hc_feeAmount c then A_ASSESSED else A_DRAFT).

Definition with_total (total at_ : Z) (p : Performance) : Performance :=
  mkPerformance (tp_id p) (tp_scope p) (tp_currency p) (tp_currentHighWaterMark p) (Some total) total (tp_totalFeesCharged p) (Some at_).

(** From the account's record on. *)
Definition assess (newId : string) (s : Scope) (currency : string) (periodStart periodEnd : Z) (policy : Policy) (perf : Performance)
  : fio Assessment :=
  let* entries := look (period_entries s periodStart periodEnd) in
  if negb (forallb (fun e => bool_decide (le_currency e = currency)) entries)
  then Throw (BadRequestException "Currency mismatch in ledger entry")
  else
    let sums := period_sums entries in
    let total := tp_totalRealisedProfit perf + ps_realised sums in
    let* c := of_result (calculateHighWaterMarkFee total (tp_currentHighWaterMark perf) (fp_feePercent policy)) in
    let a := assessment_row newId s currency periodStart periodEnd policy perf sums c in
    do! assessment_insert a in
    let* at_ := look clock in
    do! performance_update (tp_id perf) (with_total total at_) [total] in
    do! fee_note "PERFORMANCE_FEE_ASSESSMENT_CALCULATED" (as_id a) in
    Ret a.

Definition calculateAssessment (newId newPerformanceId : string) (s : Scope) (currency : option string) (periodStart periodEnd : Z)
  : fio Assessment :=
  let* currency := of_result (validateAndNormalizeCurrency currency) in
  let* policy := findActiveGlobalPolicy in
  let* existing := look (findExistingAssessment s periodStart periodEnd) in
  match existing with
  | Some a =>
      if bool_decide (as_status a = A_DRAFT) then Ret a
      else Throw (ConflictException "An assessment already exists for this user/broker/period")
  | None =>
      let* pending := look (findOutstandingAssessment s) in
      match pending with
      | Some _ => Throw (ConflictException "An outstanding assessment must be resolved before calculating a new assessment")
      | None =>
          let* existingPerf := look (fun b => find_row (of_scope s) (performances b)) in
          match existingPerf with
          | Some perf =>
              if negb (bool_decide (tp_currency perf = currency)) then Throw (BadRequestException "Currency mismatch")
              else assess newId s currency periodStart periodEnd policy perf
          | None =>
              let* perf := getOrCreatePerformance newPerformanceId s currency in
              assess newId s currency periodStart periodEnd policy perf
          end
      end
  end.

(** ** The invoice *)

Definition PAYMENT_WINDOW : Z := 7 * 24 * 60 * 60 * 1000.

Definition invoice_row (newId invoiceNumber : string) (at_ : Z) (a : Assessment) : Invoice :=
  mkInvoice newId (fst (as_scope a)) invoiceNumber I_ISSUED (as_currency a) (as_feeAmount a) (Some (at_ + PAYMENT_WINDOW)) None
    (Some "PERFORMANCE_FEE").

Definition payment_row (newId invoiceId : string) (at_ : Z) (a : Assessment) : PaymentTransaction :=
  mkPayment newId (fst (as_scope a)) (Some invoiceId) "manual" None PERFORMANCE_FEE P_PENDING (as_currency a) (as_feeAmount a) at_.

Definition invoiced (invoiceId : string) (a : Assessment) : Assessment :=
  mkAssessment (as_id a) (as_scope a) (Some invoiceId) (as_currency a) (as_periodStart a) (as_periodEnd a) (as_startingHighWaterMark a)
    (as_endingRealisedBalance a) (as_depositsExcluded a) (as_withdrawalsAdjusted a) (as_realisedProfitForFee a) (as_feePercent a)
    (as_feeAmount a) A_INVOICED.

Definition fee_assessed_entry (newId : string) (at_ : Z) (a : Assessment) : LedgerEntry :=
  mkEntry newId (as_scope a) (Some (as_id a)) FEE_ASSESSED (as_currency a) (- as_feeAmount a) (Some (as_id a)) at_.

(** The uuids of the rows it inserts, and the random number of the invoice. *)
Record InvoiceIds := mkInvoiceIds { ni_invoice : string; ni_payment : string; ni_entry : string; ni_number : string }.

Definition invoiceAssessment (ids : InvoiceIds) (assessmentId : string) : fio Assessment :=
  let* found := look (fun b => assessments b !! assessmentId) in
  match found with
  | None => Throw (NotFoundException "Assessment not found")
  | Some a =>
      if negb (bool_decide (as_status a = A_ASSESSED)) then Throw (BadRequestException "Only ASSESSED assessments can be invoiced")
      else if as_feeAmount a <=? 0 then Throw (BadRequestException "Cannot invoice an assessment with zero fee amount")
      else
        let* at_ := look clock in
        do! invoice_insert (invoice_row (ni_invoice ids) (ni_number ids) at_ a) in
        do! payment_insert (payment_row (ni_payment ids) (ni_invoice ids) at_ a) in
        let updated := invoiced (ni_invoice ids) a in
        do! assessment_update assessmentId (fun _ => updated) in
        do! ledger_insert (fee_assessed_entry (ni_entry ids) at_ a) in
        do! fee_note "PERFORMANCE_FEE_ASSESSMENT_INVOICED" assessmentId in
        do! fee_note "INVOICE_CREATED" (ni_invoice ids) in
        Ret updated
  end.

(** ** Manual entries *)

Definition recordLedgerEntry (e : LedgerEntry) : fio LedgerEntry :=
  do! ledger_insert e in
  do! fee_note "PERFORMANCE_FEE_LEDGER_ENTRY_CREATED" (le_id e) in
  Ret e.

Definition getCurrentHighWaterMark (s : Scope) : fio Z :=
  let* performance := look (fun b => find_row (of_scope s) (performances b)) in
  Ret (from_option tp_currentHighWaterMark 0 performance).
