(* ===== verification/FeePayments.v ===== *)
(** * Paying an invoice ([payments/services], [payments/registry])

    [routeForCheckout] of payment-routing.service.ts, [initiatePerformanceFeeCheckout] of
    performance-fee-payment.service.ts, and [processWebhook] of webhook-processor.service.ts with
    its handlers, the only code that marks an assessment paid or moves a high-water mark.  What a
    provider answers to a session request, whether a signature verifies and what an event says
    are arguments; a session the provider opened is recorded in [sessions].  Left out: the views
    of invoices, provider payload summaries, failure codes and messages. *)

From S2P Require Import Prelude Prog JsString Store FeeRates FeeBooks FeeAssessments.
Open Scope string_scope.
Open Scope list_scope.
Open Scope Z_scope.
Local Open Scope prog_scope.

(** ** Routing *)

Record PaymentProvider := mkProvider {
  pp_providerId : string; pp_supportedCurrencies : list string; pp_supportedCountries : list string; pp_isLive : bool }.

(** [registry.getProvider], the registry in the order of registration. *)
Definition getProvider (registry : list PaymentProvider) (providerId : string) : option PaymentProvider :=
  List.find (fun p => bool_decide (pp_providerId p = providerId)) registry.

Definition includes (l : list string) (x : string) : bool := existsb (fun y => bool_decide (y = x)) l.
Definition supports (l : list string) (x : string) : bool := includes l x || includes l "*".

Definition no_provider : exn := NotFoundException "Payment provider not registered".

Definition candidate (registry : list PaymentProvider) (country currency providerId : string) : option PaymentProvider :=
  match getProvider registry providerId with
  | Some p => if supports (pp_supportedCountries p) country && supports (pp_supportedCurrencies p) currency then Some p else None
  | None => None
  end.

Definition routeForCheckout (registry : list PaymentProvider) (config : option CountryConfig) (country currency : string)
    (preferred : option string) : result exn PaymentProvider :=
  match config with
  | None => Err (NotFoundException "No CountryConfig found")
  | Some config =>
      if cc_isBlocked config then Err (BadRequestException "Payments are not available in your country")
      else
        let enabled := List.filter (fun id => negb (bool_decide (id = "manual"))) (cc_enabledPaymentProviders config) in
        match preferred with
        | Some id =>
            if negb (includes enabled id) then Err (BadRequestException "Payment provider is not available in this country")
            else match getProvider registry id with
                 | None => Err no_provider
                 | Some p => if supports (pp_supportedCurrencies p) currency then Ok p
                             else Err (BadRequestException "Provider does not support currency")
                 end
        | None =>
            let matching := omap (candidate registry country currency) enabled in
            match List.find pp_isLive matching, matching with
            | Some live, _ => Ok live
            | None, first :: _ => Ok first
            | None, [] =>
                match getProvider registry "stripe" with
                | Some stripe => if supports (pp_supportedCurrencies stripe) currency then Ok stripe
                                 else Err (BadRequestException "No payment provider is available")
                | None => Err (BadRequestException "No payment provider is available")
                end
            end
        end
  end.

(** ** Checkout *)

Definition with_payment_status (status : PaymentTransactionStatus) (p : PaymentTransaction) : PaymentTransaction :=
  mkPayment (py_id p) (py_userId p) (py_invoiceId p) (py_provider p) (py_providerTransactionReference p) (py_purpose p) status
    (py_currency p) (py_amountMinor p) (py_createdAt p).

Definition with_provider (provider : string) (reference : option string) (status : PaymentTransactionStatus) (p : PaymentTransaction)
  : PaymentTransaction :=
  mkPayment (py_id p) (py_userId p) (py_invoiceId p) provider
    (match reference with Some r => Some r | None => py_providerTransactionReference p end) (py_purpose p) status
    (py_currency p) (py_amountMinor p) (py_createdAt p).

Record CheckoutResult := mkCheckout {
  ck_invoiceId : string; ck_invoiceNumber : string; ck_transactionId : string; ck_provider : string; ck_providerReference : string;
  ck_reusedExistingSession : bool }.

(** A session in progress on a real provider. *)
Definition buildReuseResult (invoiceNumber : string) (p : PaymentTransaction) : option CheckoutResult :=
  match py_providerTransactionReference p with
  | Some reference =>
      if bool_decide (py_status p = P_PROCESSING) && negb (bool_decide (py_provider p = "manual")) && negb (bool_decide (reference = ""))
      then Some (mkCheckout (default "" (py_invoiceId p)) invoiceNumber (py_id p) (py_provider p) reference true) else None
  | None => None
  end.

Definition payable (i : Invoice) : bool := bool_decide (iv_status i = I_ISSUED) || bool_decide (iv_status i = I_OVERDUE).

Definition loadPayableContext (invoiceId requestingUserId : string) (isAdmin : bool) : fio (Invoice * Assessment) :=
  let* found := look (fun b => invoices b !! invoiceId) in
  match found with
  | None => Throw (NotFoundException "Invoice not found")
  | Some invoice =>
      if negb isAdmin && negb (bool_decide (iv_userId invoice = requestingUserId))
      then Throw (ForbiddenException "You can only access your own performance-fee invoices")
      else if negb (bool_decide (iv_type invoice = Some "PERFORMANCE_FEE")) then Throw (BadRequestException "Invoice is not a performance-fee invoice")
      else if bool_decide (iv_status invoice = I_PAID) then Throw (ConflictException "This performance-fee invoice has already been paid")
      else if negb (payable invoice) then Throw (BadRequestException "Invoice cannot be paid")
      else
        let* found := look (fun b => find_row (fun a => bool_decide (as_invoiceId a = Some invoiceId)) (assessments b)) in
        match found with
        | None => Throw (BadRequestException "No performance-fee assessment is linked to this invoice")
        | Some a =>
            if negb (bool_decide (as_status a = A_INVOICED)) then Throw (BadRequestException "Only INVOICED assessments can be paid")
            else Ret (invoice, a)
        end
  end.

(** [findOne(.., order: { createdAt: 'DESC' })]. *)
Definition newer (p : PaymentTransaction) (best : option PaymentTransaction) : option PaymentTransaction :=
  match best with Some b => if py_createdAt b <? py_createdAt p then Some p else best | None => Some p end.

Definition findPerformanceFeeTransaction (invoiceId : string) (b : Books) : option PaymentTransaction :=
  foldr newer None
    (List.filter (fun p => bool_decide (py_invoiceId p = Some invoiceId) && bool_decide (py_purpose p = PERFORMANCE_FEE))
       (map snd (map_to_list (payments b)))).

Definition already_paid {X} : fio X := Throw (ConflictException "This performance-fee invoice has already been paid").

Definition claimable (p : PaymentTransaction) : bool := bool_decide (py_status p = P_PENDING) || bool_decide (py_status p = P_FAILED).

(** [Number.MAX_SAFE_INTEGER]. *)
Definition MAX_SAFE_INTEGER : Z := 2 ^ 53 - 1.

Record CheckoutOptions := mkOptions { co_provider : option string; co_countryCode : option string; co_currency : option string }.

Section checkout.
Context (registry : list PaymentProvider).
(** What a provider answers to the [n]-th session request: the reference of the session. *)
Context (opens : string -> nat -> result exn string).

(** [provider.createCheckoutSession]. *)
Definition createCheckoutSession (provider : PaymentProvider) (transactionId : string) (amount : Z) : fio string :=
  op (fun b =>
        match opens (pp_providerId provider) (length (sessions b)) with
        | Ok r => (set_sessions (sessions b ++ [mkSession (pp_providerId provider) transactionId amount r]) b, Ok r)
        | Err e => (b, Err e)
        end).

(** The [try] around the provider's call: a failure releases the claim. *)
Definition open_session (provider : PaymentProvider) (invoice : Invoice) (transaction : PaymentTransaction) : fio string :=
  catch
    (if MAX_SAFE_INTEGER <? iv_totalAmount invoice
     then Throw (BadRequestException "Invoice amount exceeds the maximum supported checkout amount")
     else createCheckoutSession provider (py_id transaction) (iv_totalAmount invoice))
    (fun _ =>
       do! payment_update (py_id transaction) (with_provider (pp_providerId provider) None P_PENDING) in
       do! fee_note "PERFORMANCE_FEE_CHECKOUT_FAILED" (py_id transaction) in
       Throw (BadRequestException "Payment checkout failed")).

Definition store_reference (provider : PaymentProvider) (transaction : PaymentTransaction) (reference : string) : fio unit :=
  catch (payment_update (py_id transaction) (with_provider (pp_providerId provider) (Some reference) P_PROCESSING))
    (fun err =>
       if negb (isUniqueViolation err) then Throw err
       else
         do! payment_update (py_id transaction) (with_payment_status P_PENDING) in
         do! fee_note "PERFORMANCE_FEE_CHECKOUT_FAILED" (py_id transaction) in
         Throw (ConflictException "Payment checkout failed: a conflicting payment session was detected")).

(** An empty option counts as missing. *)
Definition given (s : option string) : option string :=
  match s with Some s => if bool_decide (s = "") then None else Some s | None => None end.

(** The claimed transaction: route, open the session, store its reference. *)
Definition checkout_claimed (invoice : Invoice) (options : CheckoutOptions) (transaction : PaymentTransaction) : fio CheckoutResult :=
  let currency := toUpperCase (default (iv_currency invoice) (co_currency options)) in
  if negb (bool_decide (currency = toUpperCase (iv_currency invoice)))
  then Throw (BadRequestException "Requested currency does not match invoice currency")
  else
    let* owner := look (fun b => owners b !! iv_userId invoice) in
    match owner with
    | None => Throw (NotFoundException "Invoice owner not found")
    | Some ownerCountry =>
        let countryCode := toUpperCase (match co_countryCode options with Some c => c | None => default "" ownerCountry end) in
        if bool_decide (countryCode = "") then Throw (BadRequestException "A country code is required")
        else
          let* config := look (fun b => countries b !! toUpperCase countryCode) in
          let* provider := of_result (routeForCheckout registry config (toUpperCase countryCode) currency (given (co_provider options))) in
          let* reference := open_session provider invoice transaction in
          do! store_reference provider transaction reference in
          do! fee_note "PERFORMANCE_FEE_CHECKOUT_INITIATED" (py_id transaction) in
          Ret (mkCheckout (iv_id invoice) (iv_invoiceNumber invoice) (py_id transaction) (pp_providerId provider) reference false)
    end.

(** The safety net of the outer [catch]. *)
Definition release_claim (transactionId : string) (err : exn) : fio CheckoutResult :=
  let* current := look (fun b => payments b !! transactionId) in
  do! (match current with
       | Some p =>
           if bool_decide (py_status p = P_PROCESSING) && bool_decide (given (py_providerTransactionReference p) = None)
           then payment_update transactionId (with_payment_status P_PENDING) else Ret tt
       | None => Ret tt
       end) in
  Throw err.

Definition lost_claim (invoice : Invoice) (transactionId : string) : fio CheckoutResult :=
  let* current := look (fun b => payments b !! transactionId) in
  match current with
  | Some p =>
      if bool_decide (py_status p = P_SUCCEEDED) then already_paid
      else match buildReuseResult (iv_invoiceNumber invoice) p with
           | Some r => Ret r
           | None => Throw (ConflictException "A checkout session is already being created for this invoice")
           end
  | None => Throw (ConflictException "A checkout session is already being created for this invoice")
  end.

Definition initiatePerformanceFeeCheckout (invoiceId requestingUserId : string) (isAdmin : bool) (options : CheckoutOptions)
  : fio CheckoutResult :=
  let* context := loadPayableContext invoiceId requestingUserId isAdmin in
  let '(invoice, assessment) := context in
  let* found := look (findPerformanceFeeTransaction invoiceId) in
  match found with
  | None => Throw (BadRequestException "No payable transaction found for invoice")
  | Some transaction =>
      if bool_decide (py_status transaction = P_SUCCEEDED) then already_paid
      else
        match buildReuseResult (iv_invoiceNumber invoice) transaction with
        | Some r => Ret r
        | None =>
            let* affected := payment_cas claimable (with_payment_status P_PROCESSING) (py_id transaction) in
            if affected =? 0 then lost_claim invoice (py_id transaction)
            else catch (checkout_claimed invoice options transaction) (release_claim (py_id transaction))
        end
  end.
End checkout.

(** ** Webhooks *)

Inductive PaymentEventType :=
  PAYMENT_SUCCEEDED | PAYMENT_FAILED | SUBSCRIPTION_CREATED | SUBSCRIPTION_UPDATED | SUBSCRIPTION_CANCELLED | SUBSCRIPTION_RENEWED
| REFUND_ISSUED | UNKNOWN_EVENT.

(** A number a provider sends: finite, or NaN or infinite. *)
Inductive JsNumber := Finite (x : Double) | NotFinite.

Record ProviderWebhookEvent := mkEvent {
  ev_eventType : PaymentEventType; ev_providerEventId : string; ev_providerTransactionReference : option string;
  ev_amountMinor : option JsNumber; ev_currency : option string }.

(** The transaction an event names. *)
Definition referenced_payment (providerId : string) (event : ProviderWebhookEvent) (b : Books) : option PaymentTransaction :=
  match given (ev_providerTransactionReference event) with
  | Some r => find_row (fun p => bool_decide (py_providerTransactionReference p = Some r) && bool_decide (py_provider p = providerId)) (payments b)
  | None => None
  end.

Definition same_currency (a b : string) : bool :=
  bool_decide (toUpperCase (string_of (trim (chars_of a))) = toUpperCase (string_of (trim (chars_of b)))).

Definition amountAndCurrencyMatch (p : PaymentTransaction) (event : ProviderWebhookEvent) : bool :=
  match ev_amountMinor event, ev_currency event with
  | Some (Finite x), Some currency =>
      negb (bool_decide (py_currency p = "")) && (py_amountMinor p =? math_round x) && same_currency (py_currency p) currency
  | _, _ => false
  end.

Definition invoice_paid (at_ : Z) (i : Invoice) : Invoice :=
  mkInvoice (iv_id i) (iv_userId i) (iv_invoiceNumber i) I_PAID (iv_currency i) (iv_totalAmount i) (iv_dueDate i) (Some at_) (iv_type i).

Definition assessment_paid (a : Assessment) : Assessment :=
  mkAssessment (as_id a) (as_scope a) (as_invoiceId a) (as_currency a) (as_periodStart a) (as_periodEnd a) (as_startingHighWaterMark a)
    (as_endingRealisedBalance a) (as_depositsExcluded a) (as_withdrawalsAdjusted a) (as_realisedProfitForFee a) (as_feePercent a)
    (as_feeAmount a) A_PAID.

Definition fee_paid_entry (newId : string) (at_ : Z) (p : PaymentTransaction) (a : Assessment) : LedgerEntry :=
  mkEntry newId (py_userId p, snd (as_scope a)) (Some (as_id a)) FEE_PAID (py_currency p) (py_amountMinor p) (Some (py_id p)) at_.

Definition with_mark (mark fees : Z) (p : Performance) : Performance :=
  mkPerformance (tp_id p) (tp_scope p) (tp_currency p) mark (tp_lastRealisedBalance p) (tp_totalRealisedProfit p) fees (tp_lastCalculationAt p).

(** The high-water mark and the fees of the account, read and written back. *)
Definition raise_mark (p : PaymentTransaction) (a : Assessment) : fio unit :=
  let* performance := look (fun b => find_row (of_scope (py_userId p, snd (as_scope a))) (performances b)) in
  match performance with
  | None => Ret tt
  | Some perf =>
      let mark := if tp_currentHighWaterMark perf <? as_endingRealisedBalance a then as_endingRealisedBalance a else tp_currentHighWaterMark perf in
      let fees := tp_totalFeesCharged perf + py_amountMinor p in
      do! performance_update (tp_id perf) (with_mark mark fees) [mark; fees] in
      fee_note "HIGH_WATER_MARK_UPDATED" (tp_id perf)
  end.

Definition handlePerformanceFeePaymentSucceeded (entryId : string) (p : PaymentTransaction) : fio unit :=
  match py_invoiceId p with
  | None => Ret tt
  | Some invoiceId =>
      let* found := look (fun b => find_row (fun a => bool_decide (as_invoiceId a = Some invoiceId)) (assessments b)) in
      match found with
      | None => Ret tt
      | Some a =>
          if bool_decide (as_status a = A_PAID) then Ret tt
          else
            do! assessment_update (as_id a) assessment_paid in
            let* at_ := look clock in
            do! ledger_insert (fee_paid_entry entryId at_ p a) in
            do! raise_mark p a in
            fee_note "PERFORMANCE_FEE_PAID" (as_id a)
      end
  end.

Definition handlePaymentSucceeded (entryId providerId : string) (event : ProviderWebhookEvent) : fio unit :=
  let* found := look (referenced_payment providerId event) in
  match found with
  | None => Ret tt
  | Some p =>
      if negb (amountAndCurrencyMatch p event) then fee_note "PAYMENT_FAILED" (py_id p)
      else
        do! payment_update (py_id p) (with_payment_status P_SUCCEEDED) in
        do! fee_note "PAYMENT_SUCCEEDED" (py_id p) in
        do! (match py_invoiceId p with
             | Some invoiceId =>
                 let* at_ := look clock in
                 do! invoice_update invoiceId (invoice_paid at_) in
                 fee_note "INVOICE_PAID" invoiceId
             | None => Ret tt
             end) in
        if bool_decide (py_purpose p = PERFORMANCE_FEE) then handlePerformanceFeePaymentSucceeded entryId p else Ret tt
  end.

Definition handlePaymentFailed (providerId : string) (event : ProviderWebhookEvent) : fio unit :=
  let* found := look (referenced_payment providerId event) in
  match found with
  | None => Ret tt
  | Some p =>
      do! payment_update (py_id p) (with_payment_status P_FAILED) in
      fee_note "PAYMENT_FAILED" (py_id p)
  end.

(** Subscriptions are retired: their events change nothing. *)
Definition handleEvent (entryId providerId : string) (event : ProviderWebhookEvent) : fio unit :=
  match ev_eventType event with
  | PAYMENT_SUCCEEDED | SUBSCRIPTION_RENEWED => handlePaymentSucceeded entryId providerId event
  | PAYMENT_FAILED => handlePaymentFailed providerId event
  | _ => Ret tt
  end.

Inductive WebhookProcessResult := ALREADY_PROCESSED | PROCESSING_FAILED | PROCESSED.

Definition webhook_done (w : WebhookEvent) : WebhookEvent :=
  mkWebhook (wh_id w) (wh_provider w) (wh_providerEventId w) true (wh_processingError w).

Definition webhook_failed (message : string) (w : WebhookEvent) : WebhookEvent :=
  mkWebhook (wh_id w) (wh_provider w) (wh_providerEventId w) (wh_processed w) (Some message).

Section webhooks.
Context (registry : list PaymentProvider) (message_of : exn -> string).

(** The record of the event, or that it was processed before. *)
Definition record_event (newId providerId : string) (event : ProviderWebhookEvent) : fio (option WebhookEvent) :=
  let w := mkWebhook newId providerId (ev_providerEventId event) false None in
  catch (do! webhook_insert w in Ret (Some w))
    (fun err =>
       if negb (isUniqueViolation err) then Throw err
       else
         let* existing := look (fun b => find_row (fun w => bool_decide (wh_provider w = providerId) &&
                                   bool_decide (wh_providerEventId w = ev_providerEventId event)) (webhooks b)) in
         match existing with
         | None => Throw err
         | Some w => Ret (if wh_processed w then None else Some w)
         end).

(** [signatureVerified] and [event] are what the provider's library makes of the request. *)
Definition processWebhook (newId entryId providerId : string) (signatureVerified : bool) (event : ProviderWebhookEvent)
  : fio WebhookProcessResult :=
  if bool_decide (providerId = "manual") then Throw (BadRequestException "Unknown payment provider")
  else match getProvider registry providerId with
  | None => Throw no_provider
  | Some _ =>
      do! fee_note "PAYMENT_WEBHOOK_RECEIVED" providerId in
      if negb signatureVerified then
        do! fee_note "PAYMENT_WEBHOOK_SIGNATURE_FAILED" providerId in
        Throw (BadRequestException "Webhook signature verification failed")
      else
        let* recorded := record_event newId providerId event in
        match recorded with
        | None => Ret ALREADY_PROCESSED
        | Some w =>
            let* r := attempt (do! handleEvent entryId providerId event in webhook_update (wh_id w) webhook_done) in
            match r with
            | Ok _ => Ret PROCESSED
            | Err err => do! webhook_update (wh_id w) (webhook_failed (message_of err)) in Ret PROCESSING_FAILED
            end
        end
  end.
End webhooks.
