(* ===== verification/BillingCycles.v ===== *)
(** * Billing cycles ([performance-billing/services/performance-fee-billing-cycle.service.ts])

    One cycle takes an account's period from reconciliation over assessment to an invoice, or to
    nothing due.  Every step is recorded on the cycle; a failure of a step is caught and the
    cycle is left FAILED, from where it may be run again. *)

From S2P Require Import Prelude Prog JsString Store FeeRates ClosedTrades FeeBooks TradeLedger FeeAssessments.
Open Scope string_scope.
Open Scope list_scope.
Open Scope Z_scope.
Local Open Scope prog_scope.

Definition MAX_CYCLE_DAYS : Z := 366.

Definition final_cycle (s : BillingCycleStatus) : bool :=
  bool_decide (s = B_INVOICED) || bool_decide (s = B_NO_FEE_DUE) || bool_decide (s = B_CANCELLED).

Definition startable (s : BillingCycleStatus) : bool := bool_decide (s = B_DRAFT) || bool_decide (s = B_FAILED).

Definition validatePeriod (now periodStart periodEnd : Z) : result exn unit :=
  if periodEnd <=? periodStart then Err (BadRequestException "periodStart must be before periodEnd")
  else if now <? periodEnd then Err (BadRequestException "periodEnd cannot be in the future")
  else if MAX_CYCLE_DAYS * DAY_MS <? periodEnd - periodStart then Err (BadRequestException "Billing cycle window exceeds the maximum")
  else Ok tt.

Definition getBillingCycle (id : string) : fio BillingCycle :=
  let* found := look (fun b => cycles b !! id) in
  match found with Some c => Ret c | None => Throw (NotFoundException "Billing cycle not found") end.

Definition draft_cycle (newId : string) (s : Scope) (periodStart periodEnd : Z) (currency : string) : BillingCycle :=
  mkCycle newId s periodStart periodEnd currency B_DRAFT None None None 0 0 0 None None.

Definition createBillingCycle (newId : string) (s : Scope) (periodStart periodEnd : Z) (currency : string) : fio BillingCycle :=
  let* now := look clock in
  do! of_result (validatePeriod now periodStart periodEnd) in
  let c := draft_cycle newId s periodStart periodEnd currency in
  do! catch (cycle_insert c)
        (fun err => if isUniqueViolation err then Throw (ConflictException "A billing cycle already exists for this user/broker/period")
                    else Throw err) in
  do! fee_note "PERFORMANCE_BILLING_CYCLE_CREATED" newId in
  Ret c.

(** ** Patches *)

Definition with_cycle_status (status : BillingCycleStatus) (c : BillingCycle) : BillingCycle :=
  mkCycle (bc_id c) (bc_scope c) (bc_periodStart c) (bc_periodEnd c) (bc_currency c) status (bc_reconciliationRunId c) (bc_assessmentId c)
    (bc_invoiceId c) (bc_totalLedgerEntriesCreated c) (bc_totalRealisedProfit c) (bc_feeAmount c) (bc_errorSummary c) (bc_completedAt c).

Definition cycle_ended (status : BillingCycleStatus) (error : option string) (at_ : Z) (c : BillingCycle) : BillingCycle :=
  mkCycle (bc_id c) (bc_scope c) (bc_periodStart c) (bc_periodEnd c) (bc_currency c) status (bc_reconciliationRunId c) (bc_assessmentId c)
    (bc_invoiceId c) (bc_totalLedgerEntriesCreated c) (bc_totalRealisedProfit c) (bc_feeAmount c)
    (match error with Some e => Some e | None => bc_errorSummary c end) (Some at_).

Definition with_run (runId : string) (created : Z) (c : BillingCycle) : BillingCycle :=
  mkCycle (bc_id c) (bc_scope c) (bc_periodStart c) (bc_periodEnd c) (bc_currency c) (bc_status c) (Some runId) (bc_assessmentId c)
    (bc_invoiceId c) created (bc_totalRealisedProfit c) (bc_feeAmount c) (bc_errorSummary c) (bc_completedAt c).

Definition with_assessment (a : Assessment) (c : BillingCycle) : BillingCycle :=
  mkCycle (bc_id c) (bc_scope c) (bc_periodStart c) (bc_periodEnd c) (bc_currency c) (bc_status c) (bc_reconciliationRunId c) (Some (as_id a))
    (bc_invoiceId c) (bc_totalLedgerEntriesCreated c) (as_realisedProfitForFee a) (as_feeAmount a) (bc_errorSummary c) (bc_completedAt c).

Definition cycle_invoiced (invoiceId : option string) (at_ : Z) (c : BillingCycle) : BillingCycle :=
  mkCycle (bc_id c) (bc_scope c) (bc_periodStart c) (bc_periodEnd c) (bc_currency c) B_INVOICED (bc_reconciliationRunId c) (bc_assessmentId c)
    invoiceId (bc_totalLedgerEntriesCreated c) (bc_totalRealisedProfit c) (bc_feeAmount c) (bc_errorSummary c) (Some at_).

Definition transition (cycleId : string) (status : BillingCycleStatus) : fio unit := cycle_update cycleId (with_cycle_status status).

Definition failCycle (cycleId errorSummary : string) : fio unit :=
  let* at_ := look clock in
  do! cycle_update cycleId (cycle_ended B_FAILED (Some errorSummary) at_) in
  let* _ := look (fun b => cycles b !! cycleId) in
  fee_note "PERFORMANCE_BILLING_CYCLE_FAILED" cycleId.

(** [cycleRepo.findOne({ where: { id } })], answered as it is. *)
Definition cycle_of (cycleId : string) : fio (option BillingCycle) := look (fun b => cycles b !! cycleId).

Definition fail_with (cycleId errorSummary : string) : fio (option BillingCycle) :=
  do! failCycle cycleId errorSummary in cycle_of cycleId.

(** ** Running a cycle *)

(** The uuids one run draws. *)
Record CycleIds := mkCycleIds {
  ci_run : string; ci_trades : nat -> string * string; ci_assessment : string; ci_performance : string; ci_invoice : InvoiceIds }.

Section running.
Context (closedTrades : string -> string -> Z -> Z -> result exn (list BrokerClosedTrade)) (message_of : exn -> string).

(** Step 1; [None]: the cycle goes on, else the failure to record. *)
Definition reconcile_cycle (ids : CycleIds) (cycleId : string) (c : BillingCycle) : fio (option string) :=
  do! transition cycleId B_RECONCILING in
  match snd (bc_scope c) with
  | None => do! transition cycleId B_RECONCILED in Ret None
  | Some connectionId =>
      let* r := attempt (runReconciliation closedTrades (ci_run ids) (ci_trades ids) (fst (bc_scope c)) connectionId (bc_periodStart c) (bc_periodEnd c)) in
      match r with
      | Err err => Ret (Some (message_of err))
      | Ok None => Throw (PlainError "Cannot read properties of null")
      | Ok (Some run) =>
          do! cycle_update cycleId (with_run (rn_id run) (rn_newLedgerEntriesCreated run)) in
          if bool_decide (rn_status run = R_FAILED) then Ret (Some "Reconciliation run failed")
          else
            do! fee_note "PERFORMANCE_BILLING_CYCLE_RECONCILED" cycleId in
            do! transition cycleId B_RECONCILED in
            Ret None
      end
  end.

(** Step 3. *)
Definition invoice_cycle (ids : CycleIds) (cycleId : string) (a : Assessment) : fio (option BillingCycle) :=
  if as_feeAmount a <=? 0 then
    let* at_ := look clock in
    do! cycle_update cycleId (cycle_ended B_NO_FEE_DUE None at_) in
    do! fee_note "PERFORMANCE_BILLING_CYCLE_NO_FEE_DUE" cycleId in
    cycle_of cycleId
  else if negb (bool_decide (as_status a = A_ASSESSED)) then fail_with cycleId "Assessment cannot be invoiced"
  else
    let* r := attempt (invoiceAssessment (ci_invoice ids) (as_id a)) in
    match r with
    | Err err => fail_with cycleId (message_of err)
    | Ok invoiced =>
        let* at_ := look clock in
        do! cycle_update cycleId (cycle_invoiced (as_invoiceId invoiced) at_) in
        do! fee_note "PERFORMANCE_BILLING_CYCLE_INVOICED" cycleId in
        cycle_of cycleId
    end.

(** Step 2. *)
Definition assess_cycle (ids : CycleIds) (cycleId : string) (c : BillingCycle) : fio (option BillingCycle) :=
  do! transition cycleId B_ASSESSING in
  let* r := attempt (calculateAssessment (ci_assessment ids) (ci_performance ids) (bc_scope c) (Some (bc_currency c)) (bc_periodStart c) (bc_periodEnd c)) in
  match r with
  | Err err => fail_with cycleId (message_of err)
  | Ok a =>
      do! cycle_update cycleId (with_assessment a) in
      do! fee_note "PERFORMANCE_BILLING_CYCLE_ASSESSED" cycleId in
      do! transition cycleId B_ASSESSED in
      invoice_cycle ids cycleId a
  end.

Definition runBillingCycle (ids : CycleIds) (cycleId : string) : fio (option BillingCycle) :=
  let* c := getBillingCycle cycleId in
  if final_cycle (bc_status c) then Throw (BadRequestException "Billing cycle is in a final state and cannot be rerun")
  else if negb (startable (bc_status c)) then Throw (BadRequestException "Only DRAFT or FAILED cycles can be run")
  else
    do! fee_note "PERFORMANCE_BILLING_CYCLE_STARTED" cycleId in
    let* failed := reconcile_cycle ids cycleId c in
    match failed with
    | Some errorSummary => fail_with cycleId errorSummary
    | None => assess_cycle ids cycleId c
    end.

Definition findExistingCycle (s : Scope) (periodStart periodEnd : Z) (b : Books) : option BillingCycle :=
  find_row (fun c => bool_decide (bc_scope c = s) && (bc_periodStart c =? periodStart) && (bc_periodEnd c =? periodEnd)) (cycles b).

Definition runBillingCycleForUserPeriod (newId : string) (ids : CycleIds) (s : Scope) (periodStart periodEnd : Z) (currency : string)
  : fio (option BillingCycle) :=
  let* existing := look (findExistingCycle s periodStart periodEnd) in
  match existing with
  | Some c =>
      if final_cycle (bc_status c) then Throw (ConflictException "A billing cycle in final state already exists for this period")
      else if negb (startable (bc_status c)) then Throw (ConflictException "A billing cycle is already running for this period")
      else runBillingCycle ids (bc_id c)
  | None =>
      let* c := createBillingCycle newId s periodStart periodEnd currency in
      runBillingCycle ids (bc_id c)
  end.
End running.

Definition cancelBillingCycle (cycleId reason : string) : fio (option BillingCycle) :=
  let* c := getBillingCycle cycleId in
  if final_cycle (bc_status c) then Throw (BadRequestException "Billing cycle is already in a final state and cannot be cancelled")
  else if negb (startable (bc_status c)) then Throw (BadRequestException "Only DRAFT or FAILED cycles can be cancelled")
  else
    let* at_ := look clock in
    do! cycle_update cycleId (cycle_ended B_CANCELLED (Some reason) at_) in
    do! fee_note "PERFORMANCE_BILLING_CYCLE_CANCELLED" cycleId in
    cycle_of cycleId.
