(* ===== verification/FeeGuarantees.v ===== *)
(** * What the fee services guarantee together

    Every call of the fee services, and what holds however they interleave and whatever
    statements are lost: a broker trade is in the ledger exactly once, and nothing but a verified
    webhook marks an assessment paid or moves a high-water mark. *)

From S2P Require Import Prelude Prog JsString Store Capital FeeRates ClosedTrades FeeBooks TradeLedger FeeAssessments FeePayments BillingCycles.
Open Scope string_scope.
Open Scope list_scope.
Open Scope Z_scope.

(** ** The calls *)

Inductive fee_call :=
| CreatePolicy (newId : string) (planId : option string) (feePercent : string)
| DeactivatePolicy (policyId : string)
| CalculateAssessment (newId newPerformanceId : string) (s : Scope) (currency : option string) (periodStart periodEnd : Z)
| InvoiceAssessment (ids : InvoiceIds) (assessmentId : string)
| RecordLedgerEntry (e : LedgerEntry)
| RunReconciliation (runId : string) (ids : nat -> string * string) (userId connectionId : string) (fromTime toTime : Z)
| InitiateCheckout (invoiceId requestingUserId : string) (isAdmin : bool) (options : CheckoutOptions)
| ProcessWebhook (newId entryId providerId : string) (signatureVerified : bool) (event : ProviderWebhookEvent)
| CreateBillingCycle (newId : string) (s : Scope) (periodStart periodEnd : Z) (currency : string)
| RunBillingCycle (ids : CycleIds) (cycleId : string)
| RunBillingCycleForUserPeriod (newId : string) (ids : CycleIds) (s : Scope) (periodStart periodEnd : Z) (currency : string)
| CancelBillingCycle (cycleId reason : string).

Definition done_with {X} (p : fio X) : fio unit := bind p (fun _ => Ret tt).

Section calls.
Context (closedTrades : string -> string -> Z -> Z -> result exn (list BrokerClosedTrade)) (registry : list PaymentProvider)
        (opens : string -> nat -> result exn string) (message_of : exn -> string).

Definition run_fee (c : fee_call) : fio unit :=
  match c with
  | CreatePolicy newId planId percent => done_with (createPolicy newId planId percent)
  | DeactivatePolicy id => done_with (deactivatePolicy id)
  | CalculateAssessment newId perfId s currency from to => done_with (calculateAssessment newId perfId s currency from to)
  | InvoiceAssessment ids id => done_with (invoiceAssessment ids id)
  | RecordLedgerEntry e => done_with (recordLedgerEntry e)
  | RunReconciliation runId ids userId connectionId from to => done_with (runReconciliation closedTrades runId ids userId connectionId from to)
  | InitiateCheckout invoiceId userId isAdmin options => done_with (initiatePerformanceFeeCheckout registry opens invoiceId userId isAdmin options)
  | ProcessWebhook newId entryId providerId verified event => done_with (processWebhook registry message_of newId entryId providerId verified event)
  | CreateBillingCycle newId s from to currency => done_with (createBillingCycle newId s from to currency)
  | RunBillingCycle ids id => done_with (runBillingCycle closedTrades message_of ids id)
  | RunBillingCycleForUserPeriod newId ids s from to currency =>
      done_with (runBillingCycleForUserPeriod closedTrades message_of newId ids s from to currency)
  | CancelBillingCycle id reason => done_with (cancelBillingCycle id reason)
  end.
End calls.

(** ** Walking the calls *)

Section statements.
Context (R : Books -> Books -> Prop) `{!PreOrder R}.

Lemma guar_on_table {T} (get : Books -> gmap string T) set act :
  (forall b m, act b = Ok m -> R b (set m b)) -> guar R (op (on_table get set act)).
Proof using PreOrder0.
  intros Hset. apply guar_op. intros b. destruct (on_table_cases get set act b) as [[-> _]|(m & Hm & ->)]; [done|by apply Hset].
Qed.

Lemma guar_payment_cas p f id : (forall b m, R b (set_payments m b)) -> guar R (payment_cas p f id).
Proof using PreOrder0. intros Hset. apply guar_op. intros b. repeat case_match; try done; apply Hset. Qed.

Lemma guar_payment_update f id : (forall b m, R b (set_payments m b)) -> guar R (payment_update id f).
Proof using PreOrder0. intros Hset. apply guar_bind; [by apply guar_payment_cas|done]. Qed.

Lemma guar_note action id : (forall b l, R b (set_notes l b)) -> guar R (fee_note action id).
Proof using. intros Hset. apply guar_catch; [by split; [intros b; apply Hset|intros []]|done]. Qed.

Lemma guar_done {X} (p : fio X) : guar R p -> guar R (done_with p).
Proof using PreOrder0. intros Hp. by apply guar_bind. Qed.
End statements.

(** A trade that a run normalised from what the broker answered it. *)
Definition from_broker (closedTrades : string -> string -> Z -> Z -> result exn (list BrokerClosedTrade))
    (connectionId runId currency : string) (n : NormalizedClosedTrade) : Prop :=
  exists from to at_ raws valid skipped, closedTrades runId connectionId from to = Ok raws /\
    normalize raws currency at_ = Ok (valid, skipped) /\ n ∈ valid.

(** A relation that the statements of the fee services keep: any write of the tables it does not
    speak of, and the writes the services make to the others.  The statements of a verified
    payment are apart. *)
Class FeeRelation (closedTrades : string -> string -> Z -> Z -> result exn (list BrokerClosedTrade)) (R : Books -> Books -> Prop) : Prop := {
  fr_preorder :: PreOrder R;
  fr_policies b m : R b (set_policies m b);
  fr_invoices b m : R b (set_invoices m b);
  fr_payments b m : R b (set_payments m b);
  fr_webhooks b m : R b (set_webhooks m b);
  fr_cycles b m : R b (set_cycles m b);
  fr_runs b m : R b (set_runs m b);
  fr_sessions b l : R b (set_sessions l b);
  fr_notes b l : R b (set_notes l b);
  fr_performance id s currency : guar R (performance_insert (mkPerformance id s currency 0 None 0 0 None));
  fr_total id total at_ values : guar R (performance_update id (with_total total at_) values);
  fr_assessment id s currency from to policy perf sums c :
    guar R (assessment_insert (assessment_row id s currency from to policy perf sums c));
  fr_invoiced id invoiceId a : guar R (assessment_update id (fun _ => invoiced invoiceId a));
  fr_entry e : guar R (ledger_insert e);
  fr_trade tradeId ledgerId userId connectionId runId currency n :
    from_broker closedTrades connectionId runId currency n ->
    guar R (transaction (process_trade tradeId ledgerId userId connectionId runId currency n)) }.

Class PaidRelation (R : Books -> Books -> Prop) : Prop := {
  pr_paid id : guar R (assessment_update id assessment_paid);
  pr_mark id mark fees values : guar R (performance_update id (with_mark mark fees) values) }.

Section kept.
Context (closedTrades : string -> string -> Z -> Z -> result exn (list BrokerClosedTrade)) (R : Books -> Books -> Prop)
  `{!FeeRelation closedTrades R}.
Context (registry : list PaymentProvider)
        (opens : string -> nat -> result exn string) (message_of : exn -> string).

Lemma kept_policy p : guar R (policy_save p).
Proof using FeeRelation0. apply guar_on_table; [apply _|]. intros; apply fr_policies. Qed.
Lemma kept_invoice i : guar R (invoice_insert i).
Proof using FeeRelation0. apply guar_on_table; [apply _|]. intros; apply fr_invoices. Qed.
Lemma kept_invoice_update id f : guar R (invoice_update id f).
Proof using FeeRelation0. apply guar_on_table; [apply _|]. intros; apply fr_invoices. Qed.
Lemma kept_payment p : guar R (payment_insert p).
Proof using FeeRelation0. apply guar_on_table; [apply _|]. intros; apply fr_payments. Qed.
Lemma kept_payment_cas p f id : guar R (payment_cas p f id).
Proof using FeeRelation0. apply guar_payment_cas; [apply _|]. intros; apply fr_payments. Qed.
Lemma kept_payment_update id f : guar R (payment_update id f).
Proof using FeeRelation0. apply guar_payment_update; [apply _|]. intros; apply fr_payments. Qed.
Lemma kept_webhook w : guar R (webhook_insert w).
Proof using FeeRelation0. apply guar_on_table; [apply _|]. intros; apply fr_webhooks. Qed.
Lemma kept_webhook_update id f : guar R (webhook_update id f).
Proof using FeeRelation0. apply guar_on_table; [apply _|]. intros; apply fr_webhooks. Qed.
Lemma kept_cycle c : guar R (cycle_insert c).
Proof using FeeRelation0. apply guar_on_table; [apply _|]. intros; apply fr_cycles. Qed.
Lemma kept_cycle_update id f : guar R (cycle_update id f).
Proof using FeeRelation0. apply guar_on_table; [apply _|]. intros; apply fr_cycles. Qed.
Lemma kept_run r : guar R (run_insert r).
Proof using FeeRelation0. apply guar_on_table; [apply _|]. intros; apply fr_runs. Qed.
Lemma kept_run_update id f : guar R (run_update id f).
Proof using FeeRelation0. apply guar_on_table; [apply _|]. intros; apply fr_runs. Qed.
Lemma kept_note action id : guar R (fee_note action id).
Proof using FeeRelation0. apply guar_note. intros; apply fr_notes. Qed.
Lemma kept_session provider id amount : guar R (createCheckoutSession opens provider id amount).
Proof using FeeRelation0. apply guar_op. intros b. case_match; [apply fr_sessions|reflexivity]. Qed.

#[local] Hint Resolve kept_policy kept_invoice kept_invoice_update kept_payment kept_payment_cas kept_payment_update kept_webhook
  kept_webhook_update kept_cycle kept_cycle_update kept_run kept_run_update kept_note kept_session fr_performance fr_total fr_assessment
  fr_invoiced fr_entry fr_trade : irex.

Ltac fee_walk := guar_walk; eauto with irex.

Lemma kept_create newId percent : guar R (create_policy newId percent).
Proof using FeeRelation0. unfold create_policy. fee_walk. Qed.

Lemma kept_calculate newId perfId s currency from to : guar R (calculateAssessment newId perfId s currency from to).
Proof using FeeRelation0. unfold calculateAssessment, findActiveGlobalPolicy, getOrCreatePerformance, assess. fee_walk. Qed.

Lemma kept_invoicing ids id : guar R (invoiceAssessment ids id).
Proof using FeeRelation0. unfold invoiceAssessment. fee_walk. Qed.

Lemma kept_process ids k u c r cur l n :
  (forall t, t ∈ l -> from_broker closedTrades c r cur t) -> guar R (process_trades ids k u c r cur l n).
Proof using FeeRelation0.
  revert k n. induction l as [|t l IH]; intros k n Hl; cbn [process_trades]; [done|].
  apply guar_bind; [|intros; apply IH; intros; apply Hl; by right].
  apply guar_attempt. unfold processTradeAtomically. apply guar_bind; [apply fr_trade, Hl; by left|]. intros o. fee_walk.
Qed.

Lemma kept_reconciliation runId ids u c from to : guar R (runReconciliation closedTrades runId ids u c from to).
Proof using FeeRelation0.
  unfold runReconciliation, findConnectionById, finaliseRun, run_of. apply guar_bind; [fee_walk|]. intros now.
  apply guar_bind; [fee_walk|]. intros []. apply guar_bind; [fee_walk|]. intros connection. destruct (negb _); [done|].
  apply guar_bind; [fee_walk|]. intros currency. do 4 (apply guar_bind; [fee_walk|]; intros ?).
  destruct (closedTrades runId c from to) as [raws|e] eqn:Hraws; [|fee_walk]. apply guar_bind; [fee_walk|]. intros at_.
  destruct (normalize raws currency at_) as [[valid skipped]|e] eqn:Hn; [|done]. cbn [of_result bind].
  apply guar_bind; [|fee_walk]. apply kept_process. intros t Ht. by exists from, to, at_, raws, valid, skipped.
Qed.

#[local] Hint Resolve kept_create kept_calculate kept_invoicing kept_reconciliation : irex.

Lemma kept_checkout i u a o : guar R (initiatePerformanceFeeCheckout registry opens i u a o).
Proof using FeeRelation0.
  unfold initiatePerformanceFeeCheckout, loadPayableContext, lost_claim, already_paid, checkout_claimed, open_session, store_reference, release_claim.
  fee_walk.
Qed.

Lemma kept_fail id e : guar R (fail_with id e).
Proof using FeeRelation0. unfold fail_with, failCycle, cycle_of. fee_walk. Qed.

#[local] Hint Resolve kept_fail : irex.

Lemma kept_cycle_run ids id : guar R (runBillingCycle closedTrades message_of ids id).
Proof using FeeRelation0.
  unfold runBillingCycle, getBillingCycle, reconcile_cycle, assess_cycle, invoice_cycle, transition, cycle_of. fee_walk.
Qed.

Lemma kept_cycle_create newId s from to currency : guar R (createBillingCycle newId s from to currency).
Proof using FeeRelation0. unfold createBillingCycle. fee_walk. Qed.

#[local] Hint Resolve kept_cycle_run kept_cycle_create : irex.

(** An event that says a payment arrived. *)
Definition succeeds (event : ProviderWebhookEvent) : bool :=
  match ev_eventType event with PAYMENT_SUCCEEDED | SUBSCRIPTION_RENEWED => true | _ => false end.

Lemma kept_succeeded entryId providerId event : PaidRelation R -> guar R (handlePaymentSucceeded entryId providerId event).
Proof using FeeRelation0.
  intros HP. pose proof pr_paid as Hpaid. pose proof pr_mark as Hmark.
  unfold handlePaymentSucceeded, handlePerformanceFeePaymentSucceeded, raise_mark. fee_walk.
Qed.

Lemma kept_event entryId providerId event : (succeeds event = true -> PaidRelation R) -> guar R (handleEvent entryId providerId event).
Proof using FeeRelation0.
  unfold handleEvent, succeeds. intros HP. case_match; try done; try by apply kept_succeeded, HP. unfold handlePaymentFailed. fee_walk.
Qed.

Lemma kept_webhooks newId entryId providerId verified event :
  (verified && succeeds event = true -> PaidRelation R) -> guar R (processWebhook registry message_of newId entryId providerId verified event).
Proof using FeeRelation0.
  intros HP. unfold processWebhook. case_match; [done|]. case_match; [|done]. apply guar_bind; [apply kept_note|]. intros _.
  destruct verified; cbn [negb]; [|fee_walk]. apply guar_bind; [unfold record_event; fee_walk|]. intros [w|]; [|done].
  pose proof (kept_event entryId providerId event HP). fee_walk.
Qed.

(** A webhook that may pay. *)
Definition paying (c : fee_call) : bool := match c with ProcessWebhook _ _ _ verified event => verified && succeeds event | _ => false end.

(** Every call keeps the relation; one that may pay, if payments keep it. *)
Lemma kept_call c : (paying c = true -> PaidRelation R) -> guar R (run_fee closedTrades registry opens message_of c).
Proof using FeeRelation0.
  intros HP. destruct c; cbn [run_fee paying] in *; (apply guar_done; [apply _|]); eauto with irex.
  - unfold createPolicy. fee_walk.
  - unfold deactivatePolicy. fee_walk.
  - unfold recordLedgerEntry. fee_walk.
  - apply kept_checkout.
  - by apply kept_webhooks, HP.
  - unfold runBillingCycleForUserPeriod. fee_walk.
  - unfold cancelBillingCycle, getBillingCycle, cycle_of. fee_walk.
Qed.

Lemma kept_calls (cs : list fee_call) :
  (forall c, c ∈ cs -> paying c = true -> PaidRelation R) -> Forall (guar R) (run_fee closedTrades registry opens message_of <$> cs).
Proof using FeeRelation0. intros HP. apply Forall_fmap, Forall_forall. intros c Hc. apply kept_call. eauto. Qed.
End kept.

(** ** Trades in the ledger *)

Definition identity (t : ReconciledTrade) : string * string * string := (rt_userId t, rt_brokerConnectionId t, rt_brokerTradeId t).

(** What a trade moved the account by. *)
Definition net_result (t : ReconciledTrade) : Z := rt_realisedPnl t + rt_commission t + rt_swap t.

(** The entry a trade has: in the account of its connection, a profit of a positive net result
    or a loss of a negative one, under the trade's currency, broker id and closing time. *)
Record result_entry (t : ReconciledTrade) (l : string) (e : LedgerEntry) : Prop := {
  re_id : le_id e = l;
  re_scope : le_scope e = (rt_userId t, Some (rt_brokerConnectionId t));
  re_amount : le_amount e = net_result t;
  re_profit : 0 < net_result t -> le_entryType e = REALISED_TRADE_PROFIT;
  re_loss : net_result t < 0 -> le_entryType e = REALISED_TRADE_LOSS;
  re_currency : le_currency e = rt_currency t;
  re_source : le_sourceReference e = Some (rt_brokerTradeId t);
  re_time : le_occurredAt e = rt_closedAt t }.

(** A trade that made a profit or a loss is linked to its entry, another to none. *)
Definition entered (b : Books) (t : ReconciledTrade) : Prop :=
  rt_netRealisedPnl t = net_result t /\
  if net_result t =? 0 then rt_ledgerEntryId t = None
  else exists l e, rt_ledgerEntryId t = Some l /\ ledger b !! l = Some e /\ result_entry t l e.

Record booked (b : Books) : Prop := {
  bk_trades : indexed rt_id (fun _ => true) identity (reconciled b);
  bk_entered : forall id t, reconciled b !! id = Some t -> entered b t }.

Section ledgered.
Context (closedTrades : string -> string -> Z -> Z -> result exn (list BrokerClosedTrade)).

(** A row that stands for a trade which the broker reported to the run the row names. *)
Definition reported (t : ReconciledTrade) : Prop :=
  exists runId from to raws raw id,
    rt_reconciliationRunId t = Some runId /\ closedTrades runId (rt_brokerConnectionId t) from to = Ok raws /\ raw ∈ raws /\
    k_externalOrderId raw = Some id /\ chars_of (rt_brokerTradeId t) = trim (chars_of id) /\
    k_closedAt raw = Some (rt_closedAt t) /\
    worth (rt_currency t) (default "0" (k_realisedPnl raw)) (rt_realisedPnl t) /\
    worth (rt_currency t) (default "0" (k_commission raw)) (rt_commission t) /\
    worth (rt_currency t) (default "0" (k_swap raw)) (rt_swap t).

Definition ledger_rel (b b' : Books) : Prop :=
  ledger b ⊆ ledger b' /\
  (booked b -> booked b' /\ reconciled b ⊆ reconciled b' /\
   forall id t, reconciled b' !! id = Some t -> reconciled b !! id = Some t \/ reported t).

#[export] Instance ledger_rel_preorder : PreOrder ledger_rel.
Proof.
  split; [intros b; split; [done|]; intros Hb; split; [done|]; split; [done|]; by left|].
  intros x y z [H1 H2] [H3 H4]. split; [by etransitivity|]. intros Hx. destruct (H2 Hx) as (Hy & ? & N1). destruct (H4 Hy) as (? & ? & N2).
  split; [done|]. split; [by etransitivity|]. intros id t Ht. destruct (N2 id t Ht) as [Hyt|]; [by apply N1|by right].
Qed.

Lemma entered_later b b' t : ledger b ⊆ ledger b' -> entered b t -> entered b' t.
Proof.
  unfold entered. intros Hl [Hn He]. split; [done|]. case_match; [done|]. destruct He as (l & e & ? & ? & ?). exists l, e.
  split; [done|]. split; [by eapply lookup_weaken|done].
Qed.

Lemma ledger_kept b b' : ledger b ⊆ ledger b' -> reconciled b' = reconciled b -> ledger_rel b b'.
Proof.
  intros Hl Hr. split; [done|]. intros [Hi He]. rewrite Hr. split; [|split; [done|by left]]. split; [by rewrite Hr|].
  intros id t. rewrite Hr. intros Ht. eapply entered_later; [exact Hl|by eapply He].
Qed.

Lemma ledger_other b b' : ledger b' = ledger b -> reconciled b' = reconciled b -> ledger_rel b b'.
Proof. intros Hl. apply ledger_kept. by rewrite Hl. Qed.

Lemma ledger_grows b e : ledger b !! le_id e = None -> ledger_rel b (set_ledger (<[le_id e := e]> (ledger b)) b).
Proof. intros Hn. apply ledger_kept; [by apply insert_subseteq|done]. Qed.

Lemma ledger_insert_act e b m : rbind (bigints [le_amount e]) (fun _ => insert_row "performance_fee_ledger_entries_pkey" "" no_index (le_id e) e (ledger b)) = Ok m ->
  ledger b !! le_id e = None /\ m = <[le_id e := e]> (ledger b).
Proof. intros (? & _ & (-> & ? & _)%insert_row_ok)%rbind_ok. done. Qed.

Lemma guar_ledger_insert e : guar ledger_rel (ledger_insert e).
Proof. apply guar_on_table; [apply _|]. intros b m [? ->]%ledger_insert_act. by apply ledger_grows. Qed.

(** A trade that is entered adds its row, and its entry when it moved the result. *)
Definition added (tradeId ledgerId : string) (row : ReconciledTrade) (b : Books) : Books :=
  if rt_netRealisedPnl row =? 0 then set_reconciled (<[tradeId := row]> (reconciled b)) b
  else set_reconciled (<[tradeId := with_ledger_entry ledgerId row]> (reconciled b)) (set_ledger (<[ledgerId := realised_entry ledgerId row]> (ledger b)) b).

Lemma process_booked tradeId ledgerId u c runId currency n b b' o :
  booked b -> run (process_trade tradeId ledgerId u c runId currency n) b = (b', Ok o) ->
  b' = b \/
  (let row := reconciled_row tradeId u c runId currency n in
   reconciled b !! tradeId = None /\ (forall id t, reconciled b !! id = Some t -> same_trade row t = false) /\
   (rt_netRealisedPnl row <> 0 -> ledger b !! ledgerId = None) /\ b' = added tradeId ledgerId row b).
Proof.
  intros [Hi He]. unfold process_trade. rewrite run_bind, run_read. destruct (find_row _ _) as [t|] eqn:Hf.
  - apply find_row_some in Hf as (id & Ht & _). pose proof (He id t Ht) as [Hnet Hen]. unfold process_existing. rewrite Hnet.
    destruct (negb _); [done|]. destruct (net_result t =? 0); [intros [= <- _]; by left|].
    destruct Hen as (l & e & -> & _). intros [= <- _]. by left.
  - cbv zeta. set (row := reconciled_row tradeId u c runId currency n). rewrite run_bind. unfold reconciled_insert. rewrite run_op.
    unfold on_table at 1. destruct (rbind _ _) as [m|e] eqn:Hins; [|done].
    apply rbind_ok in Hins as (? & _ & (-> & Hid & Hclash)%insert_row_ok). cbn [rt_id row reconciled_row] in *.
    unfold added. change (rt_netRealisedPnl row) with (nt_netRealisedPnl n).
    destruct (nt_netRealisedPnl n =? 0) eqn:Hz; [intros [= <- _]; right; bool_to_prop; by rewrite Hz|].
    rewrite run_bind. unfold enter_trade. rewrite run_bind. unfold ledger_insert at 1. rewrite run_op. unfold on_table.
    destruct (rbind _ _) as [m|e] eqn:Hl; [|done]. apply ledger_insert_act in Hl as [Hfree ->]. cbn [le_id realised_entry] in Hfree |- *.
    unfold reconciled_update. rewrite run_op. unfold on_table. cbn [run]. intros [= <- _]. right.
    split; [done|]. split; [done|]. split; [done|]. unfold set_reconciled, set_ledger; cbn. f_equal.
    unfold patch_row, update_row. cbn. rewrite lookup_insert_eq. cbn. by rewrite insert_insert_eq.
Qed.

(** The entry a row is given is the one it should have. *)
Lemma realised_result t l : rt_netRealisedPnl t = net_result t -> net_result t <> 0 -> result_entry (with_ledger_entry l t) l (realised_entry l t).
Proof.
  intros Hn Hz. unfold realised_entry, realised_type. change (net_result t) with (net_result (with_ledger_entry l t)) in *.
  destruct (Z.ltb_spec 0 (rt_netRealisedPnl t)); split; cbn [le_id le_scope le_amount le_entryType le_currency le_sourceReference le_occurredAt]; try done;
    rewrite <- Hn; lia.
Qed.

Lemma added_row tradeId ledgerId row b :
  rt_netRealisedPnl row = net_result row -> rt_ledgerEntryId row = None -> (rt_netRealisedPnl row <> 0 -> ledger b !! ledgerId = None) ->
  exists link, let row' := mkReconciled (rt_id row) (rt_userId row) (rt_brokerConnectionId row) (rt_brokerTradeId row) (rt_closedAt row)
      (rt_realisedPnl row) (rt_commission row) (rt_swap row) (rt_netRealisedPnl row) (rt_currency row) (rt_reconciliationRunId row) link in
    reconciled (added tradeId ledgerId row b) = <[tradeId := row']> (reconciled b) /\
    entered (added tradeId ledgerId row b) row' /\ ledger b ⊆ ledger (added tradeId ledgerId row b).
Proof.
  intros Hn Hnone Hl. unfold added, entered. destruct (rt_netRealisedPnl row =? 0) eqn:Hz; bool_to_prop.
  - exists None. split; [destruct row; cbn in *; congruence|]. split; [|done]. split; [exact Hn|].
    change (net_result (mkReconciled _ _ _ _ _ _ _ _ _ _ _ _)) with (net_result row). by rewrite <- Hn, Hz.
  - exists (Some ledgerId). split; [done|]. split; [|by apply insert_subseteq, Hl]. split; [exact Hn|].
    change (net_result (mkReconciled _ _ _ _ _ _ _ _ _ _ _ _)) with (net_result row). rewrite <- Hn, (proj2 (Z.eqb_neq _ 0) Hz).
    exists ledgerId, (realised_entry ledgerId row). split; [done|]. split; [cbn; by rewrite lookup_insert_eq|].
    apply realised_result; [done|by rewrite <- Hn].
Qed.

Lemma booked_added tradeId ledgerId u c runId currency n b :
  let row := reconciled_row tradeId u c runId currency n in
  from_broker closedTrades c runId currency n ->
  booked b -> reconciled b !! tradeId = None -> (forall id t, reconciled b !! id = Some t -> same_trade row t = false) ->
  (rt_netRealisedPnl row <> 0 -> ledger b !! ledgerId = None) ->
  booked (added tradeId ledgerId row b) /\ reconciled b ⊆ reconciled (added tradeId ledgerId row b) /\
  ledger b ⊆ ledger (added tradeId ledgerId row b) /\
  forall id t, reconciled (added tradeId ledgerId row b) !! id = Some t -> reconciled b !! id = Some t \/ reported t.
Proof.
  intros row (from & to & at_ & raws & valid & skipped & Hraws & Hnorm & Hin) [[Hid Hslot] He] Hn Hs Hl.
  destruct (normalize_carried raws currency at_ valid skipped n Hnorm Hin) as (raw & Hraw & [Cid Cclosed Cg Cc Cs Cnet]).
  destruct (added_row tradeId ledgerId row b Cnet eq_refl Hl) as (link & Hadd). cbv zeta in Hadd.
  set (row' := mkReconciled _ _ _ _ _ _ _ _ _ _ _ _) in Hadd. destruct Hadd as (Hrec & Hent & Hled).
  assert (identity row' = identity row /\ rt_id row' = tradeId) as [Hident Hrid] by done.
  assert (reported row') as Hrep.
  { destruct Cid as (id & ? & ?). by exists runId, from, to, raws, raw, id. }
  enough (booked (added tradeId ledgerId row b) /\ reconciled b ⊆ reconciled (added tradeId ledgerId row b)) as [Hb1 Hb2].
  { split; [done|]. split; [done|]. split; [done|]. intros id t. rewrite Hrec.
    destruct (decide (id = tradeId)) as [->|Hne]; [rewrite lookup_insert_eq; intros [= <-]; by right|].
    rewrite lookup_insert_ne by congruence. by left. }
  clearbody row'.
  split; [split|].
  - rewrite Hrec. split.
    + intros id t. destruct (decide (id = tradeId)) as [->|Hne]; [rewrite lookup_insert_eq; congruence|].
      rewrite lookup_insert_ne by congruence. apply Hid.
    + intros id1 id2 t1 t2 H1 H2 _ _ Heq.
      assert (forall id t, reconciled b !! id = Some t -> identity t = identity row -> False) as Hno.
      { intros id t Ht Hq. specialize (Hs id t Ht). unfold same_trade, identity in *. injection Hq as Hu Hc Hb.
        rewrite !bool_decide_eq_true_2 in Hs by done. done. }
      destruct (decide (id1 = tradeId)) as [->|N1], (decide (id2 = tradeId)) as [->|N2]; [done| | |].
      * rewrite lookup_insert_eq in H1. rewrite lookup_insert_ne in H2 by congruence. injection H1 as <-. exfalso. eapply Hno; [exact H2|congruence].
      * rewrite lookup_insert_eq in H2. rewrite lookup_insert_ne in H1 by congruence. injection H2 as <-. exfalso. eapply Hno; [exact H1|congruence].
      * rewrite lookup_insert_ne in H1, H2 by congruence. by eapply (Hslot id1 id2).
  - intros id t. rewrite Hrec. destruct (decide (id = tradeId)) as [->|Hne].
    + rewrite lookup_insert_eq. by intros [= <-].
    + rewrite lookup_insert_ne by congruence. intros Ht. eapply entered_later; [exact Hled|by eapply He].
  - rewrite Hrec. by apply insert_subseteq.
Qed.

Definition grows (b b' : Books) : Prop := ledger b ⊆ ledger b'.

#[export] Instance grows_preorder : PreOrder grows.
Proof. split; [intros x; unfold grows; reflexivity|]. intros x y z. unfold grows. apply transitivity. Qed.

Lemma grows_process tradeId ledgerId u c runId currency n : guar grows (process_trade tradeId ledgerId u c runId currency n).
Proof.
  assert (forall e, guar grows (ledger_insert e)) as He.
  { intros e. apply guar_on_table; [apply _|]. intros x m [? ->]%ledger_insert_act. by apply insert_subseteq. }
  assert (forall id f, guar grows (reconciled_update id f)) as Hu by (intros; apply guar_on_table; [apply _|]; intros; unfold grows; reflexivity).
  assert (forall t, guar grows (reconciled_insert t)) as Hi by (intros; apply guar_on_table; [apply _|]; intros; unfold grows; reflexivity).
  unfold process_trade, process_existing, enter_trade. guar_walk; eauto.
Qed.

Lemma ledger_trade tradeId ledgerId u c runId currency n :
  from_broker closedTrades c runId currency n ->
  guar ledger_rel (transaction (process_trade tradeId ledgerId u c runId currency n)).
Proof.
  intros Hn. apply guar_op. intros b. destruct (run (process_trade _ _ _ _ _ _ _) b) as [b' [o|e]] eqn:Hr; [|reflexivity]. cbn [fst]. split.
  - pose proof (guar_run grows _ b ltac:(typeclasses eauto) (grows_process tradeId ledgerId u c runId currency n)) as Hg. by rewrite Hr in Hg.
  - intros Hb. destruct (process_booked _ _ _ _ _ _ _ _ _ _ Hb Hr) as [->|(Hfree & Hs & Hl & ->)]; [split; [done|]; split; [done|by left]|].
    destruct (booked_added tradeId ledgerId u c runId currency n b Hn Hb Hfree Hs Hl) as (? & ? & _ & ?). done.
Qed.

#[export] Instance ledger_fee_relation : FeeRelation closedTrades ledger_rel.
Proof.
  split; [apply _|try (intros; by apply ledger_other)..].
  all: try (intros; apply guar_on_table; [apply _|]; intros; by apply ledger_other).
  - apply guar_ledger_insert.
  - apply ledger_trade.
Qed.

Lemma ledger_paid : PaidRelation ledger_rel.
Proof. split; intros; apply guar_on_table; try apply _; intros; by apply ledger_other. Qed.
End ledgered.

(** ** Marks and payments *)

(** What an account has been charged for. *)
Definition charged (p : Performance) : Z * Z := (tp_currentHighWaterMark p, tp_totalFeesCharged p).

Definition unpaid_rel (b b' : Books) : Prop :=
  (forall id, match performances b !! id with
     | Some p => exists p', performances b' !! id = Some p' /\ charged p' = charged p
     | None => forall p', performances b' !! id = Some p' -> charged p' = (0, 0)
     end) /\
  (forall id a', assessments b' !! id = Some a' -> as_status a' = A_PAID -> exists a, assessments b !! id = Some a /\ as_status a = A_PAID).

#[export] Instance unpaid_rel_preorder : PreOrder unpaid_rel.
Proof.
  split.
  - intros b. split; [|eauto]. intros id. destruct (performances b !! id); [eauto|done].
  - intros x y z [P1 A1] [P2 A2]. split.
    + intros id. specialize (P1 id). specialize (P2 id). destruct (performances x !! id) as [p|].
      * destruct P1 as (p' & Hp & Hc). rewrite Hp in P2. destruct P2 as (q & Hq & Hcq). exists q. split; [done|congruence].
      * destruct (performances y !! id) as [p'|] eqn:Hy; [|done]. specialize (P1 p' eq_refl). destruct P2 as (q & Hq & Hcq).
        intros r Hr. congruence.
    + intros id a Ha Hs. destruct (A2 id a Ha Hs) as (c & Hc & Hcs). by eapply A1.
Qed.

Lemma unpaid_other b b' : performances b' = performances b -> assessments b' = assessments b -> unpaid_rel b b'.
Proof. intros Hp Ha. split; rewrite ?Hp, ?Ha; [|eauto]. intros id. destruct (performances b !! id); [eauto|done]. Qed.

Lemma unpaid_performances b m :
  (forall id, match performances b !! id with
     | Some p => exists p', m !! id = Some p' /\ charged p' = charged p
     | None => forall p', m !! id = Some p' -> charged p' = (0, 0) end) -> unpaid_rel b (set_performances m b).
Proof. intros Hm. split; [done|]. cbn. eauto. Qed.

Lemma unpaid_assessments b m :
  (forall id a', m !! id = Some a' -> as_status a' = A_PAID -> exists a, assessments b !! id = Some a /\ as_status a = A_PAID) ->
  unpaid_rel b (set_assessments m b).
Proof. intros Hm. split; [|done]. cbn. intros id. destruct (performances b !! id); [eauto|done]. Qed.

#[export] Instance unpaid_fee_relation closedTrades : FeeRelation closedTrades unpaid_rel.
Proof.
  split; [apply _|try (intros; by apply unpaid_other)..].
  - intros. apply guar_on_table; [apply _|]. intros b m (-> & Hn & _)%insert_row_ok. cbn [tp_id] in *. apply unpaid_performances. intros id0.
    destruct (decide (id0 = id)) as [->|Hne]; [rewrite Hn, lookup_insert_eq; by intros p' [= <-]|].
    rewrite lookup_insert_ne by congruence. destruct (performances b !! id0); [eauto|done].
  - intros. apply guar_on_table; [apply _|]. intros b m (? & _ & ->)%rmap_ok. apply unpaid_performances. intros id0.
    rewrite patch_row_lookup. destruct (performances b !! id0) as [p|]; [|by case_decide].
    case_decide; eexists; (split; [reflexivity|done]).
  - intros. apply guar_on_table; [apply _|]. intros b m (? & _ & (-> & Hn & _)%insert_row_ok)%rbind_ok. cbn [as_id assessment_row] in *. apply unpaid_assessments.
    intros id0 a'. destruct (decide (id0 = id)) as [->|Hne]; [rewrite lookup_insert_eq; intros [= <-]; cbn; by case_match|].
    rewrite lookup_insert_ne by congruence. eauto.
  - intros. apply guar_on_table; [apply _|]. intros b m [= <-]. apply unpaid_assessments. intros id0 a'. rewrite patch_row_lookup.
    case_decide; [|eauto]. destruct (assessments b !! id0); [|done]. by intros [= <-].
  - intros. apply guar_on_table; [apply _|]. intros b m _. by apply unpaid_other.
  - intros. apply guar_op. intros b. destruct (run (process_trade _ _ _ _ _ _ _) b) as [b' [o|e]] eqn:Hr; [|reflexivity]. cbn [fst].
    assert (guar unpaid_rel (process_trade tradeId ledgerId userId connectionId runId currency n)) as Hg.
    { assert (forall e, guar unpaid_rel (ledger_insert e)) as He by (intros; apply guar_on_table; [apply _|]; intros; by apply unpaid_other).
      assert (forall id f, guar unpaid_rel (reconciled_update id f)) as Hu by (intros; apply guar_on_table; [apply _|]; intros; by apply unpaid_other).
      assert (forall t, guar unpaid_rel (reconciled_insert t)) as Hi by (intros; apply guar_on_table; [apply _|]; intros; by apply unpaid_other).
      unfold process_trade, process_existing, enter_trade. guar_walk; eauto. }
    pose proof (guar_run unpaid_rel _ b ltac:(typeclasses eauto) Hg) as Hx. by rewrite Hr in Hx.
Qed.

(** ** The theorems *)

Section theorems.
Context (closedTrades : string -> string -> Z -> Z -> result exn (list BrokerClosedTrade)) (registry : list PaymentProvider)
        (opens : string -> nat -> result exn string) (message_of : exn -> string).

Abbreviation calls cs := (run_fee closedTrades registry opens message_of <$> cs).

(** C15: A broker trade is in the ledger exactly once.  However reconciliations, billing cycles,
    assessments, invoices, checkouts, webhooks and manual entries interleave, and whatever
    statements or acknowledgements are lost, in overlapping and repeated windows alike: no
    reconciled trade and no ledger entry is ever changed or removed, and one row stands for each
    trade of a user's connection.  A new row is a trade the broker reported to the run it names,
    with its id, its closing time and the worth of its profit, commission and swap in minor
    units of the currency.  A trade whose gross result, commission and swap add up to zero has
    no entry; any other is linked to one, in the account of its connection, for that sum, as a
    profit when it is positive and a loss when it is negative, in the trade's currency and at
    its closing time; and no other trade is linked to that entry. *)
Theorem trades_ledgered_once cs sched b :
  booked b ->
  let b' := fst (exec DbUnavailable sched (b, calls cs)) in
  reconciled b ⊆ reconciled b' /\ ledger b ⊆ ledger b' /\
  forall id t, reconciled b' !! id = Some t ->
    (forall id' t', reconciled b' !! id' = Some t' -> identity t' = identity t -> id' = id) /\
    (reconciled b !! id = Some t \/ reported closedTrades t) /\
    rt_netRealisedPnl t = net_result t /\
    (net_result t = 0 -> rt_ledgerEntryId t = None) /\
    (net_result t <> 0 -> exists l e, rt_ledgerEntryId t = Some l /\ ledger b' !! l = Some e /\ result_entry t l e /\
    forall id' t', reconciled b' !! id' = Some t' -> rt_ledgerEntryId t' = Some l -> id' = id).
Proof.
  intros Hb. cbv zeta.
  pose proof (exec_guar DbUnavailable (ledger_rel closedTrades) sched (b, calls cs)
    (kept_calls closedTrades (ledger_rel closedTrades) registry opens message_of cs (fun _ _ _ => ledger_paid closedTrades))) as [Hl Hk].
  cbn [fst] in Hl, Hk. destruct (Hk Hb) as ([Hi He] & Hr & Hnew). split; [done|]. split; [done|]. intros id t Ht.
  destruct (He id t Ht) as [Hnet Hen]. split; [|split; [by apply Hnew|split; [done|split]]].
  - intros id' t' Ht' Hq. by eapply (ix_slot _ _ _ _ Hi id' id t' t).
  - intros Hz. by rewrite Hz in Hen.
  - intros Hz. rewrite (proj2 (Z.eqb_neq _ 0) Hz) in Hen. destruct Hen as (l & e & Hlink & Hentry & Hres). exists l, e.
    split; [done|]. split; [done|]. split; [done|].
    intros id' t' Ht' Hlink'. destruct (He id' t' Ht') as [_ Hen']. case_match; [congruence|].
    destruct Hen' as (l' & e' & Hl' & Hentry' & Hres'). assert (l' = l) as -> by congruence. assert (e' = e) as -> by congruence.
    eapply (ix_slot _ _ _ _ Hi id' id t' t); [done|done|done|done|]. destruct Hres as [_ S1 _ _ _ _ S2 _], Hres' as [_ S1' _ _ _ _ S2' _].
    unfold identity. congruence.
Qed.

(** C21: Only a verified payment moves a mark.  Whatever calls of the fee services interleave, as
    long as none of them is a webhook whose signature verified and which says that a payment
    arrived, and whatever statements are lost: no assessment becomes PAID, every account keeps
    the high-water mark and the total of fees it has, and a new account starts with none. *)
Theorem only_webhooks_pay cs sched b :
  forallb (fun c => negb (paying c)) cs = true ->
  let b' := fst (exec DbUnavailable sched (b, calls cs)) in
  (forall id a, assessments b' !! id = Some a -> as_status a = A_PAID -> exists a', assessments b !! id = Some a' /\ as_status a' = A_PAID) /\
  (forall id p, performances b !! id = Some p -> exists p', performances b' !! id = Some p' /\
    tp_currentHighWaterMark p' = tp_currentHighWaterMark p /\ tp_totalFeesCharged p' = tp_totalFeesCharged p) /\
  (forall id p, performances b !! id = None -> performances b' !! id = Some p -> tp_currentHighWaterMark p = 0 /\ tp_totalFeesCharged p = 0).
Proof.
  intros Hc. cbv zeta. rewrite forallb_forall in Hc.
  pose proof (exec_guar DbUnavailable unpaid_rel sched (b, calls cs)) as Hg. cbn [fst snd] in Hg. destruct Hg as [Hp Ha].
  { eapply kept_calls; [apply _|]. intros c Hin Hpay. specialize (Hc c). rewrite Hpay in Hc. discriminate Hc. by apply list_elem_of_In. }
  split; [exact Ha|]. split; intros id p; specialize (Hp id).
  - intros Hb. rewrite Hb in Hp. destruct Hp as (p' & Hp' & Hq). exists p'. injection Hq as ? ?. done.
  - intros Hb Hb'. rewrite Hb in Hp. specialize (Hp p Hb'). by injection Hp as ? ?.
Qed.
End theorems.
