(* ===== verification/FeeSpecs.v ===== *)
(** * What has been charged adds up

    The fee services one call at a time, in any order: every account's high-water mark is the sum
    of the profits its paid assessments were charged for, its total of fees is the sum of their
    fees, and at most one assessment is waiting for its payment, made from that mark. *)

From S2P Require Import Prelude Prog JsString Store Sums Capital FeeRates ClosedTrades FeeBooks TradeLedger FeeAssessments FeePayments BillingCycles.
From S2P Require Import FeeGuarantees.
From stdpp Require Import relations.
Open Scope string_scope.
Open Scope list_scope.
Open Scope Z_scope.

(** ** Programs that run alone *)

(** From a state with [I], whatever the outcome, [p] leaves one with [J]. *)
Definition leads {S E A} (I : S -> Prop) (p : prog S E A) (J : S -> Prop) : Prop := forall s, I s -> J (fst (run p s)).

Section leads.
Context {S E : Type} (I J : S -> Prop).

Lemma leads_bind {A B} (K : S -> Prop) (p : prog S E A) (f : A -> prog S E B) :
  (forall s, K s -> J s) -> leads I p K -> (forall x, leads K (f x) J) -> leads I (bind p f) J.
Proof.
  intros HK Hp Hf s Hs. rewrite run_bind. specialize (Hp s Hs). destruct (run p s) as [s' [x|e]]; [by apply Hf|by apply HK].
Qed.

Lemma leads_catch {A} (K : S -> Prop) (p : prog S E A) h :
  (forall s, K s -> J s) -> leads I p K -> (forall e, leads K (h e) J) -> leads I (catch p h) J.
Proof.
  intros HK Hp Hh s Hs. rewrite run_catch. specialize (Hp s Hs). destruct (run p s) as [s' [x|e]]; [by apply HK|by apply Hh].
Qed.

Lemma leads_attempt {A} (p : prog S E A) : leads I p J -> leads I (attempt p) J.
Proof. intros Hp s Hs. rewrite run_attempt. specialize (Hp s Hs). by destruct (run p s). Qed.

Lemma leads_ret {A} (x : A) : (forall s, I s -> J s) -> leads (E := E) I (Ret x) J.
Proof. intros H s. apply H. Qed.

Lemma leads_throw {A} e : (forall s, I s -> J s) -> leads (A := A) (E := E) I (Throw e) J.
Proof. intros H s. apply H. Qed.

(** A read whose value the rest may use. *)
Lemma leads_read {X A} (f : S -> X) (k : X -> prog S E A) :
  (forall s, I s -> J (fst (run (k (f s)) s))) -> leads I (bind (read f) k) J.
Proof. intros Hk s Hs. rewrite run_bind, run_read. by apply Hk. Qed.
End leads.

Definition keeps {S E A} (I : S -> Prop) (p : prog S E A) : Prop := leads I p I.

Lemma keeps_guar {S E A} (I : S -> Prop) (p : prog S E A) : guar (fun s s' => I s -> I s') p -> keeps I p.
Proof.
  intros Hg s. assert (PreOrder (fun s s' => I s -> I s')) by (split; [by intros ??|intros x y z H1 H2 Hx; auto]).
  apply (guar_run (fun s s' => I s -> I s') p s); [|done]. intros x y z H1 H2 Hx. auto.
Qed.

Lemma leads_weaken {S E A} (I I' J J' : S -> Prop) (p : prog S E A) :
  (forall s, I' s -> I s) -> (forall s, J s -> J' s) -> leads I p J -> leads I' p J'.
Proof. intros HI HJ Hp s Hs. apply HJ, Hp, HI, Hs. Qed.

(** ** The account *)

(** An assessment that has been charged for, or may be. *)
Definition chargeable (a : Assessment) : bool := outstanding a || bool_decide (as_status a = A_PAID).

Definition paid_for (f : Assessment -> Z) (s : Scope) (a : Assessment) : Z :=
  if bool_decide (as_status a = A_PAID) && bool_decide (as_scope a = s) then f a else 0.

(** A sum over the paid assessments of an account. *)
Definition paid_sum (f : Assessment -> Z) (s : Scope) (b : Books) : Z := msum (paid_for f s) (assessments b).

(** What a charge is: the part of the result above the mark, and a fee on it. *)
Definition charge_sound (a : Assessment) : Prop :=
  as_realisedProfitForFee a = as_endingRealisedBalance a - as_startingHighWaterMark a /\
  0 < as_feeAmount a <= as_realisedProfitForFee a /\ as_endingRealisedBalance a < 2 ^ 63.

Record square (b : Books) : Prop := {
  sq_accounts : indexed tp_id (fun _ => true) tp_scope (performances b);
  sq_assessments : indexed as_id outstanding as_scope (assessments b);
  sq_account : forall id a, assessments b !! id = Some a -> chargeable a = true ->
    charge_sound a /\ exists pid p, performances b !! pid = Some p /\ tp_scope p = as_scope a;
  sq_start : forall id a pid p, assessments b !! id = Some a -> outstanding a = true -> performances b !! pid = Some p ->
    tp_scope p = as_scope a -> as_startingHighWaterMark a = tp_currentHighWaterMark p;
  sq_sums : forall pid p, performances b !! pid = Some p ->
    paid_sum as_realisedProfitForFee (tp_scope p) b = tp_currentHighWaterMark p /\
    paid_sum as_feeAmount (tp_scope p) b = tp_totalFeesCharged p;
  sq_invoiced : forall id a i, assessments b !! id = Some a -> as_invoiceId a = Some i ->
    is_Some (invoices b !! i) /\ (as_status a = A_INVOICED \/ as_status a = A_PAID) /\
    forall id' a', assessments b !! id' = Some a' -> as_invoiceId a' = Some i -> id' = id;
  sq_paid : forall id a, assessments b !! id = Some a -> as_status a = A_PAID ->
    exists i v, as_invoiceId a = Some i /\ invoices b !! i = Some v /\ iv_status v = I_PAID;
  sq_payments : forall id p i, payments b !! id = Some p -> py_invoiceId p = Some i ->
    is_Some (invoices b !! i) /\ forall aid a, assessments b !! aid = Some a -> as_invoiceId a = Some i ->
      py_userId p = fst (as_scope a) /\ py_amountMinor p = as_feeAmount a;
  sq_policies : forall id p, policies b !! id = Some p -> storable (fp_feePercent p) }.

(** *** Steps that leave it *)

Lemma square_same b b' :
  performances b' = performances b -> assessments b' = assessments b -> invoices b' = invoices b -> payments b' = payments b ->
  policies b' = policies b -> square b -> square b'.
Proof.
  intros Hp Ha Hi Hy Hc []. unfold paid_sum in *. split; unfold paid_sum; rewrite ?Hp, ?Ha, ?Hi, ?Hy, ?Hc; done.
Qed.

Lemma square_policy p b : storable (fp_feePercent p) -> square b -> square (set_policies (<[fp_id p := p]> (policies b)) b).
Proof.
  intros Hs []. split; try done. cbn. intros id q. destruct (decide (id = fp_id p)) as [->|Hne]; [rewrite lookup_insert_eq; by intros [= <-]|].
  rewrite lookup_insert_ne by congruence. eauto.
Qed.

Lemma square_invoices m b :
  (forall i v, invoices b !! i = Some v -> exists v', m !! i = Some v' /\ (iv_status v = I_PAID -> iv_status v' = I_PAID)) ->
  square b -> square (set_invoices m b).
Proof.
  intros Hm [? ? ? ? ? Hinv Hpaid Hpay ?]. split; try done.
  - intros id a i Ha Hi. destruct (Hinv id a i Ha Hi) as ([v Hv] & ? & ?). split; [|done]. destruct (Hm i v Hv) as (v' & ? & _). by eexists.
  - intros id a Ha Hs. destruct (Hpaid id a Ha Hs) as (i & v & Hi & Hv & Hsv). destruct (Hm i v Hv) as (v' & ? & ?). exists i, v'. auto.
  - intros id p i Hp Hi. destruct (Hpay id p i Hp Hi) as ([v Hv] & ?). split; [|done]. destruct (Hm i v Hv) as (v' & ? & _). by eexists.
Qed.

Lemma square_payments m b :
  (forall id p', m !! id = Some p' -> exists id0 p, payments b !! id0 = Some p /\ py_invoiceId p' = py_invoiceId p /\ py_userId p' = py_userId p /\
     py_amountMinor p' = py_amountMinor p) -> square b -> square (set_payments m b).
Proof.
  intros Hm [? ? ? ? ? ? ? Hpay ?]. split; try done. intros id p' i Hp' Hi. destruct (Hm id p' Hp') as (id0 & p & Hp & Heq & -> & ->).
  apply (Hpay id0 p i Hp). congruence.
Qed.

(** A patch of accounts that leaves what they were charged. *)
Lemma square_total id total at_ b : square b -> square (set_performances (patch_row (with_total total at_) id (performances b)) b).
Proof.
  intros [[Hid Hsl] ? Hacc Hst Hsum ? ? ? ?].
  assert (forall pid p', patch_row (with_total total at_) id (performances b) !! pid = Some p' ->
            exists p, performances b !! pid = Some p /\ tp_id p' = tp_id p /\ tp_scope p' = tp_scope p /\ charged p' = charged p) as Hback.
  { intros pid p'. rewrite patch_row_lookup. case_decide; [|by eexists]. destruct (performances b !! pid) as [p|]; [|done]. intros [= <-]. by eexists. }
  split; try done; cbn.
  - split; [intros pid p' (p & Hp & -> & _)%Hback; by apply Hid|].
    intros i1 i2 r1 r2 (p1 & H1 & _ & S1 & _)%Hback (p2 & H2 & _ & S2 & _)%Hback _ _ Heq. eapply (Hsl i1 i2 p1 p2); congruence.
  - intros aid a Ha Hc. destruct (Hacc aid a Ha Hc) as (? & pid & p & Hp & Hs). split; [done|]. exists pid. rewrite patch_row_lookup, Hp.
    case_decide; eexists; (split; [reflexivity|done]).
  - intros aid a pid p' Ha Ho (p & Hp & _ & Hs & [= Hc _])%Hback Hsc. rewrite Hc. eapply Hst; [done|done|done|congruence].
  - intros pid p' (p & Hp & _ & Hs & [= Hc Hf])%Hback. rewrite Hs, Hc, Hf. by eapply Hsum.
Qed.

(** The sums over an account without charges. *)
Lemma paid_sum_none f s b : (forall id a, assessments b !! id = Some a -> as_status a = A_PAID -> as_scope a <> s) -> paid_sum f s b = 0.
Proof.
  intros Hn. unfold paid_sum. rewrite (msum_ext _ (fun _ => 0)).
  - unfold msum. by rewrite (lsum_const 0).
  - intros id a Ha. unfold paid_for. destruct (_ && _) eqn:Hb; [|done]. bool_to_prop. by destruct (Hn id a Ha).
Qed.

Lemma square_account id s currency b :
  find_row (of_scope s) (performances b) = None -> performances b !! id = None -> square b ->
  square (set_performances (<[id := mkPerformance id s currency 0 None 0 0 None]> (performances b)) b).
Proof.
  intros Hnone Hfree Hsq. pose proof Hsq as [[Hid Hsl] ? Hacc Hst Hsum ? ? ? ?]. rewrite find_row_none in Hnone.
  assert (forall aid a, assessments b !! aid = Some a -> chargeable a = true -> as_scope a <> s) as Hno.
  { intros aid a Ha Hc Hs. destruct (Hacc aid a Ha Hc) as (_ & pid & p & Hp & Hps). specialize (Hnone pid p Hp). unfold of_scope in Hnone.
    rewrite bool_decide_eq_true_2 in Hnone by congruence. done. }
  split; try done; cbn.
  - split.
    + intros pid p. destruct (decide (pid = id)) as [->|Hne]; [rewrite lookup_insert_eq; by intros [= <-]|].
      rewrite lookup_insert_ne by congruence. apply Hid.
    + assert (forall pid p, performances b !! pid = Some p -> tp_scope p <> s) as Hns.
      { intros pid p Hp Hs. specialize (Hnone pid p Hp). unfold of_scope in Hnone. by rewrite bool_decide_eq_true_2 in Hnone. }
      intros i1 i2 r1 r2 H1 H2 _ _ Heq.
      destruct (decide (i1 = id)) as [->|N1], (decide (i2 = id)) as [->|N2]; [done| | |];
        rewrite ?lookup_insert_eq in H1; rewrite ?lookup_insert_eq in H2; rewrite ?lookup_insert_ne in H1 by congruence;
        rewrite ?lookup_insert_ne in H2 by congruence; simplify_eq; cbn in *.
      * by destruct (Hns i2 r2 H2).
      * by destruct (Hns i1 r1 H1).
      * by eapply (Hsl i1 i2).
  - intros aid a Ha Hc. destruct (Hacc aid a Ha Hc) as (? & pid & p & Hp & Hs). split; [done|]. exists pid, p. split; [|done].
    rewrite lookup_insert_ne; [done|congruence].
  - intros aid a pid p Ha Ho. destruct (decide (pid = id)) as [->|Hne].
    + rewrite lookup_insert_eq. intros [= <-] Hs. cbn in Hs. destruct (Hno aid a Ha); [unfold chargeable; by rewrite Ho|done].
    + rewrite lookup_insert_ne by congruence. eauto.
  - intros pid p. destruct (decide (pid = id)) as [->|Hne].
    + rewrite lookup_insert_eq. intros [= <-]. cbn. split; apply (paid_sum_none _ s b); intros aid a Ha Hp;
        (apply (Hno aid a Ha); unfold chargeable; by rewrite (bool_decide_eq_true_2 _ Hp), orb_true_r).
    + rewrite lookup_insert_ne by congruence. apply Hsum.
Qed.

(** A new assessment of an account with none outstanding. *)
Lemma square_assessed a pid p b :
  find_row (fun x => bool_decide (as_scope x = as_scope a) && outstanding x) (assessments b) = None -> assessments b !! as_id a = None ->
  performances b !! pid = Some p -> tp_scope p = as_scope a -> as_startingHighWaterMark a = tp_currentHighWaterMark p ->
  as_invoiceId a = None -> as_status a <> A_PAID -> (outstanding a = true -> charge_sound a) ->
  square b -> square (set_assessments (<[as_id a := a]> (assessments b)) b).
Proof.
  intros Hnone Hfree Hp Hsc Hstart Hinv Hunpaid Hsound [Hperf [Hid Hsl] Hacc Hst Hsum Hinvs Hpaid Hpay ?]. rewrite find_row_none in Hnone.
  assert (chargeable a = outstanding a) as Hch by (unfold chargeable; rewrite bool_decide_eq_false_2 by done; apply orb_false_r).
  assert (forall id x, assessments b !! id = Some x -> outstanding x = true -> as_scope x <> as_scope a) as Hno.
  { intros id x Hx Ho Hs. specialize (Hnone id x Hx). by rewrite bool_decide_eq_true_2, Ho in Hnone. }
  split; try done; cbn.
  - split; [intros id x [[<- <-]|[_ Hx]]%lookup_insert_Some; [done|by apply Hid]|].
    intros i1 i2 r1 r2 [[<- <-]|[N1 H1]]%lookup_insert_Some [[<- <-]|[N2 H2]]%lookup_insert_Some L1 L2 Heq; [done| | |].
    + by destruct (Hno i2 r2 H2 L2).
    + by destruct (Hno i1 r1 H1 L1).
    + by eapply (Hsl i1 i2).
  - intros id x [[<- <-]|[_ Hx]]%lookup_insert_Some; [|by apply (Hacc id)]. rewrite Hch. intros Ho. split; [by apply Hsound|by exists pid, p].
  - intros id x q1 q [[<- <-]|[_ Hx]]%lookup_insert_Some Ho Hq Hs; [|by apply (Hst id x q1 q)]. rewrite Hstart. f_equal.
    destruct Hperf as [_ Hu]. assert (q1 = pid) as -> by (apply (Hu q1 pid q p); done || congruence). congruence.
  - intros q1 q Hq. unfold paid_sum. cbn. rewrite !msum_insert by done. unfold paid_for at 1 3. rewrite (bool_decide_eq_false_2 _ Hunpaid). cbn. by apply (Hsum q1).
  - intros id x i [[<- <-]|[Hne Hx]]%lookup_insert_Some Hi; [congruence|]. destruct (Hinvs id x i Hx Hi) as (? & ? & Hu). split; [done|]. split; [done|].
    intros id' a' [[<- <-]|[_ Ha']]%lookup_insert_Some; [congruence|by apply Hu].
  - intros id x [[<- <-]|[_ Hx]]%lookup_insert_Some; [done|by apply (Hpaid id)].
  - intros id q i Hq Hi. destruct (Hpay id q i Hq Hi) as (? & Hq'). split; [done|].
    intros aid x [[<- <-]|[_ Hx]]%lookup_insert_Some; [congruence|by apply (Hq' aid)].
Qed.

(** A sum after the change of one row. *)
Lemma msum_change {R} (f : R -> Z) id r r' (m : gmap string R) : m !! id = Some r -> msum f (<[id := r']> m) = msum f m - f r + f r'.
Proof.
  intros Hr. rewrite <- insert_delete_eq, msum_insert by apply lookup_delete_eq. rewrite (msum_delete f id r m Hr). lia.
Qed.

(** The invoice of an assessment: a new invoice with its payment, and the assessment linked to it. *)
Lemma square_invoicing id a i v pid y b :
  assessments b !! id = Some a -> as_status a = A_ASSESSED -> invoices b !! i = None -> payments b !! pid = None ->
  py_invoiceId y = Some i -> py_userId y = fst (as_scope a) -> py_amountMinor y = as_feeAmount a ->
  square b ->
  square (set_assessments (<[id := invoiced i a]> (assessments b)) (set_payments (<[pid := y]> (payments b)) (set_invoices (<[i := v]> (invoices b)) b))).
Proof.
  intros Ha Hs Hfree Hpfree Hyi Hyu Hya [Hperf [Hid Hsl] Hacc Hst Hsum Hinvs Hpaid Hpay ?].
  assert (outstanding a = true) as Ho by (unfold outstanding; by rewrite Hs).
  assert (chargeable a = true) as Hch by (unfold chargeable; by rewrite Ho).
  assert (forall id' x j, assessments b !! id' = Some x -> as_invoiceId x = Some j -> j <> i) as Hold.
  { intros id' x j Hx Hj ->. destruct (Hinvs id' x i Hx Hj) as ([? Hv] & _). congruence. }
  split; try done; cbn.
  - split; [intros id' x [[<- <-]|[_ Hx]]%lookup_insert_Some; [exact (Hid _ _ Ha)|by apply Hid]|].
    intros i1 i2 r1 r2 [[<- <-]|[N1 H1]]%lookup_insert_Some [[<- <-]|[N2 H2]]%lookup_insert_Some L1 L2 Heq; [done| | |].
    + by apply (Hsl id i2 a r2).
    + by apply (Hsl i1 id r1 a).
    + by apply (Hsl i1 i2 r1 r2).
  - intros id' x [[<- <-]|[_ Hx]]%lookup_insert_Some; [intros _; exact (Hacc id a Ha Hch)|exact (Hacc id' x Hx)].
  - intros id' x q1 q [[<- <-]|[_ Hx]]%lookup_insert_Some Hox Hq Hqs; [exact (Hst id a q1 q Ha Ho Hq Hqs)|by apply (Hst id' x q1 q)].
  - intros q1 q Hq. unfold paid_sum. cbn. rewrite !(msum_change _ id a) by done.
    assert (forall f, paid_for f (tp_scope q) a = 0 /\ paid_for f (tp_scope q) (invoiced i a) = 0) as Hz by (intros f; unfold paid_for; cbn; by rewrite Hs).
    pose proof (Hz as_realisedProfitForFee). pose proof (Hz as_feeAmount).
    destruct (Hsum q1 q Hq) as [<- <-]. unfold paid_sum. lia.
  - intros id' x j [[<- <-]|[Hne Hx]]%lookup_insert_Some Hj.
    + injection Hj as <-. rewrite lookup_insert_eq. split; [by eexists|]. split; [by left|].
      intros id' x [[<- <-]|[_ Hx]]%lookup_insert_Some Hxi; [done|]. by destruct (Hold id' x i Hx Hxi).
    + destruct (Hinvs id' x j Hx Hj) as (? & ? & Hu). rewrite lookup_insert_ne by (intros <-; by apply (Hold id' x i)). split; [done|]. split; [done|].
      intros id'' x0 [[<- <-]|[_ Hx0]]%lookup_insert_Some Hj0; [|by apply (Hu _ x0)]. injection Hj0 as <-. by destruct (Hold id' x i Hx Hj).
  - intros id' x [[<- <-]|[_ Hx]]%lookup_insert_Some Hxs; [done|]. destruct (Hpaid id' x Hx Hxs) as (j & w & Hj & Hw & ?).
    exists j, w. rewrite lookup_insert_ne; [done|]. intros <-. congruence.
  - intros q1 q j [[<- <-]|[Hne Hq]]%lookup_insert_Some Hj.
    + assert (j = i) as -> by congruence. rewrite lookup_insert_eq. split; [by eexists|].
      intros aid x [[<- <-]|[_ Hx]]%lookup_insert_Some Hxi; [done|]. by destruct (Hold aid x i Hx Hxi).
    + destruct (Hpay q1 q j Hq Hj) as ([w Hw] & Hall). assert (j <> i) as Hji by (intros ->; congruence).
      rewrite lookup_insert_ne by congruence. split; [by eexists|].
      intros aid x [[<- <-]|[_ Hx]]%lookup_insert_Some Hxj; [cbn in Hxj; congruence|by apply (Hall aid)].
Qed.

(** The payment of an invoice that is paid: the assessment is PAID and the account is charged. *)
Lemma square_charged id a i v pid p b :
  assessments b !! id = Some a -> as_status a = A_INVOICED -> as_invoiceId a = Some i -> invoices b !! i = Some v -> iv_status v = I_PAID ->
  performances b !! pid = Some p -> tp_scope p = as_scope a ->
  square b ->
  square (set_performances (<[pid := with_mark (as_endingRealisedBalance a) (tp_totalFeesCharged p + as_feeAmount a) p]> (performances b))
            (set_assessments (<[id := assessment_paid a]> (assessments b)) b)).
Proof.
  intros Ha Hs Hi Hv Hvs Hp Hsc [[Hpid Hpsl] [Hid Hsl] Hacc Hst Hsum Hinvs Hpaid Hpay ?].
  assert (outstanding a = true) as Ho by (unfold outstanding; by rewrite Hs).
  assert (chargeable a = true) as Hch by (unfold chargeable; by rewrite Ho).
  assert (forall id' x, assessments b !! id' = Some x -> outstanding x = true -> id <> id' -> as_scope x <> as_scope a) as Hno.
  { intros id' x Hx Hox Hne Heq. apply Hne. by apply (Hsl id id' a x). }
  assert (forall q1 q, performances b !! q1 = Some q -> pid <> q1 -> tp_scope q <> as_scope a) as Hother.
  { intros q1 q Hq Hne Heq. apply Hne. apply (Hpsl pid q1 p q); done || congruence. }
  pose proof (Hst id a pid p Ha Ho Hp Hsc) as Hstart. destruct (Hacc id a Ha Hch) as [(Hprofit & _ & _) _].
  split; try done; cbn.
  - split; [intros q1 q [[<- <-]|[_ Hq]]%lookup_insert_Some; [exact (Hpid _ _ Hp)|by apply Hpid]|].
    intros i1 i2 r1 r2 [[<- <-]|[N1 H1]]%lookup_insert_Some [[<- <-]|[N2 H2]]%lookup_insert_Some _ _ Heq; [done| | |].
    + by apply (Hpsl pid i2 p r2).
    + by apply (Hpsl i1 pid r1 p).
    + by apply (Hpsl i1 i2 r1 r2).
  - split; [intros id' x [[<- <-]|[_ Hx]]%lookup_insert_Some; [exact (Hid _ _ Ha)|by apply Hid]|].
    intros i1 i2 r1 r2 [[<- <-]|[N1 H1]]%lookup_insert_Some [[<- <-]|[N2 H2]]%lookup_insert_Some L1 L2 Heq; [done|done|done|].
    by apply (Hsl i1 i2 r1 r2).
  - assert (forall s, (exists q1 q, performances b !! q1 = Some q /\ tp_scope q = s) ->
              exists q1 q, <[pid:=with_mark (as_endingRealisedBalance a) (tp_totalFeesCharged p + as_feeAmount a) p]> (performances b) !! q1 = Some q /\ tp_scope q = s) as Hex.
    { intros s (q1 & q & Hq & Hqs). destruct (decide (pid = q1)) as [<-|Hne].
      - eexists pid, _. rewrite lookup_insert_eq. split; [done|]. cbn. congruence.
      - exists q1, q. by rewrite lookup_insert_ne. }
    intros id' x [[<- <-]|[_ Hx]]%lookup_insert_Some Hxc.
    + destruct (Hacc id a Ha Hch) as [? ?]. split; [done|by apply Hex].
    + destruct (Hacc id' x Hx Hxc) as [? ?]. split; [done|by apply Hex].
  - intros id' x q1 q [[<- <-]|[Hne Hx]]%lookup_insert_Some Hox; [done|]. intros [[<- <-]|[_ Hq]]%lookup_insert_Some Hqs.
    + cbn in Hqs. destruct (Hno id' x Hx Hox Hne). congruence.
    + by apply (Hst id' x q1 q).
  - intros q1 q Hq. unfold paid_sum. cbn. rewrite !(msum_change _ id a) by done.
    assert (forall f, paid_for f (tp_scope q) a = 0) as Hz by (intros f; unfold paid_for; by rewrite Hs).
    assert (forall f, paid_for f (tp_scope q) (assessment_paid a) = if bool_decide (as_scope a = tp_scope q) then f (assessment_paid a) else 0) as Hy by done.
    rewrite !Hz, !Hy.
    apply lookup_insert_Some in Hq as [[<- <-]|[Hne Hq]].
    + cbn. rewrite (bool_decide_eq_true_2 _ (eq_sym Hsc)). destruct (Hsum pid p Hp) as [H1 H2]. unfold paid_sum in H1, H2. cbn. lia.
    + rewrite (bool_decide_eq_false_2 (as_scope a = tp_scope q)) by (intros Heq; by apply (Hother q1 q Hq Hne)).
      destruct (Hsum q1 q Hq) as [H1 H2]. unfold paid_sum in H1, H2. lia.
  - intros id' x j [[<- <-]|[Hne Hx]]%lookup_insert_Some Hj.
    + destruct (Hinvs id a j Ha Hj) as (? & _ & Hu). split; [done|]. split; [by right|].
      intros id' x [[<- <-]|[_ Hx]]%lookup_insert_Some Hxj; [done|by apply (Hu _ x)].
    + destruct (Hinvs id' x j Hx Hj) as (? & ? & Hu). split; [done|]. split; [done|].
      intros id'' x0 [[<- <-]|[_ Hx0]]%lookup_insert_Some Hj0; [by apply (Hu id a)|by apply (Hu _ x0)].
  - intros id' x [[<- <-]|[_ Hx]]%lookup_insert_Some Hxs; [by exists i, v|by apply (Hpaid id')].
  - intros q1 q j Hq Hj. destruct (Hpay q1 q j Hq Hj) as (? & Hall). split; [done|].
    intros aid x [[<- <-]|[_ Hx]]%lookup_insert_Some Hxj; [by apply (Hall id a)|by apply (Hall aid)].
Qed.

(** ** The calls *)

Definition sq_rel (b b' : Books) : Prop := square b -> square b'.

#[export] Instance sq_rel_preorder : PreOrder sq_rel.
Proof. split; [by intros b ?|]. intros x y z H1 H2 Hx. by apply H2, H1. Qed.

Lemma keeps_sq {A} (p : fio A) : guar sq_rel p -> keeps square p.
Proof. apply keeps_guar. Qed.

Lemma sq_same b b' :
  performances b' = performances b -> assessments b' = assessments b -> invoices b' = invoices b -> payments b' = payments b ->
  policies b' = policies b -> sq_rel b b'.
Proof. intros ? ? ? ? ? Hb. by eapply square_same. Qed.

Lemma sq_note a i : guar sq_rel (fee_note a i).
Proof. apply guar_note. intros. by apply sq_same. Qed.
Lemma sq_ledger e : guar sq_rel (ledger_insert e).
Proof. apply guar_on_table; [apply _|]. intros. by apply sq_same. Qed.
Lemma sq_webhook w : guar sq_rel (webhook_insert w).
Proof. apply guar_on_table; [apply _|]. intros. by apply sq_same. Qed.
Lemma sq_webhook_update i f : guar sq_rel (webhook_update i f).
Proof. apply guar_on_table; [apply _|]. intros. by apply sq_same. Qed.
Lemma sq_cycle c : guar sq_rel (cycle_insert c).
Proof. apply guar_on_table; [apply _|]. intros. by apply sq_same. Qed.
Lemma sq_cycle_update i f : guar sq_rel (cycle_update i f).
Proof. apply guar_on_table; [apply _|]. intros. by apply sq_same. Qed.
Lemma sq_run r : guar sq_rel (run_insert r).
Proof. apply guar_on_table; [apply _|]. intros. by apply sq_same. Qed.
Lemma sq_run_update i f : guar sq_rel (run_update i f).
Proof. apply guar_on_table; [apply _|]. intros. by apply sq_same. Qed.
Lemma sq_reconciled t : guar sq_rel (reconciled_insert t).
Proof. apply guar_on_table; [apply _|]. intros. by apply sq_same. Qed.
Lemma sq_reconciled_update i f : guar sq_rel (reconciled_update i f).
Proof. apply guar_on_table; [apply _|]. intros. by apply sq_same. Qed.

Lemma sq_invoice v : guar sq_rel (invoice_insert v).
Proof.
  apply guar_on_table; [apply _|]. intros b m (-> & Hn & _)%insert_row_ok. unfold sq_rel. apply square_invoices. intros i w Hw. exists w.
  rewrite lookup_insert_ne; [done|]. intros <-. congruence.
Qed.

(** A patch that leaves what a payment is for. *)
Definition same_payment (f : PaymentTransaction -> PaymentTransaction) : Prop :=
  forall p, py_invoiceId (f p) = py_invoiceId p /\ py_userId (f p) = py_userId p /\ py_amountMinor (f p) = py_amountMinor p.

Lemma sq_payment_cas q f i : same_payment f -> guar sq_rel (payment_cas q f i).
Proof.
  intros Hf. apply guar_op. intros b. destruct (payments b !! i) as [p|] eqn:Hp; [|done]. destruct (negb (q p)); [done|]. case_bool_decide; [done|].
  unfold sq_rel; cbn [fst]. apply square_payments. intros id p' [[<- <-]|[_ Hp']]%lookup_insert_Some; [exists i, p; by destruct (Hf p) as (? & ? & ?)|by exists id, p'].
Qed.

Lemma sq_payment_update f i : same_payment f -> guar sq_rel (payment_update i f).
Proof. intros Hf. apply guar_bind; [by apply sq_payment_cas|done]. Qed.

#[export] Hint Resolve sq_note sq_ledger sq_webhook sq_webhook_update sq_cycle sq_cycle_update sq_run sq_run_update sq_reconciled
  sq_reconciled_update sq_invoice sq_payment_cas sq_payment_update : irex.

Lemma same_payment_status st : same_payment (with_payment_status st).
Proof. done. Qed.
Lemma same_payment_provider p r st : same_payment (with_provider p r st).
Proof. done. Qed.
#[export] Hint Resolve same_payment_status same_payment_provider : irex.

Ltac sq_walk := guar_walk; eauto with irex.

Section services.
Context (closedTrades : string -> string -> Z -> Z -> result exn (list BrokerClosedTrade)) (registry : list PaymentProvider)
        (opens : string -> nat -> result exn string) (message_of : exn -> string).

Lemma sq_trade t l u c r cur n : guar sq_rel (processTradeAtomically t l u c r cur n).
Proof. unfold processTradeAtomically, process_trade, process_existing, enter_trade. sq_walk. Qed.

Lemma sq_process ids k u c r cur l n : guar sq_rel (process_trades ids k u c r cur l n).
Proof.
  revert k n. induction l as [|t l IH]; intros k n; cbn [process_trades]; [done|].
  apply guar_bind; [apply guar_attempt, sq_trade|intros; apply IH].
Qed.

Lemma sq_reconciliation runId ids u c from to : guar sq_rel (runReconciliation closedTrades runId ids u c from to).
Proof. unfold runReconciliation, findConnectionById, finaliseRun, run_of. sq_walk. all: apply sq_process. Qed.

Lemma sq_checkout i u a o : guar sq_rel (initiatePerformanceFeeCheckout registry opens i u a o).
Proof.
  assert (forall p t n, guar sq_rel (createCheckoutSession opens p t n)) as Hs.
  { intros. apply guar_op. intros b. case_match; [by apply sq_same|reflexivity]. }
  unfold initiatePerformanceFeeCheckout, loadPayableContext, lost_claim, already_paid, checkout_claimed, open_session, store_reference, release_claim.
  sq_walk.
Qed.

Lemma sq_fail i e : guar sq_rel (fail_with i e).
Proof. unfold fail_with, failCycle, cycle_of. sq_walk. Qed.
Lemma square_after {A} (p : fio A) b : guar sq_rel p -> square b -> square (fst (run p b)).
Proof. intros Hp. apply (keeps_sq p Hp). Qed.

(** *** Policies *)

Lemma keeps_bind {A B} (p : fio A) (f : A -> fio B) : keeps square p -> (forall x, keeps square (f x)) -> keeps square (bind p f).
Proof. intros Hp Hf. by apply (leads_bind square square square). Qed.

Lemma numeric_storable raw v : numeric_column 7 4 raw = Ok v -> storable v.
Proof. unfold numeric_column, storable. repeat case_match; try done. intros [= <-]. bool_to_prop. by change (10 ^ 7) with 10000000 in *. Qed.

Lemma run_policy_save p b : run (policy_save p) b = (set_policies (<[fp_id p := p]> (policies b)) b, Ok tt).
Proof. done. Qed.

Lemma keeps_create_policy newId planId percent : keeps square (createPolicy newId planId percent).
Proof.
  unfold createPolicy. destruct planId; [by intros b|]. apply keeps_bind; [|intros p; by apply keeps_bind; [apply keeps_sq, sq_note|intros ? b]].
  intros b Hb. unfold create_policy. rewrite run_transaction, run_bind, run_read. destruct (active_policies b); [|done]. rewrite run_bind.
  destruct (numeric_column 7 4 percent) as [v|e] eqn:Hv; [|done]. cbn [of_result run]. rewrite run_bind, run_policy_save. cbn [run fst].
  apply square_policy; [|done]. by eapply numeric_storable.
Qed.

Lemma keeps_deactivate id : keeps square (deactivatePolicy id).
Proof.
  intros b Hb. unfold deactivatePolicy. rewrite run_bind, run_read. destruct (policies b !! id) as [p|] eqn:Hp; [|done]. destruct (negb _); [done|].
  rewrite run_bind, run_policy_save. apply square_after; [sq_walk|].
  apply (square_policy (mkPolicy (fp_id p) (fp_planId p) (fp_feePercent p) false)); [|done]. cbn. by eapply (sq_policies b Hb).
Qed.

(** *** Assessments *)

(** What the calculation has found out when it loads the ledger. *)
Record assessable (s : Scope) (policy : Policy) (perf : Performance) (b : Books) : Prop := {
  ab_square : square b;
  ab_perf : performances b !! tp_id perf = Some perf;
  ab_scope : tp_scope perf = s;
  ab_none : findOutstandingAssessment s b = None;
  ab_percent : storable (fp_feePercent policy) }.

Lemma charge_assessed newId s currency from to policy perf sums c :
  storable (fp_feePercent policy) ->
  calculateHighWaterMarkFee (tp_totalRealisedProfit perf + ps_realised sums) (tp_currentHighWaterMark perf) (fp_feePercent policy) = Ok c ->
  tp_totalRealisedProfit perf + ps_realised sums < 2 ^ 63 ->
  let a := assessment_row newId s currency from to policy perf sums c in
  outstanding a = true -> charge_sound a.
Proof.
  intros Hs Hc Hb. rewrite calculation_value in Hc by done. apply calculation_fee in Hc as (Hp & Hf & Hv). cbv zeta.
  unfold outstanding, charge_sound, assessment_row. cbn. destruct (0 <? hc_feeAmount c) eqn:Hpos; [|done]. intros _. bool_to_prop.
  rewrite Hf in *. rewrite Hp in *. set (profit := Z.max 0 _) in *. destruct Hv as [Hz|Hv]; [rewrite Hz in Hpos; by cbn in Hpos|].
  assert (profit * fp_feePercent policy / 1000000 <= profit) as Hle.
  { apply Z.div_le_upper_bound; [lia|]. assert (0 <= profit) by lia. nia. }
  split; [lia|]. split; [lia|done].
Qed.

Lemma bigints_lower l v : bigints l = Ok tt -> v ∈ l -> - 2 ^ 63 <= v < 2 ^ 63.
Proof.
  unfold bigints. destruct (forallb _ l) eqn:Hf; [|done]. intros _ Hv. rewrite forallb_forall in Hf.
  specialize (Hf v ltac:(by apply list_elem_of_In)). bool_to_prop. lia.
Qed.

Lemma assess_square newId s currency from to policy perf b :
  assessable s policy perf b -> square (fst (run (assess newId s currency from to policy perf) b)).
Proof.
  intros [Hsq Hperf Hscope Hnone Hpct]. unfold assess. rewrite run_bind, run_read. destruct (negb _); [done|]. cbv zeta. rewrite run_bind.
  set (sums := period_sums _). destruct (calculateHighWaterMarkFee _ _ _) as [c|e] eqn:Hc; [|done]. cbn [of_result run]. rewrite run_bind.
  set (a := assessment_row newId s currency from to policy perf sums c). unfold assessment_insert. rewrite run_op. unfold on_table at 1.
  destruct (rbind _ _) as [m|e] eqn:Hins; [|done]. apply rbind_ok in Hins as ([] & Hbig & (-> & Hfree & _)%insert_row_ok).
  assert (square (set_assessments (<[as_id a := a]> (assessments b)) b)) as Hsq1.
  { apply (square_assessed a (tp_id perf) perf); try done; [unfold a, assessment_row; cbn; by case_match|].
    apply charge_assessed; [done|done|]. apply (bigints_lower _ _ Hbig). by right; left. }
  rewrite run_bind, run_read. apply square_after; [|done]. apply guar_bind; [|intros; sq_walk].
  unfold performance_update. apply guar_on_table; [apply _|]. intros b2 m' (? & _ & ->)%rmap_ok Hb2. by apply square_total.
Qed.

Lemma active_storable b p : square b -> p ∈ active_policies b -> storable (fp_feePercent p).
Proof.
  intros Hsq Hp. unfold active_policies in Hp. apply list_elem_of_In, filter_In in Hp as [Hp _]. apply in_map_iff in Hp as ([id q] & <- & Hq).
  apply list_elem_of_In, elem_of_map_to_list in Hq. by eapply (sq_policies b Hsq).
Qed.

Lemma keeps_calculate newId perfId s currency from to : keeps square (calculateAssessment newId perfId s currency from to).
Proof.
  intros b Hb. unfold calculateAssessment. rewrite run_bind. destruct (validateAndNormalizeCurrency currency) as [cur|e]; [|done]. cbn [of_result run].
  rewrite run_bind. unfold findActiveGlobalPolicy. rewrite run_bind, run_read. destruct (active_policies b) as [|policy [|]] eqn:Hp; [done| |done]. cbn [run].
  assert (storable (fp_feePercent policy)) as Hpct by (apply (active_storable b); [done|rewrite Hp; by left]).
  rewrite run_bind, run_read. destruct (findExistingAssessment s from to b) as [a|]; [by destruct (bool_decide _)|].
  rewrite run_bind, run_read. destruct (findOutstandingAssessment s b) eqn:Hnone; [done|].
  rewrite run_bind, run_read. destruct (find_row (of_scope s) (performances b)) as [perf|] eqn:Hf.
  - destruct (negb _); [done|]. apply assess_square. apply find_row_some in Hf as (id & Hperf & Hs). pose proof (ix_id _ _ _ _ (sq_accounts b Hb) id perf Hperf) as <-.
    split; try done. by apply bool_decide_eq_true in Hs.
  - rewrite run_bind. unfold getOrCreatePerformance. rewrite run_bind, run_read, Hf. rewrite run_bind. unfold performance_insert. rewrite run_op.
    unfold on_table at 1. destruct (insert_row _ _ _ _ _ _) as [m|e] eqn:Hins; [|done]. apply insert_row_ok in Hins as (-> & Hfree & _). cbn [run].
    apply assess_square. cbn [tp_id] in *. split; try done; [by apply square_account|]. cbn. by rewrite lookup_insert_eq.
Qed.

(** *** Invoices *)

Lemma keeps_invoicing ids id : keeps square (invoiceAssessment ids id).
Proof.
  intros b Hb. unfold invoiceAssessment. rewrite run_bind, run_read. destruct (assessments b !! id) as [a|] eqn:Ha; [|done].
  destruct (bool_decide (as_status a = A_ASSESSED)) eqn:Hs; cbn [negb]; [|done]. bool_to_prop. destruct (as_feeAmount a <=? 0); [done|].
  rewrite run_bind, run_read. cbn [clock]. set (at_ := clock b). rewrite run_bind.
  pose proof (keeps_sq (invoice_insert (invoice_row (ni_invoice ids) (ni_number ids) at_ a)) (sq_invoice _) b Hb) as Hb1.
  unfold invoice_insert in *. rewrite run_op in *. unfold on_table at 1. unfold on_table at 1 in Hb1.
  destruct (insert_row "invoices_pkey" _ _ _ _ _) as [mi|e] eqn:Hins; [|done]. apply insert_row_ok in Hins as (-> & Hfree & _).
  rewrite run_bind. unfold payment_insert. rewrite run_op. unfold on_table at 1.
  destruct (insert_row "payment_transactions_pkey" _ _ _ _ _) as [mp|e] eqn:Hins; [|done]. apply insert_row_ok in Hins as (-> & Hpfree & _).
  rewrite run_bind. unfold assessment_update. rewrite run_op. unfold on_table at 1. cbn [fst snd].
  cbn [iv_id py_id invoice_row payment_row payments set_invoices] in *.
  apply square_after; [sq_walk|]. unfold patch_row, update_row. cbn. rewrite Ha. by apply square_invoicing.
Qed.
(** *** Payments *)

Lemma paid_nonneg s b : square b ->
  (forall id a, assessments b !! id = Some a -> 0 <= paid_for as_feeAmount s a <= paid_for as_realisedProfitForFee s a).
Proof.
  intros Hsq id a Ha. unfold paid_for. destruct (_ && _) eqn:Hp; [|lia]. bool_to_prop.
  destruct (sq_account b Hsq id a Ha) as [(_ & ? & _) _]; [|lia]. unfold chargeable. by rewrite (bool_decide_eq_true_2 (as_status a = A_PAID)), orb_true_r.
Qed.

Lemma mark_bounds pid p b : square b -> performances b !! pid = Some p -> 0 <= tp_totalFeesCharged p <= tp_currentHighWaterMark p.
Proof.
  intros Hsq Hp. destruct (sq_sums b Hsq pid p Hp) as [<- <-]. pose proof (paid_nonneg (tp_scope p) b Hsq) as Hn. unfold paid_sum. split.
  - apply msum_nonneg. intros k r Hr. by apply (Hn k).
  - apply msum_le; [intros k r Hr; specialize (Hn k r Hr); lia|]. intros k r Hr. exists r. split; [done|]. by apply (Hn k).
Qed.

Lemma fee_paid_square entryId p b :
  square b -> (exists id p', payments b !! id = Some p' /\ py_invoiceId p' = py_invoiceId p /\ py_userId p' = py_userId p /\ py_amountMinor p' = py_amountMinor p) ->
  (forall i, py_invoiceId p = Some i -> exists v, invoices b !! i = Some v /\ iv_status v = I_PAID) -> ledger b !! entryId = None ->
  square (fst (run (handlePerformanceFeePaymentSucceeded entryId p) b)).
Proof.
  intros Hsq (yid & y & Hy & Hyi & Hyu & Hya) Hpaid Hfree. unfold handlePerformanceFeePaymentSucceeded. destruct (py_invoiceId p) as [i|]; [|done].
  destruct (Hpaid i eq_refl) as (v & Hv & Hvs). rewrite run_bind, run_read. destruct (find_row _ _) as [a|] eqn:Hf; [|done].
  apply find_row_some in Hf as (id & Ha & Hi). bool_to_prop. case_bool_decide as Hnp; [done|].
  pose proof (ix_id _ _ _ _ (sq_assessments b Hsq) id a Ha) as Hid. destruct (sq_invoiced b Hsq id a i Ha Hi) as (_ & [Hs|Hs] & _); [|done].
  assert (outstanding a = true) as Ho by (unfold outstanding; by rewrite Hs).
  destruct (sq_account b Hsq id a Ha) as [(Hprofit & Hfee & Hend) (pid & q & Hq & Hqs)]; [unfold chargeable; by rewrite Ho|].
  pose proof (sq_start b Hsq id a pid q Ha Ho Hq Hqs) as Hstart. pose proof (mark_bounds pid q b Hsq Hq) as Hmark.
  destruct (sq_payments b Hsq yid y i Hy Hyi) as [_ Hmatch]. destruct (Hmatch id a Ha Hi) as [Hu Ham]. rewrite Hyu in Hu. rewrite Hya in Ham.
  rewrite Hid, run_bind. unfold assessment_update. rewrite run_op. unfold on_table at 1. cbn [fst snd].
  replace (patch_row assessment_paid id (assessments b)) with (<[id := assessment_paid a]> (assessments b)) by (unfold patch_row, update_row; by rewrite Ha).
  rewrite run_bind, run_read. cbn [clock set_assessments]. rewrite run_bind. unfold ledger_insert at 1. rewrite run_op. unfold on_table at 1.
  assert (forall x, - 2 ^ 63 <= x < 2 ^ 63 -> bigints [x] = Ok tt) as Hb1.
  { intros x Hx. unfold bigints. cbn. by rewrite (proj2 (Z.leb_le _ _)), (proj2 (Z.ltb_lt _ _)) by lia. }
  cbn [le_amount fee_paid_entry ledger set_assessments le_id]. rewrite Ham, Hb1 by lia. cbn [rbind]. unfold insert_row at 1.
  rewrite bool_decide_eq_false_2 by (rewrite Hfree; by intros [? [=]]).
  assert (find_row no_index (ledger b) = None) as -> by (apply find_row_none; done). cbn [set_ledger].
  rewrite run_bind. unfold raise_mark at 1. rewrite run_bind, run_read. cbn [performances set_assessments set_ledger].
  assert ((py_userId p, snd (as_scope a)) = as_scope a) as -> by (rewrite Hu; by destruct (as_scope a)).
  rewrite (find_row_unique (of_scope (as_scope a)) (performances b) pid q Hq).
  2:{ unfold of_scope. by apply bool_decide_eq_true. }
  2:{ intros id' q' Hq' Hs'. unfold of_scope in Hs'. bool_to_prop. assert (id' = pid) as -> by (eapply (ix_slot _ _ _ _ (sq_accounts b Hsq) id' pid q' q); done || congruence). congruence. }
  rewrite (proj2 (Z.ltb_lt _ _)) by lia. rewrite Ham. pose proof (ix_id _ _ _ _ (sq_accounts b Hsq) pid q Hq) as Hpid.
  rewrite run_bind. unfold performance_update at 1. rewrite run_op. unfold on_table at 1.
  assert (bigints [as_endingRealisedBalance a; tp_totalFeesCharged q + as_feeAmount a] = Ok tt) as ->.
  { unfold bigints. cbn. by rewrite !(proj2 (Z.leb_le _ _)), !(proj2 (Z.ltb_lt _ _)) by lia. }
  cbn [rmap]. rewrite Hpid. unfold patch_row, update_row. cbn [performances set_assessments set_ledger]. rewrite Hq. cbn [fst].
  apply (square_after (do! fee_note _ _ in fee_note _ _)%prog); [sq_walk|].
  eapply square_same; [..|exact (square_charged id a i v pid q b Ha Hs Hi Hv Hvs Hq Hqs Hsq)]; reflexivity.
Qed.

(** The entry the payment will write is not yet there. *)
Definition calm (entryId : string) (b : Books) : Prop := square b /\ ledger b !! entryId = None.

(** And a stored transaction is the one the event names. *)
Definition named (entryId : string) (p : PaymentTransaction) (b : Books) : Prop :=
  calm entryId b /\
  exists id p', payments b !! id = Some p' /\ py_invoiceId p' = py_invoiceId p /\ py_userId p' = py_userId p /\ py_amountMinor p' = py_amountMinor p.

Lemma calm_same {A} entryId (p : fio A) : guar sq_rel p -> guar (fun b b' => ledger b' = ledger b) p -> leads (calm entryId) p (calm entryId).
Proof.
  intros Hs Hl b [Hb Hf]. split; [by apply square_after|].
  assert (PreOrder (fun b b' : Books => ledger b' = ledger b)) as Hpre by (split; [done|intros x y z H1 H2; congruence]).
  pose proof (guar_run (fun b b' : Books => ledger b' = ledger b) p b ltac:(intros x y z H1 H2; congruence) Hl) as Heq. cbn in Heq. by rewrite Heq.
Qed.

Lemma named_note entryId p action id : leads (named entryId p) (fee_note action id) (named entryId p).
Proof.
  intros b [Hc He]. split; [|done]. apply calm_same; [apply sq_note| |done]. apply guar_note. done.
Qed.

Lemma named_update entryId p id st : leads (named entryId p) (payment_update id (with_payment_status st)) (named entryId p).
Proof.
  intros b [Hc He]. split.
  - apply calm_same; [apply sq_payment_update, same_payment_status| |done]. apply guar_bind; [|done]. apply guar_op. intros b'. by repeat case_match.
  - unfold payment_update. rewrite run_bind. unfold payment_cas. rewrite run_op. destruct (payments b !! id) as [y|] eqn:Hy; [|done]. cbn [negb].
    case_bool_decide; [done|]. cbn. destruct He as (k & p' & Hk & ?). destruct (decide (k = id)) as [->|Hne].
    + exists id, (with_payment_status st y). rewrite lookup_insert_eq. split; [done|]. assert (y = p') as -> by congruence. done.
    + exists k, p'. by rewrite lookup_insert_ne.
Qed.

Lemma succeeded_square entryId providerId event : leads (calm entryId) (handlePaymentSucceeded entryId providerId event) square.
Proof.
  intros b [Hb Hf]. unfold handlePaymentSucceeded. rewrite run_bind, run_read. destruct (referenced_payment providerId event b) as [p|] eqn:Hp; [|done].
  destruct (negb _); [apply square_after; [apply sq_note|done]|].
  assert (named entryId p b) as Hn.
  { split; [done|]. unfold referenced_payment in Hp. destruct (given _); [|done]. apply find_row_some in Hp as (id & Hp & _). by exists id, p. }
  revert b Hb Hf Hp Hn. intros b _ _ _. revert b. apply (leads_bind _ _ (named entryId p)); [by intros b [[]]|apply named_update|]. intros _.
  apply (leads_bind _ _ (named entryId p)); [by intros b [[]]|apply named_note|]. intros _.
  apply (leads_bind _ _ (fun b => named entryId p b /\ forall i, py_invoiceId p = Some i -> exists v, invoices b !! i = Some v /\ iv_status v = I_PAID));
    [by intros b [[[]]]| |].
  - destruct (py_invoiceId p) as [i|] eqn:Hi; [|intros b Hn; by split]. intros b Hn. rewrite run_bind, run_read. cbn [clock].
    rewrite run_bind. unfold invoice_update. rewrite run_op. unfold on_table. cbn [fst snd].
    destruct Hn as [[Hb Hf] (id & p' & Hp' & Hpi & ? & ?)]. destruct (sq_payments b Hb id p' i Hp' ltac:(congruence)) as ([v Hv] & _).
    assert (forall at_ b', named entryId p b' /\ (exists v, invoices b' !! i = Some v /\ iv_status v = I_PAID) ->
              named entryId p (fst (run (fee_note at_ i) b')) /\ forall j, Some i = Some j -> exists v, invoices (fst (run (fee_note at_ i) b')) !! j = Some v /\ iv_status v = I_PAID) as Hnote.
    { intros at_ b' [Hn' Hv']. split; [by apply named_note|]. intros j [= <-]. done. }
    apply Hnote. split.
    + split; [split; [|done]|by exists id, p']. apply square_invoices; [|done]. intros j w Hw. rewrite patch_row_lookup.
      case_decide; [subst j; rewrite Hw; by eexists|by exists w].
    + exists (invoice_paid (clock b) v). cbn. rewrite patch_row_lookup. rewrite decide_True by done. by rewrite Hv.
  - intros _. case_bool_decide; [|by intros b [[[]]]]. intros b [[[Hb Hf] He] Hi]. by apply fee_paid_square.
Qed.

Lemma failed_square providerId event : keeps square (handlePaymentFailed providerId event).
Proof. apply keeps_sq. unfold handlePaymentFailed. sq_walk. Qed.

Lemma event_square entryId providerId event : leads (calm entryId) (handleEvent entryId providerId event) square.
Proof.
  unfold handleEvent. case_match; try (by intros b []); try apply succeeded_square. intros b [Hb _]. by apply failed_square.
Qed.

Lemma ledger_still_preorder : PreOrder (fun b b' : Books => ledger b' = ledger b).
Proof. split; [done|intros x y z H1 H2; congruence]. Qed.

Lemma record_calm entryId newId providerId event : leads (calm entryId) (record_event newId providerId event) (calm entryId).
Proof.
  pose proof ledger_still_preorder. apply calm_same; unfold record_event; [sq_walk|].
  guar_walk. apply guar_on_table; [apply _|done].
Qed.

Lemma webhook_square newId entryId providerId verified event :
  leads (calm entryId) (processWebhook registry message_of newId entryId providerId verified event) square.
Proof.
  unfold processWebhook. case_bool_decide; [by intros b []|]. destruct (getProvider registry providerId); [|by intros b []].
  pose proof ledger_still_preorder.
  assert (forall a i, leads (calm entryId) (fee_note a i) (calm entryId)) as Hnote.
  { intros. apply calm_same; [apply sq_note|by apply guar_note]. }
  apply (leads_bind _ _ (calm entryId)); [by intros b []|apply Hnote|]. intros _. destruct verified; cbn [negb].
  2:{ apply (leads_bind _ _ (calm entryId)); [by intros b []|apply Hnote|]. by intros _ b []. }
  apply (leads_bind _ _ (calm entryId)); [by intros b []|apply record_calm|]. intros [w|]; [|by intros b []].
  apply (leads_bind _ _ square); [done| |].
  - apply leads_attempt. apply (leads_bind _ _ square); [done|apply event_square|]. intros _. apply keeps_sq, sq_webhook_update.
  - intros [x|e]; [by intros b|]. apply keeps_sq. sq_walk.
Qed.

(** *** Billing cycles *)

Lemma keeps_attempt {A} (p : fio A) : keeps square p -> keeps square (attempt p).
Proof. apply leads_attempt. Qed.

Lemma keeps_reconcile ids id c : keeps square (reconcile_cycle closedTrades message_of ids id c).
Proof. apply keeps_sq. unfold reconcile_cycle, transition. sq_walk. apply sq_reconciliation. Qed.

Lemma keeps_invoice_cycle ids id a : keeps square (invoice_cycle message_of ids id a).
Proof.
  unfold invoice_cycle. destruct (as_feeAmount a <=? 0); [apply keeps_sq; unfold cycle_of; sq_walk|].
  destruct (negb _); [apply keeps_sq, sq_fail|]. apply keeps_bind; [apply keeps_attempt, keeps_invoicing|].
  intros [x|e]; apply keeps_sq; [unfold cycle_of; sq_walk|apply sq_fail].
Qed.

Lemma keeps_assess_cycle ids id c : keeps square (assess_cycle message_of ids id c).
Proof.
  unfold assess_cycle, transition. apply keeps_bind; [apply keeps_sq; sq_walk|]. intros _.
  apply keeps_bind; [apply keeps_attempt, keeps_calculate|]. intros [a|e]; [|apply keeps_sq, sq_fail].
  repeat (apply keeps_bind; [apply keeps_sq; sq_walk|intros _]). apply keeps_invoice_cycle.
Qed.

Lemma keeps_cycle ids id : keeps square (runBillingCycle closedTrades message_of ids id).
Proof.
  unfold runBillingCycle. apply keeps_bind; [apply keeps_sq; unfold getBillingCycle; sq_walk|]. intros c.
  destruct (final_cycle _); [by intros b|]. destruct (negb _); [by intros b|]. apply keeps_bind; [apply keeps_sq, sq_note|]. intros _.
  apply keeps_bind; [apply keeps_reconcile|]. intros [e|]; [apply keeps_sq, sq_fail|apply keeps_assess_cycle].
Qed.

Lemma keeps_cycle_create newId s from to currency : keeps square (createBillingCycle newId s from to currency).
Proof. apply keeps_sq. unfold createBillingCycle. sq_walk. Qed.

Lemma keeps_cycle_for newId ids s from to currency :
  keeps square (runBillingCycleForUserPeriod closedTrades message_of newId ids s from to currency).
Proof.
  unfold runBillingCycleForUserPeriod. apply keeps_bind; [by intros b|]. intros [c|].
  - destruct (final_cycle _); [by intros b|]. destruct (negb _); [by intros b|apply keeps_cycle].
  - apply keeps_bind; [apply keeps_cycle_create|]. intros c. apply keeps_cycle.
Qed.

Lemma keeps_done {X} I J (p : fio X) : leads I p J -> leads I (done_with p) J.
Proof. intros Hp. apply (leads_bind _ _ J); [done|done|by intros x b]. Qed.

(** ** In any order *)

(** The entry of a webhook is a new one. *)
Definition fresh_for (c : fee_call) (b : Books) : Prop :=
  match c with ProcessWebhook _ entryId _ _ _ => ledger b !! entryId = None | _ => True end.

(** One call is served, or time passes and others write their own tables. *)
Inductive served (b : Books) : Books -> Prop :=
| serve c : fresh_for c b -> served b (fst (run (run_fee closedTrades registry opens message_of c) b))
| elsewhere accounts owners countries clock :
    served b (mkBooks (policies b) (performances b) (assessments b) (ledger b) (invoices b) (payments b) (webhooks b) (cycles b) (runs b)
                (reconciled b) accounts owners countries (sessions b) clock (notes b)).

Lemma square_served b b' : served b b' -> square b -> square b'.
Proof.
  intros [c Hf|] Hb; [|by apply (square_same b)]. revert Hb. destruct c; cbn [run_fee fresh_for] in *; intros Hb.
  - by apply (keeps_done square square _ (keeps_create_policy _ _ _)).
  - by apply (keeps_done square square _ (keeps_deactivate _)).
  - by apply (keeps_done square square _ (keeps_calculate _ _ _ _ _ _)).
  - by apply (keeps_done square square _ (keeps_invoicing _ _)).
  - apply square_after; [|done]. apply guar_done; [apply _|]. unfold recordLedgerEntry. sq_walk.
  - apply square_after; [|done]. apply guar_done; [apply _|]. apply sq_reconciliation.
  - apply square_after; [|done]. apply guar_done; [apply _|]. apply sq_checkout.
  - by apply (keeps_done (calm entryId) square _ (webhook_square _ _ _ _ _)).
  - by apply (keeps_done square square _ (keeps_cycle_create _ _ _ _ _)).
  - by apply (keeps_done square square _ (keeps_cycle _ _)).
  - by apply (keeps_done square square _ (keeps_cycle_for _ _ _ _ _ _)).
  - apply square_after; [|done]. apply guar_done; [apply _|]. unfold cancelBillingCycle, getBillingCycle, cycle_of. sq_walk.
Qed.

(** C10: Profit is charged for once.  The fee services serve any calls one after the other -
    policies, reconciliations, manual entries, assessments, invoices, checkouts, webhooks of any
    kind, verified or not, delivered again or late, billing cycles of any periods, overlapping
    or repeated - from books that add up, such as empty ones.  Afterwards every account's
    high-water mark is the sum of the profits that its paid assessments were charged for, and
    its total of fees the sum of their fees, which is at most the mark: no profit below the mark
    is charged again.  At most one assessment of an account waits for its payment; it starts from
    that mark, is for exactly the result above it, and its fee lies between one minor unit and
    that profit.  And every paid assessment has a paid invoice. *)
Theorem profit_charged_once b b' :
  rtc served b b' -> square b ->
  (forall id p, performances b' !! id = Some p ->
    paid_sum as_realisedProfitForFee (tp_scope p) b' = tp_currentHighWaterMark p /\
    paid_sum as_feeAmount (tp_scope p) b' = tp_totalFeesCharged p /\
    0 <= tp_totalFeesCharged p <= tp_currentHighWaterMark p /\
    forall aid a, assessments b' !! aid = Some a -> as_scope a = tp_scope p -> outstanding a = true ->
      as_startingHighWaterMark a = tp_currentHighWaterMark p /\
      as_realisedProfitForFee a = as_endingRealisedBalance a - tp_currentHighWaterMark p /\
      0 < as_feeAmount a <= as_realisedProfitForFee a /\
      forall aid' a', assessments b' !! aid' = Some a' -> as_scope a' = tp_scope p -> outstanding a' = true -> aid' = aid) /\
  (forall id a, assessments b' !! id = Some a -> as_status a = A_PAID ->
    exists i v, as_invoiceId a = Some i /\ invoices b' !! i = Some v /\ iv_status v = I_PAID).
Proof.
  intros Hs Hb. assert (square b') as Hsq by (induction Hs as [|x y z Hxy _ IH]; [done|apply IH; by eapply square_served]).
  split; [|exact (sq_paid b' Hsq)]. intros id p Hp. destruct (sq_sums b' Hsq id p Hp) as [Hm Hf]. split; [done|]. split; [done|].
  split; [by apply (mark_bounds id p b')|]. intros aid a Ha Hsc Ho.
  destruct (sq_account b' Hsq aid a Ha) as [(Hprofit & Hfee & _) _]; [unfold chargeable; by rewrite Ho|].
  pose proof (sq_start b' Hsq aid a id p Ha Ho Hp (eq_sym Hsc)) as Hstart. rewrite <- Hstart. repeat split; try done; try lia.
  intros aid' a' Ha' Hsc' Ho'. apply (ix_slot _ _ _ _ (sq_assessments b' Hsq) aid' aid a' a Ha' Ha Ho' Ho). congruence.
Qed.
End services.
