(* ===== verification/FeeRaces.v ===== *)
(** * What the fee services get wrong, and that they can get things right

    Sample books and calls: an account that is assessed, invoiced and paid, the witnesses of the
    theorems about the fees, and the ways in which a charge or a cycle goes wrong. *)

From S2P Require Import Prelude Prog Assured JsString Store Sums Capital FeeRates ClosedTrades FeeBooks TradeLedger FeeAssessments FeePayments BillingCycles.
From S2P Require Import FeeGuarantees FeeSpecs.
From stdpp Require Import relations.
Open Scope string_scope.
Open Scope list_scope.
Open Scope Z_scope.
Local Open Scope prog_scope.

(** ** Samples *)

Definition day (n : Z) : Z := n * DAY_MS.

Definition fee_registry : list PaymentProvider := [mkProvider "stripe" ["USD"] ["*"] true].

Definition fee_opens (provider : string) (n : nat) : result exn string :=
  Ok (match n with O => "cs_1" | S O => "cs_2" | _ => "cs_3" end).

Definition fee_message (e : exn) : string := "failed".

(** One trade: a profit of 102.00, less 2.00 of commission, closed at the end of day 30. *)
Definition fee_trade : BrokerClosedTrade :=
  mkClosed (Some "T1") (Some "EURUSD") "BUY" (Some "1.00") (Some "1.1") (Some "1.2") (Some "102.00") (Some "-2.00") None
    (Some (day 29)) (Some (day 30)).

Definition fee_trades (runId connectionId : string) (from to : Z) : result exn (list BrokerClosedTrade) :=
  Ok (if (from <=? day 30) && (day 30 <=? to) then [fee_trade] else []).

Definition fee_scope : Scope := ("u1", Some "c1").

Definition fee_books : Books :=
  mkBooks {["fp" := mkPolicy "fp" None 200000 true]} ∅ ∅ ∅ ∅ ∅ ∅ ∅ ∅ ∅
    {["c1" := mkLiveAccount "u1" true (Some "USD") "demo"]} {["u1" := Some "DE"]} {["DE" := mkCountry false ["stripe"]]} [] (day 1000) [].

Definition trade_ids (prefix : string) (n : nat) : string * string :=
  match n with O => (prefix +:+ "t0", prefix +:+ "l0") | _ => (prefix +:+ "tn", prefix +:+ "ln") end.

Definition cycle_ids (prefix : string) : CycleIds :=
  mkCycleIds (prefix +:+ "run") (trade_ids prefix) (prefix +:+ "as") (prefix +:+ "perf")
    (mkInvoiceIds (prefix +:+ "iv") (prefix +:+ "py") (prefix +:+ "le") (prefix +:+ "no")).

(** A cycle of the account, its checkout and the event of its payment. *)
Definition bill (prefix : string) (from to : Z) : fee_call :=
  RunBillingCycleForUserPeriod (prefix +:+ "bc") (cycle_ids prefix) fee_scope from to "USD".

Definition checkout (prefix : string) : fee_call := InitiateCheckout (prefix +:+ "iv") "u1" false (mkOptions None None None).

Definition succeeded (eventId reference : string) (amount : Z) : ProviderWebhookEvent :=
  mkEvent PAYMENT_SUCCEEDED eventId (Some reference) (Some (Finite (mkDouble amount 0))) (Some "usd").

Definition deliver (prefix eventId reference : string) (amount : Z) : fee_call :=
  ProcessWebhook (prefix +:+ "wh") (prefix +:+ "paid") "stripe" true (succeeded eventId reference amount).

Abbreviation fee_run := (run_fee fee_trades fee_registry fee_opens fee_message).

(** The calls one after the other. *)
Definition serve_calls (cs : list fee_call) (b : Books) : Books := foldl (fun b c => fst (run (fee_run c) b)) b cs.

Fixpoint fresh_calls (cs : list fee_call) (b : Books) : bool :=
  match cs with
  | [] => true
  | c :: cs =>
      (match c with ProcessWebhook _ entryId _ _ _ => bool_decide (ledger b !! entryId = None) | _ => true end) &&
      fresh_calls cs (fst (run (fee_run c) b))
  end.

Lemma serve_all cs b : fresh_calls cs b = true -> rtc (served fee_trades fee_registry fee_opens fee_message) b (serve_calls cs b).
Proof.
  revert b. induction cs as [|c cs IH]; intros b; [reflexivity|]. cbn [fresh_calls serve_calls foldl]. intros [Hc Hcs]%andb_true_iff.
  eapply rtc_l; [|by apply IH]. apply serve. destruct c; try done. cbn. by bool_to_prop.
Qed.

Definition billed : list fee_call := [bill "a" (day 0) (day 30); checkout "a"; deliver "a" "ev1" "cs_1" 2000].

(** What an account shows: its mark and its fees, and its paid profits. *)
Definition account_of (b : Books) : option (Z * Z) := charged <$> find_row (of_scope fee_scope) (performances b).

Example billed_account : account_of (serve_calls billed fee_books) = Some (10000, 2000).
Proof. vm_compute. reflexivity. Qed.

Lemma square_fee_books : square fee_books.
Proof.
  split; try (split; intros *; cbn; rewrite lookup_empty; done); try (intros *; cbn; rewrite lookup_empty; done).
  cbn. intros id p [<- <-]%lookup_singleton_Some. unfold storable. cbn. lia.
Qed.

Lemma booked_fee_books : booked fee_books.
Proof. split; [split|]; intros *; cbn; rewrite lookup_empty; done. Qed.

Definition billed_books : Books := serve_calls billed fee_books.

(** ** The theorems apply *)

Lemma profit_charged_once_witness :
  rtc (served fee_trades fee_registry fee_opens fee_message) fee_books billed_books /\ square fee_books /\
  exists id p, performances billed_books !! id = Some p /\ charged p = (10000, 2000) /\
    paid_sum as_realisedProfitForFee (tp_scope p) billed_books = 10000.
Proof.
  assert (rtc (served fee_trades fee_registry fee_opens fee_message) fee_books billed_books) as Hs by (apply serve_all; vm_compute; reflexivity).
  split; [exact Hs|]. split; [exact square_fee_books|].
  destruct (profit_charged_once fee_trades fee_registry fee_opens fee_message fee_books billed_books Hs square_fee_books) as [Hp _].
  assert (exists p, performances billed_books !! "aperf" = Some p /\ charged p = (10000, 2000)) as (p & Hlook & Hc).
  { eexists. split; [vm_compute; reflexivity|reflexivity]. }
  exists "aperf", p. split; [exact Hlook|]. split; [exact Hc|]. destruct (Hp "aperf" p Hlook) as [Hsum _].
  etransitivity; [exact Hsum|]. by injection Hc as -> _.
Defined.

(** Two reconciliations of overlapping windows race. *)
Definition racing : list fee_call :=
  [RunReconciliation "r1" (trade_ids "x") "u1" "c1" (day 0) (day 30); RunReconciliation "r2" (trade_ids "y") "u1" "c1" (day 20) (day 60)].

(** [k] calls take turns, [n] steps each. *)
Definition turns (k n : nat) : list (nat * delivery) := concat (replicate n ((fun i => (i, Exec)) <$> seq 0 k)).

Lemma trades_ledgered_once_witness :
  booked fee_books /\
  let b' := fst (exec DbUnavailable (turns 2 20) (fee_books, fee_run <$> racing)) in
  exists id t l e, reconciled b' !! id = Some t /\ reported fee_trades t /\ rt_ledgerEntryId t = Some l /\
    ledger b' !! l = Some e /\ le_entryType e = REALISED_TRADE_PROFIT /\ le_amount e = 10000 /\ le_occurredAt e = day 30 /\
    size (ledger b') = 1%nat.
Proof.
  split; [exact booked_fee_books|]. intros b'.
  destruct (trades_ledgered_once fee_trades fee_registry fee_opens fee_message racing (turns 2 20) fee_books booked_fee_books) as (_ & _ & Ht).
  assert (exists t, reconciled b' !! "xt0" = Some t /\ net_result t = 10000 /\ rt_closedAt t = day 30) as (t & Hlook & Hn & Hc).
  { eexists. split; [vm_compute; reflexivity|split; reflexivity]. }
  destruct (Ht "xt0" t Hlook) as (_ & [Hold|Hrep] & _ & _ & He); [vm_compute in Hold; discriminate Hold|].
  destruct (He ltac:(lia)) as (l & e & Hl & Hle & [_ _ Ham Hprofit _ _ _ Htime] & _).
  exists "xt0", t, l, e. split; [exact Hlook|]. split; [exact Hrep|]. split; [exact Hl|]. split; [exact Hle|].
  split; [apply Hprofit; lia|]. split; [congruence|]. split; [congruence|]. vm_compute. reflexivity.
Defined.

(** A cycle, its checkout, and a webhook whose signature does not verify. *)
Definition unpaid_calls : list fee_call :=
  [bill "a" (day 0) (day 30); checkout "a"; ProcessWebhook "wh" "paid" "stripe" false (succeeded "ev1" "cs_1" 2000)].

Lemma only_webhooks_pay_witness :
  forallb (fun c => negb (paying c)) unpaid_calls = true /\
  let b' := fst (exec DbUnavailable (turns 3 60) (fee_books, fee_run <$> unpaid_calls)) in
  exists id p, performances b' !! id = Some p /\ tp_totalRealisedProfit p = 10000 /\ tp_currentHighWaterMark p = 0 /\ tp_totalFeesCharged p = 0.
Proof.
  assert (forallb (fun c => negb (paying c)) unpaid_calls = true) as Hp by reflexivity. split; [exact Hp|]. intros b'.
  destruct (only_webhooks_pay fee_trades fee_registry fee_opens fee_message unpaid_calls (turns 3 60) fee_books Hp) as (_ & _ & Hnew).
  assert (exists p, performances b' !! "aperf" = Some p /\ tp_totalRealisedProfit p = 10000) as (p & Hlook & Ht).
  { eexists. split; [vm_compute; reflexivity|reflexivity]. }
  exists "aperf", p. split; [exact Hlook|]. split; [exact Ht|]. apply (Hnew "aperf" p); [reflexivity|exact Hlook].
Defined.

(** ** Charges that go wrong *)

Definition unpaid_books : Books := serve_calls [bill "a" (day 0) (day 30); checkout "a"] fee_books.

(** The webhook up to the update of the mark, which does not reach the database. *)
Definition mark_lost : list (nat * delivery) := replicate 13 (0%nat, Exec) ++ [(0%nat, Down)] ++ replicate 5 (0%nat, Exec).

Definition after_loss : Books := fst (exec DbUnavailable mark_lost (unpaid_books, [fee_run (deliver "a" "ev1" "cs_1" 2000)])).

Definition after_redelivery : Books := serve_calls [deliver "b" "ev1" "cs_1" 2000] after_loss.

(** A month without a trade. *)
Definition quiet_month : list fee_call := [bill "b" (day 31) (day 60); checkout "b"; deliver "c" "ev2" "cs_2" 2000].

(** Whether each delivered event is recorded as processed. *)
Definition processed_events (b : Books) : list bool := (fun x => wh_processed (snd x)) <$> map_to_list (webhooks b).

Definition fees_paid (b : Books) : Z := msum (fun e => if bool_decide (le_entryType e = FEE_PAID) then le_amount e else 0) (ledger b).
Definition realised (b : Books) : Z := msum rt_netRealisedPnl (reconciled b).

(** ** A payment that was half recorded *)

Section settled.
Context (closedTrades : string -> string -> Z -> Z -> result exn (list BrokerClosedTrade)) (registry : list PaymentProvider)
        (opens : string -> nat -> result exn string) (message_of : exn -> string) (providerId : string) (event : ProviderWebhookEvent).

Definition redelivery (d : string * string * bool) : fio unit :=
  run_fee closedTrades registry opens message_of (ProcessWebhook (fst (fst d)) (snd (fst d)) providerId (snd d) event).

(** Whatever payment the event names, its assessment is PAID. *)
Definition settled (b : Books) : Prop :=
  forall pid p i aid a, payments b !! pid = Some p -> py_provider p = providerId ->
    py_providerTransactionReference p = ev_providerTransactionReference event -> py_invoiceId p = Some i ->
    assessments b !! aid = Some a -> as_invoiceId a = Some i -> as_status a = A_PAID.

(** Only the states of payments, invoices and events move. *)
Definition untouched (b b' : Books) : Prop :=
  performances b' = performances b /\ assessments b' = assessments b /\ ledger b' = ledger b /\
  forall pid p', payments b' !! pid = Some p' -> exists p, payments b !! pid = Some p /\ py_provider p = py_provider p' /\
    py_providerTransactionReference p = py_providerTransactionReference p' /\ py_invoiceId p = py_invoiceId p'.

#[export] Instance untouched_preorder : PreOrder untouched.
Proof.
  split; [intros b; do 3 (split; [done|]); eauto|]. intros x y z (P1 & A1 & L1 & H1) (P2 & A2 & L2 & H2).
  do 3 (split; [congruence|]). intros pid p' Hp. destruct (H2 pid p' Hp) as (q & Hq & ? & ? & ?). destruct (H1 pid q Hq) as (p & Hp1 & ? & ? & ?).
  exists p. split; [done|]. split; [congruence|]. split; congruence.
Qed.

Lemma settled_later b b' : untouched b b' -> settled b -> settled b'.
Proof.
  intros (_ & Ha & _ & Hp) Hs pid p i aid a Hpay Hprov Href Hinv Hass. rewrite Ha in Hass. destruct (Hp pid p Hpay) as (q & Hq & ? & ? & ?).
  apply (Hs pid q i aid a); [done|congruence..|done].
Qed.

Lemma untouched_same b b' :
  performances b' = performances b -> assessments b' = assessments b -> ledger b' = ledger b -> payments b' = payments b -> untouched b b'.
Proof. intros ? ? ? Hp. do 3 (split; [done|]). rewrite Hp. eauto. Qed.

Lemma still_note action id : guar untouched (fee_note action id).
Proof. apply guar_note. intros; by apply untouched_same. Qed.

Lemma still_payment id st : guar untouched (payment_update id (with_payment_status st)).
Proof.
  unfold payment_update, payment_cas. apply guar_bind; [|done]. apply guar_op. intros b. destruct (payments b !! id) as [p|] eqn:Hp; [|reflexivity].
  cbn [negb]. destruct (bool_decide (is_Some _)); [reflexivity|]. cbn [fst]. do 3 (split; [done|]). cbn [payments set_payments]. intros pid p'. destruct (decide (pid = id)) as [->|Hne].
  - rewrite lookup_insert_eq. intros [= <-]. by exists p.
  - rewrite lookup_insert_ne by congruence. eauto.
Qed.

Lemma still_invoice id f : guar untouched (invoice_update id f).
Proof. apply guar_on_table; [apply _|]. intros; by apply untouched_same. Qed.

Lemma still_webhook w : guar untouched (webhook_insert w).
Proof. apply guar_on_table; [apply _|]. intros; by apply untouched_same. Qed.

Lemma still_webhook_update id f : guar untouched (webhook_update id f).
Proof. apply guar_on_table; [apply _|]. intros; by apply untouched_same. Qed.

#[local] Hint Resolve still_note still_payment still_invoice still_webhook still_webhook_update : irex.

Abbreviation sure := (assured (A := _) DbUnavailable settled untouched).

Lemma sure_still {A} K (p : fio A) : stable untouched K -> guar untouched p -> sure (fun _ => K) K p.
Proof. intros HK Hp. apply assured_guar; [apply settled_later|done|done]. Qed.

(** What is known of a payment the event named. *)
Definition paid_for_event (p : PaymentTransaction) (b : Books) : Prop :=
  forall i aid a, py_invoiceId p = Some i -> assessments b !! aid = Some a -> as_invoiceId a = Some i -> as_status a = A_PAID.

Lemma paid_for_stable p : stable untouched (paid_for_event p).
Proof. intros b b' (_ & Ha & _) Hp i aid a. rewrite Ha. apply Hp. Qed.

Lemma sure_succeeded entryId : sure (fun _ _ => True) (fun _ => True) (handlePaymentSucceeded entryId providerId event).
Proof.
  unfold handlePaymentSucceeded.
  apply (assured_bind DbUnavailable settled untouched (fun found b => match found with Some p => paid_for_event p b | None => True end)).
  { apply (assured_read DbUnavailable settled untouched); [intros [p|]; [apply paid_for_stable|done]|]. intros b Hs _. unfold referenced_payment.
    destruct (given (ev_providerTransactionReference event)) as [r|] eqn:Hg; [|done]. destruct (find_row _ _) as [p|] eqn:Hf; [|done].
    apply find_row_some in Hf as (pid & Hp & [Href Hprov]%andb_true_iff). bool_to_prop. intros i aid a Hi Ha Hai.
    apply (Hs pid p i aid a); try done. rewrite Href. unfold given in Hg. by repeat case_match; simplify_eq. }
  intros [p|]; [|done]. destruct (negb _).
  { eapply assured_post; [|eapply sure_still; [apply paid_for_stable|apply still_note]]. done. }
  apply (assured_bind DbUnavailable settled untouched (fun _ => paid_for_event p)); [apply sure_still; [apply paid_for_stable|apply still_payment]|]. intros _.
  apply (assured_bind DbUnavailable settled untouched (fun _ => paid_for_event p)); [apply sure_still; [apply paid_for_stable|apply still_note]|]. intros _.
  apply (assured_bind DbUnavailable settled untouched (fun _ => paid_for_event p)).
  { apply sure_still; [apply paid_for_stable|]. destruct (py_invoiceId p); guar_walk; eauto with irex. }
  intros _. destruct (bool_decide (py_purpose p = PERFORMANCE_FEE)); [|done]. unfold handlePerformanceFeePaymentSucceeded. destruct (py_invoiceId p) as [i|] eqn:Hi; [|done].
  apply (assured_bind DbUnavailable settled untouched (fun found _ => match found with Some a => as_status a = A_PAID | None => True end)).
  { apply (assured_read DbUnavailable settled untouched); [by intros [a|] ? ? ?|]. intros b _ Hp. destruct (find_row _ _) as [a|] eqn:Hf; [|done].
    apply find_row_some in Hf as (aid & Ha & Hai). bool_to_prop. by apply (Hp i aid a). }
  intros [a|]; [|done]. case_bool_decide as Hpaid; [done|]. apply (assured_weaken DbUnavailable settled untouched _ (fun s => as_status a = A_PAID /\ True)).
  { by intros s _ ?. }
  by apply assured_pure.
Qed.

Lemma sure_delivery d : sure (fun _ _ => True) (fun _ => True) (redelivery d).
Proof.
  destruct d as [[newId entryId] verified]. unfold redelivery. cbn [fst snd].
  assert (forall A (p : fio A), guar untouched p -> sure (fun _ _ => True) (fun _ => True) p) as Hstill
    by (intros A p Hp; apply sure_still; done).
  cbn [run_fee]. apply (assured_bind DbUnavailable settled untouched (fun _ _ => True)); [|done]. unfold processWebhook. case_match; [done|]. case_match; [|done].
  apply (assured_bind DbUnavailable settled untouched (fun _ _ => True)); [apply Hstill, still_note|]. intros _.
  destruct verified; cbn [negb]; [|apply Hstill; guar_walk; apply still_note].
  apply (assured_bind DbUnavailable settled untouched (fun _ _ => True)); [apply Hstill; unfold record_event; guar_walk; apply still_webhook|].
  intros [w|]; [|done]. apply (assured_bind DbUnavailable settled untouched (fun _ _ => True)); [|intros r; apply Hstill; guar_walk; apply still_webhook_update].
  eapply assured_post; [|apply (assured_attempt DbUnavailable settled untouched (fun _ _ => True))]; [done|].
  apply (assured_bind DbUnavailable settled untouched (fun _ _ => True)); [|intros _; apply Hstill, still_webhook_update].
  unfold handleEvent. case_match; try done; [apply sure_succeeded| |apply sure_succeeded].
  apply Hstill. unfold handlePaymentFailed. guar_walk; eauto with irex.
Qed.

(** C33: A payment that was half recorded is never made up for.  The webhook of a payment marks
    the assessment PAID before it enters the fee and raises the high-water mark.  Once the
    assessment is PAID, the event may be delivered again and again, in any interleaving and
    with any statement or acknowledgement lost: no delivery changes a mark, an assessment or the
    ledger, so what the first delivery lost stays lost. *)
Theorem half_paid_never_completed sched (deliveries : list (string * string * bool)) b :
  (forall pid p i aid a, payments b !! pid = Some p -> py_provider p = providerId ->
    py_providerTransactionReference p = ev_providerTransactionReference event -> py_invoiceId p = Some i ->
    assessments b !! aid = Some a -> as_invoiceId a = Some i -> as_status a = A_PAID) ->
  let b' := fst (exec DbUnavailable sched (b, redelivery <$> deliveries)) in
  performances b' = performances b /\ assessments b' = assessments b /\ ledger b' = ledger b.
Proof.
  intros Hs. cbv zeta.
  destruct (exec_assured DbUnavailable settled untouched (fun _ _ => True) sched (b, redelivery <$> deliveries))
    as (_ & (? & ? & ? & _) & _); [exact Hs| |done].
  apply Forall_fmap, Forall_true. intros d. apply sure_delivery.
Qed.
End settled.

(** The account made 100.00 and was invoiced 20.00; the statement that raises the mark after the
    payment is lost.  The redelivery leaves the mark at 0 and is recorded as processed, and the
    next cycle, over a month without a trade, charges the same profit again. *)
Lemma half_paid_never_completed_witness :
  processed_events after_loss = [false] /\ fees_paid after_loss = 2000 /\ account_of after_loss = Some (0, 0) /\
  performances after_redelivery = performances after_loss /\ ledger after_redelivery = ledger after_loss /\
  processed_events after_redelivery = [true] /\
  let b := serve_calls quiet_month after_redelivery in
  realised b = 10000 /\ fees_paid b = 4000 /\ paid_sum as_realisedProfitForFee fee_scope b = 20000 /\ account_of b = Some (10000, 2000).
Proof.
  assert (settled "stripe" (succeeded "ev1" "cs_1" 2000) after_loss) as Hs.
  { assert (Forall (fun x => as_status (snd x) = A_PAID) (map_to_list (assessments after_loss))) as Hall
      by (vm_compute; repeat constructor).
    intros pid p i aid a _ _ _ _ Ha _. rewrite Forall_forall in Hall. apply (Hall (aid, a)). by apply elem_of_map_to_list. }
  destruct (half_paid_never_completed fee_trades fee_registry fee_opens fee_message "stripe" (succeeded "ev1" "cs_1" 2000)
    (replicate 40 (0%nat, Exec)) [("bwh", "bpaid", true)] after_loss Hs) as (Hp & _ & Hl).
  assert (fst (exec DbUnavailable (replicate 40 (0%nat, Exec)) (after_loss,
    redelivery fee_trades fee_registry fee_opens fee_message "stripe" (succeeded "ev1" "cs_1" 2000) <$> [("bwh", "bpaid", true)])) =
    after_redelivery) as Heq by (vm_compute; reflexivity).
  rewrite Heq in Hp, Hl.
  do 3 (split; [vm_compute; reflexivity|]). split; [exact Hp|]. split; [exact Hl|]. split; [vm_compute; reflexivity|].
  vm_compute. repeat split.
Defined.

(** ** Two assessments at once *)

(** [p] becomes [p'] by statements that only read [b]. *)
Inductive reads {A} (b : Books) : fio A -> fio A -> Prop :=
| reads_done p : reads b p p
| reads_more X (act : Books -> Books * result exn X) k r p : act b = (b, r) -> reads b (k r) p -> reads b (Op act k) p.

Lemma reads_run {A} b (p p' : fio A) : reads b p p' -> run p b = run p' b.
Proof. induction 1 as [|X act k r p Hact _ IH]; [done|]. cbn [run]. by rewrite Hact. Qed.

Definition on_time (sched : list (nat * delivery)) : Prop := Forall (fun x => snd x = Exec) sched.

Lemma exec_join {A} s1 s2 (c : Books * list (fio A)) : exec DbUnavailable (s1 ++ s2) c = exec DbUnavailable s2 (exec DbUnavailable s1 c).
Proof. revert c. induction s1 as [|[i d] s1 IH]; intros c; [done|]. cbn [app exec]. apply IH. Qed.

Lemma exec_reads {A} i b (p p' : fio A) ps : reads b p p' -> ps !! i = Some p ->
  exists sched, on_time sched /\ exec DbUnavailable sched (b, ps) = (b, <[i:=p']> ps).
Proof.
  intros Hr. revert ps. induction Hr as [p|X act k r p Hact _ IH]; intros ps Hi.
  - exists []. split; [constructor|]. cbn [exec]. by rewrite list_insert_id.
  - destruct (IH (<[i:=k r]> ps)) as (sched & Ht & He); [apply list_lookup_insert_eq; by eapply lookup_lt_Some|].
    exists ((i, Exec) :: sched). split; [by constructor|]. cbn [exec]. unfold step_at. cbn [fst snd]. rewrite Hi. cbn [step1].
    rewrite Hact, He, list_insert_insert_eq. done.
Qed.

(** A call that has its way answers as it does alone. *)
Lemma exec_alone {A} i b b' (p : fio A) a ps : run p b = (b', Ok a) -> ps !! i = Some p ->
  exists sched, on_time sched /\ exec DbUnavailable sched (b, ps) = (b', <[i:=Ret a]> ps).
Proof.
  revert b ps. induction p as [x|e|X act k IH]; intros b ps Hr Hi; cbn [run] in Hr.
  - injection Hr as <- ->. exists []. split; [constructor|]. cbn [exec]. by rewrite list_insert_id.
  - done.
  - destruct (act b) as [b1 r] eqn:Hact. destruct (IH r b1 (<[i:=k r]> ps) Hr) as (sched & Ht & He);
      [apply list_lookup_insert_eq; by eapply lookup_lt_Some|].
    exists ((i, Exec) :: sched). split; [by constructor|]. cbn [exec]. unfold step_at. cbn [fst snd]. rewrite Hi. cbn [step1].
    rewrite Hact, He, list_insert_insert_eq. done.
Qed.

(** The writes of a calculation. *)
Definition record_assessment (perf : Performance) (total : Z) (a : Assessment) : fio Assessment :=
  do! assessment_insert a in
  let* at_ := look clock in
  do! performance_update (tp_id perf) (with_total total at_) [total] in
  do! fee_note "PERFORMANCE_FEE_ASSESSMENT_CALCULATED" (as_id a) in
  Ret a.

Lemma reads_bind_look {X A} b (f : Books -> X) (k : X -> fio A) p : reads b (k (f b)) p -> reads b (bind (look f) k) p.
Proof. intros Hk. eapply reads_more; [reflexivity|]. exact Hk. Qed.

(** A calculation for a period without an assessment first only reads. *)
Lemma calculation_reads newId perfId s currency from to perf b b' a :
  find_row (of_scope s) (performances b) = Some perf -> findExistingAssessment s from to b = None ->
  run (calculateAssessment newId perfId s currency from to) b = (b', Ok a) ->
  exists total, reads b (calculateAssessment newId perfId s currency from to) (record_assessment perf total a) /\
    findOutstandingAssessment s b = None /\
    as_id a = newId /\ as_scope a = s /\ as_periodStart a = from /\ as_periodEnd a = to /\
    as_startingHighWaterMark a = tp_currentHighWaterMark perf /\ (0 < as_feeAmount a -> as_status a = A_ASSESSED).
Proof.
  intros Hperf Hex Hrun. unfold calculateAssessment in *. destruct (validateAndNormalizeCurrency currency) as [cur|e]; [|done].
  cbn [of_result bind] in *. unfold findActiveGlobalPolicy in *. rewrite !run_bind, run_read in Hrun. cbn [bind] in *.
  destruct (active_policies b) as [|policy [|]] eqn:Hpol; try done. cbn [run] in Hrun.
  rewrite run_bind, run_read, Hex in Hrun. rewrite run_bind, run_read in Hrun.
  destruct (findOutstandingAssessment s b) eqn:Hout; [done|]. rewrite run_bind, run_read, Hperf in Hrun.
  destruct (negb _) eqn:Hcur; [done|]. unfold assess in Hrun. rewrite run_bind, run_read in Hrun.
  destruct (negb (forallb _ _)) eqn:Hsame; [done|]. cbv zeta in Hrun.
  destruct (calculateHighWaterMarkFee _ _ _) as [c|e] eqn:Hfee; [|done]. cbn [of_result bind] in Hrun.
  set (row := assessment_row newId s cur from to policy perf _ c) in Hrun.
  assert (row = a) as Ha.
  { rewrite run_bind in Hrun. destruct (run (assessment_insert row) b) as [? [[]|]]; [|done]. rewrite run_bind, run_read, run_bind in Hrun.
    destruct (run (performance_update _ _ _) _) as [? [[]|]]; [|done]. rewrite run_bind in Hrun.
    destruct (run (fee_note _ _) _) as [? [[]|]]; [|done]. cbn [run] in Hrun. congruence. }
  subst a. exists (tp_totalRealisedProfit perf + ps_realised (period_sums (period_entries s from to b))). split; [|split; [done|]].
  - eapply reads_more; [reflexivity|]. cbn beta. rewrite Hpol. cbn [bind].
    apply reads_bind_look. rewrite Hex. apply reads_bind_look. rewrite Hout. apply reads_bind_look. rewrite Hperf, Hcur.
    unfold assess. apply reads_bind_look. rewrite Hsame. cbv zeta. rewrite Hfee. cbn [of_result bind]. apply reads_done.
  - do 5 (split; [done|]). cbn. intros Hpos. by rewrite (proj2 (Z.ltb_lt _ _) Hpos).
Qed.

Lemma run_record perf total a b b' :
  run (record_assessment perf total a) b = (b', Ok a) <->
  (exists m, rbind (bigints [as_startingHighWaterMark a; as_endingRealisedBalance a; as_depositsExcluded a; as_withdrawalsAdjusted a;
                             as_realisedProfitForFee a; as_feeAmount a]) (fun _ =>
     insert_row "performance_fee_assessments_pkey"
       (match snd (as_scope a) with Some _ => "idx_pfa_unique_period_with_broker" | None => "idx_pfa_unique_period_no_broker" end)
       (same_period a) (as_id a) a (assessments b)) = Ok m /\ bigints [total] = Ok tt /\
     b' = set_notes (notes b ++ [("PERFORMANCE_FEE_ASSESSMENT_CALCULATED", as_id a)])
       (set_performances (patch_row (with_total total (clock b)) (tp_id perf) (performances b)) (set_assessments m b))).
Proof.
  unfold record_assessment. rewrite run_bind. unfold assessment_insert. rewrite run_op. unfold on_table.
  destruct (rbind _ _) as [m|e]; [|by split; [|intros (? & ? & _)]]. rewrite run_bind, run_read, run_bind. unfold performance_update.
  rewrite run_op. unfold on_table. destruct (bigints [total]) as [[]|e] eqn:Ht; cbn [rmap]; [|split; [done|by intros (? & _ & ? & _)]].
  rewrite run_bind. unfold fee_note. rewrite run_catch. unfold modify. cbn [run fst snd]. split.
  - intros [= <-]. by exists m.
  - intros (m' & [= <-] & _ & ->). done.
Qed.

Lemma insert_row_after {R} pkey index clashes id0 (r0 : R) id r m m' :
  insert_row pkey index clashes id r m = Ok m' -> id0 <> id -> clashes r0 = false ->
  insert_row pkey index clashes id r (<[id0 := r0]> m) = Ok (<[id := r]> (<[id0 := r0]> m)).
Proof.
  intros (_ & Hid & Hc)%insert_row_ok Hne Hr0. unfold insert_row. rewrite bool_decide_eq_false_2
    by (rewrite lookup_insert_ne by done; rewrite Hid; by intros [? ?]).
  destruct (find_row clashes (<[id0:=r0]> m)) as [x|] eqn:Hf; [|done]. exfalso. apply find_row_some in Hf as (j & Hj & Hx).
  apply lookup_insert_Some in Hj as [[_ <-]|[_ Hj]]; [congruence|]. by rewrite (Hc j x Hj) in Hx.
Qed.

Lemma find_row_beside {R} (f : R -> bool) id r (m : gmap string R) : find_row f m = None -> f r = false -> find_row f (<[id := r]> m) = None.
Proof.
  intros Hn Hr. destruct (find_row f (<[id := r]> m)) as [x|] eqn:Hf; [|done]. exfalso. apply find_row_some in Hf as (j & Hj & Hx).
  apply lookup_insert_Some in Hj as [[_ <-]|[_ Hj]]; [congruence|]. by rewrite (proj1 (find_row_none _ _) Hn j x Hj) in Hx.
Qed.

(** With an outstanding assessment of another period, a calculation that would go through is
    refused. *)
Lemma calculation_refused newId perfId s currency from to perf b b' a c :
  find_row (of_scope s) (performances b) = Some perf -> findExistingAssessment s from to b = None ->
  run (calculateAssessment newId perfId s currency from to) b = (b', Ok a) ->
  policies c = policies b -> findExistingAssessment s from to c = None -> findOutstandingAssessment s c <> None ->
  exists message, run (calculateAssessment newId perfId s currency from to) c = (c, Err (ConflictException message)).
Proof.
  intros Hperf Hex Hrun Hpol Hexc Hout. unfold calculateAssessment in *. destruct (validateAndNormalizeCurrency currency) as [cur|e]; [|done].
  cbn [of_result bind] in *. unfold findActiveGlobalPolicy in *. rewrite run_bind, run_bind, run_read in Hrun.
  assert (active_policies c = active_policies b) as Hact by (unfold active_policies; by rewrite Hpol).
  destruct (active_policies b) as [|policy [|]] eqn:Hb; try done. eexists.
  rewrite run_bind, run_bind, run_read, Hact. cbn [run]. rewrite run_bind, run_read, Hexc, run_bind, run_read.
  destruct (findOutstandingAssessment s c); done.
Qed.

(** C34: Two assessments calculated at once charge from one mark.  The check for an outstanding
    assessment is a read before the insert, and no index stands behind it.  Let an account with
    a record have no assessment for either of two different periods, and let each calculation
    alone go through.  One after the other, the second is refused once the first has a fee.
    Run together, with no statement lost, they both go through: under some interleaving both
    answer what they do alone, and both assessments are stored, from the same high-water mark,
    each awaiting its invoice when it has a fee. *)
Theorem assessed_twice_together s currency1 currency2 perf id1 p1 from1 to1 id2 p2 from2 to2 b b1 b2 a1 a2 :
  find_row (of_scope s) (performances b) = Some perf ->
  findExistingAssessment s from1 to1 b = None -> findExistingAssessment s from2 to2 b = None ->
  (from1, to1) <> (from2, to2) -> id1 <> id2 ->
  let first := calculateAssessment id1 p1 s currency1 from1 to1 in
  let second := calculateAssessment id2 p2 s currency2 from2 to2 in
  run first b = (b1, Ok a1) -> run second b = (b2, Ok a2) ->
  (0 < as_feeAmount a1 -> exists message, run second b1 = (b1, Err (ConflictException message))) /\
  exists sched b', on_time sched /\ exec DbUnavailable sched (b, [first; second]) = (b', [Ret a1; Ret a2]) /\
    assessments b' !! id1 = Some a1 /\ assessments b' !! id2 = Some a2 /\ as_scope a1 = s /\ as_scope a2 = s /\
    as_startingHighWaterMark a1 = tp_currentHighWaterMark perf /\ as_startingHighWaterMark a2 = tp_currentHighWaterMark perf /\
    (0 < as_feeAmount a1 -> as_status a1 = A_ASSESSED) /\ (0 < as_feeAmount a2 -> as_status a2 = A_ASSESSED).
Proof.
  cbv zeta. intros Hperf Hex1 Hex2 Hper Hid Hrun1 Hrun2.
  destruct (calculation_reads _ _ _ _ _ _ _ _ _ _ Hperf Hex1 Hrun1) as (total1 & Hr1 & Hout & I1 & S1 & F1 & T1 & M1 & St1).
  destruct (calculation_reads _ _ _ _ _ _ _ _ _ _ Hperf Hex2 Hrun2) as (total2 & Hr2 & _ & I2 & S2 & F2 & T2 & M2 & St2).
  pose proof Hrun1 as Hw1. rewrite (reads_run _ _ _ Hr1) in Hw1. pose proof Hrun2 as Hw2. rewrite (reads_run _ _ _ Hr2) in Hw2.
  pose proof (proj1 (run_record _ _ _ _ _) Hw1) as (m1 & Hm1 & _ & Hb1). apply rbind_ok in Hm1 as (? & Hbig1 & Hm1).
  pose proof (proj1 (run_record _ _ _ _ _) Hw2) as (m2 & Hm2 & Htot2 & _). apply rbind_ok in Hm2 as (u & Hbig2 & Hm2).
  apply insert_row_ok in Hm1 as (-> & _ & _).
  assert (same_period a2 a1 = false) as Hclash.
  { unfold same_period. rewrite F1, T1, F2, T2. apply andb_false_iff. destruct (Z.eqb_spec to1 to2) as [->|]; [left|by right].
    apply andb_false_iff. right. apply Z.eqb_neq. congruence. }
  split.
  - intros Hfee. specialize (St1 Hfee). apply (calculation_refused _ _ _ _ _ _ perf b b2 a2 b1); try done; rewrite Hb1; [done|..];
      unfold findExistingAssessment, findOutstandingAssessment; cbn [assessments set_notes set_performances set_assessments].
    + apply find_row_beside; [done|]. rewrite F1, T1. apply andb_false_iff. destruct (Z.eqb_spec to1 to2) as [->|]; [left|by right].
      apply andb_false_iff. right. apply Z.eqb_neq. congruence.
    + intros Hn. pose proof (proj1 (find_row_none _ _) Hn id1 a1) as H. rewrite I1, lookup_insert_eq in H. specialize (H eq_refl).
      unfold outstanding in H. rewrite S1, St1, !bool_decide_eq_true_2 in H by done. done.
  - destruct (exec_reads 0 b _ _ [calculateAssessment id1 p1 s currency1 from1 to1; calculateAssessment id2 p2 s currency2 from2 to2] Hr1 eq_refl)
      as (sc1 & On1 & E1).
    destruct (exec_reads 1 b _ _ [record_assessment perf total1 a1; calculateAssessment id2 p2 s currency2 from2 to2] Hr2 eq_refl)
      as (sc2 & On2 & E2).
    destruct (exec_alone 0 b b1 _ a1 [record_assessment perf total1 a1; record_assessment perf total2 a2] Hw1 eq_refl) as (sc3 & On3 & E3).
    set (m := <[id2 := a2]> (<[id1 := a1]> (assessments b))).
    assert (exists b', run (record_assessment perf total2 a2) b1 = (b', Ok a2) /\ assessments b' = m) as (b' & Hw & Hm).
    { eexists. split; [apply run_record; exists m; split; [|split; [exact Htot2|reflexivity]]|done].
      rewrite Hbig2. cbn [rbind]. rewrite Hb1. unfold m. cbn [assessments set_notes set_performances set_assessments]. rewrite I1.
      rewrite I2 in Hm2 |- *. by apply (insert_row_after _ _ _ _ _ _ _ _ m2). }
    destruct (exec_alone 1 b1 b' _ a2 [Ret a1; record_assessment perf total2 a2] Hw eq_refl) as (sc4 & On4 & E4).
    exists (sc1 ++ sc2 ++ sc3 ++ sc4), b'. split; [by unfold on_time in *; rewrite !Forall_app|].
    rewrite !exec_join, E1. cbn [insert list_insert]. rewrite E2. cbn [insert list_insert]. rewrite E3. cbn [insert list_insert]. rewrite E4.
    split; [done|]. rewrite Hm. unfold m. rewrite lookup_insert_eq, lookup_insert_ne, lookup_insert_eq by done. done.
Qed.

(** An account with a record, and the trade in its ledger. *)
Definition recorded_books : Books :=
  serve_calls [CalculateAssessment "a0" "p0" fee_scope (Some "USD") (day 1) (day 2);
               RunReconciliation "r1" (trade_ids "x") "u1" "c1" (day 0) (day 30)] fee_books.

Definition profit_and_fee (r : result exn Assessment) : option (Z * Z) :=
  match r with Ok a => Some (as_realisedProfitForFee a, as_feeAmount a) | Err _ => None end.

Lemma recorded_account : charged <$> find_row (of_scope fee_scope) (performances recorded_books) = Some (0, 0).
Proof. vm_compute. reflexivity. Qed.

Lemma calculated_sample :
  profit_and_fee (snd (run (calculateAssessment "a1" "p1" fee_scope (Some "USD") (day 0) (day 30)) recorded_books)) = Some (10000, 2000) /\
  profit_and_fee (snd (run (calculateAssessment "a2" "p2" fee_scope (Some "USD") (day 0) (day 31)) recorded_books)) = Some (10000, 2000).
Proof. split; vm_compute; reflexivity. Qed.

(** Two periods that share the account's only trade, a profit of 100.00: both are charged 20.00
    for it. *)
Lemma assessed_twice_together_witness :
  realised recorded_books = 10000 /\
  exists sched b' a1 a2, on_time sched /\
    exec DbUnavailable sched (recorded_books,
      [calculateAssessment "a1" "p1" fee_scope (Some "USD") (day 0) (day 30); calculateAssessment "a2" "p2" fee_scope (Some "USD") (day 0) (day 31)]) =
      (b', [Ret a1; Ret a2]) /\
    assessments b' !! "a1" = Some a1 /\ assessments b' !! "a2" = Some a2 /\
    as_realisedProfitForFee a1 = 10000 /\ as_realisedProfitForFee a2 = 10000 /\ as_feeAmount a1 = 2000 /\ as_feeAmount a2 = 2000 /\
    as_status a1 = A_ASSESSED /\ as_status a2 = A_ASSESSED.
Proof.
  split; [vm_compute; reflexivity|].
  pose proof recorded_account as X0.
  destruct (find_row (of_scope fee_scope) (performances recorded_books)) as [perf|] eqn:Hperf; [clear X0|done].
  pose proof calculated_sample as [X1 X2].
  destruct (run (calculateAssessment "a1" "p1" fee_scope (Some "USD") (day 0) (day 30)) recorded_books) as [b1 [a1|e]] eqn:H1; [|discriminate X1].
  destruct (run (calculateAssessment "a2" "p2" fee_scope (Some "USD") (day 0) (day 31)) recorded_books) as [b2 [a2|e]] eqn:H2; [|discriminate X2].
  cbn [snd] in X1, X2. injection X1 as P1 F1. injection X2 as P2 F2.
  assert (findExistingAssessment fee_scope (day 0) (day 30) recorded_books = None) as E1 by (vm_compute; reflexivity).
  assert (findExistingAssessment fee_scope (day 0) (day 31) recorded_books = None) as E2 by (vm_compute; reflexivity).
  destruct (assessed_twice_together fee_scope (Some "USD") (Some "USD") perf "a1" "p1" (day 0) (day 30) "a2" "p2" (day 0) (day 31)
    recorded_books b1 b2 a1 a2 Hperf E1 E2 ltac:(intros [=]) ltac:(intros [=]) H1 H2)
    as (_ & sched & b' & Ht & He & A1 & A2 & _ & _ & _ & _ & St1 & St2).
  exists sched, b', a1, a2. repeat (split; [eassumption|]). split; [apply St1; lia|apply St2; lia].
Defined.

(** The next period begins when the last one ended. *)
Definition next_month : list fee_call := [bill "b" (day 30) (day 60); checkout "b"; deliver "b" "ev2" "cs_2" 2000].

(** A trade that closes when a period ends is charged for in the next period too.  Both ends
    of a period are inclusive and periods may share instants.  The account's only trade, a profit
    of 100.00, closes at the instant that ends one period and begins the next; it is reconciled
    once, counted in both assessments, and charged for twice: the mark stands at 200.00. *)
Lemma boundary_profit_charged_twice :
  let b := serve_calls (billed ++ next_month) fee_books in
  realised b = 10000 /\ size (reconciled b) = 1%nat /\
  account_of b = Some (20000, 4000) /\ fees_paid b = 4000.
Proof. vm_compute. repeat split. Qed.

(** One event delivered twice at once, the second delivery one step ahead of the first: both find
    the assessment unpaid. *)
Lemma delivered_twice_together :
  let first_steps := replicate 2 (0%nat, Exec) ++ replicate 4 (1%nat, Exec) in
  let b := fst (exec DbUnavailable (first_steps ++ turns 2 40)
                  (unpaid_books, fee_run <$> [deliver "a" "ev1" "cs_1" 2000; deliver "b" "ev1" "cs_1" 2000])) in
  processed_events b = [true] /\ fees_paid b = 4000 /\ account_of b = Some (10000, 2000).
Proof. vm_compute. repeat split. Qed.
