(* ===== verification/CycleFailures.v ===== *)
(** * Cycles that cannot complete

    Two kinds of billing cycles that end FAILED however often they are run: those of a broker
    account whose period is longer than a reconciliation may be, and those whose period has an
    assessment that is no longer a draft. *)

From S2P Require Import Prelude Prog JsString Store Capital FeeRates ClosedTrades FeeBooks TradeLedger FeeAssessments FeePayments BillingCycles.
From S2P Require Import FeeGuarantees FeeRaces.
Open Scope string_scope.
Open Scope list_scope.
Open Scope Z_scope.

(** What a charge is made of. *)
Definition uncharged (b b' : Books) : Prop :=
  performances b' = performances b /\ assessments b' = assessments b /\ invoices b' = invoices b /\ payments b' = payments b.

Definition unledgered (b b' : Books) : Prop := ledger b' = ledger b /\ reconciled b' = reconciled b /\ runs b' = runs b.

(** And the cycles. *)
Definition aside (b b' : Books) : Prop := uncharged b b' /\ cycles b' = cycles b.

#[export] Instance uncharged_preorder : PreOrder uncharged.
Proof. unfold uncharged. split; [done|]. intros x y z (-> & -> & -> & ->) H. exact H. Qed.

#[export] Instance aside_preorder : PreOrder aside.
Proof. unfold aside. split; [done|]. intros x y z [H1 H2] [H3 H4]. split; [by etransitivity|congruence]. Qed.

Section running.
Context (closedTrades : string -> string -> Z -> Z -> result exn (list BrokerClosedTrade)) (message_of : exn -> string).

(** ** Failing *)

Lemma run_cycle_update id f b : run (cycle_update id f) b = (set_cycles (patch_row f id (cycles b)) b, Ok tt).
Proof. done. Qed.

Lemma run_fee_note action id b : run (fee_note action id) b = (set_notes (notes b ++ [(action, id)]) b, Ok tt).
Proof. done. Qed.

Lemma run_transition id status c b :
  cycles b !! id = Some c ->
  run (transition id status) b = (set_cycles (<[id := with_cycle_status status c]> (cycles b)) b, Ok tt).
Proof. intros Hc. unfold transition. rewrite run_cycle_update. unfold patch_row, update_row. by rewrite Hc. Qed.

Lemma run_fail id e c b :
  cycles b !! id = Some c ->
  let r := run (fail_with id e) b in
  let c' := cycle_ended B_FAILED (Some e) (clock b) c in
  snd r = Ok (Some c') /\ cycles (fst r) !! id = Some c' /\ uncharged b (fst r) /\ unledgered b (fst r).
Proof.
  intros Hc r c'. unfold r, fail_with, failCycle. rewrite !run_bind, run_read. rewrite run_bind, run_cycle_update. unfold patch_row, update_row. rewrite Hc.
  rewrite run_bind, run_read. cbn. rewrite lookup_insert_eq. done.
Qed.

(** ** Reconciliations *)

Lemma aside_reconciliation runId ids u c from to : guar aside (runReconciliation closedTrades runId ids u c from to).
Proof.
  assert (forall a i, guar aside (fee_note a i)) as Hn by (intros; by apply guar_note).
  assert (forall r, guar aside (run_insert r)) as Hr by (intros; by apply guar_on_table; [apply _|]).
  assert (forall i f, guar aside (run_update i f)) as Hu by (intros; by apply guar_on_table; [apply _|]).
  assert (forall e, guar aside (ledger_insert e)) as Hl by (intros; by apply guar_on_table; [apply _|]).
  assert (forall t, guar aside (reconciled_insert t)) as Hi by (intros; by apply guar_on_table; [apply _|]).
  assert (forall i f, guar aside (reconciled_update i f)) as Hp by (intros; by apply guar_on_table; [apply _|]).
  assert (forall l k n cur, guar aside (process_trades ids k u c runId cur l n)) as Hproc.
  { induction l as [|t l IH]; intros k n cur; cbn [process_trades]; [done|]. apply guar_bind; [apply guar_attempt|intros; apply IH].
    unfold processTradeAtomically, process_trade, process_existing, enter_trade. guar_walk; eauto. }
  unfold runReconciliation, findConnectionById, finaliseRun, run_of. guar_walk; eauto.
Qed.

(** A reconciliation run, once stored, stays. *)
Definition remains (runId : string) (b b' : Books) : Prop := is_Some (runs b !! runId) -> is_Some (runs b' !! runId).

#[local] Instance remains_preorder runId : PreOrder (remains runId).
Proof. unfold remains. split; [by intros x|]. intros x y z H1 H2 Hx. auto. Qed.

Lemma remains_same runId b b' : runs b' = runs b -> remains runId b b'.
Proof. unfold remains. by intros ->. Qed.

Lemma remains_note runId a i : guar (remains runId) (fee_note a i).
Proof. apply guar_note. intros. by apply remains_same. Qed.

Lemma remains_update runId i f : guar (remains runId) (run_update i f).
Proof.
  apply guar_on_table; [apply _|]. intros b m [= <-]. unfold remains. cbn. rewrite patch_row_lookup. case_decide; [|done].
  by intros [r ->].
Qed.

Lemma remains_process runId ids k u c r cur l n : guar (remains runId) (process_trades ids k u c r cur l n).
Proof.
  assert (forall e, guar (remains runId) (ledger_insert e)) as Hl by (intros; apply guar_on_table; [apply _|]; intros; by apply remains_same).
  assert (forall t, guar (remains runId) (reconciled_insert t)) as Hi by (intros; apply guar_on_table; [apply _|]; intros; by apply remains_same).
  assert (forall i f, guar (remains runId) (reconciled_update i f)) as Hp by (intros; apply guar_on_table; [apply _|]; intros; by apply remains_same).
  pose proof remains_note. revert k n. induction l as [|t l IH]; intros k n; cbn [process_trades]; [done|].
  apply guar_bind; [apply guar_attempt|intros; apply IH]. unfold processTradeAtomically, process_trade, process_existing, enter_trade. guar_walk; eauto.
Qed.

(** From a state with the run, an answer is not null. *)
Definition answering {A} (runId : string) (p : fio (option A)) : Prop :=
  forall b b' r, is_Some (runs b !! runId) -> run p b = (b', Ok r) -> is_Some r.

Lemma answering_bind {A B} runId (p : fio A) (f : A -> fio (option B)) :
  guar (remains runId) p -> (forall x, answering runId (f x)) -> answering runId (bind p f).
Proof.
  intros Hp Hf b b' r Hb. rewrite run_bind. pose proof (guar_run (remains runId) p b ltac:(typeclasses eauto) Hp Hb) as Hb1.
  destruct (run p b) as [b1 [x|e]]; [by apply Hf|done].
Qed.

Lemma answering_end runId : answering runId (run_of runId).
Proof. intros b b' r Hb. unfold run_of. rewrite run_read. by intros [= <- <-]. Qed.

Lemma reconciliation_answers runId ids u c from to b b' r :
  run (runReconciliation closedTrades runId ids u c from to) b = (b', Ok r) -> is_Some r.
Proof.
  unfold runReconciliation. rewrite run_bind, run_read, run_bind. destruct (validateTimeRange _ _ _); [|done]. cbn [of_result run]. rewrite run_bind.
  destruct (run (findConnectionById c u) b) as [b0 [conn|e]]; [|done]. destruct (negb _); [done|]. rewrite run_bind.
  destruct (validateAccountCurrency _) as [cur|e]; [|done]. cbn [of_result run]. rewrite run_bind. unfold run_insert. rewrite run_op. unfold on_table.
  destruct (insert_row _ _ _ _ _ _) as [m|e] eqn:Hins; [|done]. apply insert_row_ok in Hins as (-> & _ & _). cbn [rn_id] in *.
  match goal with |- run ?p ?s = _ -> _ => assert (answering runId p) as Ha; [|apply Ha; cbn; rewrite lookup_insert_eq; by eexists] end.
  pose proof remains_note. pose proof remains_update. pose proof remains_process.
  assert (forall st n cs e, guar (remains runId) (finaliseRun runId st n cs e)) as Hfin by (intros; unfold finaliseRun; guar_walk; eauto).
  repeat (apply answering_bind; [guar_walk; eauto|intros]). destruct (closedTrades runId c from to) as [raw|e];
    repeat (apply answering_bind; [guar_walk; eauto|intros]); [|apply answering_end].
  match goal with |- answering _ (let '(_, _) := ?x in _) => destruct x as [valid skipped] end.
  repeat (apply answering_bind; [guar_walk; eauto|intros]). apply answering_end.
Qed.

Lemma reconcile_runs ids id c b :
  cycles b !! id = Some c ->
  exists b1 r c1, run (reconcile_cycle closedTrades message_of ids id c) b = (b1, Ok r) /\ cycles b1 !! id = Some c1 /\ uncharged b b1.
Proof.
  intros Hc. unfold reconcile_cycle. rewrite run_bind, (run_transition id B_RECONCILING c b Hc).
  set (b1 := set_cycles _ b). assert (cycles b1 !! id = Some (with_cycle_status B_RECONCILING c)) as Hc1 by (cbn; by rewrite lookup_insert_eq).
  destruct (snd (bc_scope c)) as [conn|].
  2:{ rewrite run_bind, (run_transition id B_RECONCILED _ _ Hc1). eexists _, _, _. split; [reflexivity|]. cbn. by rewrite lookup_insert_eq. }
  rewrite run_bind, run_attempt.
  pose proof (guar_run aside _ b1 ltac:(typeclasses eauto) (aside_reconciliation (ci_run ids) (ci_trades ids) (fst (bc_scope c)) conn (bc_periodStart c) (bc_periodEnd c))) as [Hu Hcy].
  destruct (run (runReconciliation _ _ _ _ _ _ _) b1) as [b2 [r|e]] eqn:Hrun; cbn [fst] in *.
  2:{ eexists _, _, _. split; [reflexivity|]. rewrite Hcy. split; [exact Hc1|]. exact Hu. }
  apply reconciliation_answers in Hrun as [r' ->]. rewrite <- Hcy in Hc1.
  rewrite run_bind, run_cycle_update. unfold patch_row, update_row. rewrite Hc1. cbn [fst].
  case_bool_decide; [eexists _, _, _; split; [reflexivity|]; cbn; rewrite lookup_insert_eq; done|].
  rewrite run_bind, run_fee_note, run_bind, (run_transition id B_RECONCILED (with_run (rn_id r') (rn_newLedgerEntriesCreated r') (with_cycle_status B_RECONCILING c)))
    by (cbn; by rewrite lookup_insert_eq).
  eexists _, _, _. split; [reflexivity|]. cbn. rewrite lookup_insert_eq. done.
Qed.

Lemma calculate_conflict newId perfId s currency from to a b :
  findExistingAssessment s from to b = Some a -> as_status a <> A_DRAFT ->
  exists e, run (calculateAssessment newId perfId s currency from to) b = (b, Err e).
Proof.
  intros Ha Hs. unfold calculateAssessment. rewrite run_bind. destruct (validateAndNormalizeCurrency currency); [|by eexists]. cbn [of_result run].
  rewrite run_bind. unfold findActiveGlobalPolicy. rewrite run_bind, run_read. destruct (active_policies b) as [|? []]; [by eexists| |by eexists]. cbn [run].
  rewrite run_bind, run_read, Ha, bool_decide_eq_false_2 by done. by eexists.
Qed.

(** ** The theorems *)

Lemma startable_runs ids id c b :
  cycles b !! id = Some c -> startable (bc_status c) = true ->
  run (runBillingCycle closedTrades message_of ids id) b =
  run (let* failed := reconcile_cycle closedTrades message_of ids id c in
       match failed with Some e => fail_with id e | None => assess_cycle message_of ids id c end)%prog
    (set_notes (notes b ++ [("PERFORMANCE_BILLING_CYCLE_STARTED", id)]) b).
Proof.
  intros Hc Hs. unfold runBillingCycle. rewrite run_bind. unfold getBillingCycle. rewrite run_bind, run_read, Hc. cbn [run].
  assert (final_cycle (bc_status c) = false) as -> by by destruct (bc_status c). by rewrite Hs.
Qed.

(** C35: A period with an assessment that is no longer a draft cannot be billed by its cycle.  The
    cycle may be DRAFT or FAILED, as it is after a run whose invoice failed: a run, whatever the
    broker answers, always ends FAILED, answers the failed cycle, and makes no assessment,
    invoice or payment, so an assessment without its invoice never gets it this way. *)
Theorem cycle_never_completes ids id c a b :
  cycles b !! id = Some c -> startable (bc_status c) = true ->
  findExistingAssessment (bc_scope c) (bc_periodStart c) (bc_periodEnd c) b = Some a -> as_status a <> A_DRAFT ->
  let r := run (runBillingCycle closedTrades message_of ids id) b in
  exists c', snd r = Ok (Some c') /\ cycles (fst r) !! id = Some c' /\ bc_status c' = B_FAILED /\ uncharged b (fst r).
Proof.
  intros Hc Hs Ha Hst. cbv zeta. rewrite (startable_runs ids id c b Hc Hs). set (b0 := set_notes _ b).
  destruct (reconcile_runs ids id c b0 Hc) as (b1 & failed & c1 & Hr & Hc1 & Hu). rewrite run_bind, Hr. assert (uncharged b b1) as Hu1 by exact Hu.
  destruct failed as [e|].
  - destruct (run_fail id e c1 b1 Hc1) as (-> & Hl & Hu2 & _). eexists. split; [reflexivity|]. split; [exact Hl|]. split; [done|]. by etransitivity.
  - unfold assess_cycle. rewrite run_bind, (run_transition id B_ASSESSING c1 b1 Hc1). set (b2 := set_cycles _ b1).
    assert (findExistingAssessment (bc_scope c) (bc_periodStart c) (bc_periodEnd c) b2 = Some a) as Ha2.
    { unfold findExistingAssessment in *. destruct Hu1 as (_ & Hua & _). cbn. by rewrite Hua. }
    destruct (calculate_conflict (ci_assessment ids) (ci_performance ids) _ (Some (bc_currency c)) _ _ a b2 Ha2 Hst) as [e He].
    rewrite run_bind, run_attempt, He. assert (cycles b2 !! id = Some (with_cycle_status B_ASSESSING c1)) as Hc2 by (cbn; by rewrite lookup_insert_eq).
    destruct (run_fail id (message_of e) _ b2 Hc2) as (-> & Hl & Hu2 & _). eexists. split; [reflexivity|]. split; [exact Hl|]. split; [done|].
    etransitivity; [exact Hu1|exact Hu2].
Qed.

(** C36: Cycles longer than a reconciliation may be fail.  A cycle of a broker account may be created
    for up to 366 days; if its period is longer than 90, such as a quarter, every run ends
    FAILED before anything is read from the broker: it answers the failed cycle and changes no
    ledger entry, reconciled trade, reconciliation run, assessment, account, invoice or payment. *)
Theorem long_cycle_fails ids id c connectionId b :
  cycles b !! id = Some c -> startable (bc_status c) = true -> snd (bc_scope c) = Some connectionId ->
  MAX_WINDOW_DAYS * DAY_MS < bc_periodEnd c - bc_periodStart c ->
  let r := run (runBillingCycle closedTrades message_of ids id) b in
  exists c', snd r = Ok (Some c') /\ cycles (fst r) !! id = Some c' /\ bc_status c' = B_FAILED /\ uncharged b (fst r) /\ unledgered b (fst r).
Proof.
  intros Hc Hs Hconn Hlong. cbv zeta. rewrite (startable_runs ids id c b Hc Hs). set (b0 := set_notes _ b).
  assert (cycles b0 !! id = Some c) as Hc0 by exact Hc.
  rewrite run_bind. unfold reconcile_cycle. rewrite run_bind, (run_transition id B_RECONCILING c b0 Hc0), Hconn. set (b1 := set_cycles _ b0).
  assert (cycles b1 !! id = Some (with_cycle_status B_RECONCILING c)) as Hc1 by (cbn; by rewrite lookup_insert_eq).
  rewrite run_bind, run_attempt. unfold runReconciliation. rewrite run_bind, run_read, run_bind.
  assert (exists e, validateTimeRange (clock b1) (bc_periodStart c) (bc_periodEnd c) = Err e) as [e ->].
  { unfold validateTimeRange. destruct (_ <=? _); [by eexists|]. destruct (_ <? _); [by eexists|]. rewrite (proj2 (Z.ltb_lt _ _) Hlong). by eexists. }
  cbn [of_result run]. destruct (run_fail id (message_of e) _ b1 Hc1) as (-> & Hl & Hu2 & Hn). eexists. split; [reflexivity|].
  split; [exact Hl|]. split; [done|]. split; [exact Hu2|exact Hn].
Qed.
End running.

(** ** Samples *)

(** The cycle of a quarter, January to March of a leap year. *)
Definition quarter_books : Books := serve_calls [CreateBillingCycle "bc" fee_scope (day 0) (day 91) "USD"] fee_books.

Lemma long_cycle_fails_witness :
  exists c, cycles quarter_books !! "bc" = Some c /\ bc_periodEnd c - bc_periodStart c = day 91 /\
  exists c', snd (run (runBillingCycle fee_trades fee_message (cycle_ids "a") "bc") quarter_books) = Ok (Some c') /\ bc_status c' = B_FAILED.
Proof.
  exists (draft_cycle "bc" fee_scope (day 0) (day 91) "USD"). split; [vm_compute; reflexivity|]. split; [reflexivity|].
  destruct (long_cycle_fails fee_trades fee_message (cycle_ids "a") "bc" (draft_cycle "bc" fee_scope (day 0) (day 91) "USD") "c1" quarter_books)
    as (c' & Hr & _ & Hf & _); [vm_compute; reflexivity|reflexivity|reflexivity|reflexivity|]. by exists c'.
Defined.

(** A run of the sample's cycle whose invoice does not reach the database. *)
Definition invoice_lost : list (nat * delivery) := replicate 41 (0%nat, Exec) ++ [(0%nat, Down)] ++ replicate 9 (0%nat, Exec).

Definition stuck_books : Books := fst (exec DbUnavailable invoice_lost (fee_books, [fee_run (bill "a" (day 0) (day 30))])).

Definition statuses (b : Books) : option BillingCycleStatus * list AssessmentStatus * nat :=
  (bc_status <$> cycles b !! "abc", (fun x => as_status (snd x)) <$> map_to_list (assessments b), size (invoices b)).

Lemma cycle_never_completes_witness :
  statuses stuck_books = (Some B_FAILED, [A_ASSESSED], 0%nat) /\
  exists c', snd (run (runBillingCycle fee_trades fee_message (cycle_ids "b") "abc") stuck_books) = Ok (Some c') /\ bc_status c' = B_FAILED /\
    size (invoices (fst (run (runBillingCycle fee_trades fee_message (cycle_ids "b") "abc") stuck_books))) = 0%nat.
Proof.
  split; [vm_compute; reflexivity|].
  assert (exists c, cycles stuck_books !! "abc" = Some c /\ startable (bc_status c) = true /\
            bc_scope c = fee_scope /\ bc_periodStart c = day 0 /\ bc_periodEnd c = day 30) as (c & Hc & Hs & Hscope & Hfrom & Hto).
  { eexists. split; [vm_compute; reflexivity|]. repeat split. }
  assert (exists a, findExistingAssessment fee_scope (day 0) (day 30) stuck_books = Some a /\ as_status a = A_ASSESSED) as (a & Ha & Hst).
  { eexists. split; [vm_compute; reflexivity|reflexivity]. }
  destruct (cycle_never_completes fee_trades fee_message (cycle_ids "b") "abc" c a stuck_books Hc Hs) as (c' & Hr & _ & Hf & Hu).
  { by rewrite Hscope, Hfrom, Hto. }
  { by rewrite Hst. }
  exists c'. split; [exact Hr|]. split; [exact Hf|]. destruct Hu as (_ & _ & -> & _). vm_compute. reflexivity.
Defined.

(** A status that is lost outside the steps' own failure handling: the cycle stays where it is,
    and can neither be run nor cancelled. *)
Lemma cycle_left_midway :
  let b := fst (exec DbUnavailable (replicate 24 (0%nat, Exec) ++ [(0%nat, Down)]) (fee_books, [fee_run (bill "a" (day 0) (day 30))])) in
  (bc_status <$> cycles b !! "abc") = Some B_RECONCILED /\
  snd (run (fee_run (bill "b" (day 0) (day 30))) b) = Err (ConflictException "A billing cycle is already running for this period") /\
  snd (run (fee_run (RunBillingCycle (cycle_ids "b") "abc")) b) = Err (BadRequestException "Only DRAFT or FAILED cycles can be run") /\
  snd (run (fee_run (CancelBillingCycle "abc" "r")) b) = Err (BadRequestException "Only DRAFT or FAILED cycles can be cancelled").
Proof. vm_compute. repeat split. Qed.
